(* ===== verification/_CoqProject ===== *)
-Q . S2P
Prelude.v
GoStd.v
Framing.v
Protocol.v
Sha256.v
SourceCapacity.v
Snapshot.v
SourceCapture.v
Dispatcher.v
DispatcherProofs.v
DispatcherLoops.v
ToolClient.v
ProvidedAssets.v
AssetManifest.v
Json.v
FeatureStore.v
FeatureProofs.v
FeatureRefine.v
HostService.v
ArchiveRecord.v
RunGate.v
RunGateProofs.v
JsonTree.v
OperatorLedger.v
OperatorLedgerProofs.v
OperatorRequests.v
OperatorRequestsProofs.v
DynamicCall.v
DynamicCallProofs.v
JsonCompact.v
JsonStruct.v
JsonAscii.v
Hardware.v
HardwareProofs.v
LiveArchive.v
LiveRun.v
LiveRunProofs.v
Planning.v
PlanningProofs.v
CodexApp.v
CodexAppProofs.v
CodexServer.v
CodexServerProofs.v
AgentTools.v
AgentToolsProofs.v
SessionState.v
Session.v
SessionInv.v
SessionProofs.v
BootstrapRequest.v
BootstrapRequestProofs.v
BootstrapStore.v
BootstrapText.v
BootstrapStoreProofs.v
BootstrapService.v
BootstrapServiceProofs.v
BootstrapProvision.v
BootstrapProvisionProofs.v
