(* ===== verification/Prelude.v ===== *)
(** * CodexOS harness: verification development

    CodexOS lets a language model develop an operating system from inside the
    guest it runs in. The Go harness under src/internal owns everything the guest
    cannot: the serial link, the tool and host-service protocols, the trusted
    build, the durable records of a run and the decision which generation comes
    next. This library models the parts of the harness that carry its own logic
    and proves what makes them correct. Definitions are translated from the
    source and keep its names; errors are values of the type [GoStd.error] in the
    result monad of [GoStd], machine integers are [Z] with their wrap-around
    written out, byte slices and strings are lists of bytes.

    ** Parts of the program and where they are modelled

    Foundations.
    - Prelude: bytes, lengths, slices, little-endian integers, the tactics and
      hint databases.
    - GoStd: the functions of the Go standard library the sources call (utf8,
      strings, strconv, sort), formatted text, errors, results.
    - Sha256: crypto/sha256. Json: the part of encoding/json the feature store
      uses. JsonTree: the values of encoding/json, its parser, the indented text
      and the decoding into records. JsonCompact: the compact text with its
      escapes, objects with sorted keys, and encoding/base64. JsonAscii: the
      indented text in ASCII. JsonStruct: structures as tables of fields, and the
      strict decoder of bootstrap/request.go.

    The guest link (src/internal/guest).
    - Framing: framing.go. Protocol: protocol.go.
    - SourceCapacity (src/internal/sourcecapacity/capacity.go), Snapshot
      (snapshot.go), SourceCapture (source_capture.go, against a class for the
      guest's list and read tools).
    - Dispatcher: dispatcher.go, one definition per critical section; the reader
      goroutine, the one exchange and the closer are the steps of a transition
      system in DispatcherProofs; DispatcherLoops treats the consumption loops.
    - ToolClient: tool_client.go and diagnostic.go, against a class for the link
      that states what the dispatcher is shown to do.

    The stores (src/internal/store).
    - ProvidedAssets: provided_assets.go. AssetManifest:
      provided_assets_manifest.go on parsed manifests.
    - OperatorLedger: operator_requests.go, the ledger text, its validation, the
      two updates of the directory and the inheritance of a ledger
      (inheritOperatorRequests of cross_run_bootstrap.go).
      OperatorLedgerProofs: the ledger over sequences of operations.
    - FeatureStore: feature_requests.go, the record codec and the operations on
      the directory. FeatureProofs: records and names. FeatureRefine: the
      directory as a map of requests.

    The session (src/internal/build/host_service.go).
    - HostService: the build, finish and feature-request services. What the
      compiler, the validator, the provenance recorder and the bootstrap service
      answer is an argument of each request, so the theorems hold for all answers.

    The run (src/internal/experiment).
    - ArchiveRecord: archive names, metadata, reading and validating archives,
      publishing an aborted one (runtime.go, archive.go), operator feedback
      (abort_reason.go).
    - RunGate: the process-free run object of runtime.go and source_capacity.go.
      RunGateProofs: its invariant.
    - LiveArchive: the archives of completed generations (archive.go) and the
      evidence of aborted ones. LiveRun: live.go and live_lifecycle.go, a live
      run with its generation, one operation a step, with the answers of QEMU,
      the guest and the file system as arguments. LiveRunProofs: archives and the
      gate over sequences of operations.
    - Hardware (src/internal/qemu/hardware.go): profiles, QEMU arguments,
      manifests, version discovery. HardwareProofs: their guarantees.
    - OperatorRequests: operator_requests.go, the requests as a run shows and
      changes them. OperatorRequestsProofs: its count of active requests, the
      lineage of generations and the views.

    The conversation (src/internal/codexapp, src/internal/agent).
    - CodexApp: message.go, token_usage.go and the sequential parts of
      app_server.go (what is sent, and which answers are accepted).
      CodexAppProofs: messages, token totals, models and threads.
    - CodexServer: the concurrent part of app_server.go: queues, the table of
      pending requests, the reader, the loop that answers the server's own
      requests, failure and shutdown, one definition per critical section and a
      relation [server_step] that interleaves them. CodexServerProofs: its
      invariant.
    - DynamicCall: dynamic_call.go, the routing of the model's tool calls.
      DynamicCallProofs: its invariant under interleaving.
    - Planning (src/internal/provenance/planning.go): the evidence of planning,
      with every write that can fail. PlanningProofs: its guarantees.
    - SessionState: the sections of the generation session of generation.go and
      review_yield.go that hold its mutex, one definition each. Session: the
      goroutines that run them, as a transition system [system_step]. SessionInv:
      its invariant. SessionProofs: turns, plans, reviews, interviews and closes.
    - AgentTools: the tool layer of generation.go, operator_requests.go of the
      agent, the read-only tools of reviewer.go and the captured snapshot of
      review_yield.go. AgentToolsProofs: what a call can reach, and that what
      the model and the guest see is exact.

    Bootstrap jobs (src/internal/bootstrap).
    - BootstrapRequest: request.go and the staging of worker_linux.go: requests,
      their validation, the limits, what a worker accepts. BootstrapStore:
      storage.go, the store of a run with publication, quotas, reads, recovery,
      archives and garbage collection. BootstrapProvision: provisioning and
      inheritance of storage.go. BootstrapService: service.go, one definition per
      section of a request, and [service_step], which interleaves them with the
      other operations on the run and its storage.
    - BootstrapRequestProofs, BootstrapText (the texts of the store read back),
      BootstrapStoreProofs, BootstrapServiceProofs, BootstrapProvisionProofs.
      The text of a time is a parameter, the class [TimeFormat], whose laws are
      that it is UTF-8 and reads back within its range.

    ** What the theorems show

    - Framing and payloads: the incremental extractor delivers exactly the frames
      sent for every fragmentation, agrees with the stream reader, and never
      changes its mind; each payload decoder accepts exactly its wire form.
    - Snapshots: accepted paths stay below seed/, framing and parsing are inverse,
      sizes are bounded, the canonical form does not depend on order, and capture
      yields the complete tree or reports the budget exceeded.
    - Dispatcher: under every interleaving the write queue is bounded and exact,
      bytes leave in order, a response answers its own request, host accounting is
      exact, a timeout is justified, and the loops end.
    - Assets: a frozen set is canonical, reads are exact and reassemble the asset,
      manifests are append-only; what another process writes between the second
      reading of a manifest and its replacement is lost, and nothing else is.
    - Feature requests: records round trip, the directory refines a map of
      requests, identifiers are never reused, decisions are final under every
      fault of the file system; a temporary file that cannot be removed makes the
      store unreadable, and nothing else does.
    - Host services: a finish selects only a candidate whose exact source was
      built, validated and recorded in the same session, and freezes it.
    - Run gate: the archived history stays valid and only grows, whatever the
      sequence of operations and failures. One theorem shows a defect: an allowed
      abort reason can be attached as feedback that is too large to be read back,
      after which the run cannot be opened.
    - Operator requests: the ledger is append-only through every sequence of
      operations and faults, also across runs; a verification names a report of
      an implementor; the view shows the latest report; the run counts the active
      requests exactly, except after a fault between rename and sync, which one
      theorem exhibits.
    - Conversation: responses reach the request they answer, nobody waits for a
      server that has failed or stopped, queues are bounded and in order, only
      threads under the required policy are used, token deltas add up.
    - Dynamic calls and tools: each call has at most one outcome and a settled
      turn admits no more; no tool that changes the guest is reachable while
      planning; a reviewer reads exactly the captured source; the text of a result
      reads back exactly, unless it is text that spells the escape of a line
      separator, and then never.

    - Live run: whatever fails, archives stay valid and only grow, a finish
      archives exactly the proven candidate, a generation that cannot be entered
      leaves nothing but a workspace that could not be removed and the directory of
      the harness records, and the gate can be opened again from the directory.
      QEMU is started exactly as the profile says.
    - Session: at most one turn at a time, an implementation only after a plan
      that is durable, none after a requested stop, only interview turns after the
      first one, nothing after a close; two examples are schedules in which a
      review left pending spoils a plan and defeats a pause.
    - Bootstrap jobs: a worker stages exactly the declared inputs; publication is
      atomic, within quotas and read back exactly; archived jobs survive every
      history; a suspended service commits nothing; an unclean job blocks the
      service until a recovery, and later services too if the blocking record
      reached the disk; success is reported only for a listed job; an inheriting
      run has the same jobs, byte for byte. One theorem follows a publication that
      is answered as failed into the archive that lists it all the same, one
      exhibits a request that the harness accepts and every worker refuses.

    ** Bounds and fuel

    Loops that are not structural carry fuel that is shown to suffice: the
    dispatcher's consumption loops by their buffer ([consumeIncoming_total]), the
    pax length search by its result ([paxRecord_self_describing]); decimal
    conversion uses twenty digits, enough for 64 bits ([strconv.Itoa_spec]); rune
    decoding uses the length of its text, one step per rune of at least a byte.
    JSON scanning uses the length of the text, JSON parsing twice that, one step
    for each value and separator ([JsonTree]); the search for ancestors uses the
    number of generations ([eligible_is_lineage]); the pages of the model catalog
    carry a bound that no larger bound changes ([model_offered]); an asset is read
    in at most 64 pieces, enough for the quota of inputs ([asset_read_whole]).

    ** Faults

    Where a record is published by rename or link, the fault of the file system is
    an argument: none, before the publication, or after it. What the code leaves
    behind when a cleanup whose error it ignores fails is an argument too, where a
    reader of the directory meets it: the temporary file of a feature request
    ([recordFault]), the staging directory of an archive ([publishing]), the
    workspace of a boot ([closing]), the stage of a bootstrap job ([publish_env]).
    The replacement of an assets manifest reads the file again before it renames,
    and both files are arguments ([encounter]). Goroutines appear in
    Dispatcher, DynamicCall, CodexServer, Session and BootstrapService, as steps
    that interleave; elsewhere a mutex makes each method one step.

    ** Not modelled

    Input and output themselves (sockets in serial.go, processes and QMP sockets
    of QEMU, child processes, containers, git), the trusted compiler and candidate
    validator, the conversation of a reviewer with the model, the import of one
    run's state into another (cross_run_bootstrap.go, but for the ledger and the
    bootstrap store), the forensic and git records of provenance, observability,
    the terminal interface, and the C guest under src/seed. In the modelled parts
    the temporary files that no reader of their directory meets, event payloads and
    most paths in error texts are left out. *)

From Stdlib Require Export ZArith Lia Strings.Byte.
From stdpp Require Export base tactics list list_numbers gmap strings sorting.

Open Scope Z_scope.

(** ** Hint databases and tactics of the development *)

(** [len]: arithmetic facts on lengths, rewritten by [autorewrite with len].
    [go]: facts on results and machine integers, for [eauto with go]. *)
Create HintDb go.
Create Rewrite HintDb len.

(** Case analysis on the boolean tests a Go condition is translated to. *)
Ltac zbool :=
  repeat match goal with
  | H : (_ || _) = true |- _ => apply orb_true_iff in H
  | H : (_ || _) = false |- _ => apply orb_false_iff in H; destruct H
  | H : (_ && _) = true |- _ => apply andb_true_iff in H; destruct H
  | H : negb _ = true |- _ => apply negb_true_iff in H
  | H : negb _ = false |- _ => apply negb_false_iff in H
  | H : (_ <? _) = true |- _ => apply Z.ltb_lt in H
  | H : (_ <? _) = false |- _ => apply Z.ltb_ge in H
  | H : (_ <=? _) = true |- _ => apply Z.leb_le in H
  | H : (_ <=? _) = false |- _ => apply Z.leb_gt in H
  | H : (_ =? _) = true |- _ => apply Z.eqb_eq in H
  | H : (_ =? _) = false |- _ => apply Z.eqb_neq in H
  | H : bool_decide _ = true |- _ => apply bool_decide_eq_true in H
  | H : bool_decide _ = false |- _ => apply bool_decide_eq_false in H
  end.

(** Split the outermost [if] or [match] of a hypothesis, keeping equations. *)
Ltac case_in H :=
  match type of H with
  | context [ if ?c then _ else _ ] => destruct c eqn:?
  | context [ match ?c with _ => _ end ] => destruct c eqn:?
  end.

Ltac case_goal :=
  match goal with
  | |- context [ if ?c then _ else _ ] => destruct c eqn:?
  | |- context [ match ?c with _ => _ end ] => destruct c eqn:?
  end.

(** Decide an [if] in the goal whose test [lia] settles. *)
Ltac zif_true := rewrite (proj2 (Z.ltb_lt _ _)) by lia || rewrite (proj2 (Z.leb_le _ _)) by lia
  || rewrite (proj2 (Z.eqb_eq _ _)) by lia.
Ltac zif_false := rewrite (proj2 (Z.ltb_ge _ _)) by lia || rewrite (proj2 (Z.leb_gt _ _)) by lia
  || rewrite (proj2 (Z.eqb_neq _ _)) by lia.

(** ** Bytes *)

(** A Go [byte] is [Byte.byte]; a Go [[]byte] and a Go [string] are both byte
    sequences and share the type [bytes]. *)
Abbreviation bytes := (list byte).

#[global] Instance byte_eq_decision : EqDecision byte := Byte.byte_eq_dec.

#[global] Instance byte_countable : Countable byte :=
  inj_countable Byte.to_N Byte.of_N Byte.of_to_N.

Definition b2z (b : byte) : Z := Z.of_N (Byte.to_N b).
Definition z2b (z : Z) : byte := default x00 (Byte.of_N (Z.to_N (z mod 256))).

Lemma b2z_range b : 0 ≤ b2z b < 256.
Proof. unfold b2z. pose proof (Byte.to_N_bounded b). lia. Qed.

Lemma b2z_z2b z : b2z (z2b z) = z mod 256.
Proof.
  unfold b2z, z2b. pose proof (Z.mod_pos_bound z 256 ltac:(lia)).
  destruct (Byte.of_N (Z.to_N (z mod 256))) as [b|] eqn:E; simpl.
  - rewrite (Byte.to_of_N _ E). lia.
  - apply Byte.of_N_None_iff in E. lia.
Qed.

Lemma z2b_b2z b : z2b (b2z b) = b.
Proof.
  unfold z2b. rewrite Z.mod_small by apply b2z_range.
  unfold b2z. by rewrite N2Z.id, Byte.of_to_N.
Qed.

Lemma b2z_inj b1 b2 : b2z b1 = b2z b2 → b1 = b2.
Proof. intros E. by rewrite <-(z2b_b2z b1), E, z2b_b2z. Qed.

(** A string literal of the source, as bytes. *)
Definition bs (s : string) : bytes := String.list_byte_of_string s.

(** ** Lengths and slices *)

(** Go's [len], an [int]. *)
Definition len {A} (l : list A) : Z := Z.of_nat (length l).

Lemma len_nonneg {A} (l : list A) : 0 ≤ len l.
Proof. unfold len. lia. Qed.

Lemma to_nat_len {A} (l : list A) : Z.to_nat (len l) = length l.
Proof. apply Nat2Z.id. Qed.

Lemma len_nil {A} : len (@nil A) = 0.
Proof. done. Qed.

Lemma len_cons {A} (x : A) l : len (x :: l) = 1 + len l.
Proof. unfold len. simpl. lia. Qed.

Lemma len_app {A} (l k : list A) : len (l ++ k) = len l + len k.
Proof. unfold len. rewrite length_app. lia. Qed.

Lemma len_0 {A} (l : list A) : len l = 0 ↔ l = [].
Proof. unfold len. destruct l; simpl; split; try done; lia. Qed.

(** [takeZ n l] and [dropZ n l] are the Go slices [l[:n]] and [l[n:]] for
    [0 <= n <= len(l)]. *)
Definition takeZ {A} (n : Z) (l : list A) : list A := take (Z.to_nat n) l.
Definition dropZ {A} (n : Z) (l : list A) : list A := drop (Z.to_nat n) l.
(** [l[a:b]] *)
Definition slice {A} (a b : Z) (l : list A) : list A := takeZ (b - a) (dropZ a l).

Lemma len_takeZ {A} n (l : list A) : 0 ≤ n ≤ len l → len (takeZ n l) = n.
Proof. unfold len, takeZ. rewrite length_take. lia. Qed.

Lemma len_takeZ_min {A} n (l : list A) : 0 ≤ n → len (takeZ n l) = Z.min n (len l).
Proof. unfold len, takeZ. rewrite length_take. lia. Qed.

Lemma len_dropZ {A} n (l : list A) : 0 ≤ n ≤ len l → len (dropZ n l) = len l - n.
Proof. unfold len, dropZ. rewrite length_drop. lia. Qed.

Lemma takeZ_app {A} n (l k : list A) : n = len l → takeZ n (l ++ k) = l.
Proof. intros ->. unfold takeZ, len. by rewrite Nat2Z.id, take_app_length. Qed.

Lemma dropZ_app {A} n (l k : list A) : n = len l → dropZ n (l ++ k) = k.
Proof. intros ->. unfold dropZ, len. by rewrite Nat2Z.id, drop_app_length. Qed.

Lemma takeZ_dropZ {A} n (l : list A) : takeZ n l ++ dropZ n l = l.
Proof. apply take_drop. Qed.

Lemma takeZ_all {A} n (l : list A) : len l ≤ n → takeZ n l = l.
Proof. unfold takeZ, len. intros. apply take_ge. lia. Qed.

Lemma dropZ_0 {A} (l : list A) : dropZ 0 l = l.
Proof. done. Qed.

Lemma takeZ_0 {A} (l : list A) : takeZ 0 l = [].
Proof. done. Qed.

Lemma dropZ_dropZ {A} n m (l : list A) :
  0 ≤ n → 0 ≤ m → dropZ n (dropZ m l) = dropZ (m + n) l.
Proof. intros. unfold dropZ. rewrite drop_drop. f_equal. lia. Qed.

Lemma takeZ_app_le {A} n (l k : list A) : 0 ≤ n ≤ len l → takeZ n (l ++ k) = takeZ n l.
Proof. unfold takeZ, len. intros. apply take_app_le. lia. Qed.

Lemma dropZ_app_le {A} n (l k : list A) : 0 ≤ n ≤ len l → dropZ n (l ++ k) = dropZ n l ++ k.
Proof. unfold dropZ, len. intros. apply drop_app_le. lia. Qed.

Lemma len_split {A} n (l : list A) :
  0 ≤ n ≤ len l → ∃ l1 l2, l = l1 ++ l2 ∧ len l1 = n.
Proof.
  intros H. exists (takeZ n l), (dropZ n l).
  by rewrite takeZ_dropZ, len_takeZ.
Qed.

Lemma slice_app {A} a b (l k m : list A) :
  len l = a → len k = b - a → slice a b (l ++ k ++ m) = k.
Proof. intros Ha Hb. unfold slice. rewrite dropZ_app by done. by apply takeZ_app. Qed.

Lemma slice_app_end {A} a b (l k : list A) :
  len l = a → len k = b - a → slice a b (l ++ k) = k.
Proof. intros. rewrite <-(app_nil_r (l ++ k)), <-app_assoc. by apply slice_app. Qed.

#[export] Hint Rewrite @len_nil @len_cons @len_app : len.
#[export] Hint Resolve len_nonneg : go.

Ltac len_simp := autorewrite with len in *.

(** [lia] with the non-negativity of every length in sight. *)
Ltac len_facts :=
  repeat match goal with
  | |- context [len ?l] => lazymatch goal with H : 0 ≤ len l |- _ => fail | _ => pose proof (len_nonneg l) end
  | _ : context [len ?l] |- _ => lazymatch goal with H : 0 ≤ len l |- _ => fail | _ => pose proof (len_nonneg l) end
  end.
Ltac llia := len_simp; len_facts; lia.

(** Boolean quantifiers over lists. *)
Lemma existsb_false {A} (f : A → bool) l : existsb f l = false ↔ Forall (λ x, f x = false) l.
Proof.
  induction l as [|x l IH]; simpl; [done|].
  rewrite orb_false_iff, Forall_cons, IH. done.
Qed.
Lemma forallb_true {A} (f : A → bool) l : forallb f l = true ↔ Forall (λ x, f x = true) l.
Proof.
  induction l as [|x l IH]; simpl; [done|].
  rewrite andb_true_iff, Forall_cons, IH. done.
Qed.

(** Unfolding [concat-map] without unfolding the function. *)
Lemma lbind_cons {A B} (f : A → list B) x l : (x :: l) ≫= f = f x ++ (l ≫= f).
Proof. done. Qed.
Lemma lbind_nil {A B} (f : A → list B) : [] ≫= f = [].
Proof. done. Qed.

Lemma list_bind_ext_in {A B} (f g : A → list B) l :
  (∀ x, x ∈ l → f x = g x) → l ≫= f = l ≫= g.
Proof.
  induction l as [|x l IH]; intros H; [done|].
  rewrite !lbind_cons, (H x), IH by set_solver. done.
Qed.

(** ** Fixed-width unsigned integers *)

Definition u16 (z : Z) : Prop := 0 ≤ z < 2 ^ 16.
Definition u32 (z : Z) : Prop := 0 ≤ z < 2 ^ 32.
Definition u64 (z : Z) : Prop := 0 ≤ z < 2 ^ 64.
(** Conversion to a narrower unsigned type, and unsigned overflow. *)
Definition wrap16 (z : Z) : Z := z mod 2 ^ 16.
Definition wrap32 (z : Z) : Z := z mod 2 ^ 32.
Definition wrap64 (z : Z) : Z := z mod 2 ^ 64.
Definition max_uint32 : Z := 2 ^ 32 - 1.
Definition max_uint64 : Z := 2 ^ 64 - 1.

(** ** Little-endian encoding (package encoding/binary) *)

Fixpoint le_bytes (n : nat) (z : Z) : bytes :=
  match n with
  | O => []
  | S n => z2b z :: le_bytes n (Z.shiftr z 8)
  end.

Fixpoint le_value (l : bytes) : Z :=
  match l with
  | [] => 0
  | b :: l => b2z b + 256 * le_value l
  end.

Lemma length_le_bytes n z : length (le_bytes n z) = n.
Proof. revert z. induction n; intros; simpl; auto. Qed.

Lemma len_le_bytes n z : len (le_bytes n z) = Z.of_nat n.
Proof. unfold len. by rewrite length_le_bytes. Qed.
#[export] Hint Rewrite len_le_bytes : len.

Lemma le_value_bytes n z : le_value (le_bytes n z) = z mod 2 ^ (8 * Z.of_nat n).
Proof.
  revert z. induction n as [|n IH]; intros z; cbn [le_bytes le_value].
  - by rewrite Z.mod_1_r.
  - rewrite IH, b2z_z2b, Z.shiftr_div_pow2 by lia.
    replace (8 * Z.of_nat (S n)) with (8 + 8 * Z.of_nat n) by lia.
    rewrite Z.pow_add_r by lia. change (2 ^ 8) with 256.
    rewrite (Z.rem_mul_r z 256 (2 ^ (8 * Z.of_nat n))); [lia|lia|].
    apply Z.pow_pos_nonneg; lia.
Qed.

Lemma le_value_range l : 0 ≤ le_value l < 2 ^ (8 * len l).
Proof.
  induction l as [|b l IH]; cbn [le_value].
  - unfold len. simpl. lia.
  - rewrite len_cons. pose proof (b2z_range b).
    replace (8 * (1 + len l)) with (8 + 8 * len l) by lia.
    rewrite Z.pow_add_r by llia. change (2 ^ 8) with 256. nia.
Qed.

Lemma le_bytes_value l : le_bytes (length l) (le_value l) = l.
Proof.
  induction l as [|b l IH]; cbn [le_bytes le_value length]; [done|].
  pose proof (b2z_range b).
  assert (Z.shiftr (b2z b + 256 * le_value l) 8 = le_value l) as ->.
  { rewrite Z.shiftr_div_pow2 by lia. change (2 ^ 8) with 256.
    rewrite Z.mul_comm, Z.div_add by lia. rewrite Z.div_small; lia. }
  rewrite IH. f_equal. apply b2z_inj. rewrite b2z_z2b.
  rewrite Z.mul_comm, Z.mod_add by lia. by apply Z.mod_small.
Qed.

Lemma le_bytes_value_len n l : len l = Z.of_nat n → le_bytes n (le_value l) = l.
Proof. unfold len. intros E. apply Nat2Z.inj in E. subst n. apply le_bytes_value. Qed.

(** [binary.LittleEndian.PutUint16/PutUint32] and [Uint16/Uint32]. *)
Definition put16 (z : Z) : bytes := le_bytes 2 z.
Definition put32 (z : Z) : bytes := le_bytes 4 z.
Definition get16 (l : bytes) : Z := le_value (takeZ 2 l).
Definition get32 (l : bytes) : Z := le_value (takeZ 4 l).

Lemma len_put16 z : len (put16 z) = 2.
Proof. apply len_le_bytes. Qed.
Lemma len_put32 z : len (put32 z) = 4.
Proof. apply len_le_bytes. Qed.
#[export] Hint Rewrite len_put16 len_put32 : len.

Lemma get16_put16 z r : u16 z → get16 (put16 z ++ r) = z.
Proof.
  intros [? ?]. unfold get16. rewrite takeZ_app by by rewrite len_put16.
  unfold put16. rewrite le_value_bytes. by apply Z.mod_small.
Qed.

Lemma get32_put32 z r : u32 z → get32 (put32 z ++ r) = z.
Proof.
  intros [? ?]. unfold get32. rewrite takeZ_app by by rewrite len_put32.
  unfold put32. rewrite le_value_bytes. by apply Z.mod_small.
Qed.

Lemma get16_put16_exact z : u16 z → get16 (put16 z) = z.
Proof. intros. by rewrite <-(app_nil_r (put16 z)), get16_put16. Qed.
Lemma get32_put32_exact z : u32 z → get32 (put32 z) = z.
Proof. intros. by rewrite <-(app_nil_r (put32 z)), get32_put32. Qed.

Lemma put16_get16_exact l : len l = 2 → put16 (get16 l) = l.
Proof. intros. unfold put16, get16. rewrite takeZ_all by lia. by apply le_bytes_value_len. Qed.
Lemma put32_get32_exact l : len l = 4 → put32 (get32 l) = l.
Proof. intros. unfold put32, get32. rewrite takeZ_all by lia. by apply le_bytes_value_len. Qed.

Lemma get16_range l : u16 (get16 l).
Proof.
  unfold get16, u16. pose proof (le_value_range (takeZ 2 l)) as [? H].
  rewrite len_takeZ_min in H by lia. split; [done|].
  eapply Z.lt_le_trans; [apply H|]. apply Z.pow_le_mono_r; llia.
Qed.

Lemma get32_range l : u32 (get32 l).
Proof.
  unfold get32, u32. pose proof (le_value_range (takeZ 4 l)) as [? H].
  rewrite len_takeZ_min in H by lia. split; [done|].
  eapply Z.lt_le_trans; [apply H|]. apply Z.pow_le_mono_r; llia.
Qed.

Lemma put16_get16 l : 2 ≤ len l → put16 (get16 l) ++ dropZ 2 l = l.
Proof.
  intros. unfold put16, get16. rewrite le_bytes_value_len by (rewrite len_takeZ; lia).
  apply takeZ_dropZ.
Qed.

Lemma put32_get32 l : 4 ≤ len l → put32 (get32 l) ++ dropZ 4 l = l.
Proof.
  intros. unfold put32, get32. rewrite le_bytes_value_len by (rewrite len_takeZ; lia).
  apply takeZ_dropZ.
Qed.

(** Length-prefixed byte strings, the building block of the wire formats. *)
Definition lp16 (s : bytes) : bytes := put16 (len s) ++ s.
Definition lp32 (s : bytes) : bytes := put32 (len s) ++ s.

Lemma len_lp16 s : len (lp16 s) = 2 + len s.
Proof. unfold lp16. by len_simp. Qed.
Lemma len_lp32 s : len (lp32 s) = 4 + len s.
Proof. unfold lp32. by len_simp. Qed.
#[export] Hint Rewrite len_lp16 len_lp32 : len.

#[export] Hint Resolve get16_range get32_range b2z_range : go.

(** Proofs use the lemmas above, never the definition of the encodings. *)
#[global] Opaque put16 put32 get16 get32.
