(* ===== verification/GoStd.v ===== *)
(** * The Go standard library, as far as the harness uses it

    Errors as values, the result monad the components are written in, and the
    functions of packages [unicode/utf8], [strings], [bytes], [strconv],
    [encoding/hex] and [sort] that the modelled code calls. Strings and byte
    slices are both [bytes]. *)

From S2P Require Import Prelude.
Open Scope Z_scope.

(** ** Formatted text

    A reason or message is the result of [fmt.Sprintf]. The verbs [%d], [%x]
    and [%s] are rendered here; a [%q] argument is kept symbolically as
    [Quoted], because strconv.Quote depends on the Unicode tables. *)
Inductive piece :=
| Lit (s : bytes)
| Quoted (s : bytes).
Abbreviation text := (list piece).

Definition txt (s : string) : text := [Lit (bs s)].

(** The bytes of a text, given the quoting function behind [%q]. *)
Definition render (quote : bytes → bytes) (t : text) : bytes :=
  t ≫= λ p, match p with Lit s => s | Quoted s => quote s end.

(** ** Errors: the error types of the program, and those of the standard
    library that the modelled code returns or inspects. *)
Inductive error :=
| FramingError (Reason : text)
| HostServiceProtocolError (Reason : text)
| ToolProtocolError (Reason : text)
| SourceSnapshotError (Reason : text)
| DispatcherError (Reason : text) (Err : option error)
| SerialError (Reason : text) (Err : option error)
| ProvidedAssetsError (Reason : text) (Err : option error)
| FeatureRequestError (Reason : text) (Err : option error) (malformedRecord : bool)
| GenerationRuntimeError (Reason : text) (Err : option error)
| CodexError (Reason : text) (Err : option error)
| CrossRunBootstrapError (Reason : text) (Err : option error)
| HardwareError (Reason : text) (Err : option error)
| QMPError (Reason : text) (Err : option error)
| QEMUProcessError (Reason : text) (Err : option error)
| MetricsError (Reason : text) (Err : option error)
| ObservabilityError (Reason : text) (Err : option error)
| GenerationWorkerError (Reason : text) (Err : option error)
| ReviewWorkerError (Reason : text) (Err : option error)
| PlainError (message : text)       (* errors.New, fmt.Errorf *)
| ContextError (message : text)     (* ctx.Err() *)
| SystemError (message : text).     (* operating system and transport *)

(** [Error()]: the reason, and after a colon the wrapped error. *)
Fixpoint Error (e : error) : text :=
  let wrapped (Reason : text) (inner : option text) :=
    match inner with
    | None => Reason
    | Some t => Reason ++ txt ": " ++ t
    end in
  match e with
  | FramingError r | HostServiceProtocolError r | ToolProtocolError r
  | SourceSnapshotError r | PlainError r | ContextError r | SystemError r => r
  | DispatcherError r o | SerialError r o | ProvidedAssetsError r o
  | FeatureRequestError r o _ | CodexError r o | CrossRunBootstrapError r o | HardwareError r o
  | QMPError r o | QEMUProcessError r o | MetricsError r o | ObservabilityError r o =>
      wrapped r (match o with None => None | Some e => Some (Error e) end)
  | GenerationRuntimeError r o | GenerationWorkerError r o | ReviewWorkerError r o =>
      match o with
      | None => r
      | Some e => match r with [] => Error e | _ => r ++ txt ": " ++ Error e end
      end
  end.

(** ** Results: a Go pair [(value, error)] of which one is meaningful *)
Inductive result (A : Type) :=
| Ok (a : A)
| Err (e : error).
Arguments Ok {A} a.
Arguments Err {A} e.

#[global] Instance result_ret : MRet result := λ A a, Ok a.
#[global] Instance result_bind : MBind result := λ A B f m,
  match m with Ok a => f a | Err e => Err e end.

Lemma bind_Ok {A B} (f : A → result B) m b :
  m ≫= f = Ok b ↔ ∃ a, m = Ok a ∧ f a = Ok b.
Proof.
  destruct m as [a|e]; simpl; split; eauto; try discriminate.
  - intros (a' & E & ?). by injection E as ->.
  - intros (a' & E & ?). discriminate E.
Qed.

Lemma bind_Ok_eq {A B} (f : A → result B) m a : m = Ok a → m ≫= f = f a.
Proof. by intros ->. Qed.

Lemma bind_Err_eq {A B} (f : A → result B) m e : m = Err e → m ≫= f = Err e.
Proof. by intros ->. Qed.

Definition is_ok {A} (r : result A) : bool := match r with Ok _ => true | Err _ => false end.

(** Take apart a hypothesis that a monadic computation succeeded. *)
Ltac inv_ok :=
  repeat match goal with
  | H : mbind _ _ = Ok _ |- _ => apply bind_Ok in H; destruct H as (? & ? & H)
  | H : (if ?c then _ else _) = Ok _ |- _ => destruct c eqn:?; try discriminate H
  | H : Err _ = Ok _ |- _ => discriminate H
  | H : Ok _ = Ok _ |- _ => injection H as H; subst
  | H : mret _ = Ok _ |- _ => injection H as H; subst
  end.

(** Pass the guards of one hypothesis: early returns cannot have succeeded. *)
Ltac guards H :=
  repeat match type of H with
  | (if ?c then _ else _) = Ok _ => destruct c eqn:?; [try discriminate H|try discriminate H]
  end.

(** ** Package unicode/utf8 *)
Module utf8.

Definition RuneError : Z := 0xFFFD.

Definition in_range (lo hi : Z) (b : byte) : bool := (lo <=? b2z b) && (b2z b <=? hi).
Definition cont (b : byte) : bool := in_range 0x80 0xBF b.

(** The package's table of leading bytes: sequence length and the accepted
    range of the second byte. *)
Definition lead (b : byte) : option (Z * Z * Z) :=
  if in_range 0xC2 0xDF b then Some (2, 0x80, 0xBF)
  else if in_range 0xE0 0xE0 b then Some (3, 0xA0, 0xBF)
  else if in_range 0xE1 0xEC b then Some (3, 0x80, 0xBF)
  else if in_range 0xED 0xED b then Some (3, 0x80, 0x9F)
  else if in_range 0xEE 0xEF b then Some (3, 0x80, 0xBF)
  else if in_range 0xF0 0xF0 b then Some (4, 0x90, 0xBF)
  else if in_range 0xF1 0xF3 b then Some (4, 0x80, 0xBF)
  else if in_range 0xF4 0xF4 b then Some (4, 0x80, 0x8F)
  else None.

(** [utf8.Valid] and [utf8.ValidString]. *)
Fixpoint Valid (p : bytes) : bool :=
  match p with
  | [] => true
  | p0 :: r0 =>
    if b2z p0 <? 0x80 then Valid r0 else
    match lead p0 with
    | None => false
    | Some (size, lo, hi) =>
      match r0 with
      | [] => false
      | b1 :: r1 =>
        if negb (in_range lo hi b1) then false
        else if size =? 2 then Valid r1
        else match r1 with
        | [] => false
        | b2 :: r2 =>
          if negb (cont b2) then false
          else if size =? 3 then Valid r2
          else match r2 with
          | [] => false
          | b3 :: r3 => if negb (cont b3) then false else Valid r3
          end
        end
      end
    end
  end.

(** [utf8.DecodeRune]: the rune and its width. *)
Definition DecodeRune (p : bytes) : Z * Z :=
  match p with
  | [] => (RuneError, 0)
  | p0 :: r0 =>
    if b2z p0 <? 0x80 then (b2z p0, 1) else
    match lead p0 with
    | None => (RuneError, 1)
    | Some (size, lo, hi) =>
      match r0 with
      | [] => (RuneError, 1)
      | b1 :: r1 =>
        if negb (in_range lo hi b1) then (RuneError, 1)
        else if size =? 2 then
          (Z.lor (Z.shiftl (Z.land (b2z p0) 0x1F) 6) (Z.land (b2z b1) 0x3F), 2)
        else match r1 with
        | [] => (RuneError, 1)
        | b2 :: r2 =>
          if negb (cont b2) then (RuneError, 1)
          else if size =? 3 then
            (Z.lor (Z.lor (Z.shiftl (Z.land (b2z p0) 0x0F) 12)
                          (Z.shiftl (Z.land (b2z b1) 0x3F) 6))
                   (Z.land (b2z b2) 0x3F), 3)
          else match r2 with
          | [] => (RuneError, 1)
          | b3 :: _ =>
            if negb (cont b3) then (RuneError, 1)
            else (Z.lor (Z.lor (Z.lor (Z.shiftl (Z.land (b2z p0) 0x07) 18)
                                      (Z.shiftl (Z.land (b2z b1) 0x3F) 12))
                               (Z.shiftl (Z.land (b2z b2) 0x3F) 6))
                        (Z.land (b2z b3) 0x3F), 4)
          end
        end
      end
    end
  end.

(** The runes a [range] loop over a string visits. *)
Fixpoint runes_loop (fuel : nat) (p : bytes) : list Z :=
  match fuel, p with
  | S fuel, _ :: _ => let '(r, w) := DecodeRune p in r :: runes_loop fuel (dropZ w p)
  | _, _ => []
  end.
Definition runes (p : bytes) : list Z := runes_loop (length p) p.

Lemma DecodeRune_width p : p ≠ [] → 1 ≤ (DecodeRune p).2 ≤ len p.
Proof.
  intros Hp. destruct p as [|p0 r0]; [done|]. unfold DecodeRune.
  repeat case_goal; simpl; llia.
Qed.

(** One step per byte is fuel enough. *)
Lemma runes_fuel n : ∀ m p, (length p ≤ n)%nat → (length p ≤ m)%nat → runes_loop n p = runes_loop m p.
Proof.
  induction n as [|n IH]; intros m p Hn Hm; [destruct p; [by destruct m|cbn in Hn; lia]|].
  destruct p as [|b p]; [by destruct m|]. destruct m as [|m]; [cbn in Hm; lia|]. cbn [runes_loop].
  pose proof (DecodeRune_width (b :: p) ltac:(done)) as Hw.
  destruct (DecodeRune (b :: p)) as [r w]. cbn [snd] in Hw. f_equal.
  assert (Hlen : (length (dropZ w (b :: p)) ≤ length p)%nat).
  { unfold dropZ. rewrite length_drop. cbn [length]. rewrite len_cons in Hw. lia. }
  cbn [length] in Hn, Hm. apply IH; lia.
Qed.

Lemma Valid_ascii p : Forall (λ b, b2z b < 0x80) p → Valid p = true.
Proof.
  induction 1 as [|b p Hb _ IH]; [done|]. cbn [Valid].
  by rewrite (proj2 (Z.ltb_lt _ _) Hb).
Qed.

Lemma Valid_app a b : Valid a = true → Valid (a ++ b) = Valid b.
Proof.
  remember (length a) as n eqn:Hn. revert a Hn.
  induction (lt_wf n) as [n _ IH]. intros a -> H.
  destruct a as [|p0 a]; [done|]. cbn [Valid app] in *.
  destruct (b2z p0 <? 0x80); [apply (IH (length a)); simpl; auto; lia|].
  destruct (lead p0) as [[[size lo] hi]|]; [|discriminate H].
  destruct a as [|b1 a]; [discriminate H|]. cbn [app].
  destruct (negb (in_range lo hi b1)); [discriminate H|].
  destruct (size =? 2); [apply (IH (length a)); simpl; auto; lia|].
  destruct a as [|b2 a]; [discriminate H|]. cbn [app].
  destruct (negb (cont b2)); [discriminate H|].
  destruct (size =? 3); [apply (IH (length a)); simpl; auto; lia|].
  destruct a as [|b3 a]; [discriminate H|]. cbn [app].
  destruct (negb (cont b3)); [discriminate H|]. apply (IH (length a)); simpl; auto; lia.
Qed.

End utf8.

(** ** Packages strings and bytes *)
Module strings.

Fixpoint HasPrefix (s prefix : bytes) {struct prefix} : bool :=
  match prefix, s with
  | [], _ => true
  | _ :: _, [] => false
  | p :: prefix, c :: s => bool_decide (p = c) && HasPrefix s prefix
  end.

Definition HasSuffix (s suffix : bytes) : bool := HasPrefix (rev s) (rev suffix).

Definition TrimPrefix (s prefix : bytes) : bytes :=
  if HasPrefix s prefix then dropZ (len prefix) s else s.
Definition TrimSuffix (s suffix : bytes) : bytes :=
  if HasSuffix s suffix then takeZ (len s - len suffix) s else s.

(** [IndexByte(s, c) >= 0] *)
Definition ContainsByte (s : bytes) (c : byte) : bool := existsb (λ b, bool_decide (b = c)) s.
(** [ContainsAny] for a set of ASCII characters *)
Definition ContainsAny (s chars : bytes) : bool := existsb (ContainsByte chars) s.

(** [Split(s, sep)] for a one-byte separator: never empty. *)
Fixpoint Split (s : bytes) (sep : byte) : list bytes :=
  match s with
  | [] => [[]]
  | c :: s =>
      if decide (c = sep) then [] :: Split s sep
      else match Split s sep with
           | w :: ws => (c :: w) :: ws
           | [] => [[c]]
           end
  end.

Fixpoint Join (l : list bytes) (sep : bytes) : bytes :=
  match l with
  | [] => []
  | [s] => s
  | s :: l => s ++ sep ++ Join l sep
  end.

Lemma HasPrefix_spec s p : HasPrefix s p = true ↔ ∃ r, s = p ++ r.
Proof.
  revert s. induction p as [|c p IH]; intros s; simpl; [split; eauto|].
  destruct s as [|d s]; simpl.
  { split; [discriminate|]. intros [? H]. discriminate H. }
  rewrite andb_true_iff, bool_decide_eq_true, IH. split.
  - intros [-> [r ->]]. eauto.
  - intros [r E]. injection E as -> ->. eauto.
Qed.

Lemma HasPrefix_app p r : HasPrefix (p ++ r) p = true.
Proof. apply HasPrefix_spec. eauto. Qed.

Lemma Split_nonempty s sep : Split s sep ≠ [].
Proof. induction s as [|c s IH]; simpl; [done|]. case_decide; [done|]. by destruct (Split s sep). Qed.

Lemma Join_cons_app w ws sep : ws ≠ [] → Join (w :: ws) sep = w ++ sep ++ Join ws sep.
Proof. by destruct ws. Qed.

Lemma Join_Split s sep : Join (Split s sep) [sep] = s.
Proof.
  induction s as [|c s IH]; [done|]. cbn [Split].
  pose proof (Split_nonempty s sep) as Hne.
  case_decide as Hc.
  - rewrite Join_cons_app, IH by done. by subst.
  - destruct (Split s sep) as [|w ws]; [done|]. rewrite <-IH.
    by destruct ws.
Qed.

Lemma Split_no_sep s sep : Forall (λ w, sep ∉ w) (Split s sep).
Proof.
  induction s as [|c s IH]; simpl; [repeat constructor; set_solver|].
  case_decide; [constructor; [set_solver|done]|].
  destruct (Split s sep) as [|w ws]; inversion_clear IH; constructor; auto; set_solver.
Qed.

End strings.

(** ** Packages strconv and encoding/hex, and the numeric verbs of fmt *)
Module strconv.

Definition digit (d : Z) : byte := z2b (48 + d).
Definition is_digit (b : byte) : bool := (48 <=? b2z b) && (b2z b <=? 57).

Fixpoint digits (fuel : nat) (n : Z) (acc : bytes) : bytes :=
  match fuel with
  | O => acc
  | S fuel =>
      let acc := digit (n mod 10) :: acc in
      if n <? 10 then acc else digits fuel (n / 10) acc
  end.

(** [Itoa], [FormatUint(n, 10)] and [%d] of a non-negative integer of at most
    64 bits, which has at most twenty digits. *)
Definition Itoa (n : Z) : bytes := digits 20 n [].

Definition digits_value (s : bytes) : Z := fold_left (λ v b, 10 * v + (b2z b - 48)) s 0.

(** [ParseUint(s, 10, 64)]; [None] is an error. *)
Definition ParseUint (s : bytes) : option Z :=
  match s with
  | [] => None
  | _ => if forallb is_digit s
         then let v := digits_value s in if v <? 2 ^ 64 then Some v else None
         else None
  end.

(** [%0*o] of a non-negative integer: octal digits, zero-padded to a width. *)
Fixpoint octal_digits (fuel : nat) (n : Z) (acc : bytes) : bytes :=
  match fuel with
  | O => acc
  | S fuel =>
      let acc := digit (n mod 8) :: acc in
      if n <? 8 then acc else octal_digits fuel (n / 8) acc
  end.
Definition octal (width : Z) (n : Z) : bytes :=
  let ds := octal_digits 22 n [] in
  replicate (Z.to_nat (width - len ds)) (digit 0) ++ ds.

Definition hexdigit (d : Z) : byte := if d <? 10 then z2b (48 + d) else z2b (87 + d).

(** [hex.EncodeToString] *)
Definition hexbytes (l : bytes) : bytes :=
  l ≫= λ b, [hexdigit (b2z b / 16); hexdigit (b2z b mod 16)].
(** [%04x] of a 16-bit value *)
Definition hex4 (z : Z) : bytes := hexbytes [z2b (z / 256); z2b z].
(** [%02x] of a byte *)
Definition hex2 (z : Z) : bytes := hexbytes [z2b z].

Lemma b2z_digit d : 0 ≤ d < 10 → b2z (digit d) = 48 + d.
Proof. intros. unfold digit. rewrite b2z_z2b. apply Z.mod_small. lia. Qed.

Lemma is_digit_digit d : 0 ≤ d < 10 → is_digit (digit d) = true.
Proof. intros. unfold is_digit. rewrite b2z_digit by done. lia. Qed.

Lemma fold_value_acc s v :
  fold_left (λ v b, 10 * v + (b2z b - 48)) s v
  = v * 10 ^ len s + digits_value s.
Proof.
  unfold digits_value. revert v.
  induction s as [|b s IH] using rev_ind; intros v.
  - simpl. rewrite len_nil. lia.
  - rewrite !fold_left_app, IH. simpl. len_simp.
    rewrite Z.pow_add_r by llia. lia.
Qed.

Lemma digits_value_cons b s :
  digits_value (b :: s) = (b2z b - 48) * 10 ^ len s + digits_value s.
Proof. unfold digits_value at 1. simpl. rewrite fold_value_acc. lia. Qed.

Lemma digits_spec fuel n acc :
  0 ≤ n < 10 ^ Z.of_nat fuel →
  ∃ ds, digits fuel n acc = ds ++ acc ∧ forallb is_digit ds = true
    ∧ digits_value ds = n ∧ (fuel ≠ O → ds ≠ []).
Proof.
  revert n acc. induction fuel as [|fuel IH]; intros n acc Hn; simpl.
  - exists []. simpl in *. change (10 ^ 0) with 1 in Hn. split_and!; try done. unfold digits_value; simpl; lia.
  - pose proof (Z.mod_pos_bound n 10 ltac:(lia)).
    pose proof (Z.div_mod n 10 ltac:(lia)).
    destruct (n <? 10) eqn:E; zbool.
    + exists [digit (n mod 10)]. simpl. rewrite is_digit_digit by done.
      split_and!; try done. unfold digits_value; simpl. rewrite b2z_digit by done.
      rewrite Z.mod_small; lia.
    + destruct (IH (n / 10) (digit (n mod 10) :: acc)) as (ds & -> & Hd & Hv & _).
      { rewrite Nat2Z.inj_succ, Z.pow_succ_r in Hn by lia.
        split; [apply Z.div_pos; lia|]. apply Z.div_lt_upper_bound; lia. }
      exists (ds ++ [digit (n mod 10)]). rewrite <-app_assoc. simpl.
      split_and!; try done.
      * rewrite forallb_app. simpl. by rewrite Hd, is_digit_digit.
      * unfold digits_value in *. rewrite fold_left_app, Hv. simpl.
        rewrite b2z_digit by done. lia.
      * intros _. by destruct ds.
Qed.

Lemma Itoa_spec n :
  u64 n → forallb is_digit (Itoa n) = true ∧ digits_value (Itoa n) = n ∧ Itoa n ≠ [].
Proof.
  intros [? Hn]. unfold Itoa.
  destruct (digits_spec 20 n []) as (ds & -> & Hd & Hv & Hne).
  { split; [done|]. eapply Z.lt_trans; [apply Hn|]. by vm_compute. }
  rewrite app_nil_r. split_and!; try done. by apply Hne.
Qed.

Lemma ParseUint_Itoa n : u64 n → ParseUint (Itoa n) = Some n.
Proof.
  intros Hn. destruct (Itoa_spec n Hn) as (Hd & Hv & Hne). unfold ParseUint.
  destruct (Itoa n) as [|b s] eqn:E; [done|]. rewrite Hd, Hv.
  destruct Hn as [_ Hn]. by rewrite (proj2 (Z.ltb_lt _ _) Hn).
Qed.

Lemma digits_value_bound s : forallb is_digit s = true → 0 ≤ digits_value s < 10 ^ len s.
Proof.
  induction s as [|b s IH]; intros Hs.
  - by vm_compute.
  - cbn in Hs. apply andb_true_iff in Hs as [Hb Hs]. specialize (IH Hs).
    rewrite digits_value_cons, len_cons, Z.pow_add_r by llia.
    unfold is_digit in Hb. zbool. nia.
Qed.

(** No leading zero, except in the number zero. *)
Lemma digits_head fuel n acc :
  0 < n < 10 ^ Z.of_nat fuel → ∃ b ds, digits fuel n acc = b :: ds ++ acc ∧ 1 ≤ b2z b - 48.
Proof.
  revert n acc. induction fuel as [|fuel IH]; intros n acc Hn; [simpl in Hn; lia|]. simpl.
  pose proof (Z.mod_pos_bound n 10 ltac:(lia)). pose proof (Z.div_mod n 10 ltac:(lia)).
  destruct (n <? 10) eqn:E; zbool.
  - exists (digit (n mod 10)), []. split; [done|]. rewrite b2z_digit, Z.mod_small by lia. lia.
  - destruct (IH (n / 10) (digit (n mod 10) :: acc)) as (b & ds & -> & Hb).
    { rewrite Nat2Z.inj_succ, Z.pow_succ_r in Hn by lia.
      split; [apply Z.div_str_pos; lia|]. apply Z.div_lt_upper_bound; lia. }
    exists b, (ds ++ [digit (n mod 10)]). by rewrite <- app_assoc.
Qed.

Lemma Itoa_head n : u64 n → 0 < n → ∃ b ds, Itoa n = b :: ds ∧ 1 ≤ b2z b - 48.
Proof.
  intros [_ Hu] Hn. destruct (digits_head 20 n []) as (b & ds & E & Hb).
  { split; [done|]. eapply Z.lt_trans; [exact Hu|]. by vm_compute. }
  rewrite app_nil_r in E. eauto.
Qed.

(** The number of digits. *)
Lemma len_Itoa n : u64 n → 0 < n → 1 ≤ len (Itoa n) ∧ 10 ^ (len (Itoa n) - 1) ≤ n < 10 ^ len (Itoa n).
Proof.
  intros Hu Hn. destruct (Itoa_spec n Hu) as (Hd & Hv & _).
  destruct (Itoa_head n Hu Hn) as (b & ds & E & Hb). pose proof (digits_value_bound _ Hd) as Hbd.
  rewrite Hv in Hbd. rewrite E in *. rewrite digits_value_cons in Hv. rewrite len_cons in *.
  pose proof (len_nonneg ds). cbn in Hd. apply andb_true_iff in Hd as [_ Hd].
  pose proof (digits_value_bound _ Hd). replace (1 + len ds - 1) with (len ds) by lia. split; [lia|]. nia.
Qed.

End strconv.

(** ** Package sort

    Go compares strings bytewise. [sort.Slice] is modelled by a merge sort,
    which fixes one of the orders Go may give to elements with equal keys. *)
Module sort.

Fixpoint bytes_leb (a b : bytes) : bool :=
  match a, b with
  | [], _ => true
  | _ :: _, [] => false
  | x :: a, y :: b =>
      if b2z x <? b2z y then true
      else if b2z y <? b2z x then false else bytes_leb a b
  end.

Definition bytes_le (a b : bytes) : Prop := bytes_leb a b = true.
#[global] Instance bytes_le_dec a b : Decision (bytes_le a b) := decide (bytes_leb a b = true).

Lemma bytes_leb_refl a : bytes_leb a a = true.
Proof. induction a as [|x a IH]; simpl; [done|]. by rewrite Z.ltb_irrefl. Qed.

#[global] Instance bytes_le_total : Total bytes_le.
Proof.
  intros a. unfold bytes_le. induction a as [|x a IH]; intros [|y b]; simpl; auto.
  destruct (b2z x <? b2z y) eqn:E1; [auto|]. destruct (b2z y <? b2z x) eqn:E2; auto.
Qed.

#[global] Instance bytes_le_trans : Transitive bytes_le.
Proof.
  intros a. unfold bytes_le.
  induction a as [|x a IH]; intros [|y b] [|z c]; simpl; auto; try discriminate.
  repeat match goal with
    |- context [?p <? ?q] => destruct (Z.ltb_spec p q); try lia
  end; auto; try discriminate.
  apply IH.
Qed.

#[global] Instance bytes_le_antisym : AntiSymm (=) bytes_le.
Proof.
  intros a. unfold bytes_le.
  induction a as [|x a IH]; intros [|y b]; simpl; auto; try discriminate.
  destruct (b2z x <? b2z y) eqn:E1.
  { intros _. destruct (b2z y <? b2z x) eqn:E2; zbool; try lia; done. }
  destruct (b2z y <? b2z x) eqn:E2; [done|]. intros. zbool.
  f_equal; [apply b2z_inj; lia|auto].
Qed.

(** [sort.Strings] *)
Definition Strings (l : list bytes) : list bytes := merge_sort bytes_le l.

(** [sort.Slice] by a string key *)
Definition SliceBy {A} (key : A → bytes) (l : list A) : list A :=
  merge_sort (λ a b, bytes_le (key a) (key b)) l.

Lemma SliceBy_perm {A} (key : A → bytes) l : SliceBy key l ≡ₚ l.
Proof. apply merge_sort_Permutation. Qed.

Lemma SliceBy_sorted {A} (key : A → bytes) l :
  StronglySorted (λ a b, bytes_le (key a) (key b)) (SliceBy key l).
Proof.
  apply StronglySorted_merge_sort.
  - intros a b c. by apply bytes_le_trans.
  - intros a b. apply bytes_le_total.
Qed.

(** Elements with distinct keys have one sorted order. *)
Lemma sorted_unique {A} (key : A → bytes) l k :
  l ≡ₚ k → NoDup (key <$> l) →
  StronglySorted (λ a b, bytes_le (key a) (key b)) l →
  StronglySorted (λ a b, bytes_le (key a) (key b)) k → l = k.
Proof.
  intros Hp Hnd Hl Hk. eapply StronglySorted_unique_strong; [|exact Hl|exact Hk|exact Hp].
  intros f g Hf Hg H1 H2. rewrite <-Hp in Hg.
  assert (key f = key g) as E by by apply (anti_symm bytes_le).
  apply list_elem_of_lookup in Hf as [i Hi]. apply list_elem_of_lookup in Hg as [j Hj].
  assert (i = j) as ->; [|congruence].
  eapply (NoDup_lookup (key <$> l)); [done| |]; rewrite list_lookup_fmap.
  - by rewrite Hi.
  - rewrite Hj. simpl. by rewrite E.
Qed.

Lemma SliceBy_unique {A} (key : A → bytes) l k :
  l ≡ₚ k → NoDup (key <$> l) → SliceBy key l = SliceBy key k.
Proof.
  intros Hp Hnd. apply (sorted_unique key); try apply SliceBy_sorted.
  - by rewrite !SliceBy_perm.
  - by rewrite SliceBy_perm.
Qed.

(** Sorting what is sorted. *)
Lemma SliceBy_id {A} (key : A → bytes) l :
  NoDup (key <$> l) → StronglySorted (λ a b, bytes_le (key a) (key b)) l → SliceBy key l = l.
Proof.
  intros Hnd Hs. apply (sorted_unique key); [apply SliceBy_perm| |apply SliceBy_sorted|done].
  by rewrite SliceBy_perm.
Qed.

Lemma SliceBy_NoDup {A} (key : A → bytes) l : NoDup (key <$> SliceBy key l) ↔ NoDup (key <$> l).
Proof. by rewrite SliceBy_perm. Qed.

End sort.
