(* ===== verification/Framing.v ===== *)
(** * Serial framing, version 1 (src/internal/guest/framing.go)

    The 16-byte frame header, encoding a frame, reading one frame from a byte
    stream, and removing one frame from the front of an incremental buffer. *)

From S2P Require Import Prelude GoStd.
Open Scope Z_scope.

Definition ProtocolVersion : Z := 1.
Definition MaxPayloadSize : Z := 16 * 1024 * 1024.
Definition frameHeaderSize : Z := 16.
Definition frameMagic : bytes := bs "CXOS".

Record Frame := mkFrame {
  MessageType : Z;      (* uint16 *)
  RequestID : Z;        (* uint32 *)
  Payload : bytes
}.

(** The ranges that Go's types give the two integer fields. *)
Definition frame_wf (f : Frame) : Prop := u16 (MessageType f) ∧ u32 (RequestID f).

Definition EncodeFrame (frame : Frame) : result bytes :=
  if MaxPayloadSize <? len (Payload frame) then
    Err (FramingError (txt "payload exceeds the 16 MiB version 1 limit"))
  else
    Ok (frameMagic
        ++ put16 ProtocolVersion
        ++ put16 (MessageType frame)
        ++ put32 (RequestID frame)
        ++ put32 (wrap32 (len (Payload frame)))
        ++ Payload frame).

(** Message type, request ID and payload length of a 16-byte header. *)
Definition decodeHeader (header : bytes) : result (Z * Z * Z) :=
  if negb (bool_decide (takeZ 4 header = frameMagic)) then
    Err (FramingError (txt "invalid frame magic " ++ [Quoted (takeZ 4 header)]))
  else
    let version := get16 (slice 4 6 header) in
    if negb (version =? ProtocolVersion) then
      Err (FramingError (txt "unsupported protocol version " ++ [Lit (strconv.Itoa version)]))
    else
      let payloadLength := get32 (slice 12 16 header) in
      if MaxPayloadSize <? payloadLength then
        Err (FramingError (txt "payload length " ++ [Lit (strconv.Itoa payloadLength)]
                           ++ txt " exceeds the 16 MiB version 1 limit"))
      else
        Ok (get16 (slice 6 8 header), get32 (slice 8 12 header), payloadLength).

(** [io.ReadFull] on a stream that delivers [reader] and then ends: the bytes
    read and the rest, or the error text. *)
Definition ReadFull (reader : bytes) (n : Z) : (bytes * bytes) + string :=
  if n <=? len reader then inl (takeZ n reader, dropZ n reader)
  else match reader with
       | [] => inr "EOF"%string
       | _ => inr "unexpected EOF"%string
       end.

(** The frame read, and what is left of the stream. *)
Definition ReadFrame (reader : bytes) : result (Frame * bytes) :=
  match ReadFull reader frameHeaderSize with
  | inr err => Err (FramingError (txt "connection closed while reading frame header: " ++ txt err))
  | inl (header, reader) =>
      '(messageType, requestID, payloadLength) ← decodeHeader header;
      match ReadFull reader payloadLength with
      | inr err => Err (FramingError (txt "connection closed while reading frame payload: " ++ txt err))
      | inl (payload, reader) => Ok (mkFrame messageType requestID payload, reader)
      end
  end.

(** [(frame, complete, err)] with the buffer left behind: [Ok None] when the
    buffer holds a proper prefix of a frame. *)
Definition ExtractFrame (buffer : bytes) : result (option Frame) * bytes :=
  let data := buffer in
  let prefixLength := Z.min (len data) (len frameMagic) in
  if negb (bool_decide (takeZ prefixLength data = takeZ prefixLength frameMagic)) then
    (Err (FramingError (txt "invalid frame magic " ++ [Quoted (takeZ prefixLength data)])), buffer)
  else if len data <? frameHeaderSize then (Ok None, buffer)
  else
    match decodeHeader (takeZ frameHeaderSize data) with
    | Err e => (Err e, buffer)
    | Ok (messageType, requestID, payloadLength) =>
        let frameLength := frameHeaderSize + payloadLength in
        if len data <? frameLength then (Ok None, buffer)
        else (Ok (Some (mkFrame messageType requestID (slice frameHeaderSize frameLength data))),
              dropZ frameLength data)
    end.

(** ** The header layout *)

(** The first sixteen bytes of an encoded frame. *)
Definition header_bytes (messageType requestID payloadLength : Z) : bytes :=
  frameMagic ++ put16 ProtocolVersion ++ put16 messageType
  ++ put32 requestID ++ put32 payloadLength.

Lemma len_header_bytes t i n : len (header_bytes t i n) = 16.
Proof. unfold header_bytes. len_simp. reflexivity. Qed.
#[export] Hint Rewrite len_header_bytes : len.

Lemma EncodeFrame_Ok f enc :
  EncodeFrame f = Ok enc ↔
  len (Payload f) ≤ MaxPayloadSize
  ∧ enc = header_bytes (MessageType f) (RequestID f) (len (Payload f)) ++ Payload f.
Proof.
  unfold EncodeFrame, header_bytes, wrap32.
  destruct (MaxPayloadSize <? len (Payload f)) eqn:E; zbool.
  - split; [discriminate|]. intros [? _]. lia.
  - rewrite Z.mod_small by (unfold MaxPayloadSize in *; llia).
    rewrite <-!app_assoc. split; [intros H; by injection H as <-|by intros [_ ->]].
Qed.

Lemma decodeHeader_header_bytes t i n :
  u16 t → u32 i → 0 ≤ n ≤ MaxPayloadSize →
  decodeHeader (header_bytes t i n) = Ok (t, i, n).
Proof.
  intros Ht Hi Hn.
  assert (u32 n) by (unfold u32, MaxPayloadSize in *; lia).
  unfold decodeHeader. set (h := header_bytes t i n).
  assert (takeZ 4 h = frameMagic) as -> by by apply takeZ_app.
  assert (slice 4 6 h = put16 ProtocolVersion) as ->.
  { unfold h, header_bytes. apply slice_app; by len_simp. }
  assert (slice 6 8 h = put16 t) as ->.
  { unfold h, header_bytes. rewrite (app_assoc frameMagic). apply slice_app; by len_simp. }
  assert (slice 8 12 h = put32 i) as ->.
  { unfold h, header_bytes. rewrite (app_assoc frameMagic), (app_assoc (_ ++ _)).
    apply slice_app; by len_simp. }
  assert (slice 12 16 h = put32 n) as ->.
  { unfold h, header_bytes. rewrite (app_assoc frameMagic), (app_assoc (_ ++ _)), (app_assoc (_ ++ _)).
    apply slice_app_end; by len_simp. }
  rewrite bool_decide_eq_true_2 by done. simpl.
  rewrite !get16_put16_exact, !get32_put32_exact by done.
  rewrite Z.eqb_refl. simpl. by zif_false.
Qed.

(** A header is what [header_bytes] makes of the fields it decodes to. *)
Lemma decodeHeader_sound h t i n :
  len h = 16 → decodeHeader h = Ok (t, i, n) →
  h = header_bytes t i n ∧ u16 t ∧ u32 i ∧ 0 ≤ n ≤ MaxPayloadSize.
Proof.
  intros Hlen. unfold decodeHeader. intros H. inv_ok. zbool.
  destruct (len_split 4 h) as (m & r1 & -> & L1); [lia|].
  len_simp. destruct (len_split 2 r1) as (v & r2 & -> & L2); [lia|].
  len_simp. destruct (len_split 2 r2) as (a & r3 & -> & L3); [lia|].
  len_simp. destruct (len_split 4 r3) as (b & c & -> & L4); [lia|].
  len_simp.
  assert (slice 4 6 (m ++ v ++ a ++ b ++ c) = v) as E1 by by apply slice_app.
  assert (slice 6 8 (m ++ v ++ a ++ b ++ c) = a) as E2.
  { rewrite (app_assoc m). apply slice_app; by len_simp; lia. }
  assert (slice 8 12 (m ++ v ++ a ++ b ++ c) = b) as E3.
  { rewrite (app_assoc m), (app_assoc (m ++ v)). apply slice_app; len_simp; lia. }
  assert (slice 12 16 (m ++ v ++ a ++ b ++ c) = c) as E4.
  { rewrite (app_assoc m), (app_assoc (m ++ v)), (app_assoc ((m ++ v) ++ a)).
    apply slice_app_end; len_simp; lia. }
  rewrite E1, E2, E3, E4 in *. rewrite takeZ_app in * by lia. subst m.
  unfold header_bytes. rewrite !put32_get32_exact, !put16_get16_exact by lia.
  replace (put16 ProtocolVersion) with v by (rewrite <-(put16_get16_exact v) by done; congruence).
  split_and!; eauto with go.
  destruct (get32_range c). lia.
Qed.

(** ** What [ExtractFrame] does on each kind of buffer *)

Lemma magic_prefix_long data :
  4 ≤ len data →
  takeZ (Z.min (len data) (len frameMagic)) data = takeZ (Z.min (len data) (len frameMagic)) frameMagic
  ↔ takeZ 4 data = frameMagic.
Proof. intros. change (len frameMagic) with 4. by rewrite Z.min_r by lia. Qed.

(** A buffer that starts with a full header and its payload. *)
Lemma ExtractFrame_frame t i p rest :
  u16 t → u32 i → len p ≤ MaxPayloadSize →
  ExtractFrame (header_bytes t i (len p) ++ p ++ rest) = (Ok (Some (mkFrame t i p)), rest).
Proof.
  intros Ht Hi Hp. unfold ExtractFrame.
  set (h := header_bytes t i (len p)). assert (len h = 16) as Hh by apply len_header_bytes.
  rewrite bool_decide_eq_true_2; cycle 1.
  { apply magic_prefix_long; [llia|]. unfold h, header_bytes. by rewrite <-app_assoc, takeZ_app. }
  simpl negb. cbn iota. unfold frameHeaderSize.
  rewrite (proj2 (Z.ltb_ge _ _)) by llia.
  rewrite takeZ_app by lia. unfold h at 1. rewrite decodeHeader_header_bytes by (done || llia).
  rewrite (proj2 (Z.ltb_ge _ _)) by llia.
  rewrite slice_app by lia. rewrite app_assoc, dropZ_app by llia. done.
Qed.

(** A proper prefix of an encoded frame. *)
Lemma ExtractFrame_prefix t i p buf more :
  u16 t → u32 i → len p ≤ MaxPayloadSize →
  header_bytes t i (len p) ++ p = buf ++ more → more ≠ [] →
  ExtractFrame buf = (Ok None, buf).
Proof.
  intros Ht Hi Hp E Hmore. unfold ExtractFrame.
  set (h := header_bytes t i (len p)) in *. assert (len h = 16) as Hh by apply len_header_bytes.
  assert (0 < len more) by (rewrite <-len_0 in Hmore; llia).
  pose proof (f_equal len E) as El. len_simp.
  rewrite bool_decide_eq_true_2; cycle 1.
  { set (n := Z.min _ _). change (len frameMagic) with 4 in *.
    assert (0 ≤ n ≤ len buf ∧ n ≤ 4) as [??] by (unfold n; llia).
    rewrite <-(takeZ_app_le n buf more) by lia. rewrite <-E. unfold h, header_bytes.
    rewrite <-!app_assoc. apply takeZ_app_le. change (len frameMagic) with 4. lia. }
  simpl negb. cbn iota. unfold frameHeaderSize.
  destruct (len buf <? 16) eqn:Eb; [done|]. zbool.
  assert (takeZ 16 buf = h) as ->.
  { rewrite <-(takeZ_app_le 16 buf more) by lia. rewrite <-E. by rewrite takeZ_app. }
  unfold h at 1. rewrite decodeHeader_header_bytes by (done || llia).
  by rewrite (proj2 (Z.ltb_lt _ _)) by llia.
Qed.

Lemma ExtractFrame_Some buf f rest :
  ExtractFrame buf = (Ok (Some f), rest) →
  frame_wf f ∧ ∃ enc, EncodeFrame f = Ok enc ∧ buf = enc ++ rest.
Proof.
  unfold ExtractFrame, frameHeaderSize. intros H.
  case_in H; [discriminate H|]. case_in H; [discriminate H|].
  destruct (decodeHeader (takeZ 16 buf)) as [[[t i] n]|e] eqn:Ed; [|discriminate H].
  destruct (len buf <? 16 + n) eqn:El; [discriminate H|]. injection H as <- <-. zbool.
  apply decodeHeader_sound in Ed as (Eh & Ht & Hi & Hn); [|by apply len_takeZ; llia].
  split; [done|].
  assert (len (slice 16 (16 + n) buf) = n) as Hs.
  { unfold slice. rewrite len_takeZ; [lia|]. rewrite len_dropZ; llia. }
  exists (takeZ 16 buf ++ slice 16 (16 + n) buf).
  split; [apply EncodeFrame_Ok; simpl; rewrite Hs, Eh; split; [lia|done]|].
  unfold slice. rewrite <-app_assoc.
  replace (16 + n - 16) with n by lia.
  replace (dropZ (16 + n) buf) with (dropZ n (dropZ 16 buf)) by (rewrite dropZ_dropZ; [done|lia|lia]).
  by rewrite !takeZ_dropZ.
Qed.

Lemma ExtractFrame_encoded f enc rest :
  frame_wf f → EncodeFrame f = Ok enc → ExtractFrame (enc ++ rest) = (Ok (Some f), rest).
Proof.
  intros [Ht Hi] [Hp ->]%EncodeFrame_Ok. destruct f as [t i p]; cbn [MessageType RequestID Payload] in *.
  rewrite <-app_assoc. by apply ExtractFrame_frame.
Qed.

Lemma ExtractFrame_strict_prefix f enc buf more :
  frame_wf f → EncodeFrame f = Ok enc → enc = buf ++ more → more ≠ [] →
  ExtractFrame buf = (Ok None, buf).
Proof.
  intros [Ht Hi] [Hp ->]%EncodeFrame_Ok. by apply ExtractFrame_prefix.
Qed.

Lemma EncodeFrame_nonempty f enc : EncodeFrame f = Ok enc → 16 ≤ len enc.
Proof. intros [Hp ->]%EncodeFrame_Ok. llia. Qed.

(** ** Draining a buffer, as the read loop does *)

(** All complete frames at the front of a buffer, and the bytes left. The
    measure is the buffer's length: every extraction removes at least the
    sixteen bytes of a header. *)
Fixpoint drain (fuel : nat) (buffer : bytes) : result (list Frame) * bytes :=
  match fuel with
  | O => (Ok [], buffer)
  | S fuel =>
      match ExtractFrame buffer with
      | (Err e, b) => (Err e, b)
      | (Ok None, b) => (Ok [], b)
      | (Ok (Some f), b) =>
          match drain fuel b with
          | (Ok fs, b) => (Ok (f :: fs), b)
          | (Err e, b) => (Err e, b)
          end
      end
  end.
Definition drain_all (buffer : bytes) : result (list Frame) * bytes :=
  drain (S (length buffer)) buffer.

(** Feeding chunks one at a time, draining the buffer after each. *)
Fixpoint feed (buffer : bytes) (chunks : list bytes) : result (list Frame) * bytes :=
  match chunks with
  | [] => (Ok [], buffer)
  | c :: chunks =>
      match drain_all (buffer ++ c) with
      | (Err e, b) => (Err e, b)
      | (Ok fs, b) =>
          match feed b chunks with
          | (Ok gs, b) => (Ok (fs ++ gs), b)
          | (Err e, b) => (Err e, b)
          end
      end
  end.

(** [wire fs w]: [w] is the concatenation of the encodings of [fs]. *)
Inductive wire : list Frame → bytes → Prop :=
| wire_nil : wire [] []
| wire_cons f fs enc w :
    frame_wf f → EncodeFrame f = Ok enc → wire fs w → wire (f :: fs) (enc ++ w).

(** A buffer that is a prefix of a wire: whole frames, then a proper prefix of
    the next frame. *)
Lemma wire_split fs w a b :
  wire fs w → w = a ++ b →
  ∃ gs hs g tail w', fs = gs ++ hs ∧ wire gs g ∧ wire hs w' ∧ a = g ++ tail ∧ w' = tail ++ b
    ∧ (tail = [] ∨ ∃ f enc m, frame_wf f ∧ EncodeFrame f = Ok enc ∧ enc = tail ++ m ∧ m ≠ []).
Proof.
  intros Hw. revert a b. induction Hw as [|f fs enc w Hf He Hw IH]; intros a b E.
  - symmetry in E. apply app_eq_nil in E as [-> ->].
    exists [], [], [], [], []. split_and!; auto using wire.
  - destruct (decide (len enc ≤ len a)) as [Hle|Hgt].
    + destruct (len_split (len enc) a) as (a1 & a2 & -> & La); [llia|].
      rewrite <-app_assoc in E.
      apply app_inj_1 in E as [<- E]; [|unfold len in La; lia].
      destruct (IH a2 b E) as (gs & hs & g & tail & w' & -> & Hg & Hh & -> & -> & Ht).
      exists (f :: gs), hs, (enc ++ g), tail, (tail ++ b).
      split_and!; eauto using wire. by rewrite app_assoc.
    + exists [], (f :: fs), [], a, (enc ++ w).
      destruct (len_split (len a) enc) as (e1 & e2 & E1 & Le); [llia|].
      rewrite E1, <-app_assoc in E.
      apply app_inj_1 in E as [-> E]; [|unfold len in Le; lia].
      split_and!; eauto using wire. { by rewrite E1, <-app_assoc, E. }
      right. exists f, enc, e2. split_and!; auto.
      intros ->. rewrite app_nil_r in E1. subst. lia.
Qed.

Lemma drain_wire gs g tail fuel :
  wire gs g → ExtractFrame tail = (Ok None, tail) → (length gs < fuel)%nat →
  drain fuel (g ++ tail) = (Ok gs, tail).
Proof.
  intros Hg Ht. revert fuel.
  induction Hg as [|f fs enc w Hf He Hw IH]; intros [|fuel] Hfuel; simpl in *; try lia.
  - by rewrite Ht.
  - rewrite <-app_assoc, (ExtractFrame_encoded f) by done. by rewrite IH by lia.
Qed.

Lemma wire_length gs g : wire gs g → (length gs ≤ length g)%nat.
Proof.
  induction 1 as [|f fs enc w Hf He Hw IH]; simpl; [lia|].
  rewrite length_app. apply EncodeFrame_nonempty in He. unfold len in He. lia.
Qed.

(** A tail that is empty or a proper prefix of a frame is not yet a frame. *)
Lemma ExtractFrame_tail tail :
  (tail = [] ∨ ∃ f enc m, frame_wf f ∧ EncodeFrame f = Ok enc ∧ enc = tail ++ m ∧ m ≠ []) →
  ExtractFrame tail = (Ok None, tail).
Proof.
  intros [->|(f & enc & m & Hf & He & Em & Hm)]; [reflexivity|].
  by eapply ExtractFrame_strict_prefix.
Qed.

Lemma feed_wire chunks buf fs w rest :
  wire fs w → buf ++ concat chunks ++ rest = w → ExtractFrame buf = (Ok None, buf) →
  ∃ gs hs tail w', fs = gs ++ hs ∧ feed buf chunks = (Ok gs, tail)
    ∧ wire hs w' ∧ w' = tail ++ rest ∧ ExtractFrame tail = (Ok None, tail).
Proof.
  revert buf fs w. induction chunks as [|c cs IH]; intros buf fs w Hw E Hbuf; simpl in *.
  - exists [], fs, buf, w. split_and!; auto.
  - destruct (wire_split fs w (buf ++ c) (concat cs ++ rest))
      as (gs & hs & g & tail & w' & -> & Hg & Hh & Ea & Ew & Ht); [done|by rewrite <-E, <-!app_assoc|].
    apply ExtractFrame_tail in Ht.
    unfold drain_all. rewrite Ea, (drain_wire gs) by
      (try done; apply wire_length in Hg; rewrite length_app; lia).
    destruct (IH tail hs w') as (gs' & hs' & tail' & w'' & -> & -> & ? & ? & ?); try done.
    exists (gs ++ gs'), hs', tail', w''. split_and!; auto. by rewrite app_assoc.
Qed.

(** ** Properties of the framing layer *)

(** C16: However the transport cuts a stream of encoded frames into chunks,
    draining the buffer after every chunk delivers exactly the frames that were
    sent, in order, and leaves the buffer empty. *)
Theorem feed_any_fragmentation fs w chunks :
  wire fs w → concat chunks = w → feed [] chunks = (Ok fs, []).
Proof.
  intros Hw Hc.
  destruct (feed_wire chunks [] fs w []) as (gs & hs & tail & w' & -> & Hf & Hh & -> & Ht);
    [done|simpl; by rewrite app_nil_r|done|].
  rewrite app_nil_r in Hh. rewrite Hf.
  inversion Hh as [|f hs' enc w' Hwf He Hw' Eh Ew]; subst; [by rewrite app_nil_r|].
  rewrite (ExtractFrame_encoded f) in Ht by done. discriminate Ht.
Qed.

Definition sample_frame : Frame := mkFrame 2 7 (bs "hi").
Definition sample_wire : bytes := bs "CXOS" ++ [x01; x00; x02; x00; x07; x00; x00; x00; x02; x00; x00; x00] ++ bs "hi".

Lemma sample_wire_ok : wire [sample_frame] sample_wire.
Proof.
  rewrite <-(app_nil_r sample_wire).
  apply wire_cons; [split; split; by vm_compute|by vm_compute|constructor].
Qed.

Lemma feed_any_fragmentation_witness :
  feed [] [takeZ 5 sample_wire; slice 5 17 sample_wire; dropZ 17 sample_wire]
  = (Ok [sample_frame], []).
Proof. apply (feed_any_fragmentation _ sample_wire); [apply sample_wire_ok|by vm_compute]. Defined.

Lemma ExtractFrame_Some_iff buf f rest :
  ExtractFrame buf = (Ok (Some f), rest)
  ↔ frame_wf f ∧ ∃ enc, EncodeFrame f = Ok enc ∧ buf = enc ++ rest.
Proof.
  split; [apply ExtractFrame_Some|].
  intros (Hf & enc & He & ->). by apply ExtractFrame_encoded.
Qed.

(** A frame is extracted exactly when the buffer starts with the encoding
    of a frame of the wire format, and the bytes after that encoding stay in
    the buffer; while only a proper prefix of an encoding has arrived the
    buffer is left alone and no error is reported. *)
Theorem ExtractFrame_sound_complete f enc :
  (∀ buf rest, ExtractFrame buf = (Ok (Some f), rest)
     ↔ frame_wf f ∧ ∃ e, EncodeFrame f = Ok e ∧ buf = e ++ rest)
  ∧ (frame_wf f → EncodeFrame f = Ok enc →
     ∀ buf more, enc = buf ++ more → more ≠ [] → ExtractFrame buf = (Ok None, buf)).
Proof.
  split; [intros; apply ExtractFrame_Some_iff|].
  intros. by eapply ExtractFrame_strict_prefix.
Qed.

Lemma ExtractFrame_sound_complete_witness :
  ExtractFrame sample_wire = (Ok (Some sample_frame), [])
  ∧ ExtractFrame (takeZ 17 sample_wire) = (Ok None, takeZ 17 sample_wire).
Proof.
  destruct (ExtractFrame_sound_complete sample_frame sample_wire) as [H1 H2]. split.
  - apply H1. split; [split; split; by vm_compute|].
    exists sample_wire. split; [by vm_compute|by rewrite app_nil_r].
  - apply (H2 ltac:(split; split; by vm_compute) ltac:(by vm_compute) _ (dropZ 17 sample_wire));
      by vm_compute.
Defined.

Lemma ExtractFrame_Err_extends buf e b more :
  ExtractFrame buf = (Err e, b) → ∃ e', ExtractFrame (buf ++ more) = (Err e', buf ++ more).
Proof.
  unfold ExtractFrame, frameHeaderSize. change (len frameMagic) with 4. intros H.
  case_in H.
  - (* the first bytes are not the magic *)
    rewrite bool_decide_eq_false_2; [simpl; eauto|].
    apply negb_true_iff, bool_decide_eq_false in Heqb0. contradict Heqb0.
    set (n := Z.min (len buf) 4) in *.
    assert (n ≤ Z.min (len (buf ++ more)) 4) by (unfold n; llia).
    apply (f_equal (takeZ n)) in Heqb0.
    assert (T : ∀ (l : bytes) k, 0 ≤ n ≤ k → takeZ n (takeZ k l) = takeZ n l).
    { intros l k ?. unfold takeZ. rewrite take_take. f_equal. lia. }
    rewrite !T in Heqb0 by (unfold n; llia).
    by rewrite takeZ_app_le in Heqb0 by (unfold n; llia).
  - apply negb_false_iff, bool_decide_eq_true in Heqb0.
    case_in H; [discriminate H|]. zbool.
    rewrite Z.min_r in Heqb0 by lia. rewrite Z.min_r by llia.
    rewrite takeZ_app_le by lia. rewrite Heqb0, bool_decide_eq_true_2 by done. simpl negb. cbn iota.
    rewrite (proj2 (Z.ltb_ge _ _)) by llia. rewrite takeZ_app_le by lia.
    destruct (decodeHeader (takeZ 16 buf)) as [[[t i] n]|]; [|eauto].
    case_in H; discriminate H.
Qed.

(** What has been decided about a buffer is never revised by later bytes:
    an extracted frame stays the same frame with the new bytes appended to the
    rest, and a rejected buffer stays rejected. *)
Theorem ExtractFrame_stable buf more r b :
  ExtractFrame buf = (r, b) →
  match r with
  | Ok (Some f) => ExtractFrame (buf ++ more) = (Ok (Some f), b ++ more)
  | Ok None => b = buf
  | Err _ => ∃ e, ExtractFrame (buf ++ more) = (Err e, buf ++ more)
  end.
Proof.
  intros H. destruct r as [[f|]|e].
  - apply ExtractFrame_Some_iff in H as (Hf & enc & He & ->).
    rewrite <-app_assoc. by apply ExtractFrame_encoded.
  - unfold ExtractFrame in H. repeat (case_in H; try discriminate H); congruence.
  - by eapply ExtractFrame_Err_extends.
Qed.

Lemma ExtractFrame_stable_witness :
  ExtractFrame (sample_wire ++ [x00]) = (Ok (Some sample_frame), [x00]).
Proof. apply (ExtractFrame_stable sample_wire [x00] (Ok (Some sample_frame)) []). by vm_compute. Defined.

(** Reading one frame from a stream and extracting one from a buffer agree
    on every input: same frame, same remaining bytes. *)
Theorem ReadFrame_ExtractFrame s f rest :
  ReadFrame s = Ok (f, rest) ↔ ExtractFrame s = (Ok (Some f), rest).
Proof.
  unfold ReadFrame, ReadFull, frameHeaderSize. rewrite ExtractFrame_Some_iff.
  split.
  - intros H. case_in H; [|destruct s; discriminate H]. zbool.
    apply bind_Ok in H as ([[t i] n] & Hd & H). cbn beta iota in H.
    case_in H; [|case_in H; discriminate H]. injection H as <- <-. zbool.
    apply decodeHeader_sound in Hd as (Eh & Ht & Hi & Hn); [|by apply len_takeZ; llia].
    split; [done|]. exists (takeZ 16 s ++ takeZ n (dropZ 16 s)). split.
    + apply EncodeFrame_Ok. cbn [MessageType RequestID Payload].
      rewrite len_takeZ, Eh by llia. split; [lia|done].
    + by rewrite <-app_assoc, !takeZ_dropZ.
  - intros ([Ht Hi] & enc & [Hp ->]%EncodeFrame_Ok & ->).
    destruct f as [t i p]; cbn [MessageType RequestID Payload] in *. rewrite <-app_assoc.
    rewrite (proj2 (Z.leb_le _ _)) by llia.
    rewrite takeZ_app, dropZ_app by llia.
    rewrite decodeHeader_header_bytes by (done || llia). cbn [mbind result_bind].
    rewrite (proj2 (Z.leb_le _ _)) by llia. by rewrite takeZ_app, dropZ_app.
Qed.
