(* ===== verification/Protocol.v ===== *)
(** * Tool and host-service payloads (src/internal/guest/protocol.go)

    The decoder of host-service requests, the host-service response, the tool
    list, the tool invocation request and its result. *)

From S2P Require Import Prelude GoStd Framing.
Open Scope Z_scope.

Definition ListToolsRequest : Z := 0x0001.
Definition ListToolsResponse : Z := 0x8001.
Definition InvokeToolRequest : Z := 0x0002.
Definition InvokeToolResponse : Z := 0x8002.
Definition HostServiceRequest : Z := 0x0003.
Definition HostServiceResponse : Z := 0x8003.
Definition V1GuestInvocationPayloadCapacity : Z := 16 * 1024 + 256 + 27.
Definition maxProtocolNames : Z := 255.
Definition maxArguments : Z := 64.
Definition maxTools : Z := 256.

Record HostRequest := mkHostRequest {
  hrRequestID : Z;          (* uint32 *)
  ServiceName : bytes;
  Arguments_ : list bytes
}.

(** ** The incremental decoder *)

Record protocolDecoder := mkDecoder { data : bytes; offset : Z }.

Definition decoder_bytes64 (length : Z) (description : string) (d : protocolDecoder)
  : result (bytes * protocolDecoder) :=
  if len (data d) - offset d <? length then
    Err (HostServiceProtocolError (txt "truncated " ++ txt description))
  else
    let end_ := offset d + length in
    Ok (slice (offset d) end_ (data d), mkDecoder (data d) end_).

Definition decoder_bytes (length : Z) (description : string) (d : protocolDecoder)
  : result (bytes * protocolDecoder) := decoder_bytes64 length description d.

Definition decoder_uint16 (description : string) (d : protocolDecoder) : result (Z * protocolDecoder) :=
  '(value, d) ← decoder_bytes 2 description d;
  Ok (get16 value, d).

Definition decoder_uint32 (description : string) (d : protocolDecoder) : result (Z * protocolDecoder) :=
  '(value, d) ← decoder_bytes 4 description d;
  Ok (get32 value, d).

Definition decoder_done (d : protocolDecoder) : bool := offset d =? len (data d).

(** The loop of [DecodeHostServiceRequest] over the declared argument count. *)
Fixpoint decodeArguments (argumentCount : nat) (d : protocolDecoder)
  : result (list bytes * protocolDecoder) :=
  match argumentCount with
  | O => Ok ([], d)
  | S n =>
      '(argumentLength, d) ← decoder_uint32 "argument length" d;
      '(argument, d) ← decoder_bytes64 argumentLength "argument" d;
      '(arguments, d) ← decodeArguments n d;
      Ok (argument :: arguments, d)
  end.

Definition DecodeHostServiceRequest (frame : Frame) : result HostRequest :=
  if negb (MessageType frame =? HostServiceRequest) then
    Err (HostServiceProtocolError (txt "expected HOST_SERVICE_REQUEST, got message type 0x"
                                   ++ [Lit (strconv.hex4 (MessageType frame))]))
  else if RequestID frame =? 0 then
    Err (HostServiceProtocolError (txt "host-service request ID must be non-zero"))
  else if MaxPayloadSize <? len (Payload frame) then
    Err (HostServiceProtocolError (txt "host-service request payload exceeds 16 MiB"))
  else
    '(nameLength, d) ← decoder_uint16 "service name length" (mkDecoder (Payload frame) 0);
    if nameLength =? 0 then
      Err (HostServiceProtocolError (txt "service name must not be empty"))
    else if maxProtocolNames <? nameLength then
      Err (HostServiceProtocolError (txt "service name exceeds 255 encoded bytes"))
    else
      '(encodedName, d) ← decoder_bytes nameLength "service name" d;
      if negb (utf8.Valid encodedName) then
        Err (HostServiceProtocolError (txt "service name is not valid UTF-8"))
      else
        '(argumentCount, d) ← decoder_uint16 "argument count" d;
        if maxArguments <? argumentCount then
          Err (HostServiceProtocolError (txt "argument count exceeds 64"))
        else
          '(arguments, d) ← decodeArguments (Z.to_nat argumentCount) d;
          if negb (decoder_done d) then
            Err (HostServiceProtocolError (txt "unexpected trailing data in host-service request"))
          else Ok (mkHostRequest (RequestID frame) encodedName arguments).

Definition CreateHostServiceResponse (requestID status : Z) (output : bytes) : result Frame :=
  if requestID =? 0 then
    Err (PlainError (txt "host-service response request ID must be a non-zero uint32"))
  else if MaxPayloadSize - 4 <? len output then
    Err (PlainError (txt "host-service response payload exceeds 16 MiB"))
  else Ok (mkFrame HostServiceResponse requestID (put32 status ++ output)).

Record ToolResult := mkToolResult { Status : Z; Output : bytes }.

(** The loop of [ParseToolList] from [offset] on: the names and the final offset. *)
Fixpoint parseToolNames (toolCount : nat) (payload : bytes) (offset : Z)
  : result (list bytes * Z) :=
  match toolCount with
  | O => Ok ([], offset)
  | S n =>
      if len payload - offset <? 2 then
        Err (ToolProtocolError (txt "list response has a truncated name length"))
      else
        let nameLength := get16 (slice offset (offset + 2) payload) in
        let offset := offset + 2 in
        if nameLength =? 0 then
          Err (ToolProtocolError (txt "list response contains an empty tool name"))
        else if maxProtocolNames <? nameLength then
          Err (ToolProtocolError (txt "list response tool name exceeds 255 bytes"))
        else if len payload - offset <? nameLength then
          Err (ToolProtocolError (txt "list response has a truncated tool name"))
        else
          let name := slice offset (offset + nameLength) payload in
          let offset := offset + nameLength in
          if negb (utf8.Valid name) then
            Err (ToolProtocolError (txt "list response contains invalid UTF-8"))
          else
            '(tools, offset) ← parseToolNames n payload offset;
            Ok (name :: tools, offset)
  end.

Definition ParseToolList (payload : bytes) : result (list bytes) :=
  if len payload <? 2 then
    Err (ToolProtocolError (txt "list response is missing the tool count"))
  else
    let toolCount := get16 (takeZ 2 payload) in
    if maxTools <? toolCount then
      Err (ToolProtocolError (txt "list response contains " ++ [Lit (strconv.Itoa toolCount)]
                              ++ txt " tools; maximum is 256"))
    else
      '(tools, offset) ← parseToolNames (Z.to_nat toolCount) payload 2;
      if negb (offset =? len payload) then
        Err (ToolProtocolError (txt "list response contains unexpected trailing data"))
      else Ok tools.

(** The exact encoded size, in uint64 arithmetic. *)
Definition InvokeRequestPayloadSize (name : bytes) (arguments : list bytes) : result Z :=
  if negb (utf8.Valid name) then Err (PlainError (txt "tool name is not valid UTF-8"))
  else if bool_decide (name = []) then Err (PlainError (txt "tool name must not be empty"))
  else if maxProtocolNames <? len name then Err (PlainError (txt "tool name exceeds 255 UTF-8 bytes"))
  else if maxArguments <? len arguments then
    Err (PlainError (txt "an invocation may contain at most 64 arguments"))
  else
    Ok (fold_left (λ size argument, wrap64 (size + wrap64 (4 + len argument)))
                  arguments (2 + len name + 2)).

Definition EncodeInvokeRequest (name : bytes) (arguments : list bytes) : result bytes :=
  encodedSize ← InvokeRequestPayloadSize name arguments;
  if MaxPayloadSize <? encodedSize then
    Err (PlainError (txt "invocation payload exceeds the 16 MiB frame limit"))
  else
    Ok (put16 (wrap16 (len name)) ++ name
        ++ put16 (wrap16 (len arguments))
        ++ (arguments ≫= λ argument, put32 (wrap32 (len argument)) ++ argument)).

Definition DecodeToolResult (payload : bytes) : result ToolResult :=
  if len payload <? 4 then
    Err (ToolProtocolError (txt "invoke response is missing its status"))
  else Ok (mkToolResult (get32 (takeZ 4 payload)) (dropZ 4 payload)).

(** ** The wire format, written down independently of the decoders *)
Definition invocation_wire (name : bytes) (arguments : list bytes) : bytes :=
  lp16 name ++ put16 (len arguments) ++ (arguments ≫= lp32).
Definition tool_list_wire (names : list bytes) : bytes :=
  put16 (len names) ++ (names ≫= lp16).

(** A protocol name: 1 through 255 bytes of valid UTF-8. *)
Definition name_ok (name : bytes) : Prop :=
  1 ≤ len name ≤ maxProtocolNames ∧ utf8.Valid name = true.

(** ** The decoder as a parser of the bytes still ahead *)

(** [dec_at d r]: the decoder is in range and [r] is what it has not read. *)
Definition dec_at (d : protocolDecoder) (r : bytes) : Prop :=
  ∃ pre, data d = pre ++ r ∧ offset d = len pre.

Lemma dec_at_start p : dec_at (mkDecoder p 0) p.
Proof. by exists []. Qed.

Lemma dec_at_done d r : dec_at d r → decoder_done d = bool_decide (r = []).
Proof.
  intros (pre & Hd & Ho). unfold decoder_done. rewrite Hd, Ho. len_simp.
  destruct (decide (r = [])) as [->|Hr].
  - rewrite bool_decide_eq_true_2 by done. len_simp. apply Z.eqb_eq. lia.
  - rewrite bool_decide_eq_false_2 by done. apply Z.eqb_neq. rewrite <-len_0 in Hr. lia.
Qed.

Lemma decoder_bytes64_app d v r s n :
  dec_at d (v ++ r) → n = len v →
  ∃ d', decoder_bytes64 n s d = Ok (v, d') ∧ dec_at d' r.
Proof.
  intros (pre & Hd & Ho) ->. unfold decoder_bytes64. rewrite Hd, Ho.
  rewrite (proj2 (Z.ltb_ge _ _)) by llia. eexists. split.
  - rewrite slice_app by lia. done.
  - exists (pre ++ v). rewrite <-app_assoc. split; [done|]. by len_simp.
Qed.

Lemma decoder_bytes64_inv d r0 s n v d' :
  dec_at d r0 → 0 ≤ n → decoder_bytes64 n s d = Ok (v, d') →
  ∃ r, r0 = v ++ r ∧ len v = n ∧ dec_at d' r.
Proof.
  intros (pre & Hd & Ho) Hn H. unfold decoder_bytes64 in H. rewrite Hd, Ho in H.
  inv_ok. zbool. len_simp.
  destruct (len_split n r0) as (v & r & -> & Hv); [lia|].
  rewrite slice_app by lia. exists r. split_and!; auto.
  exists (pre ++ v). rewrite <-app_assoc. split; [done|]. cbn [offset]. len_simp. lia.
Qed.

Lemma decoder_uint16_app d z r s :
  u16 z → dec_at d (put16 z ++ r) → ∃ d', decoder_uint16 s d = Ok (z, d') ∧ dec_at d' r.
Proof.
  intros Hz Hd. unfold decoder_uint16, decoder_bytes.
  destruct (decoder_bytes64_app d (put16 z) r s 2) as (d' & -> & ?); [done|by len_simp|].
  exists d'. simpl. by rewrite get16_put16_exact.
Qed.

Lemma decoder_uint32_app d z r s :
  u32 z → dec_at d (put32 z ++ r) → ∃ d', decoder_uint32 s d = Ok (z, d') ∧ dec_at d' r.
Proof.
  intros Hz Hd. unfold decoder_uint32, decoder_bytes.
  destruct (decoder_bytes64_app d (put32 z) r s 4) as (d' & -> & ?); [done|by len_simp|].
  exists d'. simpl. by rewrite get32_put32_exact.
Qed.

Lemma decoder_uint16_inv d r0 s z d' :
  dec_at d r0 → decoder_uint16 s d = Ok (z, d') →
  ∃ r, r0 = put16 z ++ r ∧ u16 z ∧ dec_at d' r.
Proof.
  unfold decoder_uint16, decoder_bytes. intros Hd H.
  apply bind_Ok in H as ([v d1] & H1 & H2). cbn beta iota in H2. injection H2 as <- <-.
  apply (decoder_bytes64_inv d r0) in H1 as (r & -> & Hv & Hd'); [|done|lia].
  exists r. rewrite put16_get16_exact by done. eauto with go.
Qed.

Lemma decoder_uint32_inv d r0 s z d' :
  dec_at d r0 → decoder_uint32 s d = Ok (z, d') →
  ∃ r, r0 = put32 z ++ r ∧ u32 z ∧ dec_at d' r.
Proof.
  unfold decoder_uint32, decoder_bytes. intros Hd H.
  apply bind_Ok in H as ([v d1] & H1 & H2). cbn beta iota in H2. injection H2 as <- <-.
  apply (decoder_bytes64_inv d r0) in H1 as (r & -> & Hv & Hd'); [|done|lia].
  exists r. rewrite put32_get32_exact by done. eauto with go.
Qed.

Lemma decodeArguments_app args d r :
  Forall (λ a, len a < 2 ^ 32) args → dec_at d ((args ≫= lp32) ++ r) →
  ∃ d', decodeArguments (length args) d = Ok (args, d') ∧ dec_at d' r.
Proof.
  intros Ha. revert d. induction Ha as [|a args Ha _ IH]; intros d Hd; simpl in *.
  - eauto.
  - unfold lp32 in Hd at 1. rewrite <-!app_assoc in Hd.
    destruct (decoder_uint32_app d (len a) (a ++ (args ≫= lp32) ++ r) "argument length")
      as (d1 & -> & Hd1); [unfold u32; llia|done|]. cbn [mbind result_bind].
    destruct (decoder_bytes64_app d1 a ((args ≫= lp32) ++ r) "argument" (len a))
      as (d2 & -> & Hd2); [done|done|]. cbn [mbind result_bind].
    destruct (IH d2 Hd2) as (d3 & -> & Hd3). eauto.
Qed.

Lemma decodeArguments_inv n d r0 args d' :
  dec_at d r0 → decodeArguments n d = Ok (args, d') →
  ∃ r, r0 = (args ≫= lp32) ++ r ∧ length args = n ∧ dec_at d' r.
Proof.
  revert d r0 args. induction n as [|n IH]; intros d r0 args Hd H; cbn [decodeArguments] in H.
  - injection H as <- <-. exists r0. done.
  - apply bind_Ok in H as ([z d1] & H1 & H). apply bind_Ok in H as ([a d2] & H2 & H).
    apply bind_Ok in H as ([as_ d3] & H3 & H). cbn beta iota in H. injection H as <- <-.
    apply (decoder_uint32_inv d r0) in H1 as (r1 & -> & Hz & Hd1); [|done].
    apply (decoder_bytes64_inv d1 r1) in H2 as (r2 & -> & <- & Hd2); [|done|destruct Hz; lia].
    apply (IH _ r2) in H3 as (r3 & -> & <- & Hd3); [|done].
    exists r3. simpl. unfold lp32 at 2. by rewrite <-!app_assoc.
Qed.

(** ** Host-service requests *)

Lemma invocation_wire_arg_bound name args a :
  a ∈ args → len a ≤ len (invocation_wire name args).
Proof.
  intros Ha. unfold invocation_wire. len_simp.
  enough (len a ≤ len (args ≫= lp32)) by llia.
  induction args as [|b args IH]; [set_solver|]. rewrite lbind_cons. len_simp.
  apply elem_of_cons in Ha as [->|Ha]; [llia|]. specialize (IH Ha). llia.
Qed.

(** A host-service request is accepted exactly when its frame has the
    request type, a non-zero ID and a payload of at most 16 MiB that is the wire
    form of a 1..255 byte UTF-8 service name and at most 64 arguments, with no
    byte missing and none left over; name, arguments and ID are returned
    unchanged. *)
Theorem DecodeHostServiceRequest_iff frame req :
  DecodeHostServiceRequest frame = Ok req ↔
  MessageType frame = HostServiceRequest ∧ RequestID frame ≠ 0
  ∧ hrRequestID req = RequestID frame
  ∧ len (Payload frame) ≤ MaxPayloadSize
  ∧ name_ok (ServiceName req) ∧ len (Arguments_ req) ≤ maxArguments
  ∧ Payload frame = invocation_wire (ServiceName req) (Arguments_ req).
Proof.
  destruct frame as [ty id p]. cbn [MessageType RequestID Payload].
  unfold DecodeHostServiceRequest. cbn [MessageType RequestID Payload]. split.
  - intros H. guards H. zbool.
    apply bind_Ok in H as ([nl d1] & H1 & H). cbn beta iota in H. guards H.
    apply bind_Ok in H as ([nm d2] & H2 & H). cbn beta iota in H. guards H.
    apply bind_Ok in H as ([ac d3] & H3 & H). cbn beta iota in H. guards H.
    apply bind_Ok in H as ([args d4] & H4 & H). cbn beta iota in H. guards H. injection H as <-. zbool.
    apply (decoder_uint16_inv _ p) in H1 as (r1 & -> & Hn & D1); [|apply dec_at_start].
    apply (decoder_bytes64_inv _ r1) in H2 as (r2 & -> & <- & D2); [|done|destruct Hn; lia].
    apply (decoder_uint16_inv _ r2) in H3 as (r3 & -> & Hc & D3); [|done].
    apply (decodeArguments_inv _ _ r3) in H4 as (r4 & -> & Ha & D4); [|done].
    rewrite (dec_at_done _ _ D4) in *. zbool. subst r4.
    assert (len args = ac) as <- by (unfold len; destruct Hc; lia).
    cbn [hrRequestID ServiceName Arguments_]. unfold name_ok, invocation_wire, lp16.
    rewrite app_nil_r, <-!app_assoc in *. split_and!; auto; llia.
  - intros (-> & Hid & Hrid & Hlen & [Hnm Hv] & Ha & Hp).
    destruct req as [rid nm args]. cbn [hrRequestID ServiceName Arguments_] in *. subst rid.
    rewrite Z.eqb_refl. simpl negb. cbn iota.
    rewrite (proj2 (Z.eqb_neq _ _)), (proj2 (Z.ltb_ge _ _)) by done.
    unfold maxProtocolNames, maxArguments in *.
    assert (D : dec_at (mkDecoder p 0) (put16 (len nm) ++ nm ++ put16 (len args) ++ (args ≫= lp32) ++ [])).
    { rewrite app_nil_r. pose proof (dec_at_start p) as D. rewrite Hp in D at 2.
      unfold invocation_wire, lp16 in D. by rewrite <-!app_assoc in D. }
    apply (decoder_uint16_app _ _ _ "service name length") in D as (d1 & -> & D); [|unfold u16; lia].
    cbn [mbind result_bind]. rewrite (proj2 (Z.eqb_neq _ _)), (proj2 (Z.ltb_ge _ _)) by lia.
    apply (decoder_bytes64_app _ _ _ "service name" (len nm)) in D as (d2 & D2 & D); [|done].
    unfold decoder_bytes. rewrite D2. cbn [mbind result_bind]. rewrite Hv. simpl negb. cbn iota.
    apply (decoder_uint16_app _ _ _ "argument count") in D as (d3 & -> & D); [|unfold u16; llia].
    cbn [mbind result_bind]. rewrite (proj2 (Z.ltb_ge _ _)) by lia.
    apply decodeArguments_app in D as (d4 & D4 & D).
    + rewrite to_nat_len, D4. cbn [mbind result_bind].
      by rewrite (dec_at_done _ _ D).
    + apply Forall_forall. intros a Hin. apply (invocation_wire_arg_bound nm) in Hin.
      rewrite <-Hp in Hin. unfold MaxPayloadSize in *. lia.
Qed.

(** ** Tool invocation requests *)

Lemma payload_size_fold args n :
  0 ≤ n → n + len (args ≫= lp32) < 2 ^ 64 →
  fold_left (λ size a, wrap64 (size + wrap64 (4 + len a))) args n = n + len (args ≫= lp32).
Proof.
  revert n. induction args as [|a args IH]; intros n Hn H; [simpl; llia|].
  rewrite lbind_cons in *. cbn [fold_left]. len_simp.
  assert (0 ≤ len (args ≫= lp32)) by llia.
  assert (wrap64 (n + wrap64 (4 + len a)) = n + (4 + len a)) as ->.
  { unfold wrap64. rewrite (Z.mod_small (4 + len a)) by llia. apply Z.mod_small. llia. }
  rewrite IH by llia. lia.
Qed.

(** A list of arguments, in bytes on the wire. *)
Lemma InvokeRequestPayloadSize_Ok name args :
  len (invocation_wire name args) < 2 ^ 64 →
  name_ok name → len args ≤ maxArguments →
  InvokeRequestPayloadSize name args = Ok (len (invocation_wire name args)).
Proof.
  intros Hlen [[H1 H2] Hv] Ha. unfold InvokeRequestPayloadSize. rewrite Hv. simpl negb. cbn iota.
  rewrite bool_decide_eq_false_2 by (rewrite <-len_0; lia).
  rewrite !(proj2 (Z.ltb_ge _ _)) by done.
  unfold invocation_wire in *. len_simp. rewrite payload_size_fold by llia. f_equal. lia.
Qed.

Lemma InvokeRequestPayloadSize_inv name args n :
  InvokeRequestPayloadSize name args = Ok n → name_ok name ∧ len args ≤ maxArguments.
Proof.
  unfold InvokeRequestPayloadSize, name_ok. intros H. guards H. zbool.
  rewrite <-len_0 in *. split_and!; auto; llia.
Qed.

(** The bytes [EncodeInvokeRequest] appends are the wire form: no length is cut
    to its 16 or 32 bits. *)
Lemma invocation_encoding name args :
  len args ≤ maxArguments → name_ok name → len (invocation_wire name args) ≤ MaxPayloadSize →
  put16 (wrap16 (len name)) ++ name ++ put16 (wrap16 (len args))
    ++ (args ≫= λ a, put32 (wrap32 (len a)) ++ a) = invocation_wire name args.
Proof.
  intros Ha [[H1 H2] _] Hp. unfold maxArguments, maxProtocolNames in *.
  unfold invocation_wire at 1, lp16, wrap16. rewrite !Z.mod_small by llia. rewrite <-!app_assoc.
  do 3 f_equal. apply list_bind_ext_in. intros a Hin.
  apply (invocation_wire_arg_bound name) in Hin. unfold lp32, wrap32.
  rewrite Z.mod_small; [done|]. unfold MaxPayloadSize in *. llia.
Qed.

(** Once the size is known to fit, encoding succeeds with exactly that size. *)
Lemma encode_of_size name args size :
  len (invocation_wire name args) < 2 ^ 64 →
  InvokeRequestPayloadSize name args = Ok size → size ≤ MaxPayloadSize →
  EncodeInvokeRequest name args = Ok (invocation_wire name args) ∧ len (invocation_wire name args) = size.
Proof.
  intros Hw Hs Hm. destruct (InvokeRequestPayloadSize_inv _ _ _ Hs) as [Hok Ha].
  rewrite InvokeRequestPayloadSize_Ok in Hs by done. injection Hs as Hs.
  split; [|done]. unfold EncodeInvokeRequest. rewrite InvokeRequestPayloadSize_Ok by done.
  cbn [mbind result_bind]. rewrite (proj2 (Z.ltb_ge _ _)) by lia. by rewrite invocation_encoding by (done || lia).
Qed.

(** A tool invocation is encoded exactly when the name is 1..255 bytes of
    UTF-8, there are at most 64 arguments and the payload is at most 16 MiB; the
    bytes are the wire form of name and arguments, and their number is the size
    computed beforehand (given that the total is below 2^64, so that the uint64
    sum does not wrap). *)
Theorem EncodeInvokeRequest_iff name args payload :
  len (invocation_wire name args) < 2 ^ 64 →
  EncodeInvokeRequest name args = Ok payload ↔
  name_ok name ∧ len args ≤ maxArguments ∧ len payload ≤ MaxPayloadSize
  ∧ payload = invocation_wire name args
  ∧ InvokeRequestPayloadSize name args = Ok (len payload).
Proof.
  intros Hw. split.
  - unfold EncodeInvokeRequest. intros (n & Hn & H)%bind_Ok. guards H. injection H as <-. zbool.
    pose proof (InvokeRequestPayloadSize_inv _ _ _ Hn) as [Hok Ha].
    rewrite InvokeRequestPayloadSize_Ok in Hn by done. injection Hn as <-.
    rewrite invocation_encoding by done. rewrite InvokeRequestPayloadSize_Ok by done. done.
  - intros (Hok & Ha & Hp & -> & Hs). by apply (encode_of_size _ _ _ Hw Hs Hp).
Qed.

Lemma EncodeInvokeRequest_iff_witness :
  EncodeInvokeRequest (bs "read") [bs "seed/a"; bs "0"]
  = Ok (invocation_wire (bs "read") [bs "seed/a"; bs "0"]).
Proof.
  apply (EncodeInvokeRequest_iff (bs "read") [bs "seed/a"; bs "0"]
           (invocation_wire (bs "read") [bs "seed/a"; bs "0"])); [by vm_compute|].
  split_and!; try (split; [split|]); by vm_compute.
Defined.

(** ** Tool lists *)

Lemma parseToolNames_app names pre r :
  Forall name_ok names →
  parseToolNames (length names) (pre ++ (names ≫= lp16) ++ r) (len pre)
  = Ok (names, len pre + len (names ≫= lp16)).
Proof.
  intros Hn. revert pre. induction Hn as [|nm names [[H1 H2] Hv] _ IH]; intros pre.
  - cbn [length parseToolNames]. rewrite lbind_nil. len_simp. by rewrite Z.add_0_r.
  - cbn [length parseToolNames]. rewrite lbind_cons. unfold maxProtocolNames in *.
    set (t := names ≫= lp16) in *. unfold lp16.
    rewrite (proj2 (Z.ltb_ge _ _)) by llia.
    assert (slice (len pre) (len pre + 2) (pre ++ ((put16 (len nm) ++ nm) ++ t) ++ r) = put16 (len nm)) as ->.
    { rewrite <-!app_assoc. apply slice_app; llia. }
    rewrite get16_put16_exact by (unfold u16; lia).
    rewrite (proj2 (Z.eqb_neq _ _)), !(proj2 (Z.ltb_ge _ _)) by llia.
    assert (slice (len pre + 2) (len pre + 2 + len nm) (pre ++ ((put16 (len nm) ++ nm) ++ t) ++ r) = nm) as ->.
    { rewrite <-!app_assoc, (app_assoc pre). apply slice_app; llia. }
    rewrite Hv. simpl negb. cbn iota.
    replace (pre ++ ((put16 (len nm) ++ nm) ++ t) ++ r) with ((pre ++ put16 (len nm) ++ nm) ++ t ++ r)
      by by rewrite <-!app_assoc.
    replace (len pre + 2 + len nm) with (len (pre ++ put16 (len nm) ++ nm)) by llia.
    rewrite IH. cbn [mbind result_bind]. do 2 f_equal. llia.
Qed.

Lemma parseToolNames_inv n pre r0 names o :
  parseToolNames n (pre ++ r0) (len pre) = Ok (names, o) →
  ∃ r, r0 = (names ≫= lp16) ++ r ∧ length names = n ∧ Forall name_ok names
    ∧ o = len pre + len (names ≫= lp16).
Proof.
  revert pre r0 names. induction n as [|n IH]; intros pre r0 names H; cbn [parseToolNames] in H.
  - injection H as <- <-. exists r0. rewrite lbind_nil. len_simp. rewrite Z.add_0_r. by auto.
  - guards H. zbool. len_simp.
    destruct (len_split 2 r0) as (nl & r1 & -> & L1); [llia|].
    assert (slice (len pre) (len pre + 2) (pre ++ nl ++ r1) = nl) as Es by (apply slice_app; lia).
    rewrite Es in *. len_simp.
    pose proof (get16_range nl) as [? _]. set (k := get16 nl) in *.
    destruct (len_split k r1) as (nm & r2 & -> & L2); [lia|].
    assert (slice (len pre + 2) (len pre + 2 + k) (pre ++ nl ++ nm ++ r2) = nm) as Es2.
    { rewrite (app_assoc pre). apply slice_app; llia. }
    rewrite Es2 in *. rewrite (app_assoc pre) in H.
    replace (len pre + 2 + k) with (len ((pre ++ nl) ++ nm)) in H by llia.
    rewrite (app_assoc (pre ++ nl)) in H.
    apply bind_Ok in H as ([names' o'] & H & E). cbn beta iota in E. injection E as <- <-.
    apply IH in H as (r & -> & <- & Hf & ->).
    assert (lp16 nm = nl ++ nm) as Elp
      by (unfold lp16; rewrite L2; unfold k; by rewrite put16_get16_exact).
    exists r. rewrite lbind_cons, Elp, <-!app_assoc. split_and!; auto; [|llia].
    constructor; [|done]. unfold name_ok, maxProtocolNames in *. split; [lia|done].
Qed.

(** A tool list is accepted exactly when the payload is the wire form of at
    most 256 names of 1..255 bytes of UTF-8 each; the names come back in order. *)
Theorem ParseToolList_iff payload names :
  ParseToolList payload = Ok names ↔
  len names ≤ maxTools ∧ Forall name_ok names ∧ payload = tool_list_wire names.
Proof.
  unfold ParseToolList, tool_list_wire. split.
  - intros H. guards H. zbool.
    apply bind_Ok in H as ([names' o] & H1 & H). cbn beta iota in H. guards H.
    injection H as ->. zbool.
    destruct (len_split 2 payload) as (c & r & -> & Lc); [llia|].
    rewrite takeZ_app in * by lia. rewrite <-Lc in H1.
    apply parseToolNames_inv in H1 as (r' & -> & Hl & Hf & ->).
    assert (r' = []) as -> by (apply len_0; len_simp; lia).
    pose proof (get16_range c) as [? _].
    assert (len names = get16 c) as El by (unfold len; lia).
    rewrite El, put16_get16_exact, app_nil_r by done. split_and!; auto; lia.
  - intros (Hn & Hf & ->). rewrite (proj2 (Z.ltb_ge _ _)) by llia.
    rewrite takeZ_app by by len_simp. unfold maxTools in *.
    rewrite get16_put16_exact by (unfold u16; llia).
    rewrite (proj2 (Z.ltb_ge _ _)) by done. rewrite to_nat_len.
    pose proof (parseToolNames_app names (put16 (len names)) [] Hf) as E.
    rewrite app_nil_r, len_put16 in E. rewrite E. cbn [mbind result_bind]. len_simp.
    by rewrite Z.eqb_refl.
Qed.

(** ** Responses *)

(** A host-service response carries status and output so that the tool-side
    decoding of its payload returns exactly them; it is refused exactly for
    request ID zero or an output above 16 MiB less four bytes, and otherwise it
    fits in a frame. *)
Theorem CreateHostServiceResponse_roundtrip id status output :
  u32 id → u32 status →
  match CreateHostServiceResponse id status output with
  | Ok f =>
      id ≠ 0 ∧ len output ≤ MaxPayloadSize - 4
      ∧ frame_wf f ∧ MessageType f = HostServiceResponse ∧ RequestID f = id
      ∧ is_ok (EncodeFrame f) = true
      ∧ DecodeToolResult (Payload f) = Ok (mkToolResult status output)
  | Err _ => id = 0 ∨ MaxPayloadSize - 4 < len output
  end.
Proof.
  intros Hid Hs. unfold CreateHostServiceResponse.
  destruct (id =? 0) eqn:E1; zbool; [by left|].
  destruct (MaxPayloadSize - 4 <? len output) eqn:E2; zbool; [by right|].
  cbn [MessageType RequestID Payload]. split_and!; try done.
  - unfold EncodeFrame. cbn [Payload]. by rewrite (proj2 (Z.ltb_ge _ _)) by llia.
  - unfold DecodeToolResult. rewrite (proj2 (Z.ltb_ge _ _)) by llia.
    rewrite takeZ_app, dropZ_app by by len_simp. by rewrite get32_put32_exact.
Qed.

Lemma CreateHostServiceResponse_roundtrip_witness :
  DecodeToolResult (put32 1 ++ bs "no") = Ok (mkToolResult 1 (bs "no")).
Proof.
  apply (CreateHostServiceResponse_roundtrip 9 1 (bs "no")); split; by vm_compute.
Defined.
