(* ===== verification/Sha256.v ===== *)
(** * SHA-256 (package crypto/sha256), executable

    The harness identifies snapshots, artifacts and assets by SHA-256. The
    digest is computed here by the algorithm of FIPS 180-4, so that the
    definitions built on it evaluate. *)

From S2P Require Import Prelude GoStd.
Open Scope Z_scope.

(** The wrap-around of [uint32] as a mask, which evaluates without a division. *)
Definition low32 (z : Z) : Z := Z.land z 4294967295.
Definition add32 (a b : Z) : Z := low32 (a + b).
Definition rotr (n x : Z) : Z := Z.lor (Z.shiftr x n) (low32 (Z.shiftl x (32 - n))).
Definition not32 (x : Z) : Z := Z.lxor x 4294967295.

Lemma low32_wrap z : low32 z = wrap32 z.
Proof. exact (Z.land_ones z 32 ltac:(done)). Qed.

(** The constants, from their definition: the first 32 bits of the fractional
    parts of the cube roots of the first 64 primes, and of the square roots of
    the first eight. *)
Definition prime (n : Z) : bool :=
  forallb (λ d, negb (n mod d =? 0)) (seqZ 2 (n - 2)).
Definition primes : list Z := filter (λ n, prime n = true) (seqZ 2 310).

(** The integer cube root of [n], bit by bit from [2 ^ fuel] down. *)
Fixpoint cube_root (fuel : nat) (n r : Z) : Z :=
  let r' := r + 2 ^ Z.of_nat fuel in
  let r := if r' * r' * r' <=? n then r' else r in
  match fuel with O => r | S fuel => cube_root fuel n r end.

Definition K : list Z := Eval vm_compute in (λ p, wrap32 (cube_root 40 (p * 2 ^ 96) 0)) <$> primes.
Definition H0 : list Z := Eval vm_compute in (λ p, wrap32 (Z.sqrt (p * 2 ^ 64))) <$> take 8 primes.

(** Big-endian words. *)
Fixpoint be_bytes (n : nat) (z : Z) (acc : bytes) : bytes :=
  match n with O => acc | S n => be_bytes n (Z.shiftr z 8) (z2b z :: acc) end.
Definition be_value (l : bytes) : Z := fold_left (λ v b, v * 256 + b2z b) l 0.

Definition pad (m : bytes) : bytes :=
  let zeros := Z.to_nat ((55 - len m) mod 64) in
  m ++ [x80] ++ replicate zeros x00 ++ be_bytes 8 (8 * len m) [].

Fixpoint words (n : nat) (block : bytes) : list Z :=
  match n with
  | O => []
  | S n => be_value (take 4 block) :: words n (drop 4 block)
  end.

(** The message schedule: the newest word is at the head. *)
Fixpoint schedule (n : nat) (w : list Z) : list Z :=
  match n with
  | O => w
  | S n =>
      let g i := nth i w 0 in
      let s0 := Z.lxor (Z.lxor (rotr 7 (g 14%nat)) (rotr 18 (g 14%nat))) (Z.shiftr (g 14%nat) 3) in
      let s1 := Z.lxor (Z.lxor (rotr 17 (g 1%nat)) (rotr 19 (g 1%nat))) (Z.shiftr (g 1%nat) 10) in
      schedule n (add32 (add32 (g 15%nat) s0) (add32 (g 6%nat) s1) :: w)
  end.

Definition round (st : list Z) (kw : Z * Z) : list Z :=
  match st with
  | [a; b; c; d; e; f; g; h] =>
      let S1 := Z.lxor (Z.lxor (rotr 6 e) (rotr 11 e)) (rotr 25 e) in
      let ch := Z.lxor (Z.land e f) (Z.land (not32 e) g) in
      let t1 := add32 (add32 (add32 h S1) (add32 ch kw.1)) kw.2 in
      let S0 := Z.lxor (Z.lxor (rotr 2 a) (rotr 13 a)) (rotr 22 a) in
      let maj := Z.lxor (Z.lxor (Z.land a b) (Z.land a c)) (Z.land b c) in
      let t2 := add32 S0 maj in
      [add32 t1 t2; a; b; c; add32 d t1; e; f; g]
  | _ => st
  end.

Definition compress (st : list Z) (block : bytes) : list Z :=
  let w := rev (schedule 48 (rev (words 16 block))) in
  zip_with add32 st (fold_left round (zip K w) st).

Fixpoint blocks (n : nat) (m : bytes) (st : list Z) : list Z :=
  match n with
  | O => st
  | S n => blocks n (drop 64 m) (compress st (take 64 m))
  end.

(** [sha256.Sum256] *)
Definition Sum256 (m : bytes) : bytes :=
  let p := pad m in
  blocks (Nat.div (length p) 64) p H0 ≫= λ w, be_bytes 4 w [].

(** [hex.EncodeToString(digest[:])] *)
Definition sha256_hex (m : bytes) : bytes := strconv.hexbytes (Sum256 m).

(** The test vectors of the standard. *)
Example sha256_empty :
  sha256_hex [] = bs "e3b0c44298fc1c149afbf4c8996fb92427ae41e4649b934ca495991b7852b855".
Proof. vm_compute. reflexivity. Qed.

Example sha256_abc :
  sha256_hex (bs "abc") = bs "ba7816bf8f01cfea414140de5dae2223b00361a396177a9cb410ff61f20015ad".
Proof. vm_compute. reflexivity. Qed.

Example sha256_two_blocks :
  sha256_hex (bs "abcdbcdecdefdefgefghfghighijhijkijkljklmklmnlmnomnopnopq")
  = bs "248d6a61d20638b8e5c026930c3e6039a33ce45964ff2167f6ecedd419db06c1".
Proof. vm_compute. reflexivity. Qed.
