(* ===== verification/SourceCapacity.v ===== *)
(** * Source content budgets (src/internal/sourcecapacity/capacity.go) *)

From S2P Require Import Prelude GoStd.
Open Scope Z_scope.

Definition Default : Z := 64 * 1024.
Definition Expanded : Z := 1024 * 1024.
(** Count plus at most 128 frames of path length, 255-byte path, content length. *)
Definition FramingOverhead : Z := 2 + 128 * (2 + 255 + 4).

(** [type Budget int] *)
Abbreviation Budget := Z.

(** Zero means the default budget. *)
Definition Bytes (b : Budget) : Z := if b =? 0 then Default else b.

Definition SnapshotLimit (b : Budget) : Z := Bytes b + FramingOverhead.

Definition Budget_Validate (b : Budget) : result unit :=
  if negb (Bytes b =? Default) && negb (Bytes b =? Expanded) then
    Err (PlainError (txt "source content capacity must be " ++ [Lit (strconv.Itoa Default)]
                     ++ txt " or " ++ [Lit (strconv.Itoa Expanded)] ++ txt " bytes"))
  else Ok ().

Definition Exceeded (b : Budget) : error :=
  PlainError (txt "source snapshot content exceeds " ++ [Lit (strconv.Itoa (Z.quot (Bytes b) 1024))]
              ++ txt " KiB (" ++ [Lit (strconv.Itoa (Bytes b))] ++ txt " bytes)").

Definition budget_ok (b : Budget) : Prop := Bytes b = Default ∨ Bytes b = Expanded.

Lemma Budget_Validate_Ok b : Budget_Validate b = Ok () ↔ budget_ok b.
Proof.
  unfold Budget_Validate, budget_ok.
  destruct (Bytes b =? Default) eqn:E1, (Bytes b =? Expanded) eqn:E2; simpl; zbool;
    split; intros; auto; try discriminate. intuition congruence.
Qed.

Lemma budget_ok_bound b : budget_ok b → 0 < Bytes b ≤ Expanded.
Proof. intros [->| ->]; by vm_compute. Qed.
