(* ===== verification/Snapshot.v ===== *)
(** * Source snapshots, version 1 (src/internal/guest/snapshot.go)

    Validation of source paths and files, the snapshot framing, its decoder and
    the snapshot value with its identity. *)

From S2P Require Import Prelude GoStd Sha256 SourceCapacity.
Open Scope Z_scope.

Definition maxSnapshotFiles : Z := 128.
Definition maxSourcePathBytes : Z := 255.

Record SnapshotFile := mkSnapshotFile { Path : bytes; Content : bytes }.

Record SourceSnapshot := mkSourceSnapshot {
  encoded : bytes;
  files : list SnapshotFile;
  sha256 : bytes
}.

#[global] Instance SnapshotFile_eq_dec : EqDecision SnapshotFile.
Proof. solve_decision. Defined.

(** ** Paths *)

Definition slash : byte := x2f.

Definition unsafe_path (path : bytes) : error :=
  SourceSnapshotError (txt "unsafe source path: " ++ [Quoted path]).

Definition validateBuildPath (path : bytes) : result unit :=
  if strings.ContainsByte path x00 || strings.ContainsAny path [x0d; x0a]
     || strings.HasPrefix path [slash] then Err (unsafe_path path)
  else
    let components := strings.Split path slash in
    if (len components <? 2) || negb (bool_decide (hd [] components = bs "seed")) then
      Err (unsafe_path path)
    else if existsb (λ component, bool_decide (component = []) || bool_decide (component = bs ".")
                                  || bool_decide (component = bs "..")) components then
      Err (unsafe_path path)
    else Ok ().

Definition ValidateSourcePath (path : bytes) : result unit :=
  if negb (utf8.Valid path) then
    Err (SourceSnapshotError (txt "source path is not valid UTF-8"))
  else if (len path <? 1) || (maxSourcePathBytes <? len path) then
    Err (SourceSnapshotError (txt "source path length must be 1 through 255"))
  else validateBuildPath path.

(** ** Files *)

(** The loop of [validateSnapshotFiles], with the set of paths seen and the
    content total so far. *)
Fixpoint validateFilesLoop (budget : Budget) (paths : gset bytes) (totalContent : Z)
    (files : list SnapshotFile) : result unit :=
  match files with
  | [] => Ok ()
  | file :: rest =>
      ValidateSourcePath (Path file) ≫= λ _,
      if bool_decide (Path file ∈ paths) then
        Err (SourceSnapshotError (txt "duplicate source path: " ++ [Lit (Path file)]))
      else if Bytes budget - totalContent <? len (Content file) then
        Err (SourceSnapshotError (Error (Exceeded budget)))
      else
        validateFilesLoop budget ({[Path file]} ∪ paths) (totalContent + len (Content file)) rest
  end.

Definition validateSnapshotFiles (files : list SnapshotFile) (budget : Budget) : result unit :=
  Budget_Validate budget ≫= λ _,
  if maxSnapshotFiles <? len files then
    Err (SourceSnapshotError (txt "source snapshot contains more than 128 files"))
  else validateFilesLoop budget ∅ 0 files.

Definition cloneSnapshotFiles (files : list SnapshotFile) : list SnapshotFile :=
  (λ file, mkSnapshotFile (Path file) (Content file)) <$> files.

Definition sourceSnapshot (encoded : bytes) (files : list SnapshotFile) : SourceSnapshot :=
  mkSourceSnapshot encoded files (sha256_hex encoded).

Definition encodeSnapshotFiles (files : list SnapshotFile) : bytes :=
  put16 (wrap16 (len files))
  ++ (files ≫= λ file, put16 (wrap16 (len (Path file))) ++ Path file
                       ++ put32 (wrap32 (len (Content file))) ++ Content file).

(** ** Decoding *)

(** The closure [take] of [decodeSnapshotFiles]: it reads at the shared offset. *)
Definition snapshot_take (data : bytes) (offset length : Z) : result (bytes * Z) :=
  if (length <? 0) || (len data - offset <? length) then
    Err (SourceSnapshotError (txt "truncated source snapshot"))
  else Ok (slice offset (offset + length) data, offset + length).

Fixpoint decodeFilesLoop (fileCount : nat) (data : bytes) (budget : Budget)
    (offset totalContent : Z) : result (list SnapshotFile * Z) :=
  match fileCount with
  | O => Ok ([], offset)
  | S n =>
      '(encodedPathLength, offset) ← snapshot_take data offset 2;
      let pathLength := get16 encodedPathLength in
      if (pathLength =? 0) || (maxSourcePathBytes <? pathLength) then
        Err (SourceSnapshotError (txt "source path length must be 1 through 255"))
      else
        '(encodedPath, offset) ← snapshot_take data offset pathLength;
        if negb (utf8.Valid encodedPath) then
          Err (SourceSnapshotError (txt "source path is not valid UTF-8"))
        else
          '(encodedContentLength, offset) ← snapshot_take data offset 4;
          let contentLength := get32 encodedContentLength in
          if Bytes budget - totalContent <? contentLength then
            Err (SourceSnapshotError (Error (Exceeded budget)))
          else
            '(content, offset) ← snapshot_take data offset contentLength;
            '(files, offset) ← decodeFilesLoop n data budget offset (totalContent + contentLength);
            Ok (mkSnapshotFile encodedPath content :: files, offset)
  end.

Definition decodeSnapshotFiles (data : bytes) (budget : Budget) : result (list SnapshotFile) :=
  '(encodedCount, offset) ← snapshot_take data 0 2;
  let fileCount := get16 encodedCount in
  if maxSnapshotFiles <? fileCount then
    Err (SourceSnapshotError (txt "source snapshot contains more than 128 files"))
  else
    '(files, offset) ← decodeFilesLoop (Z.to_nat fileCount) data budget offset 0;
    if negb (offset =? len data) then
      Err (SourceSnapshotError (txt "unexpected trailing source snapshot data"))
    else
      validateSnapshotFiles files budget ≫= λ _,
      Ok files.

(** ** Constructors and accessors *)

Definition NewSourceSnapshotWithBudget (files : list SnapshotFile) (budget : Budget)
  : result SourceSnapshot :=
  validateSnapshotFiles files budget ≫= λ _,
  let files := cloneSnapshotFiles files in
  let encoded := encodeSnapshotFiles files in
  Ok (sourceSnapshot encoded files).

Definition NewSourceSnapshot (files : list SnapshotFile) : result SourceSnapshot :=
  NewSourceSnapshotWithBudget files 0.

Definition NewCanonicalSourceSnapshotWithBudget (files : list SnapshotFile) (budget : Budget)
  : result SourceSnapshot :=
  let files := cloneSnapshotFiles files in
  NewSourceSnapshotWithBudget (sort.SliceBy Path files) budget.

Definition ParseSourceSnapshotWithBudget (data : bytes) (budget : Budget) : result SourceSnapshot :=
  Budget_Validate budget ≫= λ _,
  files ← decodeSnapshotFiles data budget;
  Ok (sourceSnapshot data files).

Definition Snapshot_Bytes (s : SourceSnapshot) : bytes := encoded s.
Definition Files (s : SourceSnapshot) : list SnapshotFile := cloneSnapshotFiles (files s).
Definition Size (s : SourceSnapshot) : Z := len (encoded s).

Definition EncodeSourceSnapshotWithBudget (files : list SnapshotFile) (budget : Budget) : result bytes :=
  snapshot ← NewSourceSnapshotWithBudget files budget;
  Ok (Snapshot_Bytes snapshot).

Definition DecodeSourceSnapshotWithBudget (data : bytes) (budget : Budget) : result (list SnapshotFile) :=
  snapshot ← ParseSourceSnapshotWithBudget data budget;
  Ok (Files snapshot).

(** ** Safe paths *)

(** A path component that cannot move a lookup upwards or leave it in place. *)
Definition component_ok (c : bytes) : Prop := c ≠ [] ∧ c ≠ bs "." ∧ c ≠ bs "..".

Lemma ContainsByte_false s c : strings.ContainsByte s c = false ↔ c ∉ s.
Proof.
  unfold strings.ContainsByte. rewrite existsb_false, Forall_forall. split.
  - intros H Hin. apply H in Hin. by apply bool_decide_eq_false in Hin.
  - intros H b Hb. apply bool_decide_eq_false. by intros ->.
Qed.

Lemma ContainsAny_false s cs : strings.ContainsAny s cs = false ↔ ∀ c, c ∈ cs → c ∉ s.
Proof.
  unfold strings.ContainsAny. rewrite existsb_false, Forall_forall.
  setoid_rewrite ContainsByte_false. split; intros H c; [|intros Hc Hin; by apply (H c)].
  intros Hc Hin. by apply (H c).
Qed.

(** The conditions of the protocol document on a build path. *)
Definition path_ok (p : bytes) : Prop :=
  utf8.Valid p = true ∧ 1 ≤ len p ≤ maxSourcePathBytes
  ∧ x00 ∉ p ∧ x0d ∉ p ∧ x0a ∉ p
  ∧ ∃ c cs, strings.Split p slash = bs "seed" :: c :: cs ∧ Forall component_ok (c :: cs).

Lemma components_ok_iff cs :
  existsb (λ c, bool_decide (c = []) || bool_decide (c = bs ".") || bool_decide (c = bs "..")) cs = false
  ↔ Forall component_ok cs.
Proof.
  rewrite existsb_false, !Forall_forall. unfold component_ok.
  apply forall_proper; intros c. rewrite !orb_false_iff, !bool_decide_eq_false. tauto.
Qed.

Lemma validateBuildPath_Ok p :
  validateBuildPath p = Ok () ↔
  x00 ∉ p ∧ x0d ∉ p ∧ x0a ∉ p
  ∧ ∃ c cs, strings.Split p slash = bs "seed" :: c :: cs ∧ Forall component_ok (c :: cs).
Proof.
  unfold validateBuildPath. split.
  - intros H. case_in H; [discriminate H|]. case_in H; [discriminate H|]. case_in H; [discriminate H|].
    zbool. rewrite ContainsByte_false, ContainsAny_false, components_ok_iff in *.
    split_and!; auto; try (match goal with Hx : ∀ _, _ → _ ∉ _ |- _ => apply Hx; set_solver end).
    destruct (strings.Split p slash) as [|s [|c cs]]; len_simp; try lia. simpl in *. subst s.
    exists c, cs. split; [done|]. by inversion_clear Heqb1.
  - intros (H0 & Hr & Hn & c & cs & Es & Hok).
    assert (Hpre : strings.HasPrefix p [slash] = false).
    { destruct (strings.HasPrefix p [slash]) eqn:E; [|done].
      apply strings.HasPrefix_spec in E as [r ->]. simpl in Es. discriminate Es. }
    rewrite Hpre, (proj2 (ContainsByte_false _ _)), (proj2 (ContainsAny_false _ _)) by set_solver.
    simpl orb. cbn iota. rewrite Es.
    rewrite (proj2 (Z.ltb_ge _ _)) by llia. simpl hd. rewrite bool_decide_eq_true_2 by done.
    simpl orb. cbn iota. rewrite (proj2 (components_ok_iff _)); [done|].
    constructor; [|done]. by vm_compute.
Qed.

(** A source path is accepted exactly when it is 1..255 bytes of UTF-8
    without NUL, CR or LF whose slash-separated components are seed, at least
    one more, and none of them empty, dot or dot-dot: it names a file strictly
    below seed/ and cannot climb out of it. *)
Theorem ValidateSourcePath_iff p : ValidateSourcePath p = Ok () ↔ path_ok p.
Proof.
  unfold ValidateSourcePath, path_ok.
  destruct (utf8.Valid p) eqn:Ev; simpl negb; cbn iota; cycle 1.
  { split; [discriminate|]. intros [? _]. discriminate. }
  destruct ((len p <? 1) || (maxSourcePathBytes <? len p)) eqn:El.
  - split; [discriminate|]. intros (_ & Hl & _). zbool.
    destruct El as [El|El]; zbool; lia.
  - zbool. rewrite validateBuildPath_Ok. split; [|tauto]. intros Hp. split_and!; auto; lia || tauto.
Qed.

Lemma ValidateSourcePath_lengths p :
  ValidateSourcePath p = Ok () → utf8.Valid p = true ∧ 1 ≤ len p ≤ maxSourcePathBytes.
Proof.
  unfold ValidateSourcePath. intros H. case_in H; [discriminate H|]. case_in H; [discriminate H|].
  zbool. split; [done|lia].
Qed.

(** ** Valid file lists *)

Definition total_content (fs : list SnapshotFile) : Z :=
  fold_right (λ f n, len (Content f) + n) 0 fs.

Lemma total_content_nonneg fs : 0 ≤ total_content fs.
Proof. induction fs as [|f fs IH]; simpl; llia. Qed.

Lemma total_content_perm fs gs : fs ≡ₚ gs → total_content fs = total_content gs.
Proof. induction 1; simpl; lia. Qed.

(** What a snapshot promises about its files. *)
Definition valid_files (fs : list SnapshotFile) (budget : Budget) : Prop :=
  budget_ok budget ∧ len fs ≤ maxSnapshotFiles
  ∧ Forall (λ f, ValidateSourcePath (Path f) = Ok ()) fs
  ∧ NoDup (Path <$> fs) ∧ total_content fs ≤ Bytes budget.

Lemma validateFilesLoop_Ok budget fs seen total :
  total ≤ Bytes budget →
  validateFilesLoop budget seen total fs = Ok () ↔
  Forall (λ f, ValidateSourcePath (Path f) = Ok ()) fs ∧ NoDup (Path <$> fs)
  ∧ Forall (λ f, Path f ∉ seen) fs ∧ total + total_content fs ≤ Bytes budget.
Proof.
  revert seen total. induction fs as [|f fs IH]; intros seen total Ht; simpl.
  - split; [|done]. intros _. split_and!; try constructor. lia.
  - rewrite bind_Ok, !Forall_cons, NoDup_cons.
    pose proof (total_content_nonneg fs). pose proof (len_nonneg (Content f)). split.
    + intros ([] & Hp & H1). guards H1. zbool.
      apply IH in H1 as (? & ? & Hs & ?); [|lia].
      split_and!; auto; [| |lia].
      * rewrite list_elem_of_fmap. intros (g & Eg & Hg).
        rewrite Forall_forall in Hs. specialize (Hs g Hg). set_solver.
      * eapply Forall_impl; [apply Hs|]. set_solver.
    + intros ([Hp Hps] & [Hnin Hnd] & [Hseen Hss] & Htot). exists (). split; [done|].
      rewrite bool_decide_eq_false_2 by done. rewrite (proj2 (Z.ltb_ge _ _)) by lia.
      apply IH; [lia|]. split_and!; auto; [|lia].
      apply Forall_forall. intros g Hg. rewrite Forall_forall in Hss.
      specialize (Hss g Hg). rewrite not_elem_of_union, not_elem_of_singleton. split; [|done].
      intros E. apply Hnin. rewrite <-E. apply list_elem_of_fmap. eauto.
Qed.

Lemma validateSnapshotFiles_Ok fs budget :
  validateSnapshotFiles fs budget = Ok () ↔ valid_files fs budget.
Proof.
  unfold validateSnapshotFiles, valid_files. rewrite bind_Ok. split.
  - intros ([] & Hb & H1). guards H1. zbool. apply Budget_Validate_Ok in Hb.
    apply validateFilesLoop_Ok in H1 as (? & ? & _ & ?); [|destruct (budget_ok_bound _ Hb); lia].
    split_and!; auto.
  - intros (Hb & Hn & Hp & Hnd & Ht). exists (). split; [by apply Budget_Validate_Ok|].
    rewrite (proj2 (Z.ltb_ge _ _)) by done.
    apply validateFilesLoop_Ok; [destruct (budget_ok_bound _ Hb); lia|].
    split_and!; auto. apply Forall_forall. set_solver.
Qed.

(** ** The framing *)

Definition file_wire (f : SnapshotFile) : bytes := lp16 (Path f) ++ lp32 (Content f).
Definition snapshot_wire (fs : list SnapshotFile) : bytes :=
  put16 (len fs) ++ (fs ≫= file_wire).

Lemma len_file_wire f : len (file_wire f) = 6 + len (Path f) + len (Content f).
Proof. unfold file_wire. len_simp. lia. Qed.
#[export] Hint Rewrite len_file_wire : len.

Lemma file_content_bound fs f : f ∈ fs → len (Content f) ≤ total_content fs.
Proof.
  induction fs as [|g fs IH]; [set_solver|]. intros [->|Hf]%elem_of_cons; simpl.
  - pose proof (total_content_nonneg fs). lia.
  - specialize (IH Hf). pose proof (len_nonneg (Content g)). lia.
Qed.

Lemma encodeSnapshotFiles_wire fs budget :
  valid_files fs budget → encodeSnapshotFiles fs = snapshot_wire fs.
Proof.
  intros (Hb & Hn & Hp & _ & Ht). unfold encodeSnapshotFiles, snapshot_wire.
  destruct (budget_ok_bound _ Hb). unfold maxSnapshotFiles, Expanded in *.
  unfold wrap16 at 1. rewrite Z.mod_small by llia. f_equal.
  apply list_bind_ext_in. intros f Hf.
  rewrite Forall_forall in Hp. pose proof (ValidateSourcePath_lengths _ (Hp _ Hf)) as Hl.
  apply file_content_bound in Hf. unfold maxSourcePathBytes in *.
  unfold file_wire, lp16, lp32, wrap16, wrap32. rewrite !Z.mod_small by llia.
  by rewrite <-!app_assoc.
Qed.

Lemma cloneSnapshotFiles_id fs : cloneSnapshotFiles fs = fs.
Proof.
  unfold cloneSnapshotFiles. induction fs as [|[p c] fs IH]; [done|].
  rewrite fmap_cons, IH. done.
Qed.

Lemma snapshot_take_app pre v r n :
  n = len v → snapshot_take (pre ++ v ++ r) (len pre) n = Ok (v, len (pre ++ v)).
Proof.
  intros ->. unfold snapshot_take.
  rewrite (proj2 (Z.ltb_ge _ _)), (proj2 (Z.ltb_ge _ _)) by llia. simpl orb. cbn iota.
  rewrite slice_app by lia. by len_simp.
Qed.

Lemma snapshot_take_inv pre r0 n v o :
  snapshot_take (pre ++ r0) (len pre) n = Ok (v, o) →
  ∃ r, r0 = v ++ r ∧ len v = n ∧ o = len (pre ++ v).
Proof.
  unfold snapshot_take. intros H1. guards H1. zbool. len_simp.
  destruct (len_split n r0) as (v' & r & -> & Hv); [lia|].
  rewrite slice_app in H1 by lia. injection H1 as <- <-.
  exists r. split_and!; auto. by rewrite <-Hv.
Qed.

Lemma decodeFilesLoop_app budget fs pre r total :
  Forall (λ f, utf8.Valid (Path f) = true ∧ 1 ≤ len (Path f) ≤ maxSourcePathBytes) fs →
  total + total_content fs ≤ Bytes budget → 0 ≤ total → Bytes budget < 2 ^ 32 →
  decodeFilesLoop (length fs) (pre ++ (fs ≫= file_wire) ++ r) budget (len pre) total
  = Ok (fs, len (pre ++ (fs ≫= file_wire))).
Proof.
  intros Hf. revert pre total.
  induction Hf as [|[p c] fs [Hv Hl] _ IH]; intros pre total Ht H0 Hb.
  - cbn [length decodeFilesLoop]. by rewrite lbind_nil, app_nil_r.
  - cbn [length decodeFilesLoop Path Content total_content fold_right] in *.
    fold (total_content fs) in *. pose proof (total_content_nonneg fs).
    assert (file_wire (mkSnapshotFile p c) = put16 (len p) ++ p ++ put32 (len c) ++ c) as Efw
      by (unfold file_wire, lp16, lp32; cbn [Path Content]; by rewrite <-!app_assoc).
    rewrite lbind_cons, Efw. unfold maxSourcePathBytes in *. rewrite <-!app_assoc.
    rewrite snapshot_take_app by by len_simp. cbn [mbind result_bind].
    rewrite get16_put16_exact by (unfold u16; lia).
    rewrite (proj2 (Z.eqb_neq _ _)), (proj2 (Z.ltb_ge _ _)) by lia. simpl orb. cbn iota.
    rewrite (app_assoc pre), snapshot_take_app by done. cbn [mbind result_bind].
    rewrite Hv. simpl negb. cbn iota.
    rewrite (app_assoc (pre ++ _)), snapshot_take_app by by len_simp. cbn [mbind result_bind].
    rewrite get32_put32_exact by (unfold u32; llia).
    rewrite (proj2 (Z.ltb_ge _ _)) by llia.
    rewrite (app_assoc ((pre ++ _) ++ _)), snapshot_take_app by done. cbn [mbind result_bind].
    rewrite (app_assoc (((pre ++ _) ++ _) ++ _)).
    rewrite IH by llia. cbn [mbind result_bind]. do 3 f_equal. by rewrite <-!app_assoc.
Qed.

Lemma decodeFilesLoop_inv budget n pre r0 total fs o :
  decodeFilesLoop n (pre ++ r0) budget (len pre) total = Ok (fs, o) →
  ∃ r, r0 = (fs ≫= file_wire) ++ r ∧ length fs = n ∧ o = len (pre ++ (fs ≫= file_wire)).
Proof.
  revert pre r0 total fs o. induction n as [|n IH]; intros pre r0 total fs o H1;
    cbn [decodeFilesLoop] in H1.
  - injection H1 as <- <-. exists r0. by rewrite lbind_nil, app_nil_r.
  - apply bind_Ok in H1 as ([pl o1] & E1 & H1). cbn beta iota in H1. guards H1.
    apply snapshot_take_inv in E1 as (r1 & -> & L1 & ->). rewrite (app_assoc pre) in H1.
    apply bind_Ok in H1 as ([p o2] & E2 & H1). cbn beta iota in H1. guards H1.
    apply snapshot_take_inv in E2 as (r2 & -> & L2 & ->). rewrite (app_assoc (pre ++ pl)) in H1.
    apply bind_Ok in H1 as ([cl o3] & E3 & H1). cbn beta iota in H1. guards H1.
    apply snapshot_take_inv in E3 as (r3 & -> & L3 & ->). rewrite (app_assoc ((pre ++ pl) ++ p)) in H1.
    apply bind_Ok in H1 as ([c o4] & E4 & H1). cbn beta iota in H1.
    apply snapshot_take_inv in E4 as (r4 & -> & L4 & ->).
    rewrite (app_assoc (((pre ++ pl) ++ p) ++ cl)) in H1.
    apply bind_Ok in H1 as ([fs' o5] & E5 & H1). cbn beta iota in H1. injection H1 as <- <-.
    apply IH in E5 as (r & -> & <- & ->). exists r. rewrite lbind_cons.
    assert (file_wire (mkSnapshotFile p c) = pl ++ p ++ cl ++ c) as ->.
    { unfold file_wire, lp16, lp32. cbn [Path Content].
      rewrite L2, L4, put16_get16_exact, put32_get32_exact by done. by rewrite <-!app_assoc. }
    rewrite <-!app_assoc. split_and!; auto.
Qed.

Lemma decodeSnapshotFiles_iff data budget fs :
  decodeSnapshotFiles data budget = Ok fs ↔ valid_files fs budget ∧ data = snapshot_wire fs.
Proof.
  unfold decodeSnapshotFiles. split.
  - intros H1. apply bind_Ok in H1 as ([c o] & E1 & H1). cbn beta iota in H1. guards H1.
    apply (snapshot_take_inv []) in E1 as (r & -> & L1 & ->). simpl app in H1.
    apply bind_Ok in H1 as ([fs' o'] & E2 & H1). cbn beta iota in H1. guards H1.
    apply decodeFilesLoop_inv in E2 as (r' & -> & Hl & ->). zbool.
    apply bind_Ok in H1 as ([] & E3 & H1). injection H1 as ->.
    apply validateSnapshotFiles_Ok in E3. split; [done|].
    assert (r' = []) as -> by (apply len_0; llia).
    pose proof (get16_range c) as [? _].
    assert (len fs = get16 c) as El by (unfold len; lia).
    unfold snapshot_wire. by rewrite El, put16_get16_exact, app_nil_r.
  - intros [Hv ->]. destruct Hv as (Hb & Hn & Hp & Hnd & Ht).
    destruct (budget_ok_bound _ Hb). unfold snapshot_wire, maxSnapshotFiles, Expanded in *.
    pose proof (snapshot_take_app [] (put16 (len fs)) (fs ≫= file_wire) 2) as E.
    rewrite len_nil in E. simpl app in E. rewrite E by by len_simp. cbn [mbind result_bind].
    rewrite get16_put16_exact by (unfold u16; llia). rewrite (proj2 (Z.ltb_ge _ _)) by done.
    rewrite to_nat_len. rewrite <-(app_nil_r (fs ≫= file_wire)) at 1.
    rewrite decodeFilesLoop_app; [|eapply Forall_impl; [apply Hp|]; intros ? ?; by apply ValidateSourcePath_lengths|lia..].
    cbn [mbind result_bind]. rewrite Z.eqb_refl. simpl negb. cbn iota.
    rewrite (proj2 (validateSnapshotFiles_Ok _ _)); [done|]. split_and!; auto.
Qed.

Lemma ParseSourceSnapshotWithBudget_Ok data budget s :
  ParseSourceSnapshotWithBudget data budget = Ok s ↔
  valid_files (files s) budget ∧ data = snapshot_wire (files s) ∧ s = sourceSnapshot data (files s).
Proof.
  unfold ParseSourceSnapshotWithBudget. split.
  - intros ([] & Hb & (fs & Hd & E)%bind_Ok)%bind_Ok. injection E as <-.
    apply decodeSnapshotFiles_iff in Hd as [Hv Hw]. done.
  - intros (Hv & Hw & Hs). destruct Hv as [Hb Hv'] eqn:Hve. 
    rewrite (proj2 (Budget_Validate_Ok _)) by done. cbn [mbind result_bind].
    rewrite (proj2 (decodeSnapshotFiles_iff data budget (files s))) by done.
    cbn [mbind result_bind]. by rewrite <-Hs.
Qed.

Lemma NewSourceSnapshotWithBudget_Ok fs budget s :
  NewSourceSnapshotWithBudget fs budget = Ok s ↔
  valid_files fs budget ∧ s = sourceSnapshot (snapshot_wire fs) fs.
Proof.
  unfold NewSourceSnapshotWithBudget. rewrite cloneSnapshotFiles_id. split.
  - intros ([] & Hv & E)%bind_Ok. apply validateSnapshotFiles_Ok in Hv. split; [done|].
    injection E as <-. by erewrite encodeSnapshotFiles_wire.
  - intros [Hv ->]. rewrite (proj2 (validateSnapshotFiles_Ok _ _)) by done. cbn [mbind result_bind].
    by erewrite encodeSnapshotFiles_wire.
Qed.

(** C33: The snapshot framing is a bijection between valid file lists and
    accepted byte strings: parsing accepts exactly the wire form of a valid file
    list (supported budget, at most 128 files, safe and distinct paths, content
    within the budget) and returns those files in order with the identity of the
    exact bytes; so a snapshot built from files parses back to itself, and two
    accepted byte strings with the same files are the same bytes. *)
Theorem snapshot_framing_bijective budget :
  (∀ data s, ParseSourceSnapshotWithBudget data budget = Ok s ↔
     valid_files (files s) budget ∧ data = snapshot_wire (files s)
     ∧ s = sourceSnapshot data (files s))
  ∧ (∀ fs s, NewSourceSnapshotWithBudget fs budget = Ok s →
       files s = fs ∧ ParseSourceSnapshotWithBudget (Snapshot_Bytes s) budget = Ok s)
  ∧ (∀ d1 d2 s1 s2, ParseSourceSnapshotWithBudget d1 budget = Ok s1 →
       ParseSourceSnapshotWithBudget d2 budget = Ok s2 → files s1 = files s2 → d1 = d2).
Proof.
  split; [intros; apply ParseSourceSnapshotWithBudget_Ok|]. split.
  - intros fs s [Hv ->]%NewSourceSnapshotWithBudget_Ok. split; [done|].
    by apply ParseSourceSnapshotWithBudget_Ok.
  - intros d1 d2 s1 s2 (_ & -> & _)%ParseSourceSnapshotWithBudget_Ok
      (_ & -> & _)%ParseSourceSnapshotWithBudget_Ok. by intros ->.
Qed.

Definition sample_files : list SnapshotFile :=
  [mkSnapshotFile (bs "seed/main.c") (bs "int x;"); mkSnapshotFile (bs "seed/a/b.h") []].

Lemma snapshot_framing_bijective_witness :
  ∃ s, NewSourceSnapshotWithBudget sample_files 0 = Ok s
    ∧ ParseSourceSnapshotWithBudget (Snapshot_Bytes s) 0 = Ok s.
Proof.
  destruct (snapshot_framing_bijective 0) as (_ & H1 & _).
  destruct (NewSourceSnapshotWithBudget sample_files 0) as [s|e] eqn:E; [|vm_compute in E; discriminate E].
  exists s. split; [done|]. by apply H1 in E as [_ E].
Defined.

(** ** Sizes *)

Lemma snapshot_wire_bound fs :
  Forall (λ f, len (Path f) ≤ maxSourcePathBytes) fs →
  len (snapshot_wire fs) ≤ 2 + len fs * (2 + 255 + 4) + total_content fs.
Proof.
  intros Hp. unfold snapshot_wire. len_simp.
  enough (len (fs ≫= file_wire) ≤ len fs * 261 + total_content fs) by lia.
  induction Hp as [|f fs Hl _ IH]; [rewrite lbind_nil; by vm_compute|].
  rewrite lbind_cons. len_simp. simpl total_content. unfold maxSourcePathBytes in *. lia.
Qed.

(** Every accepted snapshot, parsed or built, is at most
    [SnapshotLimit budget] bytes long, the budget plus 33,410 bytes of framing. *)
Theorem snapshot_size_bound data budget s :
  ParseSourceSnapshotWithBudget data budget = Ok s →
  len data ≤ SnapshotLimit budget ∧ Size s = len data ∧ FramingOverhead = 33410.
Proof.
  intros (Hv & Hd & Hs)%ParseSourceSnapshotWithBudget_Ok.
  destruct Hv as (Hb & Hn & Hp & _ & Ht).
  assert (Hb' : len (snapshot_wire (files s)) ≤ SnapshotLimit budget).
  { etrans; [apply snapshot_wire_bound|].
    - eapply Forall_impl; [apply Hp|]. intros f Hf. apply ValidateSourcePath_lengths in Hf. lia.
    - unfold SnapshotLimit, FramingOverhead, maxSnapshotFiles in *. lia. }
  split_and!; [by rewrite Hd|by rewrite Hs|by vm_compute].
Qed.

Lemma snapshot_size_bound_witness : len (snapshot_wire sample_files) ≤ SnapshotLimit 0.
Proof.
  apply (snapshot_size_bound (snapshot_wire sample_files) 0
           (sourceSnapshot (snapshot_wire sample_files) sample_files)).
  by vm_compute.
Defined.

(** ** Canonical snapshots *)

Lemma valid_files_perm fs gs budget : fs ≡ₚ gs → valid_files fs budget → valid_files gs budget.
Proof.
  intros Hp (Hb & Hn & Hf & Hnd & Ht). unfold valid_files. split_and!; auto.
  - unfold len in *. by rewrite <-Hp.
  - by rewrite <-Hp.
  - by rewrite <-Hp.
  - by rewrite <-(total_content_perm _ _ Hp).
Qed.

Lemma NewCanonical_Ok fs budget s :
  NewCanonicalSourceSnapshotWithBudget fs budget = Ok s ↔
  valid_files fs budget
  ∧ s = sourceSnapshot (snapshot_wire (sort.SliceBy Path fs)) (sort.SliceBy Path fs).
Proof.
  unfold NewCanonicalSourceSnapshotWithBudget.
  rewrite cloneSnapshotFiles_id, NewSourceSnapshotWithBudget_Ok. split; intros [Hv ?]; split; auto.
  - eapply valid_files_perm, Hv. apply sort.SliceBy_perm.
  - eapply valid_files_perm, Hv. symmetry. apply sort.SliceBy_perm.
Qed.

Lemma NewCanonical_perm fs gs budget s :
  fs ≡ₚ gs → NewCanonicalSourceSnapshotWithBudget fs budget = Ok s →
  NewCanonicalSourceSnapshotWithBudget gs budget = Ok s.
Proof.
  intros Hp [Hv ->]%NewCanonical_Ok. apply NewCanonical_Ok.
  split; [by eapply valid_files_perm|]. destruct Hv as (_ & _ & _ & Hnd & _).
  by rewrite (sort.SliceBy_unique Path fs gs).
Qed.

(** The canonical snapshot does not depend on the order in which the files
    are supplied: any permutation gives the same bytes and the same SHA-256, with
    the paths strictly ascending. *)
Theorem canonical_snapshot_order_independent fs gs budget s :
  fs ≡ₚ gs → NewCanonicalSourceSnapshotWithBudget fs budget = Ok s →
  NewCanonicalSourceSnapshotWithBudget gs budget = Ok s
  ∧ files s ≡ₚ fs
  ∧ StronglySorted (λ a b, sort.bytes_le (Path a) (Path b)) (files s) ∧ NoDup (Path <$> files s).
Proof.
  intros Hp Hs. split; [by eapply NewCanonical_perm|].
  apply NewCanonical_Ok in Hs as [(_ & _ & _ & Hnd & _) ->]. simpl files.
  split_and!; [apply sort.SliceBy_perm|apply sort.SliceBy_sorted|by rewrite sort.SliceBy_perm].
Qed.

Lemma canonical_snapshot_order_independent_witness :
  ∃ s, NewCanonicalSourceSnapshotWithBudget sample_files 0 = Ok s
    ∧ NewCanonicalSourceSnapshotWithBudget (rev sample_files) 0 = Ok s.
Proof.
  destruct (NewCanonicalSourceSnapshotWithBudget sample_files 0) as [s|e] eqn:E;
    [|vm_compute in E; discriminate E].
  exists s. split; [done|].
  apply (canonical_snapshot_order_independent sample_files (rev sample_files) 0 s); [|done].
  apply Permutation_swap.
Defined.
