(* ===== verification/SourceCapture.v ===== *)
(** * Capturing a snapshot through the guest's tools (src/internal/guest/source_capture.go)

    The capture lists the paths below seed/ and reads each file once with one
    byte more than the remaining budget. The guest is a parameter: [invoke]
    runs one tool call against a guest state. What the capture relies on is the
    interface [FileStore]; the theorems are proved against it. *)

From S2P Require Import Prelude GoStd Protocol Sha256 SourceCapacity Snapshot.
Open Scope Z_scope.

Definition newline : byte := x0a.

Section Capture.
Context {G : Type} (invoke : G → bytes → list bytes → result ToolResult * G).

(** The loop over the sorted paths, with the content total so far. *)
Fixpoint captureLoop (budget : Budget) (paths : list bytes) (total : Z) (g : G)
  : result (list SnapshotFile) * G :=
  match paths with
  | [] => (Ok [], g)
  | path :: paths =>
      if bool_decide (path = []) then (Err (PlainError (txt "source list contains an empty path")), g)
      else if negb (strings.HasPrefix path (bs "seed/")) then
        (Err (PlainError (txt "source list contains path outside seed/ prefix: " ++ [Quoted path])), g)
      else match ValidateSourcePath path with
      | Err e => (Err e, g)
      | Ok _ =>
          let requested := Bytes budget - total + 1 in
          match invoke g (bs "read") [path; bs "0"; strconv.Itoa requested] with
          | (Err e, g) => (Err e, g)
          | (Ok result, g) =>
              if negb (Status result =? 0) then
                (Err (PlainError (txt "source read for " ++ [Quoted path]
                                  ++ txt " failed with status " ++ [Lit (strconv.Itoa (Status result))])), g)
              else if Bytes budget - total <? len (Output result) then (Err (Exceeded budget), g)
              else match captureLoop budget paths (total + len (Output result)) g with
                   | (Err e, g) => (Err e, g)
                   | (Ok files, g) => (Ok (mkSnapshotFile path (Output result) :: files), g)
                   end
          end
      end
  end.

Definition CaptureCanonicalSourceSnapshotWithBudget (budget : Budget) (g : G)
  : result SourceSnapshot * G :=
  match Budget_Validate budget with
  | Err e => (Err e, g)
  | Ok _ =>
    match invoke g (bs "list") [bs "seed/"] with
    | (Err e, g) => (Err e, g)
    | (Ok listed, g) =>
        if negb (Status listed =? 0) then
          (Err (PlainError (txt "source list failed with status " ++ [Lit (strconv.Itoa (Status listed))])), g)
        else if negb (utf8.Valid (Output listed)) then
          (Err (PlainError (txt "source list is not valid UTF-8")), g)
        else
          let text := strings.TrimSuffix (Output listed) [newline] in
          let paths := if bool_decide (text = []) then [] else strings.Split text newline in
          if maxSnapshotFiles <? len paths then
            (Err (PlainError (txt "source snapshot contains more than 128 files")), g)
          else
            let paths := sort.Strings paths in
            match captureLoop budget paths 0 g with
            | (Err e, g) => (Err e, g)
            | (Ok files, g) => (NewCanonicalSourceSnapshotWithBudget files budget, g)
            end
    end
  end.

(** [CaptureSourceSnapshot] returns the framed bytes, under the default budget. *)
Definition CaptureSourceSnapshot (g : G) : result bytes * G :=
  match CaptureCanonicalSourceSnapshotWithBudget 0 g with
  | (Err e, g) => (Err e, g)
  | (Ok snapshot, g) => (Ok (Snapshot_Bytes snapshot), g)
  end.

(** ** What the capture relies on

    In state [g] the guest stores [fs] below seed/: [list] answers every path,
    each followed by a newline, and [read] from offset zero answers at most the
    requested number of leading bytes. Neither changes the guest. *)
Class FileStore (g : G) (fs : list SnapshotFile) : Prop := {
  store_list :
    invoke g (bs "list") [bs "seed/"]
    = (Ok (mkToolResult 0 (fs ≫= λ f, Path f ++ [newline])), g);
  store_read f n :
    f ∈ fs → u64 n →
    invoke g (bs "read") [Path f; bs "0"; strconv.Itoa n]
    = (Ok (mkToolResult 0 (takeZ n (Content f))), g)
}.

(** ** Splitting the listing *)

Lemma Split_app_sep s r :
  newline ∉ s → strings.Split (s ++ newline :: r) newline = s :: strings.Split r newline.
Proof.
  induction s as [|c s IH]; intros Hs; cbn [strings.Split app].
  - by rewrite decide_True.
  - rewrite decide_False by (intros ->; set_solver). by rewrite IH by set_solver.
Qed.

Lemma Split_single s : newline ∉ s → strings.Split s newline = [s].
Proof.
  induction s as [|c s IH]; intros Hs; cbn [strings.Split]; [done|].
  rewrite decide_False by (intros ->; set_solver). by rewrite IH by set_solver.
Qed.

Lemma TrimSuffix_newline s : strings.TrimSuffix (s ++ [newline]) [newline] = s.
Proof.
  unfold strings.TrimSuffix, strings.HasSuffix. rewrite rev_app_distr. simpl rev.
  simpl app. cbn [strings.HasPrefix]. rewrite bool_decide_eq_true_2 by done. simpl andb. cbn iota.
  apply takeZ_app. llia.
Qed.

(** A listing without its last newline. *)
Lemma listing_split ps :
  Forall (λ p, newline ∉ p ∧ p ≠ []) ps →
  let text := strings.TrimSuffix (ps ≫= λ p, p ++ [newline]) [newline] in
  (if bool_decide (text = []) then [] else strings.Split text newline) = ps.
Proof.
  intros Hps. destruct ps as [|p ps]; [done|].
  assert (∃ t, (p :: ps) ≫= (λ p, p ++ [newline]) = t ++ [newline] ∧ t ≠ []
    ∧ strings.Split t newline = p :: ps) as (t & -> & Ht & Hs).
  { revert p Hps. induction ps as [|q ps IH]; intros p Hps;
      inversion_clear Hps as [|?? [Hp Hne] Hps'].
    - exists p. rewrite lbind_cons, lbind_nil, app_nil_r. split_and!; auto. by apply Split_single.
    - destruct (IH q) as (t & E & Ht & Hs); [done|].
      exists (p ++ newline :: t). rewrite lbind_cons, E. split_and!.
      + by rewrite <-!app_assoc.
      + by destruct p.
      + by rewrite Split_app_sep, Hs. }
  cbn zeta. rewrite TrimSuffix_newline. by rewrite bool_decide_eq_false_2.
Qed.
(** ** The capture loop against a file store *)

Lemma valid_path_facts p :
  ValidateSourcePath p = Ok () →
  p ≠ [] ∧ newline ∉ p ∧ strings.HasPrefix p (bs "seed/") = true.
Proof.
  intros H. pose proof (ValidateSourcePath_lengths _ H) as [_ Hl].
  unfold ValidateSourcePath in H. case_in H; [discriminate H|]. case_in H; [discriminate H|].
  apply validateBuildPath_Ok in H as (_ & _ & Hn & c & cs & Es & _). split_and!; auto.
  - rewrite <-len_0. lia.
  - rewrite <-(strings.Join_Split p slash), Es. rewrite strings.Join_cons_app by done.
    change (bs "seed/") with (bs "seed" ++ [slash]). rewrite app_assoc.
    apply strings.HasPrefix_app.
Qed.

Lemma captureLoop_store g fs ps total budget :
  FileStore g fs → budget_ok budget →
  Forall (λ f, ValidateSourcePath (Path f) = Ok ()) ps → ps ⊆ fs →
  0 ≤ total ≤ Bytes budget →
  captureLoop budget (Path <$> ps) total g
  = (if total + total_content ps <=? Bytes budget then Ok ps else Err (Exceeded budget), g).
Proof.
  intros Hst Hb Hv. destruct (budget_ok_bound _ Hb) as [_ HbE]. unfold Expanded in HbE. revert total.
  induction Hv as [|f ps Hf Hv IH]; intros total Hsub Ht.
  - simpl. by rewrite (proj2 (Z.leb_le _ _)) by lia.
  - rewrite fmap_cons. cbn [captureLoop].
    pose proof (valid_path_facts _ Hf) as (Hne & _ & Hpre).
    rewrite bool_decide_eq_false_2, Hpre, Hf by done. simpl negb. cbn iota.
    rewrite (store_read f) by (set_solver || (unfold u64; lia)). cbn [Status Output].
    rewrite Z.eqb_refl. simpl negb. cbn iota.
    pose proof (total_content_nonneg ps). simpl total_content.
    rewrite len_takeZ_min by lia.
    destruct (Bytes budget - total <? Z.min (Bytes budget - total + 1) (len (Content f))) eqn:E; zbool.
    + by rewrite (proj2 (Z.leb_gt _ _)) by lia.
    + rewrite Z.min_r, takeZ_all by lia. rewrite IH by (set_solver || llia).
      rewrite Z.add_assoc. destruct (_ <=? _); [|done]. by destruct f.
Qed.

Lemma listing_valid fs :
  Forall (λ f, ValidateSourcePath (Path f) = Ok ()) fs →
  utf8.Valid (fs ≫= λ f, Path f ++ [newline]) = true.
Proof.
  induction 1 as [|f fs Hf _ IH]; [done|]. rewrite lbind_cons, <-app_assoc.
  rewrite utf8.Valid_app by (by apply ValidateSourcePath_lengths in Hf as [? _]).
  by rewrite utf8.Valid_app.
Qed.

Lemma capture_from_store g fs budget :
  FileStore g fs → budget_ok budget → len fs ≤ maxSnapshotFiles →
  Forall (λ f, ValidateSourcePath (Path f) = Ok ()) fs → NoDup (Path <$> fs) →
  CaptureCanonicalSourceSnapshotWithBudget budget g
  = (if total_content fs <=? Bytes budget
     then Ok (sourceSnapshot (snapshot_wire (sort.SliceBy Path fs)) (sort.SliceBy Path fs))
     else Err (Exceeded budget), g).
Proof.
  intros Hst Hb Hn Hv Hnd. unfold CaptureCanonicalSourceSnapshotWithBudget.
  rewrite (proj2 (Budget_Validate_Ok _)), store_list by done. cbn [Status Output].
  rewrite Z.eqb_refl, listing_valid by done. simpl negb. cbn iota zeta.
  replace (fs ≫= λ f, Path f ++ [newline]) with ((Path <$> fs) ≫= λ p, p ++ [newline])
    by (clear; induction fs as [|f fs IH]; [done|]; by rewrite fmap_cons, !lbind_cons, IH).
  rewrite listing_split; cycle 1.
  { apply Forall_fmap. eapply Forall_impl; [apply Hv|]. intros f Hf.
    apply valid_path_facts in Hf as (? & ? & _). done. }
  unfold len at 1. rewrite length_fmap. rewrite (proj2 (Z.ltb_ge _ _)) by done.
  destruct (Permutation_map_inv Path (l1 := sort.Strings (Path <$> fs)) fs) as (ps & Eps & Hps).
  { apply merge_sort_Permutation. }
  change (map Path ps) with (Path <$> ps) in Eps. rewrite Eps, (captureLoop_store g fs); try done.
  - rewrite <-(total_content_perm _ _ Hps), Z.add_0_l. destruct (_ <=? _) eqn:E; [|done]. zbool.
    f_equal. apply (NewCanonical_perm fs ps budget); [done|].
    apply NewCanonical_Ok. split; [|done]. unfold valid_files. split_and!; auto.
  - by rewrite <-Hps.
  - intros f Hf. by rewrite Hps.
  - destruct (budget_ok_bound _ Hb). lia.
Qed.

(** C29: Against a guest that stores [fs] below seed/ (at most 128 files, safe
    and distinct paths), the capture succeeds exactly when the content fits the
    budget and then yields the canonical snapshot of all of [fs], every file
    complete; a tree one byte or more over the budget is reported as exceeding
    it, never captured truncated. *)
Theorem capture_complete_or_exceeded g fs budget :
  FileStore g fs → budget_ok budget → len fs ≤ maxSnapshotFiles →
  Forall (λ f, ValidateSourcePath (Path f) = Ok ()) fs → NoDup (Path <$> fs) →
  CaptureCanonicalSourceSnapshotWithBudget budget g
  = (if total_content fs <=? Bytes budget
     then Ok (sourceSnapshot (snapshot_wire (sort.SliceBy Path fs)) (sort.SliceBy Path fs))
     else Err (Exceeded budget), g).
Proof. apply capture_from_store. Qed.

End Capture.

(** A guest that keeps its files in a list, as the seed does: [list] answers the
    paths with the prefix, [read] the requested range of one file. *)
Definition list_store (fs : list SnapshotFile) (name : bytes) (args : list bytes)
  : result ToolResult * list SnapshotFile :=
  if bool_decide (name = bs "list") then
    (Ok (mkToolResult 0 (filter (λ f, strings.HasPrefix (Path f) (hd [] args) = true) fs
                         ≫= λ f, Path f ++ [newline])), fs)
  else match args with
  | [p; o; n] =>
      match list_find (λ f, Path f = p) fs, strconv.ParseUint o, strconv.ParseUint n with
      | Some (_, f), Some o, Some n => (Ok (mkToolResult 0 (takeZ n (dropZ o (Content f)))), fs)
      | _, _, _ => (Ok (mkToolResult 1 []), fs)
      end
  | _ => (Ok (mkToolResult 1 []), fs)
  end.

Lemma list_store_FileStore fs :
  Forall (λ f, strings.HasPrefix (Path f) (bs "seed/") = true) fs → NoDup (Path <$> fs) →
  FileStore list_store fs fs.
Proof.
  intros Hp Hnd. split.
  - unfold list_store. rewrite bool_decide_eq_true_2 by done. simpl hd. do 3 f_equal.
    clear Hnd. induction Hp as [|f fs Hf _ IH]; [done|].
    rewrite filter_cons_True by done. by rewrite !lbind_cons, IH.
  - intros f n Hf Hn. unfold list_store. rewrite bool_decide_eq_false_2 by by vm_compute.
    destruct (list_find (λ f0, Path f0 = Path f) fs) as [[i f']|] eqn:E.
    + apply list_find_Some in E as (Hi & Ef & _).
      apply list_elem_of_lookup in Hf as [j Hj].
      assert (i = j) as ->.
      { eapply (NoDup_lookup (Path <$> fs)); [done| |]; rewrite list_lookup_fmap.
        - by rewrite Hi.
        - rewrite Hj. simpl. by rewrite Ef. }
      rewrite Hi in Hj. injection Hj as ->.
      rewrite strconv.ParseUint_Itoa by done. done.
    + apply list_find_None in E. rewrite Forall_forall in E. by destruct (E f).
Qed.

Lemma capture_complete_or_exceeded_witness :
  CaptureCanonicalSourceSnapshotWithBudget list_store 0 sample_files
  = (Ok (sourceSnapshot (snapshot_wire (rev sample_files)) (rev sample_files)), sample_files).
Proof.
  assert (Hst : FileStore list_store sample_files sample_files).
  { apply list_store_FileStore; [by repeat constructor|]. by apply (bool_decide_unpack _). }
  rewrite (capture_complete_or_exceeded list_store sample_files sample_files 0 Hst).
  - reflexivity.
  - by left.
  - by vm_compute.
  - by repeat constructor.
  - by apply (bool_decide_unpack _).
Defined.
