(* ===== verification/Dispatcher.v ===== *)
(** * The serial protocol dispatcher (src/internal/guest/dispatcher.go): state and operations

    One reader goroutine owns all reads and all ordered writes; one tool
    exchange at a time waits on the shared state. Every definition below is one
    critical section of the source (the statements between [Lock] and [Unlock])
    or a composition of such sections on the reader goroutine.

    The shared objects are explicit: queued writes live in a heap because the
    queue, the reader and the waiting exchange alias them; events go to a
    bounded list and from there to the recorder. [time.Now()] is read from a
    clock, one tick per call. [notify] is a counter of signals. *)

From S2P Require Import Prelude GoStd Framing Protocol.
Open Scope Z_scope.

Definition ReadyMarker : bytes := bs "CODEXOS-SEED-READY" ++ [x0a].
Definition dispatcherReadBytes : Z := 4096.
Definition dispatcherWriteChunkBytes : Z := 16 * 1024.
Definition dispatcherWriteProgress : Z := 64 * 1024.
Definition dispatcherMaxQueuedWrites : Z := 8.
Definition dispatcherMaxQueuedBytes : Z := 32 * 1024 * 1024 + 8 * frameHeaderSize.
Definition maxHostDiagnosticBytes : Z := 4 * 1024.
Definition maxStartupDiagnosticBytes : Z := 4 * 1024.

(** Durations in nanoseconds. *)
Definition second : Z := 1000 * 1000 * 1000.
Definition dispatcherWriteStall : Z := 5 * second.
Definition dispatcherReceiveLimit : Z := 15 * 60 * second.

Inductive WriteKind := tool_request | host_response.
#[global] Instance WriteKind_eq_dec : EqDecision WriteKind.
Proof. solve_decision. Defined.

Record queuedSerialWrite := mkWrite {
  qdata : bytes;
  qkind : WriteKind;
  qrequestID : Z;
  qscope : string;
  qoffset : Z;
  qnextProgress : Z;
  qstallDeadline : option Z;
  qcomplete : bool;
  qterminal : string
}.

Definition set_qoffset (v : Z) (q : queuedSerialWrite) : queuedSerialWrite :=
  mkWrite (qdata q) (qkind q) (qrequestID q) (qscope q) v (qnextProgress q) (qstallDeadline q) (qcomplete q) (qterminal q).
Definition set_qnextProgress (v : Z) (q : queuedSerialWrite) : queuedSerialWrite :=
  mkWrite (qdata q) (qkind q) (qrequestID q) (qscope q) (qoffset q) v (qstallDeadline q) (qcomplete q) (qterminal q).
Definition set_qstallDeadline (v : option Z) (q : queuedSerialWrite) : queuedSerialWrite :=
  mkWrite (qdata q) (qkind q) (qrequestID q) (qscope q) (qoffset q) (qnextProgress q) v (qcomplete q) (qterminal q).
Definition set_qcomplete (v : bool) (q : queuedSerialWrite) : queuedSerialWrite :=
  mkWrite (qdata q) (qkind q) (qrequestID q) (qscope q) (qoffset q) (qnextProgress q) (qstallDeadline q) v (qterminal q).
Definition set_qterminal (v : string) (q : queuedSerialWrite) : queuedSerialWrite :=
  mkWrite (qdata q) (qkind q) (qrequestID q) (qscope q) (qoffset q) (qnextProgress q) (qstallDeadline q) (qcomplete q) v.

(** Event data is a small map from names to integers and strings. *)
Inductive evalue := EInt (z : Z) | EStr (s : string).
Record serialEvent := mkEvent { ename : string; edata : list (string * evalue) }.

Record SerialProtocolDispatcher := mkDispatcher {
  started : bool;
  ready : bool;
  closing : bool;
  failure : option error;
  cancelled : bool;
  pendingResponse : bool;
  pendingRequestID : Z;
  pendingResponseType : Z;
  response : option Frame;
  receiveStarted : option Z;
  receiveUpdated : option Z;
  receiveBytes : Z;
  receiveNextProgress : Z;
  hostActive : Z;
  hostWindow : Z;
  startupBuffer : bytes;
  frameBuffer : bytes;
  diagnostic : bytes;
  heap : gmap Z queuedSerialWrite;
  nextPtr : Z;
  writes : list Z;
  queuedBytes : Z;
  events : list serialEvent;
  recorded : list serialEvent;
  serialClosed : bool;
  signals : Z;
  ticks : nat
}.

Definition set_started (v : bool) (d : SerialProtocolDispatcher) : SerialProtocolDispatcher :=
  mkDispatcher v (ready d) (closing d) (failure d) (cancelled d) (pendingResponse d) (pendingRequestID d) (pendingResponseType d) (response d) (receiveStarted d) (receiveUpdated d) (receiveBytes d) (receiveNextProgress d) (hostActive d) (hostWindow d) (startupBuffer d) (frameBuffer d) (diagnostic d) (heap d) (nextPtr d) (writes d) (queuedBytes d) (events d) (recorded d) (serialClosed d) (signals d) (ticks d).
Definition set_ready (v : bool) (d : SerialProtocolDispatcher) : SerialProtocolDispatcher :=
  mkDispatcher (started d) v (closing d) (failure d) (cancelled d) (pendingResponse d) (pendingRequestID d) (pendingResponseType d) (response d) (receiveStarted d) (receiveUpdated d) (receiveBytes d) (receiveNextProgress d) (hostActive d) (hostWindow d) (startupBuffer d) (frameBuffer d) (diagnostic d) (heap d) (nextPtr d) (writes d) (queuedBytes d) (events d) (recorded d) (serialClosed d) (signals d) (ticks d).
Definition set_closing (v : bool) (d : SerialProtocolDispatcher) : SerialProtocolDispatcher :=
  mkDispatcher (started d) (ready d) v (failure d) (cancelled d) (pendingResponse d) (pendingRequestID d) (pendingResponseType d) (response d) (receiveStarted d) (receiveUpdated d) (receiveBytes d) (receiveNextProgress d) (hostActive d) (hostWindow d) (startupBuffer d) (frameBuffer d) (diagnostic d) (heap d) (nextPtr d) (writes d) (queuedBytes d) (events d) (recorded d) (serialClosed d) (signals d) (ticks d).
Definition set_failure (v : option error) (d : SerialProtocolDispatcher) : SerialProtocolDispatcher :=
  mkDispatcher (started d) (ready d) (closing d) v (cancelled d) (pendingResponse d) (pendingRequestID d) (pendingResponseType d) (response d) (receiveStarted d) (receiveUpdated d) (receiveBytes d) (receiveNextProgress d) (hostActive d) (hostWindow d) (startupBuffer d) (frameBuffer d) (diagnostic d) (heap d) (nextPtr d) (writes d) (queuedBytes d) (events d) (recorded d) (serialClosed d) (signals d) (ticks d).
Definition set_cancelled (v : bool) (d : SerialProtocolDispatcher) : SerialProtocolDispatcher :=
  mkDispatcher (started d) (ready d) (closing d) (failure d) v (pendingResponse d) (pendingRequestID d) (pendingResponseType d) (response d) (receiveStarted d) (receiveUpdated d) (receiveBytes d) (receiveNextProgress d) (hostActive d) (hostWindow d) (startupBuffer d) (frameBuffer d) (diagnostic d) (heap d) (nextPtr d) (writes d) (queuedBytes d) (events d) (recorded d) (serialClosed d) (signals d) (ticks d).
Definition set_pendingResponse (v : bool) (d : SerialProtocolDispatcher) : SerialProtocolDispatcher :=
  mkDispatcher (started d) (ready d) (closing d) (failure d) (cancelled d) v (pendingRequestID d) (pendingResponseType d) (response d) (receiveStarted d) (receiveUpdated d) (receiveBytes d) (receiveNextProgress d) (hostActive d) (hostWindow d) (startupBuffer d) (frameBuffer d) (diagnostic d) (heap d) (nextPtr d) (writes d) (queuedBytes d) (events d) (recorded d) (serialClosed d) (signals d) (ticks d).
Definition set_pendingRequestID (v : Z) (d : SerialProtocolDispatcher) : SerialProtocolDispatcher :=
  mkDispatcher (started d) (ready d) (closing d) (failure d) (cancelled d) (pendingResponse d) v (pendingResponseType d) (response d) (receiveStarted d) (receiveUpdated d) (receiveBytes d) (receiveNextProgress d) (hostActive d) (hostWindow d) (startupBuffer d) (frameBuffer d) (diagnostic d) (heap d) (nextPtr d) (writes d) (queuedBytes d) (events d) (recorded d) (serialClosed d) (signals d) (ticks d).
Definition set_pendingResponseType (v : Z) (d : SerialProtocolDispatcher) : SerialProtocolDispatcher :=
  mkDispatcher (started d) (ready d) (closing d) (failure d) (cancelled d) (pendingResponse d) (pendingRequestID d) v (response d) (receiveStarted d) (receiveUpdated d) (receiveBytes d) (receiveNextProgress d) (hostActive d) (hostWindow d) (startupBuffer d) (frameBuffer d) (diagnostic d) (heap d) (nextPtr d) (writes d) (queuedBytes d) (events d) (recorded d) (serialClosed d) (signals d) (ticks d).
Definition set_response (v : option Frame) (d : SerialProtocolDispatcher) : SerialProtocolDispatcher :=
  mkDispatcher (started d) (ready d) (closing d) (failure d) (cancelled d) (pendingResponse d) (pendingRequestID d) (pendingResponseType d) v (receiveStarted d) (receiveUpdated d) (receiveBytes d) (receiveNextProgress d) (hostActive d) (hostWindow d) (startupBuffer d) (frameBuffer d) (diagnostic d) (heap d) (nextPtr d) (writes d) (queuedBytes d) (events d) (recorded d) (serialClosed d) (signals d) (ticks d).
Definition set_receiveStarted (v : option Z) (d : SerialProtocolDispatcher) : SerialProtocolDispatcher :=
  mkDispatcher (started d) (ready d) (closing d) (failure d) (cancelled d) (pendingResponse d) (pendingRequestID d) (pendingResponseType d) (response d) v (receiveUpdated d) (receiveBytes d) (receiveNextProgress d) (hostActive d) (hostWindow d) (startupBuffer d) (frameBuffer d) (diagnostic d) (heap d) (nextPtr d) (writes d) (queuedBytes d) (events d) (recorded d) (serialClosed d) (signals d) (ticks d).
Definition set_receiveUpdated (v : option Z) (d : SerialProtocolDispatcher) : SerialProtocolDispatcher :=
  mkDispatcher (started d) (ready d) (closing d) (failure d) (cancelled d) (pendingResponse d) (pendingRequestID d) (pendingResponseType d) (response d) (receiveStarted d) v (receiveBytes d) (receiveNextProgress d) (hostActive d) (hostWindow d) (startupBuffer d) (frameBuffer d) (diagnostic d) (heap d) (nextPtr d) (writes d) (queuedBytes d) (events d) (recorded d) (serialClosed d) (signals d) (ticks d).
Definition set_receiveBytes (v : Z) (d : SerialProtocolDispatcher) : SerialProtocolDispatcher :=
  mkDispatcher (started d) (ready d) (closing d) (failure d) (cancelled d) (pendingResponse d) (pendingRequestID d) (pendingResponseType d) (response d) (receiveStarted d) (receiveUpdated d) v (receiveNextProgress d) (hostActive d) (hostWindow d) (startupBuffer d) (frameBuffer d) (diagnostic d) (heap d) (nextPtr d) (writes d) (queuedBytes d) (events d) (recorded d) (serialClosed d) (signals d) (ticks d).
Definition set_receiveNextProgress (v : Z) (d : SerialProtocolDispatcher) : SerialProtocolDispatcher :=
  mkDispatcher (started d) (ready d) (closing d) (failure d) (cancelled d) (pendingResponse d) (pendingRequestID d) (pendingResponseType d) (response d) (receiveStarted d) (receiveUpdated d) (receiveBytes d) v (hostActive d) (hostWindow d) (startupBuffer d) (frameBuffer d) (diagnostic d) (heap d) (nextPtr d) (writes d) (queuedBytes d) (events d) (recorded d) (serialClosed d) (signals d) (ticks d).
Definition set_hostActive (v : Z) (d : SerialProtocolDispatcher) : SerialProtocolDispatcher :=
  mkDispatcher (started d) (ready d) (closing d) (failure d) (cancelled d) (pendingResponse d) (pendingRequestID d) (pendingResponseType d) (response d) (receiveStarted d) (receiveUpdated d) (receiveBytes d) (receiveNextProgress d) v (hostWindow d) (startupBuffer d) (frameBuffer d) (diagnostic d) (heap d) (nextPtr d) (writes d) (queuedBytes d) (events d) (recorded d) (serialClosed d) (signals d) (ticks d).
Definition set_hostWindow (v : Z) (d : SerialProtocolDispatcher) : SerialProtocolDispatcher :=
  mkDispatcher (started d) (ready d) (closing d) (failure d) (cancelled d) (pendingResponse d) (pendingRequestID d) (pendingResponseType d) (response d) (receiveStarted d) (receiveUpdated d) (receiveBytes d) (receiveNextProgress d) (hostActive d) v (startupBuffer d) (frameBuffer d) (diagnostic d) (heap d) (nextPtr d) (writes d) (queuedBytes d) (events d) (recorded d) (serialClosed d) (signals d) (ticks d).
Definition set_startupBuffer (v : bytes) (d : SerialProtocolDispatcher) : SerialProtocolDispatcher :=
  mkDispatcher (started d) (ready d) (closing d) (failure d) (cancelled d) (pendingResponse d) (pendingRequestID d) (pendingResponseType d) (response d) (receiveStarted d) (receiveUpdated d) (receiveBytes d) (receiveNextProgress d) (hostActive d) (hostWindow d) v (frameBuffer d) (diagnostic d) (heap d) (nextPtr d) (writes d) (queuedBytes d) (events d) (recorded d) (serialClosed d) (signals d) (ticks d).
Definition set_frameBuffer (v : bytes) (d : SerialProtocolDispatcher) : SerialProtocolDispatcher :=
  mkDispatcher (started d) (ready d) (closing d) (failure d) (cancelled d) (pendingResponse d) (pendingRequestID d) (pendingResponseType d) (response d) (receiveStarted d) (receiveUpdated d) (receiveBytes d) (receiveNextProgress d) (hostActive d) (hostWindow d) (startupBuffer d) v (diagnostic d) (heap d) (nextPtr d) (writes d) (queuedBytes d) (events d) (recorded d) (serialClosed d) (signals d) (ticks d).
Definition set_diagnostic (v : bytes) (d : SerialProtocolDispatcher) : SerialProtocolDispatcher :=
  mkDispatcher (started d) (ready d) (closing d) (failure d) (cancelled d) (pendingResponse d) (pendingRequestID d) (pendingResponseType d) (response d) (receiveStarted d) (receiveUpdated d) (receiveBytes d) (receiveNextProgress d) (hostActive d) (hostWindow d) (startupBuffer d) (frameBuffer d) v (heap d) (nextPtr d) (writes d) (queuedBytes d) (events d) (recorded d) (serialClosed d) (signals d) (ticks d).
Definition set_heap (v : gmap Z queuedSerialWrite) (d : SerialProtocolDispatcher) : SerialProtocolDispatcher :=
  mkDispatcher (started d) (ready d) (closing d) (failure d) (cancelled d) (pendingResponse d) (pendingRequestID d) (pendingResponseType d) (response d) (receiveStarted d) (receiveUpdated d) (receiveBytes d) (receiveNextProgress d) (hostActive d) (hostWindow d) (startupBuffer d) (frameBuffer d) (diagnostic d) v (nextPtr d) (writes d) (queuedBytes d) (events d) (recorded d) (serialClosed d) (signals d) (ticks d).
Definition set_nextPtr (v : Z) (d : SerialProtocolDispatcher) : SerialProtocolDispatcher :=
  mkDispatcher (started d) (ready d) (closing d) (failure d) (cancelled d) (pendingResponse d) (pendingRequestID d) (pendingResponseType d) (response d) (receiveStarted d) (receiveUpdated d) (receiveBytes d) (receiveNextProgress d) (hostActive d) (hostWindow d) (startupBuffer d) (frameBuffer d) (diagnostic d) (heap d) v (writes d) (queuedBytes d) (events d) (recorded d) (serialClosed d) (signals d) (ticks d).
Definition set_writes (v : list Z) (d : SerialProtocolDispatcher) : SerialProtocolDispatcher :=
  mkDispatcher (started d) (ready d) (closing d) (failure d) (cancelled d) (pendingResponse d) (pendingRequestID d) (pendingResponseType d) (response d) (receiveStarted d) (receiveUpdated d) (receiveBytes d) (receiveNextProgress d) (hostActive d) (hostWindow d) (startupBuffer d) (frameBuffer d) (diagnostic d) (heap d) (nextPtr d) v (queuedBytes d) (events d) (recorded d) (serialClosed d) (signals d) (ticks d).
Definition set_queuedBytes (v : Z) (d : SerialProtocolDispatcher) : SerialProtocolDispatcher :=
  mkDispatcher (started d) (ready d) (closing d) (failure d) (cancelled d) (pendingResponse d) (pendingRequestID d) (pendingResponseType d) (response d) (receiveStarted d) (receiveUpdated d) (receiveBytes d) (receiveNextProgress d) (hostActive d) (hostWindow d) (startupBuffer d) (frameBuffer d) (diagnostic d) (heap d) (nextPtr d) (writes d) v (events d) (recorded d) (serialClosed d) (signals d) (ticks d).
Definition set_events (v : list serialEvent) (d : SerialProtocolDispatcher) : SerialProtocolDispatcher :=
  mkDispatcher (started d) (ready d) (closing d) (failure d) (cancelled d) (pendingResponse d) (pendingRequestID d) (pendingResponseType d) (response d) (receiveStarted d) (receiveUpdated d) (receiveBytes d) (receiveNextProgress d) (hostActive d) (hostWindow d) (startupBuffer d) (frameBuffer d) (diagnostic d) (heap d) (nextPtr d) (writes d) (queuedBytes d) v (recorded d) (serialClosed d) (signals d) (ticks d).
Definition set_recorded (v : list serialEvent) (d : SerialProtocolDispatcher) : SerialProtocolDispatcher :=
  mkDispatcher (started d) (ready d) (closing d) (failure d) (cancelled d) (pendingResponse d) (pendingRequestID d) (pendingResponseType d) (response d) (receiveStarted d) (receiveUpdated d) (receiveBytes d) (receiveNextProgress d) (hostActive d) (hostWindow d) (startupBuffer d) (frameBuffer d) (diagnostic d) (heap d) (nextPtr d) (writes d) (queuedBytes d) (events d) v (serialClosed d) (signals d) (ticks d).
Definition set_serialClosed (v : bool) (d : SerialProtocolDispatcher) : SerialProtocolDispatcher :=
  mkDispatcher (started d) (ready d) (closing d) (failure d) (cancelled d) (pendingResponse d) (pendingRequestID d) (pendingResponseType d) (response d) (receiveStarted d) (receiveUpdated d) (receiveBytes d) (receiveNextProgress d) (hostActive d) (hostWindow d) (startupBuffer d) (frameBuffer d) (diagnostic d) (heap d) (nextPtr d) (writes d) (queuedBytes d) (events d) (recorded d) v (signals d) (ticks d).
Definition set_signals (v : Z) (d : SerialProtocolDispatcher) : SerialProtocolDispatcher :=
  mkDispatcher (started d) (ready d) (closing d) (failure d) (cancelled d) (pendingResponse d) (pendingRequestID d) (pendingResponseType d) (response d) (receiveStarted d) (receiveUpdated d) (receiveBytes d) (receiveNextProgress d) (hostActive d) (hostWindow d) (startupBuffer d) (frameBuffer d) (diagnostic d) (heap d) (nextPtr d) (writes d) (queuedBytes d) (events d) (recorded d) (serialClosed d) v (ticks d).
Definition set_ticks (v : nat) (d : SerialProtocolDispatcher) : SerialProtocolDispatcher :=
  mkDispatcher (started d) (ready d) (closing d) (failure d) (cancelled d) (pendingResponse d) (pendingRequestID d) (pendingResponseType d) (response d) (receiveStarted d) (receiveUpdated d) (receiveBytes d) (receiveNextProgress d) (hostActive d) (hostWindow d) (startupBuffer d) (frameBuffer d) (diagnostic d) (heap d) (nextPtr d) (writes d) (queuedBytes d) (events d) (recorded d) (serialClosed d) (signals d) v.

(** The empty dispatcher of [NewSerialProtocolDispatcher]. *)
Definition NewSerialProtocolDispatcher : SerialProtocolDispatcher :=
  mkDispatcher false false false None false false 0 0 None None None 0 0 0 0
    [] [] [] ∅ 0 [] 0 [] [] false 0 O.

(** What a host-service callback does: it returns, or panics, and on the way it
    may have closed the dispatcher with [CloseFromCallback]. *)
Inductive HandlerOutcome :=
| Returned (r : result Frame)
| Panicked (value : text).

(** The Go type name that [%T] prints. *)
Definition type_name (e : error) : string :=
  match e with
  | FramingError _ => "*guest.FramingError"
  | HostServiceProtocolError _ => "*guest.HostServiceProtocolError"
  | ToolProtocolError _ => "*guest.ToolProtocolError"
  | SourceSnapshotError _ => "*guest.SourceSnapshotError"
  | DispatcherError _ _ => "*guest.DispatcherError"
  | SerialError _ _ => "*guest.SerialError"
  | ProvidedAssetsError _ _ => "*store.ProvidedAssetsError"
  | FeatureRequestError _ _ _ => "*store.FeatureRequestError"
  | GenerationRuntimeError _ _ => "*experiment.GenerationRuntimeError"
  | CodexError _ _ => "*codexapp.Error"
  | CrossRunBootstrapError _ _ => "*store.CrossRunBootstrapError"
  | HardwareError _ _ => "*qemu.HardwareError"
  | QMPError _ _ => "*qemu.QMPError"
  | QEMUProcessError _ _ => "*qemu.QEMUProcessError"
  | MetricsError _ _ => "*observability.MetricsError"
  | ObservabilityError _ _ => "*observability.Error"
  | GenerationWorkerError _ _ => "*agent.GenerationWorkerError"
  | ReviewWorkerError _ _ => "*agent.ReviewWorkerError"
  | PlainError _ => "*errors.errorString"
  | ContextError _ => "context.deadlineExceededError"
  | SystemError _ => "*errors.errorString"
  end.

Section Dispatcher.

(** [clock n] is the [n]-th reading of the clock. [H] is the state of the host
    services behind the callbacks; a handler maps it and a request to an outcome,
    whether it closed the dispatcher, and the next state. *)
Context (clock : nat → Z) (quote : bytes → bytes) {H : Type}.
Abbreviation HostServiceHandler := (H → HostRequest → HandlerOutcome * bool * H).
Context (StartupHostServices BackgroundHostServices ExchangeHostServices : option HostServiceHandler)
        (EventRecorder : bool).

Abbreviation D := SerialProtocolDispatcher.

(** [time.Now()] *)
Definition time_now (d : D) : Z * D := (clock (ticks d), set_ticks (S (ticks d)) d).

Definition signalLocked (d : D) : D := set_signals (signals d + 1) d.

(** ** Events *)

Definition recordLocked (event : string) (data : list (string * evalue)) (d : D) : D :=
  if negb EventRecorder then d
  else if len (events d) <? 64 then set_events (events d ++ [mkEvent event data]) d
  else d.

Definition flushEvents (d : D) : D :=
  if negb EventRecorder then d
  else set_events [] (set_recorded (recorded d ++ events d) d).

Definition record (event : string) (data : list (string * evalue)) (d : D) : D :=
  flushEvents (recordLocked event data d).

(** Dereference and update of a queued write. *)
Definition alterWrite (f : queuedSerialWrite → queuedSerialWrite) (p : Z) (d : D) : D :=
  set_heap (alter f p (heap d)) d.

Definition kind_name (k : WriteKind) : string :=
  match k with tool_request => "tool_request" | host_response => "host_response" end.

Definition recordWriteEventLocked (p : Z) (phase errorName : string) (d : D) : D :=
  match heap d !! p with
  | None => d
  | Some q =>
      recordLocked "serial_protocol_write"
        ([("request_id", EInt (qrequestID q)); ("phase", EStr phase); ("bytes_sent", EInt (qoffset q));
          ("total_bytes", EInt (len (qdata q))); ("write_kind", EStr (kind_name (qkind q)))]
         ++ (if bool_decide (qscope q = "") then [] else [("scope", EStr (qscope q))])
         ++ (if bool_decide (errorName = "") then [] else [("error", EStr errorName)])) d
  end%string.

Definition recordWriteTerminalLocked (p : Z) (phase errorName : string) (d : D) : D :=
  match heap d !! p with
  | None => d
  | Some q =>
      if bool_decide (qterminal q = ""%string)
      then recordWriteEventLocked p phase errorName (alterWrite (set_qterminal phase) p d)
      else d
  end.

(** ** Host-service accounting *)

Definition finishHostServiceLocked (d : D) : D :=
  if 0 <? hostActive d then
    signalLocked (set_hostWindow (wrap64 (hostWindow d + 1)) (set_hostActive (hostActive d - 1) d))
  else d.

Definition finishHostService (d : D) : D := finishHostServiceLocked d.

Definition boundedHostDiagnostic (message : bytes) : bytes :=
  takeZ (Z.min (len message) maxHostDiagnosticBytes) message.

(** ** The write queue *)

Definition queue_full : error := DispatcherError (txt "serial protocol write queue is full") None.
Definition closed_error : error := SerialError (txt "serial protocol dispatcher is closed") None.

Definition queueWrite (data : bytes) (kind : WriteKind) (requestID : Z) (scope : string) (d : D)
  : result Z * D :=
  match failure d with
  | Some err => (Err err, d)
  | None =>
      if closing d then (Err closed_error, d)
      else if (dispatcherMaxQueuedWrites <=? len (writes d))
              || (dispatcherMaxQueuedBytes - queuedBytes d <? len data) then (Err queue_full, d)
      else
        let queued := mkWrite data kind requestID scope 0 dispatcherWriteProgress None false "" in
        let p := nextPtr d in
        let d := set_nextPtr (p + 1) (set_heap (<[p := queued]> (heap d)) d) in
        let d := set_writes (writes d ++ [p]) d in
        let d := set_queuedBytes (queuedBytes d + len data) d in
        (Ok p, flushEvents (signalLocked d))
  end.

(** One look of [waitForWrite] under the lock: [None] is to wait for a signal. *)
Definition waitForWrite_poll (queued : Z) (d : D) : option (result unit) :=
  match failure d with
  | Some err => Some (Err err)
  | None => match heap d !! queued with
            | Some q => if qcomplete q then Some (Ok ()) else None
            | None => None
            end
  end.

(** The progress loop of [advanceWrite]: one event per 64 KiB passed. *)
Fixpoint progressLoop (fuel : nat) (p : Z) (d : D) : D :=
  match fuel with
  | O => d
  | S fuel =>
      match heap d !! p with
      | Some q =>
          if qnextProgress q <=? qoffset q then
            progressLoop fuel p
              (alterWrite (set_qnextProgress (qnextProgress q + dispatcherWriteProgress)) p
                 (recordWriteEventLocked p "write_progress" "" d))
          else d
      | None => d
      end
  end.

Definition write_timeout : error := DispatcherError (txt "timed out writing serial protocol frame") None.

Definition advanceWrite (queued : Z) (sent : Z) (d : D) : result unit * D :=
  match writes d with
  | p :: rest =>
      if negb (p =? queued) then (Ok (), flushEvents d)
      else match heap d !! p with
      | None => (Ok (), flushEvents d)
      | Some q =>
          let '(now, d) := time_now d in
          let '(expired, d) :=
            if negb (sent =? 0) then
              let d := alterWrite (λ q, set_qstallDeadline (Some (now + dispatcherWriteStall))
                                          (set_qoffset (qoffset q + sent) q)) p d in
              (false,
               if decide (qkind q = host_response)
               then progressLoop (S (Z.to_nat ((qoffset q + sent) / dispatcherWriteProgress))) p d
               else d)
            else match qstallDeadline q with
                 | Some deadline => (deadline <=? now, d)
                 | None => (false, d)
                 end in
          if (expired : bool) then
            (Err write_timeout, flushEvents (recordWriteTerminalLocked p "write_timed_out" "" d))
          else if negb (qoffset q + sent =? len (qdata q)) then (Ok (), flushEvents d)
          else
            let d := set_writes rest d in
            let d := set_queuedBytes (queuedBytes d - len (qdata q)) d in
            let d := alterWrite (set_qcomplete true) p d in
            let d := recordWriteTerminalLocked p "write_completed" "" d in
            let d := if decide (qkind q = host_response) then finishHostServiceLocked d else d in
            (Ok (), flushEvents (signalLocked d))
      end
  | [] => (Ok (), flushEvents d)
  end.

(** ** Failure, abort and close *)

Definition head_terminal (phase errorName : string) (d : D) : D :=
  match writes d with
  | p :: _ => recordWriteTerminalLocked p phase errorName d
  | [] => d
  end.

Definition fail (err : error) (d : D) : D :=
  if closing d then flushEvents d
  else
    let d := head_terminal "write_failed" (type_name err) d in
    let d := if negb (hostActive d =? 0)
             then set_hostActive 0 (set_hostWindow (wrap64 (hostWindow d + hostActive d)) d) else d in
    let d := match failure d with None => set_failure (Some err) d | Some _ => d end in
    flushEvents (signalLocked d).

Definition abortExchange (err : error) (d : D) : D :=
  let d := match failure d with None => set_failure (Some err) d | Some _ => d end in
  let d := head_terminal "write_cancelled" "" d in
  let d := if started d then set_cancelled true d else d in
  flushEvents (set_serialClosed true (signalLocked d)).

(** [close], up to the wait for the reader, which the caller of [Close] adds and
    [CloseFromCallback] does not. *)
Definition close (d : D) : D :=
  let d :=
    if negb (closing d) then
      let d := set_closing true d in
      let d := head_terminal "write_cancelled" "" d in
      let d := match failure d with None => set_failure (Some closed_error) d | Some _ => d end in
      let d := if started d then set_cancelled true d else d in
      signalLocked d
    else d in
  set_serialClosed true d.

Definition start (isready : bool) (d : D) : result unit * D :=
  if started d then (Err (DispatcherError (txt "serial protocol dispatcher has already started") None), d)
  else if closing d then (Err (DispatcherError (txt "serial protocol dispatcher is closed") None), d)
  else (Ok (), set_ready isready (set_started true d)).

(** One look of [WaitUntilReady] under the lock: [None] is to wait. *)
Definition WaitUntilReady_poll (d : D) : option (result unit) :=
  if negb (started d) then
    Some (Err (DispatcherError (txt "serial protocol dispatcher has not started") None))
  else if ready d then Some (Ok ())
  else match failure d with Some err => Some (Err err) | None => None end.

Definition StartupDiagnostic (d : D) : bytes :=
  let combined := diagnostic d ++ startupBuffer d in
  takeZ (Z.min (len combined) maxStartupDiagnosticBytes) combined.

(** [CloseFromCallback]: the context carries no token, the token of another
    dispatcher, or this dispatcher's token, live or expired. *)
Inductive callbackToken := NoToken | ForeignToken | OwnToken (active : bool).

Definition CloseFromCallback (ctx : option callbackToken) (d : D) : result unit * D :=
  match ctx with
  | None => (Err (DispatcherError (txt "serial protocol callback context is nil") None), d)
  | Some NoToken | Some ForeignToken =>
      (Err (DispatcherError (txt "serial protocol callback context is invalid") None), d)
  | Some (OwnToken active) =>
      if negb active
      then (Err (DispatcherError (txt "serial protocol callback context is no longer active") None), d)
      else (Ok (), close d)
  end.

(** ** Receiving *)

Definition unexpected_response : error :=
  FramingError (txt "received an unexpected guest tool-protocol response").

(** The header checks of [trackReceiveLocked]: request ID, message type and
    total size of the frame whose prefix is [data]. *)
Definition trackHeader (data : bytes) (d : D) : result (Z * Z * Z) :=
  if frameHeaderSize <=? len data then
    '(messageType, requestID, length) ← decodeHeader (takeZ frameHeaderSize data);
    let total := frameHeaderSize + length in
    if messageType =? HostServiceRequest then
      if requestID =? 0 then Err (FramingError (txt "host-service request ID is zero"))
      else Ok (messageType, requestID, total)
    else if negb (pendingResponse d) || bool_decide (response d ≠ None) then Err unexpected_response
    else if negb (requestID =? pendingRequestID d) then
      Err (ToolProtocolError (txt "response request ID " ++ [Lit (strconv.Itoa requestID)]
             ++ txt " does not match " ++ [Lit (strconv.Itoa (pendingRequestID d))]))
    else if negb (messageType =? pendingResponseType d) then
      Err (ToolProtocolError (txt "response message type 0x" ++ [Lit (strconv.hex4 messageType)]
             ++ txt " does not match 0x" ++ [Lit (strconv.hex4 (pendingResponseType d))]))
    else Ok (messageType, requestID, total)
  else if negb (strings.HasPrefix frameMagic (takeZ (Z.min (len data) (len frameMagic)) data)) then
    Err (FramingError (txt "invalid frame magic"))
  else Ok (0, 0, frameHeaderSize).

Definition trackReceiveLocked (d : D) : result unit * D :=
  let data := frameBuffer d in
  match trackHeader data d with
  | Err err => (Err err, d)
  | Ok (messageType, requestID, total) =>
      let count := Z.min (len data) total in
      if count <=? receiveBytes d then (Ok (), d)
      else
        let '(now, d) := time_now d in
        let d := match receiveStarted d with None => set_receiveStarted (Some now) d | Some _ => d end in
        let d := set_receiveUpdated (Some now) d in
        let d := set_receiveBytes count d in
        let d :=
          if (frameHeaderSize <=? len data) && (receiveNextProgress d <=? count) then
            set_receiveNextProgress ((count / dispatcherWriteProgress + 1) * dispatcherWriteProgress)
              (recordLocked "serial_protocol_receive_progress"
                 [("request_id", EInt requestID); ("message_type", EInt messageType);
                  ("bytes_received", EInt count); ("total_bytes", EInt total)]%string d)
          else d in
        (Ok (), signalLocked d)
  end.

(** ** Host services *)

Definition host_begin (frame : Frame) (scope : string) (d : D) : D :=
  let d := set_hostActive (hostActive d + 1) d in
  let d := recordLocked "serial_host_service_request_received"
             [("request_id", EInt (RequestID frame)); ("request_bytes", EInt (len (Payload frame)));
              ("scope", EStr scope)]%string d in
  flushEvents (signalLocked d).

(** The handler's answer; a panic is recovered into an error. The callback may
    have closed the dispatcher through its live token. *)
Definition callHostServiceHandler (handler : HostServiceHandler) (request : HostRequest) (d : D) (h : H)
  : result Frame * D * H :=
  let '(outcome, closes, h) := handler h request in
  let d := if (closes : bool) then (CloseFromCallback (Some (OwnToken true)) d).2 else d in
  (match outcome with
   | Returned r => r
   | Panicked value => Err (PlainError (txt "panic: " ++ value))
   end, d, h).

(** The response of [dispatchHostService], before it is encoded. *)
Definition host_answer (frame : Frame) (handler : option HostServiceHandler) (d : D) (h : H)
  : result Frame * D * H :=
  match DecodeHostServiceRequest frame with
  | Err decodeErr =>
      if RequestID frame =? 0 then (Err decodeErr, d, h)
      else (CreateHostServiceResponse (RequestID frame) 1
              (boundedHostDiagnostic (render quote (Error decodeErr))), d, h)
  | Ok request =>
      match handler with
      | None => (CreateHostServiceResponse (hrRequestID request) 1
                   (bs "host services are not available"), d, h)
      | Some handler =>
          let '(answer, d, h) := callHostServiceHandler handler request d h in
          match answer with
          | Ok response => (Ok response, d, h)
          | Err err =>
              (CreateHostServiceResponse (hrRequestID request) 2
                 (boundedHostDiagnostic (render quote (txt "trusted host-service failure: " ++ Error err))),
               d, h)
          end
      end
  end.

(** Encode the answer and queue it; when it is not queued the service is over. *)
Definition host_finish (answer : result Frame) (scope : string) (d : D) : result unit * D :=
  match (response ← answer; encoded ← EncodeFrame response; Ok (response, encoded)) with
  | Err err => (Err err, finishHostService d)
  | Ok (response, encoded) =>
      let d := record "serial_host_service_response_prepared"
                 [("request_id", EInt (RequestID response)); ("response_bytes", EInt (len encoded));
                  ("scope", EStr scope)]%string d in
      match queueWrite encoded host_response (RequestID response) scope d with
      | (Err err, d) => (Err err, finishHostService d)
      | (Ok _, d) => (Ok (), d)
      end
  end.

Definition dispatchHostService (frame : Frame) (handler : option HostServiceHandler) (scope : string)
  (d : D) (h : H) : result unit * D * H :=
  let d := host_begin frame scope d in
  let '(answer, d, h) := host_answer frame handler d h in
  let '(r, d) := host_finish answer scope d in
  (r, d, h).

(** ** Consuming incoming bytes

    One iteration of each consumption loop is its locked section: it returns,
    loops, or hands a host-service request to [dispatchHostService]. *)
Inductive ConsumeStep :=
| CReturn (r : result unit)
| CLoop
| CDispatch (frame : Frame) (handler : option HostServiceHandler) (scope : string)
| CFrames.

Definition clearReceive (d : D) : D :=
  set_receiveNextProgress 0 (set_receiveBytes 0 (set_receiveUpdated None (set_receiveStarted None d))).

Definition consumeFrames_body (d : D) : ConsumeStep * D :=
  match failure d with
  | Some err => (CReturn (Err err), d)
  | None =>
      match trackReceiveLocked d with
      | (Err err, d) => (CReturn (Err err), d)
      | (Ok _, d) =>
          let '(extracted, buffer) := ExtractFrame (frameBuffer d) in
          let d := set_frameBuffer buffer d in
          match extracted with
          | Err err => (CReturn (Err err), d)
          | Ok None => (CReturn (Ok ()), flushEvents d)
          | Ok (Some frame) =>
              let d := clearReceive d in
              if MessageType frame =? HostServiceRequest then
                if pendingResponse d then (CDispatch frame ExchangeHostServices "exchange", d)
                else (CDispatch frame BackgroundHostServices "background", d)
              else if negb (pendingResponse d) || bool_decide (response d ≠ None) then
                (CReturn (Err unexpected_response), d)
              else
                let d := set_pendingResponse false d in
                let d := set_response (Some frame) d in
                let d := recordLocked "serial_tool_response_received"
                           [("request_id", EInt (RequestID frame)); ("response_bytes", EInt (len (Payload frame)))]%string d in
                (CLoop, flushEvents (signalLocked d))
          end
      end
  end.

(** The loops run on fuel: [None] is out of fuel, which does not happen when
    there is more fuel than buffered bytes. *)
Fixpoint consumeFrames_loop (fuel : nat) (d : D) (h : H) : option (result unit) * D * H :=
  match fuel with
  | O => (None, d, h)
  | S fuel =>
      match consumeFrames_body d with
      | (CReturn r, d) => (Some r, d, h)
      | (CDispatch frame handler scope, d) =>
          match dispatchHostService frame handler scope d h with
          | (Err err, d, h) => (Some (Err err), d, h)
          | (Ok _, d, h) => consumeFrames_loop fuel d h
          end
      | (_, d) => consumeFrames_loop fuel d h
      end
  end.

Definition consumeFrames (d : D) (h : H) : option (result unit) * D * H :=
  consumeFrames_loop (S (length (frameBuffer d))) d h.

Definition consumeStartup_body (d : D) : ConsumeStep * D :=
  let buffer := startupBuffer d in
  match buffer with
  | [] => (CReturn (Ok ()), d)
  | first :: others =>
      if strings.HasPrefix buffer ReadyMarker then
        let d := set_ready true (set_startupBuffer (dropZ (len ReadyMarker) buffer) d) in
        let d := set_frameBuffer (frameBuffer d ++ startupBuffer d) d in
        (CFrames, signalLocked (set_startupBuffer [] d))
      else
        let startsMagic := strings.HasPrefix buffer frameMagic in
        let partialReady := strings.HasPrefix ReadyMarker buffer in
        let partialMagic := strings.HasPrefix frameMagic buffer in
        let services := match StartupHostServices with Some _ => true | None => false end in
        if startsMagic && services then
          let '(extracted, buffer) := ExtractFrame buffer in
          let d := set_startupBuffer buffer d in
          match extracted with
          | Err err => (CReturn (Err err), d)
          | Ok None => (CReturn (Ok ()), d)
          | Ok (Some frame) =>
              if negb (MessageType frame =? HostServiceRequest) then
                (CReturn (Err (FramingError (txt "received a non-host-service frame before CODEXOS-SEED-READY"))), d)
              else (CDispatch frame StartupHostServices "startup", d)
          end
        else if partialReady || (services && partialMagic) then (CReturn (Ok ()), d)
        else
          let d := if len (diagnostic d) <? maxStartupDiagnosticBytes
                   then set_diagnostic (diagnostic d ++ [first]) d else d in
          (CLoop, set_startupBuffer others d)
  end.

Fixpoint consumeStartup_loop (fuel : nat) (d : D) (h : H) : option (result unit) * D * H :=
  match fuel with
  | O => (None, d, h)
  | S fuel =>
      match consumeStartup_body d with
      | (CReturn r, d) => (Some r, d, h)
      | (CFrames, d) => consumeFrames d h
      | (CDispatch frame handler scope, d) =>
          match dispatchHostService frame handler scope d h with
          | (Err err, d, h) => (Some (Err err), d, h)
          | (Ok _, d, h) => consumeStartup_loop fuel d h
          end
      | (CLoop, d) => consumeStartup_loop fuel d h
      end
  end.

Definition consumeStartup (d : D) (h : H) : option (result unit) * D * H :=
  consumeStartup_loop (S (length (startupBuffer d))) d h.

Definition appendIncoming (incoming : bytes) (d : D) : D :=
  if ready d then set_frameBuffer (frameBuffer d ++ incoming) d
  else set_startupBuffer (startupBuffer d ++ incoming) d.

Definition consumeIncoming (incoming : bytes) (d : D) (h : H) : option (result unit) * D * H :=
  if ready d then consumeFrames (appendIncoming incoming d) h
  else consumeStartup (appendIncoming incoming d) h.

(** ** The reader loop

    [readLoop_begin] is the locked section before the pump: [None] when the
    loop returns, else the head write and the chunk to send. *)
Definition readLoop_begin (d : D) : option (option Z * bytes) * D :=
  if closing d then (None, d)
  else
    match writes d with
    | [] => (Some (None, []), flushEvents d)
    | p :: _ =>
        match heap d !! p with
        | None => (Some (Some p, []), flushEvents d)
        | Some q =>
            let d :=
              match qstallDeadline q with
              | Some _ => d
              | None =>
                  let '(now, d) := time_now d in
                  recordWriteEventLocked p "write_started" ""
                    (alterWrite (set_qstallDeadline (Some (now + dispatcherWriteStall))) p d)
              end in
            let last := Z.min (len (qdata q)) (qoffset q + dispatcherWriteChunkBytes) in
            (Some (Some p, slice (qoffset q) last (qdata q)), flushEvents d)
        end
    end.

(** What [Pump] returned: an error, or the bytes read and the count sent. *)
Abbreviation PumpResult := (result (option bytes * Z)).

Definition invalid_count : error :=
  DispatcherError (txt "serial transport reported an invalid write count") None.

(** The rest of one iteration: the error that ends the loop, if any. *)
Definition readLoop_rest (queued : option Z) (outgoing : bytes) (pumped : PumpResult) (d : D) (h : H)
  : option (result unit) * D * H :=
  match pumped with
  | Err err => (Some (Err err), d, h)
  | Ok (incoming, sent) =>
      let '(consumed, d, h) :=
        match incoming with
        | None => (Some (Ok ()), d, h)
        | Some incoming => consumeIncoming incoming d h
        end in
      match consumed with
      | None => (None, d, h)
      | Some (Err err) => (Some (Err err), d, h)
      | Some (Ok _) =>
          if (sent <? 0) || (len outgoing <? sent) then (Some (Err invalid_count), d, h)
          else match queued with
               | None => (Some (Ok ()), d, h)
               | Some queued => let '(r, d) := advanceWrite queued sent d in (Some r, d, h)
               end
      end
  end.

(** [readLoop] against a transport that answers each pump in turn: the bytes
    handed over, the final state, and whether the loop returned. *)
Fixpoint readLoop (pumps : list PumpResult) (d : D) (h : H) : bool * D * H :=
  match readLoop_begin d with
  | (None, d) => (true, flushEvents d, h)
  | (Some (queued, outgoing), d) =>
      match pumps with
      | [] => (false, d, h)
      | pumped :: pumps =>
          match readLoop_rest queued outgoing pumped d h with
          | (Some (Ok _), d, h) => readLoop pumps d h
          | (Some (Err err), d, h) => (true, flushEvents (fail err d), h)
          | (None, d, h) => (false, d, h)
          end
      end
  end.

(** ** Exchange *)

Definition Exchange_begin (timeout : Z) (request : Frame) (d : D) : result Z * D :=
  if timeout <=? 0 then (Err (DispatcherError (txt "response timeout must be positive") None), d)
  else if negb (ready d) then (Err (DispatcherError (txt "guest serial protocol is not ready") None), d)
  else match failure d with
  | Some err => (Err err, d)
  | None =>
      if closing d then (Err closed_error, d)
      else
        let d := set_pendingResponse true d in
        let d := set_pendingRequestID (RequestID request) d in
        let d := set_pendingResponseType (Z.lor (MessageType request) 0x8000) d in
        (Ok (hostWindow d), set_response None d)
  end.

(** The deferred section of [Exchange]. *)
Definition Exchange_end (d : D) : D :=
  signalLocked (set_response None (set_pendingResponse false d)).

Definition Exchange_send (request : Frame) (d : D) : result Z * D :=
  match EncodeFrame request with
  | Err err => (Err err, d)
  | Ok encoded => queueWrite encoded tool_request (RequestID request) "" d
  end.

(** One iteration of the waiting loop under the lock: return, abort the exchange
    and return the error, or wait for a signal (or for the time remaining unless
    a host service is active). *)
Inductive PollOutcome :=
| PReturn (r : result Frame)
| PAbort (err : error)
| PWait (window deadline : Z) (active : bool) (remaining : Z).

Definition timeout_reason (transferExpired : bool) : text :=
  if transferExpired then txt "serial receive transfer deadline exceeded"
  else txt "timed out waiting for tool response".

Definition Exchange_poll (ctxErr : option error) (timeout requestID : Z) (window deadline : Z) (d : D)
  : PollOutcome * D :=
  match ctxErr with
  | Some err => (PAbort err, d)
  | None =>
  match failure d with
  | Some err => (PReturn (Err err), d)
  | None =>
  match response d with
  | Some response => (PReturn (Ok response), d)
  | None =>
      let active := negb (hostActive d =? 0) in
      let '(window, deadline, d) :=
        if negb (hostWindow d =? window) then
          let '(now, d) := time_now d in (hostWindow d, now + timeout, d)
        else (window, deadline, d) in
      let deadline :=
        match receiveUpdated d with
        | Some updated => if deadline <? updated + timeout then updated + timeout else deadline
        | None => deadline
        end in
      let '(waitDeadline, transferExpired) :=
        match receiveStarted d with
        | Some began =>
            if began + dispatcherReceiveLimit <? deadline
            then (began + dispatcherReceiveLimit, true) else (deadline, false)
        | None => (deadline, false)
        end in
      let '(now, d) := time_now d in
      let remaining := waitDeadline - now in
      if negb active && (remaining <=? 0) then
        let reason := timeout_reason transferExpired in
        let err := DispatcherError reason None in
        let d := set_failure (Some err) d in
        let d := recordLocked "serial_protocol_receive_aborted"
                   [("request_id", EInt requestID); ("bytes_received", EInt (receiveBytes d));
                    ("reason", EStr (String.string_of_list_byte (render quote reason)))]%string d in
        (PAbort err, d)
      else (PWait window deadline active remaining, d)
  end end end.

End Dispatcher.
