(* ===== verification/DispatcherProofs.v ===== *)
(** * The dispatcher under every interleaving

    A transition system whose steps are the critical sections of
    [Dispatcher], taken by the reader goroutine, by the one exchange that holds
    [exchangeMu], and by a closer; and what holds in all its reachable states:
    the write queue is well formed and bounded, output is the in-order
    concatenation of the accepted frames, host-service accounting is exact, and
    a returned response answers its request. *)

From S2P Require Import Prelude GoStd Framing Protocol Dispatcher.
Open Scope Z_scope.

(** ** States up to bookkeeping

    Events, signals, clock readings, progress marks, stall deadlines and
    terminal phases never influence the queue, the protocol state or the
    accounting: [quiet] erases them, and two states are equivalent when their
    erasures agree. *)
Definition erase (q : queuedSerialWrite) : queuedSerialWrite :=
  mkWrite (qdata q) (qkind q) (qrequestID q) (qscope q) (qoffset q) 0 None (qcomplete q) "".

Definition quiet (d : SerialProtocolDispatcher) : SerialProtocolDispatcher :=
  mkDispatcher (started d) (ready d) (closing d) (failure d) (cancelled d) (pendingResponse d)
    (pendingRequestID d) (pendingResponseType d) (response d) None None 0 0 (hostActive d)
    (hostWindow d) (startupBuffer d) (frameBuffer d) (diagnostic d) (erase <$> heap d) (nextPtr d)
    (writes d) (queuedBytes d) [] [] (serialClosed d) 0 O.

Definition equiv_d (d d' : SerialProtocolDispatcher) : Prop := quiet d = quiet d'.
Infix "≃" := equiv_d (at level 70).

#[global] Instance equiv_d_equiv : Equivalence equiv_d.
Proof. split; [by intros ?|by intros ??|]. intros ??? E1 E2. exact (eq_trans E1 E2). Qed.

Ltac quietly := unfold equiv_d, quiet; destruct_and?; simpl.

Lemma erase_idem q : erase (erase q) = erase q.
Proof. done. Qed.

Lemma fmap_alter_erase (f : queuedSerialWrite → queuedSerialWrite) p h :
  (∀ q, erase (f q) = erase q) → erase <$> alter f p h = erase <$> (h : gmap Z queuedSerialWrite).
Proof.
  intros Hf. apply map_eq. intros i. rewrite !lookup_fmap.
  destruct (decide (i = p)) as [->|Hne].
  - rewrite lookup_alter_eq. destruct (h !! p); simpl; [by rewrite Hf|done].
  - by rewrite lookup_alter_ne.
Qed.

Section Quiet.
Context (clock : nat → Z) (EventRecorder : bool).

Lemma quiet_signal d : signalLocked d ≃ d. Proof. done. Qed.
Lemma quiet_ticks n d : set_ticks n d ≃ d. Proof. done. Qed.

Lemma quiet_record e data d : recordLocked EventRecorder e data d ≃ d.
Proof. unfold recordLocked. by repeat case_goal. Qed.

Lemma quiet_flush d : flushEvents EventRecorder d ≃ d.
Proof. unfold flushEvents. by case_goal. Qed.

Lemma quiet_alter f p d : (∀ q, erase (f q) = erase q) → alterWrite f p d ≃ d.
Proof. intros Hf. unfold equiv_d, quiet, alterWrite. simpl. by rewrite fmap_alter_erase. Qed.

Lemma quiet_write_event p phase err d : recordWriteEventLocked EventRecorder p phase err d ≃ d.
Proof. unfold recordWriteEventLocked. destruct (heap d !! p); [apply quiet_record|done]. Qed.

Lemma quiet_terminal p phase err d : recordWriteTerminalLocked EventRecorder p phase err d ≃ d.
Proof.
  unfold recordWriteTerminalLocked. destruct (heap d !! p); [|done]. case_goal; [|done].
  etrans; [apply quiet_write_event|]. by apply quiet_alter.
Qed.

Lemma quiet_head_terminal phase err d : head_terminal EventRecorder phase err d ≃ d.
Proof. unfold head_terminal. destruct (writes d); [done|apply quiet_terminal]. Qed.

Lemma quiet_progress fuel p d : progressLoop EventRecorder fuel p d ≃ d.
Proof.
  revert d. induction fuel as [|fuel IH]; intros d; [done|]. simpl.
  repeat case_goal; try done. etrans; [apply IH|].
  etrans; [by apply quiet_alter|apply quiet_write_event].
Qed.
End Quiet.

(** ** The core of a state: what the theorems below are about *)
Record core_t := mkCore {
  k_heap : gmap Z queuedSerialWrite;
  k_next : Z;
  k_writes : list Z;
  k_bytes : Z;
  k_active : Z;
  k_failure : option error;
  k_closing : bool;
  k_id : Z;
  k_type : Z;
  k_response : option Frame
}.

Definition core (d : SerialProtocolDispatcher) : core_t :=
  mkCore (erase <$> heap d) (nextPtr d) (writes d) (queuedBytes d) (hostActive d) (failure d)
    (closing d) (pendingRequestID d) (pendingResponseType d) (response d).

Lemma fmap_erase_idem (h : gmap Z queuedSerialWrite) : erase <$> (erase <$> h) = erase <$> h.
Proof. rewrite <- map_fmap_compose. by apply map_fmap_ext. Qed.

#[global] Instance core_proper : Proper (equiv_d ==> eq) core.
Proof.
  intros d d' E. transitivity (core (quiet d)); [|rewrite E];
    unfold core, quiet; cbn; by rewrite fmap_erase_idem.
Qed.

Definition k_set_response (r : option Frame) (c : core_t) : core_t :=
  mkCore (k_heap c) (k_next c) (k_writes c) (k_bytes c) (k_active c) (k_failure c) (k_closing c)
    (k_id c) (k_type c) r.
Definition k_set_failure (f : option error) (c : core_t) : core_t :=
  mkCore (k_heap c) (k_next c) (k_writes c) (k_bytes c) (k_active c) f (k_closing c)
    (k_id c) (k_type c) (k_response c).
Definition k_set_active (n : Z) (c : core_t) : core_t :=
  mkCore (k_heap c) (k_next c) (k_writes c) (k_bytes c) n (k_failure c) (k_closing c)
    (k_id c) (k_type c) (k_response c).
Definition k_push (q : queuedSerialWrite) (c : core_t) : core_t :=
  mkCore (<[k_next c := q]> (k_heap c)) (k_next c + 1) (k_writes c ++ [k_next c])
    (k_bytes c + len (qdata q)) (k_active c) (k_failure c) (k_closing c)
    (k_id c) (k_type c) (k_response c).
Definition k_update (p : Z) (q : queuedSerialWrite) (c : core_t) : core_t :=
  mkCore (<[p := q]> (k_heap c)) (k_next c) (k_writes c) (k_bytes c) (k_active c) (k_failure c)
    (k_closing c) (k_id c) (k_type c) (k_response c).
Definition k_pop (size : Z) (c : core_t) : core_t :=
  mkCore (k_heap c) (k_next c) (tail (k_writes c)) (k_bytes c - size) (k_active c) (k_failure c)
    (k_closing c) (k_id c) (k_type c) (k_response c).

(** The first failure is the one that stays. *)
Definition k_or_failure (err : error) (c : core_t) : core_t :=
  match k_failure c with None => k_set_failure (Some err) c | Some _ => c end.

Definition k_finish_host (c : core_t) : core_t :=
  if 0 <? k_active c then k_set_active (k_active c - 1) c else c.

(** Close a goal about [core] from an equivalence of states. *)
Ltac by_core E :=
  apply core_proper in E; unfold k_or_failure, core in *; cbn in *;
  injection E; intros; repeat case_goal; cbn; congruence.

Section Effects.
Context (clock : nat → Z) (rec : bool).

Lemma finish_core d : core (finishHostServiceLocked d) = k_finish_host (core d).
Proof. unfold finishHostServiceLocked, k_finish_host. cbn. by case_goal. Qed.

Lemma queueWrite_core data kind id scope d r d' :
  queueWrite rec data kind id scope d = (r, d') →
  match r with
  | Ok p => k_failure (core d) = None ∧ k_closing (core d) = false ∧ p = k_next (core d)
            ∧ len (k_writes (core d)) < dispatcherMaxQueuedWrites
            ∧ k_bytes (core d) + len data <= dispatcherMaxQueuedBytes
            ∧ core d' = k_push (mkWrite data kind id scope 0 0 None false "") (core d)
  | Err _ => d' = d
  end.
Proof.
  unfold queueWrite. cbn. destruct (failure d) eqn:Ef; [by intros [= <- <-]|].
  destruct (closing d) eqn:Ec; [by intros [= <- <-]|].
  case_goal; intros [= <- <-]; zbool; [done|].
  split_and!; try done; try lia. rewrite quiet_flush.
  unfold k_push, core. cbn. by rewrite fmap_insert, Ef.
Qed.

Lemma close_core d :
  core (close rec d) =
  if k_closing (core d) then core d
  else let c := k_or_failure closed_error (core d) in
       mkCore (k_heap c) (k_next c) (k_writes c) (k_bytes c) (k_active c) (k_failure c) true
         (k_id c) (k_type c) (k_response c).
Proof.
  unfold close. cbn. destruct (closing d) eqn:Ec; cbn; [done|].
  set (d1 := head_terminal _ _ _ _).
  assert (E : d1 ≃ set_closing true d) by apply quiet_head_terminal.
  destruct (failure d1) eqn:E1; destruct (started _); cbn; by_core E.
Qed.

Lemma fail_core err d :
  core (fail rec err d) =
  if k_closing (core d) then core d
  else k_or_failure err (k_set_active (if k_active (core d) =? 0 then k_active (core d) else 0) (core d)).
Proof.
  unfold fail. cbn. destruct (closing d) eqn:Ec; [by rewrite quiet_flush|].
  rewrite quiet_flush, quiet_signal.
  set (d1 := head_terminal _ _ _ _).
  assert (E : d1 ≃ d) by apply quiet_head_terminal.
  apply core_proper in E. unfold k_or_failure, core in *. cbn in *. injection E. intros.
  assert (Ef : failure d1 = failure d) by congruence. assert (Ea : hostActive d1 = hostActive d) by congruence.
  rewrite Ea. destruct (hostActive d =? 0); cbn; rewrite Ef; destruct (failure d); cbn;
    unfold k_set_active, k_set_failure; cbn; congruence.
Qed.

Lemma abort_core err d : core (abortExchange rec err d) = k_or_failure err (core d).
Proof.
  unfold abortExchange. rewrite quiet_flush.
  set (d0 := match failure d with None => _ | Some _ => _ end).
  set (d1 := head_terminal _ _ _ _).
  assert (E : d1 ≃ d0) by apply quiet_head_terminal.
  transitivity (core d0); [destruct (started _); cbn; by_core E|].
  unfold d0, k_or_failure. cbn. by destruct (failure d).
Qed.

Lemma Exchange_begin_err timeout request d err d' : Exchange_begin timeout request d = (Err err, d') → d' = d.
Proof.
  unfold Exchange_begin.
  destruct (timeout <=? 0), (negb (ready d)), (failure d), (closing d); congruence.
Qed.

(** What the reader takes before it pumps. *)
Lemma readLoop_begin_core d r d' :
  readLoop_begin clock rec d = (r, d') →
  core d' = core d
  ∧ match r with
    | None => closing d = true
    | Some (None, outgoing) => writes d = [] ∧ outgoing = []
    | Some (Some p, outgoing) =>
        (∃ ws, writes d = p :: ws)
        ∧ (∀ q, k_heap (core d) !! p = Some q →
             outgoing `prefix_of` dropZ (qoffset q) (qdata q))
    end.
Proof.
  unfold readLoop_begin. destruct (closing d) eqn:Ec; [by intros [= <- <-]|].
  destruct (writes d) as [|p ws] eqn:Ew; [intros [= <- <-]; by rewrite quiet_flush|].
  assert (Eh : k_heap (core d) !! p = erase <$> heap d !! p) by apply lookup_fmap.
  destruct (heap d !! p) as [q|] eqn:Eq; intros [= <- <-]; rewrite quiet_flush, Eh; [|naive_solver].
  split.
  - destruct (qstallDeadline q); [done|]. rewrite quiet_write_event. by rewrite quiet_alter.
  - split; [by eexists|]. intros ? [= <-]. cbn. unfold slice.
    apply prefix_take.
Qed.

(** The completion section of [advanceWrite], from a state whose head write has
    just reached its end. *)
Lemma complete_core p ws q d0 d :
  writes d0 = p :: ws → core d = k_update p q (core d0) →
  core (flushEvents rec (signalLocked
    (let d := set_writes ws d in
     let d := set_queuedBytes (queuedBytes d - len (qdata q)) d in
     let d := alterWrite (set_qcomplete true) p d in
     let d := recordWriteTerminalLocked rec p "write_completed" "" d in
     if decide (qkind q = host_response) then finishHostServiceLocked d else d)))
  = let c := k_pop (len (qdata q)) (k_update p (set_qcomplete true q) (core d0)) in
    if decide (qkind q = host_response) then k_finish_host c else c.
Proof.
  intros Ew E. rewrite quiet_flush, quiet_signal. cbn zeta.
  set (d1 := recordWriteTerminalLocked _ _ _ _ _).
  assert (E1 : core d1 = k_pop (len (qdata q)) (k_update p (set_qcomplete true q) (core d0))).
  { unfold d1. rewrite quiet_terminal. unfold k_pop, k_update, core in *. cbn in *.
    injection E. intros. rewrite Ew. cbn. f_equal; try congruence.
    apply map_eq. intros i. rewrite lookup_fmap.
    assert (Eh := lookup_fmap erase (heap d) i).
    destruct (decide (i = p)) as [->|].
    - rewrite lookup_alter_eq, lookup_insert_eq.
      replace (erase <$> heap d) with (<[p:=q]> (erase <$> heap d0)) in Eh by congruence.
      rewrite lookup_insert_eq in Eh.
      destruct (heap d !! p); [|done]. injection Eh as ->. done.
    - rewrite lookup_alter_ne, lookup_insert_ne by done. rewrite <- lookup_fmap.
      replace (erase <$> heap d) with (<[p:=q]> (erase <$> heap d0)) by congruence.
      by rewrite lookup_insert_ne. }
  case_decide; [by rewrite finish_core, E1|done].
Qed.

(** Sending: the head write advances, completes, or has stalled. *)
Lemma advanceWrite_core p ws q count d r d' :
  writes d = p :: ws → k_heap (core d) !! p = Some q →
  advanceWrite clock rec p count d = (r, d') →
  let q' := set_qoffset (qoffset q + count) q in
  (∃ err, r = Err err ∧ core d' = core d)
  ∨ (r = Ok () ∧ qoffset q' ≠ len (qdata q) ∧ core d' = k_update p q' (core d))
  ∨ (r = Ok () ∧ qoffset q' = len (qdata q)
     ∧ let c := k_pop (len (qdata q)) (k_update p (set_qcomplete true q') (core d)) in
       core d' = if decide (qkind q = host_response) then k_finish_host c else c).
Proof.
  intros Ew Eq. unfold advanceWrite. rewrite Ew, Z.eqb_refl. cbn -[progressLoop].
  assert (Eh := lookup_fmap erase (heap d) p). cbn in Eq. rewrite Eq in Eh.
  destruct (heap d !! p) as [qr|] eqn:Er; [|done]. injection Eh as Eqr. subst q. cbn -[progressLoop].
  destruct (count =? 0) eqn:Ec; cbn -[progressLoop].
  - assert (count = 0) as -> by lia.
    assert (Eid : k_update p (set_qoffset (qoffset qr + 0) (erase qr)) (core d) = core d).
    { unfold k_update, core. cbn. rewrite Z.add_0_r.
      by rewrite insert_id by (by rewrite lookup_fmap, Er). }
    destruct (match qstallDeadline qr with Some _ => _ | None => _ end) as [[] d1] eqn:Ed.
    + intros [= <- <-]. left. eexists. split; [done|].
      rewrite quiet_flush, quiet_terminal. by destruct (qstallDeadline qr); simplify_eq.
    + assert (d1 = set_ticks (S (ticks d)) d) as -> by (by destruct (qstallDeadline qr); simplify_eq).
      case_goal; intros [= <- <-]; zbool; right; [left|right]; (split; [done|]); (split; [done|]).
      * by rewrite quiet_flush, quiet_ticks, Eid.
      * refine (complete_core p ws (set_qoffset (qoffset qr + 0) (erase qr)) d _ Ew _). by rewrite Eid.
  - match goal with
    | |- context [flushEvents rec (if ?c then progressLoop rec ?f p ?x else ?y)] =>
        set (d1 := if c then progressLoop rec f p x else y)
    end.
    assert (E1 : core d1 = k_update p (set_qoffset (qoffset qr + count) (erase qr)) (core d)).
    { transitivity (core (alterWrite (λ q : queuedSerialWrite,
         set_qstallDeadline (Some (clock (ticks d) + dispatcherWriteStall)) (set_qoffset (qoffset q + count) q)) p
         (set_ticks (S (ticks d)) d))).
      - unfold d1. by case_decide; rewrite ?quiet_progress.
      - unfold k_update, core, alterWrite. cbn. f_equal. apply map_eq. intros i.
        destruct (decide (i = p)) as [->|]; rewrite lookup_fmap.
        + by rewrite lookup_alter_eq, Er, lookup_insert_eq.
        + by rewrite lookup_alter_ne, lookup_insert_ne, lookup_fmap. }
    clearbody d1.
    case_goal; intros [= <- <-]; zbool; right; [left|right]; (split; [done|]); (split; [done|]).
    + by rewrite quiet_flush.
    + exact (complete_core p ws (set_qoffset (qoffset qr + count) (erase qr)) d d1 Ew E1).
Qed.

Lemma track_core d r d' :
  trackReceiveLocked clock rec d = (r, d') →
  core d' = core d ∧ frameBuffer d' = frameBuffer d ∧ pendingResponse d' = pendingResponse d
  ∧ (∀ u, r = Ok u → ∃ h, trackHeader (frameBuffer d) d = Ok h).
Proof.
  unfold trackReceiveLocked. destruct (trackHeader _ d) as [[[mt id] total]|err] eqn:Et;
    [|by intros [= <- <-]].
  case_goal; [intros [= <- <-]; eauto|]. intros [= <- <-].
  split; [|split; [|split]]; [| | |by eauto].
  all: destruct (receiveStarted d); cbn; case_goal; cbn; rewrite ?quiet_record; unfold recordLocked; repeat case_goal; done.
Qed.

(** A frame that passed [trackReceiveLocked] and is not a host-service request
    answers the pending request. *)
Lemma tracked_frame d h frame rest :
  trackHeader (frameBuffer d) d = Ok h →
  ExtractFrame (frameBuffer d) = (Ok (Some frame), rest) →
  MessageType frame ≠ HostServiceRequest →
  RequestID frame = pendingRequestID d ∧ MessageType frame = pendingResponseType d.
Proof.
  unfold trackHeader, ExtractFrame. intros Ht He Hm.
  case_in He; [done|]. case_in He; [done|]. zbool.
  rewrite (proj2 (Z.leb_le _ _)) in Ht by lia.
  destruct (decodeHeader _) as [[[mt id] n]|]; [|done]. cbn in Ht.
  case_in He; [done|]. injection He as <- <-. cbn in *.
  rewrite (proj2 (Z.eqb_neq _ _) Hm) in Ht.
  repeat (case_in Ht; [done|]). zbool. done.
Qed.
End Effects.

(** The invariant of the response slot. *)
Definition answers (c : core_t) : Prop :=
  ∀ f, k_response c = Some f → RequestID f = k_id c ∧ MessageType f = k_type c.

Section Consuming.
Context (clock : nat → Z) (rec : bool) {H : Type}.
Context (SHS BHS EHS : option (H → HostRequest → HandlerOutcome * bool * H)).

(** Consuming bytes only ever fills the response slot, with an answer. *)
Lemma consumeFrames_body_core d c d' :
  consumeFrames_body clock BHS EHS rec d = (c, d') →
  c ≠ CFrames ∧
  (core d' = core d
   ∨ ∃ f, core d' = k_set_response (Some f) (core d) ∧ answers (core d')).
Proof.
  unfold consumeFrames_body. destruct (failure d) eqn:Ef; [intros [= <- <-]; auto|].
  destruct (trackReceiveLocked clock rec d) as [r d1] eqn:Et.
  apply track_core in Et as (E1 & Eb & Ep & Eh).
  destruct r as [[]|err]; [|intros [= <- <-]; auto].
  destruct (Eh () eq_refl) as [hd Ehd]. rewrite Eb.
  destruct (ExtractFrame (frameBuffer d)) as [r b] eqn:Ex.
  destruct r as [[frame|]|err]; cbn -[recordLocked flushEvents];
    [|intros [= <- <-]; rewrite quiet_flush; auto|intros [= <- <-]; auto].
  case_goal; [by case_goal; intros [= <- <-]; auto|].
  case_goal; intros [= <- <-]; (split; [done|]); [auto|right].
  exists frame. rewrite quiet_flush, quiet_signal, quiet_record.
  assert (E2 : core (set_response (Some frame) (set_pendingResponse false (clearReceive (set_frameBuffer b d1))))
               = k_set_response (Some frame) (core d)) by (rewrite <- E1; done).
  split; [exact E2|]. rewrite E2. intros f [= <-]. cbn.
  apply (tracked_frame d hd frame b Ehd Ex). by apply Z.eqb_neq.
Qed.

Lemma consumeStartup_body_core d c d' :
  consumeStartup_body SHS d = (c, d') → core d' = core d.
Proof.
  unfold consumeStartup_body. destruct (startupBuffer d) eqn:Eb; [by intros [= <- <-]|].
  destruct (strings.HasPrefix _ ReadyMarker); [by intros [= <- <-]|].
  destruct (strings.HasPrefix _ frameMagic && _).
  - destruct (ExtractFrame _) as [[[f|]|] ?]; cbn; try (by intros [= <- <-]).
    case_goal; by intros [= <- <-].
  - destruct (strings.HasPrefix ReadyMarker _ || _); [by intros [= <- <-]|].
    intros [= <- <-]. by case_goal.
Qed.

Lemma host_begin_core frame scope d :
  core (host_begin rec frame scope d) = k_set_active (k_active (core d) + 1) (core d).
Proof. unfold host_begin. by rewrite quiet_flush, quiet_signal, quiet_record. Qed.

Lemma host_answer_core quote frame handler d (h : H) answer d' h' :
  host_answer quote rec frame handler d h = (answer, d', h') →
  core d' = core d ∨ core d' = core (close rec d).
Proof.
  unfold host_answer, callHostServiceHandler.
  destruct (DecodeHostServiceRequest frame); [|case_goal; intros [= <- <- <-]; auto].
  destruct handler as [f|]; [|intros [= <- <- <-]; auto].
  destruct (f h a) as [[o c] hn]. cbn.
  destruct o as [[]|]; intros [= <- <- <-]; destruct c; auto.
Qed.

Lemma host_finish_core answer scope d r d' :
  host_finish rec answer scope d = (r, d') →
  match r with
  | Err _ => core d' = k_finish_host (core d)
  | Ok _ => ∃ response encoded, answer = Ok response ∧ EncodeFrame response = Ok encoded
      ∧ k_failure (core d) = None ∧ k_closing (core d) = false
      ∧ len (k_writes (core d)) < dispatcherMaxQueuedWrites
      ∧ k_bytes (core d) + len encoded <= dispatcherMaxQueuedBytes
      ∧ core d' = k_push (mkWrite encoded host_response (RequestID response) scope 0 0 None false "") (core d)
  end.
Proof.
  unfold host_finish. destruct answer as [response|err]; cbn -[record queueWrite finishHostService];
    [|intros [= <- <-]; apply finish_core].
  destruct (EncodeFrame response) as [encoded|err] eqn:Ee; cbn -[record queueWrite finishHostService];
    [|intros [= <- <-]; apply finish_core].
  set (d1 := record _ _ _ _). assert (E1 : core d1 = core d).
  { unfold d1, record. by rewrite quiet_flush, quiet_record. }
  destruct (queueWrite _ _ _ _ _ d1) as [[p|err] d2] eqn:Eq; intros [= <- <-];
    apply queueWrite_core in Eq.
  - rewrite E1 in Eq. exists response, encoded. tauto.
  - subst d2. unfold finishHostService. by rewrite finish_core, E1.
Qed.

Lemma Exchange_poll_core quote ctxErr timeout id window deadline d o d' :
  Exchange_poll clock quote rec ctxErr timeout id window deadline d = (o, d') →
  core d' = core d ∨ ∃ err, o = PAbort err ∧ k_active (core d) = 0 ∧ core d' = k_set_failure (Some err) (core d).
Proof.
  unfold Exchange_poll. destruct ctxErr; [intros [= <- <-]; auto|].
  destruct (failure d); [intros [= <- <-]; auto|].
  destruct (response d); [intros [= <- <-]; auto|].
  destruct (if negb (hostWindow d =? window) then _ else _) as [[w dl] d1] eqn:E1.
  assert (Ed1 : core d1 = core d) by (by case_in E1; cbn in E1; injection E1 as _ _ <-).
  cbn -[recordLocked]. destruct (match receiveStarted d1 with Some _ => _ | None => _ end) as [wd te].
  destruct (hostActive d =? 0) eqn:Ea; cbn -[recordLocked]; [|intros [= <- <-]; auto].
  case_goal; intros [= <- <-]; [right|auto]. eexists. split; [done|]. zbool. split; [done|].
  rewrite quiet_record, <- Ed1. done.
Qed.
End Consuming.

(** ** The transition system *)

(** The write in flight of the reader: the head write it took, the chunk it
    offered to the transport and the count the transport accepted. *)
Record flight := mkFlight { fqueued : option Z; foutgoing : bytes; fsent : Z }.

Inductive mode := Startup | Frames.

(** Where the reader goroutine stands between two critical sections. *)
Inductive reader {H : Type} :=
| RNone
| RTop
| RPump (queued : option Z) (outgoing : bytes)
| RConsume (m : mode) (k : flight)
| RHostBegin (frame : Frame) (handler : option (H → HostRequest → HandlerOutcome * bool * H))
    (scope : string) (m : mode) (k : flight)
| RHostCall (frame : Frame) (handler : option (H → HostRequest → HandlerOutcome * bool * H))
    (scope : string) (m : mode) (k : flight)
| RHostFinish (answer : result Frame) (scope : string) (m : mode) (k : flight)
| RAdvance (k : flight)
| RFail (err : error) (k : flight)
| RDone (k : flight).
Arguments reader H : clear implicits.

(** Where the exchange stands; the constructors carry its local variables. *)
Inductive exchange :=
| XIdle
| XBegun (request : Frame) (timeout window : Z)
| XWriting (request : Frame) (timeout window : Z) (queued : Z)
| XWaiting (request : Frame) (timeout window deadline : Z)
| XAborting (request : Frame) (err : error)
| XReturned (request : Frame) (r : result Frame).

(** [sent] is every byte the transport accepted, [accepted] the concatenation of
    every write that [queueWrite] accepted; both are history, not program state. *)
Record sys (H : Type) := mkSys {
  disp : SerialProtocolDispatcher;
  hs : H;
  pc : reader H;
  xc : exchange;
  sent : bytes;
  accepted : bytes
}.
Arguments mkSys {H} disp hs pc xc sent accepted.
Arguments disp {H} _.
Arguments hs {H} _.
Arguments pc {H} _.
Arguments xc {H} _.
Arguments sent {H} _.
Arguments accepted {H} _.

Section System.
Context (clock : nat → Z) (quote : bytes → bytes) {H : Type}.
Abbreviation Handler := (H → HostRequest → HandlerOutcome * bool * H).
Context (SHS BHS EHS : option Handler) (rec : bool).

Definition no_flight : flight := mkFlight None [] 0.

(** What a consumption loop's locked section leads to. *)
Definition after_consume (m : mode) (k : flight) (c : ConsumeStep (H := H)) : reader H :=
  match c with
  | CReturn (Ok _) => RAdvance k
  | CReturn (Err err) => RFail err k
  | CLoop => RConsume m k
  | CDispatch frame handler scope => RHostBegin frame handler scope m k
  | CFrames => RConsume Frames k
  end.

Definition consume_body (m : mode) (d : SerialProtocolDispatcher) : ConsumeStep * SerialProtocolDispatcher :=
  match m with
  | Startup => consumeStartup_body SHS d
  | Frames => consumeFrames_body clock BHS EHS rec d
  end.

(** The bytes a successful host answer adds to the output. *)
Definition answer_bytes (answer : result Frame) : bytes :=
  match answer with
  | Ok response => match EncodeFrame response with Ok encoded => encoded | Err _ => [] end
  | Err _ => []
  end.

Inductive step : sys H → sys H → Prop :=
(* the reader goroutine *)
| step_start d h x s a isready d' :
    start isready d = (Ok (), d') →
    step (mkSys d h RNone x s a) (mkSys d' h RTop x s a)
| step_top_return d h x s a d' :
    readLoop_begin clock rec d = (None, d') →
    step (mkSys d h RTop x s a) (mkSys (flushEvents rec d') h (RDone no_flight) x s a)
| step_top d h x s a queued outgoing d' :
    readLoop_begin clock rec d = (Some (queued, outgoing), d') →
    step (mkSys d h RTop x s a) (mkSys d' h (RPump queued outgoing) x s a)
| step_pump_error d h x s a queued outgoing err :
    step (mkSys d h (RPump queued outgoing) x s a) (mkSys d h (RFail err no_flight) x s a)
| step_pump_quiet d h x s a queued outgoing count :
    step (mkSys d h (RPump queued outgoing) x s a)
         (mkSys d h (RAdvance (mkFlight queued outgoing count)) x (s ++ takeZ count outgoing) a)
| step_pump_incoming d h x s a queued outgoing incoming count :
    step (mkSys d h (RPump queued outgoing) x s a)
         (mkSys (appendIncoming incoming d) h
            (RConsume (if ready d then Frames else Startup) (mkFlight queued outgoing count)) x
            (s ++ takeZ count outgoing) a)
| step_consume d h x s a m k c d' :
    consume_body m d = (c, d') →
    step (mkSys d h (RConsume m k) x s a) (mkSys d' h (after_consume m k c) x s a)
| step_host_begin d h x s a frame handler scope m k :
    step (mkSys d h (RHostBegin frame handler scope m k) x s a)
         (mkSys (host_begin rec frame scope d) h (RHostCall frame handler scope m k) x s a)
| step_host_call d h x s a frame handler scope m k answer d' h' :
    host_answer quote rec frame handler d h = (answer, d', h') →
    step (mkSys d h (RHostCall frame handler scope m k) x s a)
         (mkSys d' h' (RHostFinish answer scope m k) x s a)
| step_host_queued d h x s a answer scope m k d' :
    host_finish rec answer scope d = (Ok (), d') →
    step (mkSys d h (RHostFinish answer scope m k) x s a)
         (mkSys d' h (RConsume m k) x s (a ++ answer_bytes answer))
| step_host_failed d h x s a answer scope m k err d' :
    host_finish rec answer scope d = (Err err, d') →
    step (mkSys d h (RHostFinish answer scope m k) x s a) (mkSys d' h (RFail err k) x s a)
| step_advance_invalid d h x s a k :
    fsent k < 0 ∨ len (foutgoing k) < fsent k →
    step (mkSys d h (RAdvance k) x s a) (mkSys d h (RFail invalid_count k) x s a)
| step_advance_none d h x s a k :
    0 ≤ fsent k ≤ len (foutgoing k) → fqueued k = None →
    step (mkSys d h (RAdvance k) x s a) (mkSys d h RTop x s a)
| step_advance d h x s a k p d' :
    0 ≤ fsent k ≤ len (foutgoing k) → fqueued k = Some p →
    advanceWrite clock rec p (fsent k) d = (Ok (), d') →
    step (mkSys d h (RAdvance k) x s a) (mkSys d' h RTop x s a)
| step_advance_failed d h x s a k p err d' :
    0 ≤ fsent k ≤ len (foutgoing k) → fqueued k = Some p →
    advanceWrite clock rec p (fsent k) d = (Err err, d') →
    step (mkSys d h (RAdvance k) x s a) (mkSys d' h (RFail err k) x s a)
| step_fail d h x s a err k :
    step (mkSys d h (RFail err k) x s a) (mkSys (flushEvents rec (fail rec err d)) h (RDone k) x s a)
(* the exchange *)
| step_exchange_begin d h r s a timeout request window d' :
    Exchange_begin timeout request d = (Ok window, d') →
    step (mkSys d h r XIdle s a) (mkSys d' h r (XBegun request timeout window) s a)
| step_exchange_refused d h r s a timeout request err d' :
    Exchange_begin timeout request d = (Err err, d') →
    step (mkSys d h r XIdle s a) (mkSys d' h r XIdle s a)
| step_exchange_send d h r s a request timeout window p d' :
    Exchange_send rec request d = (Ok p, d') →
    step (mkSys d h r (XBegun request timeout window) s a)
         (mkSys d' h r (XWriting request timeout window p) s (a ++ answer_bytes (Ok request)))
| step_exchange_unsent d h r s a request timeout window err d' :
    Exchange_send rec request d = (Err err, d') →
    step (mkSys d h r (XBegun request timeout window) s a) (mkSys d' h r (XReturned request (Err err)) s a)
| step_exchange_written d h r s a request timeout window p now d' :
    waitForWrite_poll p d = Some (Ok ()) → time_now clock d = (now, d') →
    step (mkSys d h r (XWriting request timeout window p) s a)
         (mkSys d' h r (XWaiting request timeout window (now + timeout)) s a)
| step_exchange_write_error d h r s a request timeout window p err :
    waitForWrite_poll p d = Some (Err err) →
    step (mkSys d h r (XWriting request timeout window p) s a) (mkSys d h r (XReturned request (Err err)) s a)
| step_exchange_write_cancelled d h r s a request timeout window p err :
    step (mkSys d h r (XWriting request timeout window p) s a) (mkSys d h r (XAborting request err) s a)
| step_exchange_return d h r s a request timeout window deadline ctxErr res d' :
    Exchange_poll clock quote rec ctxErr timeout (RequestID request) window deadline d = (PReturn res, d') →
    step (mkSys d h r (XWaiting request timeout window deadline) s a) (mkSys d' h r (XReturned request res) s a)
| step_exchange_abort d h r s a request timeout window deadline ctxErr err d' :
    Exchange_poll clock quote rec ctxErr timeout (RequestID request) window deadline d = (PAbort err, d') →
    step (mkSys d h r (XWaiting request timeout window deadline) s a) (mkSys d' h r (XAborting request err) s a)
| step_exchange_wait d h r s a request timeout window deadline ctxErr window' deadline' active remaining d' :
    Exchange_poll clock quote rec ctxErr timeout (RequestID request) window deadline d
      = (PWait window' deadline' active remaining, d') →
    step (mkSys d h r (XWaiting request timeout window deadline) s a)
         (mkSys d' h r (XWaiting request timeout window' deadline') s a)
| step_exchange_cancelled d h r s a request timeout window deadline err :
    step (mkSys d h r (XWaiting request timeout window deadline) s a) (mkSys d h r (XAborting request err) s a)
| step_exchange_aborted d h r s a request err :
    step (mkSys d h r (XAborting request err) s a)
         (mkSys (abortExchange rec err d) h r (XReturned request (Err err)) s a)
| step_exchange_end d h r s a request res :
    step (mkSys d h r (XReturned request res) s a) (mkSys (Exchange_end d) h r XIdle s a)
(* any other goroutine *)
| step_close d h r x s a : step (mkSys d h r x s a) (mkSys (close rec d) h r x s a)
| step_flush d h r x s a : step (mkSys d h r x s a) (mkSys (flushEvents rec d) h r x s a).

Definition initial (h : H) : sys H := mkSys NewSerialProtocolDispatcher h RNone XIdle [] [].

Definition reachable (h : H) (y : sys H) : Prop := rtc step (initial h) y.

(** ** The invariant *)

Definition total (qs : list queuedSerialWrite) : Z := foldr (λ q n, len (qdata q) + n) 0 qs.

(** What is still to be sent of the queued writes. *)
Definition unsent (qs : list queuedSerialWrite) : bytes := qs ≫= λ q, dropZ (qoffset q) (qdata q).

(** The part of the head write already sent. *)
Definition started_part (qs : list queuedSerialWrite) : bytes :=
  match qs with q :: _ => takeZ (qoffset q) (qdata q) | [] => [] end.

Definition host_writes (qs : list queuedSerialWrite) : Z :=
  len (filter (λ q, qkind q = host_response) qs).

(** [qs] is the queue behind the pointers, and it is well formed. *)
Record queue_at (c : core_t) (qs : list queuedSerialWrite) : Prop := {
  qa_deref : Forall2 (λ p q, k_heap c !! p = Some q) (k_writes c) qs;
  qa_nodup : NoDup (k_writes c);
  qa_fresh : ∀ p, is_Some (k_heap c !! p) → p < k_next c;
  qa_bytes : k_bytes c = total qs;
  qa_bound : k_bytes c ≤ dispatcherMaxQueuedBytes;
  qa_count : len (k_writes c) ≤ dispatcherMaxQueuedWrites;
  qa_open : Forall (λ q, qcomplete q = false ∧ 0 ≤ qoffset q ≤ len (qdata q)) qs;
  qa_untouched : Forall (λ q, qoffset q = 0) (tail qs)
}.

Definition flight_of (r : reader H) : flight :=
  match r with
  | RNone | RTop => no_flight
  | RPump queued outgoing => mkFlight queued outgoing 0
  | RConsume _ k | RHostBegin _ _ _ _ k | RHostCall _ _ _ _ k | RHostFinish _ _ _ k
  | RAdvance k | RFail _ k | RDone k => k
  end.

Definition inflight (r : reader H) : bytes := takeZ (fsent (flight_of r)) (foutgoing (flight_of r)).

(** The chunk in flight is the front of what the head write has left. *)
Definition flight_ok (k : flight) (ws : list Z) (qs : list queuedSerialWrite) : Prop :=
  match fqueued k with
  | None => foutgoing k = []
  | Some p => ∃ ws' q qs', ws = p :: ws' ∧ qs = q :: qs'
                ∧ foutgoing k `prefix_of` dropZ (qoffset q) (qdata q)
  end.

(** A host service runs on the reader between its begin and its finish. *)
Definition serving (r : reader H) : Z :=
  match r with RHostCall _ _ _ _ _ | RHostFinish _ _ _ _ => 1 | _ => 0 end.

Definition matches (request f : Frame) : Prop :=
  RequestID f = RequestID request ∧ MessageType f = Z.lor (MessageType request) 0x8000.

(** The whole encoding of the request has been handed to the transport. *)
Definition delivered (base : bytes) (request : Frame) : Prop :=
  ∃ pre encoded post, EncodeFrame request = Ok encoded ∧ base = pre ++ encoded ++ post.

Definition exchange_ok (x : exchange) (base : bytes) (c : core_t) : Prop :=
  let pending request := k_id c = RequestID request ∧ k_type c = Z.lor (MessageType request) 0x8000 in
  match x with
  | XIdle | XAborting _ _ | XReturned _ (Err _) => True
  | XBegun request _ _ => pending request
  | XWriting request _ _ p =>
      pending request ∧ ∃ q, k_heap c !! p = Some q ∧ EncodeFrame request = Ok (qdata q)
  | XWaiting request _ _ _ => pending request ∧ delivered base request
  | XReturned request (Ok f) => matches request f ∧ delivered base request
  end.

Record inv_at (y : sys H) (qs : list queuedSerialWrite) (base before : bytes) : Prop := {
  i_queue : queue_at (core (disp y)) qs;
  i_accepted : accepted y = base ++ unsent qs;
  i_sent : sent y = base ++ inflight (pc y);
  i_base : base = before ++ started_part qs;
  i_complete : ∀ p q, k_heap (core (disp y)) !! p = Some q → qcomplete q = true →
                 ∃ pre post, before = pre ++ qdata q ++ post;
  i_flight : flight_ok (flight_of (pc y)) (k_writes (core (disp y))) qs;
  i_active : k_failure (core (disp y)) = None →
               k_active (core (disp y)) = host_writes qs + serving (pc y);
  i_closing : k_closing (core (disp y)) = true → k_failure (core (disp y)) ≠ None;
  i_answers : answers (core (disp y));
  i_exchange : exchange_ok (xc y) base (core (disp y))
}.

Definition inv (y : sys H) : Prop := ∃ qs base before, inv_at y qs base before.

(** ** Preservation *)

(** Steps that leave the core and the history alone. *)
Lemma inv_frame y y' qs base before :
  inv_at y qs base before →
  core (disp y') = core (disp y) → accepted y' = accepted y → sent y' = base ++ inflight (pc y') →
  flight_ok (flight_of (pc y')) (k_writes (core (disp y))) qs →
  serving (pc y') = serving (pc y) → exchange_ok (xc y') base (core (disp y)) →
  inv y'.
Proof.
  intros [] Ec Ea Es Ef Ev Ex. exists qs, base, before.
  split; rewrite ?Ec, ?Ev; auto. congruence.
Qed.

(** Steps that change only accounting, failure, closing and the response slot. *)
Lemma inv_control y y' qs base before :
  inv_at y qs base before →
  let c := core (disp y) in let c' := core (disp y') in
  k_heap c' = k_heap c → k_next c' = k_next c → k_writes c' = k_writes c → k_bytes c' = k_bytes c →
  (k_failure c' = None → k_failure c = None ∧ k_active c' + serving (pc y) = k_active c + serving (pc y')) →
  (k_closing c' = true → k_failure c' ≠ None) →
  answers c' → accepted y' = accepted y → sent y' = sent y → flight_of (pc y') = flight_of (pc y) →
  exchange_ok (xc y') base c' → inv y'.
Proof.
  intros [[]] c c' Eh En Ew Eb Ha Hc Hr Ea Es Ef Hx. exists qs, base, before. subst c c'.
  unfold inflight in *.
  split; [split|..]; unfold inflight; rewrite ?Eh, ?En, ?Ew, ?Eb, ?Ef, ?Ea, ?Es; auto.
  intros Hf. destruct (Ha Hf) as [Hf0 Hk]. rewrite (i_active0 Hf0) in Hk. lia.
Qed.

#[local] Arguments total : simpl never.
#[local] Arguments unsent : simpl never.
#[local] Arguments host_writes : simpl never.

Lemma total_app qs q : total (qs ++ [q]) = total qs + len (qdata q).
Proof. unfold total. induction qs as [|x qs IH]; cbn; [lia|]. rewrite IH. lia. Qed.

Lemma host_writes_app qs q :
  host_writes (qs ++ [q]) = host_writes qs + (if decide (qkind q = host_response) then 1 else 0).
Proof.
  unfold host_writes. rewrite filter_app, len_app. f_equal.
  rewrite filter_cons. by case_decide.
Qed.

Lemma host_writes_cons q qs :
  host_writes (q :: qs) = (if decide (qkind q = host_response) then 1 else 0) + host_writes qs.
Proof. unfold host_writes. rewrite filter_cons. case_decide; [by rewrite len_cons|done]. Qed.

Lemma host_writes_nonneg qs : 0 ≤ host_writes qs.
Proof. apply len_nonneg. Qed.

Lemma deref_fresh c qs : queue_at c qs → k_heap c !! k_next c = None.
Proof.
  intros []. destruct (k_heap c !! k_next c) eqn:E; [|done].
  specialize (qa_fresh0 (k_next c)). rewrite E in qa_fresh0. destruct (Z.lt_irrefl (k_next c)). by apply qa_fresh0.
Qed.

Lemma queue_push c qs q :
  queue_at c qs → qoffset q = 0 → qcomplete q = false →
  len (k_writes c) < dispatcherMaxQueuedWrites → k_bytes c + len (qdata q) ≤ dispatcherMaxQueuedBytes →
  queue_at (k_push q c) (qs ++ [q]).
Proof.
  intros Hq Ho Hc Hn Hb. pose proof (deref_fresh c qs Hq) as Hf. destruct Hq.
  assert (Hne : ∀ p q', k_heap c !! p = Some q' → p ≠ k_next c) by congruence.
  split; cbn.
  - apply Forall2_app; [|by constructor; [by rewrite lookup_insert_eq|]].
    eapply Forall2_impl; [done|]. intros p q' Hp. cbn. rewrite lookup_insert_ne; [done|]. by apply not_eq_sym, (Hne p q').
  - apply NoDup_app. split; [done|]. split; [|apply NoDup_singleton].
    intros p Hp ->%list_elem_of_singleton.
    apply list_elem_of_lookup in Hp as [i Hi].
    destruct (Forall2_lookup_l _ _ _ _ _ qa_deref0 Hi) as (q' & _ & Hq'). congruence.
  - intros p [q' Hp]. destruct (decide (p = k_next c)) as [->|]; [lia|].
    rewrite lookup_insert_ne in Hp by done. specialize (qa_fresh0 p (ex_intro _ q' Hp)). lia.
  - rewrite total_app. lia.
  - done.
  - rewrite len_app. unfold len at 2. cbn. lia.
  - apply Forall_app. split; [done|]. constructor; [|done]. pose proof (len_nonneg (qdata q)). split; [done|lia].
  - destruct qs; cbn; [done|]. apply Forall_app. auto.
Qed.

Lemma unsent_app qs q : qoffset q = 0 → unsent (qs ++ [q]) = unsent qs ++ qdata q.
Proof. intros Ho. unfold unsent. rewrite bind_app. cbn. by rewrite Ho, dropZ_0, app_nil_r. Qed.

Lemma started_app qs q : qoffset q = 0 → started_part (qs ++ [q]) = started_part qs.
Proof. intros Ho. destruct qs; cbn; [by rewrite Ho|done]. Qed.

Lemma flight_app k ws qs p q : flight_ok k ws qs → flight_ok k (ws ++ [p]) (qs ++ [q]).
Proof.
  unfold flight_ok. destruct (fqueued k); [|done].
  intros (ws' & q' & qs' & -> & -> & ?). by exists (ws' ++ [p]), q', (qs' ++ [q]).
Qed.

(** A write joins the queue. *)
Lemma inv_push y y' qs base before q :
  inv_at y qs base before →
  let c := core (disp y) in
  core (disp y') = k_push q c → qoffset q = 0 → qcomplete q = false →
  len (k_writes c) < dispatcherMaxQueuedWrites → k_bytes c + len (qdata q) ≤ dispatcherMaxQueuedBytes →
  accepted y' = accepted y ++ qdata q → sent y' = sent y → flight_of (pc y') = flight_of (pc y) →
  serving (pc y') + (if decide (qkind q = host_response) then 1 else 0) = serving (pc y) →
  exchange_ok (xc y') base (core (disp y')) → inv y'.
Proof.
  intros [] c Ec Ho Hcp Hn Hb Ea Es Ef Hv Hx. exists (qs ++ [q]), base, before.
  pose proof (deref_fresh _ _ i_queue0) as Hfr.
  split; rewrite ?Ec; unfold inflight in *; rewrite ?Ef, ?Es, ?Ea; auto.
  - by apply queue_push.
  - by rewrite unsent_app, i_accepted0, app_assoc.
  - by rewrite started_app.
  - intros p q' Hp Hq'. cbn in Hp. destruct (decide (p = k_next c)) as [->|Hne].
    + rewrite lookup_insert_eq in Hp. congruence.
    + rewrite lookup_insert_ne in Hp by done. eauto.
  - by apply flight_app.
  - intros Hf. change (k_active (k_push q c)) with (k_active c). subst c.
    rewrite host_writes_app, (i_active0 Hf). repeat case_decide; lia.
  - by rewrite <- Ec.
Qed.

Lemma deref_head c p ws qs q :
  queue_at c qs → k_writes c = p :: ws → k_heap c !! p = Some q →
  ∃ rest, qs = q :: rest ∧ Forall2 (λ p' q', k_heap c !! p' = Some q') ws rest ∧ p ∉ ws.
Proof.
  intros [] Ew Ep. rewrite Ew in *. inversion qa_deref0 as [|? q' ? rest Hq' Hr]; subst.
  inversion qa_nodup0; subst. exists rest. split; [congruence|done].
Qed.

(** Updating the head write leaves the others where they are. *)
Lemma deref_update (h : gmap Z queuedSerialWrite) p q ws rest :
  p ∉ ws → Forall2 (λ p' q', h !! p' = Some q') ws rest →
  Forall2 (λ p' q', <[p := q]> h !! p' = Some q') ws rest.
Proof.
  intros Hp HF. apply Forall2_same_length_lookup.
  split; [by eapply Forall2_length|]. intros i p' q' Hi Hq'.
  rewrite lookup_insert_ne; [by eapply (Forall2_lookup_lr _ _ _ _ _ _ HF)|].
  intros ->. apply Hp. by eapply list_elem_of_lookup_2.
Qed.

Lemma fresh_update (h : gmap Z queuedSerialWrite) n p q :
  is_Some (h !! p) → (∀ p', is_Some (h !! p') → p' < n) → ∀ p', is_Some (<[p := q]> h !! p') → p' < n.
Proof.
  intros Hp Hf p'. destruct (decide (p' = p)) as [->|]; [auto|]. rewrite lookup_insert_ne by done. auto.
Qed.

Lemma queue_advance c p ws q rest count :
  queue_at c (q :: rest) → k_writes c = p :: ws → k_heap c !! p = Some q →
  0 ≤ count ≤ len (qdata q) - qoffset q →
  queue_at (k_update p (set_qoffset (qoffset q + count) q) c) (set_qoffset (qoffset q + count) q :: rest).
Proof.
  intros Hq Ew Ep Hc. destruct (deref_head _ _ _ _ _ Hq Ew Ep) as (rest' & [= <-] & HF & Hp).
  destruct Hq. rewrite Ew in *. inversion qa_open0 as [|? ? []]; subst.
  split; cbn; rewrite ?Ew; auto.
  - constructor; [by rewrite lookup_insert_eq|by apply deref_update].
  - apply fresh_update; [by rewrite Ep|done].
  - constructor; [|done]. cbn. split; [done|]. lia.
Qed.

Lemma queue_complete c p ws q q' rest :
  queue_at c (q :: rest) → k_writes c = p :: ws → k_heap c !! p = Some q →
  queue_at (k_pop (len (qdata q)) (k_update p q' c)) rest.
Proof.
  intros Hq Ew Ep. destruct (deref_head _ _ _ _ _ Hq Ew Ep) as (rest' & [= <-] & HF & Hp).
  destruct Hq. rewrite Ew in *. inversion qa_open0 as [|? ? []]; subst.
  split; cbn; rewrite ?Ew; cbn; auto.
  - by apply deref_update.
  - by inversion qa_nodup0.
  - apply fresh_update; [by rewrite Ep|done].
  - rewrite qa_bytes0. unfold total. cbn. lia.
  - pose proof (len_nonneg (qdata q)). lia.
  - rewrite len_cons in qa_count0. lia.
  - destruct rest; cbn in *; [done|]. by inversion qa_untouched0.
Qed.

(** The bytes in flight are the next bytes of the output. *)
Lemma inflight_unsent r ws qs : flight_ok (flight_of r) ws qs → inflight r `prefix_of` unsent qs.
Proof.
  unfold flight_ok, inflight. destruct (fqueued _).
  - intros (ws' & q & qs' & -> & -> & Hp). transitivity (foutgoing (flight_of r)); [apply prefix_take|].
    apply prefix_app_r. exact Hp.
  - intros ->. unfold takeZ. rewrite take_nil. apply prefix_nil.
Qed.

Lemma delivered_mono base base' request : base `prefix_of` base' → delivered base request → delivered base' request.
Proof.
  intros [more ->] (pre & e & post & He & ->). exists pre, e, (post ++ more). by rewrite <- !app_assoc.
Qed.

Lemma exchange_mono x base base' c c' :
  base `prefix_of` base' → k_id c' = k_id c → k_type c' = k_type c →
  (∀ p q, k_heap c !! p = Some q → ∃ q', k_heap c' !! p = Some q' ∧ qdata q' = qdata q) →
  exchange_ok x base c → exchange_ok x base' c'.
Proof.
  intros Hb Ei Et Hh. unfold exchange_ok. rewrite Ei, Et.
  destruct x as [| |? ? ? p| |? |? []]; try done.
  - intros [Hp (q & Hq & He)]. split; [done|]. destruct (Hh p q Hq) as (q' & ? & Ed). exists q'. by rewrite Ed.
  - intros [Hp Hd]. split; [done|]. by eapply delivered_mono.
  - intros [Hp Hd]. split; [done|]. by eapply delivered_mono.
Qed.

Lemma heap_update_data (h : gmap Z queuedSerialWrite) p q q' :
  h !! p = Some q → qdata q' = qdata q →
  ∀ i x, h !! i = Some x → ∃ x', <[p := q']> h !! i = Some x' ∧ qdata x' = qdata x.
Proof.
  intros Hp Hd i x Hx. destruct (decide (i = p)) as [->|].
  - exists q'. rewrite lookup_insert_eq. split; [done|congruence].
  - exists x. by rewrite lookup_insert_ne.
Qed.

(** The chunk the transport accepted moves from the unsent to the sent side. *)
Lemma send_chunk (q : queuedSerialWrite) outgoing count :
  0 ≤ qoffset q → 0 ≤ count ≤ len outgoing → outgoing `prefix_of` dropZ (qoffset q) (qdata q) →
  takeZ count outgoing ++ dropZ (qoffset q + count) (qdata q) = dropZ (qoffset q) (qdata q)
  ∧ takeZ (qoffset q) (qdata q) ++ takeZ count outgoing = takeZ (qoffset q + count) (qdata q).
Proof.
  intros Ho Hc [more E].
  assert (Et : takeZ count outgoing = takeZ count (dropZ (qoffset q) (qdata q))) by (by rewrite E, takeZ_app_le).
  rewrite Et, <- dropZ_dropZ, takeZ_dropZ by lia. split; [done|].
  unfold takeZ, dropZ. rewrite Z2Nat.inj_add by lia. by rewrite take_take_drop.
Qed.

(** The reader's own step on the head write: [k] is the chunk it had in flight. *)
Section Advance.
Context (d : SerialProtocolDispatcher) (h : H) (x : exchange) (s a : bytes) (k : flight).
Context (p : Z) (ws : list Z) (q : queuedSerialWrite) (rest : list queuedSerialWrite) (base before : bytes).
Hypothesis Hi : inv_at (mkSys d h (RAdvance k) x s a) (q :: rest) base before.
Hypothesis Hk : 0 ≤ fsent k ≤ len (foutgoing k).
Hypothesis Ew : k_writes (core d) = p :: ws.
Hypothesis Eq : k_heap (core d) !! p = Some q.
Hypothesis Hpre : foutgoing k `prefix_of` dropZ (qoffset q) (qdata q).

#[local] Definition q_sent : queuedSerialWrite := set_qoffset (qoffset q + fsent k) q.

#[local] Lemma adv_offset : 0 ≤ qoffset q ≤ len (qdata q).
Proof. destruct Hi as [[] _]. inversion qa_open0 as [|? ? []]; by subst. Qed.

#[local] Lemma adv_count : 0 ≤ fsent k ≤ len (qdata q) - qoffset q.
Proof.
  pose proof adv_offset. destruct Hpre as [more E]. apply (f_equal len) in E.
  rewrite len_app, len_dropZ in E by lia. pose proof (len_nonneg more). lia.
Qed.

#[local] Lemma adv_sent : s = base ++ takeZ (fsent k) (foutgoing k).
Proof. exact (i_sent _ _ _ _ Hi). Qed.

#[local] Lemma adv_base : base `prefix_of` s.
Proof. rewrite adv_sent. by apply prefix_app_r. Qed.

#[local] Lemma adv_started : s = before ++ takeZ (qoffset q + fsent k) (qdata q).
Proof.
  pose proof adv_offset. rewrite adv_sent, (i_base _ _ _ _ Hi), <- app_assoc. cbn.
  by rewrite (proj2 (send_chunk q _ _ ltac:(lia) Hk Hpre)).
Qed.

#[local] Lemma adv_accepted : a = s ++ dropZ (qoffset q + fsent k) (qdata q) ++ unsent rest.
Proof.
  pose proof adv_offset. pose proof (i_accepted _ _ _ _ Hi) as Ea. cbn in Ea.
  rewrite adv_sent, Ea, <- app_assoc. f_equal.
  unfold unsent. cbn. by rewrite app_assoc, (proj1 (send_chunk q _ _ ltac:(lia) Hk Hpre)).
Qed.

Lemma inv_advance_partial d' : core d' = k_update p q_sent (core d) → inv (mkSys d' h RTop x s a).
Proof.
  intros Ec. pose proof Hi as []. exists (q_sent :: rest), s, before.
  split; cbn [disp pc xc sent accepted] in *; rewrite ?Ec.
  - apply (queue_advance _ p ws); auto using adv_count.
  - apply adv_accepted.
  - by rewrite app_nil_r.
  - apply adv_started.
  - intros p' q' Hp' Hcp. cbn in Hp'. destruct (decide (p' = p)) as [->|].
    + rewrite lookup_insert_eq in Hp'. injection Hp' as <-. apply (i_complete0 p q Eq Hcp).
    + rewrite lookup_insert_ne in Hp' by done. eauto.
  - done.
  - intros Hf. rewrite host_writes_cons. rewrite <- (host_writes_cons q). exact (i_active0 Hf).
  - exact i_closing0.
  - exact i_answers0.
  - eapply exchange_mono; [..|exact i_exchange0]; [exact adv_base|done..|].
    by apply (heap_update_data _ p q).
Qed.

Hypothesis Hend : qoffset q_sent = len (qdata q).

#[local] Lemma adv_whole : s = before ++ qdata q.
Proof. rewrite adv_started. cbn in Hend. by rewrite Hend, takeZ_all. Qed.

(** The write has completed: it leaves the queue. *)
Lemma inv_advance_done d' :
  (let c := k_pop (len (qdata q)) (k_update p (set_qcomplete true q_sent) (core d)) in
   core d' = if decide (qkind q = host_response) then k_finish_host c else c) →
  inv (mkSys d' h RTop x s a).
Proof.
  intros Ec. cbn zeta in Ec. set (q' := set_qcomplete true _) in Ec. pose proof Hi as [].
  cbn [disp pc xc sent accepted] in *.
  assert (Ek : ∀ (B : Type) (f : core_t → B), (∀ n c, f (k_set_active n c) = f c) →
            f (core d') = f (k_pop (len (qdata q)) (k_update p q' (core d)))).
  { intros B f Hf. rewrite Ec. case_decide; [|done]. unfold k_finish_host. case_goal; [apply Hf|done]. }
  exists rest, s, s. split; cbn [disp pc xc sent accepted].
  - destruct (queue_complete _ p ws q q' rest i_queue0 Ew Eq).
    split; rewrite ?(Ek _ k_heap), ?(Ek _ k_writes), ?(Ek _ k_next), ?(Ek _ k_bytes); done.
  - rewrite adv_accepted at 1. cbn in Hend. rewrite Hend. unfold dropZ. by rewrite to_nat_len, drop_all.
  - by rewrite app_nil_r.
  - destruct i_queue0, rest as [|q2 rest']; [by rewrite app_nil_r|]. cbn in qa_untouched0 |- *.
    inversion qa_untouched0 as [|? ? E]; subst. by rewrite E, app_nil_r.
  - rewrite (Ek _ k_heap) by done. intros p' q2 Hp' Hcp. cbn in Hp'. destruct (decide (p' = p)) as [->|].
    + rewrite lookup_insert_eq in Hp'. injection Hp' as <-. exists before, []. cbn.
      rewrite app_nil_r. apply adv_whole.
    + rewrite lookup_insert_ne in Hp' by done. destruct (i_complete0 p' q2 Hp' Hcp) as (pre & post & Eb).
      exists pre, (post ++ qdata q). by rewrite adv_whole, Eb, <- !app_assoc.
  - done.
  - intros Hf. rewrite (Ek _ k_failure) in Hf by done. specialize (i_active0 Hf).
    rewrite Ec. rewrite host_writes_cons in i_active0. cbn [serving] in *.
    pose proof (host_writes_nonneg rest).
    destruct (decide (qkind q = host_response)); unfold k_finish_host;
      change (k_active (k_pop _ _)) with (k_active (core d)); [|lia].
    rewrite (proj2 (Z.ltb_lt _ _)) by lia. cbn [k_set_active k_active]. lia.
  - rewrite (Ek _ k_closing), (Ek _ k_failure) by done. exact i_closing0.
  - intros f. rewrite (Ek _ k_response), (Ek _ k_id), (Ek _ k_type) by done. apply i_answers0.
  - apply (exchange_mono x base s (core d)); [exact adv_base|by rewrite (Ek _ k_id)|by rewrite (Ek _ k_type)| |exact i_exchange0].
    rewrite (Ek _ k_heap) by done. by apply (heap_update_data _ p q).
Qed.
End Advance.

Lemma inv_advance d h x s a k p r d' :
  inv (mkSys d h (RAdvance k) x s a) →
  0 ≤ fsent k ≤ len (foutgoing k) → fqueued k = Some p →
  advanceWrite clock rec p (fsent k) d = (r, d') →
  inv (mkSys d' h (match r with Ok _ => RTop | Err err => RFail err k end) x s a).
Proof.
  intros (qs & base & before & Hi) Hk Ep Ea.
  pose proof (i_flight _ _ _ _ Hi) as Hfl. unfold flight_ok in Hfl. cbn in Hfl. rewrite Ep in Hfl.
  destruct Hfl as (ws & q & rest & Ew & -> & Hpre).
  assert (Eq : k_heap (core d) !! p = Some q).
  { destruct (i_queue _ _ _ _ Hi). cbn in qa_deref0. rewrite Ew in qa_deref0. by inversion qa_deref0. }
  destruct (advanceWrite_core clock rec p ws q (fsent k) d r d' Ew Eq Ea)
    as [(err & -> & Ec)|[(-> & Hne & Ec)|(-> & Hend & Ec)]].
  - eapply (inv_frame _ (mkSys d' h (RFail err k) x s a)); [exact Hi|done|done| | |done|];
      apply Hi.
  - by eapply inv_advance_partial.
  - by eapply inv_advance_done.
Qed.

Ltac sys_cbn := cbn [disp hs pc xc sent accepted flight_of serving] in *.

(** A step that keeps the core, the history and the flight. *)
Ltac same_core Hi := eapply (inv_frame _ _ _ _ _ Hi); sys_cbn; [..|apply Hi]; auto; try apply Hi.

Lemma consume_inv d h x s a m k c d' :
  inv (mkSys d h (RConsume m k) x s a) → consume_body m d = (c, d') →
  inv (mkSys d' h (after_consume m k c) x s a).
Proof.
  intros (qs & base & before & Hi) Ec.
  assert (Hfl : flight_of (after_consume m k c) = k ∧ serving (after_consume m k c) = 0).
  { by destruct c as [[]| | |]. }
  destruct Hfl as [Hfl Hsv].
  assert (Hcore : core d' = core d
          ∨ ∃ f, core d' = k_set_response (Some f) (core d) ∧ answers (core d')).
  { destruct m; cbn in Ec; [left; by eapply consumeStartup_body_core|].
    by apply consumeFrames_body_core in Ec as [_ ?]. }
  destruct Hcore as [Hcore|(f & Hcore & Hans)].
  - eapply (inv_frame _ _ _ _ _ Hi); sys_cbn; unfold inflight; rewrite ?Hfl; try done; apply Hi.
  - pose proof Hi as [].
    eapply (inv_control _ _ _ _ _ Hi); sys_cbn; rewrite ?Hcore; cbn [k_set_response k_heap k_next k_writes
      k_bytes k_failure k_active k_closing]; try done; try (rewrite Hsv; auto).
    by rewrite <- Hcore.
Qed.

Lemma close_control d :
  let c := core d in let c' := core (close rec d) in
  k_heap c' = k_heap c ∧ k_next c' = k_next c ∧ k_writes c' = k_writes c ∧ k_bytes c' = k_bytes c
  ∧ k_active c' = k_active c ∧ k_id c' = k_id c ∧ k_type c' = k_type c ∧ k_response c' = k_response c
  ∧ (k_failure c' = None → k_failure c = None)
  ∧ ((k_closing c = true → k_failure c ≠ None) → k_failure c' ≠ None).
Proof.
  cbn zeta. rewrite close_core. destruct (k_closing (core d)) eqn:Ec; [naive_solver|].
  unfold k_or_failure. destruct (k_failure (core d)) eqn:Ef; cbn -[core]; rewrite ?Ef; by split_and!.
Qed.

Lemma close_inv d h r x s a :
  inv (mkSys d h r x s a) → inv (mkSys (close rec d) h r x s a).
Proof.
  intros (qs & base & before & Hi). pose proof Hi as []. sys_cbn.
  destruct (close_control d) as (Eh & En & Ew & Eb & Ea & Ei & Et & Er & Ef & Ec).
  eapply (inv_control _ _ _ _ _ Hi); sys_cbn; auto.
  - intros Hf. rewrite Ea. auto.
  - intros f. rewrite Er, Ei, Et. apply i_answers0.
  - apply (exchange_mono x base base (core d)); auto. intros p q. rewrite Eh. eauto.
Qed.

(** Changing the core changes the invariant only through the core. *)
Lemma inv_core d d' h r x s a :
  core d' = core d → inv (mkSys d h r x s a) → inv (mkSys d' h r x s a).
Proof. intros E (qs & base & before & Hi). same_core Hi. Qed.

Lemma or_failure_inv err d d' h r r' x x' s a :
  inv (mkSys d h r x s a) →
  (∃ n, core d' = k_or_failure err (k_set_active n (core d))) →
  flight_of r' = flight_of r →
  (∀ base, exchange_ok x base (core d) → exchange_ok x' base (core d)) →
  inv (mkSys d' h r' x' s a).
Proof.
  intros (qs & base & before & Hi) [n E] Hfl Hx. pose proof Hi as []. sys_cbn.
  assert (Hf : k_failure (core d') ≠ None).
  { rewrite E. unfold k_or_failure. cbn -[core]. by destruct (k_failure (core d)) eqn:Ef; cbn -[core]; rewrite ?Ef. }
  assert (Ek : ∀ (B : Type) (f : core_t → B), (∀ n c, f (k_set_active n c) = f c) →
            (∀ e c, f (k_set_failure e c) = f c) → f (core d') = f (core d)).
  { intros B f H1 H2. rewrite E. unfold k_or_failure. case_goal; rewrite ?H2; apply H1. }
  eapply (inv_control _ _ _ _ _ Hi); sys_cbn; auto.
  - done.
  - intros f. rewrite (Ek _ k_response), (Ek _ k_id), (Ek _ k_type) by done. apply i_answers0.
  - apply (exchange_mono x' base base (core d)); [done|by apply Ek..| |auto].
    rewrite (Ek _ k_heap) by done. eauto.
Qed.

(** Reader steps around a host service. *)
Lemma host_inv d h x s a frame handler scope m k :
  inv (mkSys d h (RHostBegin frame handler scope m k) x s a) →
  inv (mkSys (host_begin rec frame scope d) h (RHostCall frame handler scope m k) x s a).
Proof.
  intros (qs & base & before & Hi). pose proof Hi as [].
  eapply (inv_control _ _ _ _ _ Hi); sys_cbn; rewrite ?host_begin_core; auto.
  intros Hf. split; [done|]. cbn [k_set_active k_active]. lia.
Qed.

Lemma host_answer_inv d h x s a frame handler scope m k answer d' h' :
  host_answer quote rec frame handler d h = (answer, d', h') →
  inv (mkSys d h (RHostCall frame handler scope m k) x s a) →
  inv (mkSys d' h' (RHostFinish answer scope m k) x s a).
Proof.
  intros Ea Hinv.
  assert (Hinv' : inv (mkSys d h' (RHostFinish answer scope m k) x s a)).
  { destruct Hinv as (qs & base & before & Hi). same_core Hi. }
  destruct (host_answer_core _ _ _ _ _ _ _ _ _ Ea) as [E|E]; (eapply inv_core; [exact E|]).
  - done.
  - by apply close_inv.
Qed.

Lemma host_finish_inv d h x s a answer scope m k r d' :
  host_finish rec answer scope d = (r, d') →
  inv (mkSys d h (RHostFinish answer scope m k) x s a) →
  match r with
  | Ok _ => inv (mkSys d' h (RConsume m k) x s (a ++ answer_bytes answer))
  | Err err => inv (mkSys d' h (RFail err k) x s a)
  end.
Proof.
  intros Ef (qs & base & before & Hi). apply host_finish_core in Ef. pose proof Hi as [].
  destruct r as [[]|err].
  - destruct Ef as (response & encoded & -> & Ee & _ & _ & Hn & Hb & Ec).
    cbn [answer_bytes]. rewrite Ee.
    eapply (inv_push _ _ _ _ _ _ Hi); sys_cbn; [exact Ec|done..|].
    rewrite Ec. apply (exchange_mono x base base (core d)); [done..| |done].
    intros p q Hp. exists q. cbn [k_push k_heap]. rewrite lookup_insert_ne; [done|].
    intros <-. by rewrite (deref_fresh _ _ i_queue0) in Hp.
  - unfold k_finish_host in Ef. case_in Ef;
      eapply (inv_control _ _ _ _ _ Hi); sys_cbn; rewrite ?Ef; auto; intros Hf; (split; [done|]);
      pose proof (host_writes_nonneg qs); specialize (i_active0 Hf); zbool; cbn [k_set_active k_active]; lia.
Qed.

Lemma fail_inv d h x s a err k :
  inv (mkSys d h (RFail err k) x s a) → inv (mkSys (flushEvents rec (fail rec err d)) h (RDone k) x s a).
Proof.
  intros Hinv. destruct (closing d) eqn:Ec.
  - destruct Hinv as (qs & base & before & Hi). same_core Hi. rewrite quiet_flush, fail_core. cbn. by rewrite Ec.
  - eapply or_failure_inv; [exact Hinv| |done|auto].
    eexists. rewrite quiet_flush, fail_core. unfold core at 1. cbn -[core]. rewrite Ec. done.
Qed.

(** Reader steps around the pump. *)
Lemma top_inv d h x s a queued outgoing d' :
  readLoop_begin clock rec d = (Some (queued, outgoing), d') →
  inv (mkSys d h RTop x s a) → inv (mkSys d' h (RPump queued outgoing) x s a).
Proof.
  intros Eb (qs & base & before & Hi). apply readLoop_begin_core in Eb as [Ec Eq]. pose proof Hi as [].
  eapply (inv_frame _ _ _ _ _ Hi); sys_cbn; auto.
  destruct queued as [p|]; [|by destruct Eq as [_ ->]].
  destruct Eq as ((ws & Ew) & Hpre). unfold flight_ok. cbn [fqueued foutgoing].
  destruct i_queue0. change (k_writes (core d)) with (writes d) in *. rewrite Ew in *.
  inversion qa_deref0 as [|? q ? rest Hq]; subst. exists ws, q, rest. auto.
Qed.

Lemma pump_inv d d' h x s a queued outgoing count r :
  core d' = core d → flight_of r = mkFlight queued outgoing count → serving r = 0 →
  inv (mkSys d h (RPump queued outgoing) x s a) → inv (mkSys d' h r x (s ++ takeZ count outgoing) a).
Proof.
  intros Ec Ef Es (qs & base & before & Hi). pose proof Hi as [].
  eapply (inv_frame _ _ _ _ _ Hi); sys_cbn; auto.
  - rewrite i_sent0. unfold inflight. rewrite Ef. cbn. by rewrite app_nil_r.
  - by rewrite Ef.
Qed.

Lemma reader_drop_inv d d' h x s a r r' :
  core d' = core d → flight_of r' = no_flight → inflight r = [] → serving r = 0 → serving r' = 0 →
  inv (mkSys d h r x s a) → inv (mkSys d' h r' x s a).
Proof.
  intros Ec Ef Er Es Es' (qs & base & before & Hi). pose proof Hi as [].
  eapply (inv_frame _ _ _ _ _ Hi); sys_cbn; auto; [| |congruence].
  - rewrite i_sent0, Er. unfold inflight. by rewrite Ef.
  - by rewrite Ef.
Qed.

(** Steps of the exchange. *)
Lemma exchange_begin_inv d h r s a timeout request window d' :
  Exchange_begin timeout request d = (Ok window, d') →
  inv (mkSys d h r XIdle s a) → inv (mkSys d' h r (XBegun request timeout window) s a).
Proof.
  intros Eb (qs & base & before & Hi). pose proof Hi as []. unfold Exchange_begin in Eb.
  destruct (timeout <=? 0), (ready d), (failure d) eqn:Ef, (closing d) eqn:Ec; try done.
  injection Eb as _ <-.
  eapply (inv_control _ _ _ _ _ Hi); sys_cbn; auto; done.
Qed.

Lemma exchange_send_inv d h r s a timeout request window p d' :
  Exchange_send rec request d = (Ok p, d') →
  inv (mkSys d h r (XBegun request timeout window) s a) →
  inv (mkSys d' h r (XWriting request timeout window p) s (a ++ answer_bytes (Ok request))).
Proof.
  intros Eb (qs & base & before & Hi). pose proof Hi as []. unfold Exchange_send in Eb.
  cbn [answer_bytes]. destruct (EncodeFrame request) as [encoded|] eqn:Ee; [|done].
  apply queueWrite_core in Eb as (_ & _ & -> & Hn & Hb & Ec).
  eapply (inv_push _ _ _ _ _ _ Hi); sys_cbn; [exact Ec|try done..|].
  - cbn [qkind]. case_decide; [done|lia].
  - rewrite Ec. cbn [exchange_ok] in *. destruct i_exchange0. cbn [k_push k_id k_type k_heap].
    split; [done|]. eexists. rewrite lookup_insert_eq. split; [done|]. exact Ee.
Qed.

Lemma exchange_written_inv d h r s a timeout request window p now d' :
  waitForWrite_poll p d = Some (Ok ()) → time_now clock d = (now, d') →
  inv (mkSys d h r (XWriting request timeout window p) s a) →
  inv (mkSys d' h r (XWaiting request timeout window (now + timeout)) s a).
Proof.
  intros Ew Et (qs & base & before & Hi). pose proof Hi as [].
  injection Et as _ <-. eapply (inv_frame _ _ _ _ _ Hi); sys_cbn; auto.
  cbn [exchange_ok] in *. destruct i_exchange0 as [Hp (q & Hq & He)]. split; [done|].
  assert (Hc : qcomplete q = true).
  { unfold waitForWrite_poll in Ew. destruct (failure d); [done|].
    assert (Eh : k_heap (core d) !! p = erase <$> heap d !! p) by apply lookup_fmap. rewrite Hq in Eh.
    destruct (heap d !! p) as [qr|]; [|done]. injection Eh as ->. cbn. by destruct (qcomplete qr). }
  destruct (i_complete0 p q Hq Hc) as (pre & post & Eb). exists pre, (qdata q), (post ++ started_part qs).
  split; [done|]. rewrite i_base0, Eb, <- !app_assoc. done.
Qed.

Lemma exchange_return_inv d h r s a timeout request window deadline ctxErr res d' :
  Exchange_poll clock quote rec ctxErr timeout (RequestID request) window deadline d = (PReturn res, d') →
  inv (mkSys d h r (XWaiting request timeout window deadline) s a) →
  inv (mkSys d' h r (XReturned request res) s a).
Proof.
  intros Ep (qs & base & before & Hi). pose proof Hi as [].
  assert (Ec : core d' = core d).
  { by destruct (Exchange_poll_core _ _ _ _ _ _ _ _ _ _ _ Ep) as [|(? & ? & _)]. }
  eapply (inv_frame _ _ _ _ _ Hi); sys_cbn; auto.
  destruct res as [f|err]; [|done]. cbn [exchange_ok] in *. destruct i_exchange0 as [[Hid Hty] Hd].
  split; [|done]. unfold matches. rewrite <- Hid, <- Hty. apply i_answers0. cbn.
  unfold Exchange_poll in Ep. destruct ctxErr; [done|]. destruct (failure d); [done|].
  destruct (response d); [by injection Ep as ->|].
  destruct (if negb (hostWindow d =? window) then _ else _) as [[w dl] d1].
  destruct (match receiveStarted d1 with Some _ => _ | None => _ end) as [wd te].
  cbn -[recordLocked] in Ep. case_in Ep; done.
Qed.

Lemma exchange_abort_inv d h r s a timeout request window deadline ctxErr err d' :
  Exchange_poll clock quote rec ctxErr timeout (RequestID request) window deadline d = (PAbort err, d') →
  inv (mkSys d h r (XWaiting request timeout window deadline) s a) →
  inv (mkSys d' h r (XAborting request err) s a).
Proof.
  intros Ep (qs & base & before & Hi). pose proof Hi as [].
  destruct (Exchange_poll_core _ _ _ _ _ _ _ _ _ _ _ Ep) as [Ec|(e & [= <-] & _ & Ec)].
  - eapply (inv_frame _ _ _ _ _ Hi); sys_cbn; auto. done.
  - eapply (inv_control _ _ _ _ _ Hi); sys_cbn; rewrite ?Ec; auto; try done.
Qed.

Lemma exchange_wait_inv d h r s a timeout request window deadline ctxErr o d' w dl ac rm :
  Exchange_poll clock quote rec ctxErr timeout (RequestID request) window deadline d = (o, d') →
  o = PWait w dl ac rm →
  inv (mkSys d h r (XWaiting request timeout window deadline) s a) →
  inv (mkSys d' h r (XWaiting request timeout w dl) s a).
Proof.
  intros Ep -> (qs & base & before & Hi). pose proof Hi as [].
  destruct (Exchange_poll_core _ _ _ _ _ _ _ _ _ _ _ Ep) as [Ec|(e & ? & _)]; [|done].
  eapply (inv_frame _ _ _ _ _ Hi); sys_cbn; auto.
Qed.

Lemma exchange_end_inv d h r s a request res :
  inv (mkSys d h r (XReturned request res) s a) → inv (mkSys (Exchange_end d) h r XIdle s a).
Proof.
  intros (qs & base & before & Hi). pose proof Hi as [].
  eapply (inv_control _ _ _ _ _ Hi); sys_cbn; auto; [by intros f|done].
Qed.

(** An exchange step that only changes what it knows. *)
Lemma exchange_skip d h r x x' s a :
  (∀ base, exchange_ok x base (core d) → exchange_ok x' base (core d)) →
  inv (mkSys d h r x s a) → inv (mkSys d h r x' s a).
Proof. intros Hx (qs & base & before & Hi). eapply (inv_frame _ _ _ _ _ Hi); sys_cbn; auto; try apply Hi. apply Hx, Hi. Qed.

Lemma initial_inv h : inv (initial h).
Proof.
  exists [], [], []. split; cbn; try done.
  split; cbn; try done; [constructor|by intros p [? ?]].
Qed.

Lemma step_inv y y' : step y y' → inv y → inv y'.
Proof.
  intros Hs Hinv. destruct Hs;
    try (by eapply top_inv); try (by eapply consume_inv); try (by apply host_inv);
    try (by eapply host_answer_inv); try (by eapply (inv_advance _ _ _ _ _ _ _ (Ok ())));
    try (by eapply (inv_advance _ _ _ _ _ _ _ (Err _))); try (by apply fail_inv);
    try (by eapply exchange_begin_inv); try (by eapply exchange_send_inv);
    try (by eapply exchange_written_inv); try (by eapply exchange_return_inv);
    try (by eapply exchange_abort_inv); try (by eapply exchange_wait_inv);
    try (by eapply exchange_end_inv); try (by apply close_inv);
    try (by eapply exchange_skip; [|done]).
  - eapply inv_core; [|eapply reader_drop_inv; [..|exact Hinv]; done].
    unfold start in *. by destruct (started d), (closing d); simplify_eq.
  - eapply reader_drop_inv; [..|exact Hinv]; [|done..]. rewrite quiet_flush.
    by eapply readLoop_begin_core.
  - by eapply reader_drop_inv; [..|exact Hinv].
  - by eapply pump_inv; [..|exact Hinv].
  - eapply pump_inv; [..|exact Hinv]; [|by destruct (ready d)..]. unfold appendIncoming. by case_goal.
  - exact (host_finish_inv _ _ _ _ _ _ _ _ _ _ _ ltac:(eassumption) Hinv).
  - exact (host_finish_inv _ _ _ _ _ _ _ _ _ _ _ ltac:(eassumption) Hinv).
  - destruct Hinv as (qs & base & before & Hi). same_core Hi.
  - destruct Hinv as (qs & base & before & Hi). pose proof Hi as []. sys_cbn.
    eapply (inv_frame _ _ _ _ _ Hi); sys_cbn; auto; [|done].
    unfold flight_ok in i_flight0. rewrite H1 in i_flight0. rewrite i_sent0. unfold inflight. cbn. rewrite i_flight0.
    unfold takeZ. by rewrite !take_nil.
  - eapply inv_core; [|exact Hinv]. f_equal. by eapply Exchange_begin_err.
  - eapply inv_core; [|eapply exchange_skip; [|exact Hinv]; done]. unfold Exchange_send in *.
    destruct (EncodeFrame request); [|by simplify_eq].
    match goal with E : queueWrite _ _ _ _ _ _ = _ |- _ => by apply queueWrite_core in E; subst end.
  - eapply or_failure_inv; [exact Hinv| |done|done]. exists (k_active (core d)). rewrite abort_core. done.
  - eapply inv_core; [|exact Hinv]. by rewrite quiet_flush.
Qed.

Lemma reachable_inv h y : reachable h y → inv y.
Proof.
  intros Hr. unfold reachable in Hr. remember (initial h) as y0 eqn:E.
  assert (H0 : inv y0) by (subst; apply initial_inv). clear E.
  induction Hr as [|y0 y1 y2 Hs Hr IH]; [done|]. apply IH. by eapply step_inv.
Qed.

(** ** What holds in every reachable state *)

Lemma deref_real (m : gmap Z queuedSerialWrite) ws qs :
  Forall2 (λ p q, (erase <$> m) !! p = Some q) ws qs →
  ∃ rs, Forall2 (λ p q, m !! p = Some q) ws rs ∧ erase <$> rs = qs.
Proof.
  induction 1 as [|p q ws qs Hp HF IH]; [exists []; by split|].
  destruct IH as (rs & HR & <-). rewrite lookup_fmap in Hp.
  destruct (m !! p) as [r|] eqn:Er; [|done]. injection Hp as <-.
  exists (r :: rs). split; [by constructor|done].
Qed.

Lemma total_erase rs : total (erase <$> rs) = total rs.
Proof. unfold total. induction rs as [|r rs IH]; cbn; [done|]. by rewrite IH. Qed.

Lemma host_writes_erase rs : host_writes (erase <$> rs) = host_writes rs.
Proof. induction rs as [|r rs IH]; [done|]. cbn. rewrite !host_writes_cons, IH. done. Qed.

(** C2: the write queue is well formed and bounded under every interleaving of
    the reader, an exchange and a closer: the queued pointers are distinct and
    live, at most 8 writes and at most 32 MiB plus 8 headers are queued,
    [queuedBytes] is the exact sum of the queued lengths, no queued write is
    complete, offsets stay within the data, and only the head has been started. *)
Theorem dispatcher_queue_bounded h y :
  reachable h y →
  ∃ qs, Forall2 (λ p q, heap (disp y) !! p = Some q) (writes (disp y)) qs
    ∧ NoDup (writes (disp y))
    ∧ len (writes (disp y)) ≤ dispatcherMaxQueuedWrites
    ∧ queuedBytes (disp y) = total qs
    ∧ queuedBytes (disp y) ≤ dispatcherMaxQueuedBytes
    ∧ Forall (λ q, qcomplete q = false ∧ 0 ≤ qoffset q ≤ len (qdata q)) qs
    ∧ Forall (λ q, qoffset q = 0) (tail qs).
Proof.
  intros (qs & base & before & [[]])%reachable_inv.
  destruct (deref_real _ _ _ qa_deref0) as (rs & HF & <-). exists rs.
  split; [done|]. split; [done|]. split; [done|]. split; [by rewrite <- total_erase|]. split; [done|].
  split; [by apply Forall_fmap in qa_open0|].
  destruct rs; [done|]. cbn in qa_untouched0. by apply Forall_fmap in qa_untouched0.
Qed.

(** C19: output is in order under every interleaving: what the transport has
    accepted is always a prefix of the concatenation of the accepted writes, so
    frames are never interleaved, reordered, duplicated or torn; and when the
    reader is between two iterations with an empty queue everything has been
    sent. *)
Theorem dispatcher_output_in_order h y :
  reachable h y →
  sent y `prefix_of` accepted y
  ∧ (pc y = RTop → writes (disp y) = [] → sent y = accepted y).
Proof.
  intros (qs & base & before & [])%reachable_inv. split.
  - rewrite i_sent0, i_accepted0. apply prefix_app. by eapply inflight_unsent.
  - intros Ep Ew. rewrite i_sent0, i_accepted0, Ep. destruct i_queue0. cbn in qa_deref0. rewrite Ew in qa_deref0.
    apply Forall2_nil_inv_l in qa_deref0 as ->. done.
Qed.

(** a response that an exchange returns answers its own request: it has the
    request's ID and the request's type with the response bit, and the whole
    encoded request had been handed to the transport. *)
Theorem dispatcher_response_matches h y request f :
  reachable h y → xc y = XReturned request (Ok f) →
  RequestID f = RequestID request
  ∧ MessageType f = Z.lor (MessageType request) 0x8000
  ∧ ∃ pre encoded post, EncodeFrame request = Ok encoded ∧ sent y = pre ++ encoded ++ post.
Proof.
  intros (qs & base & before & [])%reachable_inv Ex. rewrite Ex in i_exchange0.
  destruct i_exchange0 as [[] (pre & e & post & He & Hb)].
  split; [done|]. split; [done|]. exists pre, e, (post ++ inflight (pc y)). split; [done|].
  rewrite i_sent0, Hb, <- !app_assoc. done.
Qed.

(** host-service accounting is exact while the dispatcher has not failed:
    [hostActive] counts the host responses still in the write queue plus the
    service running on the reader, so it is zero exactly when no service is
    running and every response has been sent. *)
Theorem dispatcher_host_accounting h y :
  reachable h y → failure (disp y) = None →
  ∃ qs, Forall2 (λ p q, heap (disp y) !! p = Some q) (writes (disp y)) qs
    ∧ hostActive (disp y) = len (filter (λ q, qkind q = host_response) qs) + serving (pc y).
Proof.
  intros (qs & base & before & [[]])%reachable_inv Hf.
  destruct (deref_real _ _ _ qa_deref0) as (rs & HF & <-). exists rs. split; [done|].
  rewrite host_writes_erase in i_active0. exact (i_active0 Hf).
Qed.

End System.

(** ** A concrete run: one exchange from start to response *)

Definition sample_request : Frame := mkFrame 1 7 [].
Definition sample_response : bytes := frameMagic ++ put16 1 ++ put16 0x8001 ++ put32 7 ++ put32 2 ++ bs "ok".

(** Time stands still and no host service is configured. *)
Abbreviation sample_reachable := (reachable (H := unit) (λ _, 0) id None None None true ()).

Ltac run_step rule := eapply rtc_l; [eapply rule; vm_compute; reflexivity|].

Lemma sample_run :
  ∃ y, sample_reachable y ∧ xc y = XReturned sample_request (Ok (mkFrame 0x8001 7 (bs "ok")))
       ∧ failure (disp y) = None.
Proof.
  eexists. split.
  - unfold reachable, initial.
    eapply rtc_l; [eapply step_start with (isready := true); vm_compute; reflexivity|].
    eapply rtc_l; [eapply step_exchange_begin with (timeout := second) (request := sample_request); vm_compute; reflexivity|].
    run_step step_exchange_send.
    run_step step_top.
    eapply rtc_l; [eapply step_pump_quiet with (count := 16)|].
    eapply rtc_l; [eapply step_advance; vm_compute; [split; discriminate|reflexivity..]|].
    eapply rtc_l; [eapply step_exchange_written; vm_compute; reflexivity|].
    run_step step_top.
    eapply rtc_l; [eapply step_pump_incoming with (incoming := sample_response) (count := 0)|].
    run_step step_consume.
    eapply rtc_l; [eapply step_exchange_return with (ctxErr := None);
      vm_compute; reflexivity|].
    apply rtc_refl.
  - split; vm_compute; reflexivity.
Qed.

Lemma dispatcher_queue_bounded_witness :
  ∃ y, sample_reachable y ∧ len (writes (disp y)) ≤ dispatcherMaxQueuedWrites.
Proof.
  destruct sample_run as (y & Hr & _). exists y. split; [exact Hr|].
  destruct (dispatcher_queue_bounded _ _ _ _ _ _ _ _ Hr) as (qs & _ & _ & Hn & _). exact Hn.
Defined.

Lemma dispatcher_output_in_order_witness : ∃ y, sample_reachable y ∧ sent y `prefix_of` accepted y.
Proof.
  destruct sample_run as (y & Hr & _). exists y. split; [exact Hr|].
  exact (proj1 (dispatcher_output_in_order _ _ _ _ _ _ _ _ Hr)).
Defined.

Lemma dispatcher_response_matches_witness :
  ∃ y f, sample_reachable y ∧ xc y = XReturned sample_request (Ok f) ∧ RequestID f = 7.
Proof.
  destruct sample_run as (y & Hr & Hx & _). exists y, (mkFrame 0x8001 7 (bs "ok")).
  split; [exact Hr|]. split; [exact Hx|].
  exact (proj1 (dispatcher_response_matches _ _ _ _ _ _ _ _ _ _ Hr Hx)).
Defined.

Lemma dispatcher_host_accounting_witness :
  ∃ y qs, sample_reachable y
    ∧ hostActive (disp y) = len (filter (λ q, qkind q = host_response) qs) + serving (pc y).
Proof.
  destruct sample_run as (y & Hr & _ & Hf).
  destruct (dispatcher_host_accounting _ _ _ _ _ _ _ _ Hr Hf) as (qs & _ & Hn).
  exists y, qs. split; [exact Hr|exact Hn].
Defined.
