(* ===== verification/DispatcherLoops.v ===== *)
(** * The dispatcher's loops: termination, the ready marker, the timeout

    The consumption loops of [Dispatcher] never run out of fuel, the ready
    marker is found wherever the transport cuts the byte stream, and an exchange
    times out only when it may. *)

From S2P Require Import Prelude GoStd Framing Protocol Dispatcher DispatcherProofs.
Open Scope Z_scope.

(** ** What the loops keep *)

(** The part of the state the consumption loops own. *)
Definition inputs (d : SerialProtocolDispatcher) : bytes * bytes * bool * bytes :=
  (frameBuffer d, startupBuffer d, ready d, diagnostic d).

#[global] Instance inputs_proper : Proper (equiv_d ==> eq) inputs.
Proof. intros d d' E. change (inputs (quiet d) = inputs (quiet d')). by rewrite E. Qed.

Section Loops.
Context (clock : nat → Z) (quote : bytes → bytes) {H : Type}.
Context (SHS BHS EHS : option (H → HostRequest → HandlerOutcome * bool * H)) (rec : bool).

Lemma close_inputs d : inputs (close rec d) = inputs d.
Proof.
  unfold close. destruct (closing d); cbn; [done|]. set (d1 := head_terminal _ _ _ _).
  assert (E : inputs d1 = inputs d) by (unfold d1; by rewrite quiet_head_terminal).
  destruct (failure d1), (started _); exact E.
Qed.

Lemma finish_inputs d : inputs (finishHostService d) = inputs d.
Proof. unfold finishHostService, finishHostServiceLocked. by case_goal. Qed.

Lemma dispatch_inputs frame handler scope d (h : H) r d' h' :
  dispatchHostService quote rec frame handler scope d h = (r, d', h') → inputs d' = inputs d.
Proof.
  unfold dispatchHostService. destruct (host_answer _ _ _ _ _ _) as [[answer d1] h1] eqn:Ea.
  assert (E1 : inputs d1 = inputs d).
  { transitivity (inputs (host_begin rec frame scope d));
      [|unfold host_begin; by rewrite quiet_flush, quiet_signal, quiet_record].
    revert Ea. generalize (host_begin rec frame scope d). intros d0.
    unfold host_answer, callHostServiceHandler.
    destruct (DecodeHostServiceRequest frame); [|case_goal; by intros [= _ <- _]].
    destruct handler as [f|]; [|by intros [= _ <- _]]. destruct (f h a) as [[o c] hn]. cbn.
    destruct o as [[]|], c; intros [= _ <- _]; rewrite ?close_inputs; done. }
  destruct (host_finish rec answer scope d1) as [r1 d2] eqn:Ef. intros [= _ <- _]. rewrite <- E1.
  unfold host_finish in Ef.
  destruct (answer ≫= _) as [[response encoded]|]; [|injection Ef as _ <-; apply finish_inputs].
  set (d3 := record _ _ _ _) in Ef.
  assert (E3 : inputs d3 = inputs d1) by (unfold d3, record; by rewrite quiet_flush, quiet_record).
  unfold queueWrite in Ef. rewrite <- E3.
  destruct (failure d3); [injection Ef as _ <-; apply finish_inputs|].
  destruct (closing d3); [injection Ef as _ <-; apply finish_inputs|].
  case_in Ef; injection Ef as _ <-; [apply finish_inputs|]. by rewrite quiet_flush, quiet_signal.
Qed.

Lemma track_inputs d r d' : trackReceiveLocked clock rec d = (r, d') → inputs d' = inputs d.
Proof.
  unfold trackReceiveLocked. destruct (trackHeader _ d) as [[[mt id] total]|err]; [|by intros [= _ <-]].
  case_goal; [by intros [= _ <-]|]. intros [= _ <-].
  destruct (receiveStarted d); cbn; case_goal; unfold recordLocked; repeat case_goal; done.
Qed.

(** Extraction takes at least a header. *)
Lemma extract_shrinks buffer frame rest :
  ExtractFrame buffer = (Ok (Some frame), rest) → (length rest < length buffer)%nat.
Proof.
  unfold ExtractFrame. intros E. case_in E; [done|]. case_in E; [done|].
  destruct (decodeHeader _) as [[[mt id] n]|] eqn:Ed; [|done]. case_in E; [done|]. injection E as _ <-.
  assert (0 ≤ n).
  { unfold decodeHeader in Ed. repeat (case_in Ed; [done|]). injection Ed as _ _ <-. apply get32_range. }
  zbool. unfold dropZ, frameHeaderSize, len in *. rewrite length_drop. lia.
Qed.

(** One iteration on frames: it returns, or it has removed a frame. *)
Lemma frames_body_inputs d c d' :
  consumeFrames_body clock BHS EHS rec d = (c, d') →
  startupBuffer d' = startupBuffer d ∧ ready d' = ready d ∧ diagnostic d' = diagnostic d
  ∧ match c with
    | CReturn _ => True
    | CFrames => False
    | _ => (length (frameBuffer d') < length (frameBuffer d))%nat
    end.
Proof.
  unfold consumeFrames_body. destruct (failure d); [by intros [= <- <-]|].
  destruct (trackReceiveLocked clock rec d) as [r d1] eqn:Et. apply track_inputs in Et.
  injection Et as Ef Es Er Ed. rewrite <- Es, <- Er, <- Ed, <- Ef.
  destruct r; [|by intros [= <- <-]].
  destruct (ExtractFrame (frameBuffer d1)) as [x b] eqn:Ex.
  destruct x as [[f|]|]; cbn -[recordLocked flushEvents];
    [|intros [= <- <-]; unfold flushEvents; by case_goal|by intros [= <- <-]].
  apply extract_shrinks in Ex.
  case_goal; [by case_goal; intros [= <- <-]|]. case_goal; intros [= <- <-]; [done|].
  unfold flushEvents, recordLocked. repeat case_goal; done.
Qed.

Lemma frames_loop_total fuel d (h : H) :
  (length (frameBuffer d) < fuel)%nat →
  ∃ r d' h', consumeFrames_loop clock quote BHS EHS rec fuel d h = (Some r, d', h')
    ∧ startupBuffer d' = startupBuffer d ∧ ready d' = ready d ∧ diagnostic d' = diagnostic d.
Proof.
  revert d h. induction fuel as [|fuel IH]; intros d h Hf; [lia|]. cbn -[dispatchHostService].
  destruct (consumeFrames_body clock BHS EHS rec d) as [c d1] eqn:Eb.
  apply frames_body_inputs in Eb as (Es & Er & Ed & Hc). rewrite <- Es, <- Er, <- Ed.
  destruct c as [r| |frame handler scope|]; [by eauto 10|apply IH; lia| |done].
  destruct (dispatchHostService _ _ _ _ _ d1 h) as [[r d2] h2] eqn:Eh.
  apply dispatch_inputs in Eh. injection Eh as Ef2 Es2 Er2 Ed2. rewrite <- Es2, <- Er2, <- Ed2.
  destruct r; [|by eauto 10]. apply IH. rewrite Ef2. lia.
Qed.

Lemma consumeFrames_total d (h : H) :
  ∃ r d' h', consumeFrames clock quote BHS EHS rec d h = (Some r, d', h')
    ∧ startupBuffer d' = startupBuffer d ∧ ready d' = ready d ∧ diagnostic d' = diagnostic d.
Proof. apply frames_loop_total. lia. Qed.

Lemma startup_body_shrinks d c d' :
  consumeStartup_body SHS d = (c, d') →
  match c with
  | CReturn _ | CFrames => True
  | _ => (length (startupBuffer d') < length (startupBuffer d))%nat
  end.
Proof.
  unfold consumeStartup_body. destruct (startupBuffer d) as [|b0 others] eqn:Eb; [by intros [= <- <-]|].
  destruct (strings.HasPrefix _ ReadyMarker); [by intros [= <- <-]|].
  destruct (strings.HasPrefix _ frameMagic && _).
  - destruct (ExtractFrame _) as [[[f|]|] ?] eqn:Ex; cbn; try (by intros [= <- <-]).
    apply extract_shrinks in Ex. case_goal; intros [= <- <-]; done.
  - destruct (strings.HasPrefix ReadyMarker _ || _); [by intros [= <- <-]|].
    intros [= <- <-]. cbn. lia.
Qed.

Lemma startup_loop_total fuel d (h : H) :
  (length (startupBuffer d) < fuel)%nat →
  ∃ r d' h', consumeStartup_loop clock quote SHS BHS EHS rec fuel d h = (Some r, d', h').
Proof.
  revert d h. induction fuel as [|fuel IH]; intros d h Hf; [lia|].
  cbn -[dispatchHostService consumeFrames consumeStartup_body].
  destruct (consumeStartup_body SHS d) as [c d1] eqn:Eb. apply startup_body_shrinks in Eb.
  destruct c as [r| |frame handler scope|]; [by eauto|apply IH; lia| |].
  - destruct (dispatchHostService _ _ _ _ _ d1 h) as [[r d2] h2] eqn:Eh.
    apply dispatch_inputs in Eh. injection Eh as _ Es2 _ _.
    destruct r; [|by eauto]. apply IH. rewrite Es2. lia.
  - destruct (consumeFrames_total d1 h) as (r & d2 & h2 & -> & _). eauto.
Qed.

(** consuming incoming bytes always returns: the loops over startup bytes
    and over frames finish for every state, every chunk, every host service and
    every answer it gives, so the reader goroutine cannot be caught in them. *)
Theorem consumeIncoming_total incoming d (h : H) :
  ∃ r d' h', consumeIncoming clock quote SHS BHS EHS rec incoming d h = (Some r, d', h').
Proof.
  unfold consumeIncoming. case_goal.
  - destruct (consumeFrames_total (appendIncoming incoming d) h) as (r & d' & h' & -> & _). eauto.
  - apply startup_loop_total. lia.
Qed.
End Loops.

(** ** The ready marker *)

(** The marker starts at no position before the end of [skipped], however the
    stream continues. *)
Definition no_marker_in (skipped rest : bytes) : Prop :=
  ∀ pre post more, skipped ++ rest ++ more = pre ++ ReadyMarker ++ post → len skipped ≤ len pre.

Lemma no_marker_nil rest : no_marker_in [] rest.
Proof. intros pre post more _. unfold len. simpl. lia. Qed.

(** A byte may be skipped when the buffer neither starts with the marker nor can
    still grow into it. *)
Lemma no_marker_skip b buffer :
  strings.HasPrefix (b :: buffer) ReadyMarker = false →
  strings.HasPrefix ReadyMarker (b :: buffer) = false →
  ∀ post more, (b :: buffer) ++ more ≠ ReadyMarker ++ post.
Proof.
  intros H1 H2 post more E. apply app_eq_app in E as (m & [[E _]|[E _]]).
  - rewrite E, strings.HasPrefix_app in H1. done.
  - rewrite E, strings.HasPrefix_app in H2. done.
Qed.

Lemma no_marker_cons b buffer skipped rest :
  buffer = skipped ++ rest →
  (∀ post more, (b :: buffer) ++ more ≠ ReadyMarker ++ post) →
  no_marker_in skipped rest → no_marker_in (b :: skipped) rest.
Proof.
  intros -> Hb Hn pre post more E. destruct pre as [|p pre].
  - destruct (Hb post more). cbn in *. by rewrite <- app_assoc.
  - rewrite !len_cons. cbn in E. injection E as _ E. apply Hn in E. lia.
Qed.

Lemma no_marker_app skipped s2 rest :
  no_marker_in skipped (s2 ++ rest) → no_marker_in s2 rest → no_marker_in (skipped ++ s2) rest.
Proof.
  intros H1 H2 pre post more E.
  assert (Hl : len skipped ≤ len pre).
  { eapply (H1 pre post more). rewrite <- E, <- !app_assoc. done. }
  destruct (len_split (len skipped) pre) as (p1 & p2 & -> & Hp1); [pose proof (len_nonneg skipped); lia|].
  rewrite <- !app_assoc in E. apply app_inj_1 in E as [-> E]; [|unfold len in Hp1; lia].
  rewrite !len_app. specialize (H2 p2 post more E). lia.
Qed.

Lemma no_marker_extend skipped rest more : no_marker_in skipped rest → no_marker_in skipped (rest ++ more).
Proof. intros Hn pre post m E. apply (Hn pre post (more ++ m)). by rewrite <- E, <- app_assoc. Qed.

Lemma takeZ_takeZ_app {A} n (l k : list A) : takeZ n (takeZ n l ++ k) = takeZ n (l ++ k).
Proof.
  unfold takeZ. rewrite !take_app, length_take, take_take.
  f_equal; [f_equal; lia|f_equal; lia].
Qed.

Lemma takeZ_min_len {A} n (l : list A) : takeZ (Z.min (len l) n) l = takeZ n l.
Proof.
  destruct (Z.le_gt_cases (len l) n).
  - rewrite Z.min_l by lia. by rewrite !takeZ_all by lia.
  - by rewrite Z.min_r by lia.
Qed.

Section Ready.
Context (clock : nat → Z) (quote : bytes → bytes) {H : Type}.
Context (BHS EHS : option (H → HostRequest → HandlerOutcome * bool * H)) (rec : bool).
Abbreviation loop := (consumeStartup_loop clock quote None BHS EHS rec).

(** What scanning the startup buffer leaves: still waiting, on a proper prefix of
    the marker, or ready, having passed everything before the marker. *)
Definition scanned (d d' : SerialProtocolDispatcher) : Prop :=
  (ready d' = false ∧ ∃ skipped,
      startupBuffer d = skipped ++ startupBuffer d'
      ∧ startupBuffer d' `prefix_of` ReadyMarker ∧ startupBuffer d' ≠ ReadyMarker
      ∧ no_marker_in skipped (startupBuffer d')
      ∧ diagnostic d' = takeZ maxStartupDiagnosticBytes (diagnostic d ++ skipped))
  ∨ (ready d' = true ∧ ∃ skipped post,
      startupBuffer d = skipped ++ ReadyMarker ++ post
      ∧ no_marker_in skipped (ReadyMarker ++ post)
      ∧ startupBuffer d' = []
      ∧ diagnostic d' = takeZ maxStartupDiagnosticBytes (diagnostic d ++ skipped)).

Lemma prefix_HasPrefix s p : strings.HasPrefix s p = true ↔ p `prefix_of` s.
Proof. rewrite strings.HasPrefix_spec. done. Qed.

Lemma diagnostic_step (diag : bytes) b skipped :
  len diag ≤ maxStartupDiagnosticBytes →
  takeZ maxStartupDiagnosticBytes ((if len diag <? maxStartupDiagnosticBytes then diag ++ [b] else diag) ++ skipped)
  = takeZ maxStartupDiagnosticBytes (diag ++ b :: skipped).
Proof.
  intros Hd. case_goal; zbool; [by rewrite <- app_assoc|].
  rewrite !(takeZ_app _ diag); [done|lia..].
Qed.

Lemma scan_loop fuel d (h : H) r d' h' :
  ready d = false → len (diagnostic d) ≤ maxStartupDiagnosticBytes →
  loop fuel d h = (Some r, d', h') → scanned d d'.
Proof.
  revert d h. induction fuel as [|fuel IH]; intros d h Hr Hd; [done|].
  cbn -[consumeFrames]. unfold consumeStartup_body.
  destruct (startupBuffer d) as [|b0 others] eqn:Eb.
  - intros [= <- <- <-]. left. split; [done|]. exists []. rewrite Eb, (app_nil_r (diagnostic d)), takeZ_all by done.
    split_and!; try done; [apply prefix_nil|apply no_marker_nil].
  - rewrite !andb_false_r. cbn -[consumeFrames strings.HasPrefix ReadyMarker].
    destruct (strings.HasPrefix (b0 :: others) ReadyMarker) eqn:H1.
    + match goal with |- consumeFrames _ _ _ _ _ ?x h = _ → _ =>
        destruct (consumeFrames_total clock quote BHS EHS rec x h) as (r1 & d1 & h1 & -> & Es & Er & Ed) end.
      intros [= <- <- <-]. right. rewrite Er. split; [done|].
      apply strings.HasPrefix_spec in H1 as [post Ep]. exists [], post.
      rewrite Eb, Ep, Es, Ed, (app_nil_r (diagnostic d)), takeZ_all by done. split_and!; try done. apply no_marker_nil.
    + rewrite orb_false_r. destruct (strings.HasPrefix ReadyMarker (b0 :: others)) eqn:H2.
      * intros [= <- <- <-]. left. split; [done|]. exists []. rewrite Eb, (app_nil_r (diagnostic d)), takeZ_all by done.
        split_and!; try done; [by apply prefix_HasPrefix| |apply no_marker_nil].
        intros E. by rewrite E in H1.
      * intros Hl. apply IH in Hl; [|by case_goal|]; cycle 1.
        { case_goal; zbool; cbn; [|done]. rewrite len_app. unfold len at 2. cbn. lia. }
        unfold scanned in Hl. cbn [startupBuffer diagnostic set_startupBuffer] in Hl.
        assert (Ediag : diagnostic (if len (diagnostic d) <? maxStartupDiagnosticBytes
                 then set_diagnostic (diagnostic d ++ [b0]) d else d)
               = (if len (diagnostic d) <? maxStartupDiagnosticBytes then diagnostic d ++ [b0] else diagnostic d))
          by (by case_goal). rewrite Ediag in Hl.
        pose proof (no_marker_skip _ _ H1 H2) as Hskip.
        destruct Hl as [(Hr' & sk & E1 & E2 & E3 & E4 & E5)|(Hr' & sk & post & E1 & E2 & E3 & E4)];
          [left|right]; (split; [done|]); exists (b0 :: sk); [|exists post];
          rewrite diagnostic_step in * by done; rewrite Eb; cbn; rewrite E1; split_and!; try done;
          eapply no_marker_cons; try done.
Qed.

(** The chunks the transport delivers until the dispatcher is ready. *)
Fixpoint feed_startup (chunks : list bytes) (d : SerialProtocolDispatcher) (h : H)
  : SerialProtocolDispatcher * H :=
  match chunks with
  | [] => (d, h)
  | chunk :: chunks =>
      if ready d then (d, h)
      else let '(_, d, h) := consumeIncoming clock quote None BHS EHS rec chunk d h in
           feed_startup chunks d h
  end.

(** The state after the stream [t]: waiting, or ready at the first marker. *)
Definition waiting (d : SerialProtocolDispatcher) (t : bytes) : Prop :=
  ready d = false ∧ ∃ skipped, t = skipped ++ startupBuffer d
    ∧ startupBuffer d `prefix_of` ReadyMarker ∧ startupBuffer d ≠ ReadyMarker
    ∧ no_marker_in skipped (startupBuffer d)
    ∧ diagnostic d = takeZ maxStartupDiagnosticBytes skipped.

Definition found (d : SerialProtocolDispatcher) (t : bytes) : Prop :=
  ready d = true ∧ ∃ skipped post, t = skipped ++ ReadyMarker ++ post
    ∧ no_marker_in skipped (ReadyMarker ++ post)
    ∧ diagnostic d = takeZ maxStartupDiagnosticBytes skipped.

Lemma feed_chunk chunk d t (h : H) :
  waiting d t →
  ∃ r d' h', consumeIncoming clock quote None BHS EHS rec chunk d h = (r, d', h')
    ∧ (waiting d' (t ++ chunk) ∨ found d' (t ++ chunk)).
Proof.
  intros (Hr & sk & -> & _ & _ & Hn & Hd).
  destruct (startup_loop_total clock quote None BHS EHS rec
      (S (length (startupBuffer (appendIncoming chunk d)))) (appendIncoming chunk d) h
      ltac:(lia)) as (r & d' & h' & El).
  exists (Some r), d', h'. unfold consumeIncoming. rewrite Hr. split; [exact El|].
  assert (Ea : appendIncoming chunk d = set_startupBuffer (startupBuffer d ++ chunk) d)
    by (unfold appendIncoming; by rewrite Hr).
  apply scan_loop in El; rewrite ?Ea; [|done|];
    [|cbn; rewrite Hd, len_takeZ_min by done; unfold maxStartupDiagnosticBytes; lia].
  rewrite Ea in El. unfold scanned in El. cbn [startupBuffer diagnostic set_startupBuffer] in El.
  rewrite Hd in El.
  destruct El as [(Hr' & s2 & E1 & E2 & E3 & E4 & E5)|(Hr' & s2 & post & E1 & E2 & _ & E4)]; [left|right];
    (split; [done|]); exists (sk ++ s2); [|exists post]; rewrite <- app_assoc, E1, <- app_assoc;
    rewrite takeZ_takeZ_app in *; split_and!; try done;
    apply no_marker_app; try done; rewrite <- E1; by apply no_marker_extend.
Qed.

Lemma feed_startup_spec chunks d t (h : H) :
  waiting d t →
  waiting (feed_startup chunks d h).1 (t ++ concat chunks)
  ∨ found (feed_startup chunks d h).1 (t ++ concat chunks).
Proof.
  revert d t h. induction chunks as [|chunk chunks IH]; intros d t h Hw; [cbn; rewrite app_nil_r; auto|].
  cbn. destruct Hw as [Hr Hw]. rewrite Hr.
  destruct (feed_chunk chunk d t h (conj Hr Hw)) as (r & d' & h' & -> & [Hw'|Hf]).
  - rewrite app_assoc. by apply IH.
  - right. destruct Hf as (Hr' & sk & post & E & Hn & Hd).
    assert (Ef : feed_startup chunks d' h' = (d', h')) by (destruct chunks; cbn; [done|by rewrite Hr']).
    rewrite Ef. split; [done|]. exists sk, (post ++ concat chunks).
    rewrite app_assoc, E, <- !app_assoc. split_and!; try done.
    rewrite app_assoc. by apply no_marker_extend.
Qed.

Lemma waiting_no_marker d t : waiting d t → ∀ pre post, t ≠ pre ++ ReadyMarker ++ post.
Proof.
  intros (_ & sk & -> & [more Hp] & Hne & Hn & _) pre post E.
  assert (Hl : len sk ≤ len pre) by (eapply (Hn pre post []); by rewrite app_nil_r).
  apply (f_equal len) in E. rewrite !len_app in E. pose proof (len_nonneg post).
  apply (f_equal len) in Hp as Hp'. rewrite len_app in Hp'.
  assert (len more = 0) as ->%len_0 by (pose proof (len_nonneg more); lia).
  by rewrite app_nil_r in Hp.
Qed.

(** the ready marker is recognised wherever the transport cuts the stream.
    For a fresh dispatcher without startup services, after any sequence of
    chunks: it is not ready exactly when the marker does not occur in their
    concatenation, and then the startup diagnostic is the first 4096 bytes
    received; when it is ready, the marker that made it ready is the first
    occurrence and the diagnostic is the first 4096 bytes before it. *)
Theorem ready_marker_any_fragmentation chunks d (h : H) :
  ready d = false → startupBuffer d = [] → diagnostic d = [] →
  let d' := (feed_startup chunks d h).1 in
  (ready d' = false
   ∧ (∀ pre post, concat chunks ≠ pre ++ ReadyMarker ++ post)
   ∧ StartupDiagnostic d' = takeZ maxStartupDiagnosticBytes (concat chunks))
  ∨ (ready d' = true
     ∧ ∃ pre post, concat chunks = pre ++ ReadyMarker ++ post
       ∧ (∀ pre' post', concat chunks = pre' ++ ReadyMarker ++ post' → len pre ≤ len pre')
       ∧ diagnostic d' = takeZ maxStartupDiagnosticBytes pre).
Proof.
  intros Hr Hb Hd d'.
  assert (Hw : waiting d []).
  { split; [done|]. exists []. rewrite Hb, Hd. split_and!; try done; [apply prefix_nil|apply no_marker_nil]. }
  destruct (feed_startup_spec chunks d [] h Hw) as [Hf|Hf]; cbn in Hf; fold d' in Hf; [left|right].
  - pose proof (waiting_no_marker _ _ Hf) as Hno. destruct Hf as (Hr' & sk & E & _ & _ & _ & Hdi).
    split_and!; try done. unfold StartupDiagnostic. rewrite Hdi, E.
    rewrite <- (takeZ_takeZ_app _ sk). apply takeZ_min_len.
  - destruct Hf as (Hr' & sk & post & E & Hn & Hdi). split; [done|]. exists sk, post.
    split; [done|]. split; [|done]. intros pre' post' E'. apply (Hn pre' post' []). by rewrite app_nil_r, <- E.
Qed.
End Ready.

(** ** The exchange's timeout *)

(** an exchange is timed out only when nothing can still be expected. If the
    context is not cancelled and a look at the state aborts the exchange, then
    the dispatcher had not failed, no response had arrived and no host service
    was active; the failure is recorded; and either a frame in transfer had
    exceeded its 15 minutes, or the idle budget had passed since the exchange's
    deadline and since the last received byte of a frame, and no host service
    had finished since the previous look. *)
Theorem exchange_timeout_justified clock quote rec timeout requestID window deadline d err d' :
  Exchange_poll clock quote rec None timeout requestID window deadline d = (PAbort err, d') →
  failure d = None ∧ response d = None ∧ hostActive d = 0 ∧ failure d' = Some err
  ∧ ∃ now, clock (pred (ticks d')) = now
    ∧ ((err = DispatcherError (timeout_reason true) None
        ∧ ∃ began, receiveStarted d = Some began ∧ began + dispatcherReceiveLimit ≤ now)
       ∨ (err = DispatcherError (timeout_reason false) None
          ∧ (hostWindow d = window → deadline ≤ now)
          ∧ (hostWindow d ≠ window → clock (ticks d) + timeout ≤ now)
          ∧ ∀ updated, receiveUpdated d = Some updated → updated + timeout ≤ now)).
Proof.
  unfold Exchange_poll.
  destruct (failure d); [done|]. destruct (response d); [done|].
  set (dl0 := if hostWindow d =? window then deadline else clock (ticks d) + timeout).
  destruct (if negb (hostWindow d =? window) then _ else _) as [[w dl] d1] eqn:E1.
  assert (Hd1 : dl = dl0 ∧ receiveUpdated d1 = receiveUpdated d ∧ receiveStarted d1 = receiveStarted d).
  { unfold dl0. destruct (hostWindow d =? window); cbn in E1; by injection E1 as <- <- <-. }
  destruct Hd1 as (-> & Eu & Es). rewrite Eu, Es. clear E1.
  set (dl1 := match receiveUpdated d with Some u => if dl0 <? u + timeout then u + timeout else dl0 | None => dl0 end).
  assert (Hdl1 : dl0 ≤ dl1 ∧ ∀ u, receiveUpdated d = Some u → u + timeout ≤ dl1).
  { unfold dl1. destruct (receiveUpdated d) as [u|]; [|split; [lia|done]].
    case_goal; zbool; split; try lia; intros ? [= <-]; lia. }
  destruct (match receiveStarted d with Some _ => _ | None => _ end) as [wd te] eqn:Ew.
  cbn -[recordLocked]. destruct (hostActive d =? 0) eqn:Ea; cbn -[recordLocked]; [|done].
  case_goal; [|done]. intros [= <- <-]. zbool.
  split; [done|]. split; [done|]. split; [done|].
  split; [unfold recordLocked; by repeat case_goal|].
  exists (clock (ticks d1)). split; [unfold recordLocked; by repeat case_goal|].
  destruct te; [left|right]; (split; [done|]).
  - destruct (receiveStarted d) as [began|]; [|done]. exists began. split; [done|].
    case_in Ew; simplify_eq. lia.
  - assert (wd = dl1) as -> by (destruct (receiveStarted d); [case_in Ew|]; by simplify_eq).
    destruct Hdl1 as [Hd Hu]. unfold dl0 in Hd.
    split_and!.
    + intros Hw. rewrite (proj2 (Z.eqb_eq _ _) Hw) in Hd. lia.
    + intros Hne. rewrite (proj2 (Z.eqb_neq _ _) Hne) in Hd. lia.
    + intros u Eu'. specialize (Hu u Eu'). lia.
Qed.

(** ** Every host-service request is answered *)

(** A payload within the limit encodes, to a bounded frame. *)
Lemma encoded_ok frame :
  len (Payload frame) ≤ MaxPayloadSize →
  ∃ encoded, EncodeFrame frame = Ok encoded ∧ len encoded ≤ frameHeaderSize + MaxPayloadSize.
Proof.
  intros Hl. unfold EncodeFrame. rewrite (proj2 (Z.ltb_ge _ _)) by done. eexists. split; [done|].
  rewrite !len_app. change (len frameMagic) with 4.
  unfold frameHeaderSize. llia.
Qed.

(** The response a status and a short diagnostic make. *)
Lemma response_made id status output :
  u32 id → u32 status → id ≠ 0 → len output ≤ maxHostDiagnosticBytes →
  ∃ response encoded, CreateHostServiceResponse id status output = Ok response
    ∧ EncodeFrame response = Ok encoded ∧ len encoded ≤ frameHeaderSize + MaxPayloadSize
    ∧ RequestID response = id
    ∧ DecodeToolResult (Payload response) = Ok (mkToolResult status output).
Proof.
  intros Hid Hs H0 Hl. unfold CreateHostServiceResponse, maxHostDiagnosticBytes, MaxPayloadSize in *.
  rewrite (proj2 (Z.eqb_neq _ _) H0). rewrite (proj2 (Z.ltb_ge _ _)) by lia.
  set (f := mkFrame _ _ _). destruct (encoded_ok f) as (encoded & ? & ?); [cbn; unfold MaxPayloadSize; llia|].
  exists f, encoded. split_and!; try done. cbn.
  unfold DecodeToolResult. rewrite (proj2 (Z.ltb_ge _ _)) by llia.
  rewrite takeZ_app, dropZ_app by by len_simp. by rewrite get32_put32_exact.
Qed.

Lemma bounded_short message : len (boundedHostDiagnostic message) ≤ maxHostDiagnosticBytes.
Proof.
  unfold boundedHostDiagnostic. rewrite len_takeZ_min; [lia|].
  pose proof (len_nonneg message). unfold maxHostDiagnosticBytes. lia.
Qed.

Section Answered.
Context (quote : bytes → bytes) {H : Type} (rec : bool).

(** What the answer to a request frame must be. *)
Definition expected_answer (frame : Frame) (handler : option (H → HostRequest → HandlerOutcome * bool * H))
  (h : H) (response : Frame) : Prop :=
  let says status output :=
    RequestID response = RequestID frame
    ∧ DecodeToolResult (Payload response) = Ok (mkToolResult status output) in
  match DecodeHostServiceRequest frame, handler with
  | Err e, _ => says 1 (boundedHostDiagnostic (render quote (Error e)))
  | Ok _, None => says 1 (bs "host services are not available")
  | Ok request, Some f =>
      let failed t := says 2 (boundedHostDiagnostic
                        (render quote (txt "trusted host-service failure: " ++ t))) in
      match (f h request).1.1 with
      | Returned (Ok r) => response = r
      | Returned (Err e) => failed (Error e)
      | Panicked value => failed (txt "panic: " ++ value)
      end
  end.

Lemma answer_expected frame handler d (h : H) answer d' h' :
  u32 (RequestID frame) → RequestID frame ≠ 0 →
  (∀ f request, handler = Some f → DecodeHostServiceRequest frame = Ok request →
     (f h request).1.2 = false
     ∧ ∀ r, (f h request).1.1 = Returned (Ok r) → len (Payload r) ≤ MaxPayloadSize) →
  host_answer quote rec frame handler d h = (answer, d', h') →
  d' = d ∧ ∃ response encoded, answer = Ok response ∧ EncodeFrame response = Ok encoded
    ∧ len encoded ≤ frameHeaderSize + MaxPayloadSize ∧ expected_answer frame handler h response.
Proof.
  intros Hid H0 Hh. unfold host_answer, expected_answer, callHostServiceHandler.
  destruct (DecodeHostServiceRequest frame) as [request|e] eqn:Ed.
  - assert (Eid : hrRequestID request = RequestID frame).
    { unfold DecodeHostServiceRequest in Ed. inv_ok. repeat (case_in Ed; try discriminate Ed; inv_ok). all: by inv_ok. }
    destruct handler as [f|].
    + destruct (Hh f request eq_refl eq_refl) as [Hc Hp]. destruct (f h request) as [[o c] hn]. cbn in *. subst c.
      destruct o as [[r|e]|v]; intros [= <- <- <-]; (split; [done|]).
      * destruct (encoded_ok r (Hp r eq_refl)) as (encoded & ? & ?). by exists r, encoded.
      * rewrite Eid. destruct (response_made (RequestID frame) 2
          (boundedHostDiagnostic (render quote (txt "trusted host-service failure: " ++ Error e))) Hid
          ltac:(done) H0 (bounded_short _)) as (rs & en & ? & ? & ? & ? & ?). eauto 10.
      * rewrite Eid. destruct (response_made (RequestID frame) 2
          (boundedHostDiagnostic (render quote (txt "trusted host-service failure: " ++ txt "panic: " ++ v))) Hid
          ltac:(done) H0 (bounded_short _)) as (rs & en & ? & ? & ? & ? & ?). eauto 10.
    + intros [= <- <- <-]. split; [done|]. rewrite Eid.
      destruct (response_made (RequestID frame) 1 (bs "host services are not available") Hid
        ltac:(done) H0 ltac:(by vm_compute)) as (rs & en & ? & ? & ? & ? & ?). eauto 10.
  - rewrite (proj2 (Z.eqb_neq _ _) H0). intros [= <- <- <-]. split; [done|].
    destruct (response_made (RequestID frame) 1 (boundedHostDiagnostic (render quote (Error e))) Hid
      ltac:(done) H0 (bounded_short _)) as (rs & en & ? & ? & ? & ? & ?). eauto 10.
Qed.

(** every host-service request with a non-zero ID is answered. While the
    dispatcher is running and the write queue has room for one frame, dispatching
    the request succeeds and appends exactly one host response to the queue: the
    handler's own frame, or a status 2 response with at most 4096 bytes of
    diagnostic when it fails or panics, or a status 1 response when the request
    does not decode or no services are available, always under the request's own
    ID; and the service is counted as active until that response is sent. *)
Theorem host_request_answered frame handler scope d (h : H) :
  u32 (RequestID frame) → RequestID frame ≠ 0 →
  failure d = None → closing d = false →
  len (writes d) < dispatcherMaxQueuedWrites →
  queuedBytes d + frameHeaderSize + MaxPayloadSize ≤ dispatcherMaxQueuedBytes →
  (∀ f request, handler = Some f → DecodeHostServiceRequest frame = Ok request →
     (f h request).1.2 = false
     ∧ ∀ r, (f h request).1.1 = Returned (Ok r) → len (Payload r) ≤ MaxPayloadSize) →
  ∃ response encoded q d' h',
    dispatchHostService quote rec frame handler scope d h = (Ok (), d', h')
    ∧ expected_answer frame handler h response
    ∧ EncodeFrame response = Ok encoded
    ∧ writes d' = writes d ++ [nextPtr d]
    ∧ heap d' !! nextPtr d = Some q ∧ qdata q = encoded ∧ qkind q = host_response ∧ qoffset q = 0
    ∧ hostActive d' = hostActive d + 1.
Proof.
  intros Hid H0 Hf Hc Hn Hb Hh. unfold dispatchHostService.
  set (d1 := host_begin rec frame scope d).
  assert (E1 : core d1 = k_set_active (k_active (core d) + 1) (core d)) by apply host_begin_core.
  destruct (host_answer quote rec frame handler d1 h) as [[answer d2] h2] eqn:Ea.
  destruct (answer_expected _ _ _ _ _ _ _ Hid H0 Hh Ea) as (-> & response & encoded & -> & Ee & Hl & Hx).
  destruct (host_finish rec (Ok response) scope d1) as [r d3] eqn:Efin.
  assert (Hr : r = Ok ()).
  { unfold host_finish in Efin. cbn -[record queueWrite finishHostService] in Efin. rewrite Ee in Efin.
    cbn -[record queueWrite finishHostService] in Efin.
    set (d4 := record _ _ _ _) in Efin.
    assert (E4 : core d4 = core d1) by (unfold d4, record; by rewrite quiet_flush, quiet_record).
    rewrite E1 in E4. unfold core, k_set_active in E4. cbn in E4. injection E4 as _ _ Ew Eb _ Ef Ec _ _ _.
    unfold queueWrite in Efin. rewrite Ef, Ec, Ew, Eb, Hf, Hc in Efin.
    rewrite (proj2 (Z.leb_gt _ _)), (proj2 (Z.ltb_ge _ _)) in Efin by lia. by injection Efin as <- _. }
  subst r. apply host_finish_core in Efin as (rs & en & [= <-] & Ee' & _ & _ & _ & _ & E3).
  rewrite Ee in Ee'. injection Ee' as <-. rewrite E1 in E3.
  unfold core, k_push, k_set_active in E3. cbn in E3. injection E3 as Eh _ Ew _ Eac _ _ _ _ _.
  assert (Eq := lookup_fmap erase (heap d3) (nextPtr d)). rewrite Eh, lookup_insert_eq in Eq.
  destruct (heap d3 !! nextPtr d) as [q|] eqn:Elk; [|done]. injection Eq. intros.
  exists response, encoded, q, d3, h2. split_and!; congruence.
Qed.
End Answered.

(** ** Witnesses *)

(** A request for a service that panics, on an idle dispatcher. *)
Definition sample_service : Frame :=
  mkFrame HostServiceRequest 9 (put16 5 ++ bs "build" ++ put16 0).

Lemma host_request_answered_witness :
  ∃ d' h', dispatchHostService id true sample_service
      (Some (λ (h : unit) _, (Panicked (txt "boom"), false, h))) "background"
      (set_ready true (set_started true NewSerialProtocolDispatcher)) () = (Ok (), d', h')
    ∧ hostActive d' = 1.
Proof.
  destruct (host_request_answered id true sample_service
      (Some (λ (h : unit) _, (Panicked (txt "boom"), false, h))) "background"
      (set_ready true (set_started true NewSerialProtocolDispatcher)) ())
    as (rs & en & q & d' & h' & E & _ & _ & _ & _ & _ & _ & _ & Ha);
    [by vm_compute|done|done|done|by vm_compute|by vm_compute| |].
  - intros f request [= <-] _. split; [done|]. intros r [=].
  - exists d', h'. split; [exact E|exact Ha].
Defined.

Definition waiting_dispatcher : SerialProtocolDispatcher :=
  set_pendingResponse true (set_ready true (set_started true NewSerialProtocolDispatcher)).

Lemma exchange_timeout_justified_witness :
  ∃ err d', Exchange_poll (λ n, Z.of_nat n + 10) id true None 5 1 0 7 waiting_dispatcher = (PAbort err, d')
    ∧ hostActive waiting_dispatcher = 0 ∧ failure d' = Some err.
Proof.
  eexists _, _. split; [vm_compute; reflexivity|].
  destruct (exchange_timeout_justified (λ n, Z.of_nat n + 10) id true 5 1 0 7 waiting_dispatcher _ _
              ltac:(vm_compute; reflexivity)) as (_ & _ & Ha & Hf & _).
  exact (conj Ha Hf).
Defined.

Lemma ready_marker_any_fragmentation_witness :
  let chunks := [bs "boot CODEXOS-SE"; bs "ED CODEXOS-SEED-"; bs "READY"; [x0a]] in
  let d' := (feed_startup (λ _, 0) id (H := unit) None None true chunks
               (set_started true NewSerialProtocolDispatcher) ()).1 in
  ready d' = true
  ∧ ∃ pre post, concat chunks = pre ++ ReadyMarker ++ post
     ∧ diagnostic d' = takeZ maxStartupDiagnosticBytes pre.
Proof.
  intros chunks d'.
  destruct (ready_marker_any_fragmentation (λ _, 0) id (H := unit) None None true chunks
    (set_started true NewSerialProtocolDispatcher) () eq_refl eq_refl eq_refl)
    as [(Hr & _)|(Hr & pre & post & E & _ & Hd)].
  - vm_compute in Hr. discriminate Hr.
  - split; [exact Hr|]. exists pre, post. split; [exact E|exact Hd].
Defined.
