(* ===== verification/ToolClient.v ===== *)
(** * The guest tool client (src/internal/guest/tool_client.go) and the escaping
    of startup bytes (src/internal/guest/diagnostic.go)

    The client numbers its requests, refuses oversized invocations before any
    byte is sent, and checks what comes back. Its only view of the dispatcher is
    one exchange at a time: the class [GuestLink], whose law is what
    [DispatcherProofs.dispatcher_response_matches] shows of the dispatcher. *)

From S2P Require Import Prelude GoStd Framing Protocol Dispatcher.
Open Scope Z_scope.

(** One exchange with the guest behind a link of state [L]. *)
Class GuestLink (L : Type) := Exchange : Frame → L → result Frame * L.

(** The dispatcher's promise to its client. *)
Class GuestLinkAnswers (L : Type) `{GuestLink L} :=
  Exchange_answers : ∀ request l f l',
    Exchange request l = (Ok f, l') →
    RequestID f = RequestID request ∧ MessageType f = Z.lor (MessageType request) 0x8000.

Section ToolClient.
Context {L : Type} `{GuestLink L}.

Record ToolClient := mkToolClient { dispatcher : L; nextID : Z (* uint32 *) }.

Definition OversizedV1GuestInvocationResult (encodedBytes : Z) : ToolResult :=
  mkToolResult 1
    (bs "guest invocation rejected before serial dispatch: encoded payload is " ++ strconv.Itoa encodedBytes
     ++ bs " bytes; supported maximum is " ++ strconv.Itoa V1GuestInvocationPayloadCapacity
     ++ bs " bytes; accepted_bytes:0").

Definition NewToolClient (l : L) : ToolClient := mkToolClient l 1.

Definition exchange (requestType responseType : Z) (payload : bytes) (c : ToolClient)
  : result bytes * ToolClient :=
  let requestID := nextID c in
  let next := if requestID =? max_uint32 then 1 else wrap32 (requestID + 1) in
  let '(r, l) := Exchange (mkFrame requestType requestID payload) (dispatcher c) in
  let c := mkToolClient l next in
  (response ← r;
   if negb (RequestID response =? requestID) then
     Err (ToolProtocolError (txt "response request ID " ++ [Lit (strconv.Itoa (RequestID response))]
            ++ txt " does not match " ++ [Lit (strconv.Itoa requestID)]))
   else if negb (MessageType response =? responseType) then
     Err (ToolProtocolError (txt "response message type 0x" ++ [Lit (strconv.hex4 (MessageType response))]
            ++ txt " does not match 0x" ++ [Lit (strconv.hex4 responseType)]))
   else Ok (Payload response), c).

Definition ListTools (c : ToolClient) : result (list bytes) * ToolClient :=
  let '(r, c) := exchange ListToolsRequest ListToolsResponse [] c in
  (payload ← r; ParseToolList payload, c).

Definition InvokeTool (name : bytes) (arguments : list bytes) (c : ToolClient)
  : result ToolResult * ToolClient :=
  match InvokeRequestPayloadSize name arguments with
  | Err err => (Err err, c)
  | Ok encodedBytes =>
      if V1GuestInvocationPayloadCapacity <? encodedBytes
      then (Ok (OversizedV1GuestInvocationResult encodedBytes), c)
      else match EncodeInvokeRequest name arguments with
           | Err err => (Err err, c)
           | Ok payload =>
               let '(r, c) := exchange InvokeToolRequest InvokeToolResponse payload c in
               (response ← r; DecodeToolResult response, c)
           end
  end.

(** ** Request numbers *)

(** [n] exchanges in a row, whatever they carry and however they end. *)
Inductive exchanges : nat → ToolClient → list Z → ToolClient → Prop :=
| exchanges_O c : exchanges 0 c [] c
| exchanges_S n c c1 c2 requestType responseType payload r ids :
    exchange requestType responseType payload c = (r, c1) →
    exchanges n c1 ids c2 → exchanges (S n) c (nextID c :: ids) c2.

(** The [n]-th number: 1, 2, ..., 2^32-1 and 1 again. *)
Definition nth_id (n : nat) : Z := Z.of_nat n mod max_uint32 + 1.

Lemma next_nth_id n :
  (if nth_id n =? max_uint32 then 1 else wrap32 (nth_id n + 1)) = nth_id (S n).
Proof.
  unfold nth_id. rewrite Nat2Z.inj_succ. unfold Z.succ.
  pose proof (Z.mod_pos_bound (Z.of_nat n) max_uint32 ltac:(done)) as Hm.
  pose proof (Z.div_mod (Z.of_nat n) max_uint32 ltac:(done)) as Hd.
  set (m := Z.of_nat n mod max_uint32) in *. set (q := Z.of_nat n / max_uint32) in *.
  destruct (m + 1 =? max_uint32) eqn:E; zbool.
  - replace (Z.of_nat n + 1) with ((q + 1) * max_uint32) by lia.
    by rewrite Z.mod_mul by done.
  - replace (Z.of_nat n + 1) with (m + 1 + q * max_uint32) by lia.
    rewrite Z.mod_add by done. rewrite Z.mod_small by lia.
    unfold wrap32. rewrite Z.mod_small; [done|]. unfold max_uint32 in *. lia.
Qed.

Lemma exchange_next requestType responseType payload c r c1 :
  exchange requestType responseType payload c = (r, c1) →
  nextID c1 = if nextID c =? max_uint32 then 1 else wrap32 (nextID c + 1).
Proof. unfold exchange. destruct (Exchange _ _). by intros [= _ <-]. Qed.

Lemma exchanges_ids n k c ids c' :
  nextID c = nth_id k → exchanges n c ids c' →
  ids = nth_id <$> seq k n ∧ nextID c' = nth_id (k + n).
Proof.
  intros Hk He. revert k Hk. induction He as [c|n c c1 c2 t1 t2 p r ids Ee He IH]; intros k Hk.
  - by rewrite Nat.add_0_r.
  - apply exchange_next in Ee. rewrite Hk, next_nth_id in Ee. destruct (IH _ Ee) as [-> ->].
    cbn. rewrite Hk. split; [done|]. f_equal. lia.
Qed.

(** request numbers from a new client are 1, 2, 3, ... and after 2^32-1 they
    start again at 1: zero, which the guest protocol reserves, is never used, and
    any two exchanges with the same number are a multiple of 2^32-1 apart. *)
Theorem request_numbers n l ids c :
  exchanges n (NewToolClient l) ids c →
  ids = nth_id <$> seq 0 n
  ∧ Forall (λ id, 1 ≤ id ≤ max_uint32) ids
  ∧ ∀ i j id, (i < j)%nat → ids !! i = Some id → ids !! j = Some id →
      ∃ m, 0 < m ∧ Z.of_nat j - Z.of_nat i = m * max_uint32.
Proof.
  intros He. destruct (exchanges_ids n 0 (NewToolClient l) _ _ eq_refl He) as [-> _].
  assert (Hr : ∀ k, 1 ≤ nth_id k ≤ max_uint32).
  { intros k. unfold nth_id. pose proof (Z.mod_pos_bound (Z.of_nat k) max_uint32 ltac:(done)). lia. }
  split; [done|]. split; [by apply Forall_fmap, Forall_true|].
  intros i j id Hij Hi Hj.
  rewrite list_lookup_fmap in Hi, Hj.
  apply fmap_Some in Hi as (a & Ha & ->). apply fmap_Some in Hj as (b & Hb & Hid).
  apply lookup_seq in Ha as [-> _], Hb as [-> _]. cbn in Hid. unfold nth_id in Hid.
  pose proof (Z.div_mod (Z.of_nat i) max_uint32 ltac:(done)) as Di.
  pose proof (Z.div_mod (Z.of_nat j) max_uint32 ltac:(done)) as Dj.
  assert (Em : Z.of_nat i mod max_uint32 = Z.of_nat j mod max_uint32) by lia.
  exists (Z.of_nat j / max_uint32 - Z.of_nat i / max_uint32).
  assert (Z.of_nat j - Z.of_nat i = (Z.of_nat j / max_uint32 - Z.of_nat i / max_uint32) * max_uint32) by lia.
  split; [|done]. unfold max_uint32 in *. lia.
Qed.

(** ** Invocation *)

Context `{!GuestLinkAnswers L}.

(** Over a link that answers, the client's own checks never fail. *)
Lemma exchange_over_link requestType payload c f l' :
  Exchange (mkFrame requestType (nextID c) payload) (dispatcher c) = (Ok f, l') →
  (exchange requestType (Z.lor requestType 0x8000) payload c).1 = Ok (Payload f).
Proof.
  intros E. destruct (Exchange_answers _ _ _ _ E) as [Hid Ht]. cbn in Hid, Ht.
  unfold exchange. rewrite E. cbn. by rewrite Hid, Ht, !Z.eqb_refl.
Qed.

Lemma exchange_link_error requestType responseType payload c e l' :
  Exchange (mkFrame requestType (nextID c) payload) (dispatcher c) = (Err e, l') →
  (exchange requestType responseType payload c).1 = Err e.
Proof. intros E. unfold exchange. by rewrite E. Qed.

(** an invocation reaches the guest exactly when it may. A name or argument
    list outside the protocol, and a payload above the guest's capacity, leave
    client and link untouched, the latter with the tool-level status 1 result;
    otherwise there is exactly one exchange, carrying the wire form under the
    current request number, and its outcome is the decoded answer. (The total is
    taken to be below 2^64 bytes, so that the uint64 sum does not wrap.) *)
Theorem InvokeTool_dispatch name arguments c :
  len (invocation_wire name arguments) < 2 ^ 64 →
  match InvokeRequestPayloadSize name arguments with
  | Err err => InvokeTool name arguments c = (Err err, c)
  | Ok size =>
      if V1GuestInvocationPayloadCapacity <? size
      then InvokeTool name arguments c = (Ok (OversizedV1GuestInvocationResult size), c)
      else len (invocation_wire name arguments) = size
        ∧ ∃ r l', Exchange (mkFrame InvokeToolRequest (nextID c) (invocation_wire name arguments)) (dispatcher c) = (r, l')
          ∧ dispatcher (InvokeTool name arguments c).2 = l'
          ∧ (InvokeTool name arguments c).1 = (f ← r; DecodeToolResult (Payload f))
  end.
Proof.
  intros Hw. unfold InvokeTool. destruct (InvokeRequestPayloadSize name arguments) as [size|err] eqn:Es; [|done].
  destruct (V1GuestInvocationPayloadCapacity <? size) eqn:Ec; [done|].
  assert (Ee : EncodeInvokeRequest name arguments = Ok (invocation_wire name arguments) ∧ len (invocation_wire name arguments) = size).
  { apply encode_of_size; [done..|]. zbool. unfold V1GuestInvocationPayloadCapacity, MaxPayloadSize in *. lia. }
  destruct Ee as [-> Hl]. split; [done|].
  destruct (Exchange (mkFrame InvokeToolRequest (nextID c) (invocation_wire name arguments)) (dispatcher c))
    as [r l'] eqn:Ex.
  exists r, l'. split; [done|].
  pose proof (exchange_over_link InvokeToolRequest (invocation_wire name arguments) c) as Hok.
  pose proof (exchange_link_error InvokeToolRequest InvokeToolResponse (invocation_wire name arguments) c) as Herr.
  change (Z.lor InvokeToolRequest 0x8000) with InvokeToolResponse in Hok.
  destruct (exchange _ _ _ c) as [x c1] eqn:Exch. cbn in *.
  split; [unfold exchange in Exch; rewrite Ex in Exch; by injection Exch as _ <-|].
  destruct r as [f|e]; [by rewrite (Hok _ _ Ex)|by rewrite (Herr _ _ Ex)].
Qed.
End ToolClient.
Arguments ToolClient L : clear implicits.

(** ** A link for the witnesses: a guest that answers every request with the
    payload it was sent, after a zero status. *)
#[local] Instance echo_link : GuestLink (list Frame) := λ request sent,
  (Ok (mkFrame (Z.lor (MessageType request) 0x8000) (RequestID request) (put32 0 ++ Payload request)),
   sent ++ [request]).

#[local] Instance echo_answers : GuestLinkAnswers (list Frame).
Proof. intros request l f l' E. injection E as <- _. done. Qed.

Lemma request_numbers_witness :
  ∃ ids c, exchanges 2 (NewToolClient ([] : list Frame)) ids c ∧ ids = [1; 2].
Proof.
  assert (He : exchanges 2 (NewToolClient ([] : list Frame)) [1; 2]
    (mkToolClient [mkFrame 1 1 []; mkFrame 1 2 []] 3)).
  { refine (exchanges_S 1 (NewToolClient ([] : list Frame)) (mkToolClient [mkFrame 1 1 []] 2) _ 1 0x8001 [] _ [2] _ _);
      [vm_compute; reflexivity|].
    refine (exchanges_S 0 (mkToolClient [mkFrame 1 1 []] 2) _ _ 1 0x8001 [] _ [] _ _);
      [vm_compute; reflexivity|]. constructor. }
  eexists _, _. split; [exact He|]. exact (proj1 (request_numbers _ _ _ _ He)).
Defined.

Lemma InvokeTool_dispatch_witness :
  ∃ r l', Exchange (mkFrame InvokeToolRequest 1 (invocation_wire (bs "read") [bs "a"])) ([] : list Frame) = (r, l')
    ∧ dispatcher (InvokeTool (bs "read") [bs "a"] (NewToolClient ([] : list Frame))).2 = l'.
Proof.
  pose proof (InvokeTool_dispatch (bs "read") [bs "a"] (NewToolClient ([] : list Frame))
    ltac:(by vm_compute)) as E.
  destruct E as [_ (r & l' & E1 & E2 & _)]. exists r, l'. split; [exact E1|exact E2].
Defined.

(** ** Escaping startup bytes *)

Definition hexadecimal (n : Z) : byte :=
  nth (Z.to_nat n) (bs "0123456789abcdef") x00.

Definition escapeByte (value : byte) : bytes :=
  let v := b2z value in
  if v =? 0x0a then bs "\n"
  else if v =? 0x0d then bs "\r"
  else if v =? 0x09 then bs "\t"
  else if (0x20 <=? v) && (v <=? 0x7e) then [value]
  else bs "\x" ++ [hexadecimal (Z.shiftr v 4); hexadecimal (Z.land v 0x0f)].

Definition EscapeDiagnosticBytes (data : bytes) : bytes :=
  let length := Z.min (len data) maxStartupDiagnosticBytes in
  (takeZ length data ≫= escapeByte)
  ++ (if maxStartupDiagnosticBytes <? len data then bs "...[truncated]" else []).

Definition printable (b : byte) : bool := (0x20 <=? b2z b) && (b2z b <=? 0x7e).

(** A property of all 256 bytes, checked one by one. *)
Definition all_bytes (f : byte → bool) : bool :=
  forallb (λ n, match Byte.of_nat n with Some b => f b | None => true end) (seq 0 256).

Lemma all_bytes_spec f : all_bytes f = true → ∀ b, f b = true.
Proof.
  intros Hf b. unfold all_bytes in Hf. rewrite forallb_forall in Hf.
  specialize (Hf (Byte.to_nat b)). rewrite Byte.of_to_nat in Hf. apply Hf.
  apply in_seq. pose proof (Byte.to_nat_bounded b). lia.
Qed.

Lemma escapeByte_spec b :
  forallb printable (escapeByte b) = true ∧ len (escapeByte b) ≤ 4
  ∧ (printable b = true → escapeByte b = [b]).
Proof.
  pose proof (all_bytes_spec (λ b, forallb printable (escapeByte b) && (len (escapeByte b) <=? 4)
    && implb (printable b) (bool_decide (escapeByte b = [b]))) ltac:(by vm_compute) b) as Hb.
  cbv beta in Hb. zbool. split; [done|]. split; [done|].
  intros Hp. rewrite Hp in *. by eapply bool_decide_eq_true_1.
Qed.

(** an escaped diagnostic is safe to print and bounded: every byte of it is
    printable ASCII, whatever the guest sent, at most the first 4096 bytes are
    shown in at most 4 bytes each, a cut is marked, and printable text of at most
    4096 bytes is shown unchanged. *)
Theorem EscapeDiagnosticBytes_safe data :
  forallb printable (EscapeDiagnosticBytes data) = true
  ∧ len (EscapeDiagnosticBytes data) ≤ 4 * maxStartupDiagnosticBytes + 14
  ∧ (forallb printable data = true → len data ≤ maxStartupDiagnosticBytes → EscapeDiagnosticBytes data = data)
  ∧ (maxStartupDiagnosticBytes < len data → ∃ shown, EscapeDiagnosticBytes data = shown ++ bs "...[truncated]").
Proof.
  assert (Hp : ∀ l, forallb printable (l ≫= escapeByte) = true).
  { induction l as [|b l IH]; [done|]. rewrite lbind_cons, forallb_app, IH.
    by rewrite (proj1 (escapeByte_spec b)). }
  assert (Hl : ∀ l, len (l ≫= escapeByte) ≤ 4 * len l).
  { induction l as [|b l IH]; [done|]. rewrite lbind_cons, len_app, len_cons.
    pose proof (proj1 (proj2 (escapeByte_spec b))). lia. }
  unfold EscapeDiagnosticBytes. split_and!.
  - rewrite forallb_app, Hp. by case_goal.
  - rewrite len_app. specialize (Hl (takeZ (Z.min (len data) maxStartupDiagnosticBytes) data)).
    pose proof (len_nonneg data). rewrite len_takeZ_min in Hl by (unfold maxStartupDiagnosticBytes; lia).
    assert (len (if maxStartupDiagnosticBytes <? len data then bs "...[truncated]" else []) ≤ 14) by (by case_goal).
    lia.
  - intros Hd Hm. rewrite (proj2 (Z.ltb_ge _ _)) by done. rewrite app_nil_r, Z.min_l, takeZ_all by lia.
    clear Hm. induction data as [|b l IH]; [done|]. cbn in Hd. zbool.
    rewrite lbind_cons, (proj2 (proj2 (escapeByte_spec b))) by done. cbn. by rewrite IH.
  - intros Hm. rewrite (proj2 (Z.ltb_lt _ _)) by done. eauto.
Qed.
