(* ===== verification/ProvidedAssets.v ===== *)
(** * Provided assets (src/internal/store/provided_assets.go)

    The frozen set of named payloads a guest may list and read: the naming rules,
    freezing a directory (with the deterministic tar of a multi-file asset), and
    the two host services. *)

From S2P Require Import Prelude GoStd Framing Protocol Sha256.
Open Scope Z_scope.

Definition MaxProvidedAssetIDBytes : Z := 64.
Definition MaxProvidedAssetFilenameBytes : Z := 255.
Definition MaxProvidedAssetReadBytes : Z := 1024 * 1024.
Definition maxProvidedAssetDiagnosticSize : Z := 1024.
Definition maxProvidedAssetFrameSize : Z := 16 * 1024 * 1024.

Definition asset_error (reason : text) : error := ProvidedAssetsError reason None.

(** ** Names *)

Definition id_char (b : byte) : bool :=
  ((97 <=? b2z b) && (b2z b <=? 122)) || ((48 <=? b2z b) && (b2z b <=? 57)).

(** [^[a-z0-9]+(?:-[a-z0-9]+)*$], run left to right: [started] tells whether the
    current group of characters has begun. *)
Fixpoint matchID (started : bool) (s : bytes) : bool :=
  match s with
  | [] => started
  | b :: s => if id_char b then matchID true s
              else started && bool_decide (b = x2d) && matchID false s
  end.
Definition providedAssetIDPattern (s : bytes) : bool := matchID false s.

Definition ValidateProvidedAssetID (assetID : bytes) : result unit :=
  if negb (utf8.Valid assetID) then Err (asset_error (txt "provided asset ID is not valid UTF-8"))
  else if MaxProvidedAssetIDBytes <? len assetID then
    Err (asset_error (txt "provided asset ID exceeds 64 bytes"))
  else if negb (providedAssetIDPattern assetID) then
    Err (asset_error (txt "invalid provided asset ID: " ++ [Quoted assetID]))
  else Ok ().

Definition unsafe_filename (filename : bytes) : error :=
  asset_error (txt "unsafe provided asset filename: " ++ [Quoted filename]).

Definition ValidateProvidedAssetFilename (filename : bytes) : result unit :=
  if negb (utf8.Valid filename) then
    Err (asset_error (txt "provided asset filename is not valid UTF-8"))
  else if (len filename =? 0) || (MaxProvidedAssetFilenameBytes <? len filename) then
    Err (asset_error (txt "provided asset filename has an invalid length"))
  else if bool_decide (filename = bs ".") || bool_decide (filename = bs "..")
          || strings.ContainsAny filename (bs "/\") then
    Err (unsafe_filename filename)
  else if existsb (λ character, (character <? 0x20) || ((0x7f <=? character) && (character <=? 0x9f)))
            (utf8.runes filename) then
    Err (unsafe_filename filename)
  else Ok ().

(** ** The frozen set *)

Record ProvidedAssetsProvenance := mkProvenance {
  Revision : Z;
  EffectiveGeneration : Z;
  IntroducedAssetCount : Z;
  Created : bool
}.

(** Go's [ProvidedAsset] and [providedAssetRecord], which have the same fields. *)
Record ProvidedAsset := mkAsset {
  ID : bytes;
  Filename : bytes;
  Data : bytes;
  SHA256 : bytes;
  Size : Z
}.

Record ProvidedAssetMetadata := mkMetadata {
  mFilename : bytes;
  mID : bytes;
  mSHA256 : bytes;
  mSize : Z
}.
#[global] Instance ProvidedAssetMetadata_eq_dec : EqDecision ProvidedAssetMetadata.
Proof. solve_decision. Defined.

Record ProvidedAssets := mkAssets {
  Assets : list ProvidedAsset;
  Provenance : option ProvidedAssetsProvenance;
  assets : gmap bytes ProvidedAsset;
  order : list bytes
}.

(** The loop of [newProvidedAssets] over the sorted input. *)
Fixpoint addAssets (ordered : list ProvidedAsset) (p : ProvidedAssets) : result ProvidedAssets :=
  match ordered with
  | [] => Ok p
  | asset :: ordered =>
      _ ← ValidateProvidedAssetID (ID asset);
      _ ← ValidateProvidedAssetFilename (Filename asset);
      if bool_decide (is_Some (assets p !! ID asset)) then
        Err (asset_error (txt "provided asset IDs are not unique"))
      else
        let data := Data asset in
        let computed := sha256_hex data in
        if negb (bool_decide (SHA256 asset = [])) && negb (bool_decide (SHA256 asset = computed)) then
          Err (asset_error (txt "provided asset SHA-256 does not match its bytes"))
        else
          let record := mkAsset (ID asset) (Filename asset) data computed (len data) in
          addAssets ordered
            (mkAssets (Assets p ++ [record]) (Provenance p)
               (<[ID asset := record]> (assets p)) (order p ++ [ID asset]))
  end.

Definition newProvidedAssets (input : list ProvidedAsset) (provenance : option ProvidedAssetsProvenance)
  : result ProvidedAssets :=
  addAssets (sort.SliceBy ID input) (mkAssets [] provenance ∅ []).

(** The private records in order: what the loops over [p.order] visit. *)
Definition ordered_records (p : ProvidedAssets) : list ProvidedAsset :=
  omap (λ assetID, assets p !! assetID) (order p).

Definition AssetsCopy (p : option ProvidedAssets) : list ProvidedAsset :=
  match p with None => [] | Some p => ordered_records p end.

Definition metadata_of (asset : ProvidedAsset) : ProvidedAssetMetadata :=
  mkMetadata (Filename asset) (ID asset) (SHA256 asset) (Size asset).

Definition Metadata (p : option ProvidedAssets) : list ProvidedAssetMetadata :=
  match p with None => [] | Some p => metadata_of <$> ordered_records p end.

Definition assetMetadataFromSnapshot (snapshot : option ProvidedAssets) : list ProvidedAssetMetadata :=
  Metadata snapshot.

Definition descriptor (asset : ProvidedAsset) : bytes :=
  ID asset ++ [x09] ++ Filename asset ++ [x09] ++ strconv.Itoa (Size asset) ++ [x09] ++ SHA256 asset ++ [x0a].

Definition DescriptorBytes (p : option ProvidedAssets) : bytes :=
  match p with None => [] | Some p => ordered_records p ≫= descriptor end.

Definition out_of_range : error := asset_error (txt "provided-asset read is out of range").

(** [maxUint64-length] and [offset+length] are uint64 operations; the guard keeps
    the sum from wrapping. *)
Definition ReadAsset (p : ProvidedAssets) (assetID : bytes) (offset length : Z) : result bytes :=
  _ ← ValidateProvidedAssetID assetID;
  if MaxProvidedAssetReadBytes <? length then
    Err (asset_error (txt "provided-asset read length exceeds 1 MiB"))
  else match assets p !! assetID with
  | None => Err (asset_error (txt "provided asset does not exist"))
  | Some asset =>
      if (wrap64 (max_uint64 - length) <? offset) || (Size asset <? wrap64 (offset + length)) then
        Err out_of_range
      else Ok (slice offset (wrap64 (offset + length)) (Data asset))
  end.

(** ** The host services *)

Section Requests.
Context (quote : bytes → bytes).

Definition providedAssetResponse (requestID status : Z) (output : bytes) : result Frame :=
  let output := if (maxProvidedAssetDiagnosticSize <? len output) && negb (status =? 0)
                then takeZ maxProvidedAssetDiagnosticSize output else output in
  CreateHostServiceResponse requestID status output.

Definition diagnosticBytes (err : error) : bytes :=
  let data := render quote (Error err) in
  if maxProvidedAssetDiagnosticSize <? len data then takeZ maxProvidedAssetDiagnosticSize data else data.

Definition parseCanonicalUint64 (encoded : bytes) (name : string) : result Z :=
  let bad := PlainError (txt name ++ txt " is not canonical unsigned ASCII decimal") in
  match encoded with
  | [] => Err bad
  | first :: others =>
      if (1 <? len encoded) && bool_decide (first = x30) then Err bad
      else if negb (forallb strconv.is_digit encoded) then Err bad
      else match strconv.ParseUint encoded with
           | None => Err (PlainError (txt name ++ txt " exceeds uint64"))
           | Some value => Ok value
           end
  end.

Definition handleReadRequest (p : ProvidedAssets) (request : HostRequest) : result Frame :=
  let id := hrRequestID request in
  let refuse (output : bytes) := providedAssetResponse id 1 output in
  match Arguments_ request with
  | [encodedID; encodedOffset; encodedLength] =>
      if negb (utf8.Valid encodedID) then refuse (bs "provided asset ID is not valid UTF-8")
      else match ValidateProvidedAssetID encodedID with
      | Err err => refuse (diagnosticBytes err)
      | Ok _ =>
          match parseCanonicalUint64 encodedOffset "offset" with
          | Err err => refuse (render quote (Error err))
          | Ok offset =>
              match parseCanonicalUint64 encodedLength "length" with
              | Err err => refuse (render quote (Error err))
              | Ok length =>
                  match ReadAsset p encodedID offset length with
                  | Err err => refuse (diagnosticBytes err)
                  | Ok data => providedAssetResponse id 0 data
                  end
              end
          end
      end
  | _ => refuse (bs "read_provided_asset expects asset ID, offset, and length")
  end.

Definition HandleRequest (p : ProvidedAssets) (request : HostRequest) : result Frame :=
  let id := hrRequestID request in
  if bool_decide (ServiceName request = bs "list_provided_assets") then
    if negb (len (Arguments_ request) =? 0) then
      providedAssetResponse id 1 (bs "list_provided_assets expects no arguments")
    else
      let descriptor := DescriptorBytes (Some p) in
      if maxProvidedAssetFrameSize - 4 <? len descriptor then
        providedAssetResponse id 2 (bs "provided-asset descriptor list exceeds the frame limit")
      else providedAssetResponse id 0 descriptor
  else if bool_decide (ServiceName request = bs "read_provided_asset") then handleReadRequest p request
  else providedAssetResponse id 1 (bs "unknown host service: " ++ ServiceName request).
End Requests.

(** ** The tar of a multi-file asset *)

Definition TypeReg : byte := x30.
Definition TypeDir : byte := x35.

Record providedAssetEntry := mkEntry {
  path : bytes;
  kind : byte;
  mode : Z;
  entry_data : bytes
}.

Definition zeros (n : Z) : bytes := replicate (Z.to_nat n) x00.

(** [copy(destination, source)] into [n] zero bytes. *)
Definition copy_field (n : Z) (source : bytes) : bytes :=
  takeZ n source ++ zeros (n - len source).

Definition putTarOctal (size value : Z) : bytes :=
  let value := if value <? 0 then 0 else value in
  takeZ (size - 1) (copy_field size (strconv.octal (size - 1) value)) ++ [x00].

Definition ascii_name (name : bytes) : bytes :=
  (λ character, if character <? 0x80 then z2b character else x3f) <$> utf8.runes name.

Definition writeTarHeader (name : bytes) (mode size : Z) (typeflag : byte) : bytes :=
  let front := copy_field 100 (takeZ 100 (ascii_name name)) ++ putTarOctal 8 mode ++ putTarOctal 8 0
               ++ putTarOctal 8 0 ++ putTarOctal 12 size ++ putTarOctal 12 0 in
  let back := [typeflag] ++ zeros 100 ++ bs "ustar" ++ [x00] ++ bs "00" ++ zeros 247 in
  let checksum := foldr (λ value sum, b2z value + sum) 0 (front ++ replicate 8 x20 ++ back) in
  front ++ takeZ 8 (strconv.octal 6 checksum ++ [x00; x20]) ++ back.

Definition writeTarPayload (data : bytes) : bytes :=
  let remainder := len data mod 512 in
  data ++ (if remainder =? 0 then [] else zeros (512 - remainder)).

Definition isASCII (value : bytes) : bool := forallb (λ b, b2z b <? 0x80) value.

(** The search for the record length: [None] is out of fuel. *)
Fixpoint paxLength (fuel : nat) (lengthWithoutDigits digits : Z) : option Z :=
  match fuel with
  | O => None
  | S fuel =>
      let length := lengthWithoutDigits + digits in
      let next := lengthWithoutDigits + len (strconv.Itoa length) in
      if next =? length then Some length
      else paxLength fuel lengthWithoutDigits (len (strconv.Itoa next))
  end.

Definition paxRecord (key value : bytes) : option bytes :=
  length ← paxLength 3 (len key + len value + 3) 0;
  Some (strconv.Itoa length ++ [x20] ++ key ++ [x3d] ++ value ++ [x0a]).

(** The blocks of one entry. *)
Definition tarEntry (entry : providedAssetEntry) : result bytes :=
  let isdir := bool_decide (kind entry = TypeDir) in
  let name := if isdir then path entry ++ [x2f] else path entry in
  let typeflag := if isdir then TypeDir else TypeReg in
  let size := if isdir then 0 else len (entry_data entry) in
  let filemode := if isdir then 0x1ed
                  else if negb (Z.land (mode entry) 0x49 =? 0) then 0x1ed else 0x1a4 in
  if negb (utf8.Valid name) then Err (PlainError (txt "tar path is not valid UTF-8"))
  else
    let pax :=
      if negb (isASCII name) || (100 <? len name) then
        match paxRecord (bs "path") name with
        | Some record => writeTarHeader (bs "././@PaxHeader") 0 (len record) x78 ++ writeTarPayload record
        | None => []
        end
      else [] in
    Ok (pax ++ writeTarHeader name filemode size typeflag
        ++ (if bool_decide (kind entry = TypeReg) then writeTarPayload (entry_data entry) else [])).

Fixpoint tarEntries (entries : list providedAssetEntry) : result bytes :=
  match entries with
  | [] => Ok []
  | entry :: entries => block ← tarEntry entry; rest ← tarEntries entries; Ok (block ++ rest)
  end.

Definition encodeProvidedAssetTar (entries : list providedAssetEntry) : result bytes :=
  output ← tarEntries entries;
  let output := output ++ zeros 1024 in
  let remainder := len output mod 10240 in
  Ok (if remainder =? 0 then output else output ++ zeros (10240 - remainder)).

(** ** Freezing a directory

    What the file system holds under a name: [Lstat] fails, or it is a symbolic
    link, a special entry, a directory with its listing, or a regular file with
    its mode and its contents. *)
Inductive node :=
| Unavailable (err : error)
| Symlink
| Special
| Directory (listing : result (list (bytes * node)))
| Regular (mode : Z) (contents : result bytes).

(** Children are visited in name order; the first failure is the result. *)
Fixpoint sequence {A} (l : list (result (list A))) : result (list A) :=
  match l with
  | [] => Ok []
  | r :: l => a ← r; rest ← sequence l; Ok (a ++ rest)
  end.

Definition in_order {A} (children : list (bytes * result (list A))) : result (list A) :=
  sequence (snd <$> sort.SliceBy fst children).

(** One iteration of [walkProvidedAsset]'s loop, with the recursion into it. *)
Fixpoint walkChild (relativeDirectory name : bytes) (child : node) {struct child}
  : result (list providedAssetEntry) :=
  _ ← ValidateProvidedAssetFilename name;
  let relative := if bool_decide (relativeDirectory = []) then name
                  else relativeDirectory ++ [x2f] ++ name in
  match child with
  | Unavailable err =>
      Err (ProvidedAssetsError (txt "could not inspect provided asset entry " ++ [Quoted relative]) (Some err))
  | Symlink => Err (asset_error (txt "provided asset contains a symlink: " ++ [Quoted relative]))
  | Special =>
      Err (asset_error (txt "provided asset contains a special filesystem entry: " ++ [Quoted relative]))
  | Directory listing =>
      match listing with
      | Err err => Err (ProvidedAssetsError (txt "could not inspect provided asset") (Some err))
      | Ok children =>
          nested ← in_order
            ((fix visit (l : list (bytes * node)) : list (bytes * result (list providedAssetEntry)) :=
                match l with
                | [] => []
                | (name, child) :: l => (name, walkChild relative name child) :: visit l
                end) children);
          Ok (mkEntry relative TypeDir 0 [] :: nested)
      end
  | Regular mode contents =>
      match contents with
      | Err err => Err (ProvidedAssetsError (txt "could not read provided asset entry") (Some err))
      | Ok data => Ok [mkEntry relative TypeReg mode data]
      end
  end.

Definition walkProvidedAsset (listing : result (list (bytes * node))) (relativeDirectory : bytes)
  : result (list providedAssetEntry) :=
  match listing with
  | Err err => Err (ProvidedAssetsError (txt "could not inspect provided asset") (Some err))
  | Ok children => in_order ((λ c, (c.1, walkChild relativeDirectory c.1 c.2)) <$> children)
  end.

(** The file name and the bytes of one asset directory. *)
Definition deriveProvidedAsset (listing : result (list (bytes * node))) (assetID : bytes)
  : result (bytes * bytes) :=
  entries ← walkProvidedAsset listing [];
  let entries := sort.SliceBy path entries in
  let tar :=
    match encodeProvidedAssetTar entries with
    | Err err => Err (ProvidedAssetsError (txt "could not derive provided asset " ++ [Quoted assetID]) (Some err))
    | Ok data => Ok (assetID ++ bs ".tar", data)
    end in
  match entries with
  | [entry] =>
      if bool_decide (kind entry = TypeReg) && negb (strings.ContainsByte (path entry) x2f) then
        _ ← ValidateProvidedAssetFilename (path entry);
        Ok (path entry, entry_data entry)
      else tar
  | _ => tar
  end.

Definition loadAsset (entry : bytes * node) : result (list ProvidedAsset) :=
  let '(assetID, child) := entry in
  _ ← ValidateProvidedAssetID assetID;
  match child with
  | Unavailable err =>
      Err (ProvidedAssetsError (txt "could not inspect provided asset " ++ [Quoted assetID]) (Some err))
  | Directory listing =>
      '(filename, data) ← deriveProvidedAsset listing assetID;
      Ok [mkAsset assetID filename data (sha256_hex data) (len data)]
  | _ => Err (asset_error (txt "provided asset " ++ [Quoted assetID] ++ txt " must be a real directory"))
  end.

Definition LoadProvidedAssets (root : node) : result ProvidedAssets :=
  match root with
  | Unavailable err =>
      Err (ProvidedAssetsError (txt "provided-assets directory is unavailable") (Some err))
  | Directory (Err err) =>
      Err (ProvidedAssetsError (txt "could not inspect provided-assets directory") (Some err))
  | Directory (Ok entries) =>
      assets ← in_order ((λ e, (e.1, loadAsset e)) <$> entries);
      newProvidedAssets assets None
  | _ => Err (asset_error (txt "provided-assets path must be a real directory"))
  end.

(** ** The frozen set is what it should be *)

(** A record as it is stored: with the digest and size of its own bytes. *)
Definition frozen (a : ProvidedAsset) : ProvidedAsset :=
  mkAsset (ID a) (Filename a) (Data a) (sha256_hex (Data a)) (len (Data a)).

Definition acceptable (a : ProvidedAsset) : Prop :=
  ValidateProvidedAssetID (ID a) = Ok () ∧ ValidateProvidedAssetFilename (Filename a) = Ok ()
  ∧ (SHA256 a = [] ∨ SHA256 a = sha256_hex (Data a)).

Definition records_map (l : list ProvidedAsset) : gmap bytes ProvidedAsset :=
  list_to_map ((λ a, (ID a, frozen a)) <$> l).

Lemma records_map_lookup l id :
  NoDup (ID <$> l) → ∀ a, records_map l !! id = Some a ↔ ∃ b, b ∈ l ∧ ID b = id ∧ a = frozen b.
Proof.
  intros Hn a. unfold records_map. rewrite <- elem_of_list_to_map.
  - rewrite list_elem_of_fmap. split.
    + intros (b & [= -> ->] & Hb). eauto.
    + intros (b & Hb & <- & ->). eauto.
  - rewrite <- list_fmap_compose. exact Hn.
Qed.

(** The state of the loop after the accepted assets [done_]. *)
Definition frozen_set (accepted_ : list ProvidedAsset) (provenance : option ProvidedAssetsProvenance)
  : ProvidedAssets :=
  mkAssets (frozen <$> accepted_) provenance (records_map accepted_) (ID <$> accepted_).

Lemma records_map_snoc l a :
  ID a ∉ ID <$> l → records_map (l ++ [a]) = <[ID a := frozen a]> (records_map l).
Proof.
  intros Hn. unfold records_map. rewrite fmap_app, list_to_map_app. cbn.
  rewrite insert_empty, <- insert_union_singleton_r; [done|].
  apply not_elem_of_list_to_map. rewrite <- list_fmap_compose. exact Hn.
Qed.

Lemma frozen_set_snoc acc a prov :
  ID a ∉ ID <$> acc →
  frozen_set (acc ++ [a]) prov =
  let record := mkAsset (ID a) (Filename a) (Data a) (sha256_hex (Data a)) (len (Data a)) in
  mkAssets (Assets (frozen_set acc prov) ++ [record]) (Provenance (frozen_set acc prov))
    (<[ID a := record]> (assets (frozen_set acc prov))) (order (frozen_set acc prov) ++ [ID a]).
Proof. intros Hn. change (mkAsset _ _ _ _ _) with (frozen a). unfold frozen_set. by rewrite records_map_snoc, !fmap_app. Qed.

Lemma frozen_set_mem acc prov id :
  NoDup (ID <$> acc) → is_Some (assets (frozen_set acc prov) !! id) ↔ id ∈ ID <$> acc.
Proof.
  intros Hn. cbn. rewrite list_elem_of_fmap. split.
  - intros [b Hb]. apply records_map_lookup in Hb as (c & Hc & E & _); [|done]. eauto.
  - intros (c & E & Hc). exists (frozen c). apply records_map_lookup; eauto.
Qed.

(** The digest check of [newProvidedAssets], as a property. *)
Lemma digest_check a :
  negb (bool_decide (SHA256 a = [])) && negb (bool_decide (SHA256 a = sha256_hex (Data a))) = false
  ↔ SHA256 a = [] ∨ SHA256 a = sha256_hex (Data a).
Proof.
  rewrite andb_false_iff, !negb_false_iff, !bool_decide_eq_true. done.
Qed.

Lemma NoDup_snoc_mid {A} (l : list A) a k : NoDup ((l ++ [a]) ++ k) → a ∉ l.
Proof.
  rewrite <- app_assoc. intros (_ & Hd & _)%NoDup_app Ha. apply (Hd a Ha). set_solver.
Qed.

Lemma addAssets_iff l acc prov p :
  NoDup (ID <$> acc) →
  addAssets l (frozen_set acc prov) = Ok p ↔
  Forall acceptable l ∧ NoDup (ID <$> (acc ++ l)) ∧ p = frozen_set (acc ++ l) prov.
Proof.
  revert acc. induction l as [|a l IH]; intros acc Hn; cbn [addAssets].
  - rewrite app_nil_r. split; [by intros [= <-]|by intros (_ & _ & ->)].
  - assert (Eacc : acc ++ a :: l = (acc ++ [a]) ++ l) by (by rewrite <- app_assoc). rewrite Eacc.
    split.
    + intros ([] & Hid & E)%bind_Ok. apply bind_Ok in E as ([] & Hf & E).
      case_bool_decide as Hmem; [done|]. rewrite frozen_set_mem in Hmem by done.
      destruct (negb _ && negb _) eqn:Hdig in E; [done|]. apply digest_check in Hdig.
      pose proof (frozen_set_snoc acc a prov Hmem) as Es. cbn zeta in Es, E. rewrite <- Es in E.
      apply IH in E as (HF & Hnd & ->).
      * split_and!; try done. constructor; [done|done].
      * rewrite fmap_app. apply NoDup_app. split; [done|]. split; [|apply NoDup_singleton].
        intros x Hx ->%list_elem_of_singleton. done.
    + intros (HF & Hnd & ->). inversion HF as [|? ? (Hid & Hf & Hdig) HF']; subst.
      rewrite Hid, Hf. cbn [mbind result_bind].
      assert (Hmem : ID a ∉ ID <$> acc).
      { rewrite !fmap_app in Hnd. by apply NoDup_snoc_mid in Hnd. }
      rewrite bool_decide_eq_false_2 by (by rewrite frozen_set_mem).
      rewrite (proj2 (digest_check a) Hdig).
      pose proof (frozen_set_snoc acc a prov Hmem) as Es. cbn zeta in Es |- *.
      rewrite <- Es. apply IH; [|by inversion HF].
      rewrite (fmap_app _ (acc ++ [a])) in Hnd. by apply NoDup_app in Hnd as (? & _).
Qed.

Lemma newProvidedAssets_Ok input prov p :
  newProvidedAssets input prov = Ok p ↔
  Forall acceptable input ∧ NoDup (ID <$> input) ∧ p = frozen_set (sort.SliceBy ID input) prov.
Proof.
  unfold newProvidedAssets. change (mkAssets [] prov ∅ []) with (frozen_set [] prov).
  rewrite addAssets_iff by constructor. cbn [app]. by rewrite sort.SliceBy_perm at 1 2.
Qed.

Lemma ordered_records_frozen l prov : NoDup (ID <$> l) → ordered_records (frozen_set l prov) = frozen <$> l.
Proof.
  intros Hn. unfold ordered_records. cbn.
  assert (Hsub : ∀ k : list ProvidedAsset, (∀ a, a ∈ k → a ∈ l) → omap (λ id, records_map l !! id) (ID <$> k) = frozen <$> k).
  { induction k as [|a k IH]; intros Hk; [done|]. cbn.
    rewrite (proj2 (records_map_lookup l (ID a) Hn (frozen a))) by (exists a; set_solver).
    f_equal. apply IH. set_solver. }
  by apply Hsub.
Qed.

(** freezing assets is deterministic and checked. A list of assets is
    accepted exactly when every ID and file name is valid, the IDs are distinct
    and every supplied digest is the SHA-256 of its bytes; the frozen set then
    lists the assets by ascending ID with the digest and size of their bytes, and
    it is the same set for every order of the input. *)
Theorem newProvidedAssets_canonical input prov :
  ((∃ p, newProvidedAssets input prov = Ok p) ↔ Forall acceptable input ∧ NoDup (ID <$> input))
  ∧ ∀ p, newProvidedAssets input prov = Ok p →
      ordered_records p = frozen <$> sort.SliceBy ID input
      ∧ order p = ID <$> sort.SliceBy ID input
      ∧ (∀ id a, assets p !! id = Some a ↔ ∃ b, b ∈ input ∧ ID b = id ∧ a = frozen b)
      ∧ ∀ input', input ≡ₚ input' → newProvidedAssets input' prov = Ok p.
Proof.
  split.
  - setoid_rewrite newProvidedAssets_Ok. naive_solver.
  - intros p (HF & Hn & ->)%newProvidedAssets_Ok.
    assert (Hn' : NoDup (ID <$> sort.SliceBy ID input)) by (by apply sort.SliceBy_NoDup).
    split; [by apply ordered_records_frozen|]. split; [done|]. split.
    + intros id a. cbn. rewrite records_map_lookup by done. by setoid_rewrite sort.SliceBy_perm.
    + intros input' Hp. apply newProvidedAssets_Ok.
      split; [by rewrite <- Hp|]. split; [by rewrite <- Hp|].
      by rewrite (sort.SliceBy_unique ID input input').
Qed.

(** ** Reading *)

(** What every frozen set satisfies (see [newProvidedAssets_canonical]). *)
Definition assets_wf (p : ProvidedAssets) : Prop :=
  ∀ id a, assets p !! id = Some a →
    ID a = id ∧ ValidateProvidedAssetID id = Ok () ∧ Size a = len (Data a) ∧ len (Data a) < 2 ^ 63.

Lemma ReadAsset_Ok p id offset length data :
  assets_wf p → u64 offset → u64 length →
  ReadAsset p id offset length = Ok data ↔
  ∃ a, assets p !! id = Some a ∧ length ≤ MaxProvidedAssetReadBytes
    ∧ offset + length ≤ len (Data a) ∧ data = takeZ length (dropZ offset (Data a)).
Proof.
  intros Hwf [Ho1 Ho2] [Hl1 Hl2]. unfold ReadAsset, u64, wrap64, max_uint64, slice in *.
  rewrite (Z.mod_small (2 ^ 64 - 1 - length)) by lia.
  split.
  - intros ([] & Hid & E)%bind_Ok. case_in E; [done|]. zbool.
    destruct (assets p !! id) as [a|] eqn:Ea; [|done]. destruct (Hwf id a Ea) as (_ & _ & Hs & Hb).
    case_in E; [done|]. zbool. rewrite Z.mod_small in * by lia. injection E as <-.
    exists a. split_and!; try done; try lia. f_equal. lia.
  - intros (a & Ea & Hl & Hr & ->). destruct (Hwf id a Ea) as (_ & Hid & Hs & Hb).
    rewrite Hid. cbn [mbind result_bind]. rewrite (proj2 (Z.ltb_ge _ _)) by done. rewrite Ea.
    rewrite (Z.mod_small (offset + length)) by lia.
    rewrite !(proj2 (Z.ltb_ge _ _)) by lia. cbn. do 2 f_equal. lia.
Qed.

(** a read of a provided asset returns exactly the bytes asked for or
    nothing: it succeeds exactly for an existing asset, a length of at most 1 MiB
    and a range that lies within the asset, for all 64-bit offsets and lengths,
    so an offset near 2^64 cannot wrap around into the data. *)
Theorem ReadAsset_exact p id offset length :
  assets_wf p → u64 offset → u64 length →
  (∀ data, ReadAsset p id offset length = Ok data ↔
     ∃ a, assets p !! id = Some a ∧ length ≤ MaxProvidedAssetReadBytes
       ∧ offset + length ≤ len (Data a) ∧ data = takeZ length (dropZ offset (Data a)))
  ∧ ∀ data, ReadAsset p id offset length = Ok data → len data = length.
Proof.
  intros Hwf Ho Hl. split; [intros data; by apply ReadAsset_Ok|].
  intros data (a & _ & _ & Hr & ->)%ReadAsset_Ok; try done.
  destruct Ho, Hl. rewrite len_takeZ; [done|]. rewrite len_dropZ by lia. lia.
Qed.

Lemma canonical_Itoa n name : u64 n → parseCanonicalUint64 (strconv.Itoa n) name = Ok n.
Proof.
  intros Hn. pose proof (strconv.ParseUint_Itoa n Hn) as Hp.
  destruct (strconv.Itoa_spec n Hn) as (Hd & _ & Hne).
  destruct (decide (n = 0)) as [->|Hz]; [done|].
  destruct (strconv.Itoa_head n Hn ltac:(destruct Hn; lia)) as (b & ds & E & Hb).
  unfold parseCanonicalUint64. rewrite E in *. rewrite Hd, Hp.
  rewrite (bool_decide_eq_false_2 (b = x30)), andb_false_r; [done|]. intros ->. by vm_compute in Hb.
Qed.

Lemma ValidateID_utf8 id : ValidateProvidedAssetID id = Ok () → utf8.Valid id = true.
Proof. unfold ValidateProvidedAssetID. by destruct (utf8.Valid id). Qed.

Section ReadService.
Context (quote : bytes → bytes).

(** One [read_provided_asset] call as the guest sees it: the output of a status 0
    answer. *)
Definition read_call (p : ProvidedAssets) (requestID : Z) (id : bytes) (offset length : Z) : option bytes :=
  match HandleRequest quote p (mkHostRequest requestID (bs "read_provided_asset")
          [id; strconv.Itoa offset; strconv.Itoa length]) with
  | Ok f => match DecodeToolResult (Payload f) with
            | Ok r => if Status r =? 0 then Some (Output r) else None
            | Err _ => None
            end
  | Err _ => None
  end.

(** A guest that reads an asset in consecutive pieces. *)
Fixpoint read_pieces (p : ProvidedAssets) (requestID : Z) (id : bytes) (offset : Z) (sizes : list Z)
  : option bytes :=
  match sizes with
  | [] => Some []
  | n :: sizes => piece ← read_call p requestID id offset n;
                  rest ← read_pieces p requestID id (offset + n) sizes;
                  Some (piece ++ rest)
  end.

Lemma read_call_exact p requestID id a offset length :
  assets_wf p → assets p !! id = Some a → u32 requestID → requestID ≠ 0 →
  0 ≤ offset → 0 ≤ length ≤ MaxProvidedAssetReadBytes → offset + length ≤ len (Data a) →
  read_call p requestID id offset length = Some (takeZ length (dropZ offset (Data a))).
Proof.
  intros Hwf Ha Hr Hr0 Ho Hl Hs. destruct (Hwf id a Ha) as (_ & Hid & _ & Hb).
  pose proof (ValidateID_utf8 id Hid) as Hv.
  assert (u64 offset ∧ u64 length) as [Ho' Hl'] by (unfold u64, MaxProvidedAssetReadBytes in *; lia).
  unfold read_call, HandleRequest, handleReadRequest. cbn [ServiceName Arguments_ hrRequestID].
  rewrite bool_decide_eq_false_2 by (vm_compute; discriminate).
  rewrite bool_decide_eq_true_2 by done. rewrite Hv, Hid. cbn [negb]. cbn iota.
  rewrite !canonical_Itoa by done.
  assert (Hread : ReadAsset p id offset length = Ok (takeZ length (dropZ offset (Data a)))).
  { apply ReadAsset_Ok; [done..|]. exists a. split_and!; [done|lia|lia|done]. }
  rewrite Hread.
  unfold providedAssetResponse. rewrite Z.eqb_refl, andb_false_r. unfold CreateHostServiceResponse.
  rewrite (proj2 (Z.eqb_neq _ _) Hr0).
  assert (Hlen : len (takeZ length (dropZ offset (Data a))) = length).
  { rewrite len_takeZ; [done|]. rewrite len_dropZ by lia. lia. }
  rewrite (proj2 (Z.ltb_ge _ _)) by (rewrite Hlen; unfold MaxProvidedAssetReadBytes, MaxPayloadSize in *; lia).
  cbn [Payload]. unfold DecodeToolResult. rewrite (proj2 (Z.ltb_ge _ _)) by llia.
  rewrite takeZ_app, dropZ_app by by len_simp. by rewrite get32_put32_exact.
Qed.

Lemma read_pieces_from p requestID id a sizes offset :
  assets_wf p → assets p !! id = Some a → u32 requestID → requestID ≠ 0 →
  Forall (λ n, 0 ≤ n ≤ MaxProvidedAssetReadBytes) sizes → 0 ≤ offset →
  offset + foldr Z.add 0 sizes = len (Data a) →
  read_pieces p requestID id offset sizes = Some (dropZ offset (Data a)).
Proof.
  intros Hwf Ha Hr Hr0 HF. revert offset.
  induction HF as [|n sizes Hn HF IH]; intros offset Ho Hsum; cbn [read_pieces foldr] in *.
  - rewrite Z.add_0_r in Hsum. subst. unfold dropZ. by rewrite to_nat_len, drop_all.
  - assert (0 ≤ foldr Z.add 0 sizes).
    { clear -HF. induction HF; cbn; lia. }
    rewrite (read_call_exact p requestID id a) by (done || lia). cbn [mbind option_bind].
    rewrite IH by lia. cbn [mbind option_bind]. f_equal.
    rewrite <- dropZ_dropZ by lia. apply takeZ_dropZ.
Qed.

(** a guest can fetch every provided asset exactly: for any way of splitting
    an asset into consecutive pieces of at most 1 MiB, the successive
    [read_provided_asset] requests, with canonical decimal arguments, are all
    answered with status 0 and their outputs concatenate to the asset's bytes. *)
Theorem provided_asset_readable p requestID id a sizes :
  assets_wf p → assets p !! id = Some a → u32 requestID → requestID ≠ 0 →
  Forall (λ n, 0 ≤ n ≤ MaxProvidedAssetReadBytes) sizes → foldr Z.add 0 sizes = len (Data a) →
  read_pieces p requestID id 0 sizes = Some (Data a).
Proof. intros. apply (read_pieces_from p requestID id a sizes 0); auto; lia. Qed.
End ReadService.

(** ** The self-describing record of a long path *)

Lemma digits_mono n m : u64 n → u64 m → 0 < n ≤ m → len (strconv.Itoa n) ≤ len (strconv.Itoa m).
Proof.
  intros Hn Hm Hle. destruct (strconv.len_Itoa n Hn ltac:(lia)) as [Hn1 Hn2].
  destruct (strconv.len_Itoa m Hm ltac:(lia)) as [Hm1 Hm2].
  destruct (Z.le_gt_cases (len (strconv.Itoa n)) (len (strconv.Itoa m))); [done|].
  assert (10 ^ len (strconv.Itoa m) ≤ 10 ^ (len (strconv.Itoa n) - 1)) by (apply Z.pow_le_mono_r; lia). lia.
Qed.

(** Adding less than the number itself adds at most one digit. *)
Lemma digits_step n m : u64 n → u64 m → 0 < n ≤ m → m ≤ 10 * n →
  len (strconv.Itoa m) ≤ len (strconv.Itoa n) + 1.
Proof.
  intros Hn Hm Hle Hs. destruct (strconv.len_Itoa n Hn ltac:(lia)) as [Hn1 Hn2].
  destruct (strconv.len_Itoa m Hm ltac:(lia)) as [Hm1 Hm2].
  destruct (Z.le_gt_cases (len (strconv.Itoa m)) (len (strconv.Itoa n) + 1)); [done|].
  assert (10 ^ (len (strconv.Itoa n) + 1) ≤ 10 ^ (len (strconv.Itoa m) - 1)) by (apply Z.pow_le_mono_r; lia).
  rewrite Z.pow_add_r in * by lia. lia.
Qed.

Lemma digits_max n : u64 n → 0 < n → len (strconv.Itoa n) ≤ 20.
Proof.
  intros Hn H0. destruct (strconv.len_Itoa n Hn H0) as [H1 H2].
  destruct (Z.le_gt_cases (len (strconv.Itoa n)) 20); [done|].
  assert (10 ^ 20 ≤ 10 ^ (len (strconv.Itoa n) - 1)) by (apply Z.pow_le_mono_r; lia).
  destruct Hn. lia.
Qed.

Lemma digits_room n : u64 n → 0 < n → len (strconv.Itoa n) + 1 ≤ 9 * n.
Proof.
  intros Hu Hn. destruct (strconv.len_Itoa n Hu Hn) as [H1 [H2 _]].
  assert (len (strconv.Itoa n) - 1 < 10 ^ (len (strconv.Itoa n) - 1)) by (apply Z.pow_gt_lin_r; lia). lia.
Qed.

(** The number of digits [a] of [n], and [b] of [n + a], settle at [b]. *)
Lemma digits_settle n a b :
  0 < n < 2 ^ 62 → a = len (strconv.Itoa n) → b = len (strconv.Itoa (n + a)) →
  1 ≤ a ≤ b ∧ b ≤ 21 ∧ len (strconv.Itoa (n + b)) = b.
Proof.
  intros Hn Ea Eb.
  assert (Hu : ∀ k, 0 ≤ k ≤ 21 → u64 (n + k)) by (intros; unfold u64; lia).
  assert (Hun : u64 n) by (unfold u64; lia). assert (Hn0 : 0 < n) by lia.
  assert (Ha : 1 ≤ a ≤ 20).
  { subst a. split; [by apply strconv.len_Itoa|by apply digits_max]. }
  assert (Hroom : a + 1 ≤ 9 * n) by (subst a; by apply digits_room).
  assert (Hab : a ≤ b ≤ a + 1).
  { rewrite Eb. rewrite Ea at 1 4. split; [apply digits_mono|apply digits_step]; auto; try apply Hu; lia. }
  split; [lia|]. split; [lia|].
  destruct (Z.eq_dec b a) as [E|E]; [by rewrite E at 1|].
  assert (H1 : b ≤ len (strconv.Itoa (n + b))).
  { rewrite Eb at 1. apply digits_mono; try apply Hu; lia. }
  assert (H2 : len (strconv.Itoa (n + b)) ≤ a + 1).
  { rewrite Ea. apply digits_step; auto; try apply Hu; lia. }
  lia.
Qed.

Lemma paxLength_found base :
  3 ≤ base < 2 ^ 62 →
  ∃ length, paxLength 3 base 0 = Some length ∧ length = base + len (strconv.Itoa length) ∧ u64 length.
Proof.
  intros Hb. destruct (digits_settle base _ _ ltac:(lia) eq_refl eq_refl) as (Ha & Hb' & Hc).
  cbn [paxLength]. rewrite Z.add_0_r.
  remember (len (strconv.Itoa base)) as a eqn:Ea. remember (len (strconv.Itoa (base + a))) as b eqn:Eb.
  rewrite (proj2 (Z.eqb_neq (base + a) base)) by lia. rewrite Hc, Z.eqb_refl.
  exists (base + b). split; [done|]. split; [by rewrite Hc|]. unfold u64. lia.
Qed.

(** the extended header record of a long or non-ASCII path is well formed for
    every path: the search for its length ends within three rounds, and the
    decimal number at the front of the record is the length of the whole record,
    itself included. *)
Theorem paxRecord_self_describing key value :
  len key + len value < 2 ^ 61 →
  ∃ length rest, paxRecord key value = Some (strconv.Itoa length ++ [x20] ++ rest)
    ∧ rest = key ++ [x3d] ++ value ++ [x0a]
    ∧ len (strconv.Itoa length ++ [x20] ++ rest) = length
    ∧ strconv.ParseUint (strconv.Itoa length) = Some length.
Proof.
  intros Hl. pose proof (len_nonneg key). pose proof (len_nonneg value).
  destruct (paxLength_found (len key + len value + 3) ltac:(lia)) as (length & E & Hlen & Hu).
  unfold paxRecord. rewrite E. cbn [mbind option_bind]. exists length, (key ++ [x3d] ++ value ++ [x0a]).
  split; [done|]. split; [done|]. split; [|by apply strconv.ParseUint_Itoa].
  rewrite !len_app. change (len [x20]) with 1. change (len [x3d]) with 1. change (len [x0a]) with 1. lia.
Qed.

(** ** Witnesses *)

Definition sample_assets : ProvidedAssets :=
  frozen_set [mkAsset (bs "font-8x8") (bs "font.bin") (bs "glyphs") [] 0] None.

Lemma sample_assets_made :
  newProvidedAssets [mkAsset (bs "font-8x8") (bs "font.bin") (bs "glyphs") [] 0] None = Ok sample_assets.
Proof. vm_compute. reflexivity. Qed.

Lemma sample_assets_wf : assets_wf sample_assets.
Proof.
  intros id a Ha. unfold sample_assets, frozen_set in Ha. cbn [assets] in Ha.
  apply records_map_lookup in Ha; [|by apply NoDup_singleton].
  destruct Ha as (b & Hb & <- & ->). apply list_elem_of_singleton in Hb as ->. by vm_compute.
Qed.

Lemma ReadAsset_exact_witness :
  ReadAsset sample_assets (bs "font-8x8") 2 3 = Ok (bs "yph")
  ∧ ∀ data, ReadAsset sample_assets (bs "font-8x8") 2 3 = Ok data → len data = 3.
Proof.
  split; [vm_compute; reflexivity|].
  exact (proj2 (ReadAsset_exact sample_assets (bs "font-8x8") 2 3 sample_assets_wf
    ltac:(by vm_compute) ltac:(by vm_compute))).
Defined.

Lemma provided_asset_readable_witness :
  read_pieces id sample_assets 5 (bs "font-8x8") 0 [4; 2] = Some (bs "glyphs").
Proof.
  apply (provided_asset_readable id sample_assets 5 (bs "font-8x8")
    (frozen (mkAsset (bs "font-8x8") (bs "font.bin") (bs "glyphs") [] 0)));
    [exact sample_assets_wf|vm_compute; reflexivity|by vm_compute|done| |done].
  by repeat constructor; vm_compute.
Defined.

Lemma paxRecord_self_describing_witness :
  ∃ length rest, paxRecord (bs "path") (bs "seed/file") = Some (strconv.Itoa length ++ [x20] ++ rest)
    ∧ len (strconv.Itoa length ++ [x20] ++ rest) = length.
Proof.
  destruct (paxRecord_self_describing (bs "path") (bs "seed/file") ltac:(by vm_compute))
    as (length & rest & E & _ & Hl & _).
  exists length, rest. split; [exact E|exact Hl].
Defined.
