(* ===== verification/AssetManifest.v ===== *)
(** * Provenance of provided assets (src/internal/store/provided_assets_manifest.go)

    The run-level manifest: an append-only list of revisions, each naming every
    asset introduced so far. The manifest file is modelled by the value it parses
    to; encoding to and from JSON text is not modelled here. Another process can
    change the file between the steps of a configuration: what each step finds is an
    argument. *)

From S2P Require Import Prelude GoStd Framing Protocol Sha256 ProvidedAssets.
Open Scope Z_scope.

Definition providedAssetsLegacySchema : Z := 1.
Definition providedAssetsSchema : Z := 2.

Record providedAssetRevision := mkRevision {
  rAssets : list ProvidedAssetMetadata;
  rEffectiveGeneration : option Z;
  rRevision : Z
}.
#[global] Instance providedAssetRevision_eq_dec : EqDecision providedAssetRevision.
Proof. solve_decision. Defined.

Record providedAssetsManifest := mkManifest {
  SchemaVersion : Z;
  manifestAssets : list ProvidedAssetMetadata;
  Revisions : list providedAssetRevision
}.
#[global] Instance providedAssetsManifest_eq_dec : EqDecision providedAssetsManifest.
Proof. solve_decision. Defined.

(** ** Validation *)

Definition sha256_text (digest : bytes) : bool :=
  (len digest =? 64)
  && forallb (λ b, ((48 <=? b2z b) && (b2z b <=? 57)) || ((97 <=? b2z b) && (b2z b <=? 102))) digest.

(** The loop of [validateProvidedAssetMetadataList]; [previous] is [None] at index 0. *)
Fixpoint validateMetadataFrom (previous : option bytes) (l : list ProvidedAssetMetadata) : result unit :=
  match l with
  | [] => Ok ()
  | asset :: l =>
      if match previous with Some p => sort.bytes_leb (mID asset) p | None => false end then
        Err (asset_error (txt "provided-assets provenance is not ID ordered"))
      else
        _ ← ValidateProvidedAssetID (mID asset);
        _ ← ValidateProvidedAssetFilename (mFilename asset);
        if negb (sha256_text (mSHA256 asset)) then
          Err (asset_error (txt "provided-assets provenance has invalid SHA-256"))
        else validateMetadataFrom (Some (mID asset)) l
  end.
Definition validateProvidedAssetMetadataList (l : list ProvidedAssetMetadata) : result unit :=
  validateMetadataFrom None l.

Definition byID (current : list ProvidedAssetMetadata) : gmap bytes ProvidedAssetMetadata :=
  fold_left (λ m item, <[mID item := item]> m) current ∅.

Fixpoint checkRecorded (previous : list ProvidedAssetMetadata) (currentByID : gmap bytes ProvidedAssetMetadata)
  : result unit :=
  match previous with
  | [] => Ok ()
  | recorded :: previous =>
      match currentByID !! mID recorded with
      | None => Err (asset_error (txt "supplied provided-assets set omits previously introduced asset "
                       ++ [Quoted (mID recorded)]))
      | Some supplied =>
          if negb (bool_decide (supplied = recorded)) then
            Err (asset_error (txt "supplied provided asset changed after introduction: " ++ [Quoted (mID recorded)]))
          else checkRecorded previous currentByID
      end
  end.

(** The assets of [current] that [previous] does not have. *)
Definition validateProvidedMetadataAppendOnly (previous current : list ProvidedAssetMetadata)
  : result (list ProvidedAssetMetadata) :=
  _ ← checkRecorded previous (byID current);
  Ok (filter (λ item, mID item ∉ mID <$> previous) current).

Definition validateProvidedAssetsAppendOnly (previous : list ProvidedAssetMetadata) (snapshot : ProvidedAssets)
  : result (list ProvidedAssetMetadata) :=
  validateProvidedMetadataAppendOnly previous (assetMetadataFromSnapshot (Some snapshot)).

(** The loop of [validateProvidedManifestValue]: [before] is the previous revision
    and [previousGeneration] the last known activation. *)
Fixpoint validateRevisionsFrom (count index : Z) (before : option providedAssetRevision)
  (previousGeneration : option Z) (l : list providedAssetRevision) : result unit :=
  match l with
  | [] => Ok ()
  | revision :: l =>
      if negb (rRevision revision =? index + 1) then
        Err (asset_error (txt "provided-assets provenance revisions are not contiguous"))
      else
        _ ← match rEffectiveGeneration revision with
            | None => if negb (index =? 0) || (count =? 1) then
                        Err (asset_error (txt "provided-assets provenance has invalid activation")) else Ok ()
            | Some generation =>
                match previousGeneration with
                | Some previous =>
                    if generation <? previous then
                      Err (asset_error (txt "provided-assets provenance activation is not ordered")) else Ok ()
                | None => Ok ()
                end
            end;
        let previousGeneration :=
          match rEffectiveGeneration revision with Some g => Some g | None => previousGeneration end in
        _ ← validateProvidedAssetMetadataList (rAssets revision);
        _ ← match before with
            | None => Ok ()
            | Some before =>
                introduced ← validateProvidedMetadataAppendOnly (rAssets before) (rAssets revision);
                if bool_decide (introduced = []) && bool_decide (is_Some previousGeneration)
                   && bool_decide (is_Some (rEffectiveGeneration before)) then
                  Err (asset_error (txt "provided-assets provenance contains a duplicate revision"))
                else Ok ()
            end;
        validateRevisionsFrom count (index + 1) (Some revision) previousGeneration l
  end.

Definition validateProvidedManifestValue (value : providedAssetsManifest) : result unit :=
  if SchemaVersion value =? providedAssetsLegacySchema then
    validateProvidedAssetMetadataList (manifestAssets value)
  else if negb (SchemaVersion value =? providedAssetsSchema) || (len (Revisions value) =? 0) then
    Err (asset_error (txt "provided-assets provenance has invalid revisions"))
  else validateRevisionsFrom (len (Revisions value)) 0 None None (Revisions value).

(** ** Publication *)

(** The manifest file: absent, or what reading and parsing it gives. *)
Abbreviation file := (option (result providedAssetsManifest)).

Definition read_file (f : file) : result providedAssetsManifest :=
  match f with
  | None => Err (ProvidedAssetsError (txt "provided-assets provenance is not a regular file")
                   (Some (SystemError (txt "no such file or directory"))))
  | Some r => r
  end.

(** What a configuration meets: the manifest file as it is first read, the outcome of
    preparing the temporary file, the file when it is read again, the file at the time
    of the link or the rename, and a failure of that call other than that the
    destination exists. Nothing is locked between these points, so another process may
    change the file between any two of them. *)
Record encounter := mkEncounter {
  seen : file;
  prepared : option error;
  again : file;
  now : file;
  published : option error
}.

Definition providedAssetsPersistError (err : error) : error :=
  match err with
  | ProvidedAssetsError _ _ => err
  | _ => ProvidedAssetsError (txt "could not persist provided-assets provenance") (Some err)
  end.

(** The link fails when the file exists; then it is read. *)
Definition writeProvidedAssetsManifestOnce (value : providedAssetsManifest) (w : encounter) : result unit * file :=
  match validateProvidedManifestValue value with
  | Err err => (Err err, now w)
  | Ok _ =>
      match prepared w, published w, now w with
      | Some err, _, _ | None, Some err, _ => (Err (providedAssetsPersistError err), now w)
      | None, None, None => (Ok (), Some (Ok value))
      | None, None, Some _ =>
          (recorded ← read_file (again w);
           if negb (bool_decide (recorded = value)) then
             Err (asset_error (txt "provided-assets provenance was initialized concurrently with different contents"))
           else Ok (), now w)
      end
  end.

(** The file is read and compared, and then replaced, whatever it is by then. *)
Definition replaceProvidedAssetsManifestAtomically (value expected : providedAssetsManifest) (w : encounter)
  : result unit * file :=
  match validateProvidedManifestValue value with
  | Err err => (Err err, now w)
  | Ok _ =>
      match prepared w with
      | Some err => (Err (providedAssetsPersistError err), now w)
      | None =>
          match read_file (again w) with
          | Err err => (Err err, now w)
          | Ok recorded =>
              if negb (bool_decide (recorded = expected)) then
                (Err (asset_error (txt "provided-assets provenance changed during configuration")), now w)
              else match published w with
                   | Some err => (Err (providedAssetsPersistError err), now w)
                   | None => (Ok (), Some (Ok value))
                   end
          end
      end
  end.

Definition manifestRevisions (value : providedAssetsManifest) : list providedAssetRevision :=
  if SchemaVersion value =? providedAssetsLegacySchema
  then [mkRevision (manifestAssets value) None 1]
  else Revisions value.

Definition snapshotWithProvidedProvenance (snapshot : ProvidedAssets) (provenance : ProvidedAssetsProvenance)
  : result ProvidedAssets :=
  newProvidedAssets (AssetsCopy (Some snapshot)) (Some provenance).

(** Publish a first revision, or one more after the [recorded] manifest. (The
    parser refuses a manifest without revisions, so the source indexes the last
    one; here the impossible case is an error.) *)
Definition firstRevision (snapshot : ProvidedAssets) (generation : Z) (w : encounter)
  : result (option ProvidedAssets) * file :=
  let revision := mkRevision (assetMetadataFromSnapshot (Some snapshot)) (Some generation) 1 in
  let initial := mkManifest providedAssetsSchema [] [revision] in
  let '(r, f) := writeProvidedAssetsManifestOnce initial w in
  (_ ← r; s ← snapshotWithProvidedProvenance snapshot
               (mkProvenance 1 generation (len (order snapshot)) true); Ok (Some s), f).

Definition nextRevision (recorded : providedAssetsManifest) (snapshot : ProvidedAssets) (generation : Z) (w : encounter)
  : result (option ProvidedAssets) * file :=
  match last (manifestRevisions recorded) with
  | None => (Err (asset_error (txt "provided-assets provenance has invalid revisions")), now w)
  | Some latest =>
  match validateProvidedAssetsAppendOnly (rAssets latest) snapshot with
  | Err err => (Err err, now w)
  | Ok introduced =>
      if (SchemaVersion recorded =? providedAssetsSchema) && (len introduced =? 0) then
        match rEffectiveGeneration latest with
        | None => (Err (asset_error (txt "provided-assets provenance has no current activation")), now w)
        | Some current =>
            (s ← snapshotWithProvidedProvenance snapshot (mkProvenance (rRevision latest) current 0 false);
             Ok (Some s), now w)
        end
      else if match rEffectiveGeneration latest with Some g => generation <? g | None => false end then
        (Err (asset_error (txt "provided-assets revision cannot precede its current activation")), now w)
      else if rRevision latest =? max_uint64 then
        (Err (asset_error (txt "provided-assets revision number is exhausted")), now w)
      else
        let revisionNumber := wrap64 (rRevision latest + 1) in
        let revision := mkRevision (assetMetadataFromSnapshot (Some snapshot)) (Some generation) revisionNumber in
        let updated := mkManifest providedAssetsSchema [] (manifestRevisions recorded ++ [revision]) in
        let '(r, f) := replaceProvidedAssetsManifestAtomically updated recorded w in
        (_ ← r; s ← snapshotWithProvidedProvenance snapshot
                     (mkProvenance revisionNumber generation (len introduced) true); Ok (Some s), f)
  end end.

Definition ConfigureProvidedAssets (external : option node) (generation : Z) (w : encounter)
  : result (option ProvidedAssets) * file :=
  match external with
  | None =>
      match seen w with
      | Some _ => (Err (asset_error (txt "run records provided assets; --provided-assets is required")), now w)
      | None => (Ok None, now w)
      end
  | Some directory =>
      match LoadProvidedAssets directory with
      | Err err => (Err err, now w)
      | Ok snapshot =>
          match seen w with
          | Some r => match r with
                      | Err err => (Err err, now w)
                      | Ok recorded => nextRevision recorded snapshot generation w
                      end
          | None => firstRevision snapshot generation w
          end
      end
  end.

(** ** Append-only history *)

Lemma byID_spec (current : list ProvidedAssetMetadata) (m : gmap bytes ProvidedAssetMetadata) :
  (∀ id a, m !! id = Some a → mID a = id) →
  ∀ id a, fold_left (λ m item, <[mID item := item]> m) current m !! id = Some a →
    mID a = id ∧ (a ∈ current ∨ m !! id = Some a).
Proof.
  revert m. induction current as [|x current IH]; intros m Hm id a Ha; cbn in Ha; [auto|].
  destruct (IH (<[mID x := x]> m)) with (id := id) (a := a) as [Hid [Hin|Hl]]; [|done|set_solver|].
  - intros i y. destruct (decide (i = mID x)) as [->|]; [rewrite lookup_insert_eq; congruence|].
    rewrite lookup_insert_ne by done. apply Hm.
  - destruct (decide (id = mID x)) as [->|].
    + rewrite lookup_insert_eq in Hl. injection Hl as <-. set_solver.
    + rewrite lookup_insert_ne in Hl by done. auto.
Qed.

Lemma byID_In (current : list ProvidedAssetMetadata) id a : byID current !! id = Some a → a ∈ current ∧ mID a = id.
Proof.
  intros Ha. destruct (byID_spec current ∅) with (id := id) (a := a) as [? [?|Hl]]; auto; try done.
Qed.

Lemma checkRecorded_Ok (previous : list ProvidedAssetMetadata) (m : gmap bytes ProvidedAssetMetadata) :
  checkRecorded previous m = Ok () ↔ Forall (λ a, m !! mID a = Some a) previous.
Proof.
  induction previous as [|a previous IH]; cbn; [done|]. rewrite Forall_cons, <- IH.
  destruct (m !! mID a) as [b|]; [|split; [done|by intros [[=] _]]].
  case_bool_decide as E; cbn; [subst; naive_solver|split; [done|intros [[=] _]; done]].
Qed.

Lemma append_only_subset previous current introduced :
  validateProvidedMetadataAppendOnly previous current = Ok introduced →
  (∀ a, a ∈ previous → a ∈ current) ∧ introduced = filter (λ item, mID item ∉ mID <$> previous) current.
Proof.
  intros ([] & Hc & [= <-])%bind_Ok. split; [|done]. apply checkRecorded_Ok in Hc.
  rewrite Forall_forall in Hc. intros a Ha. apply (byID_In current (mID a)). by apply Hc.
Qed.

Definition gen_le (g : option Z) (r : providedAssetRevision) : Prop :=
  ∀ a b, g = Some a → rEffectiveGeneration r = Some b → a ≤ b.

(** What holds of a later revision relative to an earlier one. *)
Definition extends (r1 r2 : providedAssetRevision) : Prop :=
  (∀ a, a ∈ rAssets r1 → a ∈ rAssets r2) ∧ gen_le (rEffectiveGeneration r1) r2.

Lemma validateRevisions_history count index before pg l :
  validateRevisionsFrom count index before pg l = Ok () →
  StronglySorted extends l
  ∧ Forall (λ r, (∀ b, before = Some b → ∀ a, a ∈ rAssets b → a ∈ rAssets r) ∧ gen_le pg r
                 ∧ validateProvidedAssetMetadataList (rAssets r) = Ok ()) l
  ∧ ∀ i r, l !! i = Some r → rRevision r = index + Z.of_nat i + 1.
Proof.
  revert index before pg. induction l as [|r l IH]; intros index before pg E; [by repeat constructor|].
  cbn [validateRevisionsFrom] in E. destruct (rRevision r =? index + 1) eqn:Er; cbn [negb] in E; [|done].
  apply bind_Ok in E as ([] & Hgen & E). apply bind_Ok in E as ([] & Hmeta & E).
  apply bind_Ok in E as ([] & Hbefore & E). zbool.
  apply IH in E as (Hs & Hf & Hi). rewrite Forall_forall in Hf.
  assert (Hpg : gen_le pg r).
  { intros a b -> Eb. rewrite Eb in Hgen. destruct (b <? a) eqn:Eba; [done|]. zbool. lia. }
  assert (Hext : ∀ r', r' ∈ l → extends r r').
  { intros r' Hr'. destruct (Hf r' Hr') as (Hsub & Hg & _). split; [by apply Hsub|].
    intros a b Ea. rewrite Ea in Hg. by apply Hg. }
  split; [|split].
  - constructor; [done|]. apply Forall_forall. auto.
  - constructor.
    + split; [|done]. intros b -> a Ha. apply bind_Ok in Hbefore as (intro & Hap & _).
      by apply (append_only_subset _ _ _ Hap).
    + apply Forall_forall. intros r' Hr'. destruct (Hf r' Hr') as (Hsub & Hg & Hm). split; [|split; [|done]].
      * intros b -> a Ha. apply (Hsub r eq_refl). apply bind_Ok in Hbefore as (intro & Hap & _).
        by apply (append_only_subset _ _ _ Hap).
      * intros a b Ea Eb. destruct (rEffectiveGeneration r) as [g|] eqn:Eg.
        -- transitivity g; [by apply Hpg|]. by apply Hg.
        -- by apply (Hg a b).
  - intros [|i] r' Hl; cbn in Hl; [injection Hl as <-; lia|]. rewrite (Hi i r' Hl). lia.
Qed.

Lemma StronglySorted_pair {A} (R : A → A → Prop) l i j x y :
  StronglySorted R l → (i < j)%nat → l !! i = Some x → l !! j = Some y → R x y.
Proof.
  intros Hs. revert i j. induction Hs as [|z l Hs IH Hz]; intros i j Hij Hi Hj; [done|].
  destruct j as [|j]; [lia|]. destruct i as [|i]; cbn in *.
  - injection Hi as <-. rewrite Forall_forall in Hz. apply Hz. by eapply list_elem_of_lookup_2.
  - apply (IH i j); [lia|done..].
Qed.

(** a manifest that validates is an append-only history: its revisions are
    numbered 1, 2, 3, ..., every asset of a revision is present with the same
    name, digest and size in every later revision, and activations never go back
    to an earlier generation. *)
Theorem manifest_append_only value i j ri rj :
  validateProvidedManifestValue value = Ok () → SchemaVersion value = providedAssetsSchema →
  (i ≤ j)%nat → Revisions value !! i = Some ri → Revisions value !! j = Some rj →
  rRevision ri = Z.of_nat i + 1
  ∧ (∀ a, a ∈ rAssets ri → a ∈ rAssets rj)
  ∧ ∀ g g', rEffectiveGeneration ri = Some g → rEffectiveGeneration rj = Some g' → g ≤ g'.
Proof.
  intros Hv Hs Hij Hi Hj. unfold validateProvidedManifestValue in Hv. rewrite Hs in Hv. cbn in Hv.
  case_in Hv; [done|]. apply validateRevisions_history in Hv as (Hsort & _ & Hnum).
  split; [rewrite (Hnum i ri Hi); lia|].
  destruct (decide (i = j)) as [->|].
  - rewrite Hi in Hj. injection Hj as <-. split; [done|]. intros g g' -> [= ->]. lia.
  - apply (StronglySorted_pair extends _ i j ri rj Hsort); [lia|done..].
Qed.

(** ** Configuration *)

Lemma frozen_idem a : frozen (frozen a) = frozen a.
Proof. done. Qed.

(** Re-freezing a frozen set with a provenance keeps its records. *)
Lemma refreeze input p prov :
  newProvidedAssets input None = Ok p →
  ∃ q, newProvidedAssets (AssetsCopy (Some p)) (Some prov) = Ok q
    ∧ order q = order p ∧ Provenance q = Some prov ∧ ordered_records q = ordered_records p.
Proof.
  intros (HF & Hn & ->)%newProvidedAssets_Ok. cbn [AssetsCopy].
  set (l := sort.SliceBy ID input).
  assert (Hnl : NoDup (ID <$> l)) by (by apply sort.SliceBy_NoDup).
  assert (HFl : Forall acceptable l) by (unfold l; by rewrite sort.SliceBy_perm).
  rewrite ordered_records_frozen by done.
  assert (Eid : ID <$> (frozen <$> l) = ID <$> l) by (rewrite <- list_fmap_compose; done).
  assert (Hsort : sort.SliceBy ID (frozen <$> l) = frozen <$> l).
  { apply sort.SliceBy_id; [by rewrite Eid|].
    eapply StronglySorted_fmap; [|exact (sort.SliceBy_sorted ID input)]. done. }
  exists (frozen_set (frozen <$> l) (Some prov)). split_and!.
  - apply newProvidedAssets_Ok. rewrite Hsort, Eid. split_and!; try done.
    apply Forall_fmap. eapply Forall_impl; [exact HFl|]. intros a (H1 & H2 & _). split_and!; try done. by right.
  - cbn. by rewrite Eid.
  - done.
  - rewrite ordered_records_frozen by (by rewrite Eid). rewrite <- list_fmap_compose. done.
Qed.

Lemma LoadProvidedAssets_made directory p :
  LoadProvidedAssets directory = Ok p → ∃ input, newProvidedAssets input None = Ok p.
Proof.
  unfold LoadProvidedAssets. destruct directory as [e| | |[entries|e]|]; try done.
  intros (input & _ & E)%bind_Ok. eauto.
Qed.

Definition recorded_revisions (seen : file) : list providedAssetRevision :=
  match seen with Some (Ok recorded) => manifestRevisions recorded | _ => [] end.

Lemma firstRevision_spec input snapshot generation w r f' :
  newProvidedAssets input None = Ok snapshot →
  firstRevision snapshot generation w = (r, f') →
  (∀ e, r = Err e → f' = now w)
  ∧ (f' ≠ now w → now w = None ∧ ∃ rev, f' = Some (Ok (mkManifest providedAssetsSchema [] [rev]))
       ∧ validateProvidedManifestValue (mkManifest providedAssetsSchema [] [rev]) = Ok ()
       ∧ rEffectiveGeneration rev = Some generation ∧ rAssets rev = Metadata (Some snapshot)).
Proof.
  intros Hmade. unfold firstRevision, writeProvidedAssetsManifestOnce.
  set (rev := mkRevision _ (Some generation) 1).
  destruct (refreeze input snapshot (mkProvenance 1 generation (len (order snapshot)) true) Hmade)
    as (q & Eq & _). unfold snapshotWithProvidedProvenance. rewrite Eq.
  destruct (validateProvidedManifestValue (mkManifest providedAssetsSchema [] [rev])) as [[]|e] eqn:Ev;
    [|by intros [= <- <-]].
  destruct (prepared w); [by intros [= <- <-]|]. destruct (published w); [by intros [= <- <-]|].
  destruct (now w) as [x|]; intros [= <- <-]; [by split|].
  split; [done|]. intros _. split; [done|]. exists rev. done.
Qed.

Lemma nextRevision_spec input recorded snapshot generation w r f' :
  newProvidedAssets input None = Ok snapshot →
  nextRevision recorded snapshot generation w = (r, f') →
  (∀ e, r = Err e → f' = now w)
  ∧ (f' ≠ now w → again w = Some (Ok recorded)
       ∧ (∀ other, nextRevision recorded snapshot generation
            (mkEncounter (seen w) (prepared w) (again w) other (published w)) = (r, f'))
       ∧ ∃ rev, let value := mkManifest providedAssetsSchema [] (manifestRevisions recorded ++ [rev]) in
         f' = Some (Ok value) ∧ validateProvidedManifestValue value = Ok ()
         ∧ rEffectiveGeneration rev = Some generation ∧ rAssets rev = Metadata (Some snapshot)).
Proof.
  intros Hmade. unfold nextRevision.
  destruct (last (manifestRevisions recorded)) as [latest|]; [|by intros [= <- <-]].
  destruct (validateProvidedAssetsAppendOnly (rAssets latest) snapshot) as [introduced|e]; [|by intros [= <- <-]].
  destruct (_ && (len introduced =? 0)).
  { destruct (rEffectiveGeneration latest) as [g|]; [|by intros [= <- <-]].
    destruct (refreeze input snapshot (mkProvenance (rRevision latest) g 0 false) Hmade) as (q & Eq & _).
    unfold snapshotWithProvidedProvenance. rewrite Eq. by intros [= <- <-]. }
  destruct (match rEffectiveGeneration latest with Some _ => _ | None => _ end); [by intros [= <- <-]|].
  destruct (rRevision latest =? max_uint64); [by intros [= <- <-]|].
  set (rev := mkRevision _ (Some generation) _). unfold replaceProvidedAssetsManifestAtomically.
  set (value := mkManifest providedAssetsSchema [] (manifestRevisions recorded ++ [rev])).
  destruct (validateProvidedManifestValue value) as [[]|e] eqn:Ev; [|by intros [= <- <-]].
  cbn [prepared again now published]. destruct (prepared w); [by intros [= <- <-]|].
  destruct (again w) as [[current|e]|]; cbn [read_file]; [|by intros [= <- <-]..].
  case_bool_decide as Ecur; cbn [negb]; [|by intros [= <- <-]]. subst current.
  destruct (published w); [by intros [= <- <-]|].
  destruct (refreeze input snapshot
    (mkProvenance (rRevision rev) generation (len introduced) true) Hmade) as (q & Eq & _).
  unfold snapshotWithProvidedProvenance. cbn [mbind result_bind rRevision rev] in *. rewrite Eq.
  intros [= <- <-]. split; [done|]. intros _. split; [done|]. split; [done|]. by exists rev.
Qed.

(** The same configuration with another file at the time of the link or the rename. *)
Definition with_now (other : file) (w : encounter) : encounter :=
  mkEncounter (seen w) (prepared w) (again w) other (published w).

(** C31: A failed configuration leaves the manifest file as it is. One that changes it
    leaves a valid manifest, the history it had read first with one more revision,
    activated at the given generation and naming the assets of the supplied directory;
    a first manifest never replaces a file, and a later one was read again as it had
    been read first. So nothing is lost as long as no other process writes between the
    second reading and the rename. What one writes there is lost: the rename replaces
    any file by the same manifest. *)
Theorem configure_appends directory generation w r f' :
  ConfigureProvidedAssets directory generation w = (r, f') →
  (∀ e, r = Err e → f' = now w)
  ∧ (f' ≠ now w →
     match seen w with None => now w = None | Some _ => again w = seen w end
     ∧ (again w = now w → now w = seen w)
     ∧ (seen w ≠ None → ∀ other, ConfigureProvidedAssets directory generation (with_now other w) = (r, f'))
     ∧ ∃ node snapshot rev, directory = Some node ∧ LoadProvidedAssets node = Ok snapshot
       ∧ rEffectiveGeneration rev = Some generation ∧ rAssets rev = Metadata (Some snapshot)
       ∧ let value := mkManifest providedAssetsSchema [] (recorded_revisions (seen w) ++ [rev]) in
         f' = Some (Ok value) ∧ validateProvidedManifestValue value = Ok ()).
Proof.
  unfold ConfigureProvidedAssets. cbn [with_now seen now].
  destruct directory as [node|]; [|destruct (seen w); by intros [= <- <-]].
  destruct (LoadProvidedAssets node) as [snapshot|e] eqn:El; [|by intros [= <- <-]].
  destruct (LoadProvidedAssets_made node snapshot El) as [input Hmade].
  destruct (seen w) as [[recorded|e]|] eqn:Es; cbn [recorded_revisions]; [|by intros [= <- <-]|].
  - intros E. destruct (nextRevision_spec _ _ _ _ _ _ _ Hmade E) as [H1 H2]. split; [done|].
    intros Hne. destruct (H2 Hne) as (Ha & Ho & rev & -> & Hv & Hg & Hr). split; [done|]. split; [congruence|].
    split; [|by exists node, snapshot, rev]. intros _ other. rewrite Es in Ho. exact (Ho other).
  - intros E. destruct (firstRevision_spec _ _ _ _ _ _ Hmade E) as [H1 H2]. split; [done|].
    intros Hne. destruct (H2 Hne) as (Hn & rev & -> & Hv & Hg & Ha). split; [done|]. split; [congruence|].
    split; [done|by exists node, snapshot, rev].
Qed.

(** ** Witnesses *)

Definition sample_directory : node :=
  Directory (Ok [(bs "font-8x8", Directory (Ok [(bs "font.bin", Regular 0x1a4 (Ok (bs "glyphs")))]))]).

Definition fresh : encounter := mkEncounter None None None None None.

Lemma configure_appends_witness :
  ∃ s f', ConfigureProvidedAssets (Some sample_directory) 3 fresh = (Ok (Some s), f') ∧ f' ≠ None
    ∧ ∃ node snapshot rev, Some sample_directory = Some node ∧ LoadProvidedAssets node = Ok snapshot
       ∧ rEffectiveGeneration rev = Some 3
       ∧ f' = Some (Ok (mkManifest providedAssetsSchema [] [rev])).
Proof.
  eexists _, _. split; [vm_compute; reflexivity|]. split; [discriminate|].
  destruct (configure_appends (Some sample_directory) 3 fresh _ _ ltac:(vm_compute; reflexivity)) as [_ H2].
  destruct (H2 ltac:(discriminate)) as (_ & _ & _ & node & snapshot & rev & E1 & E2 & E3 & _ & E5 & _).
  exists node, snapshot, rev. split; [exact E1|]. split; [exact E2|]. split; [exact E3|exact E5].
Defined.

Definition sample_metadata (id : bytes) : ProvidedAssetMetadata :=
  mkMetadata (bs "f") id (replicate 64 x30) 0.

Definition sample_manifest : providedAssetsManifest :=
  mkManifest providedAssetsSchema []
    [mkRevision [sample_metadata (bs "a")] (Some 1) 1;
     mkRevision [sample_metadata (bs "a"); sample_metadata (bs "b")] (Some 4) 2].

Lemma manifest_append_only_witness :
  validateProvidedManifestValue sample_manifest = Ok ()
  ∧ ∀ a, a ∈ [sample_metadata (bs "a")] → a ∈ [sample_metadata (bs "a"); sample_metadata (bs "b")].
Proof.
  split; [vm_compute; reflexivity|].
  exact (proj1 (proj2 (manifest_append_only sample_manifest 0 1
    (mkRevision [sample_metadata (bs "a")] (Some 1) 1)
    (mkRevision [sample_metadata (bs "a"); sample_metadata (bs "b")] (Some 4) 2)
    ltac:(vm_compute; reflexivity) eq_refl ltac:(lia) eq_refl eq_refl))).
Defined.
