(* ===== verification/Json.v ===== *)
(** * JSON text, as the stores read and write it

    The part of package encoding/json that src/internal/store uses: scanning one
    value of a text, the members of an object as raw values, unquoting a string,
    and the indented encoder's form of strings and numbers; together with the
    helpers of src/internal/store/feature_requests.go around it. *)

From S2P Require Import Prelude GoStd.
Open Scope Z_scope.

(** ** Package encoding/json *)
Module json.

Definition quote_ : byte := x22.
Definition backslash : byte := x5c.

Definition is_space (b : byte) : bool :=
  (b2z b =? 0x20) || (b2z b =? 0x09) || (b2z b =? 0x0a) || (b2z b =? 0x0d).

Fixpoint skip_space (s : bytes) : bytes :=
  match s with b :: r => if is_space b then skip_space r else s | [] => [] end.

Definition hex_value (b : byte) : option Z :=
  let v := b2z b in
  if (48 <=? v) && (v <=? 57) then Some (v - 48)
  else if (97 <=? v) && (v <=? 102) then Some (v - 87)
  else if (65 <=? v) && (v <=? 70) then Some (v - 55)
  else None.

Definition hex4_value (a b c d : byte) : option Z :=
  w ← hex_value a; x ← hex_value b; y ← hex_value c; z ← hex_value d;
  Some (4096 * w + 256 * x + 16 * y + z).

Definition simple_escape (b : byte) : option byte :=
  if decide (b = x22) then Some x22 else if decide (b = x5c) then Some x5c
  else if decide (b = x2f) then Some x2f else if decide (b = x62) then Some x08
  else if decide (b = x66) then Some x0c else if decide (b = x6e) then Some x0a
  else if decide (b = x72) then Some x0d else if decide (b = x74) then Some x09 else None.

(** The rest of the text after the closing quote of a string. *)
Fixpoint scan_string (s : bytes) : option bytes :=
  match s with
  | [] => None
  | b :: s =>
      if decide (b = quote_) then Some s
      else if decide (b = backslash) then
        match s with
        | [] => None
        | e :: s =>
            if simple_escape e then scan_string s
            else if decide (e = x75) then
              match s with
              | h1 :: h2 :: h3 :: h4 :: s => if hex4_value h1 h2 h3 h4 then scan_string s else None
              | _ => None
              end
            else None
        end
      else if b2z b <? 0x20 then None else scan_string s
  end.

Fixpoint skip_digits (s : bytes) : bytes :=
  match s with b :: r => if strconv.is_digit b then skip_digits r else s | [] => [] end.

(** One digit and more. *)
Definition some_digits (s : bytes) : option bytes :=
  match s with b :: r => if strconv.is_digit b then Some (skip_digits r) else None | [] => None end.

Definition scan_number (s : bytes) : option bytes :=
  let s := match s with b :: r => if decide (b = x2d) then r else s | [] => s end in
  s ← match s with
      | b :: r => if decide (b = x30) then Some r else if strconv.is_digit b then Some (skip_digits r) else None
      | [] => None
      end;
  s ← match s with b :: r => if decide (b = x2e) then some_digits r else Some s | [] => Some s end;
  match s with
  | b :: r =>
      if bool_decide (b = x65) || bool_decide (b = x45) then
        some_digits match r with c :: r' => if bool_decide (c = x2b) || bool_decide (c = x2d) then r' else r | [] => r end
      else Some s
  | [] => Some s
  end.

Definition scan_literal (word s : bytes) : option bytes :=
  if strings.HasPrefix s word then Some (dropZ (len word) s) else None.

Definition maxNestingDepth : Z := 10000.

(** The rest of the text after one value that starts here. [fuel] bounds the
    number of values, [depth] the nesting. *)
Fixpoint scan_value (fuel : nat) (depth : Z) (s : bytes) : option bytes :=
  match fuel with
  | O => None
  | S fuel =>
      let members := fix members (n : nat) (object : bool) (s : bytes) : option bytes :=
        match n with
        | O => None
        | S n =>
            s ← (if object then
                   match skip_space s with
                   | b :: s => if decide (b = quote_) then
                                 s ← scan_string s;
                                 match skip_space s with
                                 | c :: s => if decide (c = x3a) then Some s else None
                                 | [] => None
                                 end
                               else None
                   | [] => None
                   end
                 else Some s);
            s ← scan_value fuel (depth + 1) (skip_space s);
            match skip_space s with
            | c :: s =>
                if decide (c = x2c) then members n object s
                else if decide (c = (if object then x7d else x5d)) then Some s else None
            | [] => None
            end
        end in
      match s with
      | [] => None
      | b :: r =>
          if decide (b = quote_) then scan_string r
          else if decide (b = x7b) then
            if maxNestingDepth <? depth + 1 then None
            else match skip_space r with
                 | c :: r' => if decide (c = x7d) then Some r' else members (S (length r)) true r
                 | [] => None
                 end
          else if decide (b = x5b) then
            if maxNestingDepth <? depth + 1 then None
            else match skip_space r with
                 | c :: r' => if decide (c = x5d) then Some r' else members (S (length r)) false r
                 | [] => None
                 end
          else if decide (b = x74) then scan_literal (bs "true") s
          else if decide (b = x66) then scan_literal (bs "false") s
          else if decide (b = x6e) then scan_literal (bs "null") s
          else scan_number s
      end
  end.

Definition value_end (s : bytes) : option bytes := scan_value (S (length s)) 0 s.

(** The text consumed between a position and a later one. *)
Definition consumed (s rest : bytes) : bytes := takeZ (len s - len rest) s.

Definition surrogate (r : Z) : bool := (0xd800 <=? r) && (r <=? 0xdfff).
Definition high_surrogate (r : Z) : bool := (0xd800 <=? r) && (r <=? 0xdbff).
Definition low_surrogate (r : Z) : bool := (0xdc00 <=? r) && (r <=? 0xdfff).

(** [utf8.AppendRune] of a scalar value *)
Definition encode_rune (r : Z) : bytes :=
  if r <? 0x80 then [z2b r]
  else if r <? 0x800 then [z2b (0xC0 + Z.shiftr r 6); z2b (0x80 + Z.land r 0x3F)]
  else if r <? 0x10000 then
    [z2b (0xE0 + Z.shiftr r 12); z2b (0x80 + Z.land (Z.shiftr r 6) 0x3F); z2b (0x80 + Z.land r 0x3F)]
  else [z2b (0xF0 + Z.shiftr r 18); z2b (0x80 + Z.land (Z.shiftr r 12) 0x3F);
        z2b (0x80 + Z.land (Z.shiftr r 6) 0x3F); z2b (0x80 + Z.land r 0x3F)].

(** The bytes a string literal stands for, from the text after its opening quote
    to its closing quote. The text is valid UTF-8; a lone surrogate becomes the
    replacement character. *)
Fixpoint unquote (s : bytes) : bytes :=
  match s with
  | [] => []
  | b :: s =>
      if decide (b = quote_) then []
      else if decide (b = backslash) then
        match s with
        | [] => []
        | e :: s =>
            match simple_escape e with
            | Some c => c :: unquote s
            | None =>
                match s with
                | h1 :: h2 :: h3 :: h4 :: s1 =>
                    let r := default 0 (hex4_value h1 h2 h3 h4) in
                    if negb (surrogate r) then encode_rune r ++ unquote s1
                    else match s1 with
                         | c1 :: c2 :: g1 :: g2 :: g3 :: g4 :: s2 =>
                             match (if decide (c1 = backslash) then
                                      if decide (c2 = x75) then hex4_value g1 g2 g3 g4 else None
                                    else None) with
                             | Some r1 =>
                                 if high_surrogate r && low_surrogate r1
                                 then encode_rune (0x10000 + (r - 0xd800) * 1024 + (r1 - 0xdc00)) ++ unquote s2
                                 else encode_rune utf8.RuneError ++ unquote s1
                             | None => encode_rune utf8.RuneError ++ unquote s1
                             end
                         | _ => encode_rune utf8.RuneError ++ unquote s1
                         end
                | _ => []
                end
            end
        end
      else b :: unquote s
  end.

(** The members of an object from after its opening brace (it is not empty). *)
Fixpoint members (n : nat) (s : bytes) : option (list (bytes * bytes) * bytes) :=
  match n with
  | O => None
  | S n =>
      match skip_space s with
      | b :: k =>
          if decide (b = quote_) then
            s ← scan_string k;
            match skip_space s with
            | c :: s =>
                if decide (c = x3a) then
                  let v := skip_space s in
                  rest ← scan_value (S (length v)) 1 v;
                  let member := (unquote k, consumed v rest) in
                  match skip_space rest with
                  | c :: s =>
                      if decide (c = x2c) then
                        '(l, rest) ← members n s; Some (member :: l, rest)
                      else if decide (c = x7d) then Some ([member], s) else None
                  | [] => None
                  end
                else None
            | [] => None
            end
          else None
      | [] => None
      end
  end.

(** [Decode(&fields)] into a [map[string]json.RawMessage] followed by a check that
    nothing but space remains: the members, in order ([None] for a text that is
    not one JSON object; [null] leaves the map nil). *)
Definition decode_object (text : bytes) : option (list (bytes * bytes)) :=
  let s := skip_space text in
  '(fields, rest) ←
    match s with
    | b :: r =>
        if decide (b = x7b) then
          match skip_space r with
          | c :: r' => if decide (c = x7d) then Some ([], r') else members (S (length r)) r
          | [] => None
          end
        else if decide (b = x6e) then
          rest ← scan_literal (bs "null") s; Some ([], rest)
        else None
    | [] => None
    end;
  match skip_space rest with [] => Some fields | _ => None end.

(** As a Go map: the last member of a name counts. *)
Definition fields_map (l : list (bytes * bytes)) : gmap bytes bytes :=
  fold_left (λ m f, <[f.1 := f.2]> m) l ∅.

(** [UseNumber] and [Decode(&any)], then [strconv.ParseUint]: the raw value is a
    number literal. *)
Definition decode_uint (raw : bytes) : option Z :=
  match skip_space raw with
  | [] => None
  | s => rest ← scan_number s; strconv.ParseUint (consumed s rest)
  end.

(** [Unmarshal] of a raw string literal. *)
Definition decode_string (raw : bytes) : option bytes :=
  match skip_space raw with
  | b :: s => if decide (b = quote_) then Some (unquote s) else None
  | [] => None
  end.

(** One ASCII character as the encoder writes it (HTML escaping is off). *)
Definition escape_ascii (b : byte) : bytes :=
  let v := b2z b in
  if decide (b = quote_) then [backslash; quote_]
  else if decide (b = backslash) then [backslash; backslash]
  else if v =? 0x08 then bs "\b"
  else if v =? 0x0c then bs "\f"
  else if v =? 0x0a then bs "\n"
  else if v =? 0x0d then bs "\r"
  else if v =? 0x09 then bs "\t"
  else if v <? 0x20 then bs "\u00" ++ strconv.hexbytes [b]
  else [b].

(** The body of a string: U+2028 and U+2029 are escaped, other characters above
    ASCII are copied. The text is valid UTF-8. *)
Fixpoint escape (s : bytes) : bytes :=
  match s with
  | [] => []
  | b :: r =>
      match r with
      | c :: d :: r' =>
          if bool_decide (b = xe2) && bool_decide (c = x80) && bool_decide (d = xa8) then bs "\u2028" ++ escape r'
          else if bool_decide (b = xe2) && bool_decide (c = x80) && bool_decide (d = xa9) then bs "\u2029" ++ escape r'
          else escape_ascii b ++ escape r
      | _ => escape_ascii b ++ escape r
      end
  end.

Definition encode_string (s : bytes) : bytes := [quote_] ++ escape s ++ [quote_].
Definition encode_uint (n : Z) : bytes := strconv.Itoa n.

(** [SetIndent("", "  ")] on an object of scalar fields, as [Encode] writes it. *)
Fixpoint encode_members (l : list (bytes * bytes)) : bytes :=
  match l with
  | [] => []
  | (k, v) :: l =>
      [x0a] ++ bs "  " ++ encode_string k ++ bs ": " ++ v ++ (match l with [] => [] | _ => [x2c] end)
      ++ encode_members l
  end.
Definition encode_object (l : list (bytes * bytes)) : bytes :=
  bs "{" ++ encode_members l ++ [x0a] ++ bs "}" ++ [x0a].

End json.
