(* ===== verification/FeatureStore.v ===== *)
(** * The feature-request store (src/internal/store/feature_requests.go)

    One JSON record per request in a directory; the store re-reads the directory
    before every operation and replaces records by rename. A temporary file that
    could not be removed stays in that directory. *)

From S2P Require Import Prelude GoStd Json.
Open Scope Z_scope.

Definition MaxFeatureDecisionNoteBytes : Z := 4 * 1024.
Definition MaxFeatureTitleBytes : Z := 256.
Definition MaxFeatureDescriptionBytes : Z := 16 * 1024.

Definition FeaturePending : bytes := bs "pending".
Definition FeatureApproved : bytes := bs "approved".
Definition FeatureDenied : bytes := bs "denied".

Record FeatureRequest := mkRequest {
  ID : Z;
  Generation : Z;
  Title : bytes;
  Description : bytes;
  Status : bytes;
  DecisionNote : bytes
}.

Definition feature_error (reason : text) : error := FeatureRequestError reason None false.
Definition malformed (reason : text) (err : option error) : error := FeatureRequestError reason err true.

(** ** Validation *)

Definition validateRequestID (requestID : Z) : result unit :=
  if requestID =? 0 then Err (feature_error (txt "feature-request ID must be a positive integer")) else Ok ().

Definition validateFeatureText (title description : bytes) : result unit :=
  if negb (utf8.Valid title) || negb (utf8.Valid description) then
    Err (feature_error (txt "feature-request text is not valid UTF-8"))
  else if bool_decide (title = []) then Err (feature_error (txt "feature-request title must not be empty"))
  else if MaxFeatureTitleBytes <? len title then Err (feature_error (txt "feature-request title exceeds 256 bytes"))
  else if MaxFeatureDescriptionBytes <? len description then
    Err (feature_error (txt "feature-request description exceeds 16 KiB"))
  else Ok ().

Definition validFeatureStatus (status : bytes) : bool :=
  bool_decide (status = FeaturePending) || bool_decide (status = FeatureApproved)
  || bool_decide (status = FeatureDenied).

Definition ValidateFeatureDecisionNote (note : bytes) : result unit :=
  if negb (utf8.Valid note) then Err (feature_error (txt "feature-request decision note is not valid UTF-8"))
  else if MaxFeatureDecisionNoteBytes <? len note then
    Err (feature_error (txt "feature-request decision note exceeds 4 KiB"))
  else Ok ().

Definition validateRequest (request : FeatureRequest) : result unit :=
  _ ← validateRequestID (ID request);
  _ ← validateFeatureText (Title request) (Description request);
  _ ← ValidateFeatureDecisionNote (DecisionNote request);
  if bool_decide (Status request = FeaturePending) && negb (bool_decide (DecisionNote request = [])) then
    Err (feature_error (txt "pending feature request cannot have a decision note"))
  else if negb (validFeatureStatus (Status request)) then
    Err (feature_error (txt "imported feature-request status is invalid"))
  else Ok ().

(** ** JSON helpers *)

(** The number of backslashes at the end of a text, given reversed. *)
Fixpoint leading_backslashes (s : bytes) : Z :=
  match s with b :: s => if decide (b = json.backslash) then 1 + leading_backslashes s else 0 | [] => 0 end.

(** [unescapeJSONLineSeparators]: [previous] is the text already passed, reversed. *)
Fixpoint unescapeFrom (previous s : bytes) : bytes :=
  match s with
  | [] => []
  | b :: r =>
      match r with
      | u :: c2 :: c0 :: c22 :: c :: r' =>
          if bool_decide (b = json.backslash) && bool_decide ([u; c2; c0; c22] = bs "u202")
             && (bool_decide (c = x38) || bool_decide (c = x39))
             && Z.odd (1 + leading_backslashes previous)
          then (if bool_decide (c = x38) then [xe2; x80; xa8] else [xe2; x80; xa9])
               ++ unescapeFrom (c :: c22 :: c0 :: c2 :: u :: b :: previous) r'
          else b :: unescapeFrom (b :: previous) r
      | _ => b :: unescapeFrom (b :: previous) r
      end
  end.
Definition unescapeJSONLineSeparators (encoded : bytes) : bytes := unescapeFrom [] encoded.

(** [validJSONStringSurrogates] from an index on, as long as two bytes remain. *)
Fixpoint surrogatesFrom (s : bytes) : bool :=
  match s with
  | [] | [_] => true
  | b :: ((e :: r1) as r) =>
      if negb (bool_decide (b = json.backslash)) then surrogatesFrom r
      else if (match r1 with [] => true | _ => false end) || negb (bool_decide (e = x75)) then surrogatesFrom r1
      else match r1 with
      | h1 :: h2 :: h3 :: h4 :: rest =>
          match json.hex4_value h1 h2 h3 h4 with
          | None => false
          | Some first =>
              if json.high_surrogate first then
                match rest with
                | c1 :: c2 :: g1 :: g2 :: g3 :: g4 :: rest2 =>
                    if negb (bool_decide (c1 = json.backslash)) || negb (bool_decide (c2 = x75)) then false
                    else match json.hex4_value g1 g2 g3 g4 with
                         | None => false
                         | Some second => if json.low_surrogate second then surrogatesFrom rest2 else false
                         end
                | _ => false
                end
              else if json.low_surrogate first then false else surrogatesFrom rest
          end
      | _ => false
      end
  end.
Definition validJSONStringSurrogates (raw : bytes) : bool := surrogatesFrom (tail raw).

Inductive string_error := errJSONStringType | errJSONStringUnicode | errJSONSyntax.

Definition decodeJSONString (raw : bytes) : bytes + string_error :=
  if negb (validJSONStringSurrogates raw) then inr errJSONStringUnicode
  else match json.decode_string raw with
       | None => inr errJSONStringType
       | Some value => if negb (utf8.Valid value) then inr errJSONStringUnicode else inl value
       end.

Definition decodeJSONUint (raw : bytes) : option Z := json.decode_uint raw.

(** ** Records *)

Definition invalid_fields : error := feature_error (txt "feature-request record has invalid fields").

Definition decodeText (raw : bytes) : result bytes :=
  match decodeJSONString raw with
  | inl s => Ok s
  | inr errJSONStringUnicode => Err (feature_error (txt "feature-request text is not valid UTF-8"))
  | inr _ => Err (feature_error (txt "feature-request text must be strings"))
  end.

Definition DecodeFeatureRequest (contents : bytes) : result FeatureRequest :=
  if negb (utf8.Valid contents) then Err (malformed (txt "feature-request record is not valid UTF-8") None)
  else match json.decode_object contents with
  | None => Err (malformed (txt "feature-request record is not valid JSON")
                   (Some (PlainError (txt "invalid JSON text"))))
  | Some members =>
      let fields := json.fields_map members in
      let wanted := [bs "id"; bs "generation"; bs "title"; bs "description"; bs "status"]
                    ++ (if decide (is_Some (fields !! bs "decision_note")) then [bs "decision_note"] else []) in
      if negb (Z.of_nat (size fields) =? len wanted) then Err invalid_fields
      else if negb (forallb (λ name, bool_decide (is_Some (fields !! name))) wanted) then Err invalid_fields
      else
        let field name := default [] (fields !! bs name) in
        requestID ← match decodeJSONUint (field "id") with
                    | Some n => if n =? 0 then Err (feature_error (txt "feature-request ID must be a positive integer"))
                                else Ok n
                    | None => Err (feature_error (txt "feature-request ID must be a positive integer"))
                    end;
        generation ← match decodeJSONUint (field "generation") with
                     | Some n => Ok n
                     | None => Err (feature_error (txt "feature-request generation is invalid"))
                     end;
        title ← decodeText (field "title");
        description ← decodeText (field "description");
        _ ← validateFeatureText title description;
        status ← match decodeJSONString (field "status") with
                 | inl s => if validFeatureStatus s then Ok s
                            else Err (feature_error (txt "feature-request status is invalid"))
                 | inr _ => Err (feature_error (txt "feature-request status is invalid"))
                 end;
        note ← match fields !! bs "decision_note" with
               | None => Ok []
               | Some raw =>
                   match decodeJSONString raw with
                   | inl s => Ok s
                   | inr _ => Err (FeatureRequestError (txt "feature-request decision note must be a valid UTF-8 string")
                                     (Some (PlainError (txt "invalid JSON string"))) false)
                   end
               end;
        let request := mkRequest requestID generation title description status note in
        _ ← validateRequest request;
        Ok request
  end.

(** The fields in the order of the Go struct; an empty note is omitted. *)
Definition request_members (request : FeatureRequest) : list (bytes * bytes) :=
  (if bool_decide (DecisionNote request = []) then []
   else [(bs "decision_note", json.encode_string (DecisionNote request))])
  ++ [(bs "description", json.encode_string (Description request));
      (bs "generation", json.encode_uint (Generation request));
      (bs "id", json.encode_uint (ID request));
      (bs "status", json.encode_string (Status request));
      (bs "title", json.encode_string (Title request))].

Definition encodeFeatureRequest (request : FeatureRequest) : bytes :=
  unescapeJSONLineSeparators (json.encode_object (request_members request)).

(** ** File names *)

(** [%06d] and the like. *)
Definition padded (width n : Z) : bytes :=
  let ds := strconv.Itoa n in replicate (Z.to_nat (width - len ds)) x30 ++ ds.

Definition requestName (requestID : Z) : bytes := bs "request-" ++ padded 6 requestID ++ bs ".json".

Definition invalid_name (name : bytes) : error :=
  feature_error (txt "invalid feature-request filename: " ++ [Lit name]).

Definition requestIDFromName (name : bytes) : result Z :=
  if negb (strings.HasPrefix name (bs "request-")) || negb (strings.HasSuffix name (bs ".json")) then
    Err (invalid_name name)
  else
    let encoded := strings.TrimSuffix (strings.TrimPrefix name (bs "request-")) (bs ".json") in
    if bool_decide (encoded = []) then Err (invalid_name name)
    else if negb (forallb strconv.is_digit encoded) then Err (invalid_name name)
    else match strconv.ParseUint encoded with
         | None => Err (invalid_name name)
         | Some requestID =>
             if (requestID =? 0) || negb (bool_decide (requestName requestID = name))
             then Err (invalid_name name) else Ok requestID
         end.

(** ** The store *)

(** A directory entry: a regular file with the outcome of reading it, or not. *)
Inductive dirent :=
| RegularFile (contents : result bytes)
| Irregular (err : option error).

(** The store's directory: missing, not a directory, not inspectable, or its
    entries by name. *)
Inductive storedir :=
| Missing
| NotDirectory
| Uninspectable (err : error)
| Entries (l : gmap bytes dirent).

Record FeatureRequestStore := mkStore {
  directory : storedir;
  requests : gmap Z FeatureRequest
}.

(** The loop of [readFeatureRequests]. *)
Fixpoint readEntries (entries : list (bytes * dirent)) (requests : gmap Z FeatureRequest)
  : result (gmap Z FeatureRequest) :=
  match entries with
  | [] => Ok requests
  | (name, entry) :: entries =>
      requestID ← requestIDFromName name;
      let malformed_name err :=
        FeatureRequestError (txt "malformed feature-request record: " ++ [Lit name]) err false in
      contents ← match entry with
                 | Irregular err =>
                     Err (FeatureRequestError (txt "invalid feature-request record: " ++ [Lit name]) err false)
                 | RegularFile (Err err) => Err (malformed_name (Some err))
                 | RegularFile (Ok contents) =>
                     if negb (utf8.Valid contents) then Err (malformed_name None) else Ok contents
                 end;
      request ← match DecodeFeatureRequest contents with
                | Ok request => Ok request
                | Err (FeatureRequestError reason err true) =>
                    Err (malformed_name (Some (FeatureRequestError reason err true)))
                | Err err => Err err
                end;
      let conflicting := feature_error (txt "conflicting feature-request record: " ++ [Lit name]) in
      if negb (ID request =? requestID) then Err conflicting
      else if bool_decide (is_Some (requests !! ID request)) then Err conflicting
      else readEntries entries (<[ID request := request]> requests)
  end.

Definition not_a_directory : error := feature_error (txt "feature-request store is not a directory").

Definition readFeatureRequests (d : storedir) : result (gmap Z FeatureRequest) :=
  match d with
  | Missing => Ok ∅
  | NotDirectory => Err not_a_directory
  | Uninspectable err =>
      Err (FeatureRequestError (txt "could not inspect feature-request store") (Some err) false)
  | Entries l => readEntries (sort.SliceBy fst (map_to_list l)) ∅
  end.

Definition refresh (s : FeatureRequestStore) : result unit * FeatureRequestStore :=
  match readFeatureRequests (directory s) with
  | Err err => (Err err, s)
  | Ok requests => (Ok (), mkStore (directory s) requests)
  end.

Definition NewFeatureRequestStore (d : storedir) : result FeatureRequestStore :=
  match refresh (mkStore d ∅) with
  | (Ok _, s) => Ok s
  | (Err err, _) => Err err
  end.

Definition cachedRequest (requestID : Z) (s : FeatureRequestStore) : result FeatureRequest :=
  match requests s !! requestID with
  | None => Err (feature_error (txt "feature request #" ++ [Lit (strconv.Itoa requestID)] ++ txt " does not exist"))
  | Some request => Ok request
  end.

(** Where the file system fails during a write: nowhere, before the record is
    renamed into place, or after it (when the directory is synced). *)
Inductive fault := NoFault | BeforeRename (err : error) | AfterRename (err : error).

(** What writing a record meets: such a fault, with the temporary file removed again when
    there is one; a directory that cannot be made; or a fault after the temporary file
    was created, and its removal, whose error is ignored, fails too: the file stays in
    the directory, with the random end of its name and what had been written. *)
Inductive recordFault :=
| Meets (f : fault)
| NoDirectory (err : error)
| Stranded (err : error) (suffix contents : bytes).
Coercion Meets : fault >-> recordFault.

Definition temporaryName (destination suffix : bytes) : bytes := bs "." ++ destination ++ bs "." ++ suffix.

Definition persistFeatureError (requestID : Z) (err : error) : error :=
  match err with
  | FeatureRequestError _ _ _ => err
  | _ => FeatureRequestError (txt "could not persist feature request #" ++ [Lit (strconv.Itoa requestID)]) (Some err) false
  end.

Definition write (request : FeatureRequest) (replace : bool) (f : recordFault) (s : FeatureRequestStore)
  : result unit * FeatureRequestStore :=
  let persist err := Err (persistFeatureError (ID request) err) in
  match validateRequest request, f with
  | Err err, _ => (Err err, s)
  | Ok _, NoDirectory err => (persist err, s)
  | Ok _, _ =>
      match directory s with
      | NotDirectory => (Err not_a_directory, s)
      | Uninspectable err => (persist err, s)
      | d =>
          let l := match d with Entries l => l | _ => ∅ end in
          let s := mkStore (Entries l) (requests s) in
          let destination := requestName (ID request) in
          let published := mkStore (Entries (<[destination := RegularFile (Ok (encodeFeatureRequest request))]> l)) (requests s) in
          if negb replace && bool_decide (is_Some (l !! destination)) then
            (Err (feature_error (txt "feature request #" ++ [Lit (strconv.Itoa (ID request))] ++ txt " already exists")), s)
          else match f with
          | NoDirectory err | Meets (BeforeRename err) => (persist err, s)
          | Stranded err suffix contents =>
              (persist err, mkStore (Entries (<[temporaryName destination suffix := RegularFile (Ok contents)]> l)) (requests s))
          | Meets (AfterRename err) => (persist err, published)
          | Meets NoFault => (Ok (), published)
          end
      end
  end.

(** The loop of [Create] over the map, in the order Go visits it. *)
Fixpoint nextRequestID (identifiers : list Z) (requestID : Z) : result Z :=
  match identifiers with
  | [] => Ok requestID
  | identifier :: identifiers =>
      if requestID <=? identifier then
        if identifier =? max_uint64 then Err (feature_error (txt "feature-request ID space is exhausted"))
        else nextRequestID identifiers (wrap64 (identifier + 1))
      else nextRequestID identifiers requestID
  end.

Definition Create (visit : list Z) (generation : Z) (title description : bytes) (f : recordFault) (s : FeatureRequestStore)
  : result FeatureRequest * FeatureRequestStore :=
  match validateFeatureText title description with
  | Err err => (Err err, s)
  | Ok _ =>
      match refresh s with
      | (Err err, s) => (Err err, s)
      | (Ok _, s) =>
          match nextRequestID visit 1 with
          | Err err => (Err err, s)
          | Ok requestID =>
              let request := mkRequest requestID generation title description FeaturePending [] in
              match write request false f s with
              | (Err err, s) => (Err err, s)
              | (Ok _, s) => (Ok request, mkStore (directory s) (<[requestID := request]> (requests s)))
              end
          end
      end
  end.

Definition setStatus (requestID : Z) (status note : bytes) (f : recordFault) (s : FeatureRequestStore)
  : result FeatureRequest * FeatureRequestStore :=
  match refresh s with
  | (Err err, s) => (Err err, s)
  | (Ok _, s) =>
      match (_ ← validateRequestID requestID; cachedRequest requestID s) with
      | Err err => (Err err, s)
      | Ok current =>
          if negb (bool_decide (Status current = FeaturePending)) then
            (Err (feature_error (txt "feature request #" ++ [Lit (strconv.Itoa requestID)] ++ txt " is already "
                    ++ [Lit (Status current)])), s)
          else
            let current := mkRequest (ID current) (Generation current) (Title current) (Description current) status note in
            match write current true f s with
            | (Err err, s) => (Err err, s)
            | (Ok _, s) => (Ok current, mkStore (directory s) (<[requestID := current]> (requests s)))
            end
      end
  end.

Definition Approve (requestID : Z) (note : bytes) := setStatus requestID FeatureApproved note.
Definition Deny (requestID : Z) (note : bytes) := setStatus requestID FeatureDenied note.

(** [Requests]: by ascending ID. *)
Definition Requests (s : FeatureRequestStore) : result (list FeatureRequest) * FeatureRequestStore :=
  match refresh s with
  | (Err err, s) => (Err err, s)
  | (Ok _, s) =>
      let identifiers := merge_sort Z.le (map_to_list (requests s)).*1 in
      (Ok (omap (λ identifier, requests s !! identifier) identifiers), s)
  end.

Definition Request (requestID : Z) (s : FeatureRequestStore) : result FeatureRequest * FeatureRequestStore :=
  match validateRequestID requestID with
  | Err err => (Err err, s)
  | Ok _ => match refresh s with
            | (Err err, s) => (Err err, s)
            | (Ok _, s) => (cachedRequest requestID s, s)
            end
  end.

(** The first loop of [Import]: validate and index. *)
Fixpoint collectImported (l : list FeatureRequest) (imported : gmap Z FeatureRequest)
  : result (gmap Z FeatureRequest) :=
  match l with
  | [] => Ok imported
  | request :: l =>
      _ ← validateRequest request;
      if bool_decide (is_Some (imported !! ID request)) then
        Err (feature_error (txt "duplicate imported feature request #" ++ [Lit (strconv.Itoa (ID request))]))
      else collectImported l (<[ID request := request]> imported)
  end.

Fixpoint writeImported (faults : Z → recordFault) (l : list FeatureRequest) (s : FeatureRequestStore) : result unit * FeatureRequestStore :=
  match l with
  | [] => (Ok (), s)
  | request :: l =>
      match write request false (faults (ID request)) s with
      | (Err err, s) => (Err err, s)
      | (Ok _, s) => writeImported faults l (mkStore (directory s) (<[ID request := request]> (requests s)))
      end
  end.

(** [faults]: what the write of each request meets. *)
Definition Import (faults : Z → recordFault) (l : list FeatureRequest) (s : FeatureRequestStore) : result unit * FeatureRequestStore :=
  match refresh s with
  | (Err err, s) => (Err err, s)
  | (Ok _, s) =>
      if negb (bool_decide (requests s = ∅)) then (Err (feature_error (txt "feature-request store is not empty")), s)
      else match directory s with
      | Missing =>
          match collectImported l ∅ with
          | Err err => (Err err, s)
          | Ok imported =>
              let identifiers := merge_sort Z.le (map_to_list imported).*1 in
              writeImported faults (omap (λ identifier, imported !! identifier) identifiers) s
          end
      | _ => (Err (feature_error (txt "feature-request store is not empty")), s)
      end
  end.
