(* ===== verification/FeatureProofs.v ===== *)
(** * Feature requests: records and names

    The JSON text of a record as the encoder writes it, a record that is written
    reads back as itself, and file names and identifiers correspond one to one. *)

From S2P Require Import Prelude GoStd Json FeatureStore.
Open Scope Z_scope.

(** ** String literals *)

(** The string body as it ends up in the file: only ASCII is escaped. *)
Definition plain (s : bytes) : bytes := s ≫= json.escape_ascii.

Lemma plain_cons b s : plain (b :: s) = json.escape_ascii b ++ plain s.
Proof. apply lbind_cons. Qed.

Lemma scan_plain_byte b t : json.scan_string (json.escape_ascii b ++ t) = json.scan_string t.
Proof. destruct b; reflexivity. Qed.

Lemma unquote_plain_byte b t : json.unquote (json.escape_ascii b ++ t) = b :: json.unquote t.
Proof. destruct b; reflexivity. Qed.

Lemma surrogates_plain_byte b c t :
  surrogatesFrom (json.escape_ascii b ++ c :: t) = surrogatesFrom (c :: t).
Proof. destruct b; reflexivity. Qed.

Lemma scan_plain s t : json.scan_string (plain s ++ json.quote_ :: t) = Some t.
Proof.
  induction s as [|b s IH]; [done|]. by rewrite plain_cons, <- app_assoc, scan_plain_byte.
Qed.

Lemma unquote_plain s t : json.unquote (plain s ++ json.quote_ :: t) = s.
Proof.
  induction s as [|b s IH]; [done|]. by rewrite plain_cons, <- app_assoc, unquote_plain_byte, IH.
Qed.

Lemma surrogates_plain s : surrogatesFrom (plain s ++ [json.quote_]) = true.
Proof.
  induction s as [|b s IH]; [done|]. rewrite plain_cons, <- app_assoc.
  destruct (plain s ++ [json.quote_]) as [|c t] eqn:E; [by destruct (plain s)|].
  by rewrite surrogates_plain_byte, IH.
Qed.

(** The raw literal of a string in a file. *)
Definition literal (s : bytes) : bytes := [json.quote_] ++ plain s ++ [json.quote_].

Lemma decode_literal s : utf8.Valid s = true → decodeJSONString (literal s) = inl s.
Proof.
  intros Hv. unfold decodeJSONString, validJSONStringSurrogates, literal. cbn [tail app].
  rewrite surrogates_plain. cbn [negb].
  change (json.decode_string (json.quote_ :: plain s ++ [json.quote_]))
    with (Some (json.unquote (plain s ++ [json.quote_]))).
  by rewrite unquote_plain, Hv.
Qed.

(** ** Line separators *)

(** [unescapeFrom] depends on what it has passed only through the parity of the
    backslashes at its end. *)
Fixpoint unescapeState (odd : bool) (s : bytes) : bytes :=
  match s with
  | [] => []
  | b :: r =>
      let plainly := b :: unescapeState (bool_decide (b = json.backslash) && negb odd) r in
      match r with
      | u :: c2 :: c0 :: c22 :: c :: r' =>
          if bool_decide (b = json.backslash) && bool_decide ([u; c2; c0; c22] = bs "u202")
             && (bool_decide (c = x38) || bool_decide (c = x39)) && negb odd
          then (if bool_decide (c = x38) then [xe2; x80; xa8] else [xe2; x80; xa9]) ++ unescapeState false r'
          else plainly
      | _ => plainly
      end
  end.

Lemma unescape_state previous s :
  unescapeFrom previous s = unescapeState (Z.odd (leading_backslashes previous)) s.
Proof.
  remember (length s) as n eqn:Hn. revert previous s Hn.
  induction (lt_wf n) as [n _ IH]. intros previous s ->.
  destruct s as [|b r]; [done|]. cbn [unescapeFrom unescapeState].
  assert (Hstep : unescapeFrom (b :: previous) r
    = unescapeState (bool_decide (b = json.backslash) && negb (Z.odd (leading_backslashes previous))) r).
  { rewrite (IH (length r)); [|cbn; lia|done]. f_equal. cbn [leading_backslashes].
    case_decide; [rewrite bool_decide_eq_true_2 by done|by rewrite bool_decide_eq_false_2].
    rewrite Z.odd_add. by destruct (Z.odd (leading_backslashes previous)). }
  destruct r as [|u [|c2 [|c0 [|c22 [|c r']]]]]; try (by rewrite Hstep).
  rewrite Z.odd_add. change (Z.odd 1) with true. rewrite xorb_true_l.
  match goal with |- (if ?c then _ else _) = _ => destruct c eqn:Ec end; [|by rewrite Hstep].
  f_equal. rewrite (IH (length r')); [|cbn; lia|done]. f_equal. cbn [leading_backslashes].
  rewrite decide_False; [done|]. intros ->.
  change (bool_decide (json.backslash = x38) || bool_decide (json.backslash = x39)) with false in Ec.
  by rewrite andb_false_r in Ec.
Qed.

(** A byte that is no backslash resets the parity. *)
Lemma unescape_byte odd b t : b ≠ json.backslash → unescapeState odd (b :: t) = b :: unescapeState false t.
Proof.
  intros Hb. cbn [unescapeState]. rewrite (bool_decide_eq_false_2 _ Hb). cbn [andb].
  by destruct t as [|? [|? [|? [|? [|? ?]]]]].
Qed.

Lemma unescape_text odd p t :
  json.backslash ∉ p → p ≠ [] → unescapeState odd (p ++ t) = p ++ unescapeState false t.
Proof.
  revert odd. induction p as [|b p IH]; intros odd Hb Hp; [done|]. cbn [app].
  rewrite unescape_byte by set_solver. f_equal. destruct p as [|c p]; [done|].
  apply IH; [set_solver|done].
Qed.

Lemma unescape_second t : unescapeState true (json.backslash :: t) = json.backslash :: unescapeState false t.
Proof.
  cbn [unescapeState negb]. rewrite !andb_false_r.
  destruct t as [|? [|? [|? [|? [|? ?]]]]]; try done. by rewrite !andb_false_r.
Qed.

Lemma unescape_first c t :
  c ≠ x75 → unescapeState false (json.backslash :: c :: t) = json.backslash :: unescapeState true (c :: t).
Proof.
  intros Hc. remember (c :: t) as r eqn:Er. cbn [unescapeState negb]. rewrite andb_true_r.
  rewrite (bool_decide_eq_true_2 (json.backslash = json.backslash)) by done.
  subst r. destruct t as [|? [|? [|? [|? ?]]]]; try done.
  rewrite bool_decide_eq_false_2; [done|]. by intros [= ->].
Qed.

Lemma unescape_pair c t :
  c ≠ x75 → c ≠ json.backslash →
  unescapeState false ([json.backslash; c] ++ t) = [json.backslash; c] ++ unescapeState false t.
Proof. intros. cbn [app]. by rewrite unescape_first, unescape_byte. Qed.

Lemma unescape_control x y t :
  x ≠ json.backslash → y ≠ json.backslash →
  unescapeState false (bs "\u00" ++ [x; y] ++ t) = bs "\u00" ++ [x; y] ++ unescapeState false t.
Proof.
  intros Hx Hy.
  assert (E : unescapeState true ([x75; x30; x30; x; y] ++ t) = [x75; x30; x30; x; y] ++ unescapeState false t).
  { apply unescape_text; [|done]. rewrite !not_elem_of_cons. split_and!; try done. apply not_elem_of_nil. }
  change (bs "\u00" ++ [x; y] ++ t) with (json.backslash :: x75 :: x30 :: x30 :: x :: y :: t).
  change (bs "\u00" ++ [x; y] ++ unescapeState false t)
    with (json.backslash :: [x75; x30; x30; x; y] ++ unescapeState false t).
  rewrite <- E. remember (x75 :: x30 :: x30 :: x :: y :: t) as r eqn:Er. cbn [unescapeState negb].
  rewrite andb_true_r, (bool_decide_eq_true_2 (json.backslash = json.backslash)) by done.
  subst r. rewrite (bool_decide_eq_false_2 ([x75; x30; x30; x] = bs "u202")); [done|]. by vm_compute.
Qed.

(** An escaped ASCII character is left alone. *)
Lemma unescape_ascii b t :
  unescapeState false (json.escape_ascii b ++ t) = json.escape_ascii b ++ unescapeState false t.
Proof.
  destruct (decide (b = json.backslash)) as [->|Hb].
  { change (json.escape_ascii json.backslash) with [json.backslash; json.backslash]. cbn [app].
    by rewrite unescape_first, unescape_second. }
  destruct (b2z b <? 0x20) eqn:Ec.
  - zbool. destruct b; try (exfalso; vm_compute in Ec; congruence);
      first [by apply unescape_pair|by apply unescape_control].
  - destruct (decide (b = json.quote_)) as [->|Hq].
    { change (json.escape_ascii json.quote_) with [json.backslash; json.quote_]. cbn [app].
      by rewrite unescape_first, unescape_byte. }
    assert (E : json.escape_ascii b = [b]).
    { unfold json.escape_ascii. rewrite !decide_False by done. zbool.
      repeat (rewrite (proj2 (Z.eqb_neq _ _)) by lia). by rewrite (proj2 (Z.ltb_ge _ _)) by lia. }
    rewrite E. cbn [app]. by rewrite unescape_byte.
Qed.

(** The encoder's escapes of U+2028 and U+2029 become the characters themselves,
    and nothing else changes: in particular the six characters of an escape that
    the text itself contains stay as they are. *)
Lemma unescape_escape s t :
  unescapeState false (json.escape s ++ t) = plain s ++ unescapeState false t.
Proof.
  remember (length s) as n eqn:Hn. revert s Hn. induction (lt_wf n) as [n _ IH]. intros s ->.
  destruct s as [|b r]; [done|]. rewrite plain_cons.
  assert (Hone : unescapeState false ((json.escape_ascii b ++ json.escape r) ++ t)
                 = (json.escape_ascii b ++ plain r) ++ unescapeState false t).
  { rewrite <- !app_assoc, unescape_ascii, (IH (length r)); [done|cbn; lia|done]. }
  destruct r as [|c [|d r']]; try exact Hone. cbn [json.escape] in *.
  destruct (bool_decide (b = xe2) && bool_decide (c = x80) && bool_decide (d = xa8)) eqn:E1.
  { zbool. subst. specialize (IH (length r') ltac:(cbn; lia) r' eq_refl). rewrite <- app_assoc.
    change (unescapeState false (bs "\u2028" ++ json.escape r' ++ t))
      with ([xe2; x80; xa8] ++ unescapeState false (json.escape r' ++ t)). by rewrite IH. }
  destruct (bool_decide (b = xe2) && bool_decide (c = x80) && bool_decide (d = xa9)) eqn:E2; [|exact Hone].
  zbool. subst. specialize (IH (length r') ltac:(cbn; lia) r' eq_refl). rewrite <- app_assoc.
  change (unescapeState false (bs "\u2029" ++ json.escape r' ++ t))
    with ([xe2; x80; xa9] ++ unescapeState false (json.escape r' ++ t)). by rewrite IH.
Qed.

(** ** The object *)

(** A field name that needs no escape. *)
Definition simple_key (k : bytes) : Prop :=
  json.escape k = k ∧ json.backslash ∉ k ∧ (∀ t, json.scan_string (k ++ json.quote_ :: t) = Some t)
  ∧ ∀ t, json.unquote (k ++ json.quote_ :: t) = k.

(** A value the encoder writes as [v] and the file holds as [w]. *)
Definition value_as (v w : bytes) : Prop :=
  ∀ t, unescapeState false (v ++ t) = w ++ unescapeState false t.

(** A value the scanner takes in one piece before a comma or a line end. *)
Definition scannable (w : bytes) : Prop :=
  ∀ n c t, (c = x2c ∨ c = x0a) →
    json.skip_space (w ++ c :: t) = w ++ c :: t ∧ json.scan_value (S n) 1 (w ++ c :: t) = Some (c :: t).

Lemma unescape_members l l' t :
  Forall2 (λ m m', m.1 = m'.1 ∧ simple_key m.1 ∧ value_as m.2 m'.2) l l' →
  unescapeState false (json.encode_members l ++ t) = json.encode_members l' ++ unescapeState false t.
Proof.
  intros HF. revert t. induction HF as [|[k v] [k' w] l l' (Ek & (Hesc & Hnb & _) & Hv) HF IH]; intros t; [done|].
  cbn in Ek, Hesc, Hnb, Hv. subst k'. cbn [json.encode_members]. unfold json.encode_string. rewrite Hesc.
  assert (Hsep : (match l with [] => [] | _ => [x2c] end) = (match l' with [] => [] | _ => [x2c] end))
    by (by destruct HF).
  rewrite <- Hsep.
  set (pre := [x0a] ++ bs "  " ++ ([json.quote_] ++ k ++ [json.quote_]) ++ bs ": ").
  assert (Hpre : json.backslash ∉ pre).
  { unfold pre. rewrite !not_elem_of_app. cbn. rewrite !not_elem_of_cons. split_and!; try done; apply not_elem_of_nil. }
  assert (E : ∀ x y : bytes, ([x0a] ++ bs "  " ++ ([json.quote_] ++ k ++ [json.quote_]) ++ bs ": " ++ x ++ y) ++ t
              = pre ++ x ++ y ++ t).
  { intros. unfold pre. by rewrite <- !app_assoc. }
  rewrite E, unescape_text by done. rewrite Hv. rewrite <- app_assoc.
  assert (E' : ∀ z : bytes, unescapeState false ((match l with [] => [] | _ => [x2c] end) ++ z)
            = (match l with [] => [] | _ => [x2c] end) ++ unescapeState false z).
  { intros z. destruct l; [done|]. by apply unescape_byte. }
  rewrite E', IH. unfold pre. by rewrite <- !app_assoc.
Qed.

Lemma unescape_object l l' :
  Forall2 (λ m m', m.1 = m'.1 ∧ simple_key m.1 ∧ value_as m.2 m'.2) l l' →
  unescapeJSONLineSeparators (json.encode_object l) = json.encode_object l'.
Proof.
  intros HF. unfold unescapeJSONLineSeparators. rewrite unescape_state. cbn [leading_backslashes Z.odd].
  unfold json.encode_object. rewrite unescape_text by (done || set_solver). f_equal.
  rewrite (unescape_members l l' _ HF). f_equal.
Qed.

Lemma consumed_app w c t : json.consumed (w ++ c :: t) (c :: t) = w.
Proof. unfold json.consumed. rewrite len_app. apply takeZ_app. lia. Qed.

Lemma members_encode l t n :
  l ≠ [] → Forall (λ m, simple_key m.1 ∧ scannable m.2) l → (length l ≤ n)%nat →
  json.members n (json.encode_members l ++ x0a :: x7d :: t) = Some (l, t).
Proof.
  intros Hne HF. revert n. induction HF as [|[k w] l ((Hesc & _ & Hscan & Hunq) & Hw) HF IH]; intros n Hn; [done|].
  destruct n as [|n]; [cbn in Hn; lia|]. cbn in Hesc, Hscan, Hunq, Hw.
  cbn [json.encode_members]. unfold json.encode_string. rewrite Hesc.
  set (tl := json.encode_members l ++ x0a :: x7d :: t).
  set (sep := match l with [] => [] | _ => [x2c] end).
  assert (E : ([x0a] ++ bs "  " ++ ([json.quote_] ++ k ++ [json.quote_]) ++ bs ": " ++ w ++ sep ++ json.encode_members l)
              ++ x0a :: x7d :: t
            = [x0a] ++ bs "  " ++ json.quote_ :: k ++ json.quote_ :: x3a :: x20 :: w ++ sep ++ tl).
  { unfold tl. repeat (rewrite <- ?app_assoc; cbn [app]). done. }
  rewrite E. cbn [json.members].
  change (json.skip_space ([x0a] ++ bs "  " ++ json.quote_ :: k ++ json.quote_ :: x3a :: x20 :: w ++ sep ++ tl))
    with (json.quote_ :: k ++ json.quote_ :: x3a :: x20 :: w ++ sep ++ tl).
  cbn match. rewrite decide_True by done. rewrite Hscan, Hunq. cbn [mbind option_bind].
  change (json.skip_space (x3a :: x20 :: w ++ sep ++ tl)) with (x3a :: x20 :: w ++ sep ++ tl). cbn match.
  rewrite decide_True by done. change (json.skip_space (x20 :: w ++ sep ++ tl)) with (json.skip_space (w ++ sep ++ tl)).
  destruct l as [|m l].
  - unfold sep, tl. cbn [app json.encode_members].
    destruct (Hw (length (w ++ x0a :: x7d :: t)) x0a (x7d :: t) ltac:(by right)) as [-> Hs].
    cbn zeta. rewrite Hs. cbn [mbind option_bind].
    change (json.skip_space (x0a :: x7d :: t)) with (x7d :: t). cbn match.
    rewrite decide_False, decide_True by done. by rewrite consumed_app.
  - unfold sep. cbn [app].
    destruct (Hw (length (w ++ x2c :: tl)) x2c tl ltac:(by left)) as [-> Hs].
    cbn zeta. rewrite Hs. cbn [mbind option_bind].
    change (json.skip_space (x2c :: tl)) with (x2c :: tl). cbn match.
    rewrite decide_True by done. unfold tl. rewrite (IH ltac:(done) n) by (cbn in Hn |- *; lia).
    cbn [mbind option_bind]. by rewrite consumed_app.
Qed.

Lemma decode_encode_object l :
  l ≠ [] → Forall (λ m, simple_key m.1 ∧ scannable m.2) l →
  json.decode_object (json.encode_object l) = Some l.
Proof.
  intros Hne HF. unfold json.encode_object, json.decode_object.
  set (s := json.encode_members l ++ [x0a] ++ bs "}" ++ [x0a]).
  change (json.skip_space (bs "{" ++ s)) with (x7b :: s). cbn match. rewrite decide_True by done.
  assert (Hs : ∃ r, json.skip_space s = json.quote_ :: r).
  { destruct l as [|[k v] l]; [done|]. unfold s. cbn [json.encode_members]. unfold json.encode_string.
    eexists. rewrite <- !app_assoc. reflexivity. }
  destruct Hs as [r ->]. cbn match. rewrite decide_False by done.
  change ([x0a] ++ bs "}" ++ [x0a]) with (x0a :: x7d :: [x0a]) in *.
  assert (Hlen : ∀ k : list (bytes * bytes), (length k ≤ length (json.encode_members k))%nat).
  { induction k as [|[a b] k IH]; [done|]. cbn [json.encode_members length]. rewrite !length_app. cbn [length]. lia. }
  unfold s. rewrite (members_encode l [x0a]); [done|done|done|].
  rewrite length_app. specialize (Hlen l). lia.
Qed.

(** ** Values *)

Lemma value_as_string s : value_as (json.encode_string s) (literal s).
Proof.
  intros t. unfold json.encode_string, literal. cbn [app]. rewrite unescape_byte by done. f_equal.
  rewrite <- app_assoc, unescape_escape, <- app_assoc. f_equal. cbn [app]. by rewrite unescape_byte.
Qed.

Lemma digits_no_backslash ds : forallb strconv.is_digit ds = true → json.backslash ∉ ds.
Proof.
  intros Hd Hin. rewrite forallb_forall in Hd. apply list_elem_of_In, Hd in Hin. done.
Qed.

Lemma value_as_uint n : u64 n → value_as (json.encode_uint n) (strconv.Itoa n).
Proof.
  intros Hn t. destruct (strconv.Itoa_spec n Hn) as (Hd & _ & Hne).
  apply unescape_text; [by apply digits_no_backslash|done].
Qed.

Lemma scannable_literal s : scannable (literal s).
Proof.
  intros n c t _. unfold literal. cbn [app]. split; [done|]. cbn [json.scan_value].
  rewrite decide_True by done. rewrite <- app_assoc. cbn [app]. apply scan_plain.
Qed.

Lemma skip_digits_all ds c t :
  forallb strconv.is_digit ds = true → strconv.is_digit c = false → json.skip_digits (ds ++ c :: t) = c :: t.
Proof.
  intros Hd Hc. induction ds as [|d ds IH]; cbn; [by rewrite Hc|].
  cbn in Hd. apply andb_true_iff in Hd as [-> Hd]. auto.
Qed.

Lemma scan_value_digit n depth b r :
  strconv.is_digit b = true → json.scan_value (S n) depth (b :: r) = json.scan_number (b :: r).
Proof. intros Hb. destruct b; try (vm_compute in Hb; discriminate Hb); reflexivity. Qed.

Lemma digit_facts b : strconv.is_digit b = true → b ≠ x2d ∧ json.is_space b = false.
Proof. intros Hb. destruct b; try (vm_compute in Hb; discriminate Hb); by vm_compute. Qed.

Lemma scan_number_Itoa n c t :
  u64 n → (c = x2c ∨ c = x0a) → json.scan_number (strconv.Itoa n ++ c :: t) = Some (c :: t).
Proof.
  intros Hn Hc. destruct (strconv.Itoa_spec n Hn) as (Hd & _ & _).
  assert (Hend : strconv.is_digit c = false ∧ c ≠ x2e ∧ c ≠ x65 ∧ c ≠ x45) by (by destruct Hc as [-> | ->]).
  destruct Hend as (Hcd & H1 & H2 & H3).
  destruct (decide (n = 0)) as [->|Hz].
  { change (strconv.Itoa 0) with [x30]. destruct Hc as [-> | ->]; reflexivity. }
  destruct (strconv.Itoa_head n Hn ltac:(destruct Hn; lia)) as (b & ds & E & Hb). rewrite E in *.
  cbn in Hd. apply andb_true_iff in Hd as [Hbd Hd]. destruct (digit_facts b Hbd) as [Hm _].
  unfold json.scan_number. cbn [app]. rewrite decide_False by done.
  rewrite decide_False by (intros ->; by vm_compute in Hb). rewrite Hbd. cbn [mbind option_bind].
  rewrite skip_digits_all by done. rewrite decide_False by done. cbn [mbind option_bind].
  by rewrite !bool_decide_eq_false_2.
Qed.

Lemma scannable_uint n : u64 n → scannable (strconv.Itoa n).
Proof.
  intros Hn k c t Hc. pose proof (scan_number_Itoa n c t Hn Hc) as Hs.
  destruct (strconv.Itoa_spec n Hn) as (Hd & _ & Hne). destruct (strconv.Itoa n) as [|b ds]; [done|].
  cbn in Hd. apply andb_true_iff in Hd as [Hb _]. destruct (digit_facts b Hb) as [_ Hsp]. cbn [app] in *.
  split; [cbn [json.skip_space]; by rewrite Hsp|]. by rewrite scan_value_digit.
Qed.

Lemma decode_uint_Itoa n : u64 n → decodeJSONUint (strconv.Itoa n) = Some n.
Proof.
  intros Hn. unfold decodeJSONUint, json.decode_uint.
  destruct (strconv.Itoa_spec n Hn) as (Hd & _ & Hne).
  assert (Hs : json.scan_number (strconv.Itoa n) = Some []).
  { destruct (decide (n = 0)) as [->|Hz]; [done|].
    destruct (strconv.Itoa_head n Hn ltac:(destruct Hn; lia)) as (b & ds & E & Hb). rewrite E in *.
    cbn in Hd. apply andb_true_iff in Hd as [Hbd Hd]. destruct (digit_facts b Hbd) as [Hm _].
    unfold json.scan_number. rewrite decide_False by done.
    rewrite decide_False by (intros ->; by vm_compute in Hb). rewrite Hbd. cbn [mbind option_bind].
    assert (Hsd : json.skip_digits ds = []).
    { clear -Hd. induction ds as [|d ds IH]; cbn in *; [done|]. apply andb_true_iff in Hd as [-> Hd]. auto. }
    by rewrite Hsd. }
  pose proof (strconv.ParseUint_Itoa n Hn) as Hp.
  destruct (strconv.Itoa n) as [|b ds] eqn:E; [done|].
  cbn in Hd. apply andb_true_iff in Hd as [Hb _]. destruct (digit_facts b Hb) as [_ Hsp].
  cbn [json.skip_space]. rewrite Hsp, Hs. cbn [mbind option_bind].
  unfold json.consumed. rewrite len_nil, Z.sub_0_r, takeZ_all by lia. exact Hp.
Qed.

(** ** UTF-8 *)

Lemma escape_ascii_high b : (b2z b <? 0x80) = false → json.escape_ascii b = [b].
Proof.
  intros Hb. unfold json.escape_ascii.
  rewrite !decide_False by (intros ->; discriminate Hb). zbool.
  repeat (rewrite (proj2 (Z.eqb_neq _ _)) by lia). by rewrite (proj2 (Z.ltb_ge _ _)) by lia.
Qed.

Lemma escape_ascii_low b : (b2z b <? 0x80) = true → utf8.Valid (json.escape_ascii b) = true.
Proof. intros Hb. destruct b; try (vm_compute in Hb; discriminate Hb); by vm_compute. Qed.

Lemma in_range_high lo hi b : 0x80 ≤ lo → utf8.in_range lo hi b = true → (b2z b <? 0x80) = false.
Proof. unfold utf8.in_range. intros Hlo Hb. zbool. apply Z.ltb_ge. lia. Qed.

Lemma lead_low p0 size lo hi : utf8.lead p0 = Some (size, lo, hi) → 0x80 ≤ lo.
Proof.
  unfold utf8.lead. intros E.
  repeat match type of E with
  | (if ?c then _ else _) = _ => destruct c; [injection E; intros; subst; lia|]
  end. done.
Qed.

Lemma plain_high b s : (b2z b <? 0x80) = false → plain (b :: s) = b :: plain s.
Proof. intros Hb. by rewrite plain_cons, escape_ascii_high. Qed.

Lemma Valid_plain s : utf8.Valid s = true → utf8.Valid (plain s) = true.
Proof.
  remember (length s) as n eqn:Hn. revert s Hn. induction (lt_wf n) as [n _ IH]. intros s -> Hv.
  destruct s as [|p0 r0]; [done|]. cbn [utf8.Valid] in Hv.
  destruct (b2z p0 <? 0x80) eqn:E0.
  { rewrite plain_cons, utf8.Valid_app by (by apply escape_ascii_low). apply (IH (length r0)); [cbn; lia|done|done]. }
  rewrite plain_high by done.
  destruct (utf8.lead p0) as [[[size lo] hi]|] eqn:El; [|done]. pose proof (lead_low _ _ _ _ El) as Hlo.
  destruct r0 as [|b1 r1]; [done|].
  destruct (utf8.in_range lo hi b1) eqn:E1; cbn [negb] in Hv; [|done].
  rewrite plain_high by (by eapply in_range_high).
  cbn [utf8.Valid]. rewrite E0, El, E1. cbn [negb].
  destruct (size =? 2); [apply (IH (length r1)); [cbn; lia|done|done]|].
  destruct r1 as [|b2 r2]; [done|]. destruct (utf8.cont b2) eqn:E2; cbn [negb] in Hv; [|done].
  rewrite plain_high by (apply (in_range_high 0x80 0xBF b2); [lia|exact E2]). rewrite E2. cbn [negb].
  destruct (size =? 3); [apply (IH (length r2)); [cbn; lia|done|done]|].
  destruct r2 as [|b3 r3]; [done|]. destruct (utf8.cont b3) eqn:E3; cbn [negb] in Hv; [|done].
  rewrite plain_high by (apply (in_range_high 0x80 0xBF b3); [lia|exact E3]). rewrite E3. cbn [negb].
  apply (IH (length r3)); [cbn; lia|done|done].
Qed.

Lemma Valid_app_both a b : utf8.Valid a = true → utf8.Valid b = true → utf8.Valid (a ++ b) = true.
Proof. intros Ha Hb. by rewrite utf8.Valid_app. Qed.

Lemma Valid_literal s : utf8.Valid s = true → utf8.Valid (literal s) = true.
Proof. intros Hs. unfold literal. apply Valid_app_both; [done|]. apply Valid_app_both; [by apply Valid_plain|done]. Qed.

Lemma Valid_digits ds : forallb strconv.is_digit ds = true → utf8.Valid ds = true.
Proof.
  intros Hd. apply utf8.Valid_ascii. apply Forall_forall. intros b Hb.
  rewrite forallb_forall in Hd. apply list_elem_of_In, Hd in Hb. unfold strconv.is_digit in Hb. zbool. lia.
Qed.

Lemma Valid_members l :
  Forall (λ m, utf8.Valid (json.encode_string m.1) = true ∧ utf8.Valid m.2 = true) l →
  utf8.Valid (json.encode_members l) = true.
Proof.
  induction 1 as [|[k v] l [Hk Hv] HF IH]; [done|]. cbn [json.encode_members].
  repeat (apply Valid_app_both; [done|]). apply Valid_app_both; [by destruct l|done].
Qed.

(** ** The record *)

(** Field names are lower-case words. *)
Definition word_byte (b : byte) : bool := ((97 <=? b2z b) && (b2z b <=? 122)) || (b2z b =? 95).

Lemma simple_word k : forallb word_byte k = true → simple_key k.
Proof.
  intros Hk.
  assert (Hb : ∀ b, word_byte b = true → json.escape_ascii b = [b] ∧ b ≠ json.backslash ∧ b ≠ xe2).
  { intros b Hw. destruct b; try (vm_compute in Hw; discriminate Hw); by vm_compute. }
  assert (Hp : plain k = k ∧ json.escape k = k ∧ json.backslash ∉ k).
  { induction k as [|b k IH]; [split_and!; [done..|apply not_elem_of_nil]|].
    cbn in Hk. apply andb_true_iff in Hk as [Hw Hk]. destruct (Hb b Hw) as (He & Hne & He2).
    destruct (IH Hk) as (E1 & E2 & E3). split_and!.
    - by rewrite plain_cons, He, E1.
    - cbn [json.escape]. rewrite (bool_decide_eq_false_2 _ He2), He.
      destruct k as [|c [|d k]]; [done| |]; cbn [andb app]; by rewrite E2.
    - by apply not_elem_of_cons. }
  destruct Hp as (E1 & E2 & E3). split_and!; try done.
  - intros t. rewrite <- E1. apply scan_plain.
  - intros t. rewrite <- E1 at 1. apply unquote_plain.
Qed.

Definition file_members (r : FeatureRequest) : list (bytes * bytes) :=
  (if bool_decide (DecisionNote r = []) then [] else [(bs "decision_note", literal (DecisionNote r))])
  ++ [(bs "description", literal (Description r));
      (bs "generation", strconv.Itoa (Generation r));
      (bs "id", strconv.Itoa (ID r));
      (bs "status", literal (Status r));
      (bs "title", literal (Title r))].

(** The machine ranges of the two numbers. *)
Definition request_wf (r : FeatureRequest) : Prop := u64 (ID r) ∧ u64 (Generation r).

Lemma encoded_text r :
  request_wf r → encodeFeatureRequest r = json.encode_object (file_members r).
Proof.
  intros [Hi Hg]. unfold encodeFeatureRequest. apply unescape_object.
  unfold request_members, file_members. apply Forall2_app.
  - case_bool_decide; repeat constructor; cbn; [by apply simple_word|apply value_as_string].
  - repeat apply Forall2_cons_2; [..|constructor]; cbn;
      (split; [done|]); (split; [by apply simple_word|]);
      (apply value_as_string || by apply value_as_uint).
Qed.

Lemma file_members_good r :
  request_wf r → Forall (λ m, simple_key m.1 ∧ scannable m.2) (file_members r).
Proof.
  intros [Hi Hg]. unfold file_members. apply Forall_app. split.
  - case_bool_decide; [constructor|]. apply Forall_singleton. cbn.
    split; [by apply simple_word|apply scannable_literal].
  - repeat apply Forall_cons_2; [..|constructor]; cbn;
      (split; [by apply simple_word|]); (apply scannable_literal || by apply scannable_uint).
Qed.

(** The validity conditions of a request, taken apart. *)
Definition valid_request (r : FeatureRequest) : Prop :=
  ID r ≠ 0
  ∧ utf8.Valid (Title r) = true ∧ utf8.Valid (Description r) = true
  ∧ validateFeatureText (Title r) (Description r) = Ok ()
  ∧ utf8.Valid (DecisionNote r) = true
  ∧ validFeatureStatus (Status r) = true.

Lemma validateRequest_inv r : validateRequest r = Ok () → valid_request r.
Proof.
  unfold validateRequest, valid_request.
  intros ([] & Hid & E)%bind_Ok. apply bind_Ok in E as ([] & Ht & E). apply bind_Ok in E as ([] & Hn & E).
  unfold validateRequestID in Hid. case_in Hid; [done|]. zbool.
  case_in E; [done|]. destruct (validFeatureStatus (Status r)); [|done].
  assert (utf8.Valid (DecisionNote r) = true) by (unfold ValidateFeatureDecisionNote in Hn; by destruct (utf8.Valid _)).
  pose proof Ht as Ht'. unfold validateFeatureText in Ht'. case_in Ht'; [done|]. zbool. done.
Qed.

Lemma status_valid s : validFeatureStatus s = true → utf8.Valid s = true.
Proof.
  unfold validFeatureStatus. intros Hs. apply orb_true_iff in Hs as [Hs|Hs]; [apply orb_true_iff in Hs as [Hs|Hs]|];
    apply bool_decide_eq_true in Hs as ->; done.
Qed.

Lemma file_members_valid r :
  request_wf r → valid_request r →
  utf8.Valid (json.encode_object (file_members r)) = true.
Proof.
  intros [Hi Hg] (_ & Ht & Hd & _ & Hn & Hs). apply status_valid in Hs.
  pose proof (proj1 (strconv.Itoa_spec _ Hi)) as Hid. pose proof (proj1 (strconv.Itoa_spec _ Hg)) as Hgd.
  unfold json.encode_object. apply Valid_app_both; [done|]. apply Valid_app_both; [|done].
  apply Valid_members. unfold file_members. apply Forall_app. split.
  - case_bool_decide; [constructor|]. apply Forall_singleton. cbn [fst snd]. split; [reflexivity|by apply Valid_literal].
  - repeat apply Forall_cons_2; [..|constructor]; cbn [fst snd]; (split; [reflexivity|]);
      [exact (Valid_literal _ Hd)|exact (Valid_digits _ Hgd)|exact (Valid_digits _ Hid)
      |exact (Valid_literal _ Hs)|exact (Valid_literal _ Ht)].
Qed.

(** The fields of a record as a map, whatever their values. *)
Lemma fields_without_note d g i s t :
  let fields := json.fields_map [(bs "description", d); (bs "generation", g); (bs "id", i); (bs "status", s); (bs "title", t)] in
  fields !! bs "decision_note" = None ∧ size fields = 5%nat
  ∧ fields !! bs "id" = Some i ∧ fields !! bs "generation" = Some g ∧ fields !! bs "title" = Some t
  ∧ fields !! bs "description" = Some d ∧ fields !! bs "status" = Some s.
Proof. vm_compute. by split_and!. Qed.

Lemma fields_with_note n d g i s t :
  let fields := json.fields_map [(bs "decision_note", n); (bs "description", d); (bs "generation", g); (bs "id", i);
                                 (bs "status", s); (bs "title", t)] in
  fields !! bs "decision_note" = Some n ∧ size fields = 6%nat
  ∧ fields !! bs "id" = Some i ∧ fields !! bs "generation" = Some g ∧ fields !! bs "title" = Some t
  ∧ fields !! bs "description" = Some d ∧ fields !! bs "status" = Some s.
Proof. vm_compute. by split_and!. Qed.

(** The fields found, the checks of the decoder run through. *)
Ltac found_fields :=
  match goal with |- (if ?c then _ else _) = _ => change c with false end; cbn match;
  rewrite !(bool_decide_eq_true_2 _ (mk_is_Some (Some _) _ eq_refl)); cbn [negb andb default option_map].
Ltac decode_numbers Hi Hg H0 :=
  cbn [default]; unfold from_option, id; rewrite (decode_uint_Itoa _ Hi), (decode_uint_Itoa _ Hg); cbn match;
  rewrite (proj2 (Z.eqb_neq _ _) H0); cbn [mbind result_bind].
Ltac decode_texts Ht Hd Htext Hs Hsv :=
  unfold decodeText;
  rewrite (decode_literal _ Ht); cbn [mbind result_bind]; rewrite (decode_literal _ Hd); cbn [mbind result_bind];
  rewrite Htext; cbn [mbind result_bind];
  rewrite (decode_literal _ Hsv); cbn match; rewrite Hs; cbn [mbind result_bind].

Lemma decode_encode r :
  request_wf r → validateRequest r = Ok () → DecodeFeatureRequest (encodeFeatureRequest r) = Ok r.
Proof.
  intros Hwf Hval. pose proof (validateRequest_inv r Hval) as Hv. rewrite encoded_text by done.
  unfold DecodeFeatureRequest. rewrite file_members_valid by done. cbn [negb].
  rewrite decode_encode_object; [|unfold file_members; by destruct (if bool_decide _ then _ else _)|by apply file_members_good].
  destruct Hwf as [Hi Hg], Hv as (H0 & Ht & Hd & Htext & Hn & Hs). pose proof (status_valid _ Hs) as Hsv.
  assert (Hfin : mkRequest (ID r) (Generation r) (Title r) (Description r) (Status r) (DecisionNote r) = r) by (by destruct r).
  unfold file_members. case_bool_decide as En; cbn [app].
  - destruct (fields_without_note (literal (Description r)) (strconv.Itoa (Generation r)) (strconv.Itoa (ID r))
      (literal (Status r)) (literal (Title r))) as (Fn & Fs & F1 & F2 & F3 & F4 & F5).
    match goal with |- context [json.fields_map ?l] => set (fields := json.fields_map l) in * end. clearbody fields.
    cbn zeta. rewrite Fn, Fs. destruct (decide (is_Some None)) as [[? [=]]|_]. cbn [app].
    cbn [forallb]. rewrite F1, F2, F3, F4, F5. found_fields.
    decode_numbers Hi Hg H0. decode_texts Ht Hd Htext Hs Hsv. by rewrite <- En, Hfin, Hval.
  - destruct (fields_with_note (literal (DecisionNote r)) (literal (Description r)) (strconv.Itoa (Generation r)) (strconv.Itoa (ID r))
      (literal (Status r)) (literal (Title r))) as (Fn & Fs & F1 & F2 & F3 & F4 & F5).
    match goal with |- context [json.fields_map ?l] => set (fields := json.fields_map l) in * end. clearbody fields.
    cbn zeta. rewrite decide_True by (rewrite Fn; eauto). rewrite Fs. cbn [app].
    cbn [forallb]. rewrite Fn, F1, F2, F3, F4, F5. found_fields.
    decode_numbers Hi Hg H0. decode_texts Ht Hd Htext Hs Hsv.
    rewrite (decode_literal _ Hn). cbn [mbind result_bind]. by rewrite Hfin, Hval.
Qed.

(** ** File names *)

Lemma length_digits fuel n acc : (length (strconv.digits fuel n acc) ≤ fuel + length acc)%nat.
Proof.
  revert n acc. induction fuel as [|fuel IH]; intros n acc; [done|]. cbn [strconv.digits].
  case_match; cbn; [lia|]. etransitivity; [apply IH|]. cbn. lia.
Qed.

Lemma len_Itoa_bound n : len (strconv.Itoa n) ≤ 20.
Proof. pose proof (length_digits 20 n []) as H. unfold len, strconv.Itoa. cbn [length] in H. lia. Qed.

Lemma padded_digits w n :
  u64 n → forallb strconv.is_digit (padded w n) = true ∧ strconv.digits_value (padded w n) = n ∧ padded w n ≠ [].
Proof.
  intros Hn. destruct (strconv.Itoa_spec n Hn) as (Hd & Hv & Hne). unfold padded.
  induction (Z.to_nat (w - len (strconv.Itoa n))) as [|k (IH1 & IH2 & IH3)]; [done|]. cbn [replicate app]. split_and!.
  - exact IH1.
  - rewrite strconv.digits_value_cons, IH2. change (b2z x30) with 48. lia.
  - discriminate.
Qed.

Lemma ParseUint_padded w n : u64 n → strconv.ParseUint (padded w n) = Some n.
Proof.
  intros Hn. destruct (padded_digits w n Hn) as (Hd & Hv & Hne). unfold strconv.ParseUint.
  destruct (padded w n) as [|b s]; [done|]. rewrite Hd, Hv. by rewrite (proj2 (Z.ltb_lt _ _) (proj2 Hn)).
Qed.

Lemma ParseUint_range s v : strconv.ParseUint s = Some v → u64 v.
Proof.
  unfold strconv.ParseUint. destruct s as [|b s]; [done|]. destruct (forallb _ _) eqn:Hd; [|done].
  intros Hv. case_in Hv; [|done]. zbool. injection Hv as <-.
  pose proof (strconv.digits_value_bound (b :: s) Hd). unfold u64. lia.
Qed.

Lemma HasSuffix_app s t : strings.HasSuffix (s ++ t) t = true.
Proof. unfold strings.HasSuffix. rewrite rev_app_distr. apply strings.HasPrefix_app. Qed.

(** The name of a request, taken apart. *)
Lemma requestIDFromName_name n : u64 n → n ≠ 0 → requestIDFromName (requestName n) = Ok n.
Proof.
  intros Hn H0. destruct (padded_digits 6 n Hn) as (Hd & Hv & Hne). unfold requestIDFromName.
  assert (Hp : strings.HasPrefix (requestName n) (bs "request-") = true) by apply strings.HasPrefix_app.
  assert (Hs : strings.HasSuffix (requestName n) (bs ".json") = true)
    by (unfold requestName; rewrite app_assoc; apply HasSuffix_app).
  assert (Ht : strings.TrimSuffix (strings.TrimPrefix (requestName n) (bs "request-")) (bs ".json") = padded 6 n).
  { unfold strings.TrimPrefix. rewrite Hp. unfold requestName. rewrite dropZ_app by done.
    unfold strings.TrimSuffix. rewrite HasSuffix_app. apply takeZ_app. llia. }
  rewrite Hp, Hs, Ht, Hd, (ParseUint_padded 6 n Hn). cbn [negb orb].
  rewrite (bool_decide_eq_false_2 _ Hne), (proj2 (Z.eqb_neq _ _) H0), bool_decide_eq_true_2 by done. done.
Qed.

Lemma requestIDFromName_inv name n :
  requestIDFromName name = Ok n → u64 n ∧ n ≠ 0 ∧ name = requestName n.
Proof.
  unfold requestIDFromName. intros E. case_in E; [done|]. case_in E; [done|].
  destruct (forallb strconv.is_digit _) eqn:Hd; [|done]. cbn [negb] in E.
  destruct (strconv.ParseUint _) as [v|] eqn:Hv; [|done].
  destruct ((v =? 0) || _) eqn:Hc; [done|]. injection E as ->.
  apply orb_false_iff in Hc as [H0 H1]. apply negb_false_iff, bool_decide_eq_true in H1. zbool.
  split_and!; [|lia|done]. by eapply ParseUint_range.
Qed.

Lemma requestName_inj a b : u64 a → a ≠ 0 → u64 b → b ≠ 0 → requestName a = requestName b → a = b.
Proof.
  intros Ha H0 Hb H1 E. pose proof (requestIDFromName_name a Ha H0) as E1.
  rewrite E, (requestIDFromName_name b Hb H1) in E1. congruence.
Qed.

(** ** Claims on records *)

(** a valid feature request survives its JSON record: encoding it (with the
    HTML escaping of Go's encoder switched off and the line separators put back)
    and decoding the file gives the same request, its note omitted when empty. *)
Theorem feature_record_roundtrip r :
  u64 (ID r) → u64 (Generation r) → validateRequest r = Ok () →
  DecodeFeatureRequest (encodeFeatureRequest r) = Ok r.
Proof. intros. by apply decode_encode. Qed.

Lemma feature_record_roundtrip_witness :
  let r := mkRequest 7 3 ([x22; x5c] ++ bs "a <c>") [xe2; x80; xa8; x09] FeatureApproved (bs "ok") in
  DecodeFeatureRequest (encodeFeatureRequest r) = Ok r.
Proof. apply feature_record_roundtrip; [by vm_compute|by vm_compute|by vm_compute]. Defined.

(** the file names and the identifiers correspond one to one: a name is
    accepted with an identifier exactly when the identifier is a positive 64-bit
    number and the name is the one the store writes for it. *)
Theorem request_names_exact name id :
  requestIDFromName name = Ok id ↔ u64 id ∧ id ≠ 0 ∧ name = requestName id.
Proof. split; [apply requestIDFromName_inv|]. intros (? & ? & ->). by apply requestIDFromName_name. Qed.
