(* ===== verification/FeatureRefine.v ===== *)
(** * The feature-request store as a map of requests

    The directory is related to the map of the requests it records, the reading of
    it is shown to compute that map, and every operation, under every fault of the
    file system, is shown to be an operation on the map. *)

From S2P Require Import Prelude GoStd Json FeatureStore FeatureProofs.
Open Scope Z_scope.

(** ** What a directory records *)

(** An entry that holds a request. *)
Definition records (name : bytes) (e : dirent) (r : FeatureRequest) : Prop :=
  requestIDFromName name = Ok (ID r) ∧ ∃ c, e = RegularFile (Ok c) ∧ DecodeFeatureRequest c = Ok r.

(** The entries hold exactly the requests of the map. *)
Definition lists (l : gmap bytes dirent) (m : gmap Z FeatureRequest) : Prop :=
  (∀ name e, l !! name = Some e → ∃ r, records name e r ∧ m !! ID r = Some r)
  ∧ (∀ id r, m !! id = Some r → ID r = id ∧ ∃ e, l !! requestName id = Some e ∧ records (requestName id) e r).

Definition dir_lists (d : storedir) (m : gmap Z FeatureRequest) : Prop :=
  match d with
  | Missing => m = ∅
  | Entries l => lists l m
  | _ => False
  end.

Lemma records_det name e r r' : records name e r → records name e r' → r = r'.
Proof. intros (_ & c & -> & E) (_ & c' & [= <-] & E'). congruence. Qed.

Lemma records_name name e r : records name e r → u64 (ID r) ∧ ID r ≠ 0 ∧ name = requestName (ID r).
Proof. intros [Hn _]. by apply requestIDFromName_inv. Qed.

Lemma decoded_valid c r : DecodeFeatureRequest c = Ok r → utf8.Valid c = true ∧ validateRequest r = Ok ().
Proof.
  unfold DecodeFeatureRequest. intros E. destruct (utf8.Valid c); [|done]. cbn [negb] in E. split; [done|].
  destruct (json.decode_object c); [|done]. cbn zeta in E.
  match type of E with (if ?b then _ else _) = _ => destruct b; [done|] end.
  match type of E with (if ?b then _ else _) = _ => destruct b; [done|] end.
  do 7 (apply bind_Ok in E as (? & _ & E)). by apply bind_Ok in E as ([] & E' & [= <-]).
Qed.

Lemma decoded_generation c r : DecodeFeatureRequest c = Ok r → u64 (Generation r).
Proof.
  unfold DecodeFeatureRequest. intros E. destruct (utf8.Valid c); [|done]. cbn [negb] in E.
  destruct (json.decode_object c); [|done]. cbn zeta in E.
  match type of E with (if ?b then _ else _) = _ => destruct b; [done|] end.
  match type of E with (if ?b then _ else _) = _ => destruct b; [done|] end.
  apply bind_Ok in E as (? & _ & E). apply bind_Ok in E as (g & Hg & E).
  do 5 (apply bind_Ok in E as (? & _ & E)). apply bind_Ok in E as ([] & _ & [= <-]). cbn.
  destruct (decodeJSONUint _) as [n|] eqn:Hn; [|done]. injection Hg as ->.
  unfold decodeJSONUint, json.decode_uint in Hn. destruct (json.skip_space _); [done|].
  apply bind_Some in Hn as (? & _ & Hn). by eapply ParseUint_range.
Qed.

(** A recorded request is well formed. *)
Lemma records_wf name e r : records name e r → request_wf r ∧ validateRequest r = Ok ().
Proof.
  intros Hr. pose proof (records_name _ _ _ Hr) as (Hi & _ & _). destruct Hr as (_ & c & _ & Hc).
  split; [split; [done|by eapply decoded_generation]|by eapply decoded_valid].
Qed.

Lemma records_write r :
  request_wf r → validateRequest r = Ok () →
  records (requestName (ID r)) (RegularFile (Ok (encodeFeatureRequest r))) r.
Proof.
  intros Hwf Hv. split; [|eexists; split; [done|by apply decode_encode]].
  apply requestIDFromName_name; [apply Hwf|apply (validateRequest_inv r Hv)].
Qed.

(** ** Reading the directory *)

Lemma readEntries_cons name e entries acc r :
  records name e r → acc !! ID r = None →
  readEntries ((name, e) :: entries) acc = readEntries entries (<[ID r := r]> acc).
Proof.
  intros (Hn & c & -> & Hc) Hacc. destruct (decoded_valid c r Hc) as [Hu _]. cbn [readEntries].
  rewrite Hn. cbn [mbind result_bind]. rewrite Hu. cbn [negb mbind result_bind]. rewrite Hc. cbn [mbind result_bind].
  rewrite Z.eqb_refl. cbn [negb]. rewrite bool_decide_eq_false_2; [done|]. rewrite Hacc. by intros [? [=]].
Qed.

Lemma readEntries_cons_inv name e entries acc m :
  readEntries ((name, e) :: entries) acc = Ok m →
  ∃ r, records name e r ∧ acc !! ID r = None ∧ readEntries entries (<[ID r := r]> acc) = Ok m.
Proof.
  cbn [readEntries]. intros E. apply bind_Ok in E as (id & Hid & E). apply bind_Ok in E as (c & Hc & E).
  apply bind_Ok in E as (r & Hr & E). destruct e as [[c'|?]|?]; [|done..]. case_in Hc; [done|]. injection Hc as ->.
  destruct (DecodeFeatureRequest c) as [r'|err] eqn:Ed; [|by destruct err; repeat match type of Hr with context [if ?b then _ else _] => destruct b end].
  injection Hr as ->. destruct (Z.eqb_spec (ID r) id) as [He|]; [|done]. cbn [negb] in E. case_bool_decide as Hb; [done|].
  exists r. split; [split; [by rewrite He|by exists c]|]. split; [|done]. by apply eq_None_not_Some.
Qed.

(** What the loop returns: what it started from and what the entries hold. *)
Lemma readEntries_sound entries acc m :
  readEntries entries acc = Ok m →
  acc ⊆ m ∧ (∀ name e, (name, e) ∈ entries → ∃ r, records name e r ∧ m !! ID r = Some r)
  ∧ (∀ id r, m !! id = Some r → acc !! id = Some r ∨ ∃ name e, (name, e) ∈ entries ∧ records name e r ∧ id = ID r).
Proof.
  revert acc. induction entries as [|[name e] entries IH]; intros acc E.
  { injection E as ->. split_and!; [done|by intros ? ? ?%not_elem_of_nil|by left]. }
  apply readEntries_cons_inv in E as (r & Hr & Ha & E). destruct (IH _ E) as (Hs & H1 & H2).
  assert (Hm : m !! ID r = Some r) by (eapply lookup_weaken; [apply lookup_insert_eq|done]).
  split_and!.
  - transitivity (<[ID r := r]> acc); [by apply insert_subseteq|done].
  - intros n e' [[= -> ->]|Hin]%elem_of_cons; [by exists r|by apply H1].
  - intros id r' Hr'. destruct (H2 id r' Hr') as [Hi|(n & e' & Hin & Hrec & Hid)].
    + apply lookup_insert_Some in Hi as [[<- <-]|[? Hi]]; [|by left]. right. exists name, e. by split; [left|].
    + right. exists n, e'. by split; [right|].
Qed.

(** The loop succeeds on entries with distinct names that all hold requests. *)
Lemma readEntries_total entries acc :
  NoDup entries.*1 →
  (∀ name e, (name, e) ∈ entries → ∃ r, records name e r ∧ acc !! ID r = None) →
  ∃ m, readEntries entries acc = Ok m.
Proof.
  revert acc. induction entries as [|[name e] entries IH]; intros acc Hnd Hall; [by eexists|].
  apply NoDup_cons in Hnd as [Hnin Hnd]. destruct (Hall name e) as (r & Hr & Ha); [by left|].
  rewrite (readEntries_cons _ _ _ _ r) by done. apply IH; [done|]. intros n e' Hin.
  destruct (Hall n e') as (r' & Hr' & Ha'); [by right|]. exists r'. split; [done|].
  rewrite lookup_insert_ne; [done|]. intros Heq. apply Hnin. apply list_elem_of_fmap. exists (n, e'). split; [|done].
  pose proof (records_name _ _ _ Hr) as (_ & _ & ->). pose proof (records_name _ _ _ Hr') as (_ & _ & ->). cbn. by rewrite Heq.
Qed.

Lemma lists_det l m m' : lists l m → lists l m' → m = m'.
Proof.
  assert (Hsub : ∀ m m', lists l m → lists l m' → ∀ id r, m !! id = Some r → m' !! id = Some r).
  { intros n n' [_ H1] [H2 _] id r Hm. destruct (H1 id r Hm) as (<- & e & He & Hr).
    destruct (H2 _ e He) as (r' & Hr' & Hm'). by rewrite (records_det _ _ _ _ Hr Hr'). }
  intros H H'. apply map_eq. intros id. apply option_eq. intros r. split; by eapply Hsub.
Qed.

Lemma sorted_entries (l : gmap bytes dirent) name e :
  (name, e) ∈ sort.SliceBy fst (map_to_list l) ↔ l !! name = Some e.
Proof. rewrite sort.SliceBy_perm. apply elem_of_map_to_list. Qed.

Lemma read_lists l m : readFeatureRequests (Entries l) = Ok m ↔ lists l m.
Proof.
  assert (Hf : ∀ m, readFeatureRequests (Entries l) = Ok m → lists l m).
  { intros m' E. apply readEntries_sound in E as (_ & H1 & H2). split.
    - intros name e He. apply H1. by apply sorted_entries.
    - intros id r Hm. destruct (H2 id r Hm) as [Hm'|(n & e & Hin & Hr & ->)]; [by rewrite lookup_empty in Hm'|].
      split; [done|]. pose proof (records_name _ _ _ Hr) as (_ & _ & ->). apply sorted_entries in Hin. by exists e. }
  split; [apply Hf|]. intros Hl. destruct (readEntries_total (sort.SliceBy fst (map_to_list l)) ∅) as [m' E].
  - rewrite sort.SliceBy_NoDup. apply NoDup_fst_map_to_list.
  - intros name e Hin%sorted_entries. destruct (proj1 Hl _ _ Hin) as (r & Hr & _). by exists r.
  - rewrite (lists_det l m m' Hl); [done|]. by apply Hf.
Qed.

Lemma read_dir_lists d m : readFeatureRequests d = Ok m ↔ dir_lists d m.
Proof.
  destruct d; cbn [dir_lists]; [|done|done|apply read_lists]. cbn. split; [by intros [= <-]|by intros ->].
Qed.

Lemma refresh_lists s m :
  dir_lists (directory s) m → refresh s = (Ok (), mkStore (directory s) m).
Proof. intros Hd. unfold refresh. by rewrite (proj2 (read_dir_lists _ _) Hd). Qed.

(** ** Writing a record *)

Lemma lists_insert l m e r :
  lists l m → records (requestName (ID r)) e r → lists (<[requestName (ID r) := e]> l) (<[ID r := r]> m).
Proof.
  intros [H1 H2] Hr. pose proof (records_name _ _ _ Hr) as (Hu & H0 & _). split.
  - intros name e' [[<- <-]|[Hne He]]%lookup_insert_Some; [exists r; by rewrite lookup_insert_eq|].
    destruct (H1 name e' He) as (r' & Hr' & Hm). exists r'. split; [done|]. rewrite lookup_insert_ne; [done|].
    pose proof (records_name _ _ _ Hr') as (_ & _ & ->). congruence.
  - intros id r' [[<- <-]|[Hne Hm]]%lookup_insert_Some.
    { split; [done|]. exists e. by rewrite lookup_insert_eq. }
    destruct (H2 id r' Hm) as (Hid & e' & He' & Hr'). split; [done|]. exists e'. split; [|done].
    rewrite lookup_insert_ne; [done|]. pose proof (records_name _ _ _ Hr') as (Hu' & H0' & _). rewrite Hid in Hu', H0'.
    intros E%requestName_inj; done.
Qed.

Lemma lists_fresh l m id : u64 id → id ≠ 0 → lists l m → l !! requestName id = None ↔ m !! id = None.
Proof.
  intros Hu H0 [H1 H2]. split; intros Hn; apply eq_None_not_Some; intros [x Hx].
  - destruct (H2 id x Hx) as (_ & e & He & _). congruence.
  - destruct (H1 _ x Hx) as (r & Hr & Hm). pose proof (records_name _ _ _ Hr) as (Hu' & H0' & E).
    apply requestName_inj in E; [|done..]. congruence.
Qed.

(** A request that may be written. *)
Definition writable (r : FeatureRequest) (replace : bool) (m : gmap Z FeatureRequest) : Prop :=
  validateRequest r = Ok () ∧ (replace = false → m !! ID r = None).

Lemma write_ok r replace s m :
  dir_lists (directory s) m → request_wf r → writable r replace m →
  ∃ d, write r replace NoFault s = (Ok (), mkStore d (requests s)) ∧ dir_lists d (<[ID r := r]> m).
Proof.
  intros Hd Hwf [Hv Hf]. pose proof (records_write r Hwf Hv) as Hr. unfold write. rewrite Hv.
  set (l := match directory s with Entries l => l | _ => ∅ end).
  assert (Hl : lists l m).
  { subst l. destruct (directory s) as [| | |l]; cbn in Hd; try done. subst m. split; intros ? ? H; by rewrite lookup_empty in H. }
  assert (Hc : negb replace && bool_decide (is_Some (l !! requestName (ID r))) = false).
  { destruct replace; [done|]. cbn [negb andb]. apply bool_decide_eq_false_2. rewrite <- eq_None_not_Some.
    apply (lists_fresh l m); [apply Hwf|apply (validateRequest_inv r Hv)|done|by apply Hf]. }
  destruct (directory s) as [| | |l']; try done; subst l; rewrite Hc; eexists; (split; [reflexivity|]); by apply lists_insert.
Qed.

(** A directory with a temporary file that stayed: the records are there, but the
    store cannot be read any more. *)
Definition jammed (d : storedir) (m : gmap Z FeatureRequest) : Prop :=
  ∃ l name e, lists l m ∧ strings.HasPrefix name (bs ".") = true ∧ d = Entries (<[name := e]> l).

Lemma jammed_unreadable d m : jammed d m → ∃ err, readFeatureRequests d = Err err.
Proof.
  intros (l & name & e & _ & Hn & ->). destruct (readFeatureRequests _) as [m'|err] eqn:E; [|by exists err].
  apply read_lists in E as [E _]. destruct (E name e) as (r & Hr & _); [apply lookup_insert_eq|].
  apply records_name in Hr as (_ & _ & ->). discriminate Hn.
Qed.

Definition stranded (f : recordFault) : Prop := match f with Stranded _ _ _ => True | _ => False end.

(** Whatever happens, the directory holds the requests it held, or these and the
    one written; a temporary file stays only when its removal failed. *)
Lemma write_cases r replace f s m :
  dir_lists (directory s) m → request_wf r →
  let '(res, s') := write r replace f s in
  requests s' = requests s
  ∧ ((dir_lists (directory s') m ∧ res ≠ Ok ()) ∨ (dir_lists (directory s') (<[ID r := r]> m) ∧ writable r replace m)
     ∨ (jammed (directory s') m ∧ res ≠ Ok () ∧ stranded f)).
Proof.
  intros Hd Hwf. unfold write. destruct (validateRequest r) as [[]|] eqn:Hv; [|cbn; split; [done|by left]].
  pose proof (records_write r Hwf Hv) as Hr. set (l := match directory s with Entries l => l | _ => ∅ end).
  assert (Hl : lists l m).
  { subst l. destruct (directory s) as [| | |l]; cbn in Hd; try done. subst m. split; intros ? ? H; by rewrite lookup_empty in H. }
  assert (Hw : negb replace && bool_decide (is_Some (l !! requestName (ID r))) = false → writable r replace m).
  { intros Hb. split; [done|]. intros ->. cbn [negb andb] in Hb. apply bool_decide_eq_false in Hb.
    apply (lists_fresh l m); [apply Hwf|apply (validateRequest_inv r Hv)|done|by apply eq_None_not_Some]. }
  assert (Hi : dir_lists (Entries (<[requestName (ID r) := RegularFile (Ok (encodeFeatureRequest r))]> l)) (<[ID r := r]> m))
    by (by apply lists_insert).
  assert (Hj : ∀ suffix contents, jammed (Entries (<[temporaryName (requestName (ID r)) suffix := RegularFile (Ok contents)]> l)) m)
    by (intros suffix contents; exists l, (temporaryName (requestName (ID r)) suffix), (RegularFile (Ok contents)); done).
  destruct f as [[|err|err]|err|err suffix contents]; try (cbn; split; [done|by left]).
  all: destruct (directory s) as [| | |l'] eqn:Ed; try done; subst l;
    (match goal with |- context [if ?b then _ else _] => destruct b eqn:Eb end; [cbn; split; [done|by left]|]);
    cbn; (split; [done|]); first [by left|right; left; split; [exact Hi|by apply Hw]|right; right; split; [apply Hj|done]].
Qed.

(** ** Allocation *)

Lemma nextRequestID_spec visit k :
  (∀ id, id ∈ visit → 0 ≤ id < max_uint64) → u64 k →
  ∃ n, nextRequestID visit k = Ok n ∧ k ≤ n ∧ u64 n ∧ (∀ id, id ∈ visit → id < n) ∧ (n = k ∨ n - 1 ∈ visit).
Proof.
  revert k. induction visit as [|v visit IH]; intros k Hall Hk.
  { exists k. split_and!; [done|lia|done|by intros ? ?%not_elem_of_nil|by left]. }
  cbn [nextRequestID]. destruct (Hall v) as [Hv0 Hv]; [by left|]. unfold max_uint64, u64 in *.
  assert (Hrest : ∀ id, id ∈ visit → 0 ≤ id < 2 ^ 64 - 1) by (intros id Hid; apply Hall; by right).
  destruct (Z.leb_spec k v).
  - destruct (Z.eqb_spec v (2 ^ 64 - 1)) as [|_]; [lia|]. unfold wrap64. rewrite Z.mod_small by lia.
    destruct (IH (v + 1) Hrest) as (n & -> & Hle & Hn & Hlt & Hor); [lia|]. exists n.
    split_and!; [done|lia|lia|lia| |]; [intros id [->|]%elem_of_cons; [lia|by apply Hlt]|].
    right. apply elem_of_cons. destruct Hor as [->|]; [left; lia|by right].
  - destruct (IH k Hrest) as (n & -> & Hle & Hn & Hlt & Hor); [lia|]. exists n.
    split_and!; [done|lia|lia|lia| |]; [intros id [->|]%elem_of_cons; [lia|by apply Hlt]|].
    destruct Hor; [by left|]. right. by right.
Qed.

Lemma nextRequestID_exhausted visit k :
  (∀ id, id ∈ visit → u64 id) → u64 k → max_uint64 ∈ visit → is_ok (nextRequestID visit k) = false.
Proof.
  revert k. induction visit as [|v visit IH]; intros k Hall Hk Hin; [by apply not_elem_of_nil in Hin|].
  cbn [nextRequestID]. pose proof (Hall v ltac:(by left)) as Hv. unfold max_uint64, u64 in *.
  assert (Hrest : ∀ id, id ∈ visit → 0 ≤ id < 2 ^ 64) by (intros id Hid; apply Hall; by right).
  apply elem_of_cons in Hin as [<-|Hin].
  - destruct (Z.leb_spec k (2 ^ 64 - 1)); [|lia]. by rewrite Z.eqb_refl.
  - destruct (Z.leb_spec k v); [|by apply IH]. destruct (Z.eqb_spec v (2 ^ 64 - 1)); [done|].
    apply IH; [done| |done]. unfold wrap64. rewrite Z.mod_small; lia.
Qed.

Lemma dir_lists_id d m id r : dir_lists d m → m !! id = Some r → ID r = id ∧ request_wf r ∧ id ≠ 0.
Proof.
  destruct d as [| | |l]; cbn; [intros -> H; by rewrite lookup_empty in H|done|done|].
  intros [_ H2] Hm. destruct (H2 id r Hm) as (Hid & e & _ & Hr). split; [done|].
  split; [by eapply records_wf|]. rewrite <- Hid. by eapply records_name.
Qed.

(** ** The operations *)

Lemma Create_ok visit generation title description s m :
  dir_lists (directory s) m → visit ≡ₚ (map_to_list m).*1 → u64 generation →
  validateFeatureText title description = Ok () → m !! max_uint64 = None →
  ∃ n s', let r := mkRequest n generation title description FeaturePending [] in
    Create visit generation title description NoFault s = (Ok r, s')
    ∧ dir_lists (directory s') (<[n := r]> m) ∧ requests s' = <[n := r]> m
    ∧ (∀ id, is_Some (m !! id) → id < n) ∧ (n = 1 ∨ is_Some (m !! (n - 1))).
Proof.
  intros Hd Hvis Hg Ht Hmax.
  assert (Hin : ∀ id, id ∈ visit ↔ is_Some (m !! id)).
  { intros id. rewrite Hvis, list_elem_of_fmap. split.
    - intros ([id' r] & -> & Hin%elem_of_map_to_list). by exists r.
    - intros [r Hr]. exists (id, r). by rewrite elem_of_map_to_list. }
  destruct (nextRequestID_spec visit 1) as (n & En & Hle & Hn & Hlt & Hor).
  { intros id Hid. pose proof Hid as [r Hr]%Hin. destruct (dir_lists_id _ _ _ _ Hd Hr) as (<- & [Hu _] & _).
    assert (ID r ≠ max_uint64) by congruence. unfold u64, max_uint64 in *. lia. }
  { by vm_compute. }
  set (r := mkRequest n generation title description FeaturePending []).
  destruct (write_ok r false (mkStore (directory s) m) m) as (d & Ew & Hd').
  { done. }
  { by split. }
  { split; [|intros _; apply eq_None_not_Some; intros Hs%Hin%Hlt; cbn in Hs; lia].
    unfold validateRequest, validateRequestID. cbn [ID Title Description DecisionNote Status r].
    rewrite (proj2 (Z.eqb_neq n 0)) by lia. cbn [mbind result_bind]. by rewrite Ht. }
  exists n, (mkStore d (<[n := r]> m)). cbn zeta. unfold Create. rewrite Ht, (refresh_lists s m Hd), En. fold r.
  rewrite Ew. cbn [directory requests]. split_and!; [done|done|done| |].
  - intros id Hid. by apply Hlt, Hin.
  - destruct Hor; [by left|]. right. by apply Hin.
Qed.

(** What the operations leave as it is: requests keep what they ask for, decisions
    are final, and new requests have larger identifiers. *)
Definition same_request (r r' : FeatureRequest) : Prop :=
  ID r' = ID r ∧ Generation r' = Generation r ∧ Title r' = Title r ∧ Description r' = Description r.

Definition evolves (m m' : gmap Z FeatureRequest) : Prop :=
  (∀ id r, m !! id = Some r → ∃ r', m' !! id = Some r' ∧ same_request r r' ∧ (Status r ≠ FeaturePending → r' = r))
  ∧ (∀ id id', is_Some (m !! id) → is_Some (m' !! id') → m !! id' = None → id < id').

#[global] Instance evolves_refl : Reflexive evolves.
Proof. intros m. split; [intros id r Hr; exists r; by split_and!|]. intros ? ? ? [? ?]. congruence. Qed.

#[global] Instance evolves_trans : Transitive evolves.
Proof.
  intros m1 m2 m3 [A1 A2] [B1 B2]. split.
  - intros id r Hr. destruct (A1 id r Hr) as (r2 & R2 & (?&?&?&?) & F2).
    destruct (B1 id r2 R2) as (r3 & R3 & (?&?&?&?) & F3). exists r3. split_and!; [done|split_and!; congruence|].
    intros Hs. specialize (F2 Hs). subst r2. by apply F3.
  - intros id id' [r Hr] H3 Hn. destruct (m2 !! id') as [r2|] eqn:E2; [apply A2; [by exists r|by exists r2|done]|].
    apply B2; [|done|done]. destruct (A1 id r Hr) as (r2 & -> & _). by eexists.
Qed.

(** One operation, meeting one of the faults that [occurs] allows. *)
Inductive operation (occurs : recordFault → Prop) : FeatureRequestStore → FeatureRequestStore → Prop :=
| op_create visit generation title description f s :
    u64 generation → visit ≡ₚ (map_to_list (requests (refresh s).2)).*1 → occurs f →
    operation occurs s (Create visit generation title description f s).2
| op_approve id note f s : occurs f → operation occurs s (Approve id note f s).2
| op_deny id note f s : occurs f → operation occurs s (Deny id note f s).2
| op_requests s : operation occurs s (Requests s).2
| op_request id s : operation occurs s (Request id s).2.

(** What an operation may leave of a store with the requests [m]. *)
Definition leaves (occurs : recordFault → Prop) (m : gmap Z FeatureRequest) (d : storedir) : Prop :=
  ∃ m', evolves m m' ∧ (dir_lists d m' ∨ jammed d m' ∧ ∃ f, occurs f ∧ stranded f).

Lemma leaves_same occurs m d : dir_lists d m → leaves occurs m d.
Proof. intros Hd. exists m. split; [done|by left]. Qed.

Lemma setStatus_evolves occurs id status note f s m :
  dir_lists (directory s) m → occurs f → leaves occurs m (directory (setStatus id status note f s).2).
Proof.
  intros Hd Hf. unfold setStatus. rewrite (refresh_lists s m Hd).
  destruct (_ ← validateRequestID id; _) as [r|e] eqn:E; [|by apply leaves_same].
  apply bind_Ok in E as ([] & _ & E). unfold cachedRequest in E. cbn [requests] in E.
  destruct (m !! id) as [r'|] eqn:Em; [|done]. injection E as ->.
  case_bool_decide as Hp; cbn [negb]; [|by apply leaves_same].
  set (r' := mkRequest _ _ _ _ _ _). destruct (dir_lists_id _ _ _ _ Hd Em) as (Hid & [Hu Hg] & _).
  assert (Hev : evolves m (<[ID r' := r']> m)).
  { change (ID r') with (ID r). rewrite Hid. split.
    - intros i x Hx. destruct (decide (i = id)) as [->|Hne].
      + exists r'. rewrite lookup_insert_eq. replace x with r in * by congruence. by split_and!.
      + exists x. rewrite lookup_insert_ne by done. by split_and!.
    - intros i i' _ [x Hx] Hn. apply lookup_insert_Some in Hx as [[<- _]|[_ ?]]; congruence. }
  pose proof (write_cases r' true f (mkStore (directory s) m) m Hd ltac:(done)) as Hw.
  destruct (write r' true f _) as [[[]|] s'] eqn:Ew; cbn [snd directory] in *;
    (destruct Hw as [_ [[Hs _]|[[Hs _]|(Hs & _ & Hst)]]]; [by apply leaves_same|exists (<[ID r' := r']> m); split; [done|by left]|
      exists m; split; [done|right; split; [exact Hs|by exists f]]]).
Qed.

Lemma evolves_insert m r :
  (∀ id, is_Some (m !! id) → id < ID r) → evolves m (<[ID r := r]> m).
Proof.
  intros Hlt. split.
  - intros i x Hx. exists x. rewrite lookup_insert_ne by (specialize (Hlt i ltac:(by eexists)); lia). by split_and!.
  - intros i i' Hi [x Hx] Hn. apply lookup_insert_Some in Hx as [[<- _]|[_ ?]]; [by apply Hlt|congruence].
Qed.

Lemma nextRequestID_above visit k n :
  (∀ id, id ∈ visit → u64 id) → u64 k → nextRequestID visit k = Ok n → u64 n ∧ (∀ id, id ∈ visit → id < n).
Proof.
  intros Hall Hk E. destruct (decide (max_uint64 ∈ visit)) as [Hm|Hm].
  { pose proof (nextRequestID_exhausted visit k Hall Hk Hm) as Ho. by rewrite E in Ho. }
  destruct (nextRequestID_spec visit k) as (n' & E' & _ & Hn & Hlt & _); [|done|].
  - intros id Hid. assert (id ≠ max_uint64) by congruence. specialize (Hall id Hid). unfold u64, max_uint64 in *. lia.
  - replace n' with n in * by congruence. done.
Qed.

Lemma Create_evolves occurs visit generation title description f s m :
  dir_lists (directory s) m → u64 generation → visit ≡ₚ (map_to_list m).*1 → occurs f →
  leaves occurs m (directory (Create visit generation title description f s).2).
Proof.
  intros Hd Hg Hvis Hf. unfold Create. destruct (validateFeatureText title description) as [[]|]; [|by apply leaves_same].
  rewrite (refresh_lists s m Hd). destruct (nextRequestID visit 1) as [n|] eqn:En; [|by apply leaves_same].
  set (r := mkRequest _ _ _ _ _ _).
  destruct (nextRequestID_above visit 1 n) as [Hn Hlt]; [|by vm_compute|done|].
  { intros id. rewrite Hvis, list_elem_of_fmap. intros ([id' x] & -> & Hx%elem_of_map_to_list).
    destruct (dir_lists_id _ _ _ _ Hd Hx) as (<- & [Hu _] & _). done. }
  assert (Hev : evolves m (<[ID r := r]> m)).
  { apply evolves_insert. intros id [x Hx]. apply Hlt. rewrite Hvis. apply list_elem_of_fmap. exists (id, x).
    by rewrite elem_of_map_to_list. }
  pose proof (write_cases r false f (mkStore (directory s) m) m Hd ltac:(done)) as Hw.
  destruct (write r false f _) as [[[]|] s'] eqn:Ew; cbn [snd directory] in *;
    (destruct Hw as [_ [[Hs _]|[[Hs _]|(Hs & _ & Hst)]]]; [by apply leaves_same|exists (<[ID r := r]> m); split; [done|by left]|
      exists m; split; [done|right; split; [exact Hs|by exists f]]]).
Qed.

Lemma operation_evolves occurs s s' m :
  operation occurs s s' → dir_lists (directory s) m → leaves occurs m (directory s').
Proof.
  intros Hop Hd. destruct Hop as [visit g t d f s Hg Hvis Hf|id note f s Hf|id note f s Hf|s|id s].
  - apply Create_evolves; [done|done| |done]. by rewrite (refresh_lists s m Hd) in Hvis.
  - by apply setStatus_evolves.
  - by apply setStatus_evolves.
  - apply leaves_same. unfold Requests. by rewrite (refresh_lists s m Hd).
  - apply leaves_same. unfold Request. destruct (validateRequestID id) as [[]|]; [|done]. by rewrite (refresh_lists s m Hd).
Qed.

(** A store that cannot be read is left as it is. *)
Lemma operation_jammed occurs s s' m : operation occurs s s' → jammed (directory s) m → directory s' = directory s.
Proof.
  intros Hop Hj. apply jammed_unreadable in Hj as [err E].
  assert (Hr : refresh s = (Err err, s)) by (unfold refresh; by rewrite E).
  destruct Hop; unfold Create, Approve, Deny, setStatus, Requests, Request; rewrite ?Hr; repeat case_match; by simplify_eq.
Qed.

(** ** Claims *)

(** reading the store's directory gives a map of requests exactly when every
    entry is a regular file named for its identifier whose record decodes to a
    request with that identifier, and the map holds those requests and no others. *)
Theorem read_store_exact l m : readFeatureRequests (Entries l) = Ok m ↔ lists l m.
Proof. apply read_lists. Qed.

(** creating a request in a readable store with room for it succeeds, writes
    one new pending record, and gives it the identifier after the largest in use
    (or 1), whatever order the map of known requests is visited in. *)
Theorem Create_allocates visit generation title description s m :
  dir_lists (directory s) m → visit ≡ₚ (map_to_list m).*1 → u64 generation →
  validateFeatureText title description = Ok () → m !! max_uint64 = None →
  ∃ n s', let r := mkRequest n generation title description FeaturePending [] in
    Create visit generation title description NoFault s = (Ok r, s')
    ∧ dir_lists (directory s') (<[n := r]> m) ∧ requests s' = <[n := r]> m
    ∧ (∀ id, is_Some (m !! id) → id < n) ∧ (n = 1 ∨ is_Some (m !! (n - 1))).
Proof. apply Create_ok. Qed.

Lemma Create_allocates_witness :
  ∃ n s', let r := mkRequest n 2 (bs "t") (bs "d") FeaturePending [] in
    Create [] 2 (bs "t") (bs "d") NoFault (mkStore Missing ∅) = (Ok r, s')
    ∧ dir_lists (directory s') (<[n := r]> ∅) ∧ requests s' = <[n := r]> ∅
    ∧ (∀ id, is_Some ((∅ : gmap Z FeatureRequest) !! id) → id < n) ∧ (n = 1 ∨ is_Some ((∅ : gmap Z FeatureRequest) !! (n - 1))).
Proof. apply Create_allocates; [done|done|by vm_compute|by vm_compute|done]. Defined.

(** C17: Over any sequence of operations, with the file system failing before or after
    any rename, no request disappears or changes what it asks for, a decision once made
    is never altered, and a new request always has an identifier above those already in
    use. The store stays readable, unless a write failed and the removal of its
    temporary file failed too: then that file makes every further reading fail, but the
    records stay as they are. *)
Theorem decisions_are_final occurs s s' m :
  rtc (operation occurs) s s' → dir_lists (directory s) m →
  ∃ m', evolves m m'
    ∧ (readFeatureRequests (directory s') = Ok m'
       ∨ (∃ f, occurs f ∧ stranded f) ∧ jammed (directory s') m' ∧ ∃ err, readFeatureRequests (directory s') = Err err).
Proof.
  intros Hr Hd. assert (H : leaves occurs m (directory s')).
  { apply leaves_same with (occurs := occurs) in Hd. induction Hr as [s|s s1 s2 Hop _ IH]; [done|].
    apply IH. destruct Hd as (m1 & He & [Hd|[Hj Hf]]).
    - destruct (operation_evolves occurs s s1 m1 Hop Hd) as (m2 & He2 & H2). exists m2. split; [by transitivity m1|done].
    - exists m1. split; [done|]. right. by rewrite (operation_jammed occurs s s1 m1 Hop Hj). }
  destruct H as (m' & He & [Hd'|[Hj Hf]]); exists m'; (split; [done|]); [left; by apply read_dir_lists|right].
  split_and!; [done|done|by eapply jammed_unreadable].
Qed.

Lemma decisions_are_final_witness :
  let s := mkStore Missing ∅ in
  let s1 := (Create [] 2 (bs "t") (bs "d") NoFault s).2 in
  let s2 := (Approve 1 (bs "yes") (AfterRename (PlainError (txt "sync"))) s1).2 in
  ∃ m', evolves ∅ m' ∧ readFeatureRequests (directory s2) = Ok m'.
Proof.
  intros s s1 s2. destruct (decisions_are_final (λ f, ¬ stranded f) s s2 ∅) as (m' & He & [Hr|[(f & Hf & Hs) _]]).
  - refine (rtc_l _ s s1 s2 (op_create _ [] 2 _ _ NoFault s _ _ _) (rtc_once _ _ (op_approve _ 1 _ _ s1 _))).
    + split; [discriminate|reflexivity].
    + reflexivity.
    + exact id.
    + exact id.
  - reflexivity.
  - exists m'. split; [exact He|exact Hr].
  - destruct (Hf Hs).
Defined.
