(* ===== verification/HostService.v ===== *)
(** * The host services of a guest session (src/internal/build/host_service.go)

    The build service, the finish and feature-request services and their dispatch.
    The trusted compiler, the candidate validator, the provenance recorder, the
    file system and the bootstrap service are the ports of a request: what they
    answer is given with the request, so the theorems hold for every answer. *)

From S2P Require Import Prelude GoStd Framing Protocol SourceCapacity Snapshot.
From S2P Require Import ProvidedAssets Json FeatureStore FeatureProofs FeatureRefine.
Open Scope Z_scope.

Definition BuildResponseSuccess : Z := 0.
Definition BuildResponseFailure : Z := 1.
Definition BuildResponseHarnessFailure : Z := 2.
Definition FinishResponseAccepted : Z := 0.
Definition FinishResponseRejected : Z := 1.
Definition FinishResponseHarnessFailure : Z := 2.
Definition FeatureResponseRecorded : Z := 0.
Definition FeatureResponseHarnessFailure : Z := 2.
Definition maxFinishHandoffBytes : Z := 16 * 1024.
Definition maxFeatureDiagnostic : Z := 1024.

(** ** Data *)

Record FileIdentity := mkIdentity { fiSHA256 : bytes; fiSize : Z }.

(** [BuildStatus]: the three outcomes, or another string. *)
Inductive BuildStatus := BuildStatusSuccess | BuildStatusBuildFailure | BuildStatusHarnessFailure | OtherStatus (s : bytes).
Definition status_text (s : BuildStatus) : bytes :=
  match s with
  | BuildStatusSuccess => bs "success"
  | BuildStatusBuildFailure => bs "build_failure"
  | BuildStatusHarnessFailure => bs "harness_failure"
  | OtherStatus s => s
  end.

Record BuildResult := mkBuildResult {
  brStatus : BuildStatus; brDiagnostics : bytes; brKernelELF : bytes; brISO : bytes
}.
Record CandidateBootResult := mkCandidateResult {
  crStatus : BuildStatus; crDiagnostics : bytes; provenanceFailure_ : bool
}.

Record StagedBuildArtifacts := mkStaged {
  KernelELF : bytes;
  ISO : bytes;
  StagedSnapshot : bytes;
  BuildAttemptID : bytes;
  SourceIdentity : FileIdentity;
  KernelIdentity : FileIdentity;
  ISOIdentity : FileIdentity;
  Evidence : option bytes          (* the attempt whose evidence is kept *)
}.

(** The recording calls on the evidence of an attempt. *)
Inductive evidence_call :=
| RecordDecoded (fileCount contentSize : Z)
| RecordCompileFailure (outcome : bytes)
| RecordArtifacts (kernel iso : FileIdentity)
| RecordLatestSuccess (snapshot : bytes)
| RecordLatestSuccessUpdate
| RecordFinal (outcome : bytes).

(** What the environment answers during one request. *)
Record BuildPorts := mkPorts {
  BeginBuild : Z → option bytes → result bytes;
  evidenceCall : evidence_call → option error;
  evidenceSourceIdentity : result FileIdentity;
  MkdirTemp : result bytes;
  BuildSourceSnapshot : bytes → bytes → BuildResult;
  FileIdentityFromPath : bytes → result FileIdentity;
  Validate : bytes → FileIdentity → CandidateBootResult
}.

(** Values of an activity's data. *)
Inductive activity_value := AString (s : bytes) | AUint (n : Z).
Abbreviation activity_data := (gmap bytes activity_value).
Inductive ActivityKind := ActivityBuildStarted | ActivityBuildCompileCompleted | ActivityBuildCompleted.

Record BuildHostService := mkBuildService {
  candidateValidator : bool;                (* configured? *)
  SourceCapacity_ : Budget;                 (* buildConfig.SourceCapacity *)
  activityStream : bool;                    (* configured? *)
  bsGeneration : option Z;
  provenance : bool;                        (* configured? *)
  latestSuccessful : option StagedBuildArtifacts;
  published : list (ActivityKind * activity_data);
  evidence_calls : list (bytes * evidence_call)   (* attempt and call, in order *)
}.

Definition set_published p s :=
  mkBuildService (candidateValidator s) (SourceCapacity_ s) (activityStream s) (bsGeneration s) (provenance s)
    (latestSuccessful s) p (evidence_calls s).
Definition set_calls c s :=
  mkBuildService (candidateValidator s) (SourceCapacity_ s) (activityStream s) (bsGeneration s) (provenance s)
    (latestSuccessful s) (published s) c.
Definition set_latest l s :=
  mkBuildService (candidateValidator s) (SourceCapacity_ s) (activityStream s) (bsGeneration s) (provenance s)
    l (published s) (evidence_calls s).

(** ** The build service *)

Record BuildHostServiceConfig := mkBuildConfig {
  cfgValidator : bool; cfgCapacity : Budget; cfgActivity : bool; cfgGeneration : option Z; cfgProvenance : bool
}.

(** [absolute] and [mkdir]: the outcomes of resolving and creating the staging
    directory. *)
Definition NewBuildHostService (config : BuildHostServiceConfig) (absolute mkdir : option error)
  : result BuildHostService :=
  _ ← Budget_Validate (cfgCapacity config);
  match absolute with
  | Some err => Err (PlainError (txt "could not resolve build staging directory: " ++ Error err))
  | None =>
  match mkdir with
  | Some err => Err (PlainError (txt "could not create build staging directory: " ++ Error err))
  | None =>
      if cfgProvenance config && bool_decide (cfgGeneration config = None) then
        Err (PlainError (txt "build provenance requires a generation"))
      else Ok (mkBuildService (cfgValidator config) (cfgCapacity config) (cfgActivity config) (cfgGeneration config)
                 (cfgProvenance config) None [] [])
  end end.

Definition publish (kind : ActivityKind) (data : activity_data) (s : BuildHostService) : BuildHostService :=
  if activityStream s then set_published (published s ++ [(kind, data)]) s else s.

Definition buildAttemptActivityData (evidence : option bytes) : activity_data :=
  match evidence with None => ∅ | Some attempt => {[bs "build_attempt_id" := AString attempt]} end.
Definition mapWithResult (data : activity_data) (result : bytes) : activity_data := <[bs "result" := AString result]> data.
Definition mapWithStatus (data : activity_data) (status : Z) : activity_data := <[bs "status" := AUint status]> data.

(** A recording call where evidence is kept: whether it failed. *)
Definition record (ports : BuildPorts) (evidence : option bytes) (call : evidence_call) (s : BuildHostService)
  : bool * BuildHostService :=
  match evidence with
  | None => (false, s)
  | Some attempt =>
      (bool_decide (is_Some (evidenceCall ports call)), set_calls (evidence_calls s ++ [(attempt, call)]) s)
  end.

Definition completedResponse (request : HostRequest) (status : Z) (diagnostics : bytes) (data : activity_data)
  (s : BuildHostService) : result Frame * BuildHostService :=
  (CreateHostServiceResponse (hrRequestID request) status diagnostics,
   publish ActivityBuildCompleted (mapWithStatus data status) s).

Definition artifactProvenanceFailure : Z * bytes :=
  (BuildResponseHarnessFailure, bs "cannot record trusted build artifact provenance").
Definition provenanceFailureResult : Z * bytes :=
  (BuildResponseHarnessFailure, bs "cannot record trusted build provenance").
Definition provenanceFailure (request : HostRequest) (data : activity_data) (s : BuildHostService) :=
  completedResponse request BuildResponseHarnessFailure (bs "cannot record trusted build provenance") data s.

(** The success case: the proof is recorded and the candidate becomes the latest. *)
Definition acceptCandidate (ports : BuildPorts) (snapshot : bytes) (result : BuildResult) (evidence : option bytes)
  (kernelIdentity isoIdentity : FileIdentity) (diagnostics : bytes) (s : BuildHostService)
  : (Z * bytes) * BuildHostService :=
  let '(failed, s) := record ports evidence (RecordLatestSuccess snapshot) s in
  if failed then (provenanceFailureResult, s)
  else
    let staged attempt source ev :=
      mkStaged (brKernelELF result) (brISO result) snapshot attempt source kernelIdentity isoIdentity ev in
    match evidence with
    | None =>
        (BuildResponseSuccess, diagnostics, set_latest (Some (staged [] (mkIdentity [] 0) None)) s)
    | Some attempt =>
        match evidenceSourceIdentity ports with
        | Err _ => (provenanceFailureResult, s)
        | Ok source =>
            let '(_, s) := record ports evidence RecordLatestSuccessUpdate s in
            (BuildResponseSuccess, diagnostics, set_latest (Some (staged attempt source evidence)) s)
        end
    end.

(** The candidate failed: the outcome is recorded. *)
Definition refuseCandidate (ports : BuildPorts) (status : Z) (evidence : option bytes) (diagnostics : bytes)
  (s : BuildHostService) : (Z * bytes) * BuildHostService :=
  let outcome := if status =? BuildResponseFailure then bs "build_failure" else bs "harness_failure" in
  let '(failed, s) := record ports evidence (RecordFinal outcome) s in
  if failed then (provenanceFailureResult, s) else (status, diagnostics, s).

Definition handleBuiltCandidate (ports : BuildPorts) (snapshot : bytes) (result : BuildResult) (evidence : option bytes)
  (s : BuildHostService) : (Z * bytes) * BuildHostService :=
  if bool_decide (brKernelELF result = []) || bool_decide (brISO result = []) then
    let '(_, s) := record ports evidence (RecordFinal (bs "harness_failure")) s in
    (BuildResponseHarnessFailure, bs "trusted build returned no artifacts", s)
  else match FileIdentityFromPath ports (brKernelELF result), FileIdentityFromPath ports (brISO result) with
  | Err _, _ => (artifactProvenanceFailure, s)
  | Ok _, Err _ => (artifactProvenanceFailure, s)
  | Ok kernelIdentity, Ok isoIdentity =>
      let '(failed, s) := record ports evidence (RecordArtifacts kernelIdentity isoIdentity) s in
      if failed then (artifactProvenanceFailure, s)
      else if negb (candidateValidator s) then
        let '(_, s) := record ports evidence (RecordFinal (bs "harness_failure")) s in
        (BuildResponseHarnessFailure, bs "candidate validator is not configured", s)
      else
        let validation := Validate ports (brISO result) isoIdentity in
        if provenanceFailure_ validation then (artifactProvenanceFailure, s)
        else match crStatus validation with
        | BuildStatusSuccess =>
            acceptCandidate ports snapshot result evidence kernelIdentity isoIdentity (crDiagnostics validation) s
        | BuildStatusBuildFailure => refuseCandidate ports BuildResponseFailure evidence (crDiagnostics validation) s
        | _ => refuseCandidate ports BuildResponseHarnessFailure evidence (crDiagnostics validation) s
        end
  end.

(** From the attempt's directory on. *)
Definition runAttempt (ports : BuildPorts) (request : HostRequest) (snapshot attempt : bytes) (evidence : option bytes)
  (activityData : activity_data) (s : BuildHostService) : result Frame * BuildHostService :=
  let '(failed, s) :=
    match evidence, DecodeSourceSnapshotWithBudget snapshot (SourceCapacity_ s) with
    | Some _, Ok files =>
        record ports evidence (RecordDecoded (len files) (fold_left (λ n file, wrap64 (n + len (Content file))) files 0)) s
    | _, _ => (false, s)
    end in
  if failed then provenanceFailure request activityData s
  else
    let result := BuildSourceSnapshot ports snapshot attempt in
    let s := publish ActivityBuildCompileCompleted (mapWithResult activityData (status_text (brStatus result))) s in
    match brStatus result with
    | BuildStatusSuccess =>
        let '(status, diagnostics, s) := handleBuiltCandidate ports snapshot result evidence s in
        completedResponse request status diagnostics activityData s
    | BuildStatusBuildFailure =>
        let '(failed, s) := record ports evidence (RecordCompileFailure (bs "build_failure")) s in
        if failed then provenanceFailure request activityData s
        else completedResponse request BuildResponseFailure (brDiagnostics result) activityData s
    | BuildStatusHarnessFailure =>
        let '(failed, s) := record ports evidence (RecordCompileFailure (bs "harness_failure")) s in
        if failed then provenanceFailure request activityData s
        else completedResponse request BuildResponseHarnessFailure (brDiagnostics result) activityData s
    | OtherStatus _ =>
        let '(failed, s) := record ports evidence (RecordFinal (bs "harness_failure")) s in
        if failed then provenanceFailure request activityData s
        else completedResponse request BuildResponseHarnessFailure (brDiagnostics result) activityData s
    end.

Definition Build_HandleRequest (ports : BuildPorts) (request : HostRequest) (s : BuildHostService)
  : result Frame * BuildHostService :=
  if negb (bool_decide (ServiceName request = bs "build")) then
    (CreateHostServiceResponse (hrRequestID request) BuildResponseFailure
       (bs "unknown host service: " ++ ServiceName request), s)
  else
    let begun :=
      if provenance s then
        match BeginBuild ports (default 0 (bsGeneration s))
                (match Arguments_ request with [snapshot] => Some snapshot | _ => None end) with
        | Ok attempt => Ok (Some attempt)
        | Err err => Err err
        end
      else Ok None in
    match begun with
    | Err _ => (CreateHostServiceResponse (hrRequestID request) BuildResponseHarnessFailure
                  (bs "cannot record trusted build provenance"), s)
    | Ok evidence =>
        let activityData := buildAttemptActivityData evidence in
        let s := publish ActivityBuildStarted activityData s in
        match Arguments_ request with
        | [snapshot] =>
            match MkdirTemp ports with
            | Err _ =>
                let '(_, s) := record ports evidence (RecordFinal (bs "harness_failure")) s in
                completedResponse request BuildResponseHarnessFailure (bs "cannot create build attempt storage") activityData s
            | Ok attempt => runAttempt ports request snapshot attempt evidence activityData s
            end
        | _ =>
            let '(_, s) := record ports evidence (RecordFinal (bs "harness_failure")) s in
            completedResponse request BuildResponseHarnessFailure
              (bs "build expects exactly one source snapshot argument") activityData s
        end
    end.

Definition LatestSuccessfulBuild (s : option BuildHostService) : option StagedBuildArtifacts :=
  s ← s; latestSuccessful s.

(** ** The session's services *)

Record PendingGenerationFinish := mkPending {
  HandoffMessage : bytes;
  PendingSnapshot : bytes;
  pendingKernelELF : bytes;
  pendingISO : bytes
}.

(** What is recorded about a feature request in the event log and the metrics. *)
Record feature_data := mkFeatureData { request_id : Z; request_generation : Z; title_ : bytes }.

Record CodexOSHostServices := mkServices {
  buildService : BuildHostService;
  pendingFinish : option PendingGenerationFinish;
  featureStore : option FeatureRequestStore;
  featureRecorded : option Z;                     (* configured: how often the callback ran *)
  generation : option Z;
  eventLog : option (list feature_data);          (* configured: what was logged *)
  metrics : option (list feature_data);
  featureRequestsPending : option Z;              (* the gauge, once set *)
  providedAssets : option ProvidedAssets
}.

(** What the environment answers during one request of a session: the build's
    ports, the bootstrap service, and for a feature request the order the store's
    map is visited in and the fault of the file system. *)
Record SessionPorts := mkSessionPorts {
  buildPorts : BuildPorts;
  bootstrap : HostRequest → result Frame;
  visitOrder : list Z;
  createFault : recordFault
}.

Definition NewCodexOSHostServices (config : BuildHostServiceConfig) (fstore : option FeatureRequestStore)
  (recorded log metric : bool) (assets : option ProvidedAssets) (absolute mkdir : option error)
  : result CodexOSHostServices :=
  if negb (Bool.eqb (bool_decide (is_Some fstore)) (bool_decide (is_Some (cfgGeneration config)))) then
    Err (PlainError (txt "feature-request store and generation must be supplied together"))
  else
    b ← NewBuildHostService config absolute mkdir;
    Ok (mkServices b None fstore (if recorded then Some 0 else None) (cfgGeneration config) (if log then Some [] else None)
          (if metric then Some [] else None) None assets).

Definition set_build b s :=
  mkServices b (pendingFinish s) (featureStore s) (featureRecorded s) (generation s) (eventLog s) (metrics s)
    (featureRequestsPending s) (providedAssets s).
Definition set_pending p s :=
  mkServices (buildService s) p (featureStore s) (featureRecorded s) (generation s) (eventLog s) (metrics s)
    (featureRequestsPending s) (providedAssets s).
Definition set_store f s :=
  mkServices (buildService s) (pendingFinish s) f (featureRecorded s) (generation s) (eventLog s) (metrics s)
    (featureRequestsPending s) (providedAssets s).

Section Services.
(** The quoting behind [%q] in error texts. *)
Context (quote : bytes → bytes).

Definition finishResponse (request : HostRequest) (status : Z) (output : bytes) : result Frame :=
  CreateHostServiceResponse (hrRequestID request) status output.

Definition finishGeneration (request : HostRequest) (s : CodexOSHostServices) : result Frame * CodexOSHostServices :=
  match pendingFinish s with
  | Some _ => (finishResponse request FinishResponseHarnessFailure (bs "generation finish has already been accepted"), s)
  | None =>
  match Arguments_ request with
  | [encodedHandoff; sourceSnapshot] =>
      if maxFinishHandoffBytes <? len encodedHandoff then
        (finishResponse request FinishResponseHarnessFailure (bs "handoff message exceeds 16 KiB"), s)
      else if negb (utf8.Valid encodedHandoff) then
        (finishResponse request FinishResponseHarnessFailure (bs "handoff message is not valid UTF-8"), s)
      else match DecodeSourceSnapshotWithBudget sourceSnapshot (SourceCapacity_ (buildService s)) with
      | Err err => (finishResponse request FinishResponseHarnessFailure (render quote (Error err)), s)
      | Ok _ =>
          match LatestSuccessfulBuild (Some (buildService s)) with
          | None => (finishResponse request FinishResponseRejected (bs "no successful build is available"), s)
          | Some successfulBuild =>
              if negb (bool_decide (sourceSnapshot = StagedSnapshot successfulBuild)) then
                (finishResponse request FinishResponseRejected
                   (bs "current source differs from the latest successful build"), s)
              else
                (finishResponse request FinishResponseAccepted [],
                 set_pending (Some (mkPending encodedHandoff sourceSnapshot (KernelELF successfulBuild)
                                      (ISO successfulBuild))) s)
          end
      end
  | _ => (finishResponse request FinishResponseHarnessFailure
            (bs "finish_generation expects a handoff and source snapshot"), s)
  end end.

(** [strings.ToValidUTF8(s, "")]: the invalid bytes dropped. *)
Fixpoint dropInvalid (fuel : nat) (s : bytes) : bytes :=
  match fuel, s with
  | S fuel, _ :: _ =>
      let '(r, width) := utf8.DecodeRune s in
      (if (r =? utf8.RuneError) && (width =? 1) then [] else takeZ width s) ++ dropInvalid fuel (dropZ width s)
  | _, _ => []
  end.

Definition boundedFeatureDiagnostic (value : bytes) : bytes :=
  if len value <=? maxFeatureDiagnostic then value
  else let cut := takeZ maxFeatureDiagnostic value in dropInvalid (length cut) cut.

Definition pendingCount (l : list FeatureRequest) : Z :=
  len (filter (λ item, FeatureStore.Status item = FeaturePending) l).

(** After the record is written: the callback, the event log, the metrics. *)
Definition reportFeature (recorded : FeatureRequest) (s : CodexOSHostServices) : CodexOSHostServices :=
  let data := mkFeatureData (FeatureStore.ID recorded) (FeatureStore.Generation recorded) (Title recorded) in
  let log := (λ l, l ++ [data]) <$> eventLog s in
  match metrics s, featureStore s with
  | Some l, Some store =>
      let '(requests, store) := Requests store in
      let gauge := match requests with Ok requests => Some (pendingCount requests) | Err _ => featureRequestsPending s end in
      mkServices (buildService s) (pendingFinish s) (Some store) (Z.succ <$> featureRecorded s) (generation s) log
        (Some (l ++ [data])) gauge (providedAssets s)
  | m, store =>
      mkServices (buildService s) (pendingFinish s) store (Z.succ <$> featureRecorded s) (generation s) log
        m (featureRequestsPending s) (providedAssets s)
  end.

Definition requestFeature (ports : SessionPorts) (request : HostRequest) (s : CodexOSHostServices)
  : result Frame * CodexOSHostServices :=
  let refuse message := (finishResponse request FeatureResponseHarnessFailure message, s) in
  match pendingFinish s with
  | Some _ => refuse (bs "feature request rejected after generation finish was accepted")
  | None =>
  match Arguments_ request with
  | [titleBytes; descriptionBytes] =>
      if len titleBytes =? 0 then refuse (bs "feature-request title must not be empty")
      else if MaxFeatureTitleBytes <? len titleBytes then refuse (bs "feature-request title exceeds 256 bytes")
      else if MaxFeatureDescriptionBytes <? len descriptionBytes then
        refuse (bs "feature-request description exceeds 16 KiB")
      else if negb (utf8.Valid titleBytes) || negb (utf8.Valid descriptionBytes) then
        refuse (bs "feature-request text is not valid UTF-8")
      else match featureStore s, generation s with
      | Some store, Some generation =>
          match Create (visitOrder ports) generation titleBytes descriptionBytes (createFault ports) store with
          | (Err err, store) =>
              (finishResponse request FeatureResponseHarnessFailure
                 (boundedFeatureDiagnostic (render quote (Error err))), set_store (Some store) s)
          | (Ok recorded, store) =>
              (finishResponse request FeatureResponseRecorded (strconv.Itoa (FeatureStore.ID recorded)),
               reportFeature recorded (set_store (Some store) s))
          end
      | _, _ => refuse (bs "feature-request service is not configured")
      end
  | _ => refuse (bs "request_feature expects a title and description")
  end end.

Definition HandleSessionRequest (ports : SessionPorts) (request : HostRequest) (s : CodexOSHostServices)
  : result Frame * CodexOSHostServices :=
  let respond status message := (CreateHostServiceResponse (hrRequestID request) status message, s) in
  let name := ServiceName request in
  if bool_decide (name = bs "bootstrap_job") || bool_decide (name = bs "read_bootstrap_artifact") then
    if bool_decide (name = bs "bootstrap_job") && bool_decide (is_Some (pendingFinish s)) then
      respond 2 (bs "bootstrap job rejected after generation finish")
    else (bootstrap ports request, s)
  else if bool_decide (name = bs "build") then
    if bool_decide (is_Some (pendingFinish s)) then
      respond BuildResponseHarnessFailure (bs "build rejected after generation finish was accepted")
    else let '(frame, b) := Build_HandleRequest (buildPorts ports) request (buildService s) in (frame, set_build b s)
  else if bool_decide (name = bs "finish_generation") then finishGeneration request s
  else if bool_decide (name = bs "request_feature") then requestFeature ports request s
  else if bool_decide (name = bs "list_provided_assets") || bool_decide (name = bs "read_provided_asset") then
    match providedAssets s with
    | None => respond BuildResponseFailure (bs "provided-assets service is not configured")
    | Some assets => (ProvidedAssets.HandleRequest quote assets request, s)
    end
  else respond BuildResponseFailure (bs "unknown host service: " ++ name).
End Services.

(** ** The latest successful build *)

(** What a build request may not touch besides the latest success. *)
Definition same_core (b b' : BuildHostService) : Prop :=
  latestSuccessful b' = latestSuccessful b ∧ SourceCapacity_ b' = SourceCapacity_ b
  ∧ candidateValidator b' = candidateValidator b.

#[global] Instance same_core_refl : Reflexive same_core.
Proof. by intros b. Qed.
#[global] Instance same_core_trans : Transitive same_core.
Proof. intros a b c (?&?&?) (?&?&?). split_and!; congruence. Qed.

Lemma publish_core kind data b : same_core b (publish kind data b).
Proof. unfold publish. by destruct (activityStream b). Qed.

Lemma record_core ports evidence call b : same_core b (record ports evidence call b).2.
Proof. by destruct evidence. Qed.

Lemma completed_core request status diagnostics data b :
  same_core b (completedResponse request status diagnostics data b).2.
Proof. apply publish_core. Qed.

(** The full proof behind a staged candidate: a successful trusted build of
    exactly its snapshot, artifacts whose identities were taken, a successful boot
    validation of that image, and evidence recorded where evidence is kept. *)
Definition proven (ports : BuildPorts) (staged : StagedBuildArtifacts) : Prop :=
  ∃ attempt, let result := BuildSourceSnapshot ports (StagedSnapshot staged) attempt in
    brStatus result = BuildStatusSuccess
    ∧ KernelELF staged = brKernelELF result ∧ ISO staged = brISO result ∧ KernelELF staged ≠ [] ∧ ISO staged ≠ []
    ∧ FileIdentityFromPath ports (KernelELF staged) = Ok (KernelIdentity staged)
    ∧ FileIdentityFromPath ports (ISO staged) = Ok (ISOIdentity staged)
    ∧ crStatus (Validate ports (ISO staged) (ISOIdentity staged)) = BuildStatusSuccess
    ∧ provenanceFailure_ (Validate ports (ISO staged) (ISOIdentity staged)) = false
    ∧ (∀ id, Evidence staged = Some id →
         evidenceCall ports (RecordArtifacts (KernelIdentity staged) (ISOIdentity staged)) = None
         ∧ evidenceCall ports (RecordLatestSuccess (StagedSnapshot staged)) = None
         ∧ evidenceSourceIdentity ports = Ok (SourceIdentity staged)).

(** What a build request does to the service. *)
Definition build_effect (ports : BuildPorts) (b b' : BuildHostService) : Prop :=
  SourceCapacity_ b' = SourceCapacity_ b ∧ candidateValidator b' = candidateValidator b
  ∧ (latestSuccessful b' = latestSuccessful b
     ∨ candidateValidator b = true ∧ ∃ staged, latestSuccessful b' = Some staged ∧ proven ports staged).

Lemma core_effect ports b b' : same_core b b' → build_effect ports b b'.
Proof. intros (?&?&?). split_and!; [done|done|by left]. Qed.

Lemma effect_core_l ports a b c : same_core a b → build_effect ports b c → build_effect ports a c.
Proof.
  intros (E1&E2&E3) (F1&F2&F3). split_and!; [congruence|congruence|]. rewrite E1, E3 in F3. done.
Qed.
Lemma effect_core_r ports a b c : build_effect ports a b → same_core b c → build_effect ports a c.
Proof.
  intros (F1&F2&F3) (E1&E2&E3). split_and!; [congruence|congruence|]. by rewrite E1.
Qed.

Lemma record_None ports id call b : (record ports (Some id) call b).1 = false → evidenceCall ports call = None.
Proof. cbn. intros H%bool_decide_eq_false. by apply eq_None_not_Some. Qed.

(** Run a recording call: its effect on the service is forgotten but for the core. *)
Ltac run_record C F :=
  match goal with |- context [record ?p ?e ?c ?b] =>
    pose proof (record_core p e c b) as C;
    let E := fresh in
    destruct (record p e c b) as [? ?] eqn:E; cbn [snd] in C; apply (f_equal fst) in E; cbn [fst] in E; rename E into F
  end.

Lemma acceptCandidate_effect ports snapshot attempt evidence kernel iso diagnostics b :
  let result := BuildSourceSnapshot ports snapshot attempt in
  brStatus result = BuildStatusSuccess → brKernelELF result ≠ [] → brISO result ≠ [] →
  FileIdentityFromPath ports (brKernelELF result) = Ok kernel → FileIdentityFromPath ports (brISO result) = Ok iso →
  crStatus (Validate ports (brISO result) iso) = BuildStatusSuccess →
  provenanceFailure_ (Validate ports (brISO result) iso) = false →
  candidateValidator b = true →
  (∀ id, evidence = Some id → evidenceCall ports (RecordArtifacts kernel iso) = None) →
  build_effect ports b (acceptCandidate ports snapshot result evidence kernel iso diagnostics b).2.
Proof.
  intros result Hs Hk Hi Fk Fi Hv Hp Hc Hart. unfold acceptCandidate. run_record C1 F1.
  destruct b0; [by apply core_effect|]. destruct evidence as [id|].
  - destruct (evidenceSourceIdentity ports) as [source|] eqn:Es; [|by apply core_effect].
    run_record C2 F2. assert (C : same_core b b2) by (by transitivity b1). destruct C as (_ & ? & ?).
    split_and!; [done|done|]. right. split; [done|]. eexists. split; [reflexivity|]. exists attempt. cbn.
    split_and!; try done. intros id' [= <-]. split_and!; [by eapply Hart|by eapply record_None|done].
  - destruct C1 as (_ & ? & ?). split_and!; [done|done|]. right. split; [done|]. eexists. split; [reflexivity|].
    exists attempt. cbn. by split_and!.
Qed.

Lemma refuseCandidate_core ports status evidence diagnostics b :
  same_core b (refuseCandidate ports status evidence diagnostics b).2.
Proof. unfold refuseCandidate. run_record C F. by destruct b0. Qed.

Lemma handleBuiltCandidate_effect ports snapshot attempt evidence b :
  let result := BuildSourceSnapshot ports snapshot attempt in
  brStatus result = BuildStatusSuccess →
  build_effect ports b (handleBuiltCandidate ports snapshot result evidence b).2.
Proof.
  intros result Hs. unfold handleBuiltCandidate. case_bool_decide as Hk; cbn [orb].
  { run_record C F. by apply core_effect. }
  case_bool_decide as Hi. { run_record C F. by apply core_effect. }
  destruct (FileIdentityFromPath ports (brKernelELF result)) as [kernel|] eqn:Fk; [|by apply core_effect].
  destruct (FileIdentityFromPath ports (brISO result)) as [iso|] eqn:Fi; [|by apply core_effect].
  run_record C1 F1. destruct b0; [by apply core_effect|].
  destruct (candidateValidator b1) eqn:Hv; cbn [negb].
  2: { run_record C2 F2. apply core_effect. by transitivity b1. }
  destruct (provenanceFailure_ _) eqn:Hp; [by apply core_effect|]. eapply effect_core_l; [exact C1|].
  destruct (crStatus _) eqn:Hst; try (apply core_effect, refuseCandidate_core).
  eapply (acceptCandidate_effect ports snapshot attempt evidence); try done.
  intros id ->. by eapply record_None.
Qed.

Lemma runAttempt_effect ports request snapshot attempt evidence data b :
  build_effect ports b (runAttempt ports request snapshot attempt evidence data b).2.
Proof.
  unfold runAttempt.
  set (decoded := match evidence, DecodeSourceSnapshotWithBudget snapshot (SourceCapacity_ b) with
                  | Some _, Ok _ => _ | _, _ => _ end).
  assert (Cd : same_core b decoded.2).
  { subst decoded. destruct evidence; [|done]. destruct (DecodeSourceSnapshotWithBudget _ _); [apply record_core|done]. }
  destruct decoded as [failed b1]. cbn [snd] in Cd. eapply effect_core_l; [exact Cd|].
  destruct failed; [apply core_effect, completed_core|].
  set (result := BuildSourceSnapshot ports snapshot attempt). set (kind := publish _ _ b1).
  eapply effect_core_l; [apply (publish_core ActivityBuildCompileCompleted (mapWithResult data (status_text (brStatus result))))|].
  fold kind. destruct (brStatus result) eqn:Hs.
  - pose proof (handleBuiltCandidate_effect ports snapshot attempt evidence kind Hs) as He. fold result in He.
    destruct (handleBuiltCandidate ports snapshot result evidence kind) as [[status diagnostics] b2].
    eapply effect_core_r; [exact He|]. apply completed_core.
  - run_record C F. eapply core_effect. destruct b0; (etransitivity; [exact C|apply completed_core]).
  - run_record C F. eapply core_effect. destruct b0; (etransitivity; [exact C|apply completed_core]).
  - run_record C F. eapply core_effect. destruct b0; (etransitivity; [exact C|apply completed_core]).
Qed.

Lemma Build_HandleRequest_effect ports request b :
  build_effect ports b (Build_HandleRequest ports request b).2.
Proof.
  unfold Build_HandleRequest. case_bool_decide; cbn [negb]; [|by apply core_effect].
  set (begun := if provenance b then _ else _). destruct begun as [evidence|]; [|by apply core_effect].
  pose proof (publish_core ActivityBuildStarted (buildAttemptActivityData evidence) b) as C0.
  eapply effect_core_l; [exact C0|].
  destruct (Arguments_ request) as [|snapshot [|x l]].
  - run_record C F. apply core_effect. etransitivity; [exact C|apply completed_core].
  - destruct (MkdirTemp ports); [apply runAttempt_effect|].
    run_record C F. apply core_effect. etransitivity; [exact C|apply completed_core].
  - run_record C F. apply core_effect. etransitivity; [exact C|apply completed_core].
Qed.

(** ** Sessions *)

Section Sessions.
Context (quote : bytes → bytes).

Abbreviation step := (HandleSessionRequest quote).

(** A session: requests one after the other, with the ports each was served by. *)
Inductive session (s0 : CodexOSHostServices) : list SessionPorts → CodexOSHostServices → Prop :=
| session_start : session s0 [] s0
| session_request history s ports request :
    session s0 history s → session s0 (history ++ [ports]) (step ports request s).2.

Definition frozen_part (s s' : CodexOSHostServices) : Prop :=
  pendingFinish s' = pendingFinish s ∧ buildService s' = buildService s ∧ featureStore s' = featureStore s.

(** Once a finish is accepted no request changes what was selected. *)
Lemma step_frozen ports request s :
  is_Some (pendingFinish s) → frozen_part s (step ports request s).2.
Proof.
  intros [p Hp]. unfold HandleSessionRequest, finishGeneration, requestFeature. rewrite Hp.
  repeat match goal with
  | |- context [bool_decide (is_Some (Some ?x))] => rewrite (bool_decide_eq_true_2 (is_Some (Some x))) by eauto
  | |- context [if ?c then _ else _] => destruct c; [done|]
  end; repeat case_match; done.
Qed.

(** The requests other than build and finish leave the build and the selection. *)
Lemma requestFeature_frozen ports request s :
  buildService (requestFeature quote ports request s).2 = buildService s
  ∧ pendingFinish (requestFeature quote ports request s).2 = pendingFinish s.
Proof.
  unfold requestFeature. destruct (pendingFinish s) eqn:Ep; [done|]. destruct (Arguments_ request) as [|t [|d [|? ?]]]; try done.
  do 4 (case_match; [done|]). destruct (featureStore s) as [store|]; [|done]. destruct (generation s) as [g|]; [|done].
  destruct (Create _ _ _ _ _ _) as [[r|e] store']; [|done]. unfold reportFeature. cbn [snd].
  destruct (metrics _); [|done]. cbn [featureStore set_store]. by destruct (Requests store').
Qed.

(** When a finish is accepted. *)
Definition acceptable_finish (request : HostRequest) (s : CodexOSHostServices) (p : PendingGenerationFinish) : Prop :=
  ∃ staged, Arguments_ request = [HandoffMessage p; PendingSnapshot p]
    ∧ len (HandoffMessage p) ≤ maxFinishHandoffBytes ∧ utf8.Valid (HandoffMessage p) = true
    ∧ is_ok (DecodeSourceSnapshotWithBudget (PendingSnapshot p) (SourceCapacity_ (buildService s))) = true
    ∧ latestSuccessful (buildService s) = Some staged
    ∧ PendingSnapshot p = StagedSnapshot staged ∧ pendingKernelELF p = KernelELF staged ∧ pendingISO p = ISO staged.

Lemma finishGeneration_pending request s p :
  pendingFinish s = None →
  pendingFinish (finishGeneration quote request s).2 = Some p ↔ acceptable_finish request s p.
Proof.
  intros Hn. unfold finishGeneration. rewrite Hn. split.
  - destruct (Arguments_ request) as [|h [|src [|? ?]]] eqn:Ea; cbn [snd]; rewrite ?Hn; try done.
    destruct (Z.ltb_spec maxFinishHandoffBytes (len h)); cbn [snd]; rewrite ?Hn; [done|].
    destruct (utf8.Valid h) eqn:Hu; cbn [negb snd]; rewrite ?Hn; [|done].
    destruct (DecodeSourceSnapshotWithBudget _ _) eqn:Ed; cbn [snd]; rewrite ?Hn; [|done].
    cbn [LatestSuccessfulBuild mbind option_bind]. destruct (latestSuccessful _) as [staged|] eqn:El; cbn [snd]; rewrite ?Hn; [|done].
    case_bool_decide; cbn [negb snd]; rewrite ?Hn; [|done]. intros [= <-]. exists staged. cbn. rewrite Ed. by split_and!.
  - intros (staged & Ea & Hl & Hu & Hd & El & Es & Ek & Ei). rewrite Ea, Hu.
    destruct (Z.ltb_spec maxFinishHandoffBytes (len (HandoffMessage p))); [lia|]. cbn [negb].
    destruct (DecodeSourceSnapshotWithBudget _ _); [|done]. cbn [LatestSuccessfulBuild mbind option_bind]. rewrite El.
    rewrite bool_decide_eq_true_2 by done. cbn. rewrite <- Ek, <- Ei. by destruct p.
Qed.

Lemma finishGeneration_build request s : buildService (finishGeneration quote request s).2 = buildService s.
Proof. unfold finishGeneration. repeat case_match; done. Qed.

(** The invariant of a session. *)
Definition session_inv (capacity : Budget) (history : list SessionPorts) (s : CodexOSHostServices) : Prop :=
  SourceCapacity_ (buildService s) = capacity
  ∧ (∀ staged, latestSuccessful (buildService s) = Some staged →
       ∃ ports, ports ∈ history ∧ proven (buildPorts ports) staged)
  ∧ (∀ p, pendingFinish s = Some p → ∃ request, acceptable_finish request s p).

Lemma session_inv_frozen capacity history ports s s' :
  session_inv capacity history s → buildService s' = buildService s → pendingFinish s' = pendingFinish s →
  session_inv capacity (history ++ [ports]) s'.
Proof.
  intros (Hc & Hl & Hp) Eb Ep. split_and!; rewrite ?Eb, ?Ep.
  - done.
  - intros staged Hst. destruct (Hl staged Hst) as (x & Hx & Hpr). exists x. split; [|done]. apply elem_of_app. by left.
  - intros p E. destruct (Hp p E) as (request & staged & Hr). exists request, staged. by rewrite Eb.
Qed.

Lemma session_inv_build capacity history ports request s :
  session_inv capacity history s → pendingFinish s = None →
  session_inv capacity (history ++ [ports])
    (set_build (Build_HandleRequest (buildPorts ports) request (buildService s)).2 s).
Proof.
  intros (Hc & Hl & Hp) Hn. pose proof (Build_HandleRequest_effect (buildPorts ports) request (buildService s)) as (E1 & _ & E3).
  split_and!; cbn [buildService set_build pendingFinish].
  - congruence.
  - intros staged Hst. destruct E3 as [E3|(_ & st & E3 & Hpr)].
    + rewrite E3 in Hst. destruct (Hl staged Hst) as (x & Hx & Hpr). exists x. split; [|done]. apply elem_of_app. by left.
    + rewrite E3 in Hst. injection Hst as ->. exists ports. split; [|done]. apply elem_of_app. right. by left.
  - intros p E. congruence.
Qed.

Lemma session_inv_finish capacity history ports request s :
  session_inv capacity history s → pendingFinish s = None →
  session_inv capacity (history ++ [ports]) (finishGeneration quote request s).2.
Proof.
  intros Hinv Hn. pose proof (finishGeneration_build request s) as Eb.
  pose proof (session_inv_frozen capacity history ports s s Hinv eq_refl eq_refl) as (Hc & Hl & Hp).
  split_and!; rewrite ?Eb; [done|done|]. intros p E. apply (finishGeneration_pending request s p Hn) in E.
  destruct E as (staged & E). exists request, staged. by rewrite Eb.
Qed.

Lemma session_inv_step capacity history ports request s :
  session_inv capacity history s → session_inv capacity (history ++ [ports]) (step ports request s).2.
Proof.
  intros Hinv. destruct (pendingFinish s) as [p|] eqn:Hn.
  { destruct (step_frozen ports request s) as (E1 & E2 & _); [by eexists|]. by eapply session_inv_frozen. }
  assert (Hsame : session_inv capacity (history ++ [ports]) s) by (by eapply session_inv_frozen).
  unfold HandleSessionRequest. rewrite Hn. cbn zeta.
  case_match. { rewrite andb_false_r. done. }
  case_match. { pose proof (session_inv_build capacity history ports request s Hinv Hn) as Hb.
    destruct (Build_HandleRequest _ _ _) as [fr b]. done. }
  case_match. { by apply session_inv_finish. }
  case_match. { destruct (requestFeature_frozen ports request s). by eapply session_inv_frozen. }
  case_match; [|done]. by destruct (providedAssets s).
Qed.

Lemma session_inv_reach capacity s0 history s :
  session_inv capacity [] s0 → session s0 history s → session_inv capacity history s.
Proof. intros H0 Hs. induction Hs; [done|]. by apply session_inv_step. Qed.

Lemma session_frozen s0 history s : session s0 history s → is_Some (pendingFinish s0) → frozen_part s0 s.
Proof.
  intros Hs Hp. induction Hs as [|history s ports request _ (E1 & E2 & E3)]; [done|].
  destruct (step_frozen ports request s) as (F1 & F2 & F3); [by rewrite E1|]. split_and!; congruence.
Qed.
End Sessions.

Lemma new_services_inv config fstore recorded log metric assets absolute mkdir s0 :
  NewCodexOSHostServices config fstore recorded log metric assets absolute mkdir = Ok s0 → session_inv (cfgCapacity config) [] s0.
Proof.
  unfold NewCodexOSHostServices, NewBuildHostService. intros H0. case_in H0; [done|].
  apply bind_Ok in H0 as (b & Hb & [= <-]). apply bind_Ok in Hb as ([] & _ & Hb).
  destruct absolute; [done|]. destruct mkdir; [done|]. case_in Hb; [done|]. injection Hb as <-. by split_and!.
Qed.

(** ** Claims *)

(** C1: whatever the compiler, the validator, the provenance recorder and the
    guest do, a generation finish selects only a candidate that went through the
    whole proof during the same session: an earlier request built exactly the
    selected snapshot, took the identities of its artifacts, booted that image
    successfully and recorded the evidence; the snapshot is byte-equal to the one
    supplied with the finish and decodes within the session's capacity, and the
    handoff is valid UTF-8 of at most 16 KiB. *)
Theorem finish_selects_proven_build quote config fstore recorded log metric assets absolute mkdir s0 history s p :
  NewCodexOSHostServices config fstore recorded log metric assets absolute mkdir = Ok s0 →
  session quote s0 history s → pendingFinish s = Some p →
  ∃ staged ports, latestSuccessful (buildService s) = Some staged ∧ ports ∈ history ∧ proven (buildPorts ports) staged
    ∧ PendingSnapshot p = StagedSnapshot staged ∧ pendingKernelELF p = KernelELF staged ∧ pendingISO p = ISO staged
    ∧ len (HandoffMessage p) ≤ maxFinishHandoffBytes ∧ utf8.Valid (HandoffMessage p) = true
    ∧ is_ok (DecodeSourceSnapshotWithBudget (PendingSnapshot p) (cfgCapacity config)) = true.
Proof.
  intros H0 Hs Hp.
  pose proof (new_services_inv _ _ _ _ _ _ _ _ _ H0) as Hinv.
  destruct (session_inv_reach quote _ _ _ _ Hinv Hs) as (Hc & Hl & Hf).
  destruct (Hf p Hp) as (request & staged & Ha & H1 & H2 & H3 & H4 & H5 & H6 & H7).
  destruct (Hl staged H4) as (ports & Hin & Hpr). exists staged, ports. rewrite Hc in H3. by split_and!.
Qed.

(** A session that builds one snapshot and finishes with it. *)
Definition sample_snapshot : bytes := put16 1 ++ lp16 (bs "seed/a") ++ lp32 (bs "x").
Definition sample_ports : SessionPorts :=
  mkSessionPorts
    (mkPorts (λ _ _, Ok (bs "build-1")) (λ _, None) (Ok (mkIdentity (bs "s") 1)) (Ok (bs "attempt"))
       (λ _ _, mkBuildResult BuildStatusSuccess [] (bs "kernel.elf") (bs "os.iso"))
       (λ _, Ok (mkIdentity (bs "i") 2)) (λ _ _, mkCandidateResult BuildStatusSuccess (bs "ok") false))
    (λ _, Err (PlainError (txt "no bootstrap"))) [] NoFault.
Definition sample_config : BuildHostServiceConfig := mkBuildConfig true 0 true (Some 3) true.
Definition sample_services : CodexOSHostServices :=
  match NewCodexOSHostServices sample_config (Some (mkStore Missing ∅)) true true true None None None with
  | Ok s => s
  | Err _ => mkServices (mkBuildService false 0 false None false None [] []) None None None None None None None None
  end.
Definition sample_built : CodexOSHostServices :=
  (HandleSessionRequest (λ s, s) sample_ports (mkHostRequest 1 (bs "build") [sample_snapshot]) sample_services).2.
Definition sample_finish : HostRequest := mkHostRequest 2 (bs "finish_generation") [bs "done"; sample_snapshot].
Definition sample_finished : CodexOSHostServices :=
  (HandleSessionRequest (λ s, s) sample_ports sample_finish sample_built).2.

Lemma finish_selects_proven_build_witness :
  ∃ p staged ports, pendingFinish sample_finished = Some p
    ∧ latestSuccessful (buildService sample_finished) = Some staged ∧ ports ∈ [sample_ports; sample_ports]
    ∧ proven (buildPorts ports) staged ∧ PendingSnapshot p = StagedSnapshot staged.
Proof.
  destruct (pendingFinish sample_finished) as [p|] eqn:Hp; [|vm_compute in Hp; discriminate Hp].
  destruct (finish_selects_proven_build (λ s, s) sample_config (Some (mkStore Missing ∅)) true true true None None None
    sample_services [sample_ports; sample_ports] sample_finished p) as (staged & ports & H1 & H2 & H3 & H4 & _).
  - reflexivity.
  - apply (session_request (λ s, s) sample_services [sample_ports] sample_built sample_ports sample_finish).
    apply (session_request (λ s, s) sample_services [] sample_services sample_ports). apply session_start.
  - exact Hp.
  - exists p, staged, ports. split; [reflexivity|]. split; [exact H1|]. split; [exact H2|]. split; [exact H3|exact H4].
Defined.

(** a finish is accepted exactly when it supplies a handoff of valid UTF-8 of
    at most 16 KiB and the exact bytes of the latest successful build, and once one
    is accepted no sequence of requests changes the selection, the latest build or
    the feature requests. *)
Theorem finish_generation_contract quote s :
  (∀ request p, pendingFinish s = None →
     pendingFinish (finishGeneration quote request s).2 = Some p ↔ acceptable_finish request s p)
  ∧ (∀ history s' p, pendingFinish s = Some p → session quote s history s' →
       pendingFinish s' = Some p ∧ buildService s' = buildService s ∧ featureStore s' = featureStore s).
Proof.
  split; [intros; by apply finishGeneration_pending|]. intros history s' p Hp Hs.
  destruct (session_frozen quote s history s' Hs) as (E & ? & ?); [by eexists|]. by rewrite E.
Qed.

Lemma finish_generation_contract_witness :
  ∃ p, pendingFinish sample_finished = Some p ∧ acceptable_finish sample_finish sample_built p.
Proof.
  destruct (pendingFinish sample_finished) as [p|] eqn:Hp; [|vm_compute in Hp; discriminate Hp].
  exists p. split; [reflexivity|].
  apply (proj1 (finish_generation_contract (λ s, s) sample_built) sample_finish p); [vm_compute; reflexivity|].
  change (pendingFinish sample_finished = Some p). exact Hp.
Defined.

(** ** Feature requests through the session *)

Lemma itoa_response id n : id ≠ 0 →
  CreateHostServiceResponse id 0 (strconv.Itoa n) = Ok (mkFrame HostServiceResponse id (put32 0 ++ strconv.Itoa n)).
Proof.
  intros Hid. unfold CreateHostServiceResponse. rewrite (proj2 (Z.eqb_neq _ _) Hid).
  pose proof (len_Itoa_bound n).
  destruct (Z.ltb_spec (MaxPayloadSize - 4) (len (strconv.Itoa n))) as [Hb|]; [|done].
  unfold MaxPayloadSize in Hb. lia.
Qed.

Lemma Requests_directory store : directory (Requests store).2 = directory store.
Proof. unfold Requests, refresh. by destruct (readFeatureRequests _). Qed.

Lemma feature_text_bounds title description :
  validateFeatureText title description = Ok () →
  (len title =? 0) = false ∧ (MaxFeatureTitleBytes <? len title) = false
  ∧ (MaxFeatureDescriptionBytes <? len description) = false
  ∧ negb (utf8.Valid title) || negb (utf8.Valid description) = false.
Proof.
  unfold validateFeatureText. intros E. destruct (negb _ || _); [done|]. case_bool_decide as Hn; [done|].
  do 2 (match type of E with (if ?c then _ else _) = _ => destruct c; [done|] end). split_and!; try done.
  apply Z.eqb_neq. by rewrite len_0.
Qed.

(** a feature request of valid size and text made before the finish, with the
    store readable and its identifiers not used up, is recorded: the response
    carries the new identifier, the store gains exactly that pending request under
    the session's generation, and the callback, the log and the metrics are told. *)
Theorem requestFeature_records quote ports id title description s store g m :
  id ≠ 0 → pendingFinish s = None → featureStore s = Some store → generation s = Some g → u64 g →
  dir_lists (directory store) m → visitOrder ports ≡ₚ (map_to_list m).*1 → createFault ports = NoFault →
  m !! max_uint64 = None → validateFeatureText title description = Ok () →
  let request := mkHostRequest id (bs "request_feature") [title; description] in
  ∃ n store', let r := mkRequest n g title description FeaturePending [] in
    let s' := (requestFeature quote ports request s).2 in
    (requestFeature quote ports request s).1 = Ok (mkFrame HostServiceResponse id (put32 0 ++ strconv.Itoa n))
    ∧ m !! n = None ∧ featureStore s' = Some store' ∧ dir_lists (directory store') (<[n := r]> m)
    ∧ featureRecorded s' = Z.succ <$> featureRecorded s
    ∧ eventLog s' = (λ l, l ++ [mkFeatureData n g title]) <$> eventLog s
    ∧ metrics s' = (λ l, l ++ [mkFeatureData n g title]) <$> metrics s.
Proof.
  intros Hid Hp Hst Hgen Hg Hd Hvis Hf Hmax Ht request.
  destruct (Create_ok (visitOrder ports) g title description store m Hd Hvis Hg Ht Hmax)
    as (n & store' & Ec & Hd' & Hr' & Hlt & _).
  assert (Hfresh : m !! n = None) by (apply eq_None_not_Some; intros Hx%Hlt; lia).
  pose proof (Requests_directory store') as Hdir. destruct (feature_text_bounds _ _ Ht) as (B1 & B2 & B3 & B4).
  exists n, (if metrics s then (Requests store').2 else store'). cbn zeta. unfold requestFeature. rewrite Hp.
  cbn [request Arguments_]. rewrite B1, B2, B3, B4, Hst, Hgen, Hf, Ec. cbn [fst snd]. split_and!.
  - by apply itoa_response.
  - done.
  - unfold reportFeature. cbn [metrics set_store featureStore]. destruct (metrics s); [|done]. by destruct (Requests store').
  - by destruct (metrics s); rewrite ?Hdir.
  - unfold reportFeature. cbn [metrics set_store featureStore]. destruct (metrics s); [|done]. by destruct (Requests store').
  - unfold reportFeature. cbn [metrics set_store featureStore]. destruct (metrics s); [|done]. by destruct (Requests store').
  - unfold reportFeature. cbn [metrics set_store featureStore]. destruct (metrics s); [|done]. by destruct (Requests store').
Qed.

Lemma requestFeature_records_witness :
  ∃ n store', let r := mkRequest n 3 (bs "t") (bs "d") FeaturePending [] in
    let s' := (requestFeature (λ s, s) sample_ports (mkHostRequest 9 (bs "request_feature") [bs "t"; bs "d"]) sample_services).2 in
    (∅ : gmap Z FeatureRequest) !! n = None ∧ featureStore s' = Some store' ∧ dir_lists (directory store') (<[n := r]> ∅).
Proof.
  destruct (requestFeature_records (λ s, s) sample_ports 9 (bs "t") (bs "d") sample_services (mkStore Missing ∅) 3 ∅)
    as (n & store' & _ & H1 & H2 & H3 & _); try reflexivity.
  - discriminate.
  - split; [discriminate|reflexivity].
  - exists n, store'. split; [exact H1|]. split; [exact H2|exact H3].
Defined.
