(* ===== verification/ArchiveRecord.v ===== *)
(** * Generation archives (src/internal/experiment/runtime.go, archive.go, abort_reason.go)

    The records of a run directory: archive names and metadata, reading one
    archive and all of them, the history rules, publishing an aborted archive, and
    the operator feedback attached to a generation. A directory entry is modelled
    by what reading each of its artifacts gives. *)

From S2P Require Import Prelude GoStd SourceCapacity Snapshot Json FeatureStore.
Open Scope Z_scope.

Definition runtime_error (reason : text) : error := GenerationRuntimeError reason None.
Definition runtime_wrap (reason : text) (err : error) : error := GenerationRuntimeError reason (Some err).

(** ** Abort reasons *)

Definition AbortMarker : bytes := bs "Generation aborted by operator.".
Definition MaxAbortReasonBytes : Z := 8 * 1024.

(** [unicode.IsSpace]: the Unicode property White_Space. *)
Definition IsSpace (r : Z) : bool :=
  ((0x09 <=? r) && (r <=? 0x0d)) || (r =? 0x20) || (r =? 0x85) || (r =? 0xA0) || (r =? 0x1680)
  || ((0x2000 <=? r) && (r <=? 0x200a)) || (r =? 0x2028) || (r =? 0x2029) || (r =? 0x202f) || (r =? 0x205f) || (r =? 0x3000).

(** Trimming white space leaves nothing exactly when every rune is white space. *)
Definition ValidateAbortReason (reason : bytes) : result unit :=
  if negb (utf8.Valid reason) then Err (runtime_error (txt "abort reason is not valid UTF-8"))
  else if forallb IsSpace (utf8.runes reason) then Err (runtime_error (txt "abort reason must not be empty"))
  else if MaxAbortReasonBytes <? len reason then
    Err (runtime_error (txt "abort reason exceeds the supported maximum of " ++ [Lit (strconv.Itoa MaxAbortReasonBytes)]
                        ++ txt " bytes"))
  else Ok ().

(** ** Archives *)

Record HardwareManifest := mkHardware {
  SchemaVersion : Z;
  Profile : bytes;
  Machine : bytes;
  Accelerator : bytes;
  CPUModel : bytes;
  VCPUs : Z;
  MemoryMiB : Z;
  Graphics : bytes;
  Network : bytes;
  WritableBlockDevices : option (list bytes);   (* nil or a slice *)
  QEMUVersion : bytes;
  QEMUArguments : option (list bytes)
}.
Definition noHardware : HardwareManifest := mkHardware 0 [] [] [] [] 0 0 [] [] None [] None.

(** The bootstrap references and the harness identity are carried along and not
    inspected here; they are left out. *)
Record ArchivedGeneration := mkArchived {
  agGeneration : Z;
  ParentGeneration : option Z;
  Transition : bytes;
  Outcome : bytes;
  ArchivePath : bytes;
  Handoff : option bytes;
  AbortReason : option bytes;
  Hardware : HardwareManifest;
  agSourceCapacity : Budget
}.

(** What the artifacts of one archive directory hold. *)
Record archiveDirectory := mkArchiveDir {
  dirBootstrap : result bool;             (* bootstrap validation: are there references? *)
  dirCapacity : result Budget;            (* its source-capacity record, 0 if none *)
  dirMetadata : result bytes;
  dirHardware : result HardwareManifest;
  dirArtifacts : option error;            (* the boot tree, its image, the logs *)
  dirHarness : result bool;               (* is there a (valid) harness identity? *)
  dirCompleted : option error;            (* the trees and files of a completed generation *)
  dirHandoff : result bytes;
  dirSnapshot : result bytes;
  dirAborted : result bytes;
  dirReason : option (result bytes);
  dirEvidence : option (option error);    (* latest-success evidence, if any: is it invalid? *)
  dirNames : list bytes;                  (* the entries of the directory *)
  dirSuccessor : result (bytes * bytes)   (* kernel and image of the selected successor *)
}.

Inductive rundirent := ArchiveEntry (d : archiveDirectory) | OtherEntry.

Definition archiveMetadataLimit : Z := 64 * 1024.
Definition archiveHandoffLimit : Z := 16 * 1024.

(** [readArchiveArtifact] on an artifact with the given contents. *)
Definition readArchiveArtifact (artifact : result bytes) (limit : Z) : result bytes :=
  contents ← artifact;
  if limit <? len contents then Err (PlainError (txt "generation archive artifact exceeds its size limit"))
  else Ok contents.

(** [generationName]: generation-%04d *)
Definition generationName (generation : Z) : bytes := bs "generation-" ++ padded 4 generation.

Definition parseASCIIUnsigned (value : bytes) : option Z :=
  if bool_decide (value = []) then None
  else if negb (forallb strconv.is_digit value) then None
  else strconv.ParseUint value.

(** *** Metadata *)

Record parsedGenerationMetadata := mkMetadataParsed {
  mdParent : option Z;
  mdTransition : bytes;
  mdOutcome : bytes
}.

Definition trimJSON (raw : bytes) : bytes := rev (json.skip_space (rev (json.skip_space raw))).
Definition is_null (raw : bytes) : bool := bool_decide (trimJSON raw = bs "null").

Definition parseJSONUnsigned (encoded : bytes) : option Z :=
  if is_null encoded then None else json.decode_uint encoded.

Definition metadata_malformed : error := PlainError (txt "generation archive metadata is malformed").

(** [decodeJSON] into a map of raw values. *)
Definition decodeJSON_fields (encoded : bytes) : option (gmap bytes bytes) :=
  if utf8.Valid encoded then json.fields_map <$> json.decode_object encoded else None.

(** The rule that ties the parent and the transition to the number. *)
Definition lineage_ok (generation : Z) (parent : option Z) (transition : bytes) : bool :=
  if generation =? 0 then bool_decide (parent = None) && bool_decide (transition = bs "initial")
  else match parent with
       | None => false
       | Some p => negb (generation <=? p)
                   && (bool_decide (transition = bs "successor") || bool_decide (transition = bs "rollback"))
       end.

Definition parseGenerationMetadata (encoded : bytes) (expected : Z) : result parsedGenerationMetadata :=
  match decodeJSON_fields encoded with
  | None => Err metadata_malformed
  | Some fields =>
      if negb (Z.of_nat (size fields) =? 4) then Err metadata_malformed
      else match fields !! bs "generation", fields !! bs "outcome", fields !! bs "parent_generation", fields !! bs "transition" with
      | Some rawGeneration, Some rawOutcome, Some rawParent, Some rawTransition =>
          match parseJSONUnsigned rawGeneration with
          | None => Err (PlainError (txt "generation archive metadata has the wrong generation"))
          | Some generation =>
              if negb (generation =? expected) then
                Err (PlainError (txt "generation archive metadata has the wrong generation"))
              else match json.decode_string rawOutcome with
              | None => Err metadata_malformed
              | Some outcome =>
                  if negb (bool_decide (outcome = bs "completed")) && negb (bool_decide (outcome = bs "aborted")) then
                    Err metadata_malformed
                  else match (if is_null rawTransition then Some [] else json.decode_string rawTransition) with
                  | None => Err metadata_malformed
                  | Some transition =>
                      parent ← (if is_null rawParent then Ok None
                                else match parseJSONUnsigned rawParent with
                                     | None => Err metadata_malformed
                                     | Some value => Ok (Some value)
                                     end);
                      if lineage_ok generation parent transition
                      then Ok (mkMetadataParsed parent transition outcome)
                      else Err metadata_malformed
                  end
              end
          end
      | _, _, _, _ => Err metadata_malformed
      end
  end.

(** [writeArchiveMetadata]: the text of the record. *)
Definition archiveMetadata (generation : Z) (outcome : bytes) (parent : option Z) (transition : bytes) : bytes :=
  json.encode_object
    [(bs "generation", json.encode_uint generation);
     (bs "outcome", json.encode_string outcome);
     (bs "parent_generation", match parent with None => bs "null" | Some p => json.encode_uint p end);
     (bs "transition", json.encode_string transition)].

(** *** Reading *)

Definition archiveBootName := bs "boot".
Definition archiveMetadataName := bs "metadata.json".
Definition hardwareManifestName := bs "hardware.json".
Definition handoffName := bs "handoff.txt".
Definition sourceSnapshotName := bs "source.snapshot".
Definition sourceName := bs "source".
Definition successorName := bs "successor".
Definition stdoutName := bs "qemu.stdout".
Definition stderrName := bs "qemu.stderr".
Definition abortedMarkerName := bs "aborted.txt".
Definition abortReasonName := bs "abort-reason.txt".
Definition capacityFilename := bs "source-capacity.json".
Definition GenerationHarnessFilename := bs "harness-identity.json".
Definition ReferencesFilename := bs "bootstrap-artifacts.json".
Definition latestSuccessManifestName := bs "latest-success.json".
Definition latestSuccessSnapshotName := bs "latest-success.snapshot".

(** [validateArchiveNames]: the entries are as many as the expected names, and
    all of them are expected. *)
Definition validateArchiveNames (names expected : list bytes) (base : bytes) : result unit :=
  let invalid := PlainError (txt "generation " ++ [Lit base] ++ txt " archive has invalid contents") in
  let want : gset bytes := list_to_set expected in
  if negb (len names =? Z.of_nat (size want)) then Err invalid
  else if forallb (λ name, bool_decide (name ∈ want)) names then Ok () else Err invalid.

Definition optional (present : bool) (name : bytes) : list bytes := if present then [name] else [].

Definition readCompleted (d : archiveDirectory) (base : bytes) (budget : Budget) (harness refs : bool) : result bytes :=
  match dirCompleted d with
  | Some err => Err err
  | None =>
      handoff ← match readArchiveArtifact (dirHandoff d) archiveHandoffLimit with
                | Ok handoff => if utf8.Valid handoff then Ok handoff
                                else Err (PlainError (txt "generation handoff is not valid UTF-8"))
                | Err _ => Err (PlainError (txt "generation handoff is not valid UTF-8"))
                end;
      snapshot ← readArchiveArtifact (dirSnapshot d) (SnapshotLimit budget);
      _ ← DecodeSourceSnapshotWithBudget snapshot budget;
      _ ← validateArchiveNames (dirNames d)
            ([archiveBootName; archiveMetadataName; hardwareManifestName; handoffName; sourceSnapshotName; sourceName;
              successorName; stdoutName; stderrName]
             ++ optional (negb (budget =? 0)) capacityFilename ++ optional harness GenerationHarnessFilename
             ++ optional refs ReferencesFilename) base;
      Ok handoff
  end.

Definition readAborted (d : archiveDirectory) (base : bytes) (budget : Budget) (harness refs : bool) : result (option bytes) :=
  marker ← readArchiveArtifact (dirAborted d) archiveMetadataLimit;
  if negb (bool_decide (marker = AbortMarker)) then Err (PlainError (txt "generation abort marker is malformed"))
  else
    reason ← match dirReason d with
             | None => Ok None
             | Some artifact =>
                 reason ← readArchiveArtifact artifact MaxAbortReasonBytes;
                 match ValidateAbortReason reason with
                 | Err _ => Err (PlainError (txt "generation abort reason is malformed"))
                 | Ok _ => Ok (Some reason)
                 end
             end;
    evidence ← match dirEvidence d with
               | None => Ok false
               | Some (Some err) => Err err
               | Some None => Ok true
               end;
    _ ← validateArchiveNames (dirNames d)
          ([archiveBootName; archiveMetadataName; hardwareManifestName; abortedMarkerName; stdoutName; stderrName]
           ++ optional (bool_decide (is_Some reason)) abortReasonName ++ optional (negb (budget =? 0)) capacityFilename
           ++ optional harness GenerationHarnessFilename
           ++ (if evidence : bool then [latestSuccessManifestName; latestSuccessSnapshotName] else [])
           ++ optional refs ReferencesFilename) base;
    Ok reason.

(** A run directory: its path, its entries by name, and the feedback directory. *)
Section RunDirectory.
Context (run : bytes).

Definition archivePath (generation : Z) : bytes := run ++ bs "/" ++ generationName generation.

Definition readArchivedGeneration (entries : gmap bytes rundirent) (generation : Z) : result ArchivedGeneration :=
  let archive := archivePath generation in
  match entries !! generationName generation with
  | Some (ArchiveEntry d) =>
      refs ← dirBootstrap d;
      budget ← dirCapacity d;
      metadataBytes ← readArchiveArtifact (dirMetadata d) archiveMetadataLimit;
      metadata ← parseGenerationMetadata metadataBytes generation;
      hardware ← dirHardware d;
      match dirArtifacts d with
      | Some err => Err err
      | None =>
          harness ← dirHarness d;
          if bool_decide (mdOutcome metadata = bs "completed") then
            handoff ← readCompleted d (generationName generation) budget harness refs;
            Ok (mkArchived generation (mdParent metadata) (mdTransition metadata) (mdOutcome metadata) archive
                  (Some handoff) None hardware budget)
          else
            reason ← readAborted d (generationName generation) budget harness refs;
            Ok (mkArchived generation (mdParent metadata) (mdTransition metadata) (mdOutcome metadata) archive
                  None reason hardware budget)
      end
  | _ => Err (PlainError (txt "generation archive is missing: " ++ [Lit archive]))
  end.

Definition generationArchiveError (generation : Z) (err : error) : error :=
  runtime_wrap (txt "generation " ++ [Lit (strconv.Itoa generation)] ++ txt " archive is invalid") err.

Definition InspectGeneration (entries : gmap bytes rundirent) (generation : Z) : result ArchivedGeneration :=
  match readArchivedGeneration entries generation with
  | Ok archive => Ok archive
  | Err err => Err (generationArchiveError generation err)
  end.

(** The loop of [LoadArchivedGenerations] over the directory in name order. *)
Fixpoint loadEntries (entries : gmap bytes rundirent) (names : list bytes) : result (list ArchivedGeneration) :=
  match names with
  | [] => Ok []
  | name :: names =>
      if negb (strings.HasPrefix name (bs "generation-")) then loadEntries entries names
      else
        let invalid := runtime_error (txt "invalid generation archive: " ++ [Lit name]) in
        match parseASCIIUnsigned (strings.TrimPrefix name (bs "generation-")) with
        | None => Err invalid
        | Some generation =>
            if negb (bool_decide (name = generationName generation)) then Err invalid
            else
              archive ← InspectGeneration entries generation;
              archives ← loadEntries entries names;
              Ok (archive :: archives)
        end
  end.

Definition by_generation (a b : ArchivedGeneration) : Prop := agGeneration a ≤ agGeneration b.
#[global] Instance by_generation_dec a b : Decision (by_generation a b) := Z_le_dec _ _.

Definition entry_names (entries : gmap bytes rundirent) : list bytes := sort.Strings (map_to_list entries).*1.

Definition LoadArchivedGenerations (entries : gmap bytes rundirent) : result (list ArchivedGeneration) :=
  archives ← loadEntries entries (entry_names entries);
  Ok (merge_sort by_generation archives).

Definition partialGenerationState (entries : gmap bytes rundirent) : list bytes :=
  filter (λ name, strings.HasPrefix name (bs ".generation-") = true) (entry_names entries).

(** *** History *)

Definition not_contiguous : error := runtime_error (txt "generation archive history is not contiguous").
Definition about_generation (generation : Z) (message : string) : error :=
  runtime_error (txt "generation " ++ [Lit (strconv.Itoa generation)] ++ txt message).

(** The archives by number; [None] when a number occurs twice. *)
Fixpoint indexArchives (archives : list ArchivedGeneration) (byGeneration : gmap Z ArchivedGeneration)
  : option (gmap Z ArchivedGeneration) :=
  match archives with
  | [] => Some byGeneration
  | archive :: archives =>
      if bool_decide (is_Some (byGeneration !! agGeneration archive)) then None
      else indexArchives archives (<[agGeneration archive := archive]> byGeneration)
  end.

Fixpoint contiguousFrom (index : Z) (archives : list ArchivedGeneration) : bool :=
  match archives with
  | [] => true
  | archive :: archives => (agGeneration archive =? index) && contiguousFrom (index + 1) archives
  end.

Fixpoint validateAncestry (byGeneration : gmap Z ArchivedGeneration) (archives : list ArchivedGeneration) : result unit :=
  match archives with
  | [] => Ok ()
  | archive :: archives =>
      let generation := agGeneration archive in
      match ParentGeneration archive with
      | None => Err (about_generation generation " has no completed parent")
      | Some p =>
          match byGeneration !! p with
          | None => Err (about_generation generation " has no completed parent")
          | Some parent =>
              if negb (bool_decide (Outcome parent = bs "completed")) then
                Err (about_generation generation " has no completed parent")
              else if bool_decide (Transition archive = bs "successor") && negb (p =? wrap64 (generation - 1)) then
                Err (about_generation generation " has invalid successor ancestry")
              else if bool_decide (Transition archive = bs "rollback") && (p =? wrap64 (generation - 1)) then
                Err (about_generation generation " has invalid rollback ancestry")
              else validateAncestry byGeneration archives
          end
      end
  end.

(** [archives[1:]] of an empty slice panics; the panic is kept as an error value. *)
Definition slice_panic : error := SystemError (txt "panic: runtime error: slice bounds out of range [1:0]").

Definition ValidateArchivedHistory (archives : list ArchivedGeneration) : result unit :=
  match indexArchives archives ∅ with
  | None => Err not_contiguous
  | Some byGeneration =>
      if negb (contiguousFrom 0 archives) then Err not_contiguous
      else match archives with
           | [] => Err slice_panic
           | _ :: rest => validateAncestry byGeneration rest
           end
  end.

(** *** Publishing an archive *)

Definition validateArchiveMetadataInput (generation : Z) (parent : option Z) (transition : bytes) : result unit :=
  if lineage_ok generation parent transition then Ok ()
  else Err (runtime_error (txt "generation archive metadata is malformed")).

Definition missing_artifact : error := PlainError (txt "generation archive artifact is missing").

(** What publishing meets: where the file system fails, and the random end of the name
    of the staging directory when a failure before the rename leaves it, because its
    removal, whose error is ignored, fails too. *)
Record publishing := mkPublishing {
  pbFault : fault;
  pbLeft : option bytes
}.
Definition unhindered (f : fault) : publishing := mkPublishing f None.
Coercion unhindered : fault >-> publishing.

Definition stagingName (generation : Z) (suffix : bytes) : bytes :=
  bs ".generation-" ++ padded 4 generation ++ bs "-archive-" ++ suffix.
Definition leave (generation : Z) (p : publishing) (entries : gmap bytes rundirent) : gmap bytes rundirent :=
  match pbLeft p with None => entries | Some suffix => <[stagingName generation suffix := OtherEntry]> entries end.

(** [populate]: the staged directory, which depends on whether the bootstrap
    freeze leaves references, or why it could not be written; [frozen]: the outcome
    of that freeze; [p]: what it meets besides. *)
Definition publishArchive (generation : Z) (populate : result (bool → archiveDirectory)) (frozen : result bool) (p : publishing)
  (entries : gmap bytes rundirent) : result ArchivedGeneration * gmap bytes rundirent :=
  let final := generationName generation in
  if bool_decide (is_Some (entries !! final)) then
    (Err (runtime_error (txt "generation archive already exists: " ++ [Lit (archivePath generation)])), entries)
  else match populate with
  | Err err => (Err err, leave generation p entries)
  | Ok directory =>
      match frozen, pbFault p with
      | Err err, _ => (Err err, leave generation p entries)
      | _, BeforeRename err => (Err err, leave generation p entries)
      | Ok refs, _ =>
          let entries := <[final := ArchiveEntry (directory refs)]> entries in
          match pbFault p with
          | AfterRename err => (Err err, entries)
          | _ => (InspectGeneration entries generation, entries)
          end
      end
  end.

(** [sourcecapacity.Save] into the staging directory, when there is a capacity. *)
Definition saveCapacity (capacity : Budget) : result unit :=
  if capacity =? 0 then Ok () else Budget_Validate capacity.
Definition savedCapacity (capacity : Budget) : Budget := if capacity =? 0 then 0 else Bytes capacity.

(** *** An aborted generation *)

(** [abEvidence]: the outcome of validating the forensic pair, when one is given.
    The boot image and the logs are copied as they are. *)
Record AbortedArchive := mkAborted {
  abGeneration : Z;
  abParent : option Z;
  abTransition : bytes;
  abHardware : HardwareManifest;
  abReason : bytes;
  abCapacity : Budget;
  abEvidence : option (result unit);
  abHarness : bool                       (* is there a harness identity? *)
}.

Definition has_evidence (input : AbortedArchive) : bool := bool_decide (is_Some (abEvidence input)).

(** The directory the archive consists of; [refs] when the bootstrap freeze left
    references. *)
Definition abortedDirectory (input : AbortedArchive) (refs : bool) : archiveDirectory :=
  mkArchiveDir (Ok refs) (Ok (savedCapacity (abCapacity input)))
    (Ok (archiveMetadata (abGeneration input) (bs "aborted") (abParent input) (abTransition input)))
    (Ok (abHardware input)) None (Ok (abHarness input)) None (Err missing_artifact) (Err missing_artifact) (Ok AbortMarker)
    (Some (Ok (abReason input))) (if has_evidence input then Some None else None)
    ([archiveBootName; archiveMetadataName; hardwareManifestName; abortedMarkerName; abortReasonName; stdoutName; stderrName]
     ++ optional (negb (abCapacity input =? 0)) capacityFilename ++ optional (abHarness input) GenerationHarnessFilename
     ++ (if has_evidence input then [latestSuccessManifestName; latestSuccessSnapshotName] else [])
     ++ optional refs ReferencesFilename) (Err missing_artifact).

(** [written]: the outcome of writing and copying the files. *)
Definition WriteAbortedArchive (validHardware : HardwareManifest → option error) (input : AbortedArchive)
  (written : result unit) (frozen : result bool) (f : publishing) (entries : gmap bytes rundirent)
  : result ArchivedGeneration * gmap bytes rundirent :=
  match validateArchiveMetadataInput (abGeneration input) (abParent input) (abTransition input) with
  | Err err => (Err err, entries)
  | Ok _ =>
      match validHardware (abHardware input) with
      | Some err => (Err (runtime_wrap (txt "generation hardware manifest is malformed") err), entries)
      | None =>
          match ValidateAbortReason (abReason input) with
          | Err err => (Err err, entries)
          | Ok _ =>
              match default (Ok ()) (abEvidence input) with
              | Err err => (Err err, entries)
              | Ok _ =>
                  publishArchive (abGeneration input)
                    (_ ← saveCapacity (abCapacity input); _ ← written; Ok (abortedDirectory input)) frozen f entries
              end
          end
      end
  end.
End RunDirectory.

(** ** Operator feedback *)

Record OperatorFeedback := mkFeedback {
  TargetGeneration : Z;
  SourceAbortGeneration : Z;
  Reason : bytes;
  fbSchemaVersion : Z
}.

Definition operatorFeedbackLimit : Z := MaxAbortReasonBytes + 1024.

Definition feedback_malformed : error := runtime_error (txt "operator feedback attachment is malformed").

Definition validateOperatorFeedback (feedback : OperatorFeedback) : result unit :=
  if negb (fbSchemaVersion feedback =? 1) || (TargetGeneration feedback <=? SourceAbortGeneration feedback) then
    Err feedback_malformed
  else ValidateAbortReason (Reason feedback).

Definition encodeOperatorFeedback (feedback : OperatorFeedback) : result bytes :=
  _ ← validateOperatorFeedback feedback;
  Ok (json.encode_object
        [(bs "target_generation", json.encode_uint (TargetGeneration feedback));
         (bs "source_abort_generation", json.encode_uint (SourceAbortGeneration feedback));
         (bs "reason", json.encode_string (Reason feedback));
         (bs "schema_version", json.encode_uint (fbSchemaVersion feedback))]).

(** Field names are matched up to simple case folding, as encoding/json does. *)
Definition foldRune (r : Z) : Z :=
  if (0x61 <=? r) && (r <=? 0x7a) then r - 0x20 else if r =? 0x17f then 0x53 else if r =? 0x212a then 0x4b else r.
Definition same_name (key field : bytes) : bool :=
  bool_decide (foldRune <$> utf8.runes key = foldRune <$> utf8.runes field).

(** Decoding the members into the struct, unknown fields refused; a null leaves a
    field as it is. *)
Fixpoint decodeMembers (members : list (bytes * bytes)) (f : OperatorFeedback) : option OperatorFeedback :=
  match members with
  | [] => Some f
  | (key, raw) :: members =>
      let uint (set : Z → OperatorFeedback) :=
        if is_null raw then Some f else set <$> json.decode_uint raw in
      f' ← (if same_name key (bs "target_generation") then
              uint (λ n, mkFeedback n (SourceAbortGeneration f) (Reason f) (fbSchemaVersion f))
            else if same_name key (bs "source_abort_generation") then
              uint (λ n, mkFeedback (TargetGeneration f) n (Reason f) (fbSchemaVersion f))
            else if same_name key (bs "reason") then
              if is_null raw then Some f
              else (λ s, mkFeedback (TargetGeneration f) (SourceAbortGeneration f) s (fbSchemaVersion f))
                     <$> json.decode_string raw
            else if same_name key (bs "schema_version") then
              uint (λ n, mkFeedback (TargetGeneration f) (SourceAbortGeneration f) (Reason f) n)
            else None);
      decodeMembers members f'
  end.

Definition decodeOperatorFeedback (encoded : bytes) : result OperatorFeedback :=
  if (operatorFeedbackLimit <? len encoded) || negb (utf8.Valid encoded) then Err (PlainError (txt "invalid encoding"))
  else match json.decode_object encoded with
  | None => Err (PlainError (txt "invalid JSON text"))
  | Some members =>
      match decodeMembers members (mkFeedback 0 0 [] 0) with
      | None => Err (PlainError (txt "invalid JSON value"))
      | Some feedback => _ ← validateOperatorFeedback feedback; Ok feedback
      end
  end.

Definition operatorFeedbackFilename (generation : Z) : bytes := bs "generation-" ++ padded 4 generation ++ bs ".json".

Definition parseOperatorFeedbackFilename (name : bytes) : option Z :=
  if negb (strings.HasPrefix name (bs "generation-")) || negb (strings.HasSuffix name (bs ".json")) then None
  else
    let digits := strings.TrimSuffix (strings.TrimPrefix name (bs "generation-")) (bs ".json") in
    if (len digits <? 4) || ((4 <? len digits) && bool_decide (head digits = Some x30)) then None
    else match strconv.ParseUint digits with
         | None => None
         | Some value => if bool_decide (operatorFeedbackFilename value = name) then Some value else None
         end.

(** An entry of the feedback directory: a symbolic link or not, with what reading
    it gives. *)
Inductive fbentry := FbFile (contents : result bytes) | FbSymlink.
Inductive feedbackdir := FbMissing | FbMalformed (err : error) | FbEntries (l : gmap bytes fbentry).

(** [readRegularLimited] *)
Definition readFeedback (contents : result bytes) : result bytes :=
  c ← contents;
  if operatorFeedbackLimit <? len c then Err (PlainError (txt "generation archive artifact exceeds its size limit")) else Ok c.

Fixpoint loadFeedbackEntries (entries : list (bytes * fbentry)) : result (list OperatorFeedback) :=
  match entries with
  | [] => Ok []
  | (name, entry) :: entries =>
      let unexpected := runtime_error (txt "operator feedback directory contains an unexpected entry: " ++ [Lit name]) in
      match parseOperatorFeedbackFilename name, entry with
      | Some generation, FbFile contents =>
          encoded ← match readFeedback contents with
                    | Ok encoded => Ok encoded
                    | Err err => Err (runtime_wrap (txt "could not read operator feedback attachment") err)
                    end;
          record ← match decodeOperatorFeedback encoded with
                   | Ok record => if TargetGeneration record =? generation then Ok record else Err feedback_malformed
                   | Err err => Err (runtime_wrap (txt "operator feedback attachment is malformed") err)
                   end;
          records ← loadFeedbackEntries entries;
          Ok (record :: records)
      | _, _ => Err unexpected
      end
  end.

Definition loadOperatorFeedbackRecords (d : feedbackdir) : result (list OperatorFeedback) :=
  match d with
  | FbMissing => Ok []
  | FbMalformed err => Err err
  | FbEntries l => loadFeedbackEntries (sort.SliceBy fst (map_to_list l))
  end.

(** The reasons of the aborted generations that have one. *)
Definition abortedReasons (archives : list ArchivedGeneration) : gmap Z bytes :=
  fold_left (λ m archive,
    match AbortReason archive with
    | Some reason => if bool_decide (Outcome archive = bs "aborted") then <[agGeneration archive := reason]> m else m
    | None => m
    end) archives ∅.

Definition maximumTarget (archives : list ArchivedGeneration) : Z :=
  match last archives with
  | None => 0
  | Some latest => if agGeneration latest =? max_uint64 then max_uint64 else agGeneration latest + 1
  end.

Fixpoint validateFeedbackFrom (aborted : gmap Z bytes) (archives : list ArchivedGeneration)
  (seenSources seenTargets : gset Z) (records : list OperatorFeedback) : result unit :=
  match records with
  | [] => Ok ()
  | record :: records =>
      _ ← validateOperatorFeedback record;
      if negb (bool_decide (aborted !! SourceAbortGeneration record = Some (Reason record))) then
        Err (runtime_error (txt "operator feedback does not match its aborted generation"))
      else if bool_decide (archives = []) || (maximumTarget archives <? TargetGeneration record) then
        Err (runtime_error (txt "operator feedback target generation is inconsistent"))
      else if bool_decide (SourceAbortGeneration record ∈ seenSources) then
        Err (runtime_error (txt "abort reason was attached more than once"))
      else if bool_decide (TargetGeneration record ∈ seenTargets) then
        Err (runtime_error (txt "generation has multiple operator feedback attachments"))
      else validateFeedbackFrom aborted archives ({[SourceAbortGeneration record]} ∪ seenSources)
             ({[TargetGeneration record]} ∪ seenTargets) records
  end.

Definition validateOperatorFeedbackRecords (records : list OperatorFeedback) (archives : list ArchivedGeneration)
  : result unit :=
  validateFeedbackFrom (abortedReasons archives) archives ∅ ∅ records.

(** The latest aborted generation whose reason no record has used. *)
Definition unconsumedAbort (archives : list ArchivedGeneration) (consumed : list Z) : option (Z * bytes) :=
  head (omap (λ archive,
    match AbortReason archive with
    | Some reason =>
        if bool_decide (Outcome archive = bs "aborted") && negb (bool_decide (agGeneration archive ∈ consumed))
        then Some (agGeneration archive, reason) else None
    | None => None
    end) (rev archives)).

Definition feedbackForGeneration (d : feedbackdir) (archives : list ArchivedGeneration) (generation : Z)
  : result (option OperatorFeedback) :=
  records ← loadOperatorFeedbackRecords d;
  _ ← validateOperatorFeedbackRecords records archives;
  match list_find (λ record, TargetGeneration record = generation) records with
  | Some (_, record) => Ok (Some record)
  | None =>
      match unconsumedAbort archives (SourceAbortGeneration <$> records) with
      | Some (source, reason) => Ok (Some (mkFeedback generation source reason 1))
      | None => Ok None
      end
  end.

(** [persistOperatorFeedback]: the attachment is published by linking a staged
    file, never replaced; [f] is where the file system fails. *)
Definition persistOperatorFeedback (feedback : OperatorFeedback) (f : fault) (d : feedbackdir)
  : result unit * feedbackdir :=
  match encodeOperatorFeedback feedback with
  | Err err => (Err err, d)
  | Ok encoded =>
      match d with
      | FbMalformed err => (Err (runtime_wrap (txt "operator feedback directory is malformed") err), d)
      | _ =>
          let l := match d with FbEntries l => l | _ => ∅ end in
          let name := operatorFeedbackFilename (TargetGeneration feedback) in
          match l !! name with
          | Some entry =>
              match (match entry with FbFile contents => readFeedback contents | FbSymlink => Err (SystemError (txt "symlink")) end) with
              | Ok existing =>
                  if bool_decide (existing = encoded) then (Ok (), FbEntries l)
                  else (Err (runtime_error (txt "operator feedback attachment conflicts with immutable state")), FbEntries l)
              | Err err => (Err (runtime_wrap (txt "could not inspect operator feedback attachment") err), FbEntries l)
              end
          | None =>
              match f with
              | BeforeRename err => (Err (runtime_wrap (txt "could not publish operator feedback attachment") err), FbEntries l)
              | _ =>
                  let d := FbEntries (<[name := FbFile (Ok encoded)]> l) in
                  match f with
                  | AfterRename err => (Err (runtime_wrap (txt "could not persist operator feedback attachment") err), d)
                  | _ => (Ok (), d)
                  end
              end
          end
      end
  end.

Definition attachOperatorFeedback (run : bytes) (entries : gmap bytes rundirent) (generation : Z) (f : fault)
  (d : feedbackdir) : result (option OperatorFeedback) * feedbackdir :=
  match (archives ← LoadArchivedGenerations run entries;
         _ ← ValidateArchivedHistory archives;
         feedbackForGeneration d archives generation) with
  | Err err => (Err err, d)
  | Ok None => (Ok None, d)
  | Ok (Some feedback) =>
      match persistOperatorFeedback feedback f d with
      | (Err err, d) => (Err err, d)
      | (Ok _, d) => (Ok (Some feedback), d)
      end
  end.
