(* ===== verification/RunGate.v ===== *)
(** * The generation gate of a run (src/internal/experiment/runtime.go, source_capacity.go)

    The process-free run object: opening at the gate, choosing the next
    generation, aborting one, leasing the gate for an interview, changing the
    source capacity. Methods hold [gateMu] throughout, so each is one step. The
    run directory is passed along; where the file system may fail, the fault is an
    argument. Attaching QEMU (a non-nil [live]) is not modelled. *)

From S2P Require Import Prelude GoStd SourceCapacity Snapshot Json FeatureStore ArchiveRecord.
Open Scope Z_scope.

Inductive RuntimeState :=
| RuntimeStateStopped | RuntimeStateRunning | RuntimeStatePaused | RuntimeStateAwaitingNextGeneration.
#[global] Instance RuntimeState_eq_dec : EqDecision RuntimeState.
Proof. solve_decision. Defined.

Record PendingFinish := mkPendingFinish {
  pfHandoff : bytes;
  pfSnapshot : bytes;
  pfKernelELF : bytes;
  pfISO : bytes
}.

(** The run directory: entries, feedback attachments, the capacity record. *)
Record rundir := mkRundir {
  entries : gmap bytes rundirent;
  feedback : feedbackdir;
  capacityRecord : result Budget            (* as loaded: 0 without a record *)
}.

Record CodexOSRun := mkRun {
  activeOperatorRequests : Z;
  sourceCapacity : Budget;
  state : RuntimeState;
  generationNumber : option Z;
  previousHandoff : option bytes;
  currentOperatorFeedback : option OperatorFeedback;
  runPending : option PendingFinish;
  currentParent : option Z;
  currentTransition : bytes;
  currentBootImage : bytes;
  currentHardware : HardwareManifest;
  retainedFinish : option Z;
  transitioning : bool
}.

Definition newRun (active : Z) (budget : Budget) : CodexOSRun :=
  mkRun active budget RuntimeStateStopped None None None None None [] [] noHardware None false.

(** [resolved]: the outcome of resolving the directory; [ledger]: the number of
    active operator requests, or why their ledger cannot be read. *)
Definition NewCodexOSRun (resolved : option error) (ledger : result Z) (d : rundir) : result CodexOSRun :=
  match resolved with
  | Some err => Err (runtime_wrap (txt "could not resolve run directory") err)
  | None =>
      budget ← capacityRecord d;
      active ← ledger;
      Ok (newRun active budget)
  end.

(** ** Leasing the gate *)

Definition GenerationFinishFrozen (r : CodexOSRun) : bool :=
  negb (transitioning r) && bool_decide (state r = RuntimeStateAwaitingNextGeneration)
  && bool_decide (is_Some (runPending r)).

Definition RetainGenerationFinish (generation : Z) (r : CodexOSRun) : bool * CodexOSRun :=
  if transitioning r || bool_decide (is_Some (retainedFinish r))
     || negb (bool_decide (state r = RuntimeStateAwaitingNextGeneration))
     || bool_decide (runPending r = None) || negb (bool_decide (generationNumber r = Some generation))
  then (false, r)
  else (true, mkRun (activeOperatorRequests r) (sourceCapacity r) (state r) (generationNumber r) (previousHandoff r) (currentOperatorFeedback r)
                (runPending r) (currentParent r) (currentTransition r) (currentBootImage r) (currentHardware r)
                (Some generation) (transitioning r)).

Definition GenerationFinishRetained (generation : Z) (r : CodexOSRun) : bool :=
  bool_decide (retainedFinish r = Some generation) && negb (transitioning r)
  && bool_decide (state r = RuntimeStateAwaitingNextGeneration) && bool_decide (is_Some (runPending r)).

Definition ReleaseGenerationFinish (generation : Z) (r : CodexOSRun) : CodexOSRun :=
  if bool_decide (retainedFinish r = Some generation) then
    mkRun (activeOperatorRequests r) (sourceCapacity r) (state r) (generationNumber r) (previousHandoff r) (currentOperatorFeedback r)
      (runPending r) (currentParent r) (currentTransition r) (currentBootImage r) (currentHardware r) None (transitioning r)
  else r.

Section Run.
Context (run : bytes).
(** What reading a file under the run gives, and which paths are regular files. *)
Context (isRegularWithoutSymlink : bytes → bool).
(** [qemu.ValidateHardwareManifest] *)
Context (validHardware : HardwareManifest → option error).

Definition successorISO (archive : bytes) : bytes := archive ++ bs "/successor/codexos.iso".
Definition successorKernel (archive : bytes) : bytes := archive ++ bs "/successor/kernel.elf".
Definition bootISO (archive : bytes) : bytes := archive ++ bs "/boot/codexos.iso".

(** The source snapshot of an archive, read with its own limit. *)
Definition archivedSnapshot (d : rundir) (archive : ArchivedGeneration) : result bytes :=
  match entries d !! generationName (agGeneration archive) with
  | Some (ArchiveEntry dir) => readArchiveArtifact (dirSnapshot dir) (SnapshotLimit (agSourceCapacity archive))
  | _ => Err (SystemError (txt "no such file or directory"))
  end.

(** ** Opening *)

(** The latest archive of a directory whose history is complete and valid. *)
Definition gateLatest (d : rundir) : result ArchivedGeneration :=
  let partial := partialGenerationState (entries d) in
  if negb (bool_decide (partial = [])) then
    Err (runtime_error (txt "run contains partial generation state: " ++ [Lit (strings.Join partial (bs ", "))]))
  else
    archives ← LoadArchivedGenerations run (entries d);
    match last archives with
    | None => Err (runtime_error (txt "run has no archived generation gate"))
    | Some latest =>
        _ ← ValidateArchivedHistory archives;
        records ← loadOperatorFeedbackRecords (feedback d);
        _ ← validateOperatorFeedbackRecords records archives;
        Ok latest
    end.

(** The successor the latest archive selected. *)
Definition gateSuccessor (d : rundir) (latest : ArchivedGeneration) : result (option PendingFinish) :=
  if bool_decide (Outcome latest = bs "completed") then
    match Handoff latest with
    | None => Err (runtime_error (txt "completed generation handoff is unavailable"))
    | Some handoff =>
        match archivedSnapshot d latest with
        | Err err => Err (generationArchiveError (agGeneration latest) err)
        | Ok snapshot => Ok (Some (mkPendingFinish handoff snapshot (successorKernel (ArchivePath latest))
                                     (successorISO (ArchivePath latest))))
        end
    end
  else Ok None.

Definition ReopenAtGate (d : rundir) (r : CodexOSRun) : result unit * CodexOSRun :=
  let fail (reason : string) := (Err (runtime_error (txt reason)), r) in
  if negb (bool_decide (state r = RuntimeStateStopped)) then fail "CodexOS run is not stopped"
  else if bool_decide (is_Some (generationNumber r)) then fail "CodexOS run has already been opened"
  else match (latest ← gateLatest d; pending ← gateSuccessor d latest; Ok (latest, pending)) with
  | Err err => (Err err, r)
  | Ok (latest, pending) =>
      (Ok (), mkRun (activeOperatorRequests r) (sourceCapacity r) RuntimeStateAwaitingNextGeneration (Some (agGeneration latest))
                (pfHandoff <$> pending) None pending (ParentGeneration latest) (Transition latest)
                (bootISO (ArchivePath latest)) (Hardware latest) (retainedFinish r) (transitioning r))
  end.

(** ** The next generation *)

(** The run enters generation [next] from archive [parent]; the operator's
    feedback is attached first, and nothing changes when that fails. *)
Definition enterGeneration (next parent : Z) (transition image handoff : bytes) (f : fault) (d : rundir) (r : CodexOSRun)
  : result unit * (CodexOSRun * rundir) :=
  let '(attached, fb) := attachOperatorFeedback run (entries d) next f (feedback d) in
  let d := mkRundir (entries d) fb (capacityRecord d) in
  match attached with
  | Err err => (Err err, (r, d))
  | Ok attached =>
      (Ok (), (mkRun (activeOperatorRequests r) (sourceCapacity r) RuntimeStateRunning (Some next) (Some handoff) attached None (Some parent) transition
                 image (currentHardware r) (retainedFinish r) (transitioning r), d))
  end.

Definition ContinueGeneration (f : fault) (d : rundir) (r : CodexOSRun) : result unit * (CodexOSRun * rundir) :=
  let fail (reason : text) := (Err (runtime_error reason), (r, d)) in
  if bool_decide (is_Some (retainedFinish r)) then fail (txt "completed generation is retained for an exit interview")
  else if negb (bool_decide (state r = RuntimeStateAwaitingNextGeneration)) then
    fail (txt "CodexOS run is not awaiting a generation")
  else match runPending r, generationNumber r with
  | Some pending, Some parent =>
      if parent =? max_uint64 then fail (txt "generation number space is exhausted")
      else if negb (isRegularWithoutSymlink (pfISO pending)) then
        fail (txt "selected successor artifact is missing: " ++ [Lit (pfISO pending)])
      else match ParseSourceSnapshotWithBudget (pfSnapshot pending) (sourceCapacity r) with
      | Err err => (Err err, (r, d))
      | Ok _ => enterGeneration (wrap64 (parent + 1)) parent (bs "successor") (pfISO pending) (pfHandoff pending) f d r
      end
  | _, _ => fail (txt "CodexOS run has no selected successor")
  end.

Definition validateInheritedSource (d : rundir) (archive : ArchivedGeneration) (destination : Budget) : result unit :=
  snapshot ← archivedSnapshot d archive;
  match ParseSourceSnapshotWithBudget snapshot destination with
  | Ok _ => Ok ()
  | Err err => Err (PlainError (txt "generation " ++ [Lit (strconv.Itoa (agGeneration archive))]
                      ++ txt " source cannot enter run with " ++ [Lit (strconv.Itoa (Bytes destination))]
                      ++ txt "-byte source content capacity: " ++ Error err))
  end.

Definition ForkFromGeneration (generation : Z) (f : fault) (d : rundir) (r : CodexOSRun)
  : result unit * (CodexOSRun * rundir) :=
  let fail (reason : text) := (Err (runtime_error reason), (r, d)) in
  if bool_decide (is_Some (retainedFinish r)) then fail (txt "completed generation is retained for an exit interview")
  else if negb (bool_decide (state r = RuntimeStateAwaitingNextGeneration)) then
    fail (txt "CodexOS run is not awaiting a generation")
  else match generationNumber r with
  | None => fail (txt "CodexOS generation number is unavailable")
  | Some current =>
      if current <=? generation then fail (txt "fork parent must be an earlier generation")
      else if current =? max_uint64 then fail (txt "generation number space is exhausted")
      else match InspectGeneration run (entries d) generation with
      | Err err => (Err err, (r, d))
      | Ok archived =>
          if negb (bool_decide (Outcome archived = bs "completed")) then
            fail (txt "aborted generation cannot be a rollback parent")
          else match Handoff archived with
          | None => fail (txt "completed generation handoff is unavailable")
          | Some handoff =>
              match validateInheritedSource d archived (sourceCapacity r) with
              | Err err => (Err err, (r, d))
              | Ok _ =>
                  let image := successorISO (ArchivePath archived) in
                  if negb (isRegularWithoutSymlink image) then
                    fail (txt "generation archive artifact is missing: " ++ [Lit image])
                  else enterGeneration (wrap64 (current + 1)) generation (bs "rollback") image handoff f d r
              end
          end
      end
  end.

(** ** Aborting and stopping *)

(** [boot]: reading the current boot image; [written]: writing the files of the
    archive. *)
Definition AbortGeneration (reason : bytes) (boot : result bytes) (written : result unit) (frozen : result bool) (f : publishing) (d : rundir)
  (r : CodexOSRun) : result unit * (CodexOSRun * rundir) :=
  let fail (err : error) := (Err err, (r, d)) in
  match ValidateAbortReason reason with
  | Err err => fail err
  | Ok _ =>
  if negb (bool_decide (state r = RuntimeStateRunning)) then
    fail (runtime_error (txt "CodexOS generation cannot be aborted"))
  else match generationNumber r with
  | None => fail (runtime_error (txt "CodexOS generation state is unavailable"))
  | Some generation =>
      if bool_decide (currentTransition r = []) || (SchemaVersion (currentHardware r) =? 0) then
        fail (runtime_error (txt "CodexOS generation state is unavailable"))
      else match boot with
      | Err err => fail (runtime_wrap (txt "current generation boot image is unavailable") err)
      | Ok _ =>
          let archive := mkAborted generation (currentParent r) (currentTransition r) (currentHardware r) reason
                           (sourceCapacity r) None false in
          let '(written, es) := WriteAbortedArchive run validHardware archive written frozen f (entries d) in
          let d := mkRundir es (feedback d) (capacityRecord d) in
          match written with
          | Err err => (Err err, (r, d))
          | Ok _ =>
              (Ok (), (mkRun (activeOperatorRequests r) (sourceCapacity r) RuntimeStateAwaitingNextGeneration (generationNumber r) None None None
                         (currentParent r) (currentTransition r) [] (currentHardware r) None (transitioning r), d))
          end
      end
  end end.

Definition clearStoppedState (r : CodexOSRun) : CodexOSRun :=
  mkRun (activeOperatorRequests r) (sourceCapacity r) RuntimeStateStopped (generationNumber r) None None None None [] [] noHardware None false.

(** ** The source capacity *)

(** [save]: the outcome of replacing the capacity record. *)
Definition SetSourceCapacity (budget : Budget) (save : fault) (d : rundir) (r : CodexOSRun)
  : result unit * (CodexOSRun * rundir) :=
  let fail (err : error) := (Err err, (r, d)) in
  match Budget_Validate budget with
  | Err err => fail err
  | Ok _ =>
  match generationNumber r with
  | Some generation =>
  if negb (bool_decide (state r = RuntimeStateAwaitingNextGeneration)) || bool_decide (is_Some (retainedFinish r))
     || transitioning r then
    fail (runtime_error (txt "source capacity requires a validated inactive generation gate with no retained interview"))
  else if negb (bool_decide (partialGenerationState (entries d) = [])) then
    fail (runtime_error (txt "run contains partial generation state"))
  else match (archives ← LoadArchivedGenerations run (entries d);
              _ ← ValidateArchivedHistory archives;
              match last archives with
              | None => Err (runtime_error (txt "generation gate does not match archived history"))
              | Some latest =>
                  if negb (agGeneration latest =? generation) then
                    Err (runtime_error (txt "generation gate does not match archived history"))
                  else
                    _ ← (if bool_decide (Outcome latest = bs "completed") then validateInheritedSource d latest budget else Ok ());
                    match runPending r with
                    | None => Ok ()
                    | Some pending => _ ← ParseSourceSnapshotWithBudget (pfSnapshot pending) budget; Ok ()
                    end
              end) with
  | Err err => fail err
  | Ok _ =>
      match save with
      | BeforeRename err => fail err
      | AfterRename err => (Err err, (r, mkRundir (entries d) (feedback d) (Ok (Bytes budget))))
      | NoFault =>
          (Ok (), (mkRun (activeOperatorRequests r) (Bytes budget) (state r) (generationNumber r) (previousHandoff r) (currentOperatorFeedback r)
                     (runPending r) (currentParent r) (currentTransition r) (currentBootImage r) (currentHardware r)
                     (retainedFinish r) (transitioning r),
                   mkRundir (entries d) (feedback d) (Ok (Bytes budget))))
      end
  end
  | None =>
      fail (runtime_error (txt "source capacity requires a validated inactive generation gate with no retained interview"))
  end end.
End Run.
