(* ===== verification/RunGateProofs.v ===== *)
(** * The history of a run

    Reading a run directory gives its archives in order; a published archive reads
    back; and whatever sequence of gate operations runs, with the file system
    failing anywhere, the archived history stays valid and only grows. *)

From S2P Require Import Prelude GoStd SourceCapacity Snapshot Json FeatureStore FeatureProofs ArchiveRecord RunGate.
Open Scope Z_scope.

(** ** Archive names *)

Lemma generationName_prefix g : strings.HasPrefix (generationName g) (bs "generation-") = true.
Proof. apply strings.HasPrefix_app. Qed.

Lemma generationName_trim g : strings.TrimPrefix (generationName g) (bs "generation-") = padded 4 g.
Proof. unfold strings.TrimPrefix. rewrite generationName_prefix. unfold generationName. by rewrite dropZ_app. Qed.

Lemma parse_generationName g : u64 g → parseASCIIUnsigned (padded 4 g) = Some g.
Proof.
  intros Hg. destruct (padded_digits 4 g Hg) as (Hd & _ & Hne). unfold parseASCIIUnsigned.
  by rewrite (bool_decide_eq_false_2 _ Hne), Hd, ParseUint_padded.
Qed.

Lemma parseASCIIUnsigned_range v g : parseASCIIUnsigned v = Some g → u64 g.
Proof.
  unfold parseASCIIUnsigned. case_bool_decide; [done|]. destruct (negb _); [done|]. apply ParseUint_range.
Qed.

Lemma generationName_inj a b : u64 a → u64 b → generationName a = generationName b → a = b.
Proof.
  intros Ha Hb E. apply (f_equal (λ s, parseASCIIUnsigned (strings.TrimPrefix s (bs "generation-")))) in E.
  rewrite !generationName_trim, !parse_generationName in E by done. congruence.
Qed.

(** ** Sorted by number *)

Lemma sorted_by_number (l k : list ArchivedGeneration) :
  l ≡ₚ k → NoDup (agGeneration <$> l) → StronglySorted by_generation l → StronglySorted by_generation k → l = k.
Proof.
  revert k. induction l as [|x l IH]; intros k Hp Hnd Hl Hk.
  { by apply Permutation_nil_l in Hp. }
  destruct k as [|y k]; [by apply Permutation_nil_r in Hp|].
  assert (x = y) as <-.
  { assert (Hy : y ∈ x :: l) by (rewrite Hp; left). assert (Hx : x ∈ y :: k) by (rewrite <- Hp; left).
    apply elem_of_cons in Hy as [->|Hy]; [done|]. apply elem_of_cons in Hx as [->|Hx]; [done|].
    apply StronglySorted_inv in Hl as [_ Hl]. apply StronglySorted_inv in Hk as [_ Hk].
    rewrite Forall_forall in Hl, Hk. specialize (Hl y Hy). specialize (Hk x Hx). unfold by_generation in *.
    cbn in Hnd. apply NoDup_cons in Hnd as [Hn _]. destruct Hn. apply list_elem_of_fmap. exists y. split; [lia|done]. }
  f_equal. apply Permutation_cons_inv in Hp. cbn in Hnd. apply NoDup_cons in Hnd as [_ Hnd].
  apply StronglySorted_inv in Hl as [Hl _]. apply StronglySorted_inv in Hk as [Hk _]. by apply IH.
Qed.

Lemma merge_sort_numbers l : StronglySorted by_generation (merge_sort by_generation l).
Proof.
  apply StronglySorted_merge_sort.
  - intros a b c. unfold by_generation. lia.
  - intros a b. unfold by_generation. lia.
Qed.

(** ** Loading *)

Section Loading.
Context (run : bytes).

(** The archive an entry name stands for. *)
Definition archive_of (es : gmap bytes rundirent) (name : bytes) : option ArchivedGeneration :=
  if strings.HasPrefix name (bs "generation-") then
    match parseASCIIUnsigned (strings.TrimPrefix name (bs "generation-")) with
    | Some g => if bool_decide (name = generationName g)
                then match readArchivedGeneration run es g with Ok a => Some a | Err _ => None end else None
    | None => None
    end
  else None.

Lemma loadEntries_iff es names l :
  loadEntries run es names = Ok l ↔
  l = omap (archive_of es) names
  ∧ Forall (λ name, strings.HasPrefix name (bs "generation-") = true → is_Some (archive_of es name)) names.
Proof.
  revert l. induction names as [|name names IH]; intros l; cbn [loadEntries omap list_omap].
  { split; [by intros [= <-]|by intros [-> _]]. }
  rewrite Forall_cons. pose proof (eq_refl (archive_of es name)) as Ho. unfold archive_of in Ho at 2.
  destruct (strings.HasPrefix name (bs "generation-")); cbn [negb];
    [|rewrite Ho, IH; split; [intros [-> ?]|intros [-> [_ ?]]]; done].
  assert (Hbad : ∀ e, archive_of es name = None → Err e = Ok l ↔ l = match archive_of es name with
      | Some a => a :: omap (archive_of es) names | None => omap (archive_of es) names end
      ∧ (true = true → is_Some (archive_of es name)) ∧
      Forall (λ n, strings.HasPrefix n (bs "generation-") = true → is_Some (archive_of es n)) names).
  { intros e ->. split; [done|]. intros (_ & H & _). destruct (H eq_refl) as [? [=]]. }
  destruct (parseASCIIUnsigned _) as [g|]; [|by apply Hbad].
  case_bool_decide; cbn [negb]; [|by apply Hbad].
  unfold InspectGeneration. destruct (readArchivedGeneration run es g) as [a|]; [|by apply Hbad].
  rewrite Ho. cbn [mbind result_bind]. split.
  - intros E. apply bind_Ok in E as (l' & El & [= <-]). apply IH in El as [-> HF]. split; [done|]. split; [by eexists|done].
  - intros (-> & _ & HF). rewrite (proj2 (IH (omap (archive_of es) names)) (conj eq_refl HF)). done.
Qed.

Lemma readArchived_number es g a : readArchivedGeneration run es g = Ok a → agGeneration a = g ∧ ArchivePath a = archivePath run g.
Proof.
  unfold readArchivedGeneration. destruct (es !! _) as [[d|]|]; [|done..]. intros E.
  do 5 (apply bind_Ok in E as (? & _ & E)). destruct (dirArtifacts d); [done|]. apply bind_Ok in E as (? & _ & E).
  case_bool_decide; apply bind_Ok in E as (? & _ & [= <-]); done.
Qed.

Lemma archive_of_name es name a :
  archive_of es name = Some a →
  name = generationName (agGeneration a) ∧ u64 (agGeneration a) ∧ readArchivedGeneration run es (agGeneration a) = Ok a.
Proof.
  unfold archive_of. destruct (strings.HasPrefix _ _); [|done]. destruct (parseASCIIUnsigned _) as [g|] eqn:Eg; [|done].
  case_bool_decide; [|done]. destruct (readArchivedGeneration run es g) as [x|] eqn:Er; [|done]. intros [= ->].
  destruct (readArchived_number es g a Er) as [<- _]. split_and!; [done| |done]. by eapply parseASCIIUnsigned_range.
Qed.

Lemma archive_of_generation es g :
  u64 g → archive_of es (generationName g) = match readArchivedGeneration run es g with Ok a => Some a | Err _ => None end.
Proof.
  intros Hg. unfold archive_of. rewrite generationName_prefix, generationName_trim, parse_generationName by done.
  by rewrite bool_decide_eq_true_2.
Qed.

(** Reading an archive looks at its own entry only. *)
Lemma readArchived_insert es name e g :
  name ≠ generationName g → readArchivedGeneration run (<[name := e]> es) g = readArchivedGeneration run es g.
Proof. intros Hne. unfold readArchivedGeneration. by rewrite lookup_insert_ne. Qed.

Lemma archive_of_insert es name e n :
  n ≠ name → archive_of (<[name := e]> es) n = archive_of es n.
Proof.
  intros Hne. unfold archive_of. destruct (strings.HasPrefix _ _); [|done]. destruct (parseASCIIUnsigned _) as [g|]; [|done].
  case_bool_decide as E; [|done]. rewrite readArchived_insert; [done|]. congruence.
Qed.

Lemma load_iff es l :
  LoadArchivedGenerations run es = Ok l ↔
  l = merge_sort by_generation (omap (archive_of es) (entry_names es))
  ∧ Forall (λ name, strings.HasPrefix name (bs "generation-") = true → is_Some (archive_of es name)) (entry_names es).
Proof.
  unfold LoadArchivedGenerations. split.
  - intros E. apply bind_Ok in E as (l' & E & [= <-]). by apply loadEntries_iff in E as [-> ?].
  - intros [-> HF]. by rewrite (proj2 (loadEntries_iff es _ _) (conj eq_refl HF)).
Qed.

Lemma archive_names es names : generationName <$> (agGeneration <$> omap (archive_of es) names) `sublist_of` names.
Proof.
  induction names as [|name names IH]; [constructor|]. cbn. destruct (archive_of es name) as [a|] eqn:E; cbn.
  - apply archive_of_name in E as (-> & _). by constructor.
  - by constructor.
Qed.

Lemma entry_names_NoDup es : NoDup (entry_names es).
Proof. unfold entry_names, sort.Strings. rewrite merge_sort_Permutation. apply NoDup_fst_map_to_list. Qed.

Lemma loaded_NoDup es : NoDup (agGeneration <$> omap (archive_of es) (entry_names es)).
Proof.
  apply (NoDup_fmap_1 generationName). eapply sublist_NoDup; [apply entry_names_NoDup|apply archive_names].
Qed.

Lemma entry_names_insert es name e :
  es !! name = None → entry_names (<[name := e]> es) ≡ₚ name :: entry_names es.
Proof.
  intros Hn. unfold entry_names, sort.Strings. rewrite !merge_sort_Permutation. by rewrite map_to_list_insert.
Qed.

Lemma elem_of_entry_names es name : name ∈ entry_names es ↔ is_Some (es !! name).
Proof.
  unfold entry_names, sort.Strings. rewrite merge_sort_Permutation, list_elem_of_fmap. split.
  - intros ([n e] & -> & He%elem_of_map_to_list). by exists e.
  - intros [e He]. exists (name, e). by rewrite elem_of_map_to_list.
Qed.

Lemma omap_insert es name e :
  es !! name = None → omap (archive_of (<[name := e]> es)) (entry_names es) = omap (archive_of es) (entry_names es).
Proof.
  intros Hn. assert (Hne : name ∉ entry_names es) by (rewrite elem_of_entry_names, Hn; by intros [? [=]]).
  induction (entry_names es) as [|n l IH]; [done|]. apply not_elem_of_cons in Hne as [Hn1 Hn2]. cbn.
  rewrite archive_of_insert by done. by rewrite IH.
Qed.

(** Adding the next archive adds it at the end. *)
Lemma load_insert es g e a archives :
  LoadArchivedGenerations run es = Ok archives → u64 g → es !! generationName g = None →
  readArchivedGeneration run (<[generationName g := e]> es) g = Ok a →
  (∀ b, b ∈ archives → agGeneration b < g) →
  LoadArchivedGenerations run (<[generationName g := e]> es) = Ok (archives ++ [a]).
Proof.
  intros Hl Hg Hn Hr Hlt. apply load_iff in Hl as [El HF]. apply load_iff.
  pose proof (entry_names_insert es (generationName g) e Hn) as Hp.
  pose proof (archive_of_generation (<[generationName g := e]> es) g Hg) as Ha. rewrite Hr in Ha.
  destruct (readArchived_number _ _ _ Hr) as [Hag _].
  assert (Hperm : omap (archive_of (<[generationName g := e]> es)) (entry_names (<[generationName g := e]> es))
                  ≡ₚ a :: omap (archive_of es) (entry_names es)).
  { rewrite Hp. cbn [omap list_omap]. rewrite Ha, omap_insert by done. done. }
  split.
  - apply sorted_by_number; [| | |apply merge_sort_numbers].
    + rewrite merge_sort_Permutation, Hperm, El, (merge_sort_Permutation _ (omap _ _)). by rewrite Permutation_app_comm.
    + rewrite El, fmap_app, merge_sort_Permutation. apply NoDup_app. split; [apply loaded_NoDup|]. split; [|apply NoDup_singleton].
      intros x Hx Hx'. apply list_elem_of_singleton in Hx' as ->. apply list_elem_of_fmap in Hx as (b & Hb & Hin).
      assert (b ∈ archives) by (by rewrite El, merge_sort_Permutation). specialize (Hlt b). rewrite Hag in Hb. cbn in Hb. naive_solver lia.
    + apply StronglySorted_app. split_and!; [|rewrite El; apply merge_sort_numbers|by repeat constructor].
      intros x y Hx Hy. apply list_elem_of_singleton in Hy as ->. unfold by_generation. specialize (Hlt x Hx). lia.
  - rewrite Hp. apply Forall_cons. split; [intros _; rewrite Ha; by eexists|].
    rewrite Forall_forall in HF |- *. intros n Hin Hpre. specialize (HF n Hin Hpre). rewrite archive_of_insert; [done|].
    intros ->. apply elem_of_entry_names in Hin as [? ?]. congruence.
Qed.
End Loading.

(** ** Valid histories *)

Definition lineage_valid (archives : list ArchivedGeneration) (i : nat) (a : ArchivedGeneration) : Prop :=
  ∃ p parent, ParentGeneration a = Some (Z.of_nat p) ∧ archives !! p = Some parent ∧ Outcome parent = bs "completed"
    ∧ (Transition a = bs "successor" → S p = i) ∧ (Transition a = bs "rollback" → S p ≠ i).

Definition valid_history (archives : list ArchivedGeneration) : Prop :=
  archives ≠ [] ∧ (∀ i a, archives !! i = Some a → agGeneration a = Z.of_nat i)
  ∧ (∀ i a, archives !! S i = Some a → lineage_valid archives (S i) a).

Lemma contiguousFrom_iff k l :
  contiguousFrom k l = true ↔ ∀ i a, l !! i = Some a → agGeneration a = k + Z.of_nat i.
Proof.
  revert k. induction l as [|x l IH]; intros k; cbn [contiguousFrom]; [split; [|done]; by intros _ i a|].
  rewrite andb_true_iff, IH, Z.eqb_eq. split.
  - intros [Hx H] [|i] a E; [injection E as <-; lia|]. rewrite (H i a E). lia.
  - intros H. split; [rewrite (H 0%nat x eq_refl); lia|]. intros i a E. rewrite (H (S i) a E). lia.
Qed.

Lemma numbered_NoDup l :
  (∀ i a, l !! i = Some a → agGeneration a = Z.of_nat i) → NoDup (agGeneration <$> l).
Proof.
  intros H. apply NoDup_alt. intros i j x Hi Hj. rewrite list_lookup_fmap in Hi, Hj.
  apply fmap_Some in Hi as (a & Hi & ->). apply fmap_Some in Hj as (b & Hj & E).
  rewrite (H i a Hi), (H j b Hj) in E. lia.
Qed.

Lemma indexArchives_total l m0 :
  NoDup (agGeneration <$> l) → (∀ a, a ∈ l → m0 !! agGeneration a = None) →
  ∃ m, indexArchives l m0 = Some m ∧ ∀ g a, m !! g = Some a ↔ m0 !! g = Some a ∨ (a ∈ l ∧ agGeneration a = g).
Proof.
  revert m0. induction l as [|x l IH]; intros m0 Hnd Hf.
  { exists m0. split; [done|]. intros g a. split; [by left|]. intros [|[H _]]; [done|]. by apply not_elem_of_nil in H. }
  cbn [indexArchives]. cbn in Hnd. apply NoDup_cons in Hnd as [Hx Hnd]. rewrite bool_decide_eq_false_2.
  2: { rewrite (Hf x) by left. by intros [? [=]]. }
  destruct (IH (<[agGeneration x := x]> m0)) as (m & Em & Hm); [done| |].
  { intros a Ha. rewrite lookup_insert_ne; [apply Hf; by right|]. intros E. apply Hx. rewrite E. by apply list_elem_of_fmap_2. }
  exists m. split; [done|]. intros g a. rewrite Hm, lookup_insert_Some, elem_of_cons. split.
  - intros [[[<- <-]|[_ H]]|[H1 H2]]; [right|by left|right]; split; auto.
  - intros [H|[[->|H1] H2]]; [|by left; left|by right]. left. right. split; [|done]. intros <-.
    rewrite (Hf x) in H by left. done.
Qed.

Definition ancestry_ok (m : gmap Z ArchivedGeneration) (a : ArchivedGeneration) : Prop :=
  ∃ p parent, ParentGeneration a = Some p ∧ m !! p = Some parent ∧ Outcome parent = bs "completed"
    ∧ (Transition a = bs "successor" → p = wrap64 (agGeneration a - 1))
    ∧ (Transition a = bs "rollback" → p ≠ wrap64 (agGeneration a - 1)).

Lemma validateAncestry_iff m l : validateAncestry m l = Ok () ↔ Forall (ancestry_ok m) l.
Proof.
  induction l as [|a l IH]; [done|]. rewrite Forall_cons, <- IH. cbn [validateAncestry].
  destruct (ParentGeneration a) as [p|] eqn:Ep.
  2: { split; [done|]. intros [(q & ? & Eq & _) _]. congruence. }
  destruct (m !! p) as [parent|] eqn:Em.
  2: { split; [done|]. intros [(q & x & Eq & Hx & _) _]. congruence. }
  assert (Hok : ancestry_ok m a ↔ Outcome parent = bs "completed"
    ∧ (Transition a = bs "successor" → p = wrap64 (agGeneration a - 1))
    ∧ (Transition a = bs "rollback" → p ≠ wrap64 (agGeneration a - 1))).
  { split; [|intros; by exists p, parent]. intros (q & x & Eq & Hx & H). rewrite Ep in Eq. injection Eq as <-. congruence. }
  rewrite Hok. case_bool_decide as Hc; cbn [negb]; [|split; [done|tauto]].
  destruct (Z.eqb_spec p (wrap64 (agGeneration a - 1))) as [Hq|Hq]; cbn [negb].
  - rewrite andb_false_r, andb_true_r. case_bool_decide as Hr; [split; [done|]; intros [(_ & _ & H) _]; by destruct (H Hr)|].
    split; [|tauto]. intros H. done.
  - rewrite andb_true_r, andb_false_r. case_bool_decide as Hr; [split; [done|]; intros [(_ & H & _) _]; by destruct (Hq (H Hr))|].
    split; [|tauto]. intros H. done.
Qed.

(** The ancestry rules read on the list. *)
Lemma ancestry_lineage archives m a i :
  (∀ i a, archives !! i = Some a → agGeneration a = Z.of_nat i) →
  (∀ g a, m !! g = Some a ↔ (∅ : gmap Z ArchivedGeneration) !! g = Some a ∨ (a ∈ archives ∧ agGeneration a = g)) →
  Z.of_nat (length archives) ≤ 2 ^ 64 → archives !! S i = Some a → ancestry_ok m a ↔ lineage_valid archives (S i) a.
Proof.
  intros Hnum Hm Hlen Ha. pose proof (Hnum _ _ Ha) as Hg. pose proof (lookup_lt_Some _ _ _ Ha) as Hlt.
  assert (Hw : wrap64 (agGeneration a - 1) = Z.of_nat i) by (unfold wrap64; rewrite Hg, Z.mod_small; lia).
  unfold ancestry_ok, lineage_valid. rewrite Hw. split.
  - intros (p & parent & Ep & Hp & Ho & Hs & Hr). apply Hm in Hp as [Hp|[Hin Hp]]; [done|].
    apply list_elem_of_lookup in Hin as [j Hj]. rewrite (Hnum j parent Hj) in Hp. subst p.
    exists j, parent. split_and!; [done..| |]; intros Ht; [specialize (Hs Ht)|specialize (Hr Ht)]; lia.
  - intros (p & parent & Ep & Hp & Ho & Hs & Hr). exists (Z.of_nat p), parent. split_and!; [done| |done| |].
    + apply Hm. right. split; [by eapply list_elem_of_lookup_2|by apply Hnum].
    + intros Ht. specialize (Hs Ht). lia.
    + intros Ht. specialize (Hr Ht). lia.
Qed.

Lemma ValidateArchivedHistory_iff archives :
  Z.of_nat (length archives) ≤ 2 ^ 64 → ValidateArchivedHistory archives = Ok () ↔ valid_history archives.
Proof.
  intros Hlen. unfold ValidateArchivedHistory, valid_history.
  assert (Hcont : contiguousFrom 0 archives = true ↔ ∀ i a, archives !! i = Some a → agGeneration a = Z.of_nat i).
  { rewrite contiguousFrom_iff. split; intros H i a E; rewrite (H i a E); lia. }
  split.
  - destruct (indexArchives archives ∅) as [m|] eqn:Em; [|done].
    destruct (contiguousFrom 0 archives) eqn:Ec; cbn [negb]; [|done].
    pose proof (proj1 Hcont eq_refl) as Hnum.
    destruct (indexArchives_total archives ∅) as (m' & Em' & Hm); [by apply numbered_NoDup|done|].
    replace m' with m in * by congruence. destruct archives as [|x rest] eqn:Ea; [done|]. rewrite <- Ea in *.
    intros HF%validateAncestry_iff. split_and!; [by rewrite Ea|done|]. intros i a Hi.
    eapply ancestry_lineage; [done|done|done|done|]. rewrite Forall_forall in HF. apply HF. rewrite Ea in Hi. by eapply list_elem_of_lookup_2.
  - intros (Hne & Hnum & Hlin). rewrite (proj2 Hcont Hnum). cbn [negb].
    destruct (indexArchives_total archives ∅) as (m & -> & Hm); [by apply numbered_NoDup|done|].
    destruct archives as [|x rest] eqn:Ea; [done|]. rewrite <- Ea in *. apply validateAncestry_iff, Forall_forall.
    intros a Hin. apply list_elem_of_lookup in Hin as [i Hi]. assert (Hi' : archives !! S i = Some a) by (by rewrite Ea).
    eapply ancestry_lineage; [done|done|done|exact Hi'|]. by apply Hlin.
Qed.

(** A valid history grows by the next generation. *)
Lemma valid_history_snoc archives a :
  valid_history archives → agGeneration a = Z.of_nat (length archives) → lineage_valid archives (length archives) a →
  valid_history (archives ++ [a]).
Proof.
  intros (Hne & Hnum & Hlin) Hg Ha.
  assert (Hext : ∀ i x, lineage_valid archives i x → lineage_valid (archives ++ [a]) i x).
  { intros i x (p & parent & H1 & H2 & H3). exists p, parent. by rewrite (lookup_app_l_Some _ _ _ _ H2). }
  split_and!.
  - by destruct archives.
  - intros i x [H|[Hle H]]%lookup_app_Some; [by apply Hnum|].
    apply list_lookup_singleton_Some in H as [Hi <-]. rewrite Hg. lia.
  - intros i x [H|[Hle H]]%lookup_app_Some; [by apply Hext, Hlin|].
    apply list_lookup_singleton_Some in H as [Hi <-]. apply Hext. by replace (S i) with (length archives) by lia.
Qed.

(** ** A published archive reads back *)

Lemma scannable_null : scannable (bs "null").
Proof. intros n c t _. by split. Qed.

Lemma digits_not_null s : forallb strconv.is_digit s = true → is_null s = false.
Proof.
  intros Hs. assert (Hsk : ∀ s, forallb strconv.is_digit s = true → json.skip_space s = s).
  { intros [|b l] H; [done|]. cbn in H. apply andb_true_iff in H as [Hb _].
    destruct (digit_facts b Hb) as [_ Hsp]. cbn [json.skip_space]. by rewrite Hsp. }
  unfold is_null, trimJSON. rewrite (Hsk s Hs). rewrite Hsk.
  2: { rewrite forallb_forall in Hs |- *. intros b Hb. apply Hs. by apply in_rev. }
  rewrite rev_involutive. apply bool_decide_eq_false_2. intros ->. by vm_compute in Hs.
Qed.

Lemma parse_Itoa n : u64 n → parseJSONUnsigned (strconv.Itoa n) = Some n.
Proof.
  intros Hn. unfold parseJSONUnsigned. rewrite digits_not_null by apply (strconv.Itoa_spec n Hn).
  by apply decode_uint_Itoa.
Qed.

Lemma metadata_fields members g o p t :
  members = [(bs "generation", g); (bs "outcome", o); (bs "parent_generation", p); (bs "transition", t)] →
  let fields := json.fields_map members in
  size fields = 4%nat ∧ fields !! bs "generation" = Some g ∧ fields !! bs "outcome" = Some o
  ∧ fields !! bs "parent_generation" = Some p ∧ fields !! bs "transition" = Some t.
Proof. intros ->. vm_compute. by split_and!. Qed.

Definition parent_text (parent : option Z) : bytes := match parent with None => bs "null" | Some p => strconv.Itoa p end.

Lemma parent_text_good parent :
  (∀ p, parent = Some p → u64 p) → scannable (parent_text parent) ∧ utf8.Valid (parent_text parent) = true.
Proof.
  intros Hp. destruct parent as [p|]; [|split; [apply scannable_null|reflexivity]].
  specialize (Hp p eq_refl). split; [by apply scannable_uint|]. apply Valid_digits, (strconv.Itoa_spec p Hp).
Qed.

Lemma lineage_transition g parent transition :
  lineage_ok g parent transition = true →
  transition = bs "initial" ∨ transition = bs "successor" ∨ transition = bs "rollback".
Proof.
  unfold lineage_ok. destruct (g =? 0); [intros [_ H%bool_decide_eq_true]%andb_true_iff; by left|].
  destruct parent; [|done]. intros [_ [H%bool_decide_eq_true|H%bool_decide_eq_true]%orb_true_iff]%andb_true_iff; auto.
Qed.

(** The words of the metadata record. *)
Definition plain_word (w : bytes) : Prop :=
  json.encode_string w = literal w ∧ utf8.Valid w = true ∧ is_null (literal w) = false ∧ json.decode_string (literal w) = Some w.

Lemma metadata_words :
  plain_word (bs "completed") ∧ plain_word (bs "aborted") ∧ plain_word (bs "initial") ∧ plain_word (bs "successor") ∧ plain_word (bs "rollback").
Proof. vm_compute. by split_and!. Qed.

Lemma metadata_roundtrip g outcome parent transition :
  u64 g → (∀ p, parent = Some p → u64 p) → outcome = bs "completed" ∨ outcome = bs "aborted" →
  lineage_ok g parent transition = true →
  parseGenerationMetadata (archiveMetadata g outcome parent transition) g = Ok (mkMetadataParsed parent transition outcome).
Proof.
  intros Hg Hp Ho Hl. destruct metadata_words as (W1 & W2 & W3 & W4 & W5).
  assert (Wo : plain_word outcome) by (by destruct Ho as [->| ->]).
  assert (Wt : plain_word transition) by (destruct (lineage_transition _ _ _ Hl) as [->|[->| ->]]; done).
  destruct Wo as (Eo & Vo & No & Do), Wt as (Et & Vt & Nt & Dt). destruct (parent_text_good parent Hp) as [Sp Vp].
  unfold archiveMetadata. rewrite Eo, Et. fold (parent_text parent).
  set (members := [(bs "generation", _); _; _; _]).
  assert (HF : Forall (λ m, simple_key m.1 ∧ scannable m.2) members).
  { repeat apply Forall_cons_2; [..|constructor]; cbn [fst snd]; (split; [by apply simple_word|]);
      [by apply scannable_uint|apply scannable_literal|exact Sp|apply scannable_literal]. }
  assert (HV : utf8.Valid (json.encode_object members) = true).
  { unfold json.encode_object. apply Valid_app_both; [done|]. apply Valid_app_both; [|done]. apply Valid_members.
    repeat apply Forall_cons_2; [..|constructor]; cbn [fst snd]; (split; [reflexivity|]);
      [exact (Valid_digits _ (proj1 (strconv.Itoa_spec g Hg)))|exact (Valid_literal _ Vo)|exact Vp|exact (Valid_literal _ Vt)]. }
  unfold parseGenerationMetadata, decodeJSON_fields. rewrite HV, decode_encode_object by done. cbn [fmap option_fmap option_map].
  destruct (metadata_fields members (json.encode_uint g) (literal outcome) (parent_text parent) (literal transition) eq_refl)
    as (Fs & F1 & F2 & F3 & F4).
  set (fields := json.fields_map members) in *. clearbody fields.
  rewrite Fs, F1, F2, F3, F4. change (Z.of_nat 4 =? 4) with true. cbn [negb].
  unfold json.encode_uint. rewrite (parse_Itoa g Hg), Z.eqb_refl. cbn [negb]. rewrite Do, Nt, Dt.
  assert (Hc : negb (bool_decide (outcome = bs "completed")) && negb (bool_decide (outcome = bs "aborted")) = false)
    by (by destruct Ho as [->| ->]).
  rewrite Hc. destruct parent as [p|]; cbn [parent_text].
  - specialize (Hp p eq_refl). rewrite digits_not_null by apply (strconv.Itoa_spec p Hp). rewrite (parse_Itoa p Hp).
    cbn [mbind result_bind]. by rewrite Hl.
  - change (is_null (bs "null")) with true. cbn [mbind result_bind]. by rewrite Hl.
Qed.

Lemma metadata_short g outcome parent transition :
  outcome = bs "completed" ∨ outcome = bs "aborted" → lineage_ok g parent transition = true →
  len (archiveMetadata g outcome parent transition) ≤ archiveMetadataLimit.
Proof.
  intros Ho Hl. destruct metadata_words as (W1 & W2 & W3 & W4 & W5).
  assert (Wo : len (json.encode_string outcome) ≤ 11) by (by destruct Ho as [->| ->]).
  assert (Wt : len (json.encode_string transition) ≤ 11) by (destruct (lineage_transition _ _ _ Hl) as [->|[->| ->]]; done).
  assert (Wp : len (parent_text parent) ≤ 20) by (destruct parent; [apply len_Itoa_bound|done]).
  pose proof (len_Itoa_bound g). unfold archiveMetadata, parent_text in *.
  unfold json.encode_object, json.encode_uint. cbn [json.encode_members].
  rewrite !len_app, ?(@len_nil byte). unfold archiveMetadataLimit.
  repeat match goal with |- context [len (?f (bs ?s))] => let n := eval vm_compute in (len (f (bs s))) in change (len (f (bs s))) with n end.
  repeat match goal with |- context [len (bs ?s)] => let n := eval vm_compute in (len (bs s)) in change (len (bs s)) with n end.
  change (len [x0a]) with 1. change (len [x2c]) with 1. lia.
Qed.

(** The directory of an aborted archive has exactly the names it should. *)
Lemma aborted_names input refs base :
  validateArchiveNames (dirNames (abortedDirectory input refs))
    ([archiveBootName; archiveMetadataName; hardwareManifestName; abortedMarkerName; stdoutName; stderrName]
     ++ optional true abortReasonName ++ optional (negb (abCapacity input =? 0)) capacityFilename
     ++ optional (abHarness input) GenerationHarnessFilename
     ++ (if has_evidence input then [latestSuccessManifestName; latestSuccessSnapshotName] else [])
     ++ optional refs ReferencesFilename) base = Ok ().
Proof.
  unfold abortedDirectory. cbn [dirNames].
  by destruct (negb (abCapacity input =? 0)), (abHarness input), (has_evidence input), refs; vm_compute.
Qed.

Definition aborted_archive (run : bytes) (input : AbortedArchive) : ArchivedGeneration :=
  mkArchived (abGeneration input) (abParent input) (abTransition input) (bs "aborted") (archivePath run (abGeneration input))
    None (Some (abReason input)) (abHardware input) (savedCapacity (abCapacity input)).

Lemma Bytes_nonzero b : b ≠ 0 → Bytes b ≠ 0.
Proof. unfold Bytes. intros H. by rewrite (proj2 (Z.eqb_neq _ _) H). Qed.

Lemma savedCapacity_zero c : (savedCapacity c =? 0) = (c =? 0).
Proof.
  unfold savedCapacity. destruct (Z.eqb_spec c 0) as [|Hn]; [done|]. by rewrite (proj2 (Z.eqb_neq _ _) (Bytes_nonzero _ Hn)).
Qed.

Lemma published_reads run input refs es :
  u64 (abGeneration input) → (∀ p, abParent input = Some p → u64 p) →
  lineage_ok (abGeneration input) (abParent input) (abTransition input) = true →
  ValidateAbortReason (abReason input) = Ok () →
  readArchivedGeneration run (<[generationName (abGeneration input) := ArchiveEntry (abortedDirectory input refs)]> es)
    (abGeneration input) = Ok (aborted_archive run input).
Proof.
  intros Hg Hp Hl Hr. unfold readArchivedGeneration. rewrite lookup_insert_eq.
  pose proof (λ base, aborted_names input refs base) as Hnames. set (d := abortedDirectory input refs) in *.
  change (dirBootstrap d) with (@Ok bool refs).
  change (dirCapacity d) with (@Ok Z (savedCapacity (abCapacity input))).
  change (dirMetadata d) with (@Ok bytes (archiveMetadata (abGeneration input) (bs "aborted") (abParent input) (abTransition input))).
  change (dirHardware d) with (@Ok HardwareManifest (abHardware input)). change (dirArtifacts d) with (@None error).
  change (dirHarness d) with (@Ok bool (abHarness input)). unfold readArchiveArtifact at 1. cbn [mbind result_bind].
  pose proof (metadata_short (abGeneration input) (bs "aborted") (abParent input) (abTransition input) (or_intror eq_refl) Hl) as Hm.
  rewrite (proj2 (Z.ltb_ge _ _) Hm). cbn [mbind result_bind]. rewrite metadata_roundtrip by (done || by right).
  cbn [mbind result_bind mdOutcome mdParent mdTransition]. change (bool_decide (bs "aborted" = bs "completed")) with false. cbn match.
  assert (Hlen : (MaxAbortReasonBytes <? len (abReason input)) = false).
  { unfold ValidateAbortReason in Hr. do 2 (match type of Hr with (if ?c then _ else _) = _ => destruct c; [done|] end).
    by destruct (MaxAbortReasonBytes <? len (abReason input)). }
  unfold readAborted. change (dirAborted d) with (@Ok bytes AbortMarker).
  change (dirReason d) with (Some (@Ok bytes (abReason input))). change (dirEvidence d) with (if has_evidence input then Some (@None error) else None).
  change (readArchiveArtifact (Ok AbortMarker) archiveMetadataLimit) with (@Ok bytes AbortMarker). cbn [mbind result_bind].
  rewrite bool_decide_eq_true_2 by done. cbn [negb]. unfold readArchiveArtifact. cbn [mbind result_bind]. rewrite Hlen.
  cbn [mbind result_bind]. rewrite Hr. cbn [mbind result_bind].
  rewrite (bool_decide_eq_true_2 (is_Some (Some _))) by eauto. rewrite savedCapacity_zero.
  specialize (Hnames (generationName (abGeneration input))). by destruct (has_evidence input); cbn [mbind result_bind]; rewrite Hnames.
Qed.

(** ** Entries that are no archives *)

Definition hidden (name : bytes) : Prop := strings.HasPrefix name (bs "generation-") = false.

Definition same_archives (es es' : gmap bytes rundirent) : Prop :=
  ∀ name, strings.HasPrefix name (bs "generation-") = true → es !! name = es' !! name.

#[global] Instance same_archives_refl : Reflexive same_archives.
Proof. by intros es name. Qed.
#[global] Instance same_archives_sym : Symmetric same_archives.
Proof. intros es es' H name Hn. by rewrite H. Qed.
#[global] Instance same_archives_trans : Transitive same_archives.
Proof. intros a b c H1 H2 name Hn. by rewrite H1, H2. Qed.

Lemma same_insert name e es : hidden name → same_archives es (<[name := e]> es).
Proof. intros Hh n Hn. rewrite lookup_insert_ne; [done|]. intros ->. unfold hidden in Hh. congruence. Qed.

Lemma same_delete name es : hidden name → same_archives es (delete name es).
Proof. intros Hh n Hn. rewrite lookup_delete_ne; [done|]. intros ->. unfold hidden in Hh. congruence. Qed.

Lemma hidden_staging generation suffix : hidden (stagingName generation suffix).
Proof. reflexivity. Qed.

Lemma leave_same generation p es : same_archives es (leave generation p es).
Proof. unfold leave. destruct (pbLeft p); [|done]. by apply same_insert. Qed.

Section Same.
Context (run : bytes).

Lemma readArchived_same es es' g :
  same_archives es es' → readArchivedGeneration run es g = readArchivedGeneration run es' g.
Proof. intros H. unfold readArchivedGeneration. by rewrite (H _ (generationName_prefix g)). Qed.

Lemma archive_of_same es es' name : same_archives es es' → archive_of run es name = archive_of run es' name.
Proof.
  intros H. unfold archive_of. destruct (strings.HasPrefix _ _); [|done]. destruct (parseASCIIUnsigned _); [|done].
  by rewrite (readArchived_same es es').
Qed.

Lemma archive_of_entry es name a : archive_of run es name = Some a → strings.HasPrefix name (bs "generation-") = true ∧ is_Some (es !! name).
Proof.
  intros H. pose proof H as H'. unfold archive_of in H'. destruct (strings.HasPrefix _ _); [|done]. split; [done|].
  apply archive_of_name in H as (-> & _ & Hr). unfold readArchivedGeneration in Hr. destruct (es !! _); [by eexists|done].
Qed.

Lemma load_same es es' archives :
  same_archives es es' → LoadArchivedGenerations run es = Ok archives → LoadArchivedGenerations run es' = Ok archives.
Proof.
  intros Hs [-> HF]%load_iff. apply load_iff. rewrite Forall_forall in HF.
  assert (Hin : ∀ es1 es2 a, same_archives es1 es2 →
    a ∈ omap (archive_of run es1) (entry_names es1) → a ∈ omap (archive_of run es2) (entry_names es2)).
  { intros es1 es2 a H (name & _ & Hn)%list_elem_of_omap. apply list_elem_of_omap. exists name.
    rewrite <- (archive_of_same es1 es2) by done. split; [|done]. apply elem_of_entry_names.
    apply archive_of_entry in Hn as [Hp He]. by rewrite <- (H name Hp). }
  assert (Hnd : ∀ es0, NoDup (omap (archive_of run es0) (entry_names es0)))
    by (intros es0; eapply NoDup_fmap_1, (loaded_NoDup run es0)).
  split.
  - apply sorted_by_number; [|rewrite merge_sort_Permutation; apply loaded_NoDup|apply merge_sort_numbers..].
    rewrite !merge_sort_Permutation. apply NoDup_Permutation; [apply Hnd..|]. intros a. split; apply Hin; [done|by symmetry].
  - apply Forall_forall. intros name Hname Hp. rewrite <- (archive_of_same es es') by done. apply HF; [|done].
    apply elem_of_entry_names. rewrite (Hs name Hp). by apply elem_of_entry_names.
Qed.

End Same.

(** ** The gate keeps the history valid *)

Section Gate.
Context (run : bytes).

Lemma loaded_elem es archives a :
  LoadArchivedGenerations run es = Ok archives → a ∈ archives → archive_of run es (generationName (agGeneration a)) = Some a ∧ u64 (agGeneration a).
Proof.
  intros [-> _]%load_iff Hin. rewrite merge_sort_Permutation in Hin. apply list_elem_of_omap in Hin as (name & _ & Hn).
  pose proof (archive_of_name run es name a Hn) as (-> & Hu & _). done.
Qed.

Lemma loaded_inspect es archives g a :
  LoadArchivedGenerations run es = Ok archives → u64 g → readArchivedGeneration run es g = Ok a → a ∈ archives.
Proof.
  intros [-> HF]%load_iff Hg Hr. rewrite merge_sort_Permutation. apply list_elem_of_omap. exists (generationName g).
  rewrite archive_of_generation, Hr by done. split; [|done]. apply elem_of_entry_names.
  unfold readArchivedGeneration in Hr. destruct (es !! generationName g); [by eexists|done].
Qed.

Lemma loaded_entry es archives (i : nat) a :
  LoadArchivedGenerations run es = Ok archives → valid_history archives → archives !! i = Some a →
  is_Some (es !! generationName (Z.of_nat i)).
Proof.
  intros Hl (_ & Hnum & _) Hi. destruct (loaded_elem es archives a Hl) as [Ha _]; [by eapply list_elem_of_lookup_2|].
  rewrite (Hnum i a Hi) in Ha. apply archive_of_name in Ha as (_ & _ & Hr). rewrite (Hnum i a Hi) in Hr.
  unfold readArchivedGeneration in Hr. destruct (es !! generationName (Z.of_nat i)); [by eexists|done].
Qed.

Lemma loaded_length es archives :
  LoadArchivedGenerations run es = Ok archives → archives ≠ [] → contiguousFrom 0 archives = true →
  Z.of_nat (length archives) ≤ 2 ^ 64.
Proof.
  intros Hl Hne Hc. pose proof (proj1 (contiguousFrom_iff 0 archives) Hc) as Hnum. destruct (last archives) as [a|] eqn:Ea; [|by apply last_None in Ea].
  rewrite last_lookup in Ea. destruct (loaded_elem es archives a Hl) as [_ [_ Hu]]; [by eapply list_elem_of_lookup_2|].
  rewrite (Hnum _ _ Ea) in Hu. destruct archives; [done|]. cbn in *. lia.
Qed.

Lemma last_number archives latest :
  valid_history archives → last archives = Some latest → agGeneration latest = Z.of_nat (length archives) - 1.
Proof.
  intros (Hne & Hnum & _) Hl. rewrite last_lookup in Hl. rewrite (Hnum _ _ Hl). destruct archives; [done|]. cbn. lia.
Qed.

(** On what a directory loads, the check decides validity. *)
Lemma loaded_valid es archives :
  LoadArchivedGenerations run es = Ok archives → ValidateArchivedHistory archives = Ok () ↔ valid_history archives.
Proof.
  intros Hl. split; intros H.
  - apply ValidateArchivedHistory_iff; [|done]. unfold ValidateArchivedHistory in H.
    destruct (indexArchives archives ∅); [|done]. destruct (contiguousFrom 0 archives) eqn:Hc; [|done].
    destruct archives as [|x rest]; [done|]. eapply loaded_length; [exact Hl|done|done].
  - apply ValidateArchivedHistory_iff; [|done]. pose proof H as (Hne & Hnum & _). eapply loaded_length; [done|done|].
    apply contiguousFrom_iff. intros i a E. by rewrite (Hnum i a E).
Qed.

(** Where the run object stands in the history. *)
Definition at_gate (archives : list ArchivedGeneration) (r : CodexOSRun) : Prop :=
  match state r with
  | RuntimeStateAwaitingNextGeneration =>
      ∃ latest, last archives = Some latest ∧ generationNumber r = Some (agGeneration latest)
        ∧ (is_Some (runPending r) → Outcome latest = bs "completed")
  | RuntimeStateRunning =>
      ∃ n : nat, generationNumber r = Some (Z.of_nat n) ∧ u64 (Z.of_nat n) ∧ (n ≤ length archives)%nat
        ∧ (n = length archives → ∃ (p : nat) parent, currentParent r = Some (Z.of_nat p) ∧ archives !! p = Some parent
             ∧ Outcome parent = bs "completed"
             ∧ (currentTransition r = bs "successor" ∧ S p = n ∨ currentTransition r = bs "rollback" ∧ (S p < n)%nat))
  | _ => True
  end.

Definition gate_inv (archives : list ArchivedGeneration) (rd : CodexOSRun * rundir) : Prop :=
  LoadArchivedGenerations run (entries rd.2) = Ok archives ∧ valid_history archives ∧ at_gate archives rd.1.

Lemma gateLatest_last archives d latest :
  LoadArchivedGenerations run (entries d) = Ok archives → gateLatest run d = Ok latest →
  last archives = Some latest ∧ valid_history archives ∧ partialGenerationState (entries d) = [].
Proof.
  intros Hl. unfold gateLatest. case_bool_decide as Hp; cbn [negb]; [|done]. rewrite Hl. cbn [mbind result_bind].
  destruct (last archives) as [a|] eqn:El; [|done]. intros E. apply bind_Ok in E as ([] & Hv & E).
  do 2 (apply bind_Ok in E as (? & _ & E)). injection E as <-. split_and!; [done| |done]. by apply (loaded_valid (entries d)).
Qed.

Lemma gateSuccessor_completed d latest pending :
  gateSuccessor d latest = Ok pending → is_Some pending → Outcome latest = bs "completed".
Proof. unfold gateSuccessor. case_bool_decide; [done|]. intros [= <-]. by intros [? [=]]. Qed.

Lemma ReopenAtGate_inv archives d r : gate_inv archives (r, d) → gate_inv archives ((ReopenAtGate run d r).2, d).
Proof.
  intros (Hl & Hv & Hg). split_and!; [done|done|]. cbn [fst snd] in *. unfold ReopenAtGate.
  do 2 (match goal with |- context [if ?c then _ else _] => destruct c; [done|] end).
  destruct (gateLatest run d) as [latest|] eqn:El; [|done]. cbn [mbind result_bind].
  destruct (gateSuccessor d latest) as [pending|] eqn:Ep; [|done]. cbn.
  destruct (gateLatest_last archives d latest Hl El) as [Ha _]. exists latest. split_and!; [done|done|]. by eapply gateSuccessor_completed.
Qed.

(** Entering the next generation leaves the archives alone. *)
Lemma enterGeneration_inv archives next (p : nat) parent transition image handoff f d r :
  gate_inv archives (r, d) → next = Z.of_nat (length archives) → u64 next →
  archives !! p = Some parent → Outcome parent = bs "completed" →
  transition = bs "successor" ∧ S p = length archives ∨ transition = bs "rollback" ∧ (S p < length archives)%nat →
  gate_inv archives (enterGeneration run next (Z.of_nat p) transition image handoff f d r).2.
Proof.
  intros (Hl & Hv & Hg) -> Hu Hp Ho Ht. unfold enterGeneration.
  destruct (attachOperatorFeedback _ _ _ _ _) as [[fb|e] fbd]; [|by split_and!].
  split_and!; [done|done|]. cbn. exists (length archives). split_and!; [done|done|done|]. intros _. by exists p, parent.
Qed.

Lemma next_number archives latest :
  valid_history archives → last archives = Some latest → u64 (agGeneration latest) → agGeneration latest ≠ max_uint64 →
  wrap64 (agGeneration latest + 1) = Z.of_nat (length archives) ∧ u64 (Z.of_nat (length archives)).
Proof.
  intros Hv El Hu Hne. pose proof (last_number archives latest Hv El). unfold wrap64, u64, max_uint64 in *.
  rewrite Z.mod_small by lia. lia.
Qed.

Lemma latest_u64 d archives latest r :
  gate_inv archives (r, d) → last archives = Some latest → u64 (agGeneration latest).
Proof. intros (Hl & _ & _) El. eapply loaded_elem; [done|]. by eapply last_Some_elem_of. Qed.

Lemma ContinueGeneration_inv isRegular f archives d r :
  gate_inv archives (r, d) → gate_inv archives (ContinueGeneration run isRegular f d r).2.
Proof.
  intros Hinv. unfold ContinueGeneration. destruct (bool_decide (is_Some (retainedFinish r))); [done|].
  case_bool_decide as Hs; cbn [negb]; [|done].
  destruct (runPending r) as [pending|] eqn:Hp; [|done]. destruct (generationNumber r) as [parent|] eqn:Hn; [|done].
  destruct (Z.eqb_spec parent max_uint64); [done|]. destruct (negb _); [done|].
  destruct (ParseSourceSnapshotWithBudget _ _); [|done].
  pose proof Hinv as (Hl & Hv & Hg). cbn [fst] in Hg. unfold at_gate in Hg. rewrite Hs in Hg.
  destruct Hg as (latest & El & En & Ho). rewrite Hn in En. injection En as ->. rewrite Hp in Ho. specialize (Ho ltac:(by eexists)).
  destruct (next_number archives latest Hv El) as [Ew Hu]; [by eapply latest_u64|done|].
  pose proof (last_number archives latest Hv El) as Hlast. pose proof El as El'. rewrite last_lookup in El'.
  pose proof (lookup_lt_Some _ _ _ El') as Hlt.
  replace (agGeneration latest) with (Z.of_nat (pred (length archives))) at 2 by lia.
  eapply enterGeneration_inv; [done|done|by rewrite Ew|exact El'|done|]. left. split; [done|]. lia.
Qed.

Lemma ForkFromGeneration_inv isRegular g f archives d r :
  u64 g → gate_inv archives (r, d) → gate_inv archives (ForkFromGeneration run isRegular g f d r).2.
Proof.
  intros Hug Hinv. unfold ForkFromGeneration. destruct (bool_decide (is_Some (retainedFinish r))); [done|].
  case_bool_decide as Hs; cbn [negb]; [|done]. destruct (generationNumber r) as [current|] eqn:Hn; [|done].
  destruct (Z.leb_spec current g) as [|Hlt]; [done|]. destruct (Z.eqb_spec current max_uint64); [done|].
  unfold InspectGeneration. destruct (readArchivedGeneration run (entries d) g) as [a|] eqn:Er; [|done].
  case_bool_decide as Ho; cbn [negb]; [|done]. destruct (Handoff a); [|done].
  destruct (validateInheritedSource _ _ _); [|done]. destruct (negb _); [done|].
  pose proof Hinv as (Hl & Hv & Hg). cbn [fst] in Hg. unfold at_gate in Hg. rewrite Hs in Hg.
  destruct Hg as (latest & El & En & _). rewrite Hn in En. injection En as ->.
  destruct (next_number archives latest Hv El) as [Ew Hu]; [by eapply latest_u64|done|].
  pose proof (last_number archives latest Hv El) as Hlast.
  pose proof (loaded_inspect _ _ g a Hl Hug Er) as Hin. apply list_elem_of_lookup in Hin as [p Hp].
  destruct (readArchived_number run _ _ _ Er) as [Hag _]. pose proof Hv as (_ & Hnum & _). rewrite (Hnum p a Hp) in Hag.
  rewrite <- Hag. eapply enterGeneration_inv; [done|done|by rewrite Ew|done|done|]. right. split; [done|]. lia.
Qed.

(** Publishing an archive that reads back adds it at the end of what is loaded. *)
Lemma publish_loaded g populate frozen f archives es a :
  LoadArchivedGenerations run es = Ok archives → u64 g → (∀ b, b ∈ archives → agGeneration b < g) →
  (∀ directory refs, populate = Ok directory →
     readArchivedGeneration run (<[generationName g := ArchiveEntry (directory refs)]> es) g = Ok a) →
  let '(res, es') := publishArchive run g populate frozen f es in
  (same_archives es es' ∧ is_ok res = false)
  ∨ (LoadArchivedGenerations run es' = Ok (archives ++ [a]) ∧ (res = Ok a ∨ is_ok res = false)
     ∧ ∃ directory refs, populate = Ok directory ∧ es' = <[generationName g := ArchiveEntry (directory refs)]> es).
Proof.
  intros Hl Hg Hlt Hread. unfold publishArchive. case_bool_decide as Hex; [by left|].
  pose proof (leave_same g f es) as Hleave.
  destruct populate as [directory|]; [|by left]. destruct frozen as [refs|]; [|by left].
  specialize (Hread directory refs eq_refl).
  assert (Hload : LoadArchivedGenerations run (<[generationName g := ArchiveEntry (directory refs)]> es) = Ok (archives ++ [a]))
    by (apply load_insert; try done; by apply eq_None_not_Some).
  destruct (pbFault f); [right|by left|right]; (split_and!; [done| |by exists directory, refs]); [left|by right].
  unfold InspectGeneration. by rewrite Hread.
Qed.

Lemma history_below archives b : valid_history archives → b ∈ archives → agGeneration b < Z.of_nat (length archives).
Proof.
  intros (_ & Hnum & _) Hb. apply list_elem_of_lookup in Hb as [i Hi]. rewrite (Hnum i b Hi). apply lookup_lt_Some in Hi. lia.
Qed.

(** Publishing the running generation extends the history by it. *)
Lemma publish_extends input written frozen f archives es :
  LoadArchivedGenerations run es = Ok archives → valid_history archives →
  u64 (abGeneration input) → (∀ p, abParent input = Some p → u64 p) →
  lineage_ok (abGeneration input) (abParent input) (abTransition input) = true → ValidateAbortReason (abReason input) = Ok () →
  abGeneration input = Z.of_nat (length archives) →
  lineage_valid archives (length archives) (aborted_archive run input) →
  let '(res, es') := publishArchive run (abGeneration input)
    (_ ← saveCapacity (abCapacity input); _ ← written : result unit; Ok (abortedDirectory input)) frozen f es in
  (same_archives es es' ∧ is_ok res = false)
  ∨ (LoadArchivedGenerations run es' = Ok (archives ++ [aborted_archive run input])
     ∧ valid_history (archives ++ [aborted_archive run input])).
Proof.
  intros Hl Hv Hg Hp Hlin Hr Hn Hlv.
  pose proof (publish_loaded (abGeneration input) (_ ← saveCapacity (abCapacity input); _ ← written; Ok (abortedDirectory input))
    frozen f archives es (aborted_archive run input) Hl Hg) as H.
  destruct (publishArchive _ _ _ _ _ _) as [res es']. destruct H as [H|(H & _)]; [..|by left|right].
  - intros b Hb. rewrite Hn. by apply history_below.
  - intros directory refs E. apply bind_Ok in E as (? & _ & E). apply bind_Ok in E as (? & _ & [= <-]). by apply published_reads.
  - split; [done|]. by apply valid_history_snoc.
Qed.

Lemma AbortGeneration_inv valid reason boot written frozen f archives d r :
  gate_inv archives (r, d) →
  ∃ archives', archives `prefix_of` archives' ∧ gate_inv archives' (AbortGeneration run valid reason boot written frozen f d r).2.
Proof.
  intros Hinv. assert (Hsame : ∃ archives', archives `prefix_of` archives' ∧ gate_inv archives' (r, d)) by (by exists archives).
  unfold AbortGeneration. destruct (ValidateAbortReason reason) as [[]|] eqn:Hreason; [|done].
  case_bool_decide as Hs; cbn [negb]; [|done]. destruct (generationNumber r) as [g|] eqn:Hn; [|done].
  destruct (bool_decide _ || _); [done|]. destruct boot; [|done].
  set (input := mkAborted _ _ _ _ _ _ _ _). pose proof Hinv as (Hl & Hv & Hg). cbn [fst snd] in *. unfold at_gate in Hg. rewrite Hs in Hg.
  destruct Hg as (n & En & Hu & Hle & Hrun). rewrite Hn in En. injection En as ->.
  assert (Hstay : ∀ e es', same_archives (entries d) es' → ∃ archives', archives `prefix_of` archives' ∧
    gate_inv archives' (Err (A := unit) e, (r, mkRundir es' (feedback d) (capacityRecord d))).2).
  { intros e es' Hes. exists archives. split; [done|]. split_and!; [by eapply load_same|done|]. exact (proj2 (proj2 Hinv)). }
  unfold WriteAbortedArchive, validateArchiveMetadataInput.
  destruct (lineage_ok (abGeneration input) (abParent input) (abTransition input)) eqn:Hlin; [|by apply Hstay].
  destruct (valid (abHardware input)); [by apply Hstay|]. change (abReason input) with reason. rewrite Hreason. change (default (Ok ()) (abEvidence input)) with (Ok ()). cbn match.
  destruct (decide (n = length archives)) as [Heq|Hneq].
  - destruct (Hrun Heq) as (p & parent & Hpar & Hp & Ho & Ht). pose proof (lookup_lt_Some _ _ _ Hp) as Hplt.
    pose proof (publish_extends input written frozen f archives (entries d) Hl Hv Hu) as Hpub.
    assert (Hlv : lineage_valid archives (length archives) (aborted_archive run input)).
    { exists p, parent. split_and!; [done|done|done| |]; cbn; intros E;
        destruct Ht as [[Et ?]|[Et ?]]; rewrite Et in E; (lia || discriminate E). }
    assert (Hpu : ∀ q, abParent input = Some q → u64 q).
    { intros q E. cbn in E. rewrite Hpar in E. injection E as <-. unfold u64 in *. lia. }
    specialize (Hpub Hpu Hlin Hreason ltac:(cbn; by rewrite Heq) Hlv).
    destruct (publishArchive _ _ _ _ _ _) as [res es']. destruct Hpub as [[Hes Hres]|[Hl' Hv']].
    { destruct res; [done|by apply Hstay]. }
    exists (archives ++ [aborted_archive run input]). split; [by apply prefix_app_r|].
    destruct res; (split_and!; [exact Hl'|exact Hv'|]); cbn.
    + exists (aborted_archive run input). rewrite last_snoc. split_and!; [done|done|]. by intros [? [=]].
    + unfold at_gate. rewrite Hs, Hn. exists n. rewrite length_app. cbn. split_and!; [done|done|lia|]. lia.
  - assert (Hpb : publishArchive run (abGeneration input)
        (_ ← saveCapacity (abCapacity input); _ ← written; Ok (abortedDirectory input)) frozen f (entries d)
      = (Err (runtime_error (txt "generation archive already exists: " ++ [Lit (archivePath run (abGeneration input))])), entries d)).
    { unfold publishArchive. destruct (lookup_lt_is_Some_2 archives n) as [x Hx]; [lia|].
      rewrite bool_decide_eq_true_2; [done|]. by eapply loaded_entry. }
    rewrite Hpb. by apply Hstay.
Qed.

Lemma SetSourceCapacity_inv budget f archives d r :
  gate_inv archives (r, d) → gate_inv archives (SetSourceCapacity run budget f d r).2.
Proof.
  intros Hinv. unfold SetSourceCapacity. destruct (Budget_Validate budget); [|done].
  destruct (generationNumber r) as [g|] eqn:Hn; [|done].
  do 2 (match goal with |- context [if ?c then _ else _] => destruct c; [done|] end).
  match goal with |- context [match ?c with Ok _ => _ | Err _ => _ end] => destruct c; [|done] end.
  destruct Hinv as (Hl & Hv & Hg). destruct f; (split_and!; [done|done|]); unfold at_gate in *; cbn in *; rewrite ?Hn in *; done.
Qed.

(** ** Sequences of operations *)

(** One operation of the gate, with whatever the environment answers; a restart
    is a new run object on the same directory. *)
Inductive gate_step : CodexOSRun * rundir → CodexOSRun * rundir → Prop :=
| step_reopen r d : gate_step (r, d) ((ReopenAtGate run d r).2, d)
| step_continue isRegular f r d : gate_step (r, d) (ContinueGeneration run isRegular f d r).2
| step_fork isRegular g f r d : u64 g → gate_step (r, d) (ForkFromGeneration run isRegular g f d r).2
| step_abort valid reason boot written frozen f r d : gate_step (r, d) (AbortGeneration run valid reason boot written frozen f d r).2
| step_capacity budget f r d : gate_step (r, d) (SetSourceCapacity run budget f d r).2
| step_retain g r d : gate_step (r, d) ((RetainGenerationFinish g r).2, d)
| step_release g r d : gate_step (r, d) (ReleaseGenerationFinish g r, d)
| step_stop r d : gate_step (r, d) (clearStoppedState r, d)
| step_restart resolved ledger r r' d : NewCodexOSRun resolved ledger d = Ok r' → gate_step (r, d) (r', d).

Lemma new_run_gate resolved ledger d r archives : NewCodexOSRun resolved ledger d = Ok r → at_gate archives r.
Proof.
  unfold NewCodexOSRun. destruct resolved; [done|]. intros E. apply bind_Ok in E as (? & _ & E).
  by apply bind_Ok in E as (? & _ & [= <-]).
Qed.

Lemma gate_step_inv archives rd rd' :
  gate_inv archives rd → gate_step rd rd' → ∃ archives', archives `prefix_of` archives' ∧ gate_inv archives' rd'.
Proof.
  intros Hinv Hstep. assert (Hkeep : gate_inv archives rd' → ∃ archives', archives `prefix_of` archives' ∧ gate_inv archives' rd')
    by (intros H; by exists archives).
  destruct Hstep.
  - by apply Hkeep, ReopenAtGate_inv.
  - by apply Hkeep, ContinueGeneration_inv.
  - by apply Hkeep, ForkFromGeneration_inv.
  - by apply AbortGeneration_inv.
  - by apply Hkeep, SetSourceCapacity_inv.
  - apply Hkeep. unfold RetainGenerationFinish. by destruct (_ || _ || _ || _ || _).
  - apply Hkeep. unfold ReleaseGenerationFinish. by case_bool_decide.
  - apply Hkeep. destruct Hinv as (Hl & Hv & _). by split_and!.
  - apply Hkeep. destruct Hinv as (Hl & Hv & _). split_and!; [done|done|]. by eapply new_run_gate.
Qed.

Lemma gate_steps_inv archives rd rd' :
  gate_inv archives rd → rtc gate_step rd rd' → ∃ archives', archives `prefix_of` archives' ∧ gate_inv archives' rd'.
Proof.
  intros Hinv Hs. revert archives Hinv. induction Hs as [rd|rd rd1 rd2 Hstep _ IH]; intros archives Hinv; [by exists archives|].
  destruct (gate_step_inv archives rd rd1 Hinv Hstep) as (a1 & Hp1 & H1). destruct (IH a1 H1) as (a2 & Hp2 & H2).
  exists a2. split; [by transitivity a1|done].
Qed.
End Gate.

(** ** Claims *)

(** C12: from any run directory whose archives load and form a valid history, every
    sequence of opening, continuing, forking, aborting, leasing, changing the
    capacity, stopping and restarting, with the file system and the environment
    failing anywhere, leaves a directory whose archives load and form a valid
    history that extends the earlier one: archived generations never change, and a
    new one is numbered next with a completed parent of the right kind. *)
Theorem gate_preserves_history run resolved ledger d archives r r' d' :
  NewCodexOSRun resolved ledger d = Ok r → LoadArchivedGenerations run (entries d) = Ok archives → ValidateArchivedHistory archives = Ok () →
  rtc (gate_step run) (r, d) (r', d') →
  ∃ archives', LoadArchivedGenerations run (entries d') = Ok archives' ∧ archives `prefix_of` archives'
    ∧ ValidateArchivedHistory archives' = Ok ().
Proof.
  intros Hnew Hl Hv Hs. assert (Hinv : gate_inv run archives (r, d)).
  { split_and!; [done| |by eapply new_run_gate]. by apply (loaded_valid run (entries d)). }
  destruct (gate_steps_inv run archives _ _ Hinv Hs) as (archives' & Hp & Hl' & Hv' & _). exists archives'. split_and!; [done|done|].
  by apply (loaded_valid run (entries d')).
Qed.

(** A run with one completed generation, which is continued and then aborted. *)
Definition sample_hardware : HardwareManifest := mkHardware 1 (bs "test-v1") (bs "q35") (bs "kvm:tcg") (bs "qemu64") 1 128 (bs "std-vga") (bs "none") (Some []) (bs "9.0.0") (Some []).
Definition sample_source : bytes := put16 1 ++ lp16 (bs "seed/a") ++ lp32 (bs "x").
Definition sample_zero : archiveDirectory :=
  mkArchiveDir (Ok false) (Ok 0) (Ok (archiveMetadata 0 (bs "completed") None (bs "initial"))) (Ok sample_hardware) None (Ok false)
    None (Ok (bs "onwards")) (Ok sample_source) (Err missing_artifact) None None
    [archiveBootName; archiveMetadataName; hardwareManifestName; handoffName; sourceSnapshotName; sourceName;
     successorName; stdoutName; stderrName] (Ok (bs "kernel", bs "image")).
Definition sample_dir : rundir := mkRundir {[generationName 0 := ArchiveEntry sample_zero]} FbMissing (Ok 0).
Definition sample_archives : list ArchivedGeneration :=
  match LoadArchivedGenerations (bs "/run") (entries sample_dir) with Ok l => l | Err _ => [] end.
Definition sample_open : CodexOSRun := (ReopenAtGate (bs "/run") sample_dir (newRun 0 0)).2.
Definition sample_running : CodexOSRun * rundir :=
  (ContinueGeneration (bs "/run") (λ _, true) NoFault sample_dir sample_open).2.
Definition sample_aborted : CodexOSRun * rundir :=
  (AbortGeneration (bs "/run") (λ _, None) (bs "stuck") (Ok []) (Ok ()) (Ok false) NoFault sample_running.2 sample_running.1).2.

Lemma gate_preserves_history_witness :
  length sample_archives = 1%nat ∧ ∃ archives', LoadArchivedGenerations (bs "/run") (entries sample_aborted.2) = Ok archives'
    ∧ sample_archives `prefix_of` archives' ∧ ValidateArchivedHistory archives' = Ok () ∧ length archives' = 2%nat.
Proof.
  split; [vm_compute; reflexivity|].
  destruct (gate_preserves_history (bs "/run") None (Ok 0) sample_dir sample_archives (newRun 0 0) sample_aborted.1 sample_aborted.2) as (l & H1 & H2 & H3).
  - reflexivity.
  - vm_compute. reflexivity.
  - vm_compute. reflexivity.
  - apply rtc_l with (sample_open, sample_dir); [apply step_reopen|].
    apply rtc_l with sample_running; [apply step_continue|]. apply rtc_once.
    replace (sample_aborted.1, sample_aborted.2) with sample_aborted by (destruct sample_aborted; reflexivity).
    unfold sample_aborted. destruct sample_running as [r d] eqn:E. apply step_abort.
  - exists l. split; [exact H1|]. split; [exact H2|]. split; [exact H3|].
    vm_compute in H1. injection H1 as <-. reflexivity.
Defined.

(** ** The limit on feedback attachments

    An attachment may be read up to [operatorFeedbackLimit] bytes, 1 KiB more than
    the longest reason. The reason is stored as a JSON string, whose escapes can
    double its length, and nothing checks the size before the attachment is
    published. *)

(** 4700 quotation marks: an allowed reason. *)
Definition quoted_reason : bytes := replicate (Z.to_nat 4700) x22.

Definition locked_aborted : CodexOSRun * rundir :=
  (AbortGeneration (bs "/run") (λ _, None) quoted_reason (Ok []) (Ok ()) (Ok false) NoFault sample_running.2 sample_running.1).2.
Definition locked_forked : result unit * (CodexOSRun * rundir) :=
  ForkFromGeneration (bs "/run") (λ _, true) 0 NoFault locked_aborted.2 locked_aborted.1.

Lemma reopen_needs_feedback run d r :
  is_ok (loadOperatorFeedbackRecords (feedback d)) = false → is_ok (ReopenAtGate run d r).1 = false.
Proof.
  intros Hf. unfold ReopenAtGate. do 2 (match goal with |- context [if ?c then _ else _] => destruct c; [done|] end).
  unfold gateLatest. destruct (negb _); [done|].
  destruct (LoadArchivedGenerations run (entries d)); [|done]. cbn [mbind result_bind]. destruct (last _); [|done].
  destruct (ValidateArchivedHistory _); [|done]. cbn [mbind result_bind].
  by destruct (loadOperatorFeedbackRecords (feedback d)).
Qed.

(** an abort reason within the documented 8 KiB can make the run directory
    unusable: aborting with it and forking succeed and publish the feedback
    attachment, whose JSON text is larger than the limit it is read back with, so
    that from then on no run object can open this directory at the gate. *)
Theorem feedback_attachment_locks_run :
  ValidateAbortReason quoted_reason = Ok () ∧ locked_forked.1 = Ok ()
  ∧ ∀ run es capacity r, is_ok (ReopenAtGate run (mkRundir es (feedback locked_forked.2.2) capacity) r).1 = false.
Proof.
  split_and!; [vm_compute; reflexivity|vm_compute; reflexivity|]. intros run es capacity r.
  apply reopen_needs_feedback. vm_compute. reflexivity.
Qed.
