(* ===== verification/JsonTree.v ===== *)
(** * JSON values

    Nested JSON texts: the value tree of a text as package encoding/json reads it
    into Go data, the indented text [json.MarshalIndent] writes, and the helpers
    that decode a tree into the fields of a struct. A text that was written reads
    back as the tree it was written from. *)

From S2P Require Import Prelude GoStd Json FeatureStore FeatureProofs ArchiveRecord.
Open Scope Z_scope.

(** A number keeps its literal, an object its members in order. *)
Inductive jvalue :=
| JNull
| JBool (b : bool)
| JNumber (literal : bytes)
| JString (s : bytes)
| JArray (l : list jvalue)
| JObject (members : list (bytes * jvalue)).

Section jvalue_ind.
Variable P : jvalue → Prop.
Hypothesis Pnull : P JNull.
Hypothesis Pbool : ∀ b, P (JBool b).
Hypothesis Pnumber : ∀ w, P (JNumber w).
Hypothesis Pstring : ∀ s, P (JString s).
Hypothesis Parray : ∀ l, Forall P l → P (JArray l).
Hypothesis Pobject : ∀ l, Forall (λ m, P m.2) l → P (JObject l).

Fixpoint jvalue_nested (v : jvalue) : P v :=
  match v with
  | JNull => Pnull
  | JBool b => Pbool b
  | JNumber w => Pnumber w
  | JString s => Pstring s
  | JArray l =>
      Parray l ((fix go l : Forall P l :=
                   match l with [] => Forall_nil_2 P | x :: l => Forall_cons_2 P x l (jvalue_nested x) (go l) end) l)
  | JObject l =>
      Pobject l ((fix go l : Forall (λ m, P m.2) l :=
                    match l with
                    | [] => Forall_nil_2 _
                    | m :: l => Forall_cons_2 _ m l (jvalue_nested m.2) (go l)
                    end) l)
  end.
End jvalue_ind.

(** ** Reading *)

(** One value that starts here, with the rest of the text. The mutual loops share
    the fuel; [depth] is the nesting so far. *)
Fixpoint parse_value (fuel : nat) (depth : Z) (s : bytes) {struct fuel} : option (jvalue * bytes) :=
  match fuel with
  | O => None
  | S fuel =>
      match s with
      | [] => None
      | b :: r =>
          if decide (b = json.quote_) then
            rest ← json.scan_string r; Some (JString (json.unquote r), rest)
          else if decide (b = x7b) then
            if json.maxNestingDepth <? depth + 1 then None
            else match json.skip_space r with
                 | c :: r' => if decide (c = x7d) then Some (JObject [], r')
                              else '(l, rest) ← parse_members fuel (depth + 1) (c :: r'); Some (JObject l, rest)
                 | [] => None
                 end
          else if decide (b = x5b) then
            if json.maxNestingDepth <? depth + 1 then None
            else match json.skip_space r with
                 | c :: r' => if decide (c = x5d) then Some (JArray [], r')
                              else '(l, rest) ← parse_elements fuel (depth + 1) (c :: r'); Some (JArray l, rest)
                 | [] => None
                 end
          else if decide (b = x74) then rest ← json.scan_literal (bs "true") s; Some (JBool true, rest)
          else if decide (b = x66) then rest ← json.scan_literal (bs "false") s; Some (JBool false, rest)
          else if decide (b = x6e) then rest ← json.scan_literal (bs "null") s; Some (JNull, rest)
          else rest ← json.scan_number s; Some (JNumber (json.consumed s rest), rest)
      end
  end
with parse_elements (fuel : nat) (depth : Z) (s : bytes) {struct fuel} : option (list jvalue * bytes) :=
  match fuel with
  | O => None
  | S fuel =>
      '(v, rest) ← parse_value fuel depth (json.skip_space s);
      match json.skip_space rest with
      | c :: s =>
          if decide (c = x2c) then '(l, rest) ← parse_elements fuel depth s; Some (v :: l, rest)
          else if decide (c = x5d) then Some ([v], s) else None
      | [] => None
      end
  end
with parse_members (fuel : nat) (depth : Z) (s : bytes) {struct fuel} : option (list (bytes * jvalue) * bytes) :=
  match fuel with
  | O => None
  | S fuel =>
      match json.skip_space s with
      | b :: k =>
          if decide (b = json.quote_) then
            s ← json.scan_string k;
            match json.skip_space s with
            | c :: s =>
                if decide (c = x3a) then
                  '(v, rest) ← parse_value fuel depth (json.skip_space s);
                  match json.skip_space rest with
                  | c :: s =>
                      if decide (c = x2c) then
                        '(l, rest) ← parse_members fuel depth s; Some ((json.unquote k, v) :: l, rest)
                      else if decide (c = x7d) then Some ([(json.unquote k, v)], s) else None
                  | [] => None
                  end
                else None
            | [] => None
            end
          else None
      | [] => None
      end
  end.

(** [Decode] followed by a check that nothing but space remains. *)
Definition parse_text (text : bytes) : option jvalue :=
  '(v, rest) ← parse_value (2 * S (length text)) 0 (json.skip_space text);
  match json.skip_space rest with [] => Some v | _ => None end.

(** ** Writing *)

(** [MarshalIndent] also escapes the characters HTML gives a meaning. *)
Definition escape_html_ascii (b : byte) : bytes :=
  if bool_decide (b = x3c) || bool_decide (b = x3e) || bool_decide (b = x26)
  then bs "\u00" ++ strconv.hexbytes [b] else json.escape_ascii b.

(** The body of a string that is valid UTF-8. *)
Fixpoint escape_html (s : bytes) : bytes :=
  match s with
  | [] => []
  | b :: r =>
      match r with
      | c :: d :: r' =>
          if bool_decide (b = xe2) && bool_decide (c = x80) && bool_decide (d = xa8) then bs "\u2028" ++ escape_html r'
          else if bool_decide (b = xe2) && bool_decide (c = x80) && bool_decide (d = xa9) then bs "\u2029" ++ escape_html r'
          else escape_html_ascii b ++ escape_html r
      | _ => escape_html_ascii b ++ escape_html r
      end
  end.

(** A string literal whose body is escaped by [esc]. *)
Definition quoted (esc : bytes → bytes) (s : bytes) : bytes := [json.quote_] ++ esc s ++ [json.quote_].
Definition encode_html : bytes → bytes := quoted escape_html.

(** A line end and two blanks per level. *)
Definition newline (level : nat) : bytes := x0a :: replicate (2 * level) x20.

(** [MarshalIndent(v, "", two blanks)], or an [Encoder] with that indentation *)
Fixpoint indent (esc : bytes → bytes) (level : nat) (v : jvalue) : bytes :=
  match v with
  | JNull => bs "null"
  | JBool true => bs "true"
  | JBool false => bs "false"
  | JNumber w => w
  | JString s => quoted esc s
  | JArray [] => bs "[]"
  | JArray (x :: l) =>
      [x5b] ++ newline (S level) ++ indent esc (S level) x
      ++ flat_map (λ y, [x2c] ++ newline (S level) ++ indent esc (S level) y) l ++ newline level ++ [x5d]
  | JObject [] => bs "{}"
  | JObject ((k, x) :: l) =>
      [x7b] ++ newline (S level) ++ quoted esc k ++ bs ": " ++ indent esc (S level) x
      ++ flat_map (λ m, [x2c] ++ newline (S level) ++ quoted esc m.1 ++ bs ": " ++ indent esc (S level) m.2) l
      ++ newline level ++ [x7d]
  end.

Definition MarshalIndent (v : jvalue) : bytes := indent escape_html 0 v.

(** ** Strings read back *)

(** The escaped body, one character of the text at a time. *)
Inductive escaped : bytes → bytes → Prop :=
| escaped_nil : escaped [] []
| escaped_byte b s e : escaped s e → escaped (b :: s) (escape_html_ascii b ++ e)
| escaped_line s e : escaped s e → escaped (xe2 :: x80 :: xa8 :: s) (bs "\u2028" ++ e)
| escaped_paragraph s e : escaped s e → escaped (xe2 :: x80 :: xa9 :: s) (bs "\u2029" ++ e).

Lemma escape_html_escaped s : escaped s (escape_html s).
Proof.
  remember (length s) as n eqn:Hn. revert s Hn. induction (lt_wf n) as [n _ IH]. intros s ->.
  destruct s as [|b r]; [constructor|].
  pose proof (IH (length r) ltac:(cbn; lia) r eq_refl) as Hr.
  destruct r as [|c [|d r']]; try by apply escaped_byte.
  cbn [escape_html] in *. pose proof (IH (length r') ltac:(cbn; lia) r' eq_refl) as Hr'.
  destruct (bool_decide (b = xe2) && bool_decide (c = x80) && bool_decide (d = xa8)) eqn:E1.
  { zbool. subst. by apply escaped_line. }
  destruct (bool_decide (b = xe2) && bool_decide (c = x80) && bool_decide (d = xa9)) eqn:E2.
  { zbool. subst. by apply escaped_paragraph. }
  by apply escaped_byte.
Qed.

Lemma scan_html_byte b t : json.scan_string (escape_html_ascii b ++ t) = json.scan_string t.
Proof. destruct b; reflexivity. Qed.

Lemma unquote_html_byte b t : json.unquote (escape_html_ascii b ++ t) = b :: json.unquote t.
Proof. destruct b; reflexivity. Qed.

Lemma surrogates_html_byte b c t :
  surrogatesFrom (escape_html_ascii b ++ c :: t) = surrogatesFrom (c :: t).
Proof. destruct b; reflexivity. Qed.

Lemma scan_html s t : json.scan_string (escape_html s ++ json.quote_ :: t) = Some t.
Proof.
  induction (escape_html_escaped s) as [|b s e _ IH|s e _ IH|s e _ IH]; [done| | |]; rewrite <- app_assoc.
  - by rewrite scan_html_byte.
  - exact IH.
  - exact IH.
Qed.

Lemma unquote_html s t : json.unquote (escape_html s ++ json.quote_ :: t) = s.
Proof.
  induction (escape_html_escaped s) as [|b s e _ IH|s e _ IH|s e _ IH]; [done| | |]; rewrite <- app_assoc.
  - by rewrite unquote_html_byte, IH.
  - change (xe2 :: x80 :: xa8 :: json.unquote (e ++ json.quote_ :: t) = xe2 :: x80 :: xa8 :: s). by rewrite IH.
  - change (xe2 :: x80 :: xa9 :: json.unquote (e ++ json.quote_ :: t) = xe2 :: x80 :: xa9 :: s). by rewrite IH.
Qed.

Lemma surrogates_html s c t : surrogatesFrom (escape_html s ++ c :: t) = surrogatesFrom (c :: t).
Proof.
  induction (escape_html_escaped s) as [|b s e _ IH|s e _ IH|s e _ IH]; [done| | |]; rewrite <- app_assoc.
  - destruct (e ++ c :: t) as [|x r] eqn:E; [by destruct e|]. by rewrite surrogates_html_byte.
  - destruct (e ++ c :: t) as [|x r] eqn:E; [by destruct e|]. exact IH.
  - destruct (e ++ c :: t) as [|x r] eqn:E; [by destruct e|]. exact IH.
Qed.

(** ** UTF-8 of the written string *)

Lemma escape_html_high b s :
  (b2z b <? 0x80) = false → b ≠ xe2 → escape_html (b :: s) = b :: escape_html s.
Proof.
  intros Hb Hne. cbn [escape_html]. rewrite (bool_decide_eq_false_2 _ Hne). cbn [andb].
  assert (E : escape_html_ascii b = [b]).
  { unfold escape_html_ascii. rewrite !bool_decide_eq_false_2 by (intros ->; by vm_compute in Hb).
    cbn [orb]. by apply escape_ascii_high. }
  rewrite E. by destruct s as [|c [|d s]].
Qed.

Lemma cont_high b : utf8.cont b = true → (b2z b <? 0x80) = false ∧ b ≠ xe2.
Proof.
  intros Hb. split; [apply (in_range_high 0x80 0xBF b); [lia|exact Hb]|]. by intros ->.
Qed.

Lemma range_high lo hi b size p0 :
  utf8.lead p0 = Some (size, lo, hi) → utf8.in_range lo hi b = true → (b2z b <? 0x80) = false ∧ b ≠ xe2.
Proof.
  intros El Hb. apply cont_high. unfold utf8.cont, utf8.in_range in *. zbool.
  assert (0x80 ≤ lo ∧ hi ≤ 0xBF) as [? ?].
  { unfold utf8.lead in El.
    repeat match type of El with
    | (if ?c then _ else _) = _ => destruct c; [injection El; intros; subst; lia|]
    end. done. }
  apply andb_true_iff. split; apply Z.leb_le; lia.
Qed.

Lemma escape_html_low b s : (b2z b <? 0x80) = true → escape_html (b :: s) = escape_html_ascii b ++ escape_html s.
Proof.
  intros Hb. cbn [escape_html]. rewrite (bool_decide_eq_false_2 (b = xe2)) by (intros ->; by vm_compute in Hb).
  by destruct s as [|c [|d s]].
Qed.

Lemma escape_html_ascii_low b : (b2z b <? 0x80) = true → utf8.Valid (escape_html_ascii b) = true.
Proof. intros Hb. destruct b; try (vm_compute in Hb; discriminate Hb); by vm_compute. Qed.

(** The first character of a three-byte sequence is escaped as a whole or copied. *)
Lemma escape_html_three p0 b1 b2 s :
  (b2z p0 <? 0x80) = false → (b2z b1 <? 0x80) = false ∧ b1 ≠ xe2 → (b2z b2 <? 0x80) = false ∧ b2 ≠ xe2 →
  escape_html (p0 :: b1 :: b2 :: s) = p0 :: b1 :: b2 :: escape_html s
  ∨ escape_html (p0 :: b1 :: b2 :: s) = bs "\u2028" ++ escape_html s
  ∨ escape_html (p0 :: b1 :: b2 :: s) = bs "\u2029" ++ escape_html s.
Proof.
  intros H0 [H1 N1] [H2 N2].
  assert (Htail : escape_html (b1 :: b2 :: s) = b1 :: b2 :: escape_html s).
  { by rewrite !escape_html_high. }
  destruct (decide (p0 = xe2)) as [->|N0]; [|left; by rewrite escape_html_high, Htail].
  cbn [escape_html]. fold (escape_html (b1 :: b2 :: s)).
  case_match eqn:E; [by right; left|]. case_match eqn:E'; [by right; right|].
  left. change (escape_html_ascii xe2) with [xe2]. cbn [app]. f_equal. exact Htail.
Qed.

Lemma Valid_html s : utf8.Valid s = true → utf8.Valid (escape_html s) = true.
Proof.
  remember (length s) as n eqn:Hn. revert s Hn. induction (lt_wf n) as [n _ IH]. intros s -> Hv.
  destruct s as [|p0 r0]; [done|]. cbn [utf8.Valid] in Hv.
  destruct (b2z p0 <? 0x80) eqn:E0.
  { rewrite escape_html_low, utf8.Valid_app by (done || by apply escape_html_ascii_low).
    apply (IH (length r0)); [cbn; lia|done|done]. }
  destruct (utf8.lead p0) as [[[size lo] hi]|] eqn:El; [|done].
  destruct r0 as [|b1 r1]; [done|].
  destruct (utf8.in_range lo hi b1) eqn:E1; cbn [negb] in Hv; [|done].
  pose proof (range_high _ _ _ _ _ El E1) as H1.
  destruct (size =? 2) eqn:Es.
  { assert (p0 ≠ xe2) by (intros ->; vm_compute in El; injection El as <- _ _; done).
    destruct H1. rewrite !escape_html_high by done. cbn [utf8.Valid]. rewrite E0, El, E1, Es. cbn [negb].
    apply (IH (length r1)); [cbn; lia|done|done]. }
  destruct r1 as [|b2 r2]; [done|]. destruct (utf8.cont b2) eqn:E2; cbn [negb] in Hv; [|done].
  pose proof (cont_high _ E2) as H2.
  destruct (size =? 3) eqn:Es3.
  { pose proof (IH (length r2) ltac:(cbn; lia) r2 eq_refl Hv) as Hr.
    destruct (escape_html_three p0 b1 b2 r2 E0 H1 H2) as [-> | [-> | ->]];
      [|by rewrite utf8.Valid_app|by rewrite utf8.Valid_app].
    cbn [utf8.Valid]. rewrite E0, El, E1. cbn [negb]. rewrite Es, E2. cbn [negb]. by rewrite Es3. }
  destruct r2 as [|b3 r3]; [done|]. destruct (utf8.cont b3) eqn:E3; cbn [negb] in Hv; [|done].
  pose proof (cont_high _ E3) as H3.
  assert (p0 ≠ xe2) by (intros ->; vm_compute in El; injection El as <- _ _; done).
  destruct H1, H2, H3. rewrite !escape_html_high by done.
  cbn [utf8.Valid]. rewrite E0, El, E1. cbn [negb]. rewrite Es, E2. cbn [negb]. rewrite Es3, E3. cbn [negb].
  apply (IH (length r3)); [cbn; lia|done|done].
Qed.

Lemma Valid_quote esc s : utf8.Valid (esc s) = true → utf8.Valid (quoted esc s) = true.
Proof.
  intros Hs. unfold quoted. apply Valid_app_both; [done|]. apply Valid_app_both; [done|done].
Qed.

(** ** Values read back *)

(** What may follow a number. *)
Definition ends_number (rest : bytes) : Prop :=
  match rest with
  | [] => True
  | c :: _ => strconv.is_digit c = false ∧ c ≠ x2e ∧ c ≠ x65 ∧ c ≠ x45
  end.

(** A number literal as the encoder writes one. *)
Definition number_ok (w : bytes) : Prop :=
  (∃ b r, w = b :: r ∧ (b = x2d ∨ strconv.is_digit b = true))
  ∧ utf8.Valid w = true ∧ json.backslash ∉ w
  ∧ ∀ rest, ends_number rest → json.scan_number (w ++ rest) = Some rest.

Definition all_of {A} (P : A → Prop) (l : list A) : Prop := foldr (λ x Q, P x ∧ Q) True l.

Lemma all_of_Forall {A} (P : A → Prop) l : all_of P l ↔ Forall P l.
Proof. induction l as [|x l IH]; cbn; [done|]. by rewrite Forall_cons, <- IH. Qed.

(** A value the encoder can be given: its texts are UTF-8. *)
Fixpoint json_ok (v : jvalue) : Prop :=
  match v with
  | JNull | JBool _ => True
  | JNumber w => number_ok w
  | JString s => utf8.Valid s = true
  | JArray l => all_of json_ok l
  | JObject l => all_of (λ m, utf8.Valid m.1 = true ∧ json_ok m.2) l
  end.

Definition maximum (l : list nat) : nat := foldr Nat.max O l.

Fixpoint json_depth (v : jvalue) : nat :=
  match v with
  | JArray l => S (maximum (map json_depth l))
  | JObject l => S (maximum (map (λ m, json_depth m.2) l))
  | _ => O
  end.

Definition total (l : list nat) : nat := foldr Nat.add O l.

Lemma total_cons n l : total (n :: l) = (n + total l)%nat.
Proof. done. Qed.

(** The fuel the parser uses on a value. *)
Fixpoint json_fuel (v : jvalue) : nat :=
  match v with
  | JArray l => S (total (map (λ x, S (json_fuel x)) l))
  | JObject l => S (total (map (λ m, S (json_fuel m.2)) l))
  | _ => 1%nat
  end.

Lemma skip_blanks n t : json.skip_space (replicate n x20 ++ t) = json.skip_space t.
Proof. induction n as [|n IH]; [done|]. exact IH. Qed.

Lemma skip_newline level t : json.skip_space (newline level ++ t) = json.skip_space t.
Proof. unfold newline. cbn [app]. apply skip_blanks. Qed.

Lemma number_start b : b = x2d ∨ strconv.is_digit b = true →
  json.is_space b = false ∧ b ≠ json.quote_ ∧ b ≠ x7b ∧ b ≠ x5b ∧ b ≠ x74 ∧ b ≠ x66 ∧ b ≠ x6e ∧ b ≠ x7d ∧ b ≠ x5d.
Proof.
  intros [->|Hb]; [by vm_compute|]. destruct b; try (vm_compute in Hb; discriminate Hb); by vm_compute.
Qed.

Section Indented.
(** An escaping of string bodies that the scanner and the decoder undo. *)
Context (esc : bytes → bytes).
Hypothesis esc_scan : ∀ s t, utf8.Valid s = true → json.scan_string (esc s ++ json.quote_ :: t) = Some t.
Hypothesis esc_unquote : ∀ s t, utf8.Valid s = true → json.unquote (esc s ++ json.quote_ :: t) = s.

(** The first byte of a value is no space and closes nothing. *)
Lemma indent_head level v :
  json_ok v → ∃ b r, indent esc level v = b :: r ∧ json.is_space b = false ∧ b ≠ x7d ∧ b ≠ x5d.
Proof.
  destruct v as [|[]|w|s|[|x l]|[|[k x] l]]; intros Hv; try (by repeat eexists).
  destruct Hv as ((b & r & -> & Hb) & _). destruct (number_start b Hb) as (? & ? & ? & ? & ? & ? & ? & ? & ?).
  by exists b, r.
Qed.

Lemma skip_indent level v t : json_ok v → json.skip_space (indent esc level v ++ t) = indent esc level v ++ t.
Proof.
  intros Hv. destruct (indent_head level v Hv) as (b & r & -> & Hb & _). cbn [app json.skip_space]. by rewrite Hb.
Qed.

Lemma consumed_app_any w t : json.consumed (w ++ t) t = w.
Proof. unfold json.consumed. rewrite len_app. apply takeZ_app. lia. Qed.

Lemma ends_after level c t : c = x2c ∨ c = x7d ∨ c = x5d → ends_number (c :: t) ∧ ends_number (newline level ++ c :: t).
Proof. by intros [-> | [-> | ->]]. Qed.

Lemma parse_number fuel depth w rest :
  number_ok w → ends_number rest → parse_value (S fuel) depth (w ++ rest) = Some (JNumber w, rest).
Proof.
  intros ((b & r & E & Hb) & _ & _ & Hs) Hr. specialize (Hs rest Hr).
  pose proof (consumed_app_any w rest) as Hc. rewrite E in *. cbn [app] in *. cbn [parse_value].
  destruct (number_start b Hb) as (_ & ? & ? & ? & ? & ? & ? & _ & _).
  rewrite !decide_False by done. rewrite Hs. cbn [mbind option_bind]. by rewrite Hc.
Qed.

(** The parser reads [v] back in every context. *)
Definition reads (v : jvalue) : Prop :=
  ∀ level depth fuel rest,
    json_ok v → depth + Z.of_nat (json_depth v) ≤ json.maxNestingDepth → (json_fuel v ≤ fuel)%nat → ends_number rest →
    parse_value fuel depth (indent esc level v ++ rest) = Some (v, rest).

Definition shallow (depth : Z) (v : jvalue) : Prop := depth + Z.of_nat (json_depth v) ≤ json.maxNestingDepth.

Lemma maximum_bound {A} (f : A → nat) l n : (maximum (map f l) ≤ n)%nat → Forall (λ x, (f x ≤ n)%nat) l.
Proof.
  induction l as [|x l IH]; cbn [map]; intros H; constructor;
    change (Nat.max (f x) (maximum (map f l)) ≤ n)%nat in H; [lia|]. apply IH. lia.
Qed.

Lemma elements_read level depth rest x l fuel s :
  Forall (λ v, reads v ∧ json_ok v ∧ shallow depth v) (x :: l) →
  (total (map (λ v, S (json_fuel v)) (x :: l)) ≤ fuel)%nat →
  json.skip_space s = indent esc (S level) x ++ flat_map (λ y, [x2c] ++ newline (S level) ++ indent esc (S level) y) l
                      ++ newline level ++ x5d :: rest →
  parse_elements fuel depth s = Some (x :: l, rest).
Proof.
  revert x fuel s. induction l as [|y l IH]; intros x fuel s HF Hfuel Hs;
    apply Forall_cons in HF as [(Hx & Hok & Hd) HF]; cbn [map] in Hfuel; rewrite total_cons in Hfuel;
    (destruct fuel as [|fuel]; [lia|]); cbn [parse_elements]; rewrite Hs.
  - cbn [flat_map app]. rewrite Hx; [|done|done|lia|by apply (ends_after level x5d rest); right; right].
    cbn [mbind option_bind]. rewrite skip_newline. change (json.skip_space (x5d :: rest)) with (x5d :: rest).
    cbn match. by rewrite decide_False, decide_True.
  - cbn [flat_map]. rewrite <- !app_assoc. cbn [app].
    rewrite Hx; [|done|done|cbn [map] in *; lia|by apply (ends_after 0 x2c); left].
    cbn [mbind option_bind].
    match goal with |- context [json.skip_space (x2c :: ?t)] => change (json.skip_space (x2c :: t)) with (x2c :: t) end.
    cbn match. rewrite decide_True by done.
    rewrite (IH y fuel); [done|done|cbn [map] in *; lia|].
    rewrite skip_newline. apply Forall_cons in HF as [(_ & Hy & _) _]. by apply skip_indent.
Qed.

Lemma members_read level depth rest m l fuel s :
  Forall (λ m, reads m.2 ∧ (utf8.Valid m.1 = true ∧ json_ok m.2) ∧ shallow depth m.2) (m :: l) →
  (total (map (λ m, S (json_fuel m.2)) (m :: l)) ≤ fuel)%nat →
  json.skip_space s = quoted esc m.1 ++ bs ": " ++ indent esc (S level) m.2
    ++ flat_map (λ m, [x2c] ++ newline (S level) ++ quoted esc m.1 ++ bs ": " ++ indent esc (S level) m.2) l
    ++ newline level ++ x7d :: rest →
  parse_members fuel depth s = Some (m :: l, rest).
Proof.
  revert m fuel s. induction l as [|y l IH]; intros [k x] fuel s HF Hfuel Hs;
    apply Forall_cons in HF as [(Hx & (Hk & Hok) & Hd) HF]; cbn [fst snd] in *;
    cbn [map] in Hfuel; rewrite total_cons in Hfuel; cbn [snd] in Hfuel;
    (destruct fuel as [|fuel]; [lia|]); cbn [parse_members]; rewrite Hs;
    unfold quoted at 1; rewrite <- !app_assoc; cbn [app]; rewrite decide_True by done;
    rewrite esc_scan, esc_unquote by done; cbn [mbind option_bind];
    match goal with |- context [json.skip_space (bs ": " ++ ?t)] =>
      change (json.skip_space (bs ": " ++ t)) with (x3a :: x20 :: t) end;
    cbn match; rewrite decide_True by done;
    match goal with |- context [json.skip_space (x20 :: ?t)] =>
      change (json.skip_space (x20 :: t)) with (json.skip_space t) end; rewrite skip_indent by done.
  - cbn [flat_map app]. rewrite Hx; [|done|done|lia|by apply (ends_after level x7d rest); right; left].
    cbn [mbind option_bind]. rewrite skip_newline. change (json.skip_space (x7d :: rest)) with (x7d :: rest).
    cbn match. by rewrite decide_False, decide_True.
  - cbn [flat_map]. rewrite <- !app_assoc. cbn [app].
    rewrite Hx; [|done|done|cbn [map] in *; lia|by apply (ends_after 0 x2c); left].
    cbn [mbind option_bind].
    match goal with |- context [json.skip_space (x2c :: ?t)] => change (json.skip_space (x2c :: t)) with (x2c :: t) end.
    cbn match. rewrite decide_True by done.
    rewrite (IH y fuel); [done|done|cbn [map] in *; lia|]. rewrite <- !app_assoc. by rewrite skip_newline.
Qed.

Lemma reads_all v : reads v.
Proof.
  induction v as [|b|w|s|l IH|l IH] using jvalue_nested; intros level depth fuel rest Hok Hd Hf Hr;
    (destruct fuel as [|fuel]; [cbn in Hf; lia|]).
  - done.
  - by destruct b.
  - by apply parse_number.
  - unfold indent, quoted. cbn [app parse_value]. rewrite decide_True by done. rewrite <- app_assoc. cbn [app].
    by rewrite esc_scan, esc_unquote by done.
  - cbn [json_depth] in Hd. apply all_of_Forall in Hok. fold json_ok in Hok.
    assert (Hdeep : (json.maxNestingDepth <? depth + 1) = false) by (apply Z.ltb_ge; lia).
    destruct l as [|x l].
    { change (indent esc level (JArray []) ++ rest) with (x5b :: x5d :: rest). cbn [parse_value].
      rewrite !decide_False, Hdeep by done. done. }
    cbn [indent app parse_value]. rewrite <- !app_assoc. rewrite !decide_False, decide_True, Hdeep by done.
    pose proof (Forall_inv Hok) as Hx. rewrite skip_newline, skip_indent by done.
    destruct (indent_head (S level) x Hx) as (b & r & E & Hsp & _ & Hb). rewrite E. cbn [app].
    rewrite decide_False by done.
    rewrite (elements_read level (depth + 1) rest x l fuel); [done| | |].
    + pose proof (maximum_bound json_depth (x :: l) _ (le_n _)) as Hm.
      apply Forall_forall. intros v Hv. rewrite Forall_forall in IH, Hok, Hm. split_and!; [auto|auto|].
      specialize (Hm v Hv). unfold shallow. lia.
    + cbn [json_fuel] in Hf. lia.
    + rewrite E. cbn [app json.skip_space]. by rewrite Hsp.
  - cbn [json_depth] in Hd. apply all_of_Forall in Hok. fold json_ok in Hok.
    assert (Hdeep : (json.maxNestingDepth <? depth + 1) = false) by (apply Z.ltb_ge; lia).
    destruct l as [|[k x] l].
    { change (indent esc level (JObject []) ++ rest) with (x7b :: x7d :: rest). cbn [parse_value].
      rewrite !decide_False, decide_True, Hdeep by done. done. }
    cbn [indent app parse_value]. rewrite <- !app_assoc. rewrite decide_False, decide_True, Hdeep by done.
    rewrite skip_newline. unfold quoted at 1. rewrite <- !app_assoc. cbn [app].
    change (json.skip_space (json.quote_ :: ?t)) with (json.quote_ :: t). cbn match.
    rewrite decide_False by done.
    rewrite (members_read level (depth + 1) rest (k, x) l fuel); [done| | |].
    + pose proof (maximum_bound (λ m, json_depth m.2) ((k, x) :: l) _ (le_n _)) as Hm.
      apply Forall_forall. intros v Hv. rewrite Forall_forall in IH, Hok, Hm. refine (conj (IH v Hv) (conj (Hok v Hv) _)).
      specialize (Hm v Hv). unfold shallow. lia.
    + cbn [json_fuel] in Hf. lia.
    + change (quoted esc (k, x).1) with ([json.quote_] ++ esc k ++ [json.quote_]). by rewrite <- !app_assoc.
Qed.

(** ** The whole text *)

Lemma total_le {A} (f g : A → nat) l : Forall (λ x, (f x ≤ g x)%nat) l → (total (map f l) ≤ total (map g l))%nat.
Proof. induction 1 as [|x l Hx _ IH]; [done|]. cbn [map]. rewrite !total_cons. lia. Qed.

Lemma length_flat_map {A} (f : A → bytes) l : length (flat_map f l) = total (map (λ x, length (f x)) l).
Proof. induction l as [|x l IH]; [done|]. cbn [flat_map map]. by rewrite total_cons, length_app, IH. Qed.

Lemma total_mul {A} (f g : A → nat) l :
  Forall (λ x, (f x ≤ 2 * g x)%nat) l → (total (map f l) ≤ 2 * total (map g l))%nat.
Proof. induction 1 as [|x l Hx _ IH]; [done|]. cbn [map]. rewrite !total_cons. lia. Qed.

Lemma json_fuel_bound level v : json_ok v → (json_fuel v ≤ 2 * length (indent esc level v))%nat.
Proof.
  revert level. induction v as [|b|w|s|l IH|l IH] using jvalue_nested; intros level Hok.
  - cbn. lia.
  - destruct b; cbn; lia.
  - destruct Hok as ((b & r & -> & _) & _). cbn. lia.
  - cbn [indent json_fuel]. unfold quoted. rewrite !length_app. cbn. lia.
  - apply all_of_Forall in Hok. destruct l as [|x l]; [cbn; lia|]. cbn [indent json_fuel map]. fold json_ok in Hok.
    assert (Ht : (total (map (λ y, S (json_fuel y)) l)
      ≤ 2 * total (map (λ y, length ([x2c] ++ newline (S level) ++ indent esc (S level) y)) l))%nat).
    { apply total_mul. apply Forall_forall. intros y Hy. rewrite Forall_forall in IH, Hok.
      pose proof (IH y ltac:(set_solver) (S level) (Hok y ltac:(set_solver))). rewrite !length_app. cbn. lia. }
    pose proof (Forall_inv IH (S level) (Forall_inv Hok)).
    rewrite total_cons, !length_app, length_flat_map. cbn [length newline]. lia.
  - apply all_of_Forall in Hok. destruct l as [|[k x] l]; [cbn; lia|]. cbn [indent json_fuel map]. fold json_ok in Hok.
    assert (Ht : (total (map (λ m, S (json_fuel m.2)) l)
      ≤ 2 * total (map (λ m, length ([x2c] ++ newline (S level) ++ quoted esc m.1 ++ bs ": " ++ indent esc (S level) m.2)) l))%nat).
    { apply total_mul. apply Forall_forall. intros y Hy. rewrite Forall_forall in IH, Hok.
      pose proof (IH y ltac:(set_solver) (S level) (proj2 (Hok y ltac:(set_solver)))). rewrite !length_app. cbn. lia. }
    pose proof (Forall_inv IH (S level) (proj2 (Forall_inv Hok))). cbn [snd] in *.
    rewrite total_cons, !length_app, length_flat_map. cbn [length newline]. lia.
Qed.

(** A value that is written reads back, also before trailing white space. *)
Lemma parse_indented v space :
  json_ok v → Z.of_nat (json_depth v) ≤ json.maxNestingDepth → forallb json.is_space space = true →
  parse_text (indent esc O v ++ space) = Some v.
Proof.
  intros Hok Hd Hs. unfold parse_text. rewrite skip_indent by done.
  assert (Hskip : json.skip_space space = []).
  { clear -Hs. induction space as [|c s IH]; cbn in *; [done|]. apply andb_true_iff in Hs as [-> Hs]. auto. }
  rewrite (reads_all v O 0); [by cbn [mbind option_bind]; rewrite Hskip|done|lia| |].
  - pose proof (json_fuel_bound O v Hok). rewrite length_app. lia.
  - destruct space as [|c s]; [done|]. cbn in Hs. apply andb_true_iff in Hs as [Hc _].
    destruct c; try (vm_compute in Hc; discriminate Hc); done.
Qed.

Lemma Valid_blanks n : utf8.Valid (replicate n x20) = true.
Proof. induction n; done. Qed.
Lemma Valid_newline level : utf8.Valid (newline level) = true.
Proof. exact (Valid_blanks (2 * level)). Qed.

Lemma Valid_flat_map {A} (f : A → bytes) l : Forall (λ x, utf8.Valid (f x) = true) l → utf8.Valid (flat_map f l) = true.
Proof. induction 1 as [|x l Hx _ IH]; [done|]. cbn [flat_map]. by apply Valid_app_both. Qed.

(** Escaping keeps the text UTF-8. *)
Hypothesis esc_valid : ∀ s, utf8.Valid s = true → utf8.Valid (esc s) = true.

Lemma Valid_indented level v : json_ok v → utf8.Valid (indent esc level v) = true.
Proof.
  revert level. induction v as [|b|w|s|l IH|l IH] using jvalue_nested; intros level Hok.
  - done.
  - by destruct b.
  - by destruct Hok as (_ & ? & _).
  - by apply Valid_quote, esc_valid.
  - apply all_of_Forall in Hok. fold json_ok in Hok. destruct l as [|x l]; [done|]. cbn [indent].
    rewrite !Forall_cons in *. destruct IH as [IHx IH], Hok as [Hx Hok].
    repeat (apply Valid_app_both; [try done; try apply Valid_newline; try by apply IHx|]); [|done].
    apply Valid_flat_map. apply Forall_forall. intros y Hy. rewrite Forall_forall in IH, Hok.
    repeat (apply Valid_app_both; [done || apply Valid_newline|]). auto.
  - apply all_of_Forall in Hok. fold json_ok in Hok. destruct l as [|[k x] l]; [done|]. cbn [indent].
    rewrite !Forall_cons in *. cbn [fst snd] in *. destruct IH as [IHx IH], Hok as [[Hk Hx] Hok].
    repeat (apply Valid_app_both; [try done; try apply Valid_newline; try (by apply IHx); try by apply Valid_quote, esc_valid|]); [|done].
    apply Valid_flat_map. apply Forall_forall. intros y Hy. rewrite Forall_forall in IH, Hok.
    destruct (Hok y Hy) as [Hyk Hyv].
    repeat (apply Valid_app_both; [done || apply Valid_newline || by apply Valid_quote, esc_valid|]). auto.
Qed.
End Indented.

(** The text of [MarshalIndent]. *)
Lemma parse_text_indent v space :
  json_ok v → Z.of_nat (json_depth v) ≤ json.maxNestingDepth → forallb json.is_space space = true →
  parse_text (MarshalIndent v ++ space) = Some v.
Proof. apply parse_indented; intros; [apply scan_html|apply unquote_html]. Qed.

Lemma Valid_indent level v : json_ok v → utf8.Valid (indent escape_html level v) = true.
Proof. apply Valid_indented, Valid_html. Qed.

(** Pieces of text that the surrogate check passes over. *)
Definition no_surrogates (w : bytes) : Prop := ∀ c t, surrogatesFrom (w ++ c :: t) = surrogatesFrom (c :: t).

Lemma no_surrogates_app a b : no_surrogates a → no_surrogates b → no_surrogates (a ++ b).
Proof.
  intros Ha Hb c t. rewrite <- app_assoc. destruct b as [|x b]; [exact (Ha c t)|]. cbn [app].
  rewrite Ha. exact (Hb c t).
Qed.

Lemma no_surrogates_text w : json.backslash ∉ w → no_surrogates w.
Proof.
  induction w as [|b w IH]; intros Hb c t; [done|].
  assert (Hne : b ≠ json.backslash) by set_solver. specialize (IH ltac:(set_solver) c t). cbn [app].
  destruct (w ++ c :: t) as [|x r] eqn:E; [by destruct w|]. rewrite <- IH. cbn [surrogatesFrom].
  by rewrite (bool_decide_eq_false_2 _ Hne).
Qed.

Lemma no_surrogates_blank level : no_surrogates (newline level).
Proof.
  apply no_surrogates_text. unfold newline. rewrite not_elem_of_cons. split; [done|].
  intros H. apply elem_of_replicate_inv in H. done.
Qed.

Lemma no_surrogates_html s : no_surrogates (quoted escape_html s).
Proof.
  apply no_surrogates_app; [apply no_surrogates_text; set_solver|].
  apply no_surrogates_app; [|apply no_surrogates_text; set_solver]. intros c t. apply surrogates_html.
Qed.

Lemma no_surrogates_flat_map {A} (f : A → bytes) l : Forall (λ x, no_surrogates (f x)) l → no_surrogates (flat_map f l).
Proof. induction 1 as [|x l Hx _ IH]; [done|]. cbn [flat_map]. by apply no_surrogates_app. Qed.

Lemma no_surrogates_word w : forallb (λ b, negb (bool_decide (b = json.backslash))) w = true → no_surrogates w.
Proof.
  intros Hw. apply no_surrogates_text. intros Hin. rewrite forallb_true, Forall_forall in Hw. by specialize (Hw _ Hin).
Qed.

Ltac no_surrogates :=
  repeat (apply no_surrogates_app;
    [first [apply no_surrogates_blank | apply no_surrogates_html | (by apply no_surrogates_word) | idtac]|]).

Lemma no_surrogates_indent level v : json_ok v → no_surrogates (indent escape_html level v).
Proof.
  revert level. induction v as [|b|w|s|l IH|l IH] using jvalue_nested; intros level Hok.
  - by apply no_surrogates_word.
  - destruct b; by apply no_surrogates_word.
  - destruct Hok as (_ & _ & ? & _). by apply no_surrogates_text.
  - apply no_surrogates_html.
  - apply all_of_Forall in Hok. fold json_ok in Hok. destruct l as [|x l]; [by apply no_surrogates_word|]. cbn [indent].
    rewrite !Forall_cons in *. destruct IH as [IHx IH], Hok as [Hx Hok].
    no_surrogates; [by apply IHx| |by apply no_surrogates_word].
    apply no_surrogates_flat_map. apply Forall_forall. intros y Hy. rewrite Forall_forall in IH, Hok. no_surrogates. auto.
  - apply all_of_Forall in Hok. fold json_ok in Hok. destruct l as [|[k x] l]; [by apply no_surrogates_word|]. cbn [indent].
    rewrite !Forall_cons in *. cbn [fst snd] in *. destruct IH as [IHx IH], Hok as [[Hk Hx] Hok].
    no_surrogates; [by apply IHx| |by apply no_surrogates_word].
    apply no_surrogates_flat_map. apply Forall_forall. intros y Hy. rewrite Forall_forall in IH, Hok. no_surrogates.
    by apply IH, Hok.
Qed.

(** A written text with its final newline passes the surrogate check. *)
Lemma surrogates_text v : json_ok v → validJSONStringSurrogates (MarshalIndent v ++ [x0a]) = true.
Proof.
  intros Hok. unfold validJSONStringSurrogates, MarshalIndent.
  pose proof (no_surrogates_indent O v Hok x0a []) as H.
  destruct (indent_head escape_html O v Hok) as (b & r & E & _). rewrite E in *. cbn [app tail] in *.
  destruct (decide (b = json.backslash)) as [->|Hne].
  { exfalso. clear -E Hok. destruct v as [|[]|w|s|[|x l]|[|[k x] l]]; try discriminate E.
    cbn in E. subst w. destruct Hok as (_ & _ & Hn & _). set_solver. }
  destruct (r ++ [x0a]) as [|c t] eqn:Er; [by destruct r|]. cbn [surrogatesFrom] in H.
  by rewrite (bool_decide_eq_false_2 _ Hne) in H.
Qed.

(** The same without the newline, for an object. *)
Lemma surrogates_object m l : json_ok (JObject (m :: l)) → validJSONStringSurrogates (MarshalIndent (JObject (m :: l))) = true.
Proof.
  intros Hok. unfold validJSONStringSurrogates, MarshalIndent. destruct m as [k x]. cbn [indent].
  cbn [json_ok all_of foldr fst snd] in Hok. destruct Hok as [[_ Hx] Hl]. apply all_of_Forall in Hl.
  change (tail ([x7b] ++ ?t)) with t. cbn [app tail]. rewrite !app_assoc.
  match goal with |- surrogatesFrom (?p ++ [x7d]) = true => assert (Hp : no_surrogates p) end.
  { rewrite <- !app_assoc. no_surrogates; [by apply no_surrogates_indent| |apply no_surrogates_blank].
    apply no_surrogates_flat_map. eapply Forall_impl; [exact Hl|]. intros y [_ Hy].
    change (no_surrogates ([x2c] ++ newline 1 ++ quoted escape_html y.1 ++ bs ": " ++ indent escape_html 1 y.2)).
    no_surrogates. by apply no_surrogates_indent. }
  exact (Hp x7d []).
Qed.

Lemma maximum_le {A} (f : A → nat) l n : Forall (λ x, (f x ≤ n)%nat) l → (maximum (map f l) ≤ n)%nat.
Proof.
  induction 1 as [|x l Hx _ IH]; [cbn; lia|]. cbn [map].
  change (maximum (f x :: map f l)) with (Nat.max (f x) (maximum (map f l))). lia.
Qed.

Lemma number_ok_Itoa n : u64 n → number_ok (strconv.Itoa n).
Proof.
  intros Hn. destruct (strconv.Itoa_spec n Hn) as (Hd & _ & Hne). split_and!.
  - destruct (strconv.Itoa n) as [|b r]; [done|]. exists b, r. split; [done|]. right. cbn in Hd. by apply andb_true_iff in Hd as [? _].
  - by apply Valid_digits.
  - by apply digits_no_backslash.
  - intros rest Hr. destruct (decide (n = 0)) as [->|Hz].
    { change (strconv.Itoa 0) with [x30]. destruct rest as [|c t]; [done|]. destruct Hr as (_ & H1 & H2 & H3).
      unfold json.scan_number. cbn [app]. rewrite decide_False, decide_True by done. cbn [mbind option_bind].
      rewrite decide_False by done. cbn [mbind option_bind]. by rewrite !bool_decide_eq_false_2. }
    destruct (strconv.Itoa_head n Hn ltac:(destruct Hn; lia)) as (b & ds & E & Hb). rewrite E in *.
    cbn in Hd. apply andb_true_iff in Hd as [Hbd Hd]. destruct (digit_facts b Hbd) as [Hm _].
    unfold json.scan_number. cbn [app]. rewrite decide_False by done.
    rewrite decide_False by (intros ->; by vm_compute in Hb). rewrite Hbd. cbn [mbind option_bind].
    destruct rest as [|c t].
    + rewrite app_nil_r.
      assert (Hsd : json.skip_digits ds = []).
      { clear -Hd. induction ds as [|d ds IH]; cbn in *; [done|]. apply andb_true_iff in Hd as [-> Hd]. auto. }
      by rewrite Hsd.
    + destruct Hr as (Hc & H1 & H2 & H3). rewrite skip_digits_all by done. rewrite decide_False by done.
      cbn [mbind option_bind]. by rewrite !bool_decide_eq_false_2.
Qed.

(** ** Decoding into Go data

    A value is decoded over what the variable holds: a null leaves a string, a
    number or a struct as it is and makes a pointer or a slice nil; members of an
    object are taken in order, each over what an earlier one of the same name
    left. *)

Definition to_string (v : jvalue) (old : bytes) : option bytes :=
  match v with JNull => Some old | JString s => Some s | _ => None end.

Definition to_uint64 (v : jvalue) (old : Z) : option Z :=
  match v with JNull => Some old | JNumber w => strconv.ParseUint w | _ => None end.

(** [strconv.ParseInt] of a number literal, for a 64-bit [int]. *)
Definition parse_int (w : bytes) : option Z :=
  match w with
  | b :: r =>
      if decide (b = x2d) then n ← strconv.ParseUint r; if 2 ^ 63 <? n then None else Some (- n)
      else n ← strconv.ParseUint w; if 2 ^ 63 - 1 <? n then None else Some n
  | [] => None
  end.
Definition to_int (v : jvalue) (old : Z) : option Z :=
  match v with JNull => Some old | JNumber w => parse_int w | _ => None end.

Definition to_pointer {A} (elem : jvalue → A → option A) (zero : A) (v : jvalue) (old : option A) : option (option A) :=
  match v with JNull => Some None | _ => Some <$> elem v (default zero old) end.

(** The elements of an array, over those the slice had. *)
Fixpoint to_elements {A} (elem : jvalue → A → option A) (zero : A) (l : list jvalue) (old : list A) : option (list A) :=
  match l with
  | [] => Some []
  | v :: l => x ← elem v (default zero (head old)); xs ← to_elements elem zero l (tail old); Some (x :: xs)
  end.
Definition to_slice {A} (elem : jvalue → A → option A) (zero : A) (v : jvalue) (old : option (list A))
  : option (option (list A)) :=
  match v with
  | JNull => Some None
  | JArray l => Some <$> to_elements elem zero l (default [] old)
  | _ => None
  end.

(** [field key] decodes the member of that name; [None] is an unknown field. *)
Fixpoint to_fields {A} (field : bytes → jvalue → A → option A) (l : list (bytes * jvalue)) (old : A) : option A :=
  match l with
  | [] => Some old
  | (k, v) :: l => x ← field k v old; to_fields field l x
  end.
Definition to_struct {A} (field : bytes → jvalue → A → option A) (v : jvalue) (old : A) : option A :=
  match v with JNull => Some old | JObject l => to_fields field l old | _ => None end.

(** The encoder's side: a 64-bit number, an optional member. *)
Definition from_uint64 (n : Z) : jvalue := JNumber (strconv.Itoa n).
Definition omit_empty (empty : bool) (name : string) (v : jvalue) : list (bytes * jvalue) :=
  if empty then [] else [(bs name, v)].

Lemma to_from_uint64 n old : u64 n → to_uint64 (from_uint64 n) old = Some n.
Proof. apply strconv.ParseUint_Itoa. Qed.

Lemma to_int_from n old : 0 ≤ n < 2 ^ 63 → to_int (from_uint64 n) old = Some n.
Proof.
  intros Hn. assert (Hu : u64 n) by (unfold u64; lia).
  cbn [to_int from_uint64]. unfold parse_int.
  pose proof (strconv.ParseUint_Itoa n Hu) as Hp. destruct (strconv.Itoa_spec n Hu) as (Hd & _ & Hne).
  destruct (strconv.Itoa n) as [|b r] eqn:E; [done|]. cbn in Hd. apply andb_true_iff in Hd as [Hb _].
  destruct (digit_facts b Hb) as [Hm _]. rewrite decide_False, Hp by done. cbn [mbind option_bind].
  by rewrite (proj2 (Z.ltb_ge _ _)) by lia.
Qed.

Lemma json_ok_uint64 n : u64 n → json_ok (from_uint64 n).
Proof. apply number_ok_Itoa. Qed.

Lemma to_elements_map {A} (elem : jvalue → A → option A) (zero : A) (enc : A → jvalue) l :
  Forall (λ x, elem (enc x) zero = Some x) l → to_elements elem zero (map enc l) [] = Some l.
Proof. induction 1 as [|x l Hx _ IH]; [done|]. cbn [map to_elements head tail default]. by rewrite Hx, IH. Qed.

Lemma to_fields_app {A} (field : bytes → jvalue → A → option A) l k old :
  to_fields field (l ++ k) old = to_fields field l old ≫= to_fields field k.
Proof.
  revert old. induction l as [|[n v] l IH]; intros old; [done|]. cbn [app to_fields].
  destruct (field n v old) as [x|]; cbn [mbind option_bind]; [apply IH|done].
Qed.

(** ** What decoding guarantees *)

Lemma to_fields_inv {A} (P : A → Prop) (field : bytes → jvalue → A → option A) l old x :
  (∀ k v a b, P a → field k v a = Some b → P b) → P old → to_fields field l old = Some x → P x.
Proof.
  intros Hf. revert old. induction l as [|[k v] l IH]; intros old Ho H; cbn [to_fields] in H; [by injection H as <-|].
  apply bind_Some in H as (y & Hy & H). eauto.
Qed.

Lemma to_struct_inv {A} (P : A → Prop) (field : bytes → jvalue → A → option A) v old x :
  (∀ k v a b, P a → field k v a = Some b → P b) → P old → to_struct field v old = Some x → P x.
Proof.
  intros Hf Ho H. destruct v; cbn in H; try done; [by injection H as <-|]. by eapply to_fields_inv.
Qed.

Lemma to_elements_inv {A} (P : A → Prop) (elem : jvalue → A → option A) zero l old xs :
  (∀ v a b, P a → elem v a = Some b → P b) → P zero → Forall P old → to_elements elem zero l old = Some xs → Forall P xs.
Proof.
  intros He Hz. revert old xs. induction l as [|v l IH]; intros old xs Ho H; cbn [to_elements] in H; [by injection H as <-|].
  apply bind_Some in H as (y & Hy & H). apply bind_Some in H as (ys & Hys & H). injection H as <-. constructor.
  - eapply He; [|exact Hy]. destruct Ho; done.
  - eapply IH; [|exact Hys]. by destruct Ho.
Qed.

Lemma to_slice_inv {A} (P : A → Prop) (elem : jvalue → A → option A) zero v old xs :
  (∀ v a b, P a → elem v a = Some b → P b) → P zero → Forall P (default [] old) →
  to_slice elem zero v old = Some xs → Forall P (default [] xs).
Proof.
  intros He Hz Ho H. destruct v; cbn in H; try done; [by injection H as <-|].
  apply fmap_Some in H as (ys & Hys & ->). by eapply to_elements_inv.
Qed.

Lemma to_pointer_inv {A} (P : A → Prop) (elem : jvalue → A → option A) zero v old x :
  (∀ v a b, P a → elem v a = Some b → P b) → P zero → from_option P True old →
  to_pointer elem zero v old = Some x → from_option P True x.
Proof.
  intros He Hz Ho H. unfold to_pointer in H. destruct v; try (by injection H as <-);
    (apply fmap_Some in H as (y & Hy & ->); eapply He; [|exact Hy]; by destruct old).
Qed.

Lemma to_uint64_inv v old n : u64 old → to_uint64 v old = Some n → u64 n.
Proof. intros Ho H. destruct v; cbn in H; try done; [by injection H as <-|]. by eapply ParseUint_range. Qed.

(** Decoding one field of a struct leaves the others. *)
Ltac field_cases H :=
  repeat match type of H with
  | (if ?c then _ else _) = Some _ => destruct c; [apply fmap_Some in H as (? & H & ->)|]
  end; try discriminate H.

(** ** Values of type [any]

    A text decoded into an [any] with [UseNumber]: an object is a map, in which the
    last member of a name counts. *)

Definition member (name : bytes) (l : list (bytes * jvalue)) : option jvalue :=
  fold_left (λ found m, if bool_decide (m.1 = name) then Some m.2 else found) l None.

(** [value["name"]] of an object, [value["name"].(string)] *)
Definition get (name : string) (v : jvalue) : option jvalue :=
  match v with JObject l => member (bs name) l | _ => None end.
Definition get_string (name : string) (v : jvalue) : option bytes :=
  match get name v with Some (JString s) => Some s | _ => None end.
