(* ===== verification/OperatorLedger.v ===== *)
(** * The operator-request ledger (src/internal/store/operator_requests.go)

    Requests an operator makes about the guest, with an append-only attributed
    history each, in one JSON file per run; a run started from another run inherits
    the parent's ledger. Files are modelled by what opening them gives, the text of
    a ledger by the tree of [JsonTree]; the clock, the random source and the faults
    of the file system are arguments. *)

From S2P Require Import Prelude GoStd Sha256 Json FeatureStore ArchiveRecord JsonTree.
Open Scope Z_scope.

(** ** Parts of the standard library *)

Module hex.

(** [hex.DecodeString]; [None] is an error. *)
Fixpoint DecodeString (s : bytes) : option bytes :=
  match s with
  | [] => Some []
  | a :: b :: s =>
      x ← json.hex_value a; y ← json.hex_value b; rest ← DecodeString s; Some (z2b (16 * x + y) :: rest)
  | _ => None
  end.

(** [strings.ToLower] of an ASCII text *)
Definition lower (b : byte) : byte := if (65 <=? b2z b) && (b2z b <=? 90) then z2b (b2z b + 32) else b.
Definition ToLower (s : bytes) : bytes := lower <$> s.

End hex.

Module time.

Definition isDigit (b : byte) : bool := strconv.is_digit b.
Definition value (b : byte) : Z := b2z b - 48.

(** Two digits, and what follows them. *)
Definition two (s : bytes) : option (Z * bytes) :=
  match s with
  | a :: b :: r => if isDigit a && isDigit b then Some (10 * value a + value b, r) else None
  | _ => None
  end.

(** [getnum(value, false)]: one digit is enough. *)
Definition one_or_two (s : bytes) : option (Z * bytes) :=
  match s with
  | a :: r => if isDigit a then match two s with Some x => Some x | None => Some (value a, r) end else None
  | [] => None
  end.

Definition expect (c : byte) (s : bytes) : option bytes :=
  match s with b :: r => if decide (b = c) then Some r else None | [] => None end.

Definition isLeap (year : Z) : bool := (year mod 4 =? 0) && (negb (year mod 100 =? 0) || (year mod 400 =? 0)).
Definition daysIn (month year : Z) : Z :=
  if month =? 2 then if isLeap year then 29 else 28
  else if (month =? 4) || (month =? 6) || (month =? 9) || (month =? 11) then 30 else 31.

(** The optional fraction of the layout .999999999: any number of digits. *)
Definition fraction (s : bytes) : bytes :=
  match s with
  | c :: d :: r => if (bool_decide (c = x2e) || bool_decide (c = x2c)) && isDigit d then json.skip_digits r else s
  | _ => s
  end.

(** The zone of the layout Z07:00. *)
Definition zone (s : bytes) : option bytes :=
  match s with
  | c :: r =>
      if decide (c = x5a) then Some r
      else if bool_decide (c = x2b) || bool_decide (c = x2d) then
        '(hour, r) ← two r; r ← expect x3a r; '(minute, r) ← two r;
        if (24 <? hour) || (60 <? minute) then None else Some r
      else None
  | [] => None
  end.

(** Does [time.Parse(time.RFC3339Nano, s)] succeed? *)
Definition parses (s : bytes) : bool :=
  bool_decide (is_Some (
    '(century, r) ← two s; '(years, r) ← two r; let year := 100 * century + years in
    r ← expect x2d r; '(month, r) ← two r;
    r ← expect x2d r; '(day, r) ← two r;
    r ← expect x54 r; '(hour, r) ← one_or_two r;
    r ← expect x3a r; '(minute, r) ← two r;
    r ← expect x3a r; '(second, r) ← two r;
    r ← zone (fraction r);
    if (month <? 1) || (12 <? month) || (23 <? hour) || (59 <? minute) || (59 <? second)
       || (day <? 1) || (daysIn month year <? day) || negb (bool_decide (r = []))
    then None else Some year)).

End time.

(** ** Data *)

Definition OperatorRequestsFilename := bs "operator-requests.json".
Definition InheritedOperatorRequestsFilename := bs "cross-run-operator-requests.json".
Definition MaxOperatorRequests : Z := 128.
Definition MaxOperatorRequestTitleBytes : Z := 256.
Definition MaxOperatorRequestTextBytes : Z := 4096.
Definition MaxOperatorRequestEvidenceBytes : Z := 8192.
Definition maxOperatorLedgerBytes : Z := 16 * 1024 * 1024.

Record OperatorRequestActor := mkActor {
  Role : bytes;
  actName : bytes;
  actRunID : bytes;
  actGeneration : option Z;
  ThreadID : bytes;
  TurnID : bytes
}.

Record OperatorRequestRevision := mkRevision {
  rvRevision : Z;
  Action : bytes;
  Actor : OperatorRequestActor;
  Timestamp : bytes;
  Disposition : bytes;
  Explanation : bytes;
  Evidence : bytes;
  ReportRevision : Z
}.

Record OperatorRequest := mkOperatorRequest {
  rqID : Z;
  rqTitle : bytes;
  rqDescription : bytes;
  History : list OperatorRequestRevision
}.

Record OperatorRequestInheritance := mkInheritance {
  inRunID : bytes;
  inGeneration : Z;
  SHA256 : bytes
}.

(** [Requests] is nil or a slice. *)
Record OperatorRequestLedger := mkLedger {
  lgSchemaVersion : Z;
  lgRunID : bytes;
  lgRevision : Z;
  Inherited : option OperatorRequestInheritance;
  lgRequests : option (list OperatorRequest)
}.

#[global] Instance actor_eq_decision : EqDecision OperatorRequestActor.
Proof. solve_decision. Defined.
#[global] Instance revision_eq_decision : EqDecision OperatorRequestRevision.
Proof. solve_decision. Defined.
#[global] Instance request_eq_decision : EqDecision OperatorRequest.
Proof. solve_decision. Defined.

Definition requests_of (l : OperatorRequestLedger) : list OperatorRequest := default [] (lgRequests l).

(** [request.Revision()] and [request.Active()] *)
Definition Revision (r : OperatorRequest) : Z := len (History r).
Definition Active (r : OperatorRequest) : bool :=
  match last (History r) with None => false | Some e => negb (bool_decide (Action e = bs "withdraw")) end.

(** ** Validation *)

Definition operatorRequestText (value : bytes) (limit : Z) (field : string) : result unit :=
  if negb (utf8.Valid value) || forallb IsSpace (utf8.runes value) || (limit <? len value) then
    Err (PlainError (txt "operator request " ++ txt field ++ txt " must be non-empty UTF-8 text of at most "
                     ++ [Lit (strconv.Itoa limit)] ++ txt " bytes"))
  else Ok ().

Definition ValidateOperatorRequestText (title description : bytes) : result unit :=
  _ ← operatorRequestText title MaxOperatorRequestTitleBytes "title";
  operatorRequestText description MaxOperatorRequestTextBytes "description".

Definition operatorRunIDValid (value : bytes) : bool :=
  match hex.DecodeString value with
  | None => false
  | Some decoded => (len decoded =? 16) && bool_decide (value = hex.ToLower value)
  end.

Definition invalid_entry (message : string) : result bool := Err (PlainError (txt message)).

(** The action-specific part of an entry that is not the first: whether it withdraws. *)
Definition validateDecision (history : list OperatorRequestRevision) (entry : OperatorRequestRevision) : result bool :=
  let a := Actor entry in
  if bool_decide (Action entry = bs "disposition") then
    if negb (bool_decide (Role a = bs "implementor")) || negb (ReportRevision entry =? 0) then
      invalid_entry "invalid disposition attribution"
    else if bool_decide (Disposition entry ∈ [bs "pursuing"; bs "deferred"; bs "declined"]) then Ok false
    else if bool_decide (Disposition entry = bs "completed") then
      match operatorRequestText (Evidence entry) MaxOperatorRequestEvidenceBytes "completion evidence" with
      | Err _ => invalid_entry "reported completion requires evidence"
      | Ok _ => Ok false
      end
    else invalid_entry "unsupported operator request disposition"
  else if bool_decide (Action entry = bs "withdraw") || bool_decide (Action entry = bs "verify") then
    if negb (bool_decide (Role a = bs "operator")) || negb (bool_decide (Disposition entry = []))
       || negb (bool_decide (Evidence entry = [])) then invalid_entry "invalid operator request decision"
    else if bool_decide (Action entry = bs "withdraw") then
      if negb (ReportRevision entry =? 0) then invalid_entry "withdrawal cannot verify a report" else Ok true
    else if (ReportRevision entry =? 0) || (rvRevision entry <=? ReportRevision entry) then
      invalid_entry "verification must reference an earlier report"
    else match history !! Z.to_nat (ReportRevision entry - 1) with
         | None => invalid_entry "index out of range"
         | Some report =>
             if negb (bool_decide (Action report = bs "disposition")) || negb (bool_decide (Disposition report = bs "completed"))
                || negb (bool_decide (actRunID (Actor report) = actRunID a)) then
               invalid_entry "verification must reference a completion report in this run"
             else Ok false
         end
  else invalid_entry "unsupported operator request history action".

(** One turn of the loop over a history, at index [i]: is the request withdrawn now? *)
Definition validateEntry (history : list OperatorRequestRevision) (i : Z) (withdrawn : bool) (entry : OperatorRequestRevision)
  : result bool :=
  if withdrawn || negb (rvRevision entry =? i + 1) then
    invalid_entry "operator request history is not contiguous or follows withdrawal"
  else if negb (time.parses (Timestamp entry)) then invalid_entry "parsing time"
  else
    let a := Actor entry in
    if negb (operatorRunIDValid (actRunID a)) || negb (is_ok (operatorRequestText (actName a) 256 "author")) then
      invalid_entry "invalid operator request attribution"
    else
      let implementor := bool_decide (Role a = bs "implementor") in
      if implementor && (bool_decide (actGeneration a = None) || negb (is_ok (operatorRequestText (ThreadID a) 256 "thread"))
                         || negb (is_ok (operatorRequestText (TurnID a) 256 "turn"))) then
        invalid_entry "implementor attribution requires generation, thread, and turn"
      else if negb implementor && (negb (bool_decide (Role a = bs "operator")) || negb (bool_decide (ThreadID a = []))
                                   || negb (bool_decide (TurnID a = []))) then
        invalid_entry "invalid operator request actor"
      else if i =? 0 then
        if negb (bool_decide (Action entry = bs "create")) || negb (bool_decide (Role a = bs "operator"))
           || negb (bool_decide (Explanation entry = [])) || negb (bool_decide (Disposition entry = []))
           || negb (bool_decide (Evidence entry = [])) || negb (ReportRevision entry =? 0) then
          invalid_entry "invalid operator request creation"
        else Ok false
      else
        _ ← operatorRequestText (Explanation entry) MaxOperatorRequestTextBytes "explanation";
        if negb (utf8.Valid (Evidence entry)) || (MaxOperatorRequestEvidenceBytes <? len (Evidence entry)) then
          invalid_entry "operator request evidence exceeds its UTF-8 byte limit"
        else validateDecision history entry.

Fixpoint validateHistory (history entries : list OperatorRequestRevision) (i : Z) (withdrawn : bool) : result bool :=
  match entries with
  | [] => Ok withdrawn
  | entry :: entries => withdrawn ← validateEntry history i withdrawn entry; validateHistory history entries (i + 1) withdrawn
  end.

Definition malformed_history : error := PlainError (txt "malformed operator request history").

(** The loop over the requests, from an index on: the number of revisions. *)
Fixpoint validateRequests (requests : list OperatorRequest) (index revisions : Z) : result Z :=
  match requests with
  | [] => Ok revisions
  | request :: requests =>
      if negb (rqID request =? index + 1) || (len (History request) =? 0) || (4096 <? len (History request)) then
        Err malformed_history
      else
        _ ← ValidateOperatorRequestText (rqTitle request) (rqDescription request);
        _ ← validateHistory (History request) (History request) 0 false;
        validateRequests requests (index + 1) (revisions + len (History request))
  end.

Definition validateOperatorRequests (ledger : OperatorRequestLedger) : result unit :=
  if negb (lgSchemaVersion ledger =? 1) || negb (operatorRunIDValid (lgRunID ledger))
     || bool_decide (lgRequests ledger = None) || (MaxOperatorRequests <? len (requests_of ledger)) then
    Err (PlainError (txt "malformed operator request ledger"))
  else
    revisions ← validateRequests (requests_of ledger) 0 0;
    if negb (lgRevision ledger =? revisions) then
      Err (PlainError (txt "operator request ledger revision does not match its history"))
    else Ok ().

(** ** The text of a ledger *)

Definition zeroActor := mkActor [] [] [] None [] [].
Definition zeroRevision := mkRevision 0 [] zeroActor [] [] [] [] 0.
Definition zeroRequest := mkOperatorRequest 0 [] [] [].
Definition zeroInheritance := mkInheritance [] 0 [].
Definition zeroLedger := mkLedger 0 [] 0 None None.

Definition actor_field (key : bytes) (v : jvalue) (a : OperatorRequestActor) : option OperatorRequestActor :=
  let '(mkActor role name run generation thread turn) := a in
  if same_name key (bs "role") then (λ x, mkActor x name run generation thread turn) <$> to_string v role
  else if same_name key (bs "name") then (λ x, mkActor role x run generation thread turn) <$> to_string v name
  else if same_name key (bs "run_id") then (λ x, mkActor role name x generation thread turn) <$> to_string v run
  else if same_name key (bs "generation") then
    (λ x, mkActor role name run x thread turn) <$> to_pointer to_uint64 0 v generation
  else if same_name key (bs "thread_id") then (λ x, mkActor role name run generation x turn) <$> to_string v thread
  else if same_name key (bs "turn_id") then (λ x, mkActor role name run generation thread x) <$> to_string v turn
  else None.

Definition revision_field (key : bytes) (v : jvalue) (e : OperatorRequestRevision) : option OperatorRequestRevision :=
  let '(mkRevision revision action actor time disposition explanation evidence report) := e in
  if same_name key (bs "revision") then
    (λ x, mkRevision x action actor time disposition explanation evidence report) <$> to_uint64 v revision
  else if same_name key (bs "action") then
    (λ x, mkRevision revision x actor time disposition explanation evidence report) <$> to_string v action
  else if same_name key (bs "actor") then
    (λ x, mkRevision revision action x time disposition explanation evidence report) <$> to_struct actor_field v actor
  else if same_name key (bs "timestamp") then
    (λ x, mkRevision revision action actor x disposition explanation evidence report) <$> to_string v time
  else if same_name key (bs "disposition") then
    (λ x, mkRevision revision action actor time x explanation evidence report) <$> to_string v disposition
  else if same_name key (bs "explanation") then
    (λ x, mkRevision revision action actor time disposition x evidence report) <$> to_string v explanation
  else if same_name key (bs "evidence") then
    (λ x, mkRevision revision action actor time disposition explanation x report) <$> to_string v evidence
  else if same_name key (bs "report_revision") then
    (λ x, mkRevision revision action actor time disposition explanation evidence x) <$> to_uint64 v report
  else None.

(** A nil history counts as an empty one. *)
Definition request_field (key : bytes) (v : jvalue) (r : OperatorRequest) : option OperatorRequest :=
  let '(mkOperatorRequest id title description history) := r in
  if same_name key (bs "id") then (λ x, mkOperatorRequest x title description history) <$> to_uint64 v id
  else if same_name key (bs "title") then (λ x, mkOperatorRequest id x description history) <$> to_string v title
  else if same_name key (bs "description") then
    (λ x, mkOperatorRequest id title x history) <$> to_string v description
  else if same_name key (bs "history") then
    (λ x, mkOperatorRequest id title description (default [] x))
      <$> to_slice (to_struct revision_field) zeroRevision v (Some history)
  else None.

Definition inheritance_field (key : bytes) (v : jvalue) (i : OperatorRequestInheritance) : option OperatorRequestInheritance :=
  let '(mkInheritance run generation sha) := i in
  if same_name key (bs "run_id") then (λ x, mkInheritance x generation sha) <$> to_string v run
  else if same_name key (bs "generation") then (λ x, mkInheritance run x sha) <$> to_uint64 v generation
  else if same_name key (bs "sha256") then (λ x, mkInheritance run generation x) <$> to_string v sha
  else None.

Definition ledger_field (key : bytes) (v : jvalue) (l : OperatorRequestLedger) : option OperatorRequestLedger :=
  let '(mkLedger version run revision inherited requests) := l in
  if same_name key (bs "schema_version") then (λ x, mkLedger x run revision inherited requests) <$> to_int v version
  else if same_name key (bs "run_id") then (λ x, mkLedger version x revision inherited requests) <$> to_string v run
  else if same_name key (bs "revision") then
    (λ x, mkLedger version run x inherited requests) <$> to_uint64 v revision
  else if same_name key (bs "inherited") then
    (λ x, mkLedger version run revision x requests)
      <$> to_pointer (to_struct inheritance_field) zeroInheritance v inherited
  else if same_name key (bs "requests") then
    (λ x, mkLedger version run revision inherited x) <$> to_slice (to_struct request_field) zeroRequest v requests
  else None.

Definition actor_json (a : OperatorRequestActor) : jvalue :=
  JObject ([(bs "role", JString (Role a)); (bs "name", JString (actName a)); (bs "run_id", JString (actRunID a))]
           ++ (match actGeneration a with None => [] | Some g => [(bs "generation", from_uint64 g)] end)
           ++ omit_empty (bool_decide (ThreadID a = [])) "thread_id" (JString (ThreadID a))
           ++ omit_empty (bool_decide (TurnID a = [])) "turn_id" (JString (TurnID a))).

Definition revision_json (e : OperatorRequestRevision) : jvalue :=
  JObject ([(bs "revision", from_uint64 (rvRevision e)); (bs "action", JString (Action e));
            (bs "actor", actor_json (Actor e)); (bs "timestamp", JString (Timestamp e))]
           ++ omit_empty (bool_decide (Disposition e = [])) "disposition" (JString (Disposition e))
           ++ omit_empty (bool_decide (Explanation e = [])) "explanation" (JString (Explanation e))
           ++ omit_empty (bool_decide (Evidence e = [])) "evidence" (JString (Evidence e))
           ++ omit_empty (ReportRevision e =? 0) "report_revision" (from_uint64 (ReportRevision e))).

Definition request_json (r : OperatorRequest) : jvalue :=
  JObject [(bs "id", from_uint64 (rqID r)); (bs "title", JString (rqTitle r));
           (bs "description", JString (rqDescription r)); (bs "history", JArray (map revision_json (History r)))].

Definition inheritance_json (i : OperatorRequestInheritance) : jvalue :=
  JObject [(bs "run_id", JString (inRunID i)); (bs "generation", from_uint64 (inGeneration i));
           (bs "sha256", JString (SHA256 i))].

(** Only valid ledgers are written, whose schema version is 1. *)
Definition ledger_json (l : OperatorRequestLedger) : jvalue :=
  JObject ([(bs "schema_version", from_uint64 (lgSchemaVersion l)); (bs "run_id", JString (lgRunID l));
            (bs "revision", from_uint64 (lgRevision l))]
           ++ (match Inherited l with None => [] | Some i => [(bs "inherited", inheritance_json i)] end)
           ++ [(bs "requests", match lgRequests l with
                               | None => JNull
                               | Some requests => JArray (map request_json requests)
                               end)]).

Definition decodeOperatorRequests (data : bytes) : result OperatorRequestLedger :=
  if negb (utf8.Valid data) || negb (validJSONStringSurrogates data) then
    Err (PlainError (txt "operator request ledger contains invalid Unicode"))
  else match parse_text data ≫= λ v, to_struct ledger_field v zeroLedger with
  | None => Err (PlainError (txt "invalid JSON text"))
  | Some ledger => _ ← validateOperatorRequests ledger; Ok ledger
  end.

(** ** The files of a run *)

(** What opening a file gives: it does not exist, it cannot be read as a regular
    file, or its contents. *)
Abbreviation artifact := (option (result bytes)).

Record ledgerDirectory := mkDirectory {
  ledgerFile : artifact;
  inheritedFile : artifact
}.

Definition readCrossRunLimited (file : artifact) (limit : Z) : artifact :=
  match file with
  | Some (Ok contents) =>
      if limit <? len contents then Some (Err (PlainError (txt "cross-run provenance file exceeds 16 MiB")))
      else Some (Ok contents)
  | _ => file
  end.

(** Every entry from index [start] on was made in this run. *)
Definition attributed (run : bytes) (entries : list OperatorRequestRevision) : bool :=
  forallb (λ entry, bool_decide (actRunID (Actor entry) = run)) entries.

(** The loop over the requests beside those of the parent. *)
Fixpoint validateInherited (run : bytes) (requests parent : list OperatorRequest) : result unit :=
  match requests with
  | [] => Ok ()
  | request :: requests =>
      let start := match parent with [] => 0 | original :: _ => len (History original) end in
      let altered := match parent with
                     | [] => false
                     | original :: _ =>
                         negb (bool_decide (rqTitle request = rqTitle original))
                         || negb (bool_decide (rqDescription request = rqDescription original))
                         || (len (History request) <? start)
                         || negb (bool_decide (takeZ start (History request) = History original))
                     end in
      if altered then Err (PlainError (txt "inherited operator request history was altered"))
      else if negb (attributed run (dropZ start (History request))) then
        Err (PlainError (txt "new request history has foreign attribution"))
      else validateInherited run requests (tail parent)
  end.

Definition validateOperatorInheritance (d : ledgerDirectory) (ledger : OperatorRequestLedger) : result unit :=
  let data := readCrossRunLimited (inheritedFile d) maxOperatorLedgerBytes in
  match Inherited ledger with
  | None =>
      match data with
      | Some _ => Err (PlainError (txt "unexpected operator request inheritance record"))
      | None =>
          if forallb (λ request, attributed (lgRunID ledger) (History request)) (requests_of ledger) then Ok ()
          else Err (PlainError (txt "operator request attribution has an unknown run"))
      end
  | Some inherited =>
      match data with
      | None => Err (PlainError (txt "read inherited operator requests: file does not exist"))
      | Some (Err err) => Err (PlainError (txt "read inherited operator requests: " ++ Error err))
      | Some (Ok contents) =>
          parent ← decodeOperatorRequests contents;
          if negb (bool_decide (lgRunID parent = inRunID inherited)) || bool_decide (lgRunID parent = lgRunID ledger)
             || negb (bool_decide (sha256_hex contents = SHA256 inherited))
             || (len (requests_of ledger) <? len (requests_of parent)) then
            Err (PlainError (txt "operator request inheritance identity differs"))
          else validateInherited (lgRunID ledger) (requests_of ledger) (requests_of parent)
      end
  end.

Definition emptyLedger : OperatorRequestLedger := mkLedger 1 [] 0 None (Some []).

Definition readOperatorRequests (d : ledgerDirectory) : result OperatorRequestLedger :=
  match readCrossRunLimited (ledgerFile d) maxOperatorLedgerBytes with
  | None =>
      match inheritedFile d with
      | Some _ => Err (PlainError (txt "inherited operator request ledger is missing"))
      | None => Ok emptyLedger
      end
  | Some (Err err) => Err (PlainError (txt "read operator requests: " ++ Error err))
  | Some (Ok data) =>
      ledger ← decodeOperatorRequests data;
      _ ← validateOperatorInheritance d ledger;
      Ok ledger
  end.

Definition ledger_text (ledger : OperatorRequestLedger) : bytes := MarshalIndent (ledger_json ledger) ++ [x0a].

Definition writeOperatorRequests (ledger : OperatorRequestLedger) (f : fault) (d : ledgerDirectory)
  : result unit * ledgerDirectory :=
  match validateOperatorRequests ledger with
  | Err err => (Err err, d)
  | Ok _ =>
      let data := ledger_text ledger in
      if maxOperatorLedgerBytes <? len data then (Err (PlainError (txt "operator request history exceeds 16 MiB")), d)
      else match f with
      | BeforeRename err => (Err err, d)
      | NoFault => (Ok (), mkDirectory (Some (Ok data)) (inheritedFile d))
      | AfterRename err => (Err err, mkDirectory (Some (Ok data)) (inheritedFile d))
      end
  end.

(** ** Operations *)

(** [random] is what [rand.Read] gives. *)
Definition newOperatorRunID (random : result bytes) : result bytes := id ← random; Ok (strconv.hexbytes id).

(** What a change meets: a fault taking the lock, the random source, the clock as
    formatted text, and a fault of the write. *)
Record surroundings := mkSurroundings {
  lockFault : option error;
  randomBytes : result bytes;
  now : bytes;
  writeFault : fault
}.

Definition change (w : surroundings) (update : OperatorRequestLedger → result (OperatorRequest * OperatorRequestLedger))
    (d : ledgerDirectory) : result OperatorRequest * ledgerDirectory :=
  match lockFault w with
  | Some err => (Err err, d)
  | None =>
      match (ledger ← readOperatorRequests d;
             ledger ← (if bool_decide (lgRunID ledger = []) then
                         run ← newOperatorRunID (randomBytes w);
                         Ok (mkLedger (lgSchemaVersion ledger) run (lgRevision ledger) (Inherited ledger) (lgRequests ledger))
                       else Ok ledger);
             update ledger) with
      | Err err => (Err err, d)
      | Ok (request, ledger) =>
          match writeOperatorRequests ledger (writeFault w) d with
          | (Err err, d) => (Err err, d)
          | (Ok _, d) => (Ok request, d)
          end
      end
  end.

Definition with_run (run : bytes) (a : OperatorRequestActor) : OperatorRequestActor :=
  mkActor (Role a) (actName a) run (actGeneration a) (ThreadID a) (TurnID a).

Definition createUpdate (now : bytes) (actor : OperatorRequestActor) (title description : bytes)
    (ledger : OperatorRequestLedger) : result (OperatorRequest * OperatorRequestLedger) :=
  if MaxOperatorRequests <=? len (requests_of ledger) then Err (PlainError (txt "operator request limit reached"))
  else
    let entry := mkRevision 1 (bs "create") (with_run (lgRunID ledger) actor) now [] [] [] 0 in
    let request := mkOperatorRequest (len (requests_of ledger) + 1) title description [entry] in
    Ok (request, mkLedger (lgSchemaVersion ledger) (lgRunID ledger) (wrap64 (lgRevision ledger + 1)) (Inherited ledger)
                   (Some (requests_of ledger ++ [request]))).

Definition Create (w : surroundings) (actor : OperatorRequestActor) (title description : bytes) (d : ledgerDirectory)
  : result OperatorRequest * ledgerDirectory :=
  match ValidateOperatorRequestText title description with
  | Err err => (Err err, d)
  | Ok _ =>
      if negb (bool_decide (Role actor = bs "operator")) then
        (Err (PlainError (txt "only an operator can create an OS request")), d)
      else change w (createUpdate (now w) actor title description) d
  end.

Definition with_time (time : bytes) (e : OperatorRequestRevision) : OperatorRequestRevision :=
  mkRevision (rvRevision e) (Action e) (Actor e) time (Disposition e) (Explanation e) (Evidence e) (ReportRevision e).

Definition appendUpdate (now : bytes) (id expected : Z) (entry : OperatorRequestRevision)
    (ledger : OperatorRequestLedger) : result (OperatorRequest * OperatorRequestLedger) :=
  if (id =? 0) || (len (requests_of ledger) <? id) then Err (PlainError (txt "operator request does not exist"))
  else match requests_of ledger !! Z.to_nat (id - 1) with
  | None => Err (PlainError (txt "index out of range"))
  | Some request =>
      match last (History request) with
      | None => Err (PlainError (txt "index out of range"))
      | Some latest =>
          let entry := mkRevision (wrap64 (expected + 1)) (Action entry) (with_run (lgRunID ledger) (Actor entry))
                         (Timestamp latest) (Disposition entry) (Explanation entry) (Evidence entry) (ReportRevision entry) in
          if bool_decide (entry = latest) then Ok (request, ledger)
          else if negb (expected =? Revision request) then
            Err (PlainError (txt "operator request revision changed; use its latest presented revision"))
          else if negb (Active request) then Err (PlainError (txt "operator request is withdrawn"))
          else
            let request := mkOperatorRequest (rqID request) (rqTitle request) (rqDescription request)
                             (History request ++ [with_time now entry]) in
            Ok (request, mkLedger (lgSchemaVersion ledger) (lgRunID ledger) (wrap64 (lgRevision ledger + 1)) (Inherited ledger)
                           (Some (<[Z.to_nat (id - 1) := request]> (requests_of ledger))))
      end
  end.

Definition Append (w : surroundings) (id expected : Z) (entry : OperatorRequestRevision) (d : ledgerDirectory)
  : result OperatorRequest * ledgerDirectory :=
  change w (appendUpdate (now w) id expected entry) d.

(** [Snapshot], and opening a store, which is a first snapshot. *)
Definition Snapshot (d : ledgerDirectory) : result OperatorRequestLedger := readOperatorRequests d.
Definition NewOperatorRequestStore (d : ledgerDirectory) : result unit := _ ← Snapshot d; Ok ().

Definition crossRunRecordError (name : bytes) (err : error) : error :=
  CrossRunBootstrapError (txt "could not persist cross-run bootstrap record: " ++ [Lit name]) (Some err).

(** [writeCrossRunDurable] of the inherited record: the file must not exist. A failure
    comes with what it leaves: nothing when the file was not created or was removed
    again, or what had been written when its removal failed too. *)
Definition writeCrossRunDurable (contents : bytes) (failure : option (error * artifact)) (file : artifact) : result unit * artifact :=
  match file, failure with
  | Some _, _ => (Err (crossRunRecordError InheritedOperatorRequestsFilename (SystemError (txt "file exists"))), file)
  | None, Some (err, rest) => (Err (crossRunRecordError InheritedOperatorRequestsFilename err), rest)
  | None, None => (Ok (), Some (Ok contents))
  end.

Definition inheritOperatorRequests (source : ledgerDirectory) (generation : Z) (failure : option (error * artifact))
    (random : result bytes) (f : fault) (d : ledgerDirectory) : result unit * ledgerDirectory :=
  match readOperatorRequests source with
  | Err err => (Err err, d)
  | Ok ledger =>
      if bool_decide (lgRunID ledger = []) then (Ok (), d)
      else
        let data := MarshalIndent (ledger_json ledger) in
        match writeCrossRunDurable data failure (inheritedFile d) with
        | (Err err, file) => (Err err, mkDirectory (ledgerFile d) file)
        | (Ok _, file) =>
            let d := mkDirectory (ledgerFile d) file in
            match newOperatorRunID random with
            | Err err => (Err err, d)
            | Ok run =>
                writeOperatorRequests
                  (mkLedger (lgSchemaVersion ledger) run (lgRevision ledger)
                     (Some (mkInheritance (lgRunID ledger) generation (sha256_hex data))) (lgRequests ledger)) f d
            end
        end
  end.
