(* ===== verification/OperatorLedgerProofs.v ===== *)
(** * Operator-request ledger: what is written reads back, and history only grows *)

From S2P Require Import Prelude GoStd Sha256 Json FeatureStore FeatureProofs ArchiveRecord JsonTree OperatorLedger.
Open Scope Z_scope.

(** ** The fields of the records, one at a time *)

Create Rewrite HintDb fields.

Section fields.
Context (role name run thread turn time action disposition explanation evidence title description sha s : bytes).
Context (generation revision report id n version : Z) (g : option Z) (a x : OperatorRequestActor) (v : jvalue).
Context (h : list OperatorRequestRevision) (i : option OperatorRequestInheritance) (q : option (list OperatorRequest)).

Lemma actor_role : actor_field (bs "role") (JString s) (mkActor role name run g thread turn)
  = Some (mkActor s name run g thread turn).
Proof. reflexivity. Qed.
Lemma actor_name : actor_field (bs "name") (JString s) (mkActor role name run g thread turn)
  = Some (mkActor role s run g thread turn).
Proof. reflexivity. Qed.
Lemma actor_run : actor_field (bs "run_id") (JString s) (mkActor role name run g thread turn)
  = Some (mkActor role name s g thread turn).
Proof. reflexivity. Qed.
Lemma actor_generation : actor_field (bs "generation") (from_uint64 n) (mkActor role name run g thread turn)
  = (λ x, mkActor role name run (Some x) thread turn) <$> to_uint64 (from_uint64 n) (default 0 g).
Proof.
  change (actor_field (bs "generation") (from_uint64 n) (mkActor role name run g thread turn))
    with ((λ x, mkActor role name run x thread turn) <$> (Some <$> to_uint64 (from_uint64 n) (default 0 g))).
  by destruct (to_uint64 (from_uint64 n) (default 0 g)).
Qed.
Lemma actor_thread : actor_field (bs "thread_id") (JString s) (mkActor role name run g thread turn)
  = Some (mkActor role name run g s turn).
Proof. reflexivity. Qed.
Lemma actor_turn : actor_field (bs "turn_id") (JString s) (mkActor role name run g thread turn)
  = Some (mkActor role name run g thread s).
Proof. reflexivity. Qed.

Abbreviation rev_ := (mkRevision revision action a time disposition explanation evidence report).
Lemma revision_revision : revision_field (bs "revision") (from_uint64 n) rev_
  = (λ x, mkRevision x action a time disposition explanation evidence report) <$> to_uint64 (from_uint64 n) revision.
Proof. reflexivity. Qed.
Lemma revision_action : revision_field (bs "action") (JString s) rev_
  = Some (mkRevision revision s a time disposition explanation evidence report).
Proof. reflexivity. Qed.
Lemma revision_actor : revision_field (bs "actor") v rev_
  = (λ x, mkRevision revision action x time disposition explanation evidence report) <$> to_struct actor_field v a.
Proof. reflexivity. Qed.
Lemma revision_time : revision_field (bs "timestamp") (JString s) rev_
  = Some (mkRevision revision action a s disposition explanation evidence report).
Proof. reflexivity. Qed.
Lemma revision_disposition : revision_field (bs "disposition") (JString s) rev_
  = Some (mkRevision revision action a time s explanation evidence report).
Proof. reflexivity. Qed.
Lemma revision_explanation : revision_field (bs "explanation") (JString s) rev_
  = Some (mkRevision revision action a time disposition s evidence report).
Proof. reflexivity. Qed.
Lemma revision_evidence : revision_field (bs "evidence") (JString s) rev_
  = Some (mkRevision revision action a time disposition explanation s report).
Proof. reflexivity. Qed.
Lemma revision_report : revision_field (bs "report_revision") (from_uint64 n) rev_
  = (λ x, mkRevision revision action a time disposition explanation evidence x) <$> to_uint64 (from_uint64 n) report.
Proof. reflexivity. Qed.

Lemma request_id : request_field (bs "id") (from_uint64 n) (mkOperatorRequest id title description h)
  = (λ x, mkOperatorRequest x title description h) <$> to_uint64 (from_uint64 n) id.
Proof. reflexivity. Qed.
Lemma request_title : request_field (bs "title") (JString s) (mkOperatorRequest id title description h)
  = Some (mkOperatorRequest id s description h).
Proof. reflexivity. Qed.
Lemma request_description : request_field (bs "description") (JString s) (mkOperatorRequest id title description h)
  = Some (mkOperatorRequest id title s h).
Proof. reflexivity. Qed.
Lemma request_history : request_field (bs "history") v (mkOperatorRequest id title description h)
  = (λ x, mkOperatorRequest id title description (default [] x))
      <$> to_slice (to_struct revision_field) zeroRevision v (Some h).
Proof. reflexivity. Qed.

Lemma inheritance_run : inheritance_field (bs "run_id") (JString s) (mkInheritance run generation sha)
  = Some (mkInheritance s generation sha).
Proof. reflexivity. Qed.
Lemma inheritance_generation : inheritance_field (bs "generation") (from_uint64 n) (mkInheritance run generation sha)
  = (λ x, mkInheritance run x sha) <$> to_uint64 (from_uint64 n) generation.
Proof. reflexivity. Qed.
Lemma inheritance_sha : inheritance_field (bs "sha256") (JString s) (mkInheritance run generation sha)
  = Some (mkInheritance run generation s).
Proof. reflexivity. Qed.

Lemma ledger_version : ledger_field (bs "schema_version") v (mkLedger version run revision i q)
  = (λ x, mkLedger x run revision i q) <$> to_int v version.
Proof. reflexivity. Qed.
Lemma ledger_run : ledger_field (bs "run_id") (JString s) (mkLedger version run revision i q)
  = Some (mkLedger version s revision i q).
Proof. reflexivity. Qed.
Lemma ledger_revision : ledger_field (bs "revision") (from_uint64 n) (mkLedger version run revision i q)
  = (λ x, mkLedger version run x i q) <$> to_uint64 (from_uint64 n) revision.
Proof. reflexivity. Qed.
Lemma ledger_inherited : ledger_field (bs "inherited") v (mkLedger version run revision i q)
  = (λ x, mkLedger version run revision x q) <$> to_pointer (to_struct inheritance_field) zeroInheritance v i.
Proof. reflexivity. Qed.
Lemma ledger_requests : ledger_field (bs "requests") v (mkLedger version run revision i q)
  = (λ x, mkLedger version run revision i x) <$> to_slice (to_struct request_field) zeroRequest v q.
Proof. reflexivity. Qed.

End fields.

#[export] Hint Rewrite actor_role actor_name actor_run actor_generation actor_thread actor_turn
  revision_revision revision_action revision_actor revision_time revision_disposition revision_explanation
  revision_evidence revision_report request_id request_title request_description request_history
  inheritance_run inheritance_generation inheritance_sha
  ledger_version ledger_run ledger_revision ledger_inherited ledger_requests : fields.

Lemma to_fields_cons {A} (field : bytes → jvalue → A → option A) k v l old :
  to_fields field ((k, v) :: l) old = field k v old ≫= to_fields field l.
Proof. done. Qed.

(** One member after the other. *)
Ltac read_fields :=
  cbn [mbind option_bind fmap option_fmap option_map];
  repeat (rewrite to_fields_cons; autorewrite with fields; cbn [mbind option_bind fmap option_fmap option_map]).

(** ** Records read back *)

(** The machine ranges of the numbers. *)
Definition actor_range (a : OperatorRequestActor) : Prop := from_option u64 True (actGeneration a).
Definition revision_range (e : OperatorRequestRevision) : Prop :=
  actor_range (Actor e) ∧ u64 (rvRevision e) ∧ u64 (ReportRevision e).
Definition request_range (r : OperatorRequest) : Prop := u64 (rqID r) ∧ Forall revision_range (History r).
Definition ledger_range (l : OperatorRequestLedger) : Prop :=
  u64 (lgRevision l) ∧ from_option (λ i, u64 (inGeneration i)) True (Inherited l) ∧ Forall request_range (requests_of l).

Lemma actor_reads a : actor_range a → to_struct actor_field (actor_json a) zeroActor = Some a.
Proof.
  destruct a as [role name run g thread turn]. intros Hg. unfold actor_json, zeroActor.
  cbn [Role actName actRunID actGeneration ThreadID TurnID to_struct app]. read_fields.
  destruct g as [g|]; cbn [app]; unfold omit_empty; read_fields;
    [rewrite to_from_uint64 by exact Hg; read_fields|];
    (destruct (bool_decide_reflect (thread = [])) as [-> | _]; cbn [app]; read_fields);
    (destruct (bool_decide_reflect (turn = [])) as [-> | _]; cbn [app]; read_fields); done.
Qed.

Lemma revision_reads e : revision_range e → to_struct revision_field (revision_json e) zeroRevision = Some e.
Proof.
  destruct e as [revision action a time disposition explanation evidence report]. intros (Ha & Hr & Hp). cbn in Ha, Hr, Hp.
  unfold revision_json, zeroRevision.
  cbn [rvRevision Action Actor Timestamp Disposition Explanation Evidence ReportRevision to_struct app].
  read_fields. rewrite to_from_uint64 by done. read_fields. rewrite actor_reads by done. read_fields. unfold omit_empty.
  destruct (bool_decide_reflect (disposition = [])) as [-> | _]; cbn [app]; read_fields;
  (destruct (bool_decide_reflect (explanation = [])) as [-> | _]; cbn [app]; read_fields);
  (destruct (bool_decide_reflect (evidence = [])) as [-> | _]; cbn [app]; read_fields);
  (destruct (Z.eqb_spec report 0) as [-> | _]; cbn [app]; read_fields; [|rewrite to_from_uint64 by done]); done.
Qed.

Lemma request_reads r : request_range r → to_struct request_field (request_json r) zeroRequest = Some r.
Proof.
  destruct r as [id title description h]. intros (Hi & Hh). cbn in Hi, Hh. unfold request_json, zeroRequest.
  cbn [rqID rqTitle rqDescription History to_struct]. read_fields. rewrite to_from_uint64 by done. read_fields.
  cbn [to_slice default]. rewrite (to_elements_map _ _ revision_json); [done|].
  eapply Forall_impl; [exact Hh|]. apply revision_reads.
Qed.

Lemma inheritance_reads i : u64 (inGeneration i) → to_struct inheritance_field (inheritance_json i) zeroInheritance = Some i.
Proof.
  destruct i as [run g sha]. intros Hg. cbn in Hg. unfold inheritance_json, zeroInheritance.
  cbn [inRunID inGeneration SHA256 to_struct]. read_fields. rewrite to_from_uint64 by done. by read_fields.
Qed.

Lemma ledger_reads l :
  ledger_range l → lgSchemaVersion l = 1 → to_struct ledger_field (ledger_json l) zeroLedger = Some l.
Proof.
  destruct l as [version run revision i q]. intros (Hr & Hi & Hq) Hv. cbn in Hr, Hi, Hq, Hv. subst version.
  unfold ledger_json, zeroLedger. cbn [lgSchemaVersion lgRunID lgRevision Inherited lgRequests to_struct app].
  read_fields. rewrite to_int_from by lia. read_fields. rewrite to_from_uint64 by done. read_fields.
  assert (Hlast : ∀ i, to_fields ledger_field [(bs "requests",
      match q with Some requests => JArray (map request_json requests) | None => JNull end)]
      (mkLedger 1 run revision i None) = Some (mkLedger 1 run revision i q)).
  { intros j. read_fields. destruct q as [q|]; [|done]. cbn [to_slice default].
    rewrite (to_elements_map _ _ request_json); [done|]. eapply Forall_impl; [exact Hq|]. apply request_reads. }
  destruct i as [i|]; cbn [app]; [|apply Hlast]. rewrite to_fields_cons. autorewrite with fields.
  cbn [from_option] in Hi.
  change (to_pointer (to_struct inheritance_field) zeroInheritance (inheritance_json i) None)
    with (Some <$> to_struct inheritance_field (inheritance_json i) zeroInheritance).
  rewrite inheritance_reads by done. cbn [mbind option_bind fmap option_fmap option_map]. apply Hlast.
Qed.

(** ** The texts of a valid ledger are UTF-8 *)

Lemma text_valid value limit field : operatorRequestText value limit field = Ok () → utf8.Valid value = true.
Proof. unfold operatorRequestText. by destruct (utf8.Valid value). Qed.

Lemma text_valid_ok value limit field : is_ok (operatorRequestText value limit field) = true → utf8.Valid value = true.
Proof. unfold operatorRequestText. by destruct (utf8.Valid value). Qed.

Lemma hex_ascii b x : json.hex_value b = Some x → b2z b < 0x80.
Proof.
  unfold json.hex_value. intros H.
  repeat match type of H with (if ?c then _ else _) = _ => destruct c eqn:?; zbool; [lia|] end. done.
Qed.

Lemma hex_valid s d : hex.DecodeString s = Some d → utf8.Valid s = true.
Proof.
  intros H. apply utf8.Valid_ascii. remember (length s) as n eqn:Hn. revert s d Hn H.
  induction (lt_wf n) as [n _ IH]. intros s d -> H. destruct s as [|a [|b s]]; [constructor|discriminate H|].
  cbn [hex.DecodeString] in H.
  apply bind_Some in H as (x & Hx & H). apply bind_Some in H as (y & Hy & H). apply bind_Some in H as (r & Hr & _).
  constructor; [by eapply hex_ascii|]. constructor; [by eapply hex_ascii|]. eapply (IH (length s)); [cbn; lia|done|done].
Qed.

Lemma run_id_valid run : operatorRunIDValid run = true → utf8.Valid run = true.
Proof. unfold operatorRunIDValid. destruct (hex.DecodeString run) eqn:E; [|done]. intros _. by eapply hex_valid. Qed.

(** [r] is what remains of [s] after some ASCII characters. *)
Definition after_ascii (s r : bytes) : Prop := ∃ p, s = p ++ r ∧ Forall (λ b, b2z b < 0x80) p.

Lemma after_trans a b c : after_ascii a b → after_ascii b c → after_ascii a c.
Proof.
  intros (p & -> & Hp) (q & -> & Hq). exists (p ++ q). rewrite <- app_assoc. split; [done|]. by apply Forall_app.
Qed.

Lemma digit_ascii b : time.isDigit b = true → b2z b < 0x80.
Proof. unfold time.isDigit, strconv.is_digit. intros H. zbool. lia. Qed.

Lemma after_two s n r : time.two s = Some (n, r) → after_ascii s r.
Proof.
  destruct s as [|a [|b s]]; try done. cbn. destruct (time.isDigit a && time.isDigit b) eqn:E; [|done].
  intros [= _ <-]. zbool. exists [a; b]. split; [done|]. repeat constructor; by apply digit_ascii.
Qed.

Lemma after_one s n r : time.one_or_two s = Some (n, r) → after_ascii s r.
Proof.
  destruct s as [|a s]; [done|]. cbn [time.one_or_two]. destruct (time.isDigit a) eqn:Ea; [|done].
  destruct (time.two (a :: s)) as [[x t]|] eqn:E.
  - intros [= -> ->]. by eapply after_two.
  - intros [= _ <-]. exists [a]. split; [done|]. repeat constructor. by apply digit_ascii.
Qed.

Lemma after_expect c s r : b2z c < 0x80 → time.expect c s = Some r → after_ascii s r.
Proof.
  intros Hc. destruct s as [|b s]; [done|]. cbn. case_decide; [|done]. intros [= <-]. subst.
  exists [c]. split; [done|]. by repeat constructor.
Qed.

Lemma after_digits s : after_ascii s (json.skip_digits s).
Proof.
  induction s as [|b s IH]; cbn; [by exists []|]. destruct (strconv.is_digit b) eqn:E; [|by exists []].
  eapply after_trans; [|exact IH]. exists [b]. split; [done|]. repeat constructor. by apply digit_ascii.
Qed.

Lemma after_fraction s : after_ascii s (time.fraction s).
Proof.
  destruct s as [|c [|d s]]; [by exists []|by exists []|]. cbn [time.fraction].
  destruct ((bool_decide (c = x2e) || bool_decide (c = x2c)) && time.isDigit d) eqn:E; [|by exists []]. zbool.
  eapply after_trans; [|apply after_digits]. exists [c; d]. split; [done|].
  repeat constructor; [by destruct H as [H|H]; zbool; subst|by apply digit_ascii].
Qed.

Lemma after_zone s r : time.zone s = Some r → after_ascii s r.
Proof.
  destruct s as [|c s]; [done|]. cbn [time.zone]. case_decide as Hz.
  { intros [= <-]. subst c. exists [x5a]. split; [done|]. by repeat constructor. }
  destruct (bool_decide (c = x2b) || bool_decide (c = x2d)) eqn:E; [|done]. intros H.
  apply bind_Some in H as ([h r1] & H1 & H). apply bind_Some in H as (r2 & H2 & H).
  apply bind_Some in H as ([m r3] & H3 & H). destruct ((24 <? h) || (60 <? m)); [done|]. injection H as <-.
  apply (after_trans _ s); [exists [c]; split; [done|]; repeat constructor; zbool; destruct E; zbool; by subst|].
  eapply after_trans; [by eapply after_two|]. eapply after_trans; [by eapply (after_expect x3a)|]. by eapply after_two.
Qed.

Lemma time_valid s : time.parses s = true → utf8.Valid s = true.
Proof.
  unfold time.parses. rewrite bool_decide_eq_true. intros [year H].
  apply bind_Some in H as ([n1 r1] & H1%after_two & H). apply bind_Some in H as ([n2 r2] & H2%after_two & H). cbn zeta in H.
  apply bind_Some in H as (r3 & H3%after_expect & H); [|done]. apply bind_Some in H as ([n4 r4] & H4%after_two & H).
  apply bind_Some in H as (r5 & H5%after_expect & H); [|done]. apply bind_Some in H as ([n6 r6] & H6%after_two & H).
  apply bind_Some in H as (r7 & H7%after_expect & H); [|done]. apply bind_Some in H as ([n8 r8] & H8%after_one & H).
  apply bind_Some in H as (r9 & H9%after_expect & H); [|done]. apply bind_Some in H as ([n10 r10] & H10%after_two & H).
  apply bind_Some in H as (r11 & H11%after_expect & H); [|done]. apply bind_Some in H as ([n12 r12] & H12%after_two & H).
  apply bind_Some in H as (r & H13%after_zone & H).
  match type of H with (if ?c then _ else _) = _ => destruct c eqn:E; [done|] end.
  apply orb_false_iff in E as [_ E]. zbool. subst r.
  assert (Hall : after_ascii s []).
  { do 12 (eapply after_trans; [eassumption|]). eapply after_trans; [apply after_fraction|done]. }
  destruct Hall as (p & -> & Hp). rewrite app_nil_r. by apply utf8.Valid_ascii.
Qed.

(** What one accepted entry satisfies. *)
Record entry_ok (i : Z) (e : OperatorRequestRevision) (withdraws : bool) : Prop := {
  eo_revision : rvRevision e = i + 1;
  eo_time : utf8.Valid (Timestamp e) = true;
  eo_run : utf8.Valid (actRunID (Actor e)) = true;
  eo_name : utf8.Valid (actName (Actor e)) = true;
  eo_role : Role (Actor e) = bs "implementor" ∨ Role (Actor e) = bs "operator";
  eo_thread : utf8.Valid (ThreadID (Actor e)) = true;
  eo_turn : utf8.Valid (TurnID (Actor e)) = true;
  eo_action : Action e ∈ [bs "create"; bs "disposition"; bs "withdraw"; bs "verify"];
  eo_disposition : utf8.Valid (Disposition e) = true;
  eo_explanation : utf8.Valid (Explanation e) = true;
  eo_evidence : utf8.Valid (Evidence e) = true;
  eo_withdraws : withdraws = bool_decide (Action e = bs "withdraw");
}.

Lemma validateDecision_inv h e b :
  validateDecision h e = Ok b →
  Action e ∈ [bs "create"; bs "disposition"; bs "withdraw"; bs "verify"] ∧ utf8.Valid (Disposition e) = true
  ∧ b = bool_decide (Action e = bs "withdraw").
Proof.
  unfold validateDecision, invalid_entry.
  destruct (bool_decide_reflect (Action e = bs "disposition")) as [Ea|Na].
  - rewrite Ea. destruct (_ || _); [done|].
    destruct (bool_decide_reflect (Disposition e ∈ [bs "pursuing"; bs "deferred"; bs "declined"])) as [Hd|_].
    + intros [= <-]. split_and!; [by right; left| |done].
      repeat (apply elem_of_cons in Hd as [-> | Hd]; [done|]). by apply not_elem_of_nil in Hd.
    + destruct (bool_decide_reflect (Disposition e = bs "completed")) as [-> | _]; [|done].
      destruct (operatorRequestText _ _ _); [|done]. intros [= <-]. split_and!; [by right; left|done|done].
  - destruct (bool_decide_reflect (Action e = bs "withdraw")) as [Ea|Nw].
    + rewrite Ea. cbn [orb]. destruct (negb (bool_decide (Role _ = _))); [done|]. cbn [orb].
      destruct (bool_decide_reflect (Disposition e = [])) as [-> | _]; [|done]. cbn [orb negb].
      destruct (negb _); [done|]. destruct (negb _); [done|]. intros [= <-]. split_and!; [|done|done].
      by right; right; left.
    + destruct (bool_decide_reflect (Action e = bs "verify")) as [Ea|_]; [|done]. rewrite Ea. cbn [orb].
      destruct (negb (bool_decide (Role _ = _))); [done|]. cbn [orb].
      destruct (bool_decide_reflect (Disposition e = [])) as [-> | _]; [|done]. cbn [orb negb].
      destruct (negb _); [done|]. destruct (_ || _); [done|]. destruct (h !! _); [|done]. destruct (_ || _); [done|].
      intros [= <-]. split_and!; [|done|done]. by right; right; right; left.
Qed.

Lemma validateEntry_inv h i w e b : validateEntry h i w e = Ok b → w = false ∧ entry_ok i e b.
Proof.
  unfold validateEntry. destruct w; [done|]. cbn [orb].
  destruct (Z.eqb_spec (rvRevision e) (i + 1)) as [Hr|_]; [|done]. cbn [negb].
  destruct (time.parses (Timestamp e)) eqn:Et; [|done]. cbn [negb].
  destruct (operatorRunIDValid (actRunID (Actor e))) eqn:Erun; [|done]. cbn [negb orb].
  destruct (is_ok (operatorRequestText (actName (Actor e)) 256 "author")) eqn:En; [|done]. cbn [negb].
  apply time_valid in Et. apply run_id_valid in Erun. apply text_valid_ok in En.
  set (imp := bool_decide (Role (Actor e) = bs "implementor")).
  intros H. split; [done|].
  assert (Hactor : (Role (Actor e) = bs "implementor" ∨ Role (Actor e) = bs "operator")
                   ∧ utf8.Valid (ThreadID (Actor e)) = true ∧ utf8.Valid (TurnID (Actor e)) = true).
  { revert H. subst imp. destruct (bool_decide_reflect (Role (Actor e) = bs "implementor")) as [-> | _]; cbn [andb negb].
    - match goal with |- context [if ?c then _ else _] => destruct c eqn:E; [done|] end. zbool.
      intros _. split_and!; [by left|by eapply text_valid_ok|by eapply text_valid_ok].
    - match goal with |- context [if ?c then _ else _] => destruct c eqn:E; [done|] end. zbool.
      intros _. repeat match goal with H : _ = [] |- _ => rewrite H end. split_and!; [by right|done|done]. }
  destruct Hactor as (Hrole & Hth & Htu).
  destruct (_ && _); [done|]. destruct (_ && _); [done|]. destruct (i =? 0).
  - match type of H with (if ?c then _ else _) = _ => destruct c eqn:E; [done|] end. injection H as <-. zbool.
    constructor; try done; try (by match goal with H : ?x = [] |- utf8.Valid ?x = true => rewrite H end).
    + match goal with H : Action e = _ |- _ => rewrite H end. by left.
    + match goal with H : Action e = _ |- _ => rewrite H end. done.
  - apply bind_Ok in H as ([] & Hx%text_valid & H).
    destruct (utf8.Valid (Evidence e)) eqn:Ev; [|done]. cbn [negb orb] in H. destruct (_ <? _); [done|].
    apply validateDecision_inv in H as (Ha & Hd & ->). by constructor.
Qed.

Lemma validateHistory_entries h es i w b :
  validateHistory h es i w = Ok b → Forall (λ e, ∃ i b, entry_ok i e b) es.
Proof.
  revert i w. induction es as [|e es IH]; intros i w H; [constructor|]. cbn [validateHistory] in H.
  apply bind_Ok in H as (w' & He & H). apply validateEntry_inv in He as [_ He]. constructor; eauto.
Qed.

(** The texts of a request. *)
Definition request_ok (r : OperatorRequest) : Prop :=
  utf8.Valid (rqTitle r) = true ∧ utf8.Valid (rqDescription r) = true
  ∧ Forall (λ e, ∃ i b, entry_ok i e b) (History r) ∧ History r ≠ [] ∧ len (History r) ≤ 4096.

Lemma validateRequests_inv rs index revisions total :
  validateRequests rs index revisions = Ok total →
  Forall request_ok rs ∧ total = revisions + foldr (λ r n, len (History r) + n) 0 rs
  ∧ ∀ i r, rs !! i = Some r → rqID r = index + Z.of_nat i + 1.
Proof.
  revert index revisions. induction rs as [|r rs IH]; intros index revisions H; cbn [validateRequests foldr] in *.
  { injection H as <-. split_and!; [constructor|lia|done]. }
  match type of H with (if ?c then _ else _) = _ => destruct c eqn:E; [done|] end. zbool.
  apply bind_Ok in H as ([] & Ht & H). apply bind_Ok in H as (b & Hh & H).
  apply bind_Ok in Ht as ([] & Htitle%text_valid & Hdesc%text_valid). apply validateHistory_entries in Hh.
  destruct (IH _ _ H) as (HF & -> & Hids). split_and!.
  - constructor; [|done]. split_and!; try done. intros E0. by rewrite E0 in *.
  - lia.
  - intros [|i] r' Hi; cbn in Hi.
    + injection Hi as <-. lia.
    + apply Hids in Hi. lia.
Qed.

Record ledger_ok (l : OperatorRequestLedger) : Prop := {
  lo_version : lgSchemaVersion l = 1;
  lo_run : operatorRunIDValid (lgRunID l) = true;
  lo_some : ∃ rs, lgRequests l = Some rs;
  lo_bound : len (requests_of l) ≤ MaxOperatorRequests;
  lo_requests : Forall request_ok (requests_of l);
  lo_ids : ∀ i r, requests_of l !! i = Some r → rqID r = Z.of_nat i + 1;
  lo_revision : lgRevision l = foldr (λ r n, len (History r) + n) 0 (requests_of l);
}.

Lemma validate_ok l : validateOperatorRequests l = Ok () → ledger_ok l.
Proof.
  unfold validateOperatorRequests. intros H.
  match type of H with (if ?c then _ else _) = _ => destruct c eqn:E; [done|] end. zbool.
  apply bind_Ok in H as (total & Hr & H). destruct (Z.eqb_spec (lgRevision l) total) as [Er|_]; [|done].
  apply validateRequests_inv in Hr as (HF & -> & Hids). constructor; try done.
  destruct (lgRequests l); [eauto|done].
Qed.

Lemma bs_valid_word w : forallb (λ b, b2z b <? 0x80) w = true → utf8.Valid w = true.
Proof.
  intros H. apply utf8.Valid_ascii. rewrite forallb_true in H. eapply Forall_impl; [exact H|].
  cbn. intros b Hb. by apply Z.ltb_lt.
Qed.

(** The members of an object with known names. *)
Ltac members_ok := repeat (apply Forall_cons_2; [split; [done|cbn [snd]]|]); try apply Forall_nil_2.

Lemma omit_empty_ok b name v :
  utf8.Valid (bs name) = true → json_ok v → Forall (λ m, utf8.Valid m.1 = true ∧ json_ok m.2) (omit_empty b name v).
Proof. intros. unfold omit_empty. destruct b; repeat constructor; done. Qed.

Lemma actor_json_ok a i e b : Actor e = a → entry_ok i e b → actor_range a → json_ok (actor_json a).
Proof.
  intros <- [] Hr. unfold actor_json. cbn [json_ok]. apply all_of_Forall.
  repeat apply Forall_app_2; try (by apply omit_empty_ok).
  - repeat constructor; try done. by destruct eo_role0 as [-> | ->].
  - unfold actor_range in Hr. destruct (actGeneration (Actor e)); [|constructor].
    constructor; [|constructor]. split; [done|]. by apply json_ok_uint64.
Qed.

Lemma revision_json_ok i e b : entry_ok i e b → revision_range e → json_ok (revision_json e).
Proof.
  intros Ho (Ha & Hr & Hp). pose proof (actor_json_ok _ _ _ _ eq_refl Ho Ha) as Hactor. destruct Ho.
  unfold revision_json. cbn [json_ok]. apply all_of_Forall.
  assert (Hact : utf8.Valid (Action e) = true).
  { repeat (apply elem_of_cons in eo_action0 as [-> | eo_action0]; [done|]). by apply not_elem_of_nil in eo_action0. }
  repeat apply Forall_app_2; try (apply omit_empty_ok; [done|first [done|by apply json_ok_uint64]]).
  members_ok; first [done|exact Hactor|by apply json_ok_uint64].
Qed.

Lemma request_json_ok r : request_ok r → request_range r → json_ok (request_json r).
Proof.
  intros (Ht & Hd & Hh & _) (Hi & Hr). unfold request_json. cbn [json_ok]. apply all_of_Forall.
  members_ok; try done; [by apply json_ok_uint64|]. cbn [json_ok snd]. apply all_of_Forall.
  apply Forall_map. apply Forall_forall. intros e He. rewrite Forall_forall in Hh, Hr.
  destruct (Hh e He) as (i & b & Ho). cbn. by eapply revision_json_ok, Hr.
Qed.

(** The texts of the inheritance record are not validated; they are UTF-8 in every
    ledger that is read. *)
Definition inheritance_ok (l : OperatorRequestLedger) : Prop :=
  from_option (λ i, utf8.Valid (inRunID i) = true ∧ utf8.Valid (SHA256 i) = true) True (Inherited l).

Lemma ledger_json_ok l : ledger_ok l → ledger_range l → inheritance_ok l → json_ok (ledger_json l).
Proof.
  intros [Hv Hrun [rs Hrs] _ Hreq _ _] (Hr & Hg & HR) Hi. unfold ledger_json. cbn [json_ok]. apply all_of_Forall.
  apply run_id_valid in Hrun. repeat apply Forall_app_2.
  - members_ok; try done; apply json_ok_uint64; [by rewrite Hv|done].
  - unfold inheritance_ok in Hi. destruct (Inherited l) as [i|]; [|constructor]. cbn in Hg, Hi. destruct Hi.
    constructor; [|constructor]. split; [done|]. unfold inheritance_json. cbn [json_ok snd]. apply all_of_Forall.
    members_ok; try done. by apply json_ok_uint64.
  - constructor; [|constructor]. split; [done|]. cbn [snd]. unfold requests_of in *. rewrite Hrs in *. cbn in Hreq, HR |- *.
    apply all_of_Forall. apply Forall_map. apply Forall_forall. intros r Hin. rewrite Forall_forall in Hreq, HR.
    apply request_json_ok; auto.
Qed.

(** ** The text of a valid ledger reads back *)

Lemma actor_depth a : (json_depth (actor_json a) ≤ 1)%nat.
Proof.
  unfold actor_json. cbn [json_depth]. apply le_n_S. apply maximum_le.
  repeat apply Forall_app_2; unfold omit_empty; try (case_match; repeat constructor). repeat constructor.
Qed.

Lemma revision_depth e : (json_depth (revision_json e) ≤ 2)%nat.
Proof.
  unfold revision_json. cbn [json_depth]. apply le_n_S. apply maximum_le.
  repeat apply Forall_app_2; unfold omit_empty; try (case_match; repeat apply Forall_cons_2; cbn; lia || constructor).
  repeat apply Forall_cons_2; try apply Forall_nil_2; cbn [snd]; try (cbn; lia). apply actor_depth.
Qed.

Lemma request_depth r : (json_depth (request_json r) ≤ 4)%nat.
Proof.
  unfold request_json. cbn [json_depth]. apply le_n_S. apply maximum_le.
  repeat apply Forall_cons_2; try apply Forall_nil_2; cbn [snd]; try (cbn; lia).
  cbn [json_depth]. apply le_n_S. apply maximum_le. apply Forall_map. apply Forall_true. intros e. apply revision_depth.
Qed.

Lemma ledger_depth l : (json_depth (ledger_json l) ≤ 6)%nat.
Proof.
  unfold ledger_json. cbn [json_depth]. apply le_n_S. apply maximum_le. repeat apply Forall_app_2.
  - repeat apply Forall_cons_2; try apply Forall_nil_2; cbn; lia.
  - destruct (Inherited l); [|apply Forall_nil_2]. apply Forall_cons_2; [cbn; lia|apply Forall_nil_2].
  - apply Forall_cons_2; [|apply Forall_nil_2]. cbn [snd]. destruct (lgRequests l) as [rs|]; [|cbn; lia].
    cbn [json_depth]. apply le_n_S. apply maximum_le. apply Forall_map. apply Forall_true. intros r. apply request_depth.
Qed.

(** A ledger that may be written: what the store checks before writing, and what
    the Go types and the reading guarantee. *)
Definition writable (l : OperatorRequestLedger) : Prop :=
  validateOperatorRequests l = Ok () ∧ ledger_range l ∧ inheritance_ok l.

Lemma decode_written l space :
  writable l → space = [] ∨ space = [x0a] →
  decodeOperatorRequests (MarshalIndent (ledger_json l) ++ space) = Ok l.
Proof.
  intros (Hv & Hr & Hi) Hs. pose proof (validate_ok l Hv) as Ho. pose proof (ledger_json_ok l Ho Hr Hi) as Hj.
  unfold decodeOperatorRequests.
  assert (Hu : utf8.Valid (MarshalIndent (ledger_json l) ++ space) = true).
  { apply Valid_app_both; [by apply Valid_indent|]. by destruct Hs as [-> | ->]. }
  assert (Hsur : validJSONStringSurrogates (MarshalIndent (ledger_json l) ++ space) = true).
  { destruct Hs as [-> | ->]; [rewrite app_nil_r|by apply surrogates_text].
    unfold ledger_json in *. cbn [app] in *. by apply surrogates_object. }
  rewrite Hu, Hsur. cbn [negb orb]. pose proof (ledger_depth l).
  rewrite parse_text_indent; [|done|unfold json.maxNestingDepth; lia|by destruct Hs as [-> | ->]].
  cbn [mbind option_bind]. rewrite ledger_reads by (done || by destruct Ho). by rewrite Hv.
Qed.

(** ** A ledger that is read may be written *)

Lemma actor_field_range k v a b : actor_range a → actor_field k v a = Some b → actor_range b.
Proof.
  intros Ha H. destruct a. cbn [actor_field] in H. field_cases H; try exact Ha.
  unfold actor_range in *. cbn in *. eapply (to_pointer_inv u64 to_uint64 0); [| | |exact H]; [|by vm_compute|exact Ha].
  intros ? ? ? Ho Hx. exact (to_uint64_inv _ _ _ Ho Hx).
Qed.

Lemma revision_field_range k v a b : revision_range a → revision_field k v a = Some b → revision_range b.
Proof.
  intros (Ha & Hr & Hp) H. destruct a. cbn [revision_field] in H. cbn in Ha, Hr, Hp. field_cases H; try done.
  - refine (conj _ (conj _ _)); [done|(eapply to_uint64_inv; [|exact H]; done)|done].
  - refine (conj _ (conj _ _)); [|done|done]. eapply to_struct_inv; [|exact Ha|exact H]. apply actor_field_range.
  - refine (conj _ (conj _ _)); [done|done|(eapply to_uint64_inv; [|exact H]; done)].
Qed.

Lemma request_field_range k v a b : request_range a → request_field k v a = Some b → request_range b.
Proof.
  intros (Hi & Hh) H. destruct a. cbn [request_field] in H. cbn in Hi, Hh. field_cases H; try done.
  - refine (conj _ _); [(eapply to_uint64_inv; [|exact H]; done)|done].
  - refine (conj _ _); [done|]. cbn. eapply to_slice_inv; [| | |exact H]; [| |exact Hh]; [|refine (conj _ (conj _ _)); by vm_compute].
    intros ? ? ? ? ?. eapply to_struct_inv; [|done|done]. apply revision_field_range.
Qed.

Lemma ledger_field_range k v a b : ledger_range a → ledger_field k v a = Some b → ledger_range b.
Proof.
  intros (Hr & Hi & Hq) H. destruct a. cbn [ledger_field] in H. cbn in Hr, Hi, Hq. field_cases H; try done.
  - refine (conj _ (conj _ _)); [(eapply to_uint64_inv; [|exact H]; done)|done|done].
  - refine (conj _ (conj _ _)); [done| |done]. cbn. eapply (to_pointer_inv (λ i, u64 (inGeneration i))); [| | |exact H]; [|by vm_compute|exact Hi].
    intros ? a ? H0 HH. eapply (to_struct_inv (λ i, u64 (inGeneration i))); [|exact H0|exact HH].
    clear. intros k v [] b Hb H. cbn [inheritance_field] in H. field_cases H; try done.
    eapply to_uint64_inv; [|exact H]. exact Hb.
  - refine (conj _ (conj _ _)); [done|done|]. unfold requests_of. cbn. eapply to_slice_inv; [| | |exact H]; [| |exact Hq]; [|split; [by vm_compute|constructor]].
    intros ? ? ? ? ?. eapply to_struct_inv; [|done|done]. apply request_field_range.
Qed.

Lemma decode_inv data l : decodeOperatorRequests data = Ok l → validateOperatorRequests l = Ok () ∧ ledger_range l.
Proof.
  unfold decodeOperatorRequests. destruct (_ || _); [done|].
  destruct (parse_text data ≫= _) as [l'|] eqn:E; [|done]. intros H. apply bind_Ok in H as ([] & Hv & [= ->]).
  split; [done|]. apply bind_Some in E as (v & _ & E). eapply to_struct_inv; [| |exact E]; [apply ledger_field_range|].
  refine (conj _ (conj _ _)); [by vm_compute|done|constructor].
Qed.

Lemma hexdigit_ascii d : 0 ≤ d < 16 → b2z (strconv.hexdigit d) < 0x80.
Proof. intros Hd. unfold strconv.hexdigit. destruct (d <? 10) eqn:E; zbool; rewrite b2z_z2b, Z.mod_small; lia. Qed.

Lemma hexbytes_valid s : utf8.Valid (strconv.hexbytes s) = true.
Proof.
  apply utf8.Valid_ascii. induction s as [|b s IH]; [constructor|]. unfold strconv.hexbytes. rewrite lbind_cons.
  pose proof (b2z_range b). repeat (constructor; [apply hexdigit_ascii|]); [| |exact IH].
  - split; [apply Z.div_pos; lia|apply Z.div_lt_upper_bound; lia].
  - apply Z.mod_pos_bound. lia.
Qed.

Lemma read_limited_Some file limit data : readCrossRunLimited file limit = Some (Ok data) → file = Some (Ok data).
Proof. destruct file as [[c|e]|]; cbn; try done. by destruct (limit <? len c). Qed.

Lemma inheritance_valid d l : validateOperatorInheritance d l = Ok () → inheritance_ok l.
Proof.
  unfold validateOperatorInheritance, inheritance_ok. destruct (Inherited l) as [i|]; [|done]. cbn [from_option].
  destruct (readCrossRunLimited _ _) as [[contents|e]|]; [|done|done]. intros H.
  apply bind_Ok in H as (parent & Hp%decode_inv & H). destruct Hp as [Hp _]. apply validate_ok in Hp.
  destruct (bool_decide_reflect (lgRunID parent = inRunID i)) as [<- | _]; [|done]. cbn [negb orb] in H.
  destruct (bool_decide (lgRunID parent = lgRunID l)); [done|]. cbn [orb] in H.
  destruct (bool_decide_reflect (sha256_hex contents = SHA256 i)) as [<- | _]; [|done].
  split; [by apply run_id_valid, lo_run|apply hexbytes_valid].
Qed.

(** A directory that can be read is empty, or holds a ledger that may be written. *)
Lemma read_cases d l :
  readOperatorRequests d = Ok l →
  (l = emptyLedger ∧ d = mkDirectory None None) ∨ (writable l ∧ validateOperatorInheritance d l = Ok ()).
Proof.
  unfold readOperatorRequests. destruct (readCrossRunLimited (ledgerFile d) _) as [[data|e]|] eqn:E; [|done|].
  - intros H. apply bind_Ok in H as (l' & Hd & H). apply bind_Ok in H as ([] & Hi & [= ->]). right.
    apply decode_inv in Hd as [Hv Hr]. split; [|done]. split_and!; [done|done|by eapply inheritance_valid].
  - destruct d as [file inherited]. cbn in *. destruct inherited; [done|]. intros [= <-]. left. split; [done|].
    destruct file as [[c|e]|]; cbn in E; [by destruct (_ <? _)|done|done].
Qed.

Lemma writable_run l : writable l → lgRunID l ≠ [].
Proof. intros (Ho%validate_ok%lo_run & _) E. by rewrite E in Ho. Qed.

(** Whatever fault a write meets, the directory is as before or holds the new ledger. *)
Lemma write_reads l f d r d' :
  writeOperatorRequests l f d = (r, d') → ledger_range l → validateOperatorInheritance d l = Ok () →
  (d' = d ∧ ∃ err, r = Err err) ∨ (readOperatorRequests d' = Ok l ∧ writable l ∧ inheritedFile d' = inheritedFile d
     ∧ ledgerFile d' = Some (Ok (ledger_text l)) ∧ (r = Ok () ∨ ∃ err, f = AfterRename err ∧ r = Err err)).
Proof.
  unfold writeOperatorRequests. intros H Hr Hi. destruct (validateOperatorRequests l) as [[]|e] eqn:Hv.
  2:{ injection H as <- <-. left. eauto. }
  destruct (maxOperatorLedgerBytes <? len (ledger_text l)) eqn:Hlen.
  { injection H as <- <-. left. eauto. }
  assert (Hw : writable l) by (split_and!; [done|done|by eapply inheritance_valid]).
  assert (Hread : readOperatorRequests (mkDirectory (Some (Ok (ledger_text l))) (inheritedFile d)) = Ok l).
  { unfold readOperatorRequests. cbn [ledgerFile readCrossRunLimited]. rewrite Hlen. cbn match. unfold ledger_text.
    rewrite decode_written by (done || by right). cbn [mbind result_bind].
    unfold validateOperatorInheritance in *. cbn [inheritedFile]. by rewrite Hi. }
  destruct f as [|err|err]; injection H as <- <-; [right|left|right]; split_and!; eauto.
Qed.

(** ** History only grows *)

(** A request and a later version of it: entries of this run may have been
    appended, none after a withdrawal. *)
Definition request_grows (run : bytes) (r r' : OperatorRequest) : Prop :=
  rqID r' = rqID r ∧ rqTitle r' = rqTitle r ∧ rqDescription r' = rqDescription r
  ∧ ∃ k, History r' = History r ++ k ∧ attributed run k = true ∧ (Active r = false → k = []).

(** A ledger and a later one of the same run. *)
Definition ledger_grows (l l' : OperatorRequestLedger) : Prop :=
  Inherited l' = Inherited l ∧ (lgRunID l ≠ [] → lgRunID l' = lgRunID l)
  ∧ ∃ old new, requests_of l' = old ++ new ∧ Forall2 (request_grows (lgRunID l')) (requests_of l) old
    ∧ Forall (λ r, attributed (lgRunID l') (History r) = true) new.

Lemma attributed_app run h k : attributed run (h ++ k) = attributed run h && attributed run k.
Proof. apply forallb_app. Qed.

Lemma request_grows_refl run r : request_grows run r r.
Proof. split_and!; try done. exists []. by rewrite app_nil_r. Qed.

Lemma Active_app r r' k : History r' = History r ++ k → k = [] → Active r' = Active r.
Proof. intros E ->. unfold Active. by rewrite E, app_nil_r. Qed.

Lemma request_grows_trans run r1 r2 r3 : request_grows run r1 r2 → request_grows run r2 r3 → request_grows run r1 r3.
Proof.
  intros (A1 & A2 & A3 & k & A4 & A5 & A6) (B1 & B2 & B3 & k' & B4 & B5 & B6). split_and!; try congruence.
  exists (k ++ k'). rewrite B4, A4, app_assoc, attributed_app, A5, B5. split_and!; [done|done|].
  intros H1. rewrite (A6 H1). apply B6. by rewrite (Active_app _ _ _ A4 (A6 H1)).
Qed.

Lemma grows_attributed run r r' : request_grows run r r' → attributed run (History r) = true → attributed run (History r') = true.
Proof. intros (_ & _ & _ & k & -> & Hk & _) Hr. by rewrite attributed_app, Hr. Qed.

Lemma grows_refl_all run rs : Forall2 (request_grows run) rs rs.
Proof. induction rs; constructor; auto using request_grows_refl. Qed.

Lemma ledger_grows_refl l : ledger_grows l l.
Proof.
  split_and!; try done. exists (requests_of l), []. rewrite app_nil_r. split_and!; [done| |constructor].
  apply grows_refl_all.
Qed.

Lemma grows_trans_all run l1 l2 l3 :
  Forall2 (request_grows run) l1 l2 → Forall2 (request_grows run) l2 l3 → Forall2 (request_grows run) l1 l3.
Proof.
  intros H1. revert l3. induction H1 as [|x y xs ys Hxy _ IH]; intros l3 H2; inversion_clear H2; constructor; eauto.
  by eapply request_grows_trans.
Qed.

Lemma ledger_grows_trans l1 l2 l3 : lgRunID l2 ≠ [] → ledger_grows l1 l2 → ledger_grows l2 l3 → ledger_grows l1 l3.
Proof.
  intros Hrun (I1 & R1 & old1 & new1 & E1 & F1 & N1) (I2 & R2 & old2 & new2 & E2 & F2 & N2).
  specialize (R2 Hrun). rewrite R2 in F2, N2.
  refine (conj _ (conj _ _)); [congruence|intros H; rewrite R2; auto|].
  rewrite E1 in F2. apply Forall2_app_inv_l in F2 as (o & n & Fo & Fn & ->).
  exists o, (n ++ new2). rewrite E2, app_assoc, R2. split_and!; [done| |apply Forall_app; split; [|done]].
  - eapply grows_trans_all; [exact F1|exact Fo].
  - clear -Fn N1. induction Fn as [|x y xs ys Hxy _ IH]; [constructor|].
    apply Forall_cons in N1 as [Hx N1]. constructor; [by eapply grows_attributed|auto].
Qed.

Lemma validateInherited_fresh run new : 
  Forall (λ r, attributed run (History r) = true) new → validateInherited run new [] = Ok ().
Proof. induction 1 as [|r new Hr _ IH]; [done|]. cbn [validateInherited]. by rewrite dropZ_0, Hr. Qed.

Lemma validateInherited_grows run rs rs' new ps :
  Forall2 (request_grows run) rs rs' → Forall (λ r, attributed run (History r) = true) new →
  len ps ≤ len rs → validateInherited run rs ps = Ok () → validateInherited run (rs' ++ new) ps = Ok ().
Proof.
  intros HF Hnew. revert ps. induction HF as [|r r' rs rs' Hg _ IH]; intros ps Hlen H.
  { destruct ps; [|rewrite len_cons, len_nil in Hlen; pose proof (len_nonneg ps); lia]. by apply validateInherited_fresh. }
  destruct Hg as (_ & Et & Ed & k & Eh & Hk & _). cbn [app validateInherited] in *. rewrite Et, Ed, Eh.
  destruct ps as [|p ps]; cbn [tail] in *.
  - destruct (attributed run (dropZ 0 (History r))) eqn:Ha; [|done]. rewrite dropZ_0 in *.
    rewrite attributed_app, Ha, Hk. cbn [negb andb] in *. apply IH; [rewrite len_nil; apply len_nonneg|done].
  - match type of H with (if ?c then _ else _) = _ => destruct c eqn:E; [done|] end. zbool.
    destruct (attributed run (dropZ (len (History p)) (History r))) eqn:Ha; [|done]. cbn [negb] in H.
    pose proof (len_nonneg (History p)).
    rewrite takeZ_app_le, dropZ_app_le, attributed_app, Ha, Hk by lia.
    rewrite !bool_decide_eq_true_2 by done. rewrite (proj2 (Z.ltb_ge _ _)) by (rewrite len_app; pose proof (len_nonneg k); lia).
    cbn. apply IH; [|done]. rewrite !len_cons in Hlen. lia.
Qed.

Lemma inheritance_grows d l l' :
  lgRunID l' = lgRunID l → ledger_grows l l' → validateOperatorInheritance d l = Ok () →
  validateOperatorInheritance d l' = Ok ().
Proof.
  intros ER (EI & _ & old & new & Eq & HF & Hnew) H.
  unfold validateOperatorInheritance in *. rewrite EI, Eq. rewrite ER in *.
  destruct (Inherited l) as [i|]; destruct (readCrossRunLimited _ _) as [[contents|e]|]; try done.
  - apply bind_Ok in H as (parent & Hp & H). rewrite Hp. cbn [mbind result_bind].
    match type of H with (if ?c then _ else _) = _ => destruct c eqn:E; [done|] end. zbool.
    rewrite (bool_decide_eq_true_2 (lgRunID parent = _)), (bool_decide_eq_true_2 (sha256_hex contents = _)) by assumption.
    rewrite bool_decide_eq_false_2 by assumption. cbn [negb orb].
    apply Forall2_length in HF as Hlen. rewrite (proj2 (Z.ltb_ge _ _)) by (unfold len in *; rewrite length_app; lia).
    by eapply validateInherited_grows.
  - destruct (forallb _ (requests_of l)) eqn:E; [|done].
    assert (Hall : forallb (λ r, attributed (lgRunID l) (History r)) (old ++ new) = true); [|by rewrite Hall].
    rewrite forallb_true in *. apply Forall_app. split; [|done].
    clear -HF E. induction HF as [|x y xs ys Hxy _ IH]; [constructor|].
    apply Forall_cons in E as [Hx E]. constructor; [by eapply grows_attributed|auto].
Qed.

(** ** The operations *)

(** An update of a ledger by one of the operations. *)
Definition update_ok (update : OperatorRequestLedger → result (OperatorRequest * OperatorRequestLedger)) : Prop :=
  ∀ l q l', update l = Ok (q, l') → ledger_range l →
    ledger_range l' ∧ lgRunID l' = lgRunID l ∧ ledger_grows l l'.

Lemma wrap64_u64 n : u64 (wrap64 n).
Proof. unfold u64, wrap64. apply Z.mod_pos_bound. lia. Qed.

Lemma createUpdate_ok now actor title description :
  actor_range actor → update_ok (createUpdate now actor title description).
Proof.
  intros Ha l q l' H Hr. unfold createUpdate in H.
  destruct (MaxOperatorRequests <=? len (requests_of l)) eqn:Hn; [done|]. injection H as <- <-. zbool.
  destruct Hr as (Hrev & Hinh & Hreq). pose proof (len_nonneg (requests_of l)). split_and!.
  - refine (conj _ (conj _ _)); [apply wrap64_u64|done|]. apply Forall_app. split; [done|].
    repeat constructor; cbn; try done; unfold MaxOperatorRequests, u64 in *; lia.
  - done.
  - refine (conj _ (conj _ _)); [done|done|]. exists (requests_of l). eexists. split_and!; [done| |].
    + apply grows_refl_all.
    + repeat constructor. cbn. by rewrite bool_decide_eq_true_2.
Qed.

Lemma grows_insert run rs i r r' :
  rs !! i = Some r → request_grows run r r' → Forall2 (request_grows run) rs (<[i := r']> rs).
Proof.
  revert i. induction rs as [|x rs IH]; intros [|i] Hi Hg; try done; cbn in *.
  - injection Hi as <-. constructor; [done|]. apply grows_refl_all.
  - constructor; [apply request_grows_refl|auto].
Qed.

Lemma appendUpdate_ok now id expected entry :
  actor_range (Actor entry) → u64 (ReportRevision entry) → update_ok (appendUpdate now id expected entry).
Proof.
  intros Ha Hp l q l' H Hr. unfold appendUpdate in H. destruct (_ || _); [done|].
  destruct (requests_of l !! Z.to_nat (id - 1)) as [r|] eqn:Hi; [|done].
  destruct (last (History r)) as [latest|] eqn:Hl; [|done]. cbn zeta in H.
  destruct (bool_decide _) in H.
  { injection H as <- <-. split_and!; [done|done|apply ledger_grows_refl]. }
  destruct (negb (expected =? Revision r)); [done|]. destruct (Active r) eqn:Hact; [|done]. cbn [negb] in H.
  injection H as <- <-. destruct Hr as (Hrev & Hinh & Hreq). split_and!.
  - refine (conj _ (conj _ _)); [apply wrap64_u64|done|]. cbn. apply Forall_insert; [done|].
    pose proof (Forall_lookup_1 _ _ _ _ Hreq Hi) as [Hid Hh]. split; [done|]. cbn. apply Forall_app. split; [done|].
    apply Forall_cons_2; [|apply Forall_nil_2]. refine (conj _ (conj _ _)); [done|apply wrap64_u64|done].
  - done.
  - refine (conj _ (conj _ _)); [done|done|]. exists (<[Z.to_nat (id - 1) := mkOperatorRequest (rqID r) (rqTitle r)
      (rqDescription r) (History r ++ [with_time now (mkRevision (wrap64 (expected + 1)) (Action entry)
        (with_run (lgRunID l) (Actor entry)) (Timestamp latest) (Disposition entry) (Explanation entry) (Evidence entry)
        (ReportRevision entry))])]> (requests_of l)), [].
    rewrite app_nil_r. split_and!; [done| |constructor]. cbn. eapply grows_insert; [done|]. split_and!; try done.
    eexists. split_and!; [done| |by rewrite Hact]. cbn. by rewrite bool_decide_eq_true_2.
Qed.

(** The new ledger is in place, and is what the update made of the old one. *)
Definition changed (w : surroundings) (update : OperatorRequestLedger → result (OperatorRequest * OperatorRequestLedger))
    (l : OperatorRequestLedger) (r : result OperatorRequest) (d d' : ledgerDirectory) (l' : OperatorRequestLedger) : Prop :=
  ∃ l0 q, update l0 = Ok (q, l') ∧ requests_of l0 = requests_of l ∧ (l = l0 ∨ l = emptyLedger)
    ∧ ledgerFile d' = Some (Ok (ledger_text l')) ∧ writable l' ∧ inheritedFile d' = inheritedFile d
    ∧ (r = Ok q ∨ ∃ err, r = Err err ∧ writeFault w = AfterRename err).

Lemma change_keeps w update d l r d' :
  update_ok update → readOperatorRequests d = Ok l → change w update d = (r, d') →
  ∃ l', readOperatorRequests d' = Ok l' ∧ ledger_grows l l'
    ∧ ((d' = d ∧ l' = l ∧ ∃ err, r = Err err) ∨ changed w update l r d d' l').
Proof.
  intros Hup Hread H. assert (Hsame : ∀ err, r = Err err → d' = d → ∃ l', readOperatorRequests d' = Ok l' ∧ ledger_grows l l'
    ∧ ((d' = d ∧ l' = l ∧ ∃ err, r = Err err) ∨ changed w update l r d d' l')).
  { intros err -> ->. exists l. split_and!; [done|apply ledger_grows_refl|left; eauto]. }
  unfold change in H. destruct (lockFault w) as [e|]; [injection H as <- <-; by eapply Hsame|].
  rewrite Hread in H. cbn [mbind result_bind] in H.
  match type of H with context [?f ≫= _] => destruct f as [l0|e] eqn:Ef end; cbn [mbind result_bind] in H;
    [|injection H as <- <-; by eapply Hsame].
  destruct (update l0) as [[q l1]|e] eqn:Eu; [|injection H as <- <-; by eapply Hsame].
  assert (Hl0 : ledger_range l0 ∧ validateOperatorInheritance d l0 = Ok () ∧ requests_of l0 = requests_of l
                ∧ Inherited l0 = Inherited l ∧ (l = l0 ∨ l = emptyLedger)).
  { destruct (read_cases d l Hread) as [[-> ->] | [Hw Hi]].
    - rewrite bool_decide_eq_true_2 in Ef by done. apply bind_Ok in Ef as (run & _ & Ef). injection Ef as <-.
      refine (conj _ (conj eq_refl (conj eq_refl (conj eq_refl (or_intror eq_refl))))).
      refine (conj _ (conj _ _)); [by vm_compute|done|constructor].
    - rewrite bool_decide_eq_false_2 in Ef by (by apply writable_run). injection Ef as <-.
      refine (conj _ (conj Hi (conj eq_refl (conj eq_refl (or_introl eq_refl))))). apply Hw. }
  destruct Hl0 as (Hr0 & Hi0 & Eq0 & EI0 & Hcase). destruct (Hup l0 q l1 Eu Hr0) as (Hr1 & ER & Hg).
  destruct (writeOperatorRequests l1 (writeFault w) d) as [rw dw] eqn:Ew.
  destruct (write_reads _ _ _ _ _ Ew Hr1) as [[-> [err ->]] | (Hread1 & Hw1 & Hinh & Hfile & Hrw)].
  - by eapply inheritance_grows.
  - injection H as <- <-. by eapply Hsame.
  - assert (Hd' : d' = dw ∧ (r = Ok q ∨ ∃ err, r = Err err ∧ writeFault w = AfterRename err)).
    { destruct Hrw as [-> | (err & Hf & ->)]; injection H as <- <-; eauto 6. }
    destruct Hd' as [-> Hrq]. exists l1. split_and!; [done| |right; exists l0, q; by split_and!].
    destruct Hg as (GI & GR & old & new & E & HF & HN). refine (conj _ (conj _ _)); [congruence| |].
    + intros Hne. rewrite ER. destruct Hcase as [-> | ->]; done.
    + exists old, new. by rewrite <- Eq0.
Qed.

(** ** Sequences of operations *)

(** One call of the store on the run directory, with any outcome and any fault. *)
Inductive ledger_step (d d' : ledgerDirectory) : Prop :=
| step_create w actor title description r :
    actor_range actor → Create w actor title description d = (r, d') → ledger_step d d'
| step_append w id expected entry r :
    actor_range (Actor entry) → u64 (ReportRevision entry) → Append w id expected entry d = (r, d') → ledger_step d d'.

Lemma Create_cases w actor title description d r d' :
  Create w actor title description d = (r, d') →
  (d' = d ∧ ∃ err, r = Err err) ∨ change w (createUpdate (now w) actor title description) d = (r, d').
Proof.
  unfold Create. destruct (ValidateOperatorRequestText title description); [|intros [= <- <-]; eauto].
  destruct (negb _); [intros [= <- <-]; eauto|]. by right.
Qed.

Lemma ledger_step_keeps d d' l :
  ledger_step d d' → readOperatorRequests d = Ok l → ∃ l', readOperatorRequests d' = Ok l' ∧ ledger_grows l l'.
Proof.
  intros [w actor title description r Ha H|w id expected entry r Ha Hp H] Hread.
  - apply Create_cases in H as [[-> _] | H]; [eauto using ledger_grows_refl|].
    destruct (change_keeps _ _ _ _ _ _ (createUpdate_ok _ _ _ _ Ha) Hread H) as (l' & ? & ? & _). eauto.
  - destruct (change_keeps _ _ _ _ _ _ (appendUpdate_ok _ _ _ _ Ha Hp) Hread H) as (l' & ? & ? & _). eauto.
Qed.

Lemma read_empty d l : readOperatorRequests d = Ok l → lgRunID l = [] → l = emptyLedger.
Proof. intros H E. destruct (read_cases d l H) as [[-> _] | [Hw _]]; [done|]. by apply writable_run in Hw. Qed.

Lemma ledger_grows_trans_read d1 d2 l1 l2 l3 :
  readOperatorRequests d1 = Ok l1 → readOperatorRequests d2 = Ok l2 →
  ledger_grows l1 l2 → ledger_grows l2 l3 → ledger_grows l1 l3.
Proof.
  intros H1 H2 G1 G2. destruct (decide (lgRunID l2 = [])) as [E|Hne]; [|by eapply ledger_grows_trans].
  destruct (decide (lgRunID l1 = [])) as [E1|Hne1]; [|destruct G1 as (_ & R & _); rewrite R in E by done; done].
  pose proof (read_empty _ _ H1 E1). pose proof (read_empty _ _ H2 E). by subst.
Qed.

Lemma ledger_steps_keep d d' l :
  readOperatorRequests d = Ok l → rtc ledger_step d d' → ∃ l', readOperatorRequests d' = Ok l' ∧ ledger_grows l l'.
Proof.
  intros Hread Hsteps. revert l Hread. induction Hsteps as [d|d1 d2 d3 H12 _ IH]; intros l Hread.
  { eauto using ledger_grows_refl. }
  destruct (ledger_step_keeps _ _ _ H12 Hread) as (l2 & H2 & G12). destruct (IH l2 H2) as (l3 & H3 & G23).
  exists l3. split; [done|]. exact (ledger_grows_trans_read _ _ _ _ _ Hread H2 G12 G23).
Qed.

(** C13: Whatever sequence of creations and appends runs over a run directory, with
    any interleaved file-system faults, a readable ledger stays readable; no request
    disappears or changes its title or text, every history is the old one with
    entries of this run added at its end, and the history of a withdrawn request
    does not change any more. *)
Theorem ledger_append_only d d' l :
  readOperatorRequests d = Ok l → rtc ledger_step d d' →
  ∃ l', readOperatorRequests d' = Ok l' ∧ ledger_grows l l'.
Proof. apply ledger_steps_keep. Qed.

(** *** What one append does *)

Lemma append_lookup l id : (id =? 0) || (len (requests_of l) <? id) = false → u64 id →
  ∃ r, requests_of l !! Z.to_nat (id - 1) = Some r.
Proof.
  intros H [Hu _]. zbool. apply lookup_lt_is_Some_2. unfold len in *. lia.
Qed.

(** The update of an append, case by case. *)
Lemma appendUpdate_inv now id expected entry l q l' :
  appendUpdate now id expected entry l = Ok (q, l') →
  ∃ r latest, requests_of l !! Z.to_nat (id - 1) = Some r ∧ last (History r) = Some latest
    ∧ (id =? 0) || (len (requests_of l) <? id) = false
    ∧ let stamped t := mkRevision (wrap64 (expected + 1)) (Action entry) (with_run (lgRunID l) (Actor entry)) t
                         (Disposition entry) (Explanation entry) (Evidence entry) (ReportRevision entry) in
      (stamped (Timestamp latest) = latest ∧ q = r ∧ l' = l)
      ∨ (expected = Revision r ∧ Active r = true
         ∧ q = mkOperatorRequest (rqID r) (rqTitle r) (rqDescription r) (History r ++ [stamped now])
         ∧ l' = mkLedger (lgSchemaVersion l) (lgRunID l) (wrap64 (lgRevision l + 1)) (Inherited l)
                  (Some (<[Z.to_nat (id - 1) := q]> (requests_of l)))).
Proof.
  unfold appendUpdate. destruct ((id =? 0) || (len (requests_of l) <? id)) eqn:Hid; [done|].
  destruct (requests_of l !! Z.to_nat (id - 1)) as [r|] eqn:Hi; [|done].
  destruct (last (History r)) as [latest|] eqn:Hl; [|done]. cbn zeta. intros H. exists r, latest.
  split_and!; try done. destruct (bool_decide_reflect (mkRevision (wrap64 (expected + 1)) (Action entry)
    (with_run (lgRunID l) (Actor entry)) (Timestamp latest) (Disposition entry) (Explanation entry) (Evidence entry)
    (ReportRevision entry) = latest)) as [E|_].
  { injection H as <- <-. left. done. }
  destruct (Z.eqb_spec expected (Revision r)) as [He|_]; [|done]. destruct (Active r) eqn:Ha; [|done].
  cbn [negb] in H. injection H as <- <-. right. done.
Qed.

Lemma insert_length_len {A} (l : list A) i x : len (<[i := x]> l) = len l.
Proof. unfold len. by rewrite length_insert. Qed.

Lemma requests_of_mk version run revision i x : requests_of (mkLedger version run revision i (Some x)) = x.
Proof. done. Qed.

(** A write without faults of the ledger that the directory holds changes nothing. *)
Lemma rewrite_same l d :
  writable l → ledgerFile d = Some (Ok (ledger_text l)) → readOperatorRequests d = Ok l →
  writeOperatorRequests l NoFault d = (Ok (), d).
Proof.
  intros (Hv & _) Hf Hread. unfold writeOperatorRequests. rewrite Hv.
  unfold readOperatorRequests in Hread. rewrite Hf in Hread. cbn [readCrossRunLimited] in Hread.
  destruct (maxOperatorLedgerBytes <? len (ledger_text l)); [done|]. destruct d as [file inh]. cbn in *. by rewrite Hf.
Qed.

(** Repeating an append that succeeded (same arguments, at any later clock
    reading) returns the same record and leaves the files byte for byte as they
    are. *)
Theorem append_idempotent w w' id expected entry d l r d1 :
  readOperatorRequests d = Ok l → actor_range (Actor entry) → u64 (ReportRevision entry) →
  Append w id expected entry d = (Ok r, d1) → lockFault w' = None → writeFault w' = NoFault →
  Append w' id expected entry d1 = (Ok r, d1).
Proof.
  intros Hread Ha Hp H Hlock Hfault.
  destruct (change_keeps _ _ _ _ _ _ (appendUpdate_ok _ _ _ _ Ha Hp) Hread H) as (l1 & Hread1 & _ & [(_ & _ & ? & ?) | Hc]);
    [done|].
  destruct Hc as (l0 & q & Hu & _ & _ & Hfile & Hw & _ & [[= <-] | (? & ? & _)]); [|done].
  assert (Hagain : appendUpdate (now w') id expected entry l1 = Ok (r, l1)).
  { apply appendUpdate_inv in Hu as (r0 & latest & Hi & Hl & Hid & Hcase). cbn zeta in Hcase. unfold appendUpdate.
    destruct Hcase as [(E & -> & ->) | (He & Hact & -> & ->)].
    - rewrite Hid, Hi, Hl. cbn zeta. by rewrite bool_decide_eq_true_2.
    - rewrite requests_of_mk, insert_length_len, Hid. cbn [lgRunID].
      rewrite list_lookup_insert_eq by (by eapply lookup_lt_Some). cbn [History]. rewrite last_snoc. cbn zeta.
      by rewrite bool_decide_eq_true_2. }
  unfold Append, change. rewrite Hlock, Hread1. cbn [mbind result_bind].
  rewrite bool_decide_eq_false_2 by (by apply writable_run). cbn [mbind result_bind]. rewrite Hagain, Hfault.
  by rewrite rewrite_same.
Qed.

(** *** Verification *)

Lemma validateHistory_lookup h es i w b j e :
  validateHistory h es i w = Ok b → es !! j = Some e → ∃ w' b', validateEntry h (i + Z.of_nat j) w' e = Ok b'.
Proof.
  revert i w j. induction es as [|x es IH]; intros i w j H Hj; [done|]. cbn [validateHistory] in H.
  apply bind_Ok in H as (w1 & Hx & H). destruct j as [|j]; cbn in Hj.
  - injection Hj as ->. rewrite Z.add_0_r. eauto.
  - destruct (IH _ _ _ H Hj) as (w' & b' & He). exists w', b'. by replace (i + Z.of_nat (S j)) with (i + 1 + Z.of_nat j) by lia.
Qed.

Lemma validateRequests_history rs index revisions total i r :
  validateRequests rs index revisions = Ok total → rs !! i = Some r →
  ∃ b, validateHistory (History r) (History r) 0 false = Ok b.
Proof.
  revert index revisions i. induction rs as [|x rs IH]; intros index revisions i H Hi; [done|]. cbn [validateRequests] in H.
  destruct (_ || _); [done|]. apply bind_Ok in H as ([] & _ & H). apply bind_Ok in H as (b & Hh & H).
  destruct i as [|i]; cbn in Hi; [injection Hi as ->; eauto|by eapply IH].
Qed.

Lemma read_history d l i r :
  readOperatorRequests d = Ok l → requests_of l !! i = Some r → ∃ b, validateHistory (History r) (History r) 0 false = Ok b.
Proof.
  intros Hread Hi. destruct (read_cases d l Hread) as [[-> _] | [(Hv & _) _]]; [done|].
  unfold validateOperatorRequests in Hv. destruct (_ || _); [done|]. apply bind_Ok in Hv as (total & Hr & _).
  by eapply validateRequests_history.
Qed.

(** An entry that is not the first is accepted by the rules of its action. *)
Lemma validateEntry_decision h i w e b :
  validateEntry h i w e = Ok b → Action e ≠ bs "create" →
  validateDecision h e = Ok b ∧ rvRevision e = i + 1.
Proof.
  unfold validateEntry. intros H Hne. destruct w; [done|]. cbn [orb] in H.
  destruct (Z.eqb_spec (rvRevision e) (i + 1)) as [Hr|_]; [|done]. cbn [negb] in H.
  destruct (negb (time.parses _)); [done|]. destruct (_ || _); [done|]. destruct (_ && _); [done|].
  destruct (_ && _); [done|]. destruct (i =? 0).
  - rewrite (bool_decide_eq_false_2 _ Hne) in H. done.
  - apply bind_Ok in H as ([] & _ & H). destruct (_ || _); [done|]. done.
Qed.

(** In every ledger that can be read, an operator's verification names an
    earlier entry of the same request, which is an implementor's completion report
    of the same run with non-empty evidence. *)
Theorem verification_has_report d l i r j e :
  readOperatorRequests d = Ok l → requests_of l !! i = Some r → History r !! j = Some e → Action e = bs "verify" →
  u64 (ReportRevision e) →
  Role (Actor e) = bs "operator"
  ∧ ∃ k report, (k < j)%nat ∧ History r !! k = Some report ∧ rvRevision report = ReportRevision e
    ∧ Action report = bs "disposition" ∧ Disposition report = bs "completed"
    ∧ Role (Actor report) = bs "implementor" ∧ actRunID (Actor report) = actRunID (Actor e)
    ∧ operatorRequestText (Evidence report) MaxOperatorRequestEvidenceBytes "completion evidence" = Ok ().
Proof.
  intros Hread Hi Hj Ha Hu. destruct (read_history d l i r Hread Hi) as [b Hh].
  destruct (validateHistory_lookup _ _ _ _ _ _ _ Hh Hj) as (w & b' & He).
  apply validateEntry_decision in He as [Hd Hrev]; [|by rewrite Ha].
  unfold validateDecision in Hd. rewrite Ha in Hd. rewrite bool_decide_eq_false_2 in Hd by done.
  cbn [orb] in Hd. rewrite bool_decide_eq_false_2 in Hd by done. rewrite bool_decide_eq_true_2 in Hd by done. cbn [orb] in Hd.
  destruct (bool_decide_reflect (Role (Actor e) = bs "operator")) as [Hrole|_]; [|done]. split; [done|]. cbn [negb orb] in Hd.
  destruct (_ || _); [done|].
  destruct ((ReportRevision e =? 0) || (rvRevision e <=? ReportRevision e)) eqn:Er; [done|]. zbool.
  destruct (History r !! Z.to_nat (ReportRevision e - 1)) as [report|] eqn:Hk; [|done].
  match type of Hd with (if ?c then _ else _) = _ => destruct c eqn:Ec; [done|] end. zbool. destruct Hu.
  exists (Z.to_nat (ReportRevision e - 1)), report.
  destruct (validateHistory_lookup _ _ _ _ _ _ _ Hh Hk) as (w2 & b2 & He2).
  match goal with H : Action report = _ |- _ => rename H into Hact end.
  match goal with H : Disposition report = _ |- _ => rename H into Hdisp end.
  apply validateEntry_decision in He2 as [Hd2 Hrev2]; [|by rewrite Hact].
  unfold validateDecision in Hd2. rewrite Hact, Hdisp in Hd2. rewrite bool_decide_eq_true_2 in Hd2 by done.
  destruct (bool_decide_reflect (Role (Actor report) = bs "implementor")) as [Hri|_]; [|done]. cbn [negb orb] in Hd2.
  destruct (negb _); [done|]. change (bool_decide (bs "completed" ∈ [bs "pursuing"; bs "deferred"; bs "declined"])) with false in Hd2.
  cbn match in Hd2. rewrite bool_decide_eq_true_2 in Hd2 by done.
  destruct (operatorRequestText (Evidence report) _ _) as [[]|] eqn:Eev; [|done].
  split_and!; try done; lia.
Qed.

(** *** Inheritance *)

Lemma validateInherited_same run rs : validateInherited run rs rs = Ok ().
Proof.
  induction rs as [|r rs IH]; [done|]. cbn [validateInherited tail].
  rewrite !bool_decide_eq_true_2 by done. rewrite takeZ_all by lia. rewrite bool_decide_eq_true_2 by done.
  rewrite Z.ltb_irrefl. cbn [negb orb].
  assert (E : dropZ (len (History r)) (History r) = []) by (unfold dropZ; apply drop_ge; rewrite to_nat_len; lia).
  rewrite E. exact IH.
Qed.

Lemma strconv_hexbytes_cons b s :
  strconv.hexbytes (b :: s) = strconv.hexdigit (b2z b / 16) :: strconv.hexdigit (b2z b mod 16) :: strconv.hexbytes s.
Proof. done. Qed.

(** The ledger of a run that starts from another one. *)
Definition inheritedLedger (l : OperatorRequestLedger) (generation : Z) (run : bytes) : OperatorRequestLedger :=
  mkLedger (lgSchemaVersion l) run (lgRevision l)
    (Some (mkInheritance (lgRunID l) generation (sha256_hex (MarshalIndent (ledger_json l))))) (lgRequests l).

Lemma inherit_reads source l generation id f d' :
  readOperatorRequests source = Ok l → lgRunID l ≠ [] → u64 generation → strconv.hexbytes id ≠ lgRunID l →
  len (MarshalIndent (ledger_json l)) ≤ maxOperatorLedgerBytes →
  inheritOperatorRequests source generation None (Ok id) f (mkDirectory None None) = (Ok (), d') →
  readOperatorRequests d' = Ok (inheritedLedger l generation (strconv.hexbytes id)).
Proof.
  intros Hread Hne Hgen Hdiff Hlen H. destruct (read_cases source l Hread) as [[-> _] | [Hw _]]; [done|].
  unfold inheritOperatorRequests in H. rewrite Hread, (bool_decide_eq_false_2 _ Hne) in H. cbn [inheritedFile ledgerFile] in H.
  cbn [writeCrossRunDurable newOperatorRunID mbind result_bind] in H.
  fold (inheritedLedger l generation (strconv.hexbytes id)) in H.
  destruct (write_reads _ _ _ _ _ H) as [[_ [err Herr]] | (Hr & _)]; [| |discriminate Herr|exact Hr].
  - destruct Hw as (_ & (Hrev & _ & Hreq) & _). refine (conj Hrev (conj Hgen Hreq)).
  - unfold validateOperatorInheritance. cbn [inheritedFile readCrossRunLimited inheritedLedger Inherited].
    rewrite (proj2 (Z.ltb_ge _ _) Hlen). cbn match.
    pose proof (decode_written l [] Hw ltac:(by left)) as Hdec. rewrite app_nil_r in Hdec. rewrite Hdec.
    cbn [mbind result_bind inRunID SHA256 lgRunID].
    rewrite !bool_decide_eq_true_2 by reflexivity. rewrite bool_decide_eq_false_2 by (intros E; exact (Hdiff (eq_sym E))).
    change (requests_of (inheritedLedger l generation (strconv.hexbytes id))) with (requests_of l).
    rewrite (bool_decide_eq_true_2 (sha256_hex _ = sha256_hex _)) by reflexivity.
    rewrite Z.ltb_irrefl. cbn [negb orb]. apply validateInherited_same.
Qed.

(** C32: A run that inherits a ledger starts with exactly the parent's requests and
    histories, the parent's revision and the name of the parent in the ledger it reads
    back, and keeps them through every later sequence of operations: each inherited
    request is still there, with the parent's history as the beginning of its own and
    only entries of the new run after it, and every other request is the new run's. *)
Theorem inherited_history_kept source l generation id f d1 d2 :
  readOperatorRequests source = Ok l → lgRunID l ≠ [] → u64 generation → len id = 16 → strconv.hexbytes id ≠ lgRunID l →
  len (MarshalIndent (ledger_json l)) ≤ maxOperatorLedgerBytes →
  inheritOperatorRequests source generation None (Ok id) f (mkDirectory None None) = (Ok (), d1) → rtc ledger_step d1 d2 →
  (∃ l1, readOperatorRequests d1 = Ok l1 ∧ requests_of l1 = requests_of l ∧ lgRevision l1 = lgRevision l
     ∧ lgRunID l1 = strconv.hexbytes id
     ∧ Inherited l1 = Some (mkInheritance (lgRunID l) generation (sha256_hex (MarshalIndent (ledger_json l)))))
  ∧ ∃ l2 old new, readOperatorRequests d2 = Ok l2 ∧ lgRunID l2 = strconv.hexbytes id
    ∧ option_map inRunID (Inherited l2) = Some (lgRunID l)
    ∧ requests_of l2 = old ++ new ∧ Forall2 (request_grows (strconv.hexbytes id)) (requests_of l) old
    ∧ Forall (λ r, attributed (strconv.hexbytes id) (History r) = true) new.
Proof.
  intros Hread Hne Hgen Hid Hdiff Hlen H Hsteps.
  pose proof (inherit_reads _ _ _ _ _ _ Hread Hne Hgen Hdiff Hlen H) as Hr1.
  split; [eexists; split; [exact Hr1|done]|].
  destruct (ledger_steps_keep _ _ _ Hr1 Hsteps) as (l2 & Hr2 & EI & ER & old & new & Eq & HF & HN).
  assert (Hrun : lgRunID l2 = strconv.hexbytes id).
  { apply ER. cbn. destruct id as [|b id]; [done|]. by rewrite strconv_hexbytes_cons. }
  exists l2, old, new. rewrite EI. rewrite Hrun in HF, HN. done.
Qed.

(** ** A concrete run *)

Module example.

Definition operator : OperatorRequestActor := mkActor (bs "operator") (bs "ada") [] None [] [].
Definition implementor : OperatorRequestActor := mkActor (bs "implementor") (bs "model") [] (Some 3) (bs "th") (bs "tu").
Definition at_ (minute : string) : surroundings :=
  mkSurroundings None (Ok (replicate 16 x2a)) (bs "2026-01-02T10:" ++ bs minute ++ bs ":00Z") NoFault.
Definition d0 := mkDirectory None None.
Definition d1 := (Create (at_ "01") operator (bs "Files") (bs "Support <files> & directories") d0).2.
Definition report := mkRevision 0 (bs "disposition") implementor [] (bs "completed") (bs "done") (bs "test log") 0.
Definition d2 := (Append (at_ "02") 1 1 report d1).2.
Definition verification := mkRevision 0 (bs "verify") operator [] [] (bs "seen") [] 2.
Definition d3 := (Append (at_ "03") 1 2 verification d2).2.
Definition withdrawal := mkRevision 0 (bs "withdraw") operator [] [] (bs "enough") [] 0.
Definition d4 := (Append (at_ "04") 1 3 withdrawal d3).2.
(** After the withdrawal a further report is refused. *)
Definition refused := Append (at_ "05") 1 4 report d4.

Definition ledger_of (d : ledgerDirectory) : OperatorRequestLedger :=
  match readOperatorRequests d with Ok l => l | Err _ => zeroLedger end.

Lemma steps : rtc ledger_step d0 d4.
Proof.
  eapply rtc_l; [refine (step_create d0 d1 (at_ "01") operator _ _ _ _ (surjective_pairing _)); done|].
  eapply rtc_l; [refine (step_append d1 d2 (at_ "02") 1 1 report _ _ _ (surjective_pairing _)); by vm_compute|].
  eapply rtc_l; [refine (step_append d2 d3 (at_ "03") 1 2 verification _ _ _ (surjective_pairing _)); by vm_compute|].
  eapply rtc_l; [refine (step_append d3 d4 (at_ "04") 1 3 withdrawal _ _ _ (surjective_pairing _)); by vm_compute|].
  apply rtc_refl.
Qed.

Lemma read_d1 : readOperatorRequests d1 = Ok (ledger_of d1).
Proof. vm_compute. reflexivity. Qed.
Lemma read_d3 : readOperatorRequests d3 = Ok (ledger_of d3).
Proof. vm_compute. reflexivity. Qed.
Lemma read_d4 : readOperatorRequests d4 = Ok (ledger_of d4).
Proof. vm_compute. reflexivity. Qed.

Definition request_of (d : ledgerDirectory) : OperatorRequest := default zeroRequest (requests_of (ledger_of d) !! 0%nat).
Definition entry_of (d : ledgerDirectory) (j : nat) : OperatorRequestRevision :=
  default zeroRevision (History (request_of d) !! j).

Lemma appended : Append (at_ "02") 1 1 report d1 = (Ok (request_of d2), d2).
Proof. vm_compute. reflexivity. Qed.

(** A second run that starts from the first. *)
Definition d5 := (inheritOperatorRequests d4 7 None (Ok (replicate 16 x55)) NoFault d0).2.
Lemma inherited : inheritOperatorRequests d4 7 None (Ok (replicate 16 x55)) NoFault d0 = (Ok (), d5).
Proof. vm_compute. reflexivity. Qed.

Lemma refused_withdrawn : refused = (Err (PlainError (txt "operator request is withdrawn")), d4).
Proof. vm_compute. reflexivity. Qed.

End example.

Lemma ledger_append_only_witness :
  readOperatorRequests example.d0 = Ok emptyLedger ∧ rtc ledger_step example.d0 example.d4
  ∧ ∃ l', readOperatorRequests example.d4 = Ok l' ∧ ledger_grows emptyLedger l'.
Proof.
  split; [reflexivity|]. split; [exact example.steps|].
  exact (ledger_append_only example.d0 example.d4 emptyLedger eq_refl example.steps).
Defined.

Lemma append_idempotent_witness :
  Append (example.at_ "59") 1 1 example.report example.d2 = (Ok (example.request_of example.d2), example.d2).
Proof.
  refine (append_idempotent (example.at_ "02") (example.at_ "59") 1 1 example.report example.d1 (example.ledger_of example.d1)
    (example.request_of example.d2) example.d2 example.read_d1 _ _ example.appended eq_refl eq_refl); by vm_compute.
Defined.

Lemma verification_has_report_witness :
  Role (Actor (example.entry_of example.d3 2)) = bs "operator" ∧ ∃ k report, (k < 2)%nat
    ∧ History (example.request_of example.d3) !! k = Some report ∧ Disposition report = bs "completed".
Proof.
  destruct (verification_has_report example.d3 (example.ledger_of example.d3) 0 (example.request_of example.d3) 2
    (example.entry_of example.d3 2) example.read_d3) as (Hrole & k & report & Hk & Hl & _ & _ & Hd & _);
    [vm_compute; reflexivity|vm_compute; reflexivity|vm_compute; reflexivity|by vm_compute|].
  split; [exact Hrole|]. exists k, report. exact (conj Hk (conj Hl Hd)).
Defined.

Lemma inherited_history_kept_witness :
  ∃ l2, readOperatorRequests example.d5 = Ok l2 ∧ lgRunID l2 = strconv.hexbytes (replicate 16 x55).
Proof.
  destruct (inherited_history_kept example.d4 (example.ledger_of example.d4) 7 (replicate 16 x55) NoFault example.d5 example.d5
    example.read_d4) as [_ (l2 & old & new & H & Hrun & _)];
    [vm_compute; discriminate|by vm_compute|reflexivity|vm_compute; discriminate|by vm_compute
    |exact example.inherited|apply rtc_refl|].
  exists l2. exact (conj H Hrun).
Defined.
