(* ===== verification/OperatorRequests.v ===== *)
(** * Operator requests of a run (src/internal/experiment/operator_requests.go)

    The run object's methods over the ledger: the view of the requests that the
    current generation may rely on, creating, withdrawing and verifying requests,
    recording an implementor's report. Methods hold [gateMu] throughout, so each is
    one step on the run object and the ledger files. *)

From S2P Require Import Prelude GoStd Sha256 SourceCapacity Snapshot Json FeatureStore ArchiveRecord RunGate JsonTree OperatorLedger.
Open Scope Z_scope.

Record OperatorRequestView := mkView {
  vwID : Z;
  vwTitle : bytes;
  vwDescription : bytes;
  vwRevision : Z;
  vwActive : bool;
  Author : OperatorRequestActor;
  Report : option OperatorRequestRevision;
  Verification : option OperatorRequestRevision
}.

Record OperatorRequestContext := mkContext {
  cxRunID : bytes;
  LedgerRevision : Z;
  cxRequests : list OperatorRequestView
}.

(** ** The lineage *)

Definition no_such_file : error := SystemError (txt "no such file or directory").
Definition invalid_ancestry : error := PlainError (txt "invalid operator request report ancestry").

(** The metadata of an archived generation. *)
Definition archiveMetadataOf (d : rundir) (generation : Z) : result parsedGenerationMetadata :=
  match entries d !! generationName generation with
  | Some (ArchiveEntry dir) =>
      raw ← readArchiveArtifact (dirMetadata dir) archiveMetadataLimit;
      parseGenerationMetadata raw generation
  | _ => Err no_such_file
  end.

(** The loop over the parents: the completed generations of the lineage, or the error
    that ended it; [None] when the loop has not ended within the given turns. *)
Fixpoint completedParents (fuel : nat) (d : rundir) (parent : option Z) : option (result (list Z)) :=
  match parent with
  | None => Some (Ok [])
  | Some generation =>
      match fuel with
      | O => None
      | S fuel =>
          match archiveMetadataOf d generation with
          | Err err => Some (Err err)
          | Ok metadata =>
              if match mdParent metadata with Some p => generation <=? p | None => false end then Some (Err invalid_ancestry)
              else
                rest ← completedParents fuel d (mdParent metadata);
                Some (l ← rest; Ok (if bool_decide (mdOutcome metadata = bs "completed") then generation :: l else l))
          end
      end
  end.

(** Every parent has a smaller number, so the number of the first bounds the turns. *)
Definition lineageFuel (parent : option Z) : nat := match parent with None => O | Some g => S (Z.to_nat g) end.
Definition endless : error := PlainError (txt "the loop does not end").

Definition firstParent (r : CodexOSRun) (generation : Z) : option Z :=
  if bool_decide (state r = RuntimeStateRunning) || bool_decide (state r = RuntimeStatePaused) then currentParent r
  else if bool_decide (state r = RuntimeStateAwaitingNextGeneration) then Some generation else currentParent r.

Definition eligibleGenerations (r : CodexOSRun) (d : rundir) : result (list Z) :=
  match generationNumber r with
  | None => Ok []
  | Some generation =>
      let current := bool_decide (state r = RuntimeStateRunning) || bool_decide (state r = RuntimeStatePaused) in
      let parent := firstParent r generation in
      parents ← default (Err endless) (completedParents (lineageFuel parent) d parent);
      Ok (if current then generation :: parents else parents)
  end.

(** ** The view *)

(** One turn of the loop over a history: the applicable report and its verification. *)
Definition reportStep (run : bytes) (eligible : list Z)
    (v : option OperatorRequestRevision * option OperatorRequestRevision) (event : OperatorRequestRevision)
  : option OperatorRequestRevision * option OperatorRequestRevision :=
  let v := if bool_decide (Action event = bs "disposition") && bool_decide (actRunID (Actor event) = run)
              && match actGeneration (Actor event) with None => false | Some g => bool_decide (g ∈ eligible) end
           then (Some event, None) else v in
  match v.1 with
  | Some report =>
      if bool_decide (Action event = bs "verify") && (ReportRevision event =? rvRevision report)
         && bool_decide (actRunID (Actor event) = run)
      then (Some report, Some event) else v
  | None => v
  end.

Definition viewOf (run : bytes) (eligible : list Z) (request : OperatorRequest) : OperatorRequestView :=
  let v := fold_left (reportStep run eligible) (History request) (None, None) in
  mkView (rqID request) (rqTitle request) (rqDescription request) (Revision request) (Active request)
    (match History request with e :: _ => Actor e | [] => zeroActor end) v.1 v.2.

Definition operatorRequestsLocked (r : CodexOSRun) (d : rundir) (ld : ledgerDirectory) : result OperatorRequestContext :=
  ledger ← OperatorLedger.Snapshot ld;
  eligible ← (match requests_of ledger with [] => Ok [] | _ => eligibleGenerations r d end);
  Ok (mkContext (lgRunID ledger) (lgRevision ledger) (map (viewOf (lgRunID ledger) eligible) (requests_of ledger))).

Definition OperatorRequests (r : CodexOSRun) (d : rundir) (ld : ledgerDirectory) : result OperatorRequestContext :=
  operatorRequestsLocked r d ld.

Definition OperatorRequest_ (id : Z) (ld : ledgerDirectory) : result OperatorRequest :=
  ledger ← OperatorLedger.Snapshot ld;
  if (id =? 0) || (len (requests_of ledger) <? id) then Err (PlainError (txt "operator request does not exist"))
  else match requests_of ledger !! Z.to_nat (id - 1) with
       | Some request => Ok request
       | None => Err (PlainError (txt "index out of range"))
       end.

(** [user]: what [user.Current] gives. *)
Definition operatorRequestActorLocked (user : result bytes) (r : CodexOSRun) : result OperatorRequestActor :=
  match user with
  | Err err => Err (PlainError (txt "identify OS request operator: " ++ Error err))
  | Ok name => Ok (mkActor (bs "operator") name [] (generationNumber r) [] [])
  end.

(** The count of active requests in the run object. *)
Definition count_active (change : Z) (r : CodexOSRun) : CodexOSRun :=
  mkRun (activeOperatorRequests r + change) (sourceCapacity r) (state r) (generationNumber r) (previousHandoff r)
    (currentOperatorFeedback r) (runPending r) (currentParent r) (currentTransition r) (currentBootImage r)
    (currentHardware r) (retainedFinish r) (transitioning r).

(** ** Changes *)

Definition CreateOperatorRequest (w : surroundings) (user : result bytes) (title description : bytes)
    (s : CodexOSRun * ledgerDirectory) : result OperatorRequest * (CodexOSRun * ledgerDirectory) :=
  let (r, ld) := s in
  match operatorRequestActorLocked user r with
  | Err err => (Err err, s)
  | Ok actor =>
      match OperatorLedger.Create w actor title description ld with
      | (Ok request, ld) => (Ok request, (count_active 1 r, ld))
      | (Err err, ld) => (Err err, (r, ld))
      end
  end.

Definition WithdrawOperatorRequest (w : surroundings) (user : result bytes) (id : Z) (reason : bytes)
    (s : CodexOSRun * ledgerDirectory) : result OperatorRequest * (CodexOSRun * ledgerDirectory) :=
  let (r, ld) := s in
  match (actor ← operatorRequestActorLocked user r; request ← OperatorRequest_ id ld; Ok (actor, request)) with
  | Err err => (Err err, s)
  | Ok (actor, request) =>
      match Append w id (Revision request) (mkRevision 0 (bs "withdraw") actor [] [] reason [] 0) ld with
      | (Ok updated, ld) => (Ok updated, (count_active (-1) r, ld))
      | (Err err, ld) => (Err err, (r, ld))
      end
  end.

(** The loop that looks for the report to verify. *)
Definition verifiable (id revision : Z) (view : OperatorRequestView) : bool :=
  (vwID view =? id) && vwActive view
  && match Report view with
     | None => false
     | Some report => bool_decide (Disposition report = bs "completed") && (rvRevision report =? revision)
     end.

Definition VerifyOperatorRequest (w : surroundings) (user : result bytes) (id revision : Z) (note : bytes) (d : rundir)
    (s : CodexOSRun * ledgerDirectory) : result OperatorRequest * (CodexOSRun * ledgerDirectory) :=
  let (r, ld) := s in
  match (actor ← operatorRequestActorLocked user r; context ← operatorRequestsLocked r d ld; Ok (actor, context)) with
  | Err err => (Err err, s)
  | Ok (actor, context) =>
      match List.find (verifiable id revision) (cxRequests context) with
      | None => (Err (PlainError (txt "verification requires the current applicable completion report revision")), s)
      | Some view =>
          let (result, ld) := Append w id (vwRevision view) (mkRevision 0 (bs "verify") actor [] [] note [] revision) ld in
          (result, (r, ld))
      end
  end.

Definition RecordOperatorRequest (w : surroundings) (id revision : Z) (actor : OperatorRequestActor)
    (disposition explanation evidence : bytes) (s : CodexOSRun * ledgerDirectory)
  : result OperatorRequest * (CodexOSRun * ledgerDirectory) :=
  let (r, ld) := s in
  if transitioning r || negb (bool_decide (state r = RuntimeStateRunning)) || bool_decide (generationNumber r = None)
     || bool_decide (actGeneration actor = None) || negb (bool_decide (actGeneration actor = generationNumber r))
     || negb (bool_decide (Role actor = bs "implementor")) then
    (Err (PlainError (txt "operator request reports require the active implementor generation")), s)
  else
    let (result, ld) := Append w id revision (mkRevision 0 (bs "disposition") actor [] disposition explanation evidence 0) ld in
    (result, (r, ld)).

(** The loop of [NewCodexOSRun] that counts the active requests. *)
Definition activeCount (requests : list OperatorRequest) : Z := len (filter (λ r, Active r = true) requests).
Definition ledgerActive (ld : ledgerDirectory) : result Z :=
  ledger ← OperatorLedger.Snapshot ld; Ok (activeCount (requests_of ledger)).
