(* ===== verification/OperatorRequestsProofs.v ===== *)
(** * Operator requests of a run: the lineage, the view, the count *)

From S2P Require Import Prelude GoStd Sha256 SourceCapacity Snapshot Json FeatureStore FeatureProofs ArchiveRecord RunGate JsonTree OperatorLedger OperatorLedgerProofs OperatorRequests.
Open Scope Z_scope.

(** ** The lineage *)

(** The completed generations on the way from a generation to the initial one, as
    the archived metadata has them. *)
Inductive lineage (d : rundir) : option Z → list Z → Prop :=
| lineage_end : lineage d None []
| lineage_step g m rest :
    archiveMetadataOf d g = Ok m → lineage d (mdParent m) rest → (∀ p, mdParent m = Some p → p < g) →
    lineage d (Some g) (if bool_decide (mdOutcome m = bs "completed") then g :: rest else rest).

(** An ancestor of a generation, or the generation itself, whose metadata cannot be
    read. *)
Inductive broken (d : rundir) : option Z → error → Prop :=
| broken_here g e : archiveMetadataOf d g = Err e → broken d (Some g) e
| broken_above g m e : archiveMetadataOf d g = Ok m → broken d (mdParent m) e → broken d (Some g) e.

Lemma lineage_not_broken d parent l : lineage d parent l → ∀ e, ¬ broken d parent e.
Proof.
  induction 1 as [|g m rest Hm _ IH _]; intros e Hb; inversion Hb as [? ? He|? m' ? Hm' Hb']; [congruence|].
  assert (m' = m) as -> by congruence. by eapply IH.
Qed.

Lemma lineage_unique d parent l l' : lineage d parent l → lineage d parent l' → l = l'.
Proof.
  intros Hl. revert l'. induction Hl as [|g m rest Hm _ IH _]; intros l' Hl'; inversion Hl' as [|? m' rest' Hm' Hr' _]; [done|].
  assert (m' = m) as -> by congruence. by rewrite (IH rest').
Qed.

Lemma broken_unique d parent e e' : broken d parent e → broken d parent e' → e = e'.
Proof.
  intros Hb. revert e'. induction Hb as [g e He|g m e Hm _ IH]; intros e' Hb'; inversion Hb' as [? ? He'|? m' ? Hm' Hb'']; try congruence.
  apply IH. by assert (m' = m) as <- by congruence.
Qed.

Lemma metadata_parent raw g m p :
  parseGenerationMetadata raw g = Ok m → mdParent m = Some p → 0 ≤ p < g.
Proof.
  unfold parseGenerationMetadata. destruct (decodeJSON_fields raw) as [fields|]; [|done].
  destruct (negb _); [done|]. destruct (fields !! bs "generation") as [rawGen|]; [|done]. destruct (fields !! bs "outcome") as [rawOut|]; [|done].
  destruct (fields !! bs "parent_generation") as [rawParent|]; [|done]. destruct (fields !! bs "transition") as [rawTr|]; [|done].
  destruct (parseJSONUnsigned rawGen) as [g'|]; [|done]. destruct (Z.eqb_spec g' g) as [-> | _]; [|done]. cbn [negb].
  destruct (json.decode_string rawOut); [|done]. destruct (_ && _); [done|].
  destruct (if is_null rawTr then Some [] else json.decode_string rawTr); [|done].
  intros H. apply bind_Ok in H as (parent & Hp & H). destruct (lineage_ok g parent _) eqn:El; [|done]. injection H as <-.
  cbn [mdParent]. intros ->. destruct (is_null rawParent) eqn:En; [done|].
  destruct (parseJSONUnsigned rawParent) as [v|] eqn:Ev; [|done]. injection Hp as <-.
  unfold lineage_ok in El. destruct (g =? 0); [by cbn in El|]. apply andb_true_iff in El as [El _]. zbool.
  unfold parseJSONUnsigned in Ev. rewrite En in Ev. unfold json.decode_uint in Ev.
  destruct (json.skip_space rawParent); [done|]. apply bind_Some in Ev as (? & _ & Ev).
  apply ParseUint_range in Ev as [? _]. lia.
Qed.

Lemma archived_parent d g m p : archiveMetadataOf d g = Ok m → mdParent m = Some p → 0 ≤ p < g.
Proof.
  unfold archiveMetadataOf. destruct (entries d !! generationName g) as [[dir|]|]; try done.
  intros (raw & _ & Em)%bind_Ok. by apply (metadata_parent raw).
Qed.

(** What the search finds, and that it ends. *)
Definition found (d : rundir) (parent : option Z) (res : result (list Z)) : Prop :=
  match res with Ok l => lineage d parent l | Err e => broken d parent e end.

Lemma completedParents_ends d parent fuel : (lineageFuel parent ≤ fuel)%nat →
  ∃ res, completedParents fuel d parent = Some res ∧ found d parent res.
Proof.
  revert parent. induction fuel as [|fuel IH]; intros [g|] Hf; cbn [lineageFuel] in Hf; cbn [completedParents];
    try (eexists; split; [done|constructor]); [lia|].
  destruct (archiveMetadataOf d g) as [m|e] eqn:Em; [|eexists; split; [done|by constructor]].
  assert (Hp : ∀ p, mdParent m = Some p → 0 ≤ p < g) by (intros p; by apply (archived_parent d)).
  assert (Hfu : (lineageFuel (mdParent m) ≤ fuel)%nat).
  { destruct (mdParent m) as [p|]; cbn [lineageFuel]; [|lia]. specialize (Hp p eq_refl). lia. }
  destruct (IH _ Hfu) as (res & -> & Hres). cbn [mbind option_bind]. replace (match mdParent m with Some _ => _ | None => _ end) with false.
  - eexists. split; [done|]. destruct res as [l|e]; cbn [found mbind result_bind]; [|by eapply broken_above].
    apply lineage_step; [done|done|]. intros p Ep. by apply Hp.
  - destruct (mdParent m) as [p|]; [|done]. specialize (Hp p eq_refl). symmetry. apply Z.leb_gt. lia.
Qed.

(** C37: The search for the ancestors of a generation ends, for every directory and
    within one turn for each number up to the first: it finds the completed ones among
    the archived ancestors, in order, exactly when the metadata of all of them can be
    read, and otherwise fails with what made the first of them unreadable (never for a
    parent that is not older). The generations whose reports count for the run are these
    and, while it runs or is paused, the current one; none of another branch. *)
Theorem eligible_is_lineage r d g :
  generationNumber r = Some g →
  let running := bool_decide (state r = RuntimeStateRunning) || bool_decide (state r = RuntimeStatePaused) in
  let first := firstParent r g in
  ∃ res, (∀ fuel, (lineageFuel first ≤ fuel)%nat → completedParents fuel d first = Some res)
    ∧ (∀ parents, res = Ok parents ↔ lineage d first parents)
    ∧ (∀ e, res = Err e ↔ broken d first e)
    ∧ eligibleGenerations r d = (parents ← res; Ok (if running then g :: parents else parents)).
Proof.
  intros Hg. cbn zeta. set (first := firstParent r g). destruct (completedParents_ends d first (lineageFuel first) ltac:(lia)) as (res & E & Hf).
  exists res. split; [|split; [|split]].
  - intros fuel Hfuel. destruct (completedParents_ends d first fuel Hfuel) as (res' & -> & Hf'). f_equal.
    destruct res as [l|e], res' as [l'|e']; cbn [found] in *.
    + by rewrite (lineage_unique _ _ _ _ Hf Hf').
    + by destruct (lineage_not_broken _ _ _ Hf _ Hf').
    + by destruct (lineage_not_broken _ _ _ Hf' _ Hf).
    + by rewrite (broken_unique _ _ _ _ Hf Hf').
  - intros l. split; [by intros ->|]. intros Hl. destruct res as [l'|e]; cbn [found] in Hf; [by rewrite (lineage_unique _ _ _ _ Hf Hl)|].
    by destruct (lineage_not_broken _ _ _ Hl _ Hf).
  - intros e. split; [by intros ->|]. intros He. destruct res as [l'|e']; cbn [found] in Hf; [by destruct (lineage_not_broken _ _ _ Hf _ He)|].
    by rewrite (broken_unique _ _ _ _ Hf He).
  - unfold eligibleGenerations. rewrite Hg. cbn zeta. fold first. by rewrite E.
Qed.

(** ** The view *)

(** An entry that reports for this run and lineage, and one that verifies a report. *)
Definition is_report (run : bytes) (eligible : list Z) (e : OperatorRequestRevision) : bool :=
  bool_decide (Action e = bs "disposition") && bool_decide (actRunID (Actor e) = run)
  && match actGeneration (Actor e) with None => false | Some g => bool_decide (g ∈ eligible) end.
Definition verifies (run : bytes) (report e : OperatorRequestRevision) : bool :=
  bool_decide (Action e = bs "verify") && (ReportRevision e =? rvRevision report) && bool_decide (actRunID (Actor e) = run).

Lemma report_not_verify run eligible report e : is_report run eligible e = true → verifies run report e = false.
Proof.
  unfold is_report, verifies. intros H. zbool. rewrite bool_decide_eq_false_2; [done|].
  match goal with H : Action e = _ |- _ => rewrite H end. done.
Qed.

Lemma reportStep_eq run eligible v e :
  reportStep run eligible v e =
  if is_report run eligible e then (Some e, None)
  else match v.1 with
       | Some report => if verifies run report e then (Some report, Some e) else v
       | None => v
       end.
Proof.
  unfold reportStep. fold (is_report run eligible e). destruct (is_report run eligible e) eqn:E; cbn [fst].
  - fold (verifies run e e). by rewrite (report_not_verify run eligible e e E).
  - done.
Qed.

Lemma fold_without_report run eligible l :
  Forall (λ e, is_report run eligible e = false) l → fold_left (reportStep run eligible) l (None, None) = (None, None).
Proof. induction 1 as [|e l He _ IH]; [done|]. cbn [fold_left]. by rewrite reportStep_eq, He. Qed.

Lemma fold_after_report run eligible report v l :
  Forall (λ e, is_report run eligible e = false) l →
  fold_left (reportStep run eligible) l (Some report, v)
  = (Some report, match last (filter (λ e, verifies run report e = true) l) with Some e => Some e | None => v end).
Proof.
  intros H. revert v. induction H as [|e l He _ IH]; intros v; [done|]. cbn [fold_left].
  rewrite reportStep_eq, He. cbn [fst]. rewrite filter_cons. destruct (verifies run report e) eqn:Ev.
  - rewrite IH, decide_True by done. rewrite last_cons.
    by destruct (last (filter (λ e0, verifies run report e0 = true) l)).
  - rewrite IH, decide_False by done. done.
Qed.

Lemma fold_report_app run eligible v pre report post :
  is_report run eligible report = true → Forall (λ e, is_report run eligible e = false) post →
  fold_left (reportStep run eligible) (pre ++ report :: post) v
  = (Some report, last (filter (λ e, verifies run report e = true) post)).
Proof.
  intros Hr Hp. rewrite fold_left_app. cbn [fold_left]. rewrite reportStep_eq, Hr, fold_after_report by done.
  by destruct (last _).
Qed.

(** The view of a request shows as its report the latest disposition recorded in
    this run by a generation of the lineage, and as its verification the latest
    operator attestation of exactly that report made after it; without such a
    disposition it shows neither, whatever other runs or branches recorded. *)
Theorem view_shows_latest_report run eligible rq :
  let view := viewOf run eligible rq in
  (Forall (λ e, is_report run eligible e = false) (History rq) → Report view = None ∧ Verification view = None)
  ∧ (∀ pre report post, History rq = pre ++ report :: post → is_report run eligible report = true →
       Forall (λ e, is_report run eligible e = false) post →
       Report view = Some report ∧ Verification view = last (filter (λ e, verifies run report e = true) post)).
Proof.
  cbn zeta. unfold viewOf. cbn [Report Verification]. split.
  - intros H. by rewrite fold_without_report.
  - intros pre report post -> Hr Hp. by rewrite fold_report_app.
Qed.

(** ** The count of active requests *)

Lemma activeCount_app l k : activeCount (l ++ k) = activeCount l + activeCount k.
Proof. unfold activeCount. by rewrite filter_app, len_app. Qed.

Lemma activeCount_cons r l : activeCount (r :: l) = (if Active r then 1 else 0) + activeCount l.
Proof.
  unfold activeCount. rewrite filter_cons. destruct (Active r); [rewrite decide_True by done|rewrite decide_False by done].
  - by rewrite len_cons.
  - lia.
Qed.

Lemma activeCount_insert l i r r' :
  l !! i = Some r →
  activeCount (<[i := r']> l) = activeCount l - (if Active r then 1 else 0) + (if Active r' then 1 else 0).
Proof.
  revert i. induction l as [|x l IH]; intros [|i] H; try done; cbn in H.
  - injection H as ->. change (<[0%nat := r']> (r :: l)) with (r' :: l). rewrite !activeCount_cons. lia.
  - change (<[S i := r']> (x :: l)) with (x :: <[i := r']> l). rewrite !activeCount_cons, (IH i H). lia.
Qed.

Lemma Active_snoc id title description h e :
  Active (mkOperatorRequest id title description (h ++ [e])) = negb (bool_decide (Action e = bs "withdraw")).
Proof. unfold Active. cbn [History]. by rewrite last_snoc. Qed.

(** What an append does to the ledger that is read. *)
Lemma Append_effect w id expected entry ld l res ld' :
  readOperatorRequests ld = Ok l → actor_range (Actor entry) → u64 (ReportRevision entry) →
  Append w id expected entry ld = (res, ld') →
  ∃ l', readOperatorRequests ld' = Ok l'
    ∧ ((l' = l ∧ ∃ err, res = Err err)
       ∨ (∃ r latest q, requests_of l !! Z.to_nat (id - 1) = Some r ∧ last (History r) = Some latest
           ∧ (res = Ok q ∨ ∃ err, res = Err err ∧ writeFault w = AfterRename err)
           ∧ ((rvRevision latest = wrap64 (expected + 1) ∧ l' = l)
              ∨ (Active r = true ∧ requests_of l' = <[Z.to_nat (id - 1) := q]> (requests_of l)
                 ∧ Active q = negb (bool_decide (Action entry = bs "withdraw")))))).
Proof.
  intros Hread Ha Hp H.
  destruct (change_keeps _ _ _ _ _ _ (appendUpdate_ok _ _ _ _ Ha Hp) Hread H) as (l' & Hread' & _ & [(_ & -> & He) | Hc]).
  { exists l. split; [done|]. by left. }
  exists l'. split; [done|]. destruct Hc as (l0 & q & Hu & Eq & Hl & _ & _ & _ & Hres). right.
  apply appendUpdate_inv in Hu as (r & latest & Hi & Hlast & _ & Hcase). cbn zeta in Hcase.
  destruct Hl as [<- | ->]; [|rewrite Eq in Hi; done]. exists r, latest, q. split_and!; try done.
  destruct Hcase as [(E & -> & ->) | (_ & Hact & -> & ->)]; [left|right].
  - split; [|done]. by rewrite <- E.
  - split_and!; [done|done|by rewrite Active_snoc].
Qed.

(** The run object's count is the number of active requests in the ledger. *)
Definition counted (s : CodexOSRun * ledgerDirectory) : Prop :=
  ∃ l, readOperatorRequests s.2 = Ok l ∧ activeOperatorRequests s.1 = activeCount (requests_of l).

(** No fault after the new ledger was renamed into place. *)
Definition synced (w : surroundings) : Prop := ∀ err, writeFault w ≠ AfterRename err.

(** One method of the run object, with any other fault. *)
Inductive requests_step : relation (CodexOSRun * ledgerDirectory) :=
| rs_create w user title description s res s' :
    synced w → from_option u64 True (generationNumber s.1) →
    CreateOperatorRequest w user title description s = (res, s') → requests_step s s'
| rs_withdraw w user id reason s res s' :
    synced w → from_option u64 True (generationNumber s.1) → u64 id →
    WithdrawOperatorRequest w user id reason s = (res, s') → requests_step s s'
| rs_verify w user id revision note d s res s' :
    synced w → from_option u64 True (generationNumber s.1) → u64 id → u64 revision →
    VerifyOperatorRequest w user id revision note d s = (res, s') → requests_step s s'
| rs_record w id revision actor disposition explanation evidence s res s' :
    synced w → actor_range actor →
    RecordOperatorRequest w id revision actor disposition explanation evidence s = (res, s') → requests_step s s'.

Lemma actor_locked user r actor :
  operatorRequestActorLocked user r = Ok actor → from_option u64 True (generationNumber r) → actor_range actor.
Proof. unfold operatorRequestActorLocked. destruct user; [|done]. by intros [= <-]. Qed.

(** An append that withdraws nothing leaves the count. *)
Lemma Append_counted w id expected entry r ld res ld' :
  synced w → counted (r, ld) → actor_range (Actor entry) → u64 (ReportRevision entry) → Action entry ≠ bs "withdraw" →
  Append w id expected entry ld = (res, ld') → counted (r, ld').
Proof.
  intros Hs (l & Hread & Hc) Ha Hp Hne H. cbn in *.
  destruct (Append_effect _ _ _ _ _ _ _ _ Hread Ha Hp H) as (l' & Hread' & [[-> _] | (q & latest & q' & Hi & _ & _ & Hcase)]).
  { by exists l. }
  exists l'. split; [done|]. cbn. rewrite Hc. destruct Hcase as [[_ ->] | (Hact & -> & Hq)]; [done|].
  rewrite (activeCount_insert _ _ _ _ Hi), Hact, Hq, (bool_decide_eq_false_2 _ Hne). cbn. lia.
Qed.

Lemma create_counted w user title description s res s' :
  synced w → from_option u64 True (generationNumber s.1) → counted s →
  CreateOperatorRequest w user title description s = (res, s') → counted s'.
Proof.
  intros Hs Hg Hc H. destruct s as [r ld]. unfold CreateOperatorRequest in H.
  destruct (operatorRequestActorLocked user r) as [actor|e] eqn:Ea; [|by injection H as <- <-].
  destruct (Create w actor title description ld) as [res' ld'] eqn:Ec.
  destruct Hc as (l & Hread & Hc). cbn in Hread, Hc.
  apply Create_cases in Ec as [[-> [err ->]] | Ec]; [injection H as <- <-; by exists l|].
  destruct (change_keeps _ _ _ _ _ _ (createUpdate_ok _ _ _ _ (actor_locked _ _ _ Ea Hg)) Hread Ec)
    as (l' & Hread' & _ & [(-> & -> & err & ->) | (l0 & q & Hu & Eq & _ & _ & _ & _ & Hr)]).
  { injection H as <- <-. by exists l. }
  destruct Hr as [-> | (err & -> & Hf)]; [|by apply Hs in Hf]. injection H as <- <-. exists l'. split; [done|]. cbn.
  unfold createUpdate in Hu. destruct (_ <=? _); [done|]. injection Hu as <- <-.
  rewrite requests_of_mk, activeCount_app, activeCount_cons, Hc, Eq. change (activeCount []) with 0.
  match goal with |- context [Active ?x] => change (if Active x then 1 else 0) with 1 end. lia.
Qed.

Lemma wrap64_small n : 0 ≤ n < 2 ^ 64 → wrap64 n = n.
Proof. apply Z.mod_small. Qed.

(** The latest entry of a request that is read carries its revision. *)
Lemma latest_revision ld l i r latest :
  readOperatorRequests ld = Ok l → requests_of l !! i = Some r → last (History r) = Some latest →
  rvRevision latest = Revision r ∧ Revision r ≤ 4096.
Proof.
  intros Hread Hi Hl. destruct (read_history _ _ _ _ Hread Hi) as [b Hh].
  destruct (read_cases _ _ Hread) as [[-> _] | [(Hv & _) _]]; [done|].
  pose proof (validate_ok l Hv) as Ho. pose proof (Forall_lookup_1 _ _ _ _ (lo_requests _ Ho) Hi) as (_ & _ & _ & _ & Hlen).
  split; [|done]. rewrite last_lookup in Hl.
  destruct (validateHistory_lookup _ _ _ _ _ _ _ Hh Hl) as (w & b' & He). apply validateEntry_inv in He as [_ He].
  destruct He. unfold Revision, len. destruct (History r); [done|]. cbn in *. lia.
Qed.

Lemma withdraw_counted w user id reason s res s' :
  synced w → from_option u64 True (generationNumber s.1) → u64 id → counted s →
  WithdrawOperatorRequest w user id reason s = (res, s') → counted s'.
Proof.
  intros Hs Hg Hid Hc H. destruct s as [r ld]. unfold WithdrawOperatorRequest in H.
  destruct (operatorRequestActorLocked user r) as [actor|e] eqn:Ea; [|by injection H as <- <-]. cbn [mbind result_bind] in H.
  destruct Hc as (l & Hread & Hc). cbn in Hread, Hc. unfold OperatorRequest_, OperatorLedger.Snapshot in H. rewrite Hread in H.
  cbn [mbind result_bind] in H. destruct (_ || _); [injection H as <- <-; by exists l|].
  destruct (requests_of l !! Z.to_nat (id - 1)) as [rq|] eqn:Hi; [|injection H as <- <-; by exists l].
  cbn [mbind result_bind] in H. destruct (Append w id _ _ ld) as [res' ld'] eqn:Eap.
  pose proof (actor_locked _ _ _ Ea Hg) as Ha. assert (H0 : u64 0) by (by vm_compute).
  destruct (Append_effect _ _ _ (mkRevision 0 (bs "withdraw") actor [] [] reason [] 0) _ _ _ _ Hread Ha H0 Eap) as (l' & Hread' & [[-> [err ->]] | (q & latest & q' & Hi' & Hl & Hr & Hcase)]).
  { injection H as <- <-. by exists l. }
  rewrite Hi in Hi'. injection Hi' as <-. destruct (latest_revision _ _ _ _ _ Hread Hi Hl) as [Hrev Hmax].
  destruct Hr as [-> | (err & -> & Hf)]; [|by apply Hs in Hf]. injection H as <- <-. exists l'. split; [done|]. cbn.
  destruct Hcase as [[E _] | (Hact & -> & Hq)].
  - exfalso. rewrite Hrev, wrap64_small in E; unfold Revision in *; pose proof (len_nonneg (History rq)); lia.
  - change (Active q' = false) in Hq. rewrite (activeCount_insert _ _ _ _ Hi), Hact, Hq, Hc. lia.
Qed.

(** The run object's count of active requests equals the number of active
    requests in the durable ledger after every sequence of creations, withdrawals,
    verifications and reports, successful or not, as long as no fault strikes after
    a new ledger has been renamed into place. *)
Theorem active_count_exact s s' : counted s → rtc requests_step s s' → counted s'.
Proof.
  intros Hc Hsteps. induction Hsteps as [|s1 s2 s3 Hstep _ IH]; [done|]. apply IH. clear IH.
  destruct Hstep as [w user title description s res s' Hs Hg H|w user id reason s res s' Hs Hg Hid H
    |w user id revision note d s res s' Hs Hg Hid Hrv H|w id revision actor disposition explanation evidence s res s' Hs Ha H].
  - by eapply create_counted.
  - by eapply withdraw_counted.
  - destruct s as [r ld]. unfold VerifyOperatorRequest in H.
    destruct (operatorRequestActorLocked user r) as [actor|e] eqn:Ea; [|by injection H as <- <-]. cbn [mbind result_bind] in H.
    destruct (operatorRequestsLocked r d ld) as [cx|e]; [|by injection H as <- <-]. cbn [mbind result_bind] in H.
    destruct (List.find _ _) as [view|]; [|by injection H as <- <-].
    destruct (Append w id _ _ ld) as [res' ld'] eqn:Eap. injection H as <- <-.
    eapply Append_counted; [exact Hs|exact Hc| | | |exact Eap]; [by eapply actor_locked|exact Hrv|done].
  - destruct s as [r ld]. unfold RecordOperatorRequest in H. destruct (_ || _); [by injection H as <- <-|].
    destruct (Append w id _ _ ld) as [res' ld'] eqn:Eap. injection H as <- <-.
    eapply Append_counted; [exact Hs|exact Hc| | | |exact Eap]; [exact Ha|by vm_compute|done].
Qed.

(** ** A concrete run *)

Module run_example.

Definition running : CodexOSRun :=
  mkRun 0 0 RuntimeStateRunning (Some 3) None None None (Some 1) (bs "successor") [] noHardware None false.
Definition s0 := (running, example.d0).
Definition created := CreateOperatorRequest (example.at_ "01") (Ok (bs "ada")) (bs "Files") (bs "Support files") s0.
Definition withdrawn := WithdrawOperatorRequest (example.at_ "02") (Ok (bs "ada")) 1 (bs "enough") created.2.

Lemma at_synced minute : synced (example.at_ minute).
Proof. done. Qed.

Lemma run_steps : rtc requests_step s0 withdrawn.2.
Proof.
  eapply rtc_l; [refine (rs_create (example.at_ "01") (Ok (bs "ada")) (bs "Files") (bs "Support files") s0 created.1 created.2
    (at_synced _) _ (surjective_pairing _)); by vm_compute|].
  eapply rtc_l; [refine (rs_withdraw (example.at_ "02") (Ok (bs "ada")) 1 (bs "enough") created.2 withdrawn.1 withdrawn.2
    (at_synced _) _ _ (surjective_pairing _)); by vm_compute|]. apply rtc_refl.
Qed.

Lemma s0_counted : counted s0.
Proof. exists emptyLedger. done. Qed.

(** Two completed ancestors and an aborted branch in between. *)
Definition archive (g : Z) (outcome : bytes) (parent : option Z) (transition : bytes) : rundirent :=
  ArchiveEntry (mkArchiveDir (Ok false) (Ok 0) (Ok (archiveMetadata g outcome parent transition)) (Ok noHardware) None (Ok false)
    None (Ok []) (Ok []) (Ok []) None None [] (Err missing_artifact)).
Definition directory : rundir :=
  mkRundir (<[generationName 0 := archive 0 (bs "completed") None (bs "initial")]>
            (<[generationName 1 := archive 1 (bs "completed") (Some 0) (bs "successor")]>
             (<[generationName 2 := archive 2 (bs "aborted") (Some 1) (bs "successor")]> ∅))) FbMissing (Ok 0).

Lemma eligible : eligibleGenerations running directory = Ok [3; 1; 0].
Proof. vm_compute. reflexivity. Qed.

(** The directory sync after the rename fails. *)
Definition unsynced : surroundings :=
  mkSurroundings None (Ok (replicate 16 x2a)) (bs "2026-01-02T10:01:00Z") (AfterRename (SystemError (txt "I/O error"))).
Definition drifted := CreateOperatorRequest unsynced (Ok (bs "ada")) (bs "Files") (bs "Support files") s0.

End run_example.

Lemma active_count_exact_witness : counted run_example.withdrawn.2.
Proof. exact (active_count_exact run_example.s0 run_example.withdrawn.2 run_example.s0_counted run_example.run_steps). Defined.

Lemma eligible_is_lineage_witness :
  ∃ parents, lineage run_example.directory (Some 1) parents ∧ [3; 1; 0] = 3 :: parents.
Proof.
  destruct (eligible_is_lineage run_example.running run_example.directory 3 eq_refl) as ([parents|e] & _ & Hl & _ & E).
  - exists parents. split; [exact (proj1 (Hl parents) eq_refl)|]. rewrite run_example.eligible in E.
    exact (f_equal (λ r, match r with Ok l => l | Err _ => [] end) E).
  - rewrite run_example.eligible in E. discriminate E.
Defined.

(** The count is not exact under every fault: when the directory sync fails
    after the rename, the creation reports an error and is not counted, although the
    request is durable and active. *)
Theorem active_count_drifts :
  is_ok run_example.drifted.1 = false
  ∧ activeOperatorRequests run_example.drifted.2.1 = 0
  ∧ ledgerActive run_example.drifted.2.2 = Ok 1.
Proof. vm_compute. done. Qed.
