(* ===== verification/DynamicCall.v ===== *)
(** * Routing of dynamic tool calls (src/internal/agent/dynamic_call.go)

    The router that decides for each tool call of a session whether its result was
    delivered, rejected, orphaned or yielded. Routing objects are shared between
    the router's tables and the goroutines that handle the calls; they live in a
    heap here and a [*dynamicCallRouting] is an index into it. Each definition that names a
    method is one critical section of the router's mutex (a method that takes it
    twice is two definitions); the events a section decides to record are appended
    to a log, in the order of the sections. *)

From S2P Require Import Prelude GoStd Json JsonTree.
Open Scope Z_scope.

Definition maxTerminalDynamicTurns : Z := 256.

Record dynamicCallRouting := mkRouting {
  requestID : jvalue;
  callID : bytes;
  threadID : bytes;
  turnID : bytes;
  turnPhase : bytes;
  tool : bytes;
  resultReady : bool;
  responseWriteAttempted : bool;
  terminalOutcome : bytes;
  turnTerminalRecorded : bool;
  handlerFinished : bool;
  handlerReserved : bool;
  handlerStarted : bool
}.

Record dynamicCallKey := mkCallKey { ckThread : bytes; ckTurn : bytes; ckCall : bytes }.
Record dynamicTurnKey := mkTurnKey { tkThread : bytes; tkTurn : bytes }.

#[global] Instance dynamicCallKey_eq : EqDecision dynamicCallKey.
Proof. solve_decision. Defined.
#[global] Instance dynamicCallKey_countable : Countable dynamicCallKey.
Proof.
  refine (inj_countable' (λ k, (ckThread k, ckTurn k, ckCall k)) (λ x, mkCallKey x.1.1 x.1.2 x.2) _). by intros [].
Defined.
#[global] Instance dynamicTurnKey_eq : EqDecision dynamicTurnKey.
Proof. solve_decision. Defined.
#[global] Instance dynamicTurnKey_countable : Countable dynamicTurnKey.
Proof. refine (inj_countable' (λ k, (tkThread k, tkTurn k)) (λ x, mkTurnKey x.1 x.2) _). by intros []. Defined.

(** An event for the recorder; [subject] is the call it is about. *)
Record devent := mkEvent { evName : bytes; evSubject : option nat; evData : list (bytes * jvalue) }.

Abbreviation pointer := nat.

Record dynamicCallRouter := mkRouter {
  heap : list dynamicCallRouting;
  calls : gmap dynamicCallKey pointer;
  order : list pointer;
  terminalTurns : gset dynamicTurnKey;
  terminalOrder : list dynamicTurnKey;
  recorded : list devent
}.

Definition newDynamicCallRouter : dynamicCallRouter := mkRouter [] ∅ [] ∅ [] [].

(** ** Reading a request *)

Definition dynamicCallInteger (value : bytes) : bool :=
  let digits := match value with b :: r => if decide (b = x2d) then r else value | [] => [] end in
  negb (bool_decide (digits = [])) && forallb strconv.is_digit digits.

(** The message is decoded with [UseNumber]: an ID is a string or a number literal. *)
Definition dynamicCallRequestID (value : option jvalue) : option jvalue :=
  match value with
  | Some (JString s) => Some (JString s)
  | Some (JNumber w) => if dynamicCallInteger w then Some (JNumber w) else None
  | _ => None
  end.

Definition nonempty (s : option bytes) : option bytes :=
  match s with Some (b :: r) => Some (b :: r) | _ => None end.

(** The call a message asks for. *)
Definition requestedCall (message : jvalue) : option (jvalue * bytes * bytes * bytes * bytes) :=
  params ← match get "params" message with Some (JObject l) => Some (JObject l) | _ => None end;
  id ← dynamicCallRequestID (get "id" message);
  call ← nonempty (get_string "callId" params);
  thread ← nonempty (get_string "threadId" params);
  turn ← nonempty (get_string "turnId" params);
  name ← nonempty (get_string "tool" params);
  Some (id, call, thread, turn, name).

(** ** Sections *)

Definition newRouting (id : jvalue) (call thread turn phase name : bytes) : dynamicCallRouting :=
  mkRouting id call thread turn phase name false false [] false false false false.

Definition ensure (message : jvalue) (thread turn phase : bytes) (r : dynamicCallRouter)
  : option pointer * dynamicCallRouter :=
  match requestedCall message with
  | None => (None, r)
  | Some (id, call, requestThread, requestTurn, name) =>
      let key := mkCallKey requestThread requestTurn call in
      match calls r !! key with
      | Some existing => (Some existing, r)
      | None =>
          if bool_decide (mkTurnKey requestThread requestTurn ∈ terminalTurns r) then (None, r)
          else if negb (bool_decide (requestThread = thread)) || negb (bool_decide (requestTurn = turn))
                  || bool_decide (phase = []) then (None, r)
          else
            let p := length (heap r) in
            (Some p, mkRouter (heap r ++ [newRouting id call requestThread requestTurn phase name])
                       (<[key := p]> (calls r)) (order r ++ [p]) (terminalTurns r) (terminalOrder r) (recorded r))
      end
  end.

Definition identity (routing : dynamicCallRouting) : list (bytes * jvalue) :=
  [(bs "request_id", requestID routing); (bs "call_id", JString (callID routing)); (bs "thread_id", JString (threadID routing));
   (bs "turn_id", JString (turnID routing)); (bs "turn_phase", JString (turnPhase routing)); (bs "tool", JString (tool routing))].

Definition set_heap (h : list dynamicCallRouting) (r : dynamicCallRouter) : dynamicCallRouter :=
  mkRouter h (calls r) (order r) (terminalTurns r) (terminalOrder r) (recorded r).
Definition recordEvents (l : list devent) (r : dynamicCallRouter) : dynamicCallRouter :=
  mkRouter (heap r) (calls r) (order r) (terminalTurns r) (terminalOrder r) (recorded r ++ l).

(** The field updates of a routing object. *)
Definition with_ready (c : dynamicCallRouting) := mkRouting (requestID c) (callID c) (threadID c) (turnID c) (turnPhase c) (tool c)
  true (responseWriteAttempted c) (terminalOutcome c) (turnTerminalRecorded c) (handlerFinished c) (handlerReserved c) (handlerStarted c).
Definition with_attempted (c : dynamicCallRouting) := mkRouting (requestID c) (callID c) (threadID c) (turnID c) (turnPhase c) (tool c)
  (resultReady c) true (terminalOutcome c) (turnTerminalRecorded c) (handlerFinished c) (handlerReserved c) (handlerStarted c).
Definition with_outcome (o : bytes) (c : dynamicCallRouting) := mkRouting (requestID c) (callID c) (threadID c) (turnID c) (turnPhase c)
  (tool c) (resultReady c) (responseWriteAttempted c) o (turnTerminalRecorded c) (handlerFinished c) (handlerReserved c) (handlerStarted c).
Definition with_turn_terminal (c : dynamicCallRouting) := mkRouting (requestID c) (callID c) (threadID c) (turnID c) (turnPhase c)
  (tool c) (resultReady c) (responseWriteAttempted c) (terminalOutcome c) true (handlerFinished c) (handlerReserved c) (handlerStarted c).
Definition with_finished (c : dynamicCallRouting) := mkRouting (requestID c) (callID c) (threadID c) (turnID c) (turnPhase c) (tool c)
  (resultReady c) (responseWriteAttempted c) (terminalOutcome c) (turnTerminalRecorded c) true (handlerReserved c) (handlerStarted c).
Definition with_reserved (c : dynamicCallRouting) := mkRouting (requestID c) (callID c) (threadID c) (turnID c) (turnPhase c) (tool c)
  (resultReady c) (responseWriteAttempted c) (terminalOutcome c) (turnTerminalRecorded c) (handlerFinished c) true (handlerStarted c).
Definition with_started (c : dynamicCallRouting) := mkRouting (requestID c) (callID c) (threadID c) (turnID c) (turnPhase c) (tool c)
  (resultReady c) (responseWriteAttempted c) (terminalOutcome c) (turnTerminalRecorded c) (handlerFinished c) (handlerReserved c) true.

Definition markResultReady (p : option pointer) (r : dynamicCallRouter) : dynamicCallRouter :=
  match p with
  | None => r
  | Some p =>
      match heap r !! p with
      | None => r
      | Some c =>
          if resultReady c then r
          else recordEvents [mkEvent (bs "tool_result_ready") (Some p) (identity c)] (set_heap (<[p := with_ready c]> (heap r)) r)
      end
  end.

Definition markResponseWriteAttempted (p : option pointer) (r : dynamicCallRouter) : dynamicCallRouter :=
  match p with
  | None => r
  | Some p =>
      match heap r !! p with
      | None => r
      | Some c =>
          if responseWriteAttempted c then r
          else recordEvents [mkEvent (bs "tool_response_write_attempted") (Some p) (identity c)]
                 (set_heap (<[p := with_attempted c]> (heap r)) r)
      end
  end.

Definition outcomes : list bytes := [bs "delivered"; bs "rejected"; bs "orphaned"; bs "yielded"].

Definition terminalEvent (p : pointer) (c : dynamicCallRouting) (outcome itemStatus : bytes) : devent :=
  mkEvent (bs "tool_result_" ++ outcome) (Some p)
    (identity c ++ if bool_decide (itemStatus = []) then [] else [(bs "item_status", JString itemStatus)]).

Definition finish (p : option pointer) (outcome itemStatus : bytes) (r : dynamicCallRouter) : bool * dynamicCallRouter :=
  match p with
  | None => (false, r)
  | Some p =>
      if negb (bool_decide (outcome ∈ outcomes)) then (false, r)
      else match heap r !! p with
      | None => (false, r)
      | Some c =>
          if negb (bool_decide (terminalOutcome c = [])) then (false, r)
          else (true, recordEvents [terminalEvent p c outcome itemStatus] (set_heap (<[p := with_outcome outcome c]> (heap r)) r))
      end
  end.

Definition mayWrite (p : option pointer) (thread turn phase : bytes) (interrupted : bool) (r : dynamicCallRouter) : bool :=
  match p with
  | None => false
  | Some p =>
      match heap r !! p with
      | None => false
      | Some c =>
          if negb (bool_decide (terminalOutcome c = [])) then false
          else interrupted || (bool_decide (threadID c = thread) && bool_decide (turnID c = turn) && bool_decide (turnPhase c = phase))
      end
  end.

Definition reserveHandler (p : option pointer) (r : dynamicCallRouter) : bool * dynamicCallRouter :=
  match p with
  | None => (false, r)
  | Some p =>
      match heap r !! p with
      | None => (false, r)
      | Some c => if handlerReserved c then (false, r) else (true, set_heap (<[p := with_reserved c]> (heap r)) r)
      end
  end.

Definition startHandler (p : option pointer) (r : dynamicCallRouter) : bool * dynamicCallRouter :=
  match p with
  | None => (false, r)
  | Some p =>
      match heap r !! p with
      | None => (false, r)
      | Some c =>
          if negb (handlerReserved c) || handlerStarted c || handlerFinished c then (false, r)
          else (true, set_heap (<[p := with_started c]> (heap r)) r)
      end
  end.

(** The first section of [releaseUnstarted], as a loop over the order: the heap,
    the released calls and those of them that become rejected. *)
Fixpoint releaseLoop (thread turn : bytes) (l : list pointer) (h : list dynamicCallRouting)
  : list dynamicCallRouting * list pointer * list devent :=
  match l with
  | [] => (h, [], [])
  | p :: l =>
      match h !! p with
      | None => releaseLoop thread turn l h
      | Some c =>
          if negb (bool_decide (threadID c = thread)) || negb (bool_decide (turnID c = turn)) || negb (handlerReserved c)
             || handlerStarted c || handlerFinished c then releaseLoop thread turn l h
          else
            let pending := bool_decide (terminalOutcome c = []) in
            let c' := if pending then with_outcome (bs "rejected") (with_finished c) else with_finished c in
            let '(h, released, events) := releaseLoop thread turn l (<[p := c']> h) in
            (h, p :: released,
             if pending then mkEvent (bs "tool_result_rejected") (Some p) (identity c) :: events else events)
      end
  end.

Definition releaseUnstarted_mark (thread turn : bytes) (r : dynamicCallRouter) : Z * dynamicCallRouter :=
  let '(h, released, events) := releaseLoop thread turn (order r) (heap r) in
  (len released, recordEvents events (set_heap h r)).

Definition settled (c : dynamicCallRouting) : bool :=
  negb (bool_decide (terminalOutcome c = [])) && turnTerminalRecorded c && handlerFinished c.
Definition settled_at (h : list dynamicCallRouting) (p : pointer) : bool :=
  match h !! p with Some c => settled c | None => false end.

Definition prune (r : dynamicCallRouter) : dynamicCallRouter :=
  mkRouter (heap r) (filter (λ e, settled_at (heap r) e.2 = false) (calls r))
    (filter (λ p, settled_at (heap r) p = false) (order r)) (terminalTurns r) (terminalOrder r) (recorded r).

Definition releaseUnstarted (thread turn : bytes) (r : dynamicCallRouter) : Z * dynamicCallRouter :=
  let (n, r) := releaseUnstarted_mark thread turn r in (n, prune r).

(** The first section of [recordDelivery]: the evidence is accepted for a call
    with a status, refused, or not about a call of this turn. *)
Definition deliveryFailures (c : dynamicCallRouting) (item : jvalue) : list jvalue :=
  let status := get_string "status" item in
  (if resultReady c then [] else [JString (bs "result_not_ready")])
  ++ (if responseWriteAttempted c then [] else [JString (bs "response_not_attempted")])
  ++ (if bool_decide (status = Some (bs "completed")) || bool_decide (status = Some (bs "failed")) then []
      else [JString (bs "invalid_status")])
  ++ (match get_string "tool" item with
      | Some name => if bool_decide (name = tool c) then [] else [JString (bs "tool_mismatch")]
      | None => [JString (bs "tool_mismatch")]
      end).

Definition recordDelivery_check (params item : jvalue) (thread turn : bytes) (r : dynamicCallRouter)
  : option (pointer * bytes) * dynamicCallRouter :=
  if negb (bool_decide (get_string "threadId" params = Some thread)) || negb (bool_decide (get_string "turnId" params = Some turn)) then (None, r)
  else match nonempty (get_string "id" item) with
  | None => (None, r)
  | Some call =>
      match calls r !! mkCallKey thread turn call with
      | None => (None, r)
      | Some p =>
          match heap r !! p with
          | None => (None, r)
          | Some c =>
              match deliveryFailures c item with
              | [] => (Some (p, default [] (get_string "status" item)), r)
              | failures =>
                  (None, recordEvents [mkEvent (bs "tool_delivery_notification_rejected") (Some p)
                                         (identity c ++ [(bs "validation_failures", JArray failures)])] r)
              end
          end
      end
  end.

Definition recordDelivery (params item : jvalue) (thread turn : bytes) (r : dynamicCallRouter) : dynamicCallRouter :=
  match recordDelivery_check params item thread turn r with
  | (Some (p, status), r) => (finish (Some p) (bs "delivered") status r).2
  | (None, r) => r
  end.

Definition finishHandler_mark (p : option pointer) (r : dynamicCallRouter) : dynamicCallRouter :=
  match p with
  | None => r
  | Some p => match heap r !! p with None => r | Some c => set_heap (<[p := with_finished c]> (heap r)) r end
  end.
Definition finishHandler (p : option pointer) (r : dynamicCallRouter) : dynamicCallRouter :=
  match p with None => r | Some _ => prune (finishHandler_mark p r) end.

(** ** The end of a turn *)

Definition dynamicCallIDs (h : list dynamicCallRouting) (l : list pointer) : list jvalue :=
  omap (λ p, (λ c, JString (callID c)) <$> h !! p) l.

Definition of_turn (h : list dynamicCallRouting) (thread turn : bytes) (p : pointer) : bool :=
  match h !! p with Some c => bool_decide (threadID c = thread) && bool_decide (turnID c = turn) | None => false end.
Definition unresolved (h : list dynamicCallRouting) (p : pointer) : bool :=
  match h !! p with Some c => bool_decide (terminalOutcome c = []) | None => false end.

(** Remember that a turn is terminal; the oldest of too many is forgotten. *)
Definition noteTerminalTurn (key : dynamicTurnKey) (r : dynamicCallRouter) : dynamicCallRouter :=
  if bool_decide (key ∈ terminalTurns r) then r
  else
    let turns := {[key]} ∪ terminalTurns r in
    let l := terminalOrder r ++ [key] in
    let '(turns, l) := if maxTerminalDynamicTurns <? len l
                       then match l with oldest :: l => (turns ∖ {[oldest]}, l) | [] => (turns, l) end
                       else (turns, l) in
    mkRouter (heap r) (calls r) (order r) turns l (recorded r).

Definition orphanUnresolved_mark (thread turn phase status : bytes) (r : dynamicCallRouter) : list pointer * dynamicCallRouter :=
  let r := noteTerminalTurn (mkTurnKey thread turn) r in
  let mine := filter (λ p, of_turn (heap r) thread turn p = true) (order r) in
  let pending := filter (λ p, unresolved (heap r) p = true) mine in
  let orphaned := if bool_decide (status = bs "interrupted") then [] else pending in
  let h := fold_left (λ h p, alter (with_outcome (bs "orphaned")) p h) orphaned (heap r) in
  let h := fold_left (λ h p, alter with_turn_terminal p h) mine h in
  let summary := mkEvent (bs "turn_dynamic_calls_terminal") None
    [(bs "thread_id", JString thread); (bs "turn_id", JString turn); (bs "turn_phase", JString phase);
     (bs "turn_status", JString status); (bs "dynamic_call_count", from_uint64 (len mine));
     (bs "pending_dynamic_call_count", from_uint64 (len pending));
     (bs "pending_dynamic_call_ids", JArray (dynamicCallIDs (heap r) pending))] in
  let orphans := omap (λ p, (λ c, mkEvent (bs "tool_result_orphaned") (Some p) (identity c)) <$> heap r !! p) orphaned in
  (pending, recordEvents (summary :: orphans) (set_heap h r)).

Definition orphanUnresolved (thread turn phase status : bytes) (r : dynamicCallRouter) : list pointer * dynamicCallRouter :=
  let (pending, r) := orphanUnresolved_mark thread turn phase status r in (pending, prune r).
