(* ===== verification/DynamicCallProofs.v ===== *)
(** * Dynamic tool calls: one outcome per call, under every interleaving

    The critical sections of the router as steps of a transition system, its
    invariant, and what the end of a turn guarantees. *)

From S2P Require Import Prelude GoStd Json JsonTree DynamicCall.
Open Scope Z_scope.

(** ** Invariant *)

Definition key_of (c : dynamicCallRouting) : dynamicCallKey := mkCallKey (threadID c) (turnID c) (callID c).

(** The events that decide the outcome of call [p]. *)
Definition is_terminal (p : pointer) (e : devent) : bool :=
  bool_decide (evSubject e = Some p) && bool_decide (evName e ∈ map (app (bs "tool_result_")) outcomes).
Definition terminals (l : list devent) (p : pointer) : list devent := filter (λ e, is_terminal p e = true) l.

(** The log holds exactly the outcome of a call. *)
Definition logged (l : list devent) (p : pointer) (c : dynamicCallRouting) : Prop :=
  evName <$> terminals l p = (if bool_decide (terminalOutcome c = []) then [] else [bs "tool_result_" ++ terminalOutcome c]).

(** What holds of each call by itself. *)
Record call_ok (c : dynamicCallRouting) : Prop := {
  co_outcome : terminalOutcome c = [] ∨ terminalOutcome c ∈ outcomes;
  co_delivered : terminalOutcome c = bs "delivered" → resultReady c = true ∧ responseWriteAttempted c = true;
  co_started : handlerStarted c = true → handlerReserved c = true
}.

Record tables_ok (r : dynamicCallRouter) : Prop := {
  to_calls : ∀ k p, calls r !! k = Some p → p ∈ order r ∧ ∃ c, heap r !! p = Some c ∧ key_of c = k;
  to_order : ∀ p, p ∈ order r → ∃ c, heap r !! p = Some c ∧ calls r !! key_of c = Some p;
  to_nodup : NoDup (order r);
  to_forgotten : ∀ p c, heap r !! p = Some c → p ∉ order r → settled c = true
}.

Record turns_ok (r : dynamicCallRouter) : Prop := {
  tu_nodup : NoDup (terminalOrder r);
  tu_set : terminalTurns r = list_to_set (terminalOrder r);
  tu_bound : len (terminalOrder r) ≤ maxTerminalDynamicTurns
}.

Record router_inv (r : dynamicCallRouter) : Prop := {
  ri_calls : ∀ p c, heap r !! p = Some c → call_ok c ∧ logged (recorded r) p c;
  ri_fresh : ∀ e p, e ∈ recorded r → evSubject e = Some p → (p < length (heap r))%nat;
  ri_tables : tables_ok r;
  ri_turns : turns_ok r
}.

(** A later version of a call: identity fixed, flags only rise, an outcome is only
    set once. *)
Record evolves (c c' : dynamicCallRouting) : Prop := {
  ev_key : key_of c' = key_of c;
  ev_ready : resultReady c = true → resultReady c' = true;
  ev_attempted : responseWriteAttempted c = true → responseWriteAttempted c' = true;
  ev_settled : settled c = true → settled c' = true;
  ev_ok : call_ok c → call_ok c'
}.

(** A section that changes calls in place and records events. *)
Record in_place (r r' : dynamicCallRouter) (events : list devent) : Prop := {
  ip_heap : ∀ p c', heap r' !! p = Some c' → ∃ c, heap r !! p = Some c ∧ evolves c c'
              ∧ ((terminalOutcome c' = terminalOutcome c ∧ terminals events p = [])
                 ∨ (terminalOutcome c = [] ∧ evName <$> terminals events p = [bs "tool_result_" ++ terminalOutcome c']
                    ∧ terminalOutcome c' ≠ []));
  ip_length : length (heap r') = length (heap r);
  ip_calls : calls r' = calls r;
  ip_order : order r' = order r;
  ip_turns : terminalTurns r' = terminalTurns r ∧ terminalOrder r' = terminalOrder r;
  ip_recorded : recorded r' = recorded r ++ events;
  ip_subjects : ∀ e p, e ∈ events → evSubject e = Some p → (p < length (heap r))%nat
}.

Lemma terminals_app l k p : terminals (l ++ k) p = terminals l p ++ terminals k p.
Proof. apply filter_app. Qed.

Lemma lookup_same_length {A B} (l : list A) (k : list B) p : length l = length k → is_Some (l !! p) ↔ is_Some (k !! p).
Proof. intros E. by rewrite !lookup_lt_is_Some, E. Qed.

Lemma in_place_inv r r' events : in_place r r' events → router_inv r → router_inv r'.
Proof.
  intros [Hh Hl Hc Ho [Ht Hto] Hr Hs] [Icalls Ifresh [Tc To Tn Tf] [Un Us Ub]].
  assert (Hfwd : ∀ p c, heap r !! p = Some c → ∃ c', heap r' !! p = Some c' ∧ evolves c c').
  { intros p c Hp. destruct (proj2 (lookup_same_length _ _ p Hl) (ex_intro _ c Hp)) as [c' Hp'].
    destruct (Hh p c' Hp') as (c0 & Hp0 & Hev & _). rewrite Hp in Hp0. injection Hp0 as <-. eauto. }
  constructor.
  - intros p c' Hp'. destruct (Hh p c' Hp') as (c & Hp & Hev & Hcase). destruct (Icalls p c Hp) as [Hok Hlog].
    split; [by apply (ev_ok _ _ Hev)|]. unfold logged in *. rewrite Hr, terminals_app, fmap_app.
    destruct Hcase as [[-> ->] | (E & -> & Hne)]; [by rewrite app_nil_r|].
    rewrite Hlog, E. rewrite bool_decide_eq_true_2 by done. by rewrite bool_decide_eq_false_2.
  - intros e p He Hp. rewrite Hl. rewrite Hr in He. apply elem_of_app in He as [He|He]; eauto.
  - constructor.
    + intros k p. rewrite Hc, Ho. intros Hk. destruct (Tc k p Hk) as [Hin (c & Hp & <-)]. split; [done|].
      destruct (Hfwd p c Hp) as (c' & Hp' & Hev). exists c'. split; [done|apply Hev].
    + intros p. rewrite Ho, Hc. intros Hin. destruct (To p Hin) as (c & Hp & Hk).
      destruct (Hfwd p c Hp) as (c' & Hp' & Hev). exists c'. split; [done|]. by rewrite (ev_key _ _ Hev).
    + by rewrite Ho.
    + intros p c' Hp' Hnin. rewrite Ho in Hnin. destruct (Hh p c' Hp') as (c & Hp & Hev & _).
      apply (ev_settled _ _ Hev). by eapply Tf.
  - constructor; [by rewrite Hto|by rewrite Ht, Hto|by rewrite Hto].
Qed.

Lemma evolves_refl c : evolves c c.
Proof. by constructor. Qed.

Lemma evolves_trans a b c : evolves a b → evolves b c → evolves a c.
Proof. intros [] []. constructor; auto. congruence. Qed.

Lemma evolves_settled c c' :
  terminalOutcome c' = terminalOutcome c → (turnTerminalRecorded c = true → turnTerminalRecorded c' = true) →
  (handlerFinished c = true → handlerFinished c' = true) → settled c = true → settled c' = true.
Proof. unfold settled. intros -> Ht Hf H. zbool. rewrite Ht, Hf by done. by rewrite bool_decide_eq_false_2. Qed.

Lemma evolves_ready c : evolves c (with_ready c).
Proof. constructor; [done|done|done|by apply evolves_settled|]. intros []. constructor; cbn; naive_solver. Qed.
Lemma evolves_attempted c : evolves c (with_attempted c).
Proof. constructor; [done|done|done|by apply evolves_settled|]. intros []. constructor; cbn; naive_solver. Qed.
Lemma evolves_turn_terminal c : evolves c (with_turn_terminal c).
Proof. constructor; [done|done|done|by apply evolves_settled|]. intros []. constructor; cbn; naive_solver. Qed.
Lemma evolves_finished c : evolves c (with_finished c).
Proof. constructor; [done|done|done|by apply evolves_settled|]. intros []. constructor; cbn; naive_solver. Qed.
Lemma evolves_reserved c : evolves c (with_reserved c).
Proof. constructor; [done|done|done|by apply evolves_settled|]. intros []. constructor; cbn; naive_solver. Qed.
Lemma evolves_started c : handlerReserved c = true → evolves c (with_started c).
Proof. intros H. constructor; [done|done|done|by apply evolves_settled|]. intros []. constructor; cbn; naive_solver. Qed.
Lemma evolves_outcome o c :
  o ∈ outcomes → terminalOutcome c = [] →
  (o = bs "delivered" → resultReady c = true ∧ responseWriteAttempted c = true) → evolves c (with_outcome o c).
Proof.
  intros Ho E Hd. constructor; try done.
  - unfold settled. rewrite E. done.
  - intros []. constructor; cbn; naive_solver.
Qed.

Lemma outcomes_nonempty o : o ∈ outcomes → o ≠ [].
Proof. intros Ho ->. repeat (apply elem_of_cons in Ho as [Ho|Ho]; [discriminate Ho|]). by apply not_elem_of_nil in Ho. Qed.

Lemma terminals_other events p q : Forall (λ e, evSubject e = Some p) events → p ≠ q → terminals events q = [].
Proof.
  intros Hsub Hne. unfold terminals. induction Hsub as [|e l He _ IH]; [done|]. rewrite filter_cons_False; [done|].
  unfold is_terminal. rewrite He. rewrite bool_decide_eq_false_2 by congruence. done.
Qed.

(** One call changes, and the events are about it. *)
Lemma in_place_one r p c c' events :
  heap r !! p = Some c → evolves c c' → Forall (λ e, evSubject e = Some p) events →
  ((terminalOutcome c' = terminalOutcome c ∧ terminals events p = [])
   ∨ (terminalOutcome c = [] ∧ evName <$> terminals events p = [bs "tool_result_" ++ terminalOutcome c'] ∧ terminalOutcome c' ≠ [])) →
  in_place r (recordEvents events (set_heap (<[p := c']> (heap r)) r)) events.
Proof.
  intros Hp Hev Hsub Hcase. pose proof (lookup_lt_Some _ _ _ Hp) as Hlt.
  constructor; cbn; try done; [|by rewrite length_insert|].
  - intros q d Hq. destruct (decide (p = q)) as [<- | Hne].
    + rewrite list_lookup_insert_eq in Hq by done. injection Hq as <-. eauto.
    + rewrite list_lookup_insert_ne in Hq by done. exists d. split_and!; [done|apply evolves_refl|]. left. split; [done|].
      by eapply terminals_other.
  - intros e q He Hq. rewrite Forall_forall in Hsub. rewrite (Hsub e He) in Hq. by injection Hq as <-.
Qed.

Lemma in_place_none r : in_place r r [].
Proof.
  constructor; try done.
  - intros p c Hp. exists c. split_and!; [done|apply evolves_refl|by left].
  - by rewrite app_nil_r.
  - intros e p He. by apply not_elem_of_nil in He.
Qed.

Lemma set_heap_recorded h r : set_heap h r = recordEvents [] (set_heap h r).
Proof. unfold recordEvents. cbn. by rewrite app_nil_r. Qed.

Lemma in_place_silent r p c c' :
  heap r !! p = Some c → evolves c c' → terminalOutcome c' = terminalOutcome c →
  in_place r (set_heap (<[p := c']> (heap r)) r) [].
Proof. intros. rewrite set_heap_recorded. eapply in_place_one; eauto. Qed.

(** ** The sections keep the invariant *)

(** Flags of calls stay raised through every section. *)
Definition flags_grow (r r' : dynamicCallRouter) : Prop :=
  ∀ p c, heap r !! p = Some c → ∃ c', heap r' !! p = Some c' ∧ evolves c c'.

Lemma flags_grow_in_place r r' events : in_place r r' events → flags_grow r r'.
Proof.
  intros [Hh Hl _ _ _ _ _] p c Hp. destruct (proj2 (lookup_same_length _ _ p Hl) (ex_intro _ c Hp)) as [c' Hp'].
  destruct (Hh p c' Hp') as (c0 & Hp0 & Hev & _). rewrite Hp in Hp0. injection Hp0 as <-. eauto.
Qed.

#[local] Instance flags_grow_refl : Reflexive flags_grow.
Proof. intros r p c Hp. exists c. split; [done|apply evolves_refl]. Qed.

(** The invariant is kept and no call is lost. *)
Definition keeps (r r' : dynamicCallRouter) : Prop := router_inv r → router_inv r' ∧ flags_grow r r'.

#[local] Instance keeps_refl : Reflexive keeps.
Proof. intros r H. by split. Qed.

Lemma keeps_in_place r r' events : in_place r r' events → keeps r r'.
Proof. intros H Hi. split; [exact (in_place_inv _ _ _ H Hi)|exact (flags_grow_in_place _ _ _ H)]. Qed.

Lemma markResultReady_keeps p r : keeps r (markResultReady p r).
Proof.
  destruct p as [p|]; [|done]. cbn. destruct (heap r !! p) as [c|] eqn:Hp; [|done]. destruct (resultReady c); [done|].
  eapply keeps_in_place, in_place_one; [done|apply evolves_ready|by repeat constructor|]. left. split; [done|].
  unfold terminals. by rewrite filter_cons_False by (unfold is_terminal; cbn; rewrite andb_false_r; done).
Qed.

Lemma markResponseWriteAttempted_keeps p r : keeps r (markResponseWriteAttempted p r).
Proof.
  destruct p as [p|]; [|done]. cbn. destruct (heap r !! p) as [c|] eqn:Hp; [|done]. destruct (responseWriteAttempted c); [done|].
  eapply keeps_in_place, in_place_one; [done|apply evolves_attempted|by repeat constructor|]. left. split; [done|].
  unfold terminals. by rewrite filter_cons_False by (unfold is_terminal; cbn; rewrite andb_false_r; done).
Qed.

Lemma terminal_name o : o ∈ outcomes → bs "tool_result_" ++ o ∈ map (app (bs "tool_result_")) outcomes.
Proof. intros Ho. apply list_elem_of_In, in_map, list_elem_of_In, Ho. Qed.

Lemma is_terminal_own o p data : o ∈ outcomes → is_terminal p (mkEvent (bs "tool_result_" ++ o) (Some p) data) = true.
Proof.
  intros Ho. unfold is_terminal. cbn [evSubject evName]. rewrite !bool_decide_eq_true_2; [done|by apply terminal_name|done].
Qed.

Lemma terminals_own o p data : o ∈ outcomes →
  evName <$> terminals [mkEvent (bs "tool_result_" ++ o) (Some p) data] p = [bs "tool_result_" ++ o].
Proof.
  intros Ho. unfold terminals. rewrite filter_cons_True; [done|]. by apply is_terminal_own.
Qed.

(** A call may be finished as delivered when its flags say so. *)
Definition may_deliver (r : dynamicCallRouter) (p : pointer) : Prop :=
  ∀ c, heap r !! p = Some c → resultReady c = true ∧ responseWriteAttempted c = true.

Lemma finish_keeps p o status r :
  (o = bs "delivered" → may_deliver r p) → keeps r (finish (Some p) o status r).2.
Proof.
  intros Hd. unfold finish. destruct (bool_decide_reflect (o ∈ outcomes)) as [Ho|_]; [|done]. cbn [negb].
  destruct (heap r !! p) as [c|] eqn:Hp; [|done].
  destruct (bool_decide_reflect (terminalOutcome c = [])) as [E|_]; [|done]. cbn [negb snd].
  eapply keeps_in_place, in_place_one; [done| |by repeat constructor|right].
  - apply evolves_outcome; [done|done|]. intros ->. by apply Hd.
  - split_and!; [done|by apply terminals_own|by apply outcomes_nonempty].
Qed.

Lemma reserveHandler_keeps p r : keeps r (reserveHandler p r).2.
Proof.
  destruct p as [p|]; [|done]. cbn. destruct (heap r !! p) as [c|] eqn:Hp; [|done]. destruct (handlerReserved c); [done|].
  eapply keeps_in_place, in_place_silent; [done|apply evolves_reserved|done].
Qed.

Lemma startHandler_keeps p r : keeps r (startHandler p r).2.
Proof.
  destruct p as [p|]; [|done]. cbn. destruct (heap r !! p) as [c|] eqn:Hp; [|done].
  destruct (handlerReserved c) eqn:Hr; [|done]. cbn [negb orb]. destruct (_ || _); [done|].
  eapply keeps_in_place, in_place_silent; [done|by apply evolves_started|done].
Qed.

Lemma finishHandler_mark_keeps p r : keeps r (finishHandler_mark p r).
Proof.
  destruct p as [p|]; [|done]. cbn. destruct (heap r !! p) as [c|] eqn:Hp; [|done].
  eapply keeps_in_place, in_place_silent; [done|apply evolves_finished|done].
Qed.

Lemma recordDelivery_check_keeps params item thread turn r : keeps r (recordDelivery_check params item thread turn r).2.
Proof.
  unfold recordDelivery_check. destruct (_ || _); [done|]. destruct (nonempty _) as [call|]; [|done].
  destruct (calls r !! _) as [p|] eqn:Hk; [|done]. destruct (heap r !! p) as [c|] eqn:Hp; [|done].
  destruct (deliveryFailures c item) as [|f fs]; [done|]. cbn [snd].
  assert (E : recordEvents [mkEvent (bs "tool_delivery_notification_rejected") (Some p)
      (identity c ++ [(bs "validation_failures", JArray (f :: fs))])] r
    = recordEvents [mkEvent (bs "tool_delivery_notification_rejected") (Some p)
      (identity c ++ [(bs "validation_failures", JArray (f :: fs))])] (set_heap (<[p := c]> (heap r)) r)).
  { unfold recordEvents, set_heap. cbn. by rewrite list_insert_id. }
  rewrite E. eapply keeps_in_place, in_place_one; [done|apply evolves_refl|by repeat constructor|]. left. split; [done|].
  unfold terminals. by rewrite filter_cons_False by (unfold is_terminal; cbn; rewrite andb_false_r; done).
Qed.

(** Accepted evidence means that the call may be delivered. *)
Lemma recordDelivery_check_sound params item thread turn r p status r' :
  recordDelivery_check params item thread turn r = (Some (p, status), r') →
  r' = r ∧ may_deliver r p ∧ ∃ c, heap r !! p = Some c ∧ get_string "tool" item = Some (tool c)
    ∧ (status = bs "completed" ∨ status = bs "failed").
Proof.
  unfold recordDelivery_check. destruct (_ || _); [done|]. destruct (nonempty _) as [call|]; [|done].
  destruct (calls r !! _) as [q|] eqn:Hk; [|done]. destruct (heap r !! q) as [c|] eqn:Hp; [|done].
  destruct (deliveryFailures c item) as [|f fs] eqn:Hf; [|done]. intros [= -> <- ->].
  unfold deliveryFailures in Hf. cbn zeta in Hf.
  destruct (resultReady c) eqn:E1; [|done]. destruct (responseWriteAttempted c) eqn:E2; [|done]. cbn [app] in Hf.
  destruct (bool_decide (get_string "status" item = Some (bs "completed")) || bool_decide (get_string "status" item = Some (bs "failed"))) eqn:E3;
    [|done]. cbn [app] in Hf. destruct (get_string "tool" item) as [n|] eqn:Et; [|done].
  destruct (bool_decide_reflect (n = tool c)) as [Hn|_]; [|done]. subst n.
  split_and!; [done| |].
  - intros c' Hp'. rewrite Hp in Hp'. by injection Hp' as <-.
  - exists c. split_and!; [done|done|]. zbool. destruct E3 as [E3|E3]; zbool; rewrite E3; auto.
Qed.

(** How one call changes in a section that goes over several. *)
Definition call_step (events : list devent) (p : pointer) (c c' : dynamicCallRouting) : Prop :=
  evolves c c' ∧ ((terminalOutcome c' = terminalOutcome c ∧ terminals events p = [])
    ∨ (terminalOutcome c = [] ∧ evName <$> terminals events p = [bs "tool_result_" ++ terminalOutcome c'] ∧ terminalOutcome c' ≠ [])).

Lemma terminals_cons e l p : terminals (e :: l) p = (if is_terminal p e then [e] else []) ++ terminals l p.
Proof.
  unfold terminals. rewrite filter_cons. destruct (is_terminal p e); [by rewrite decide_True|by rewrite decide_False].
Qed.

Lemma is_terminal_ne e p q : evSubject e = Some p → p ≠ q → is_terminal q e = false.
Proof. intros E Hne. unfold is_terminal. rewrite E, bool_decide_eq_false_2 by congruence. done. Qed.

Lemma releaseLoop_steps thread turn l h h' released events :
  NoDup l → releaseLoop thread turn l h = (h', released, events) →
  length h' = length h
  ∧ (∀ q c', h' !! q = Some c' → ∃ c, h !! q = Some c ∧ call_step events q c c' ∧ (q ∉ l → c' = c ∧ terminals events q = []))
  ∧ (∀ e q, e ∈ events → evSubject e = Some q → q ∈ l ∧ (q < length h)%nat).
Proof.
  intros Hnd. revert h released events. induction Hnd as [|p l Hp _ IH]; intros h released events H; cbn [releaseLoop] in H.
  { injection H as <- <- <-. split_and!; [done| |intros e q He; by apply not_elem_of_nil in He].
    intros q c Hq. exists c. split_and!; [done|split; [apply evolves_refl|by left]|done]. }
  assert (Hskip : releaseLoop thread turn l h = (h', released, events) →
    length h' = length h
    ∧ (∀ q c', h' !! q = Some c' → ∃ c, h !! q = Some c ∧ call_step events q c c' ∧ (q ∉ p :: l → c' = c ∧ terminals events q = []))
    ∧ (∀ e q, e ∈ events → evSubject e = Some q → q ∈ p :: l ∧ (q < length h)%nat)).
  { intros Hl. destruct (IH _ _ _ Hl) as (L & S & E). split_and!; [done| |].
    - intros q c' Hq. destruct (S q c' Hq) as (c & Hc & Hs & Hn). exists c. split_and!; [done|done|]. rewrite not_elem_of_cons. naive_solver.
    - intros e q He Hq. destruct (E e q He Hq). split; [by right|done]. }
  destruct (h !! p) as [c|] eqn:Hc; [|by apply Hskip].
  match type of H with (if ?b then _ else _) = _ => destruct b; [by apply Hskip|] end. clear Hskip.
  set (pending := bool_decide (terminalOutcome c = [])) in *.
  set (c' := if pending then with_outcome (bs "rejected") (with_finished c) else with_finished c) in *.
  destruct (releaseLoop thread turn l (<[p := c']> h)) as [[h1 released1] events1] eqn:El. injection H as <- <- <-.
  destruct (IH _ _ _ El) as (L & S & E). rewrite length_insert in *. pose proof (lookup_lt_Some _ _ _ Hc) as Hlt.
  set (all := if pending then _ else events1).
  assert (Hall : ∀ q, q ≠ p → terminals all q = terminals events1 q).
  { intros q Hq. unfold all. destruct pending; [|done]. rewrite terminals_cons, (is_terminal_ne _ p); done. }
  split_and!; [done| |].
  - intros q d Hd. destruct (S q d Hd) as (d0 & Hd0 & Hstep & Hn). destruct (decide (p = q)) as [<- | Hne].
    + rewrite list_lookup_insert_eq in Hd0 by done. injection Hd0 as <-. destruct (Hn Hp) as [-> Ht].
      exists c. split_and!; [done| |by rewrite not_elem_of_cons; intros []].
      unfold call_step. unfold all, c', pending. destruct (bool_decide_reflect (terminalOutcome c = [])) as [E0|N0].
      * split; [eapply evolves_trans; [apply evolves_finished|apply evolves_outcome]; [by right; left|done|done]|]. right.
        change (mkEvent (bs "tool_result_rejected") (Some p) (identity c) :: events1)
          with ([mkEvent (bs "tool_result_" ++ bs "rejected") (Some p) (identity c)] ++ events1).
        rewrite terminals_app, Ht, app_nil_r, terminals_own by (by right; left). done.
      * split; [apply evolves_finished|]. by left.
    + rewrite list_lookup_insert_ne in Hd0 by done. exists d0. split_and!; [done| |].
      * unfold call_step in *. by rewrite Hall.
      * rewrite not_elem_of_cons, Hall by done. intros [_ Hq]. by apply Hn.
  - intros e q He Hq. unfold all in He. assert (He' : e ∈ events1 ∨ q = p).
    { destruct pending; [|by left]. apply elem_of_cons in He as [-> | He]; [right|by left]. cbn in Hq. congruence. }
    destruct He' as [He' | ->]; [|split; [by left|done]]. destruct (E e q He' Hq). split; [by right|done].
Qed.

Lemma in_place_of_steps r h' events :
  length h' = length (heap r) →
  (∀ q c', h' !! q = Some c' → ∃ c, heap r !! q = Some c ∧ call_step events q c c') →
  (∀ e q, e ∈ events → evSubject e = Some q → (q < length (heap r))%nat) →
  in_place r (recordEvents events (set_heap h' r)) events.
Proof.
  intros L S E. by constructor; cbn.
Qed.

Lemma releaseUnstarted_mark_keeps thread turn r : keeps r (releaseUnstarted_mark thread turn r).2.
Proof.
  intros Hinv. unfold releaseUnstarted_mark.
  destruct (releaseLoop thread turn (order r) (heap r)) as [[h released] events] eqn:El. cbn [snd].
  destruct (releaseLoop_steps _ _ _ _ _ _ _ (to_nodup _ (ri_tables _ Hinv)) El) as (L & S & E).
  refine (keeps_in_place _ _ events _ Hinv). apply in_place_of_steps; [done| |].
  - intros q c' Hq. destruct (S q c' Hq) as (c & Hc & Hs & _). eauto.
  - intros e q He Hq. by destruct (E e q He Hq).
Qed.

(** *** The end of a turn *)

Lemma fold_alter_lookup (f : dynamicCallRouting → dynamicCallRouting) (l : list pointer) (h : list dynamicCallRouting) q :
  NoDup l → fold_left (λ h p, alter f p h) l h !! q = (if bool_decide (q ∈ l) then f <$> h !! q else h !! q).
Proof.
  intros Hnd. revert h. induction Hnd as [|p l Hp _ IH]; intros h; cbn [fold_left]; [done|].
  rewrite IH. destruct (decide (p = q)) as [<- | Hne].
  - rewrite (bool_decide_eq_false_2 (p ∈ l)) by done. rewrite bool_decide_eq_true_2 by (by left). apply list_lookup_alter_eq.
  - rewrite list_lookup_alter_ne by done. destruct (bool_decide_reflect (q ∈ l)) as [Hq|Hq].
    + by rewrite bool_decide_eq_true_2 by (by right).
    + rewrite bool_decide_eq_false_2; [done|]. rewrite not_elem_of_cons. by split.
Qed.

Lemma fold_alter_length (f : dynamicCallRouting → dynamicCallRouting) (l : list pointer) (h : list dynamicCallRouting) :
  length (fold_left (λ h p, alter f p h) l h) = length h.
Proof. revert h. induction l as [|p l IH]; intros h; [done|]. cbn [fold_left]. by rewrite IH, length_alter. Qed.

Lemma bool_decide_ext_if {A} (P Q : Prop) `{Decision P, Decision Q} (x y : A) :
  (P ↔ Q) → (if bool_decide P then x else y) = (if bool_decide Q then x else y).
Proof. intros E. by rewrite (bool_decide_ext P Q E). Qed.

Lemma orphan_events_terminals (h : list dynamicCallRouting) (l : list pointer) q :
  NoDup l →
  evName <$> terminals (omap (λ p, (λ c, mkEvent (bs "tool_result_orphaned") (Some p) (identity c)) <$> h !! p) l) q
  = (if bool_decide (q ∈ l ∧ is_Some (h !! q)) then [bs "tool_result_orphaned"] else []).
Proof.
  induction 1 as [|p l Hp _ IH]; [done|]. cbn [omap list_omap].
  destruct (h !! p) as [c|] eqn:Hc; cbn [fmap option_fmap option_map].
  - rewrite terminals_cons, fmap_app, IH. destruct (decide (p = q)) as [<- | Hne].
    + rewrite (bool_decide_eq_false_2 (p ∈ l ∧ _)) by (by intros []). rewrite bool_decide_eq_true_2 by (rewrite Hc; split; [by left|eauto]).
      by rewrite (is_terminal_own (bs "orphaned")) by (by right; right; left).
    + rewrite (is_terminal_ne _ p) by done. cbn [app fmap list_fmap]. apply bool_decide_ext_if. set_solver.
  - rewrite IH. apply bool_decide_ext_if. rewrite elem_of_cons. split; [naive_solver|].
    intros [[-> | Hq] Hs]; [rewrite Hc in Hs; by destruct Hs|done].
Qed.

Lemma noteTerminalTurn_turns key r : turns_ok r → turns_ok (noteTerminalTurn key r).
Proof.
  intros [Hn Hs Hb]. unfold noteTerminalTurn. destruct (bool_decide_reflect (key ∈ terminalTurns r)) as [_|Hk]; [done|].
  assert (Hnk : key ∉ terminalOrder r) by (rewrite Hs in Hk; by rewrite elem_of_list_to_set in Hk).
  assert (Hnd : NoDup (terminalOrder r ++ [key])).
  { apply NoDup_app. split_and!; [done|set_solver|]. apply NoDup_singleton. }
  assert (Hset : {[key]} ∪ terminalTurns r = list_to_set (terminalOrder r ++ [key])).
  { rewrite Hs, list_to_set_app_L. set_solver. }
  cbn zeta. rewrite Hset. destruct (maxTerminalDynamicTurns <? len (terminalOrder r ++ [key])) eqn:El.
  - rewrite len_app, len_cons, len_nil in El. zbool.
    destruct (terminalOrder r ++ [key]) as [|oldest l] eqn:E; [by destruct (terminalOrder r)|].
    apply NoDup_cons in Hnd as [Ho Hnd].
    assert (Hlen : len l = len (terminalOrder r)).
    { apply (f_equal len) in E. rewrite len_app, !len_cons, len_nil in E. lia. }
    constructor; cbn [terminalOrder terminalTurns]; [done| |lia]. rewrite list_to_set_cons. set_solver.
  - zbool. constructor; cbn [terminalOrder terminalTurns]; done.
Qed.

Lemma noteTerminalTurn_rest key r :
  heap (noteTerminalTurn key r) = heap r ∧ calls (noteTerminalTurn key r) = calls r ∧ order (noteTerminalTurn key r) = order r
  ∧ recorded (noteTerminalTurn key r) = recorded r.
Proof. unfold noteTerminalTurn. destruct (bool_decide _); [done|]. cbn zeta. by destruct (if _ <? _ then _ else _). Qed.

Lemma noteTerminalTurn_keeps key r : keeps r (noteTerminalTurn key r).
Proof.
  intros [Ic If [] It]. destruct (noteTerminalTurn_rest key r) as (Eh & Ec & Eo & Er).
  split; [|intros p c Hp; rewrite Eh; exact (flags_grow_refl r p c Hp)].
  constructor; [by rewrite Eh, Er|by rewrite Eh, Er| |by apply noteTerminalTurn_turns].
  constructor; rewrite ?Eh, ?Ec, ?Eo; done.
Qed.

(** What the end of a turn does to each call. *)
Lemma orphan_mark_in_place thread turn phase status r :
  NoDup (order r) →
  ∃ events, in_place (noteTerminalTurn (mkTurnKey thread turn) r) (orphanUnresolved_mark thread turn phase status r).2 events.
Proof.
  intros Hnd. unfold orphanUnresolved_mark. cbn zeta. cbn [snd].
  set (r1 := noteTerminalTurn (mkTurnKey thread turn) r).
  assert (Hnd1 : NoDup (order r1)) by (unfold r1; by destruct (noteTerminalTurn_rest (mkTurnKey thread turn) r) as (_ & _ & -> & _)).
  set (mine := filter (λ p, of_turn (heap r1) thread turn p = true) (order r1)).
  set (pending := filter (λ p, unresolved (heap r1) p = true) mine).
  assert (Hmine : NoDup mine) by (by apply NoDup_filter).
  assert (Hpend : NoDup pending) by (by apply NoDup_filter).
  set (orphaned := if bool_decide (status = bs "interrupted") then [] else pending).
  assert (Horph : NoDup orphaned) by (unfold orphaned; destruct (bool_decide _); [constructor|done]).
  assert (Hres : ∀ p, p ∈ orphaned → ∃ c, heap r1 !! p = Some c ∧ terminalOutcome c = []).
  { intros p Hp. unfold orphaned in Hp. destruct (bool_decide _); [by apply not_elem_of_nil in Hp|].
    apply list_elem_of_filter in Hp as [Hu _]. unfold unresolved in Hu. destruct (heap r1 !! p) as [c|]; [|done]. zbool. eauto. }
  eexists. apply in_place_of_steps; [by rewrite !fold_alter_length| |].
  - intros q c' Hq. rewrite !fold_alter_lookup in Hq by done.
    assert (Hterm : evName <$> terminals
        (mkEvent (bs "turn_dynamic_calls_terminal") None
           [(bs "thread_id", JString thread); (bs "turn_id", JString turn); (bs "turn_phase", JString phase);
            (bs "turn_status", JString status); (bs "dynamic_call_count", from_uint64 (len mine));
            (bs "pending_dynamic_call_count", from_uint64 (len pending));
            (bs "pending_dynamic_call_ids", JArray (dynamicCallIDs (heap r1) pending))]
         :: omap (λ p, (λ c, mkEvent (bs "tool_result_orphaned") (Some p) (identity c)) <$> heap r1 !! p) orphaned) q
      = (if bool_decide (q ∈ orphaned ∧ is_Some (heap r1 !! q)) then [bs "tool_result_orphaned"] else [])).
    { rewrite terminals_cons. apply orphan_events_terminals. done. }
    destruct (heap r1 !! q) as [c|] eqn:Hc.
    2:{ exfalso. destruct (bool_decide (q ∈ mine)), (bool_decide (q ∈ orphaned)); done. }
    exists c. split; [done|].
    destruct (bool_decide_reflect (q ∈ orphaned)) as [Ho|Ho].
    + destruct (Hres q Ho) as (c0 & Hc0 & E0). rewrite Hc in Hc0. injection Hc0 as <-.
      rewrite bool_decide_eq_true_2 in Hterm by (split; [done|eauto]).
      assert (Hev : evolves c (with_outcome (bs "orphaned") c)) by (apply evolves_outcome; [by right; right; left|done|done]).
      destruct (bool_decide (q ∈ mine)); injection Hq as <-; (split; [|right; split_and!; [done|exact Hterm|done]]).
      * eapply evolves_trans; [exact Hev|apply evolves_turn_terminal].
      * exact Hev.
    + rewrite bool_decide_eq_false_2 in Hterm by (by intros []). apply fmap_nil_inv in Hterm.
      destruct (bool_decide (q ∈ mine)); injection Hq as <-; (split; [|left; done]);
        [apply evolves_turn_terminal|apply evolves_refl].
  - intros e q He Hq. apply elem_of_cons in He as [-> | He]; [done|].
    apply list_elem_of_omap in He as (p & _ & He). apply fmap_Some in He as (c & Hc & ->). injection Hq as <-.
    by eapply lookup_lt_Some.
Qed.

Lemma orphanUnresolved_mark_keeps thread turn phase status r : keeps r (orphanUnresolved_mark thread turn phase status r).2.
Proof.
  intros Hinv. destruct (orphan_mark_in_place thread turn phase status r (to_nodup _ (ri_tables _ Hinv))) as [events H].
  destruct (noteTerminalTurn_keeps (mkTurnKey thread turn) r Hinv) as [Hinv1 Hg1].
  destruct (keeps_in_place _ _ _ H Hinv1) as [Hinv2 Hg2]. split; [done|]. intros p c Hp.
  destruct (Hg1 p c Hp) as (c1 & Hp1 & H1). destruct (Hg2 p c1 Hp1) as (c2 & Hp2 & H2). eauto using evolves_trans.
Qed.

Lemma prune_keeps r : keeps r (prune r).
Proof.
  intros [Ic If [Tc To Tn Tf] [Un Us Ub]]. split; [|exact (flags_grow_refl r)].
  constructor; cbn [prune heap recorded]; [done|done| |by constructor].
  constructor; cbn [prune heap calls order].
  - intros k p Hk. apply map_lookup_filter_Some in Hk as [Hk Hns]. destruct (Tc k p Hk) as [Hin Hc].
    split; [|done]. by apply list_elem_of_filter.
  - intros p Hp. apply list_elem_of_filter in Hp as [Hns Hp]. destruct (To p Hp) as (c & Hc & Hk).
    exists c. split; [done|]. by apply map_lookup_filter_Some.
  - by apply NoDup_filter.
  - intros p c Hc Hnin. destruct (decide (p ∈ order r)) as [Hin|Hout]; [|by eapply Tf].
    destruct (settled c) eqn:Es; [done|]. exfalso. apply Hnin. apply list_elem_of_filter. split; [|done].
    unfold settled_at. by rewrite Hc.
Qed.

Lemma terminals_fresh l p n : (∀ e q, e ∈ l → evSubject e = Some q → (q < n)%nat) → (n ≤ p)%nat → terminals l p = [].
Proof.
  intros Hl Hp. unfold terminals. induction l as [|e l IH]; [done|]. rewrite filter_cons_False.
  - apply IH. intros e' q He. apply Hl. by right.
  - unfold is_terminal. rewrite bool_decide_eq_false_2; [done|]. intros E. specialize (Hl e p ltac:(by left) E). lia.
Qed.

Lemma ensure_keeps message thread turn phase r : keeps r (ensure message thread turn phase r).2.
Proof.
  unfold ensure. destruct (requestedCall message) as [[[[[id call] rthread] rturn] name]|]; [|done].
  destruct (calls r !! mkCallKey rthread rturn call) as [p|] eqn:Hk; [done|]. destruct (bool_decide _); [done|].
  destruct (_ || _); [done|]. cbn [snd]. intros [Ic If [Tc To Tn Tf] [Un Us Ub]].
  set (c0 := newRouting id call rthread rturn phase name).
  assert (Hold : ∀ p c, heap r !! p = Some c → (heap r ++ [c0]) !! p = Some c) by (intros; by apply lookup_app_l_Some).
  assert (Hin : ∀ p, p ∈ order r → (p < length (heap r))%nat).
  { intros p Hp. destruct (To p Hp) as (c & Hc & _). by eapply lookup_lt_Some. }
  assert (Hnew : (heap r ++ [c0]) !! length (heap r) = Some c0) by (by rewrite list_lookup_middle).
  split; [|intros p c Hp; exists c; split; [by apply Hold|apply evolves_refl]].
  constructor; cbn [heap recorded calls order terminalTurns terminalOrder]; [| | |by constructor].
  - intros p c Hp. apply lookup_app_Some in Hp as [Hp|[Hge Hp]]; [by apply Ic|].
    apply list_lookup_singleton_Some in Hp as [_ <-]. split.
    + by constructor; [left| |].
    + unfold logged. rewrite (terminals_fresh _ _ _ If) by lia. done.
  - intros e p He Hp. rewrite length_app. specialize (If e p He Hp). lia.
  - constructor; cbn [heap calls order].
    + intros k p Hkp. apply lookup_insert_Some in Hkp as [[<- <-] | [Hne Hkp]].
      * split; [set_solver|]. eauto.
      * destruct (Tc k p Hkp) as [Hp (c & Hc & <-)]. split; [set_solver|]. eauto.
    + intros p Hp. apply elem_of_app in Hp as [Hp|Hp].
      * destruct (To p Hp) as (c & Hc & Hkc). exists c. split; [auto|]. rewrite lookup_insert_ne; [done|].
        intros E. change (mkCallKey rthread rturn call = key_of c) in E. rewrite E in Hk. congruence.
      * apply list_elem_of_singleton in Hp as ->. exists c0. split; [done|]. by rewrite lookup_insert_eq.
    + apply NoDup_app. split_and!; [done| |apply NoDup_singleton]. intros p Hp Hp'.
      apply list_elem_of_singleton in Hp' as ->. apply Hin in Hp. lia.
    + intros p c Hp Hnin. apply lookup_app_Some in Hp as [Hp|[Hge Hp]]; [apply (Tf p c Hp); set_solver|].
      apply list_lookup_singleton_Some in Hp as [E <-]. exfalso. apply Hnin. apply elem_of_app. right.
      apply list_elem_of_singleton. lia.
Qed.

(** ** Interleavings *)

(** The router and the deliveries whose evidence was accepted but which have not
    been finished yet. *)
Definition routing_state : Type := dynamicCallRouter * list (pointer * bytes).

(** One critical section of any goroutine. Handlers finish calls as rejected,
    orphaned or yielded; only accepted evidence finishes one as delivered. *)
Inductive router_step : relation routing_state :=
| st_ensure message thread turn phase r d : router_step (r, d) ((ensure message thread turn phase r).2, d)
| st_ready p r d : router_step (r, d) (markResultReady p r, d)
| st_attempted p r d : router_step (r, d) (markResponseWriteAttempted p r, d)
| st_finish p o status r d : o ≠ bs "delivered" → router_step (r, d) ((finish p o status r).2, d)
| st_reserve p r d : router_step (r, d) ((reserveHandler p r).2, d)
| st_start p r d : router_step (r, d) ((startHandler p r).2, d)
| st_release thread turn r d : router_step (r, d) ((releaseUnstarted_mark thread turn r).2, d)
| st_prune r d : router_step (r, d) (prune r, d)
| st_check params item thread turn r d :
    router_step (r, d) ((recordDelivery_check params item thread turn r).2,
                        d ++ match (recordDelivery_check params item thread turn r).1 with Some x => [x] | None => [] end)
| st_deliver p status r d d' : d ≡ₚ (p, status) :: d' → router_step (r, d) ((finish (Some p) (bs "delivered") status r).2, d')
| st_handled p r d : router_step (r, d) (finishHandler_mark p r, d)
| st_terminal thread turn phase status r d : router_step (r, d) ((orphanUnresolved_mark thread turn phase status r).2, d).


Definition routing_inv (s : routing_state) : Prop := router_inv s.1 ∧ ∀ p status, (p, status) ∈ s.2 → may_deliver s.1 p ∧ (p < length (heap s.1))%nat.

Lemma may_deliver_grow r r' p : flags_grow r r' → may_deliver r p → (p < length (heap r))%nat → may_deliver r' p.
Proof.
  intros Hg Hd Hlt c' Hp'. destruct (lookup_lt_is_Some_2 _ _ Hlt) as [c Hp].
  destruct (Hg p c Hp) as (c1 & Hp1 & Hev). rewrite Hp' in Hp1. injection Hp1 as <-.
  destruct (Hd c Hp). split; [by apply (ev_ready _ _ Hev)|by apply (ev_attempted _ _ Hev)].
Qed.

Lemma flags_grow_length r r' p : flags_grow r r' → (p < length (heap r))%nat → (p < length (heap r'))%nat.
Proof. intros Hg Hlt. destruct (lookup_lt_is_Some_2 _ _ Hlt) as [c Hp]. destruct (Hg p c Hp) as (c' & Hp' & _). by eapply lookup_lt_Some. Qed.

(** A section that accepts no new evidence. *)
Lemma routing_keep r r' (d d' : list (pointer * bytes)) :
  keeps r r' → d' ⊆ d → routing_inv (r, d) → routing_inv (r', d').
Proof.
  intros Hk Hd [Hinv Hdel]. destruct (Hk Hinv) as [Hinv' Hg]. split; [done|]. cbn [fst snd] in *. intros p status Hin.
  destruct (Hdel p status (Hd _ Hin)) as [Hm Hlt]. split; [by eapply may_deliver_grow|by eapply flags_grow_length].
Qed.

Lemma router_step_inv s s' : router_step s s' → routing_inv s → routing_inv s'.
Proof.
  intros H. destruct H as [message thread turn phase r d|p r d|p r d|p o status r d Ho|p r d|p r d|thread turn r d|r d
    |params item thread turn r d|p status r d d' Hperm|p r d|thread turn phase status r d].
  - apply routing_keep; [apply ensure_keeps|done].
  - apply routing_keep; [apply markResultReady_keeps|done].
  - apply routing_keep; [apply markResponseWriteAttempted_keeps|done].
  - apply routing_keep; [|done]. destruct p as [p|]; [|apply keeps_refl]. by apply finish_keeps.
  - apply routing_keep; [apply reserveHandler_keeps|done].
  - apply routing_keep; [apply startHandler_keeps|done].
  - apply routing_keep; [apply releaseUnstarted_mark_keeps|done].
  - apply routing_keep; [apply prune_keeps|done].
  - intros Hi. pose proof (recordDelivery_check_keeps params item thread turn r) as Hk.
    destruct (recordDelivery_check params item thread turn r) as [[[p status]|] r'] eqn:Ec; cbn [fst snd] in *.
    + destruct (recordDelivery_check_sound _ _ _ _ _ _ _ _ Ec) as (-> & Hm & c & Hc & _). destruct Hi as [Hinv Hdel].
      split; [done|]. cbn [fst snd] in *. intros q st Hin. apply elem_of_app in Hin as [Hin|Hin]; [by eapply Hdel|].
      apply list_elem_of_singleton in Hin as [= -> ->]. split; [done|by eapply lookup_lt_Some].
    + rewrite app_nil_r. by eapply routing_keep.
  - intros [Hinv Hdel]. cbn [fst snd] in *. refine (routing_keep r _ d d' _ _ (conj Hinv Hdel)).
    + apply finish_keeps. intros _. apply (Hdel p status). rewrite Hperm. by left.
    + intros x Hx. rewrite Hperm. by right.
  - apply routing_keep; [apply finishHandler_mark_keeps|done].
  - apply routing_keep; [apply orphanUnresolved_mark_keeps|done].
Qed.

Lemma router_init : routing_inv (newDynamicCallRouter, []).
Proof.
  split; [|intros p status Hin; by apply not_elem_of_nil in Hin]. constructor; cbn; try done.
  - intros e p He. by apply not_elem_of_nil in He.
  - constructor; cbn; try done; [intros p Hp; by apply not_elem_of_nil in Hp|constructor].
  - constructor; cbn; [constructor|done|by vm_compute].
Qed.

Lemma router_reachable s : rtc router_step (newDynamicCallRouter, []) s → routing_inv s.
Proof.
  generalize router_init. generalize (newDynamicCallRouter, @nil (pointer * bytes)). intros s0 Hinit H.
  induction H as [|x y z Hxy _ IH]; [done|]. apply IH. by eapply router_step_inv.
Qed.

(** C18: Under every interleaving of the critical sections of handlers, readers and
    shutdown, the log holds at most one outcome per call: none while the call is
    open, and exactly the recorded one afterwards. A call counts as delivered only
    if its result was ready and the response had been attempted, and a handler only
    starts after it was reserved. *)
Theorem dynamic_call_outcomes s p c :
  rtc router_step (newDynamicCallRouter, []) s → heap s.1 !! p = Some c →
  evName <$> terminals (recorded s.1) p
    = (if bool_decide (terminalOutcome c = []) then [] else [bs "tool_result_" ++ terminalOutcome c])
  ∧ (terminalOutcome c = bs "delivered" → resultReady c = true ∧ responseWriteAttempted c = true)
  ∧ (handlerStarted c = true → handlerReserved c = true).
Proof.
  intros Hs Hp. destruct (router_reachable s Hs) as [Hinv _]. destruct (ri_calls _ Hinv p c Hp) as [[] Hlog]. done.
Qed.

(** The router's tables stay consistent under every interleaving: each key has
    one call and each listed call is found under its key, a call is forgotten only
    when it has an outcome, its turn has ended and its handler has returned, and at
    most 256 ended turns are remembered, each once. *)
Theorem dynamic_call_tables s :
  rtc router_step (newDynamicCallRouter, []) s →
  (∀ k p, calls s.1 !! k = Some p ↔ p ∈ order s.1 ∧ ∃ c, heap s.1 !! p = Some c ∧ key_of c = k)
  ∧ NoDup (order s.1)
  ∧ (∀ p c, heap s.1 !! p = Some c → p ∉ order s.1 →
       terminalOutcome c ≠ [] ∧ turnTerminalRecorded c = true ∧ handlerFinished c = true)
  ∧ terminalTurns s.1 = list_to_set (terminalOrder s.1) ∧ NoDup (terminalOrder s.1)
  ∧ len (terminalOrder s.1) ≤ maxTerminalDynamicTurns.
Proof.
  intros Hs. destruct (router_reachable s Hs) as [[_ _ [Tc To Tn Tf] []] _]. split_and!; try done.
  - intros k p. split; [apply Tc|]. intros [Hp (c & Hc & <-)]. destruct (To p Hp) as (c' & Hc' & Hk). congruence.
  - intros p c Hc Hp. specialize (Tf p c Hc Hp). unfold settled in Tf. by zbool.
Qed.

(** *** The end of a turn *)

Lemma orphan_heap thread turn phase status r q c :
  NoDup (order r) → heap r !! q = Some c → of_turn (heap r) thread turn q = true → q ∈ order r →
  ∃ c', heap (orphanUnresolved_mark thread turn phase status r).2 !! q = Some c'
    ∧ turnTerminalRecorded c' = true
    ∧ terminalOutcome c' = (if bool_decide (terminalOutcome c = []) && negb (bool_decide (status = bs "interrupted"))
                            then bs "orphaned" else terminalOutcome c).
Proof.
  intros Hnd Hc Hof Hq. unfold orphanUnresolved_mark. cbn zeta. cbn [snd].
  destruct (noteTerminalTurn_rest (mkTurnKey thread turn) r) as (Eh & _ & Eo & _).
  cbn [recordEvents set_heap heap]. rewrite Eh, Eo.
  assert (Hmine : q ∈ filter (λ p, of_turn (heap r) thread turn p = true) (order r)) by (by apply list_elem_of_filter).
  rewrite fold_alter_lookup by (by apply NoDup_filter). 
  set (mine := filter (λ p, of_turn (heap r) thread turn p = true) (order r)) in *.
  assert (Em : bool_decide (q ∈ mine) = true) by (by case_bool_decide). rewrite Em. clear Em.
  destruct (bool_decide_reflect (status = bs "interrupted")) as [_|_]; rewrite ?andb_false_r, ?andb_true_r; cbn [negb].
  - cbn [fold_left]. rewrite Hc. eexists. split; [done|]. by destruct (bool_decide (terminalOutcome c = [])).
  - rewrite fold_alter_lookup by (by apply NoDup_filter, NoDup_filter).
    assert (Hu : (q ∈ filter (λ p, unresolved (heap r) p = true) mine)
                 ↔ terminalOutcome c = []).
    { rewrite list_elem_of_filter. unfold unresolved. rewrite Hc, bool_decide_eq_true. naive_solver. }
    rewrite (bool_decide_ext _ _ Hu), Hc. destruct (bool_decide (terminalOutcome c = [])); eexists; done.
Qed.

(** The turns an event log remembers as ended refuse new calls. *)
Lemma ensure_terminal message thread turn phase r id call rthread rturn name :
  requestedCall message = Some (id, call, rthread, rturn, name) → mkTurnKey rthread rturn ∈ terminalTurns r →
  ensure message thread turn phase r = (calls r !! mkCallKey rthread rturn call, r).
Proof.
  intros Hm Ht. unfold ensure. rewrite Hm. destruct (calls r !! mkCallKey rthread rturn call); [done|].
  by rewrite (bool_decide_eq_true_2 _ Ht).
Qed.

Lemma noteTerminalTurn_in key r : turns_ok r → key ∈ terminalTurns (noteTerminalTurn key r).
Proof.
  intros [Hn Hs Hb]. unfold noteTerminalTurn. destruct (bool_decide_reflect (key ∈ terminalTurns r)) as [Hk|Hk]; [done|].
  cbn zeta. destruct (maxTerminalDynamicTurns <? len (terminalOrder r ++ [key])) eqn:El; [|cbn; set_solver].
  destruct (terminalOrder r) as [|oldest l] eqn:E; [by vm_compute in El|]. cbn [app].
  cbn [terminalTurns]. apply elem_of_difference. split; [set_solver|]. rewrite elem_of_singleton. intros ->.
  apply Hk. rewrite Hs. set_solver.
Qed.

Lemma prune_lookup r p : heap (prune r) !! p = heap r !! p.
Proof. done. Qed.

(** When a turn ends in any way but an interruption, every call of it that was
    admitted has an outcome afterwards (an open one becomes orphaned, a decided one
    keeps its outcome), the calls returned are exactly those that were open, and
    from then on the turn admits no further call. *)
Theorem turn_end_resolves_calls s thread turn phase status pending r' :
  rtc router_step (newDynamicCallRouter, []) s →
  orphanUnresolved thread turn phase status s.1 = (pending, r') → status ≠ bs "interrupted" →
  (∀ p c, p ∈ order s.1 → heap s.1 !! p = Some c → threadID c = thread → turnID c = turn →
     ∃ c', heap r' !! p = Some c'
       ∧ terminalOutcome c' = (if bool_decide (terminalOutcome c = []) then bs "orphaned" else terminalOutcome c)
       ∧ (p ∈ pending ↔ terminalOutcome c = []))
  ∧ (∀ message currentThread currentTurn currentPhase id call name,
       requestedCall message = Some (id, call, thread, turn, name) →
       (ensure message currentThread currentTurn currentPhase r').2 = r').
Proof.
  intros Hs Ho Hne. destruct (router_reachable s Hs) as [Hinv _]. unfold orphanUnresolved in Ho.
  destruct (orphanUnresolved_mark thread turn phase status s.1) as [l r1] eqn:Em. injection Ho as <- <-.
  assert (Hr1 : r1 = (orphanUnresolved_mark thread turn phase status s.1).2) by (by rewrite Em).
  assert (Hl : l = (orphanUnresolved_mark thread turn phase status s.1).1) by (by rewrite Em). split.
  - intros p c Hp Hc Ht Hu. assert (Hof : of_turn (heap s.1) thread turn p = true).
    { unfold of_turn. rewrite Hc, Ht, Hu. by rewrite !bool_decide_eq_true_2. }
    destruct (orphan_heap thread turn phase status s.1 p c (to_nodup _ (ri_tables _ Hinv)) Hc Hof Hp) as (c' & Hc' & _ & E).
    exists c'. rewrite prune_lookup, Hr1. rewrite (bool_decide_eq_false_2 _ Hne), andb_true_r in E. split_and!; [done|done|].
    rewrite Hl. unfold orphanUnresolved_mark. cbn zeta. cbn [fst].
    destruct (noteTerminalTurn_rest (mkTurnKey thread turn) s.1) as (Eh & _ & Eo & _). rewrite Eh, Eo.
    rewrite !list_elem_of_filter. unfold unresolved. rewrite Hc, bool_decide_eq_true. naive_solver.
  - intros message ct cu cp id call name Hm. erewrite ensure_terminal; [done|exact Hm|].
    rewrite Hr1. unfold orphanUnresolved_mark. cbn zeta. cbn [snd prune recordEvents set_heap terminalTurns].
    apply noteTerminalTurn_in. apply Hinv.
Qed.

(** ** A concrete session *)

Module routing_example.

Definition str (s : string) : jvalue := JString (bs s).
Definition request : jvalue :=
  JObject [(bs "id", JNumber (bs "7")); (bs "method", str "item/tool/call");
           (bs "params", JObject [(bs "callId", str "call-1"); (bs "threadId", str "th"); (bs "turnId", str "tu");
                                  (bs "tool", str "read_file")])].
Definition item : jvalue := JObject [(bs "id", str "call-1"); (bs "status", str "completed"); (bs "tool", str "read_file")].
Definition notice : jvalue := JObject [(bs "threadId", str "th"); (bs "turnId", str "tu")].

Definition r1 := (ensure request (bs "th") (bs "tu") (bs "implementation") newDynamicCallRouter).2.
Definition r2 := markResponseWriteAttempted (Some 0%nat) (markResultReady (Some 0%nat) r1).
Definition r3 := (recordDelivery_check notice item (bs "th") (bs "tu") r2).2.
Definition r4 := (finish (Some 0%nat) (bs "delivered") (bs "completed") r3).2.

Lemma admitted : rtc router_step (newDynamicCallRouter, []) (r1, []).
Proof. eapply rtc_l; [apply (st_ensure request (bs "th") (bs "tu") (bs "implementation"))|]. apply rtc_refl. Qed.

Lemma delivered : rtc router_step (newDynamicCallRouter, []) (r4, []).
Proof.
  eapply (transitivity (R := rtc router_step)); [apply admitted|].
  eapply rtc_l; [apply (st_ready (Some 0%nat))|]. eapply rtc_l; [apply (st_attempted (Some 0%nat))|].
  eapply rtc_l; [apply (st_check notice item (bs "th") (bs "tu"))|].
  eapply rtc_l; [apply (st_deliver 0 (bs "completed") _ _ [])|]; [|apply rtc_refl].
  assert (E : (recordDelivery_check notice item (bs "th") (bs "tu")
    (markResponseWriteAttempted (Some 0%nat) (markResultReady (Some 0%nat) r1))).1 = Some (0%nat, bs "completed"))
    by (vm_compute; reflexivity).
  rewrite E. done.
Qed.

Definition call4 : dynamicCallRouting :=
  default (newRouting JNull [] [] [] [] []) (heap r4 !! 0%nat).
Lemma call4_found : heap r4 !! 0%nat = Some call4.
Proof. vm_compute. reflexivity. Qed.
Lemma call4_delivered : terminalOutcome call4 = bs "delivered".
Proof. vm_compute. reflexivity. Qed.

End routing_example.

Lemma dynamic_call_outcomes_witness :
  evName <$> terminals (recorded routing_example.r4) 0 = [bs "tool_result_delivered"]
  ∧ resultReady routing_example.call4 = true.
Proof.
  destruct (dynamic_call_outcomes (routing_example.r4, []) 0 routing_example.call4 routing_example.delivered
    routing_example.call4_found) as (E & Hd & _).
  split; [exact E|exact (proj1 (Hd routing_example.call4_delivered))].
Defined.

Lemma dynamic_call_tables_witness : NoDup (order routing_example.r4).
Proof. exact (proj1 (proj2 (dynamic_call_tables (routing_example.r4, []) routing_example.delivered))). Defined.

Lemma turn_end_resolves_calls_witness :
  ∃ c', heap (orphanUnresolved (bs "th") (bs "tu") (bs "implementation") (bs "completed") routing_example.r1).2 !! 0%nat = Some c'
    ∧ terminalOutcome c' = bs "orphaned".
Proof.
  destruct (turn_end_resolves_calls (routing_example.r1, []) (bs "th") (bs "tu") (bs "implementation") (bs "completed")
    (orphanUnresolved (bs "th") (bs "tu") (bs "implementation") (bs "completed") routing_example.r1).1
    (orphanUnresolved (bs "th") (bs "tu") (bs "implementation") (bs "completed") routing_example.r1).2
    routing_example.admitted (surjective_pairing _) ltac:(discriminate)) as [H _].
  destruct (H 0%nat (default (newRouting JNull [] [] [] [] []) (heap routing_example.r1 !! 0%nat))) as (c' & Hc' & E & _);
    [vm_compute; by left|vm_compute; reflexivity|vm_compute; reflexivity|vm_compute; reflexivity|].
  exists c'. split; [exact Hc'|]. rewrite E. vm_compute. reflexivity.
Defined.
