(* ===== verification/JsonCompact.v ===== *)
(** * JSON on one line, base64, and the messages of the application server

    What the agent and its application server exchange: encoding/json without
    indentation, with the escaping of [Marshal] and of an [Encoder] whose HTML
    escaping is off; encoding/base64; and src/internal/codexapp/message.go. *)

From S2P Require Import Prelude GoStd Json FeatureStore FeatureProofs ArchiveRecord JsonTree.
Open Scope Z_scope.

(** ** Values on one line *)
Section Compact.
(** The body of a string literal, as the encoder at hand escapes it. *)
Context (esc : bytes → bytes).

Fixpoint compact (v : jvalue) : bytes :=
  match v with
  | JNull => bs "null"
  | JBool true => bs "true"
  | JBool false => bs "false"
  | JNumber w => w
  | JString s => quoted esc s
  | JArray [] => bs "[]"
  | JArray (x :: l) => [x5b] ++ compact x ++ flat_map (λ y, [x2c] ++ compact y) l ++ [x5d]
  | JObject [] => bs "{}"
  | JObject ((k, x) :: l) =>
      [x7b] ++ quoted esc k ++ [x3a] ++ compact x
      ++ flat_map (λ m, [x2c] ++ quoted esc m.1 ++ [x3a] ++ compact m.2) l ++ [x7d]
  end.

(** What makes the literals readable. *)
Context (P : bytes → Prop).
Hypothesis esc_scan : ∀ s t, P s → json.scan_string (esc s ++ json.quote_ :: t) = Some t.
Hypothesis esc_unquote : ∀ s t, P s → json.unquote (esc s ++ json.quote_ :: t) = s.

(** Every text of the value is one the escaping is right on. *)
Fixpoint texts_ok (v : jvalue) : Prop :=
  match v with
  | JNull | JBool _ => True
  | JNumber w => number_ok w
  | JString s => P s
  | JArray l => all_of texts_ok l
  | JObject l => all_of (λ m, P m.1 ∧ texts_ok m.2) l
  end.

Lemma compact_head v :
  texts_ok v → ∃ b r, compact v = b :: r ∧ json.is_space b = false ∧ b ≠ x7d ∧ b ≠ x5d.
Proof.
  destruct v as [|[]|w|s|[|x l]|[|[k x] l]]; intros Hv; try (by repeat eexists).
  destruct Hv as ((b & r & -> & Hb) & _). destruct (number_start b Hb) as (? & ? & ? & ? & ? & ? & ? & ? & ?).
  by exists b, r.
Qed.

Lemma skip_compact v t : texts_ok v → json.skip_space (compact v ++ t) = compact v ++ t.
Proof.
  intros Hv. destruct (compact_head v Hv) as (b & r & -> & Hb & _). cbn [app json.skip_space]. by rewrite Hb.
Qed.

Definition reads_compact (v : jvalue) : Prop :=
  ∀ depth fuel rest,
    texts_ok v → shallow depth v → (json_fuel v ≤ fuel)%nat → ends_number rest →
    parse_value fuel depth (compact v ++ rest) = Some (v, rest).

Lemma compact_elements depth rest x l fuel s :
  Forall (λ v, reads_compact v ∧ texts_ok v ∧ shallow depth v) (x :: l) →
  (total (map (λ v, S (json_fuel v)) (x :: l)) ≤ fuel)%nat →
  json.skip_space s = compact x ++ flat_map (λ y, [x2c] ++ compact y) l ++ x5d :: rest →
  parse_elements fuel depth s = Some (x :: l, rest).
Proof.
  revert x fuel s. induction l as [|y l IH]; intros x fuel s HF Hfuel Hs;
    apply Forall_cons in HF as [(Hx & Hok & Hd) HF]; cbn [map] in Hfuel; rewrite total_cons in Hfuel;
    (destruct fuel as [|fuel]; [lia|]); cbn [parse_elements]; rewrite Hs.
  - cbn [flat_map app]. rewrite Hx; [|done|done|lia|by apply (ends_after 0 x5d rest); right; right].
    cbn [mbind option_bind]. change (json.skip_space (x5d :: rest)) with (x5d :: rest).
    cbn match. by rewrite decide_False, decide_True.
  - cbn [flat_map]. rewrite <- !app_assoc. cbn [app].
    rewrite Hx; [|done|done|cbn [map] in *; lia|by apply (ends_after 0 x2c); left].
    cbn [mbind option_bind].
    match goal with |- context [json.skip_space (x2c :: ?t)] => change (json.skip_space (x2c :: t)) with (x2c :: t) end.
    cbn match. rewrite decide_True by done.
    rewrite (IH y fuel); [done|done|cbn [map] in *; lia|].
    apply Forall_cons in HF as [(_ & Hy & _) _]. by apply skip_compact.
Qed.

Lemma compact_members depth rest m l fuel s :
  Forall (λ m, reads_compact m.2 ∧ (P m.1 ∧ texts_ok m.2) ∧ shallow depth m.2) (m :: l) →
  (total (map (λ m, S (json_fuel m.2)) (m :: l)) ≤ fuel)%nat →
  json.skip_space s = quoted esc m.1 ++ [x3a] ++ compact m.2
    ++ flat_map (λ m, [x2c] ++ quoted esc m.1 ++ [x3a] ++ compact m.2) l ++ x7d :: rest →
  parse_members fuel depth s = Some (m :: l, rest).
Proof.
  revert m fuel s. induction l as [|y l IH]; intros [k x] fuel s HF Hfuel Hs;
    apply Forall_cons in HF as [(Hx & (Hk & Hok) & Hd) HF]; cbn [fst snd] in *;
    cbn [map] in Hfuel; rewrite total_cons in Hfuel; cbn [snd] in Hfuel;
    (destruct fuel as [|fuel]; [lia|]); cbn [parse_members]; rewrite Hs;
    unfold quoted at 1; rewrite <- !app_assoc; cbn [app]; rewrite decide_True by done;
    rewrite esc_scan, esc_unquote by done; cbn [mbind option_bind];
    match goal with |- context [json.skip_space (x3a :: ?t)] => change (json.skip_space (x3a :: t)) with (x3a :: t) end;
    cbn match; rewrite decide_True by done; rewrite skip_compact by done.
  - cbn [flat_map app]. rewrite Hx; [|done|done|lia|by apply (ends_after 0 x7d rest); right; left].
    cbn [mbind option_bind]. change (json.skip_space (x7d :: rest)) with (x7d :: rest).
    cbn match. by rewrite decide_False, decide_True.
  - cbn [flat_map]. rewrite <- !app_assoc. cbn [app].
    rewrite Hx; [|done|done|cbn [map] in *; lia|by apply (ends_after 0 x2c); left].
    cbn [mbind option_bind].
    match goal with |- context [json.skip_space (x2c :: ?t)] => change (json.skip_space (x2c :: t)) with (x2c :: t) end.
    cbn match. rewrite decide_True by done.
    rewrite (IH y fuel); [done|done|cbn [map] in *; lia|]. by rewrite <- !app_assoc.
Qed.

Lemma reads_compact_all v : reads_compact v.
Proof.
  induction v as [|b|w|s|l IH|l IH] using jvalue_nested; intros depth fuel rest Hok Hd Hf Hr;
    unfold shallow in Hd; (destruct fuel as [|fuel]; [cbn in Hf; lia|]).
  - done.
  - by destruct b.
  - by apply parse_number.
  - unfold compact, quoted. cbn [app parse_value]. rewrite decide_True by done. rewrite <- app_assoc. cbn [app].
    by rewrite esc_scan, esc_unquote.
  - cbn [json_depth] in Hd. apply all_of_Forall in Hok. fold texts_ok in Hok.
    assert (Hdeep : (json.maxNestingDepth <? depth + 1) = false) by (apply Z.ltb_ge; lia).
    destruct l as [|x l].
    { change (compact (JArray []) ++ rest) with (x5b :: x5d :: rest). cbn [parse_value].
      rewrite !decide_False, Hdeep by done. done. }
    cbn [compact app parse_value]. rewrite <- !app_assoc. rewrite !decide_False, decide_True, Hdeep by done.
    pose proof (Forall_inv Hok) as Hx. rewrite skip_compact by done.
    destruct (compact_head x Hx) as (b & r & E & Hsp & _ & Hb). rewrite E. cbn [app].
    rewrite decide_False by done.
    rewrite (compact_elements (depth + 1) rest x l fuel); [done| | |].
    + pose proof (maximum_bound json_depth (x :: l) _ (le_n _)) as Hm.
      apply Forall_forall. intros v Hv. rewrite Forall_forall in IH, Hok, Hm. split_and!; [auto|auto|].
      specialize (Hm v Hv). unfold shallow. lia.
    + cbn [json_fuel] in Hf. lia.
    + rewrite E. cbn [app json.skip_space]. by rewrite Hsp.
  - cbn [json_depth] in Hd. apply all_of_Forall in Hok. fold texts_ok in Hok.
    assert (Hdeep : (json.maxNestingDepth <? depth + 1) = false) by (apply Z.ltb_ge; lia).
    destruct l as [|[k x] l].
    { change (compact (JObject []) ++ rest) with (x7b :: x7d :: rest). cbn [parse_value].
      rewrite !decide_False, decide_True, Hdeep by done. done. }
    cbn [compact app parse_value]. rewrite <- !app_assoc. rewrite decide_False, decide_True, Hdeep by done.
    unfold quoted at 1. rewrite <- !app_assoc. cbn [app].
    change (json.skip_space (json.quote_ :: ?t)) with (json.quote_ :: t). cbn match.
    rewrite decide_False by done.
    rewrite (compact_members (depth + 1) rest (k, x) l fuel); [done| | |].
    + pose proof (maximum_bound (λ m, json_depth m.2) ((k, x) :: l) _ (le_n _)) as Hm.
      apply Forall_forall. intros v Hv. rewrite Forall_forall in IH, Hok, Hm. refine (conj (IH v Hv) (conj (Hok v Hv) _)).
      specialize (Hm v Hv). unfold shallow. lia.
    + cbn [json_fuel] in Hf. lia.
    + change (quoted esc (k, x).1) with ([json.quote_] ++ esc k ++ [json.quote_]). by rewrite <- !app_assoc.
Qed.

Lemma compact_fuel v : texts_ok v → (json_fuel v ≤ 2 * length (compact v))%nat.
Proof.
  induction v as [|b|w|s|l IH|l IH] using jvalue_nested; intros Hok.
  - cbn. lia.
  - destruct b; cbn; lia.
  - destruct Hok as ((b & r & -> & _) & _). cbn. lia.
  - cbn [compact json_fuel]. unfold quoted. rewrite !length_app. cbn. lia.
  - apply all_of_Forall in Hok. destruct l as [|x l]; [cbn; lia|]. cbn [compact json_fuel map]. fold texts_ok in Hok.
    assert (Ht : (total (map (λ y, S (json_fuel y)) l) ≤ 2 * total (map (λ y, length ([x2c] ++ compact y)) l))%nat).
    { apply total_mul. apply Forall_forall. intros y Hy. rewrite Forall_forall in IH, Hok.
      pose proof (IH y ltac:(set_solver) (Hok y ltac:(set_solver))). rewrite !length_app. cbn. lia. }
    pose proof (Forall_inv IH (Forall_inv Hok)).
    rewrite total_cons, !length_app, length_flat_map. cbn [length]. lia.
  - apply all_of_Forall in Hok. destruct l as [|[k x] l]; [cbn; lia|]. cbn [compact json_fuel map]. fold texts_ok in Hok.
    assert (Ht : (total (map (λ m, S (json_fuel m.2)) l)
      ≤ 2 * total (map (λ m, length ([x2c] ++ quoted esc m.1 ++ [x3a] ++ compact m.2)) l))%nat).
    { apply total_mul. apply Forall_forall. intros y Hy. rewrite Forall_forall in IH, Hok.
      pose proof (IH y ltac:(set_solver) (proj2 (Hok y ltac:(set_solver)))). rewrite !length_app. cbn. lia. }
    pose proof (Forall_inv IH (proj2 (Forall_inv Hok))). cbn [snd] in *.
    rewrite total_cons, !length_app, length_flat_map. cbn [length]. lia.
Qed.

(** A value written on one line reads back, also before trailing white space. *)
Lemma parse_text_compact v space :
  texts_ok v → Z.of_nat (json_depth v) ≤ json.maxNestingDepth → forallb json.is_space space = true →
  parse_text (compact v ++ space) = Some v.
Proof.
  intros Hok Hd Hs. unfold parse_text. rewrite skip_compact by done.
  assert (Hskip : json.skip_space space = []).
  { clear -Hs. induction space as [|c s IH]; cbn in *; [done|]. apply andb_true_iff in Hs as [-> Hs]. auto. }
  rewrite (reads_compact_all v 0); [by cbn [mbind option_bind]; rewrite Hskip|done|unfold shallow; lia| |].
  - pose proof (compact_fuel v Hok). rewrite length_app. lia.
  - destruct space as [|c s]; [done|]. cbn in Hs. apply andb_true_iff in Hs as [Hc _].
    destruct c; try (vm_compute in Hc; discriminate Hc); done.
Qed.
End Compact.

(** ** The encoders *)

(** A text that is not UTF-8: each byte that starts no character is replaced. *)
Fixpoint escape_runes (fuel : nat) (s : bytes) : bytes :=
  match fuel, s with
  | S fuel, b :: r =>
      if b2z b <? 0x80 then json.escape_ascii b ++ escape_runes fuel r
      else
        let '(c, width) := utf8.DecodeRune s in
        (if (c =? utf8.RuneError) && (width =? 1) then bs "\ufffd"
         else if c =? 0x2028 then bs "\u2028" else if c =? 0x2029 then bs "\u2029"
         else takeZ width s) ++ escape_runes fuel (dropZ width s)
  | _, _ => []
  end.
(** The body of a string literal without HTML escaping; on valid UTF-8, where the
    two agree, in the form the proofs are about. *)
Definition escape_text (s : bytes) : bytes :=
  if utf8.Valid s then json.escape s else escape_runes (length s) s.

Example escape_agree :
  let s := xe2 :: x80 :: xa8 :: x0a :: xc3 :: xa9 :: x22 :: [x61] in escape_runes (length s) s = json.escape s.
Proof. vm_compute. reflexivity. Qed.
Example escape_invalid : escape_text [x61; xff; x62] = bs "a\ufffdb".
Proof. vm_compute. reflexivity. Qed.

(** The same with HTML escaping, as [json.Marshal] writes it. *)
Fixpoint escape_html_runes (fuel : nat) (s : bytes) : bytes :=
  match fuel, s with
  | S fuel, b :: r =>
      if b2z b <? 0x80 then escape_html_ascii b ++ escape_html_runes fuel r
      else
        let '(c, width) := utf8.DecodeRune s in
        (if (c =? utf8.RuneError) && (width =? 1) then bs "\ufffd"
         else if c =? 0x2028 then bs "\u2028" else if c =? 0x2029 then bs "\u2029"
         else takeZ width s) ++ escape_html_runes fuel (dropZ width s)
  | _, _ => []
  end.
Definition escape_html_text (s : bytes) : bytes :=
  if utf8.Valid s then escape_html s else escape_html_runes (length s) s.

(** [json.Marshal] *)
Definition Marshal (v : jvalue) : bytes := compact escape_html_text v.
(** [Encode] of an [Encoder] after [SetEscapeHTML(false)]; it ends the line. *)
Definition Encode (v : jvalue) : bytes := compact escape_text v ++ [x0a].

(** A decoded object is a Go map: of several members of a name the last counts. *)
Fixpoint last_members (l : list (bytes * jvalue)) : list (bytes * jvalue) :=
  match l with
  | [] => []
  | m :: l => if existsb (λ x, bool_decide (x.1 = m.1)) l then last_members l else m :: last_members l
  end.

(** A Go map is written in the order of its keys; a struct keeps its field order. *)
Fixpoint sortKeys (v : jvalue) : jvalue :=
  match v with
  | JArray l => JArray (map sortKeys l)
  | JObject l => JObject (sort.SliceBy fst (last_members (map (λ m, (m.1, sortKeys m.2)) l)))
  | _ => v
  end.

(** [json.escape] keeps U+2028 and U+2029 as escapes, on valid UTF-8 or not. *)
Lemma scan_escape s t : json.scan_string (json.escape s ++ json.quote_ :: t) = Some t.
Proof.
  remember (length s) as n eqn:E. revert s t E. induction n as [n IH] using lt_wf_ind; intros s t ->.
  destruct s as [|b s]; [done|]. cbn [json.escape].
  assert (Hone : json.scan_string ((json.escape_ascii b ++ json.escape s) ++ json.quote_ :: t) = Some t)
    by (rewrite <- app_assoc, scan_plain_byte; by eapply IH; [|done]; cbn; lia).
  destruct s as [|c [|d s]]; [exact Hone|exact Hone|].
  destruct (bool_decide (b = xe2) && bool_decide (c = x80) && bool_decide (d = xa8)).
  { rewrite <- app_assoc. change (json.scan_string (bs "\u2028" ++ ?r)) with (json.scan_string r).
    eapply IH; [|done]; cbn; lia. }
  destruct (bool_decide (b = xe2) && bool_decide (c = x80) && bool_decide (d = xa9)); [|exact Hone].
  rewrite <- app_assoc. change (json.scan_string (bs "\u2029" ++ ?r)) with (json.scan_string r).
  eapply IH; [|done]; cbn; lia.
Qed.

Lemma unquote_escape s t : json.unquote (json.escape s ++ json.quote_ :: t) = s.
Proof.
  remember (length s) as n eqn:E. revert s t E. induction n as [n IH] using lt_wf_ind; intros s t ->.
  destruct s as [|b s]; [done|]. cbn [json.escape].
  assert (Hone : json.unquote ((json.escape_ascii b ++ json.escape s) ++ json.quote_ :: t) = b :: s)
    by (rewrite <- app_assoc, unquote_plain_byte; f_equal; eapply IH; [|done]; cbn; lia).
  destruct s as [|c [|d s]]; [exact Hone|exact Hone|].
  destruct (bool_decide (b = xe2) && bool_decide (c = x80) && bool_decide (d = xa8)) eqn:E8.
  { rewrite !andb_true_iff, !bool_decide_eq_true in E8. destruct E8 as [[-> ->] ->]. rewrite <- app_assoc.
    change (json.unquote (bs "\u2028" ++ ?r)) with (xe2 :: x80 :: xa8 :: json.unquote r).
    do 3 f_equal. eapply IH; [|done]; cbn; lia. }
  destruct (bool_decide (b = xe2) && bool_decide (c = x80) && bool_decide (d = xa9)) eqn:E9; [|exact Hone].
  rewrite !andb_true_iff, !bool_decide_eq_true in E9. destruct E9 as [[-> ->] ->]. rewrite <- app_assoc.
  change (json.unquote (bs "\u2029" ++ ?r)) with (xe2 :: x80 :: xa9 :: json.unquote r).
  do 3 f_equal. eapply IH; [|done]; cbn; lia.
Qed.

Lemma parse_text_Encode v :
  json_ok v → Z.of_nat (json_depth v) ≤ json.maxNestingDepth → parse_text (Encode v) = Some v.
Proof.
  intros Hok Hd. apply (parse_text_compact _ (λ s, utf8.Valid s = true)); [| |exact Hok|done|done].
  - intros s t Hs. unfold escape_text. rewrite Hs. apply scan_escape.
  - intros s t Hs. unfold escape_text. rewrite Hs. apply unquote_escape.
Qed.

(** *** A value and its map *)

Lemma last_members_lookup name l : member name (last_members l) = member name l.
Proof.
  assert (Hacc : ∀ l found, fold_left (λ found m, if bool_decide (m.1 = name) then Some m.2 else found) (last_members l) found
    = fold_left (λ found (m : bytes * jvalue), if bool_decide (m.1 = name) then Some m.2 else found) l found); [|apply Hacc].
  clear l. induction l as [|m l IH]; intros found; [done|]. cbn [last_members fold_left].
  destruct (existsb _ l) eqn:E; [|by cbn [fold_left]; rewrite IH]. rewrite IH.
  destruct (bool_decide (m.1 = name)) eqn:En; [|done]. apply bool_decide_eq_true in En.
  clear IH. revert found. set (v := m.2). clearbody v. revert v.
  apply existsb_exists in E as (x & Hx & Hname). apply bool_decide_eq_true in Hname.
  induction l as [|y l IH]; [done|]. intros v found. cbn [fold_left].
  destruct Hx as [-> |Hx]; [|by destruct (bool_decide (y.1 = name)); [|apply IH]].
  by rewrite bool_decide_eq_true_2 by congruence.
Qed.

Lemma last_members_sub l m : m ∈ last_members l → m ∈ l.
Proof.
  induction l as [|x l IH]; [done|]. cbn [last_members]. destruct (existsb _ l); set_solver.
Qed.

Lemma last_members_NoDup l : NoDup (last_members l).*1.
Proof.
  induction l as [|x l IH]; [constructor|]. cbn [last_members]. destruct (existsb _ l) eqn:E; [done|].
  cbn [fmap list_fmap]. constructor; [|done]. intros Hin. apply list_elem_of_fmap in Hin as (y & Hy & Hin).
  apply last_members_sub in Hin. apply not_true_iff_false in E. apply E. apply existsb_exists. exists y.
  split; [by apply list_elem_of_In|]. by apply bool_decide_eq_true.
Qed.

Lemma member_elem name v l : NoDup l.*1 → member name l = Some v ↔ (name, v) ∈ l.
Proof.
  assert (Hno : ∀ l found, name ∉ l.*1 →
    fold_left (λ found (m : bytes * jvalue), if bool_decide (m.1 = name) then Some m.2 else found) l found = found).
  { clear. induction l as [|m l IH]; intros found Hn; [done|]. cbn [fold_left]. cbn [fmap list_fmap] in Hn.
    rewrite bool_decide_eq_false_2 by set_solver. apply IH. set_solver. }
  induction l as [|[k w] l IH]; cbn [fmap list_fmap]; intros Hd; [by cbn; split; [done|inversion 1]|].
  apply NoDup_cons in Hd as [Hk Hd]. unfold member. cbn [fold_left fst snd].
  destruct (decide (k = name)) as [-> |Hne].
  - rewrite bool_decide_eq_true_2 by done. rewrite Hno by done. split; [intros [= ->]; left|].
    intros [[= ->]|Hin]%elem_of_cons; [done|]. destruct Hk. by apply (list_elem_of_fmap_2 fst) in Hin.
  - rewrite bool_decide_eq_false_2 by done. rewrite elem_of_cons. change (member name l = Some v ↔ (name, v) = (k, w) ∨ (name, v) ∈ l).
    rewrite IH by done. split; [auto|]. intros [[= -> ->]|?]; [done|auto].
Qed.

Lemma member_perm name l k : NoDup l.*1 → l ≡ₚ k → member name l = member name k.
Proof.
  intros Hd Hp. assert (Hd' : NoDup k.*1) by (by rewrite <- Hp).
  destruct (member name l) as [v|] eqn:E.
  - apply member_elem in E; [|done]. symmetry. apply member_elem; [done|]. by rewrite <- Hp.
  - destruct (member name k) as [v|] eqn:E'; [|done]. apply member_elem in E'; [|done].
    rewrite <- Hp in E'. apply member_elem in E'; [|done]. congruence.
Qed.

(** The map that is written has the members of the map it was. *)
Lemma sortKeys_get name v : get name (sortKeys v) = sortKeys <$> get name v.
Proof.
  destruct v as [|b|w|s|l|l]; try done. cbn [sortKeys get].
  rewrite <- (member_perm _ (last_members (map (λ m, (m.1, sortKeys m.2)) l)))
    by (first [apply last_members_NoDup | symmetry; apply sort.SliceBy_perm]).
  rewrite last_members_lookup. unfold member. change (@None jvalue) with (sortKeys <$> @None jvalue) at 1.
  generalize (@None jvalue). induction l as [|m l IH]; intros found; [done|]. cbn [map fold_left fst snd].
  rewrite <- IH. by destruct (bool_decide _).
Qed.

Lemma sortKeys_ok v : json_ok v → json_ok (sortKeys v).
Proof.
  induction v as [|b|w|s|l IH|l IH] using jvalue_nested; intros Hv; try done; cbn [sortKeys json_ok] in *;
    rewrite all_of_Forall in *.
  - apply Forall_map. rewrite Forall_forall in *. cbn. auto.
  - rewrite sort.SliceBy_perm. rewrite Forall_forall in *. intros m Hm%last_members_sub.
    apply list_elem_of_fmap in Hm as (x & -> & Hx). cbn [fst snd]. destruct (Hv x Hx). auto.
Qed.

Lemma maximum_sub l k : (∀ x, x ∈ l → ∃ y, y ∈ k ∧ (x ≤ y)%nat) → (maximum l ≤ maximum k)%nat.
Proof.
  intros H. induction l as [|x l IH]; cbn [maximum foldr]; [lia|].
  assert (Hm : ∀ y, y ∈ k → (y ≤ maximum k)%nat).
  { clear. induction k as [|z k IH]; [by inversion 1|]. intros y. cbn [maximum foldr].
    intros [-> |Hy]%elem_of_cons; [lia|]. specialize (IH y Hy). unfold maximum in IH. lia. }
  destruct (H x ltac:(set_solver)) as (y & Hy & ?). specialize (Hm y Hy). specialize (IH ltac:(set_solver)). 
  unfold maximum in *. lia.
Qed.

Lemma sortKeys_depth v : (json_depth (sortKeys v) ≤ json_depth v)%nat.
Proof.
  induction v as [|b|w|s|l IH|l IH] using jvalue_nested; try done; cbn [sortKeys json_depth]; apply le_n_S, maximum_sub;
    rewrite Forall_forall in IH; intros x Hx.
  - apply list_elem_of_fmap in Hx as (y & -> & Hy). apply list_elem_of_fmap in Hy as (z & -> & Hz).
    exists (json_depth z). split; [by apply (list_elem_of_fmap_2 json_depth)|auto].
  - apply list_elem_of_fmap in Hx as (y & -> & Hy). rewrite sort.SliceBy_perm in Hy. apply last_members_sub in Hy.
    apply list_elem_of_fmap in Hy as (z & -> & Hz). cbn [snd].
    exists (json_depth z.2). split; [by apply (list_elem_of_fmap_2 (λ m, json_depth m.2))|auto].
Qed.

(** ** Valid UTF-8, character by character *)

(** A byte above ASCII that does not start a three-byte character of the block
    that holds the line separators. *)
Definition later_byte (b : byte) : Prop := (b2z b <? 0x80) = false ∧ b ≠ xe2.

(** The bytes of one character above ASCII. *)
Record wide_char (ch : bytes) : Prop := {
  wc_valid : utf8.Valid ch = true;
  wc_bytes : ∃ b0 rest, ch = b0 :: rest ∧ (b2z b0 <? 0x80) = false ∧ Forall later_byte rest
               ∧ (b0 = xe2 → ∃ b1 b2, rest = [b1; b2]);
  wc_width : ∀ s, (utf8.DecodeRune (ch ++ s)).2 = len ch
}.

Section utf8_induction.
Context (P : bytes → Prop) (Hnil : P []).
Context (Hascii : ∀ b s, (b2z b <? 0x80) = true → utf8.Valid s = true → P s → P (b :: s)).
Context (Hwide : ∀ ch s, wide_char ch → utf8.Valid s = true → P s → P (ch ++ s)).

Lemma utf8_ind s : utf8.Valid s = true → P s.
Proof.
  remember (length s) as n eqn:Hn. revert s Hn. induction (lt_wf n) as [n _ IH]. intros s -> Hv.
  destruct s as [|p0 r0]; [done|]. cbn [utf8.Valid] in Hv.
  destruct (b2z p0 <? 0x80) eqn:E0.
  { apply Hascii; [done|done|]. by apply (IH (length r0)); [cbn; lia| |]. }
  destruct (utf8.lead p0) as [[[size lo] hi]|] eqn:El; [|done].
  destruct r0 as [|b1 r1]; [done|].
  destruct (utf8.in_range lo hi b1) eqn:E1; cbn [negb] in Hv; [|done].
  pose proof (range_high _ _ _ _ _ El E1) as H1.
  destruct (size =? 2) eqn:Es.
  { apply (Hwide [p0; b1]); [|done|by apply (IH (length r1)); [cbn; lia| |]]. split.
    - cbn [utf8.Valid]. by rewrite E0, El, E1, Es.
    - exists p0, [b1]. split_and!; [done|done|by constructor|].
      intros ->. vm_compute in El. injection El as <- _ _. done.
    - intros s. cbn [utf8.DecodeRune app]. by rewrite E0, El, E1, Es. }
  destruct r1 as [|b2 r2]; [done|]. destruct (utf8.cont b2) eqn:E2; cbn [negb] in Hv; [|done].
  pose proof (cont_high _ E2) as H2.
  destruct (size =? 3) eqn:Es3.
  { apply (Hwide [p0; b1; b2]); [|done|by apply (IH (length r2)); [cbn; lia| |]]. split.
    - cbn [utf8.Valid]. rewrite E0, El, E1. cbn [negb]. by rewrite Es, E2, Es3.
    - exists p0, [b1; b2]. split_and!; [done|done|do 2 (apply Forall_cons_2; [done|]); apply Forall_nil_2|eauto].
    - intros s. cbn [utf8.DecodeRune app]. rewrite E0, El, E1. cbn [negb]. by rewrite Es, E2, Es3. }
  destruct r2 as [|b3 r3]; [done|]. destruct (utf8.cont b3) eqn:E3; cbn [negb] in Hv; [|done].
  pose proof (cont_high _ E3) as H3.
  apply (Hwide [p0; b1; b2; b3]); [|done|by apply (IH (length r3)); [cbn; lia| |]]. split.
  - cbn [utf8.Valid]. rewrite E0, El, E1. cbn [negb]. rewrite Es, E2. cbn [negb]. by rewrite Es3, E3.
  - exists p0, [b1; b2; b3]. split_and!; [done|done|do 3 (apply Forall_cons_2; [done|]); apply Forall_nil_2|].
    intros ->. vm_compute in El. injection El as <- _ _. done.
  - intros s. cbn [utf8.DecodeRune app]. rewrite E0, El, E1. cbn [negb]. rewrite Es, E2. cbn [negb]. by rewrite Es3, E3.
Qed.
End utf8_induction.

Lemma escape_low b s : (b2z b <? 0x80) = true → json.escape (b :: s) = json.escape_ascii b ++ json.escape s.
Proof.
  intros Hb. cbn [json.escape]. rewrite (bool_decide_eq_false_2 (b = xe2)) by (intros ->; by vm_compute in Hb).
  by destruct s as [|c [|d s]].
Qed.

Lemma escape_later rest s : Forall later_byte rest → json.escape (rest ++ s) = rest ++ json.escape s.
Proof.
  induction 1 as [|b rest [Hb Hne] _ IH]; [done|]. cbn [app]. rewrite <- IH.
  cbn [json.escape]. rewrite (bool_decide_eq_false_2 _ Hne), (escape_ascii_high _ Hb). cbn [andb app].
  by destruct (rest ++ s) as [|c [|d u]].
Qed.

Definition separator_8 : bytes := [xe2; x80; xa8].
Definition separator_9 : bytes := [xe2; x80; xa9].

(** A character above ASCII is copied, unless it is a line separator. *)
Lemma escape_wide ch s : wide_char ch →
  json.escape (ch ++ s) = (if decide (ch = separator_8) then bs "\u2028" else if decide (ch = separator_9) then bs "\u2029" else ch)
                          ++ json.escape s.
Proof.
  intros [_ (b0 & rest & -> & Hb & HF & Hthree) _].
  destruct (decide (b0 = xe2)) as [-> |Hne].
  - destruct (Hthree eq_refl) as (b1 & b2 & ->). pose proof (escape_later [b1; b2] s HF) as Ht. cbn [app] in Ht |- *.
    change (json.escape (xe2 :: b1 :: b2 :: s)) with
      (if bool_decide (xe2 = xe2) && bool_decide (b1 = x80) && bool_decide (b2 = xa8) then bs "\u2028" ++ json.escape s
       else if bool_decide (xe2 = xe2) && bool_decide (b1 = x80) && bool_decide (b2 = xa9) then bs "\u2029" ++ json.escape s
       else json.escape_ascii xe2 ++ json.escape (b1 :: b2 :: s)).
    rewrite (bool_decide_eq_true_2 (xe2 = xe2)) by done. cbn [andb].
    destruct (decide ([xe2; b1; b2] = separator_8)) as [[= -> ->]|H8]; [done|].
    destruct (decide ([xe2; b1; b2] = separator_9)) as [[= -> ->]|H9]; [done|].
    replace (bool_decide (b1 = x80) && bool_decide (b2 = xa8)) with false
      by (symmetry; apply not_true_iff_false; rewrite andb_true_iff, !bool_decide_eq_true; intros [-> ->]; done).
    replace (bool_decide (b1 = x80) && bool_decide (b2 = xa9)) with false
      by (symmetry; apply not_true_iff_false; rewrite andb_true_iff, !bool_decide_eq_true; intros [-> ->]; done).
    change (json.escape_ascii xe2) with [xe2]. cbn [app]. by rewrite Ht.
  - rewrite !decide_False by (unfold separator_8, separator_9; congruence).
    apply escape_later. constructor; [by split|done].
Qed.

Lemma Valid_escape s : utf8.Valid s = true → utf8.Valid (json.escape s) = true.
Proof.
  revert s. apply (utf8_ind (λ s, utf8.Valid (json.escape s) = true)); [done|intros b s Hb _ IH|intros ch s Hch _ IH].
  - rewrite (escape_low _ _ Hb). by apply Valid_app_both; [apply escape_ascii_low|].
  - rewrite (escape_wide _ _ Hch). apply Valid_app_both; [|done].
    destruct (decide _); [done|]. destruct (decide _); [done|]. apply (wc_valid _ Hch).
Qed.

Lemma Valid_quoted s : utf8.Valid s = true → utf8.Valid (quoted escape_text s) = true.
Proof.
  intros Hs. unfold quoted, escape_text. rewrite Hs. apply Valid_app_both; [done|].
  apply Valid_app_both; [by apply Valid_escape|done].
Qed.

Lemma Valid_compact_with esc v : (∀ s, utf8.Valid s = true → utf8.Valid (quoted esc s) = true) →
  json_ok v → utf8.Valid (compact esc v) = true.
Proof.
  intros Hesc. induction v as [|b|w|s|l IH|l IH] using jvalue_nested; intros Hok.
  - done.
  - by destruct b.
  - by destruct Hok as (_ & ? & _).
  - by apply Hesc.
  - apply all_of_Forall in Hok. fold json_ok in Hok. destruct l as [|x l]; [done|]. cbn [compact].
    rewrite !Forall_cons in *. destruct IH as [IHx IH], Hok as [Hx Hok].
    repeat (apply Valid_app_both; [try done; try by apply IHx|]); [|done].
    apply Valid_flat_map. apply Forall_forall. intros y Hy. rewrite Forall_forall in IH, Hok.
    apply Valid_app_both; [done|]. auto.
  - apply all_of_Forall in Hok. fold json_ok in Hok. destruct l as [|[k x] l]; [done|]. cbn [compact].
    rewrite !Forall_cons in *. cbn [fst snd] in *. destruct IH as [IHx IH], Hok as [[Hk Hx] Hok].
    repeat (apply Valid_app_both; [try done; try (by apply IHx); try by apply Hesc|]); [|done].
    apply Valid_flat_map. apply Forall_forall. intros y Hy. rewrite Forall_forall in IH, Hok.
    destruct (Hok y Hy) as [Hyk Hyv].
    repeat (apply Valid_app_both; [done || by apply Hesc|]). auto.
Qed.

Lemma Valid_compact v : json_ok v → utf8.Valid (compact escape_text v) = true.
Proof. apply Valid_compact_with, Valid_quoted. Qed.

(** What [Marshal] writes reads back. *)
Lemma Valid_Marshal v : json_ok v → utf8.Valid (Marshal v) = true.
Proof. apply Valid_compact_with. intros s Hs. apply Valid_quote. unfold escape_html_text. rewrite Hs. by apply Valid_html. Qed.

Lemma parse_text_Marshal v space :
  json_ok v → Z.of_nat (json_depth v) ≤ json.maxNestingDepth → forallb json.is_space space = true →
  parse_text (Marshal v ++ space) = Some v.
Proof.
  intros Hok. apply (parse_text_compact _ (λ s, utf8.Valid s = true)); [| |exact Hok].
  - intros s t Hs. unfold escape_html_text. rewrite Hs. apply scan_html.
  - intros s t Hs. unfold escape_html_text. rewrite Hs. apply unquote_html.
Qed.

(** ** Package encoding/base64 *)
Module base64.

Definition alphabet : bytes := bs "ABCDEFGHIJKLMNOPQRSTUVWXYZabcdefghijklmnopqrstuvwxyz0123456789+/".
Definition pad : byte := x3d.
Definition char (v : Z) : byte := default x41 (alphabet !! Z.to_nat v).
(** [decodeMap]; [None] is its 0xff. *)
Definition value (b : byte) : option Z :=
  let v := b2z b in
  if (65 <=? v) && (v <=? 90) then Some (v - 65)
  else if (97 <=? v) && (v <=? 122) then Some (v - 71)
  else if (48 <=? v) && (v <=? 57) then Some (v + 4)
  else if v =? 43 then Some 62 else if v =? 47 then Some 63 else None.

(** [StdEncoding.EncodeToString] *)
Fixpoint EncodeToString (s : bytes) : bytes :=
  match s with
  | [] => []
  | [a] => [char (b2z a / 4); char (b2z a mod 4 * 16); pad; pad]
  | [a; b] => [char (b2z a / 4); char (b2z a mod 4 * 16 + b2z b / 16);
               char (b2z b mod 16 * 4); pad]
  | a :: b :: c :: r =>
      char (b2z a / 4) :: char (b2z a mod 4 * 16 + b2z b / 16)
      :: char (b2z b mod 16 * 4 + b2z c / 64) :: char (b2z c mod 64)
      :: EncodeToString r
  end.

Definition CorruptInputError (at_ : Z) : error :=
  PlainError (txt "illegal base64 data at input byte " ++ [Lit (strconv.Itoa at_)]).

(** [StdEncoding.DecodeString] of a text without line ends, from offset [si]: four
    characters at a time, the last group padded. The bits after the last whole
    byte are not checked. *)
Fixpoint DecodeFrom (si : Z) (s : bytes) : result bytes :=
  match s with
  | [] => Ok []
  | a :: s1 =>
    match value a, s1 with
    | None, _ => Err (CorruptInputError si)
    | Some _, [] => Err (CorruptInputError si)
    | Some va, b :: s2 =>
      match value b, s2 with
      | None, _ => Err (CorruptInputError (si + 1))
      | Some _, [] => Err (CorruptInputError si)
      | Some vb, c :: s3 =>
        let first := z2b (va * 4 + vb / 16) in
        match value c, s3 with
        | None, [] => Err (CorruptInputError (if bool_decide (c = pad) then si + 3 else si + 2))
        | None, d :: s4 =>
            if negb (bool_decide (c = pad)) || negb (bool_decide (d = pad)) then Err (CorruptInputError (si + 2))
            else match s4 with [] => Ok [first] | _ => Err (CorruptInputError (si + 4)) end
        | Some _, [] => Err (CorruptInputError si)
        | Some vc, d :: s4 =>
          let second := z2b (vb * 16 + vc / 4) in
          match value d with
          | None =>
              if negb (bool_decide (d = pad)) then Err (CorruptInputError (si + 3))
              else match s4 with [] => Ok [first; second] | _ => Err (CorruptInputError (si + 4)) end
          | Some vd =>
              rest ← DecodeFrom (si + 4) s4;
              Ok (first :: second :: z2b (vc * 64 + vd) :: rest)
          end
        end
      end
    end
  end.
Definition DecodeString (s : bytes) : result bytes := DecodeFrom 0 s.

Example encode_foob : EncodeToString (bs "foob") = bs "Zm9vYg==". Proof. reflexivity. Qed.
Example decode_foob : DecodeString (bs "Zm9vYg==") = Ok (bs "foob"). Proof. reflexivity. Qed.

Lemma value_char v : 0 ≤ v < 64 → value (char v) = Some v.
Proof.
  intros Hv. assert (H : forallb (λ n, bool_decide (value (char (Z.of_nat n)) = Some (Z.of_nat n))) (seq 0 64) = true)
    by (vm_compute; reflexivity).
  rewrite forallb_forall in H. specialize (H (Z.to_nat v)). rewrite bool_decide_eq_true, Z2Nat.id in H by lia.
  apply H, in_seq. lia.
Qed.

Lemma byte_of z b : z mod 256 = b2z b → z2b z = b.
Proof. intros H. apply b2z_inj. by rewrite b2z_z2b. Qed.

Lemma char_not_pad v : 0 ≤ v < 64 → char v ≠ pad.
Proof. intros Hv E. pose proof (value_char v Hv) as H. by rewrite E in H. Qed.

Ltac sextets :=
  repeat match goal with |- context [value (char ?v)] =>
    rewrite (value_char v) by (Z.to_euclidean_division_equations; lia) end.

Ltac whole_byte := apply byte_of; Z.to_euclidean_division_equations; lia.

Lemma DecodeFrom_Encode s si : DecodeFrom si (EncodeToString s) = Ok s.
Proof.
  remember (length s) as n eqn:E. revert s si E. induction n as [n IH] using lt_wf_ind; intros s si ->.
  destruct s as [|a [|b [|c r]]]; [done| | |]; cbn [EncodeToString DecodeFrom];
    pose proof (b2z_range a); try pose proof (b2z_range b); try pose proof (b2z_range c).
  - sextets. cbn match. do 2 f_equal. whole_byte.
  - sextets. cbn match. do 2 f_equal; [whole_byte|f_equal; whole_byte].
  - assert (Hr : DecodeFrom (si + 4) (EncodeToString r) = Ok r) by (eapply IH; [|done]; cbn; lia). clear IH.
    sextets. cbn match. rewrite Hr. cbn [mbind result_bind]. do 2 f_equal; [whole_byte|f_equal; [whole_byte|f_equal; whole_byte]].
Qed.

Lemma DecodeString_Encode s : DecodeString (EncodeToString s) = Ok s.
Proof. apply DecodeFrom_Encode. Qed.

Definition in_alphabet (b : byte) : bool := match value b with Some _ => true | None => bool_decide (b = pad) end.

Lemma in_alphabet_char v : 0 ≤ v < 64 → in_alphabet (char v) = true.
Proof. intros Hv. unfold in_alphabet. by rewrite value_char. Qed.

Lemma Encode_alphabet s : forallb in_alphabet (EncodeToString s) = true.
Proof.
  remember (length s) as n eqn:E. revert s E. induction n as [n IH] using lt_wf_ind; intros s ->.
  destruct s as [|a [|b [|c r]]]; [done| | |]; cbn [EncodeToString forallb].
  3: assert (Hr : forallb in_alphabet (EncodeToString r) = true) by (eapply IH; [|done]; cbn; lia); clear IH; rewrite Hr.
  all: pose proof (b2z_range a); try pose proof (b2z_range b); try pose proof (b2z_range c).
  all: repeat rewrite in_alphabet_char by (Z.to_euclidean_division_equations; lia); done.
Qed.

End base64.
