(* ===== verification/JsonStruct.v ===== *)
(** * Structs as JSON objects

    A Go struct with json tags is described by the table of its fields: the name, when
    the field is left out, and how it is written and read. Writing and reading follow
    the table, so one lemma says that a struct that was written reads back whenever
    its fields do. [strictJSON] is the reader of src/internal/bootstrap/request.go:
    bounded, without duplicate keys, without unknown fields. *)

From S2P Require Import Prelude GoStd Json FeatureStore ArchiveRecord JsonTree JsonCompact.
Open Scope Z_scope.

(** What the token pass accepts. *)
Fixpoint unambiguous (v : jvalue) : Prop :=
  match v with
  | JArray l => all_of unambiguous l
  | JObject l => NoDup l.*1 ∧ all_of (λ m, unambiguous m.2) l
  | _ => True
  end.

Record field (A : Type) := mkField {
  fdName : bytes;
  fdOmit : A → bool;                              (* omitempty, and empty *)
  fdGet : A → jvalue;
  fdSet : jvalue → A → option A
}.
Arguments mkField {A} _ _ _ _.
Arguments fdName {A} _.
Arguments fdOmit {A} _ _.
Arguments fdGet {A} _ _.
Arguments fdSet {A} _ _ _.

(** A field that is always written. *)
Definition kept {A} (name : string) (get : A → jvalue) (set : jvalue → A → option A) : field A :=
  mkField (bs name) (λ _, false) get set.

Section Struct.
Context {A : Type}.
Implicit Types (fs : list (field A)) (a b : A).

Definition struct_members fs a : list (bytes * jvalue) :=
  flat_map (λ f, if fdOmit f a then [] else [(fdName f, fdGet f a)]) fs.
Definition struct_json fs a : jvalue := JObject (struct_members fs a).

(** The field a member is decoded into, unknown fields refused. *)
Definition struct_field fs (key : bytes) (v : jvalue) a : option A :=
  match find (λ f, same_name key (fdName f)) fs with
  | Some f => fdSet f v a
  | None => None
  end.
Definition to_table fs (v : jvalue) a : option A := to_struct (struct_field fs) v a.

(** No two names of the table are the same to the decoder. *)
Fixpoint distinct fs : bool :=
  match fs with
  | [] => true
  | f :: fs => negb (existsb (λ g, same_name (fdName f) (fdName g)) fs) && distinct fs
  end.

(** What reading the members that were written of [a] does, field by field. *)
Fixpoint copy_fields fs a b : option A :=
  match fs with
  | [] => Some b
  | f :: fs => b' ← (if fdOmit f a then Some b else fdSet f (fdGet f a) b); copy_fields fs a b'
  end.

Lemma same_name_refl n : same_name n n = true.
Proof. by apply bool_decide_eq_true. Qed.

Lemma same_name_sym n m : same_name n m = same_name m n.
Proof. unfold same_name. by apply bool_decide_ext. Qed.

Lemma find_distinct fs f : distinct fs = true → f ∈ fs → find (λ g, same_name (fdName f) (fdName g)) fs = Some f.
Proof.
  induction fs as [|g fs IH]; cbn [distinct find]; intros Hd Hf; [by apply not_elem_of_nil in Hf|].
  apply andb_true_iff in Hd as [Hg Hd]. apply negb_true_iff in Hg.
  apply elem_of_cons in Hf as [->|Hf]; [by rewrite same_name_refl|].
  destruct (same_name (fdName f) (fdName g)) eqn:E; [|by apply IH].
  exfalso. apply not_true_iff_false in Hg. apply Hg, existsb_exists. exists f. rewrite same_name_sym.
  split; [by apply list_elem_of_In|done].
Qed.

Lemma struct_field_name fs f v a : distinct fs = true → f ∈ fs → struct_field fs (fdName f) v a = fdSet f v a.
Proof. intros Hd Hf. unfold struct_field. by rewrite find_distinct. Qed.

Lemma struct_reads fs a b : distinct fs = true → to_table fs (struct_json fs a) b = copy_fields fs a b.
Proof.
  intros Hd. unfold to_table, struct_json, struct_members. cbn [to_struct].
  assert (H : ∀ gs, (∀ f, f ∈ gs → f ∈ fs) → ∀ b,
    to_fields (struct_field fs) (flat_map (λ f, if fdOmit f a then [] else [(fdName f, fdGet f a)]) gs) b = copy_fields gs a b); [|by apply H].
  induction gs as [|g gs IH]; intros Hsub c; [done|]. cbn [flat_map copy_fields]. rewrite to_fields_app.
  assert (Hgs : ∀ f, f ∈ gs → f ∈ fs) by (intros f Hf; apply Hsub; by right).
  destruct (fdOmit g a); cbn [to_fields mbind option_bind]; [by apply IH|].
  rewrite struct_field_name by (done || apply Hsub; by left).
  destruct (fdSet g (fdGet g a) c) as [x|]; cbn [mbind option_bind]; [by apply IH|done].
Qed.

Lemma struct_json_ok fs a : Forall (λ f, utf8.Valid (fdName f) = true ∧ (fdOmit f a = false → json_ok (fdGet f a))) fs →
  json_ok (struct_json fs a).
Proof.
  intros H. cbn [struct_json json_ok]. apply all_of_Forall. unfold struct_members.
  induction H as [|f fs [Hn Hf] _ IH]; [done|]. cbn [flat_map]. apply Forall_app. split; [|done].
  destruct (fdOmit f a); [done|]. repeat constructor; cbn; auto.
Qed.

Lemma struct_depth fs a n : Forall (λ f, fdOmit f a = false → (json_depth (fdGet f a) ≤ n)%nat) fs →
  (json_depth (struct_json fs a) ≤ S n)%nat.
Proof.
  intros H. cbn [struct_json json_depth]. apply le_n_S, maximum_le. unfold struct_members.
  induction H as [|f fs Hf _ IH]; [done|]. cbn [flat_map]. apply Forall_app. split; [|done].
  destruct (fdOmit f a); [done|]. repeat constructor; cbn; auto.
Qed.

Lemma struct_unambiguous fs a : distinct fs = true → Forall (λ f, fdOmit f a = false → unambiguous (fdGet f a)) fs →
  unambiguous (struct_json fs a).
Proof.
  intros Hd H. cbn [struct_json unambiguous]. unfold struct_members. split.
  - clear H. induction fs as [|f fs IH]; [by constructor|]. cbn [distinct] in Hd. apply andb_true_iff in Hd as [Hf Hd].
    cbn [flat_map]. rewrite fmap_app. destruct (fdOmit f a); [by apply IH|]. cbn. apply NoDup_cons. split; [|by apply IH].
    intros Hin. apply negb_true_iff, not_true_iff_false in Hf. apply Hf, existsb_exists.
    apply list_elem_of_fmap in Hin as ([n v] & E & Hin). apply list_elem_of_In, in_flat_map in Hin as (g & Hg & Hin).
    exists g. split; [done|]. destruct (fdOmit g a); [done|]. destruct Hin as [Hin|[]]. injection Hin as <- <-. cbn in E.
    by rewrite E, same_name_refl.
  - apply all_of_Forall. clear Hd. induction H as [|f fs Hf _ IH]; [done|]. cbn [flat_map]. apply Forall_app. split; [|done].
    destruct (fdOmit f a); [done|]. repeat constructor; cbn; auto.
Qed.
End Struct.

(** ** Fields of the basic types *)

(** [strconv.ParseUint] of a number literal that has 32 bits. *)
Definition to_uint32 (v : jvalue) (old : Z) : option Z :=
  n ← to_uint64 v old; if 2 ^ 32 - 1 <? n then None else Some n.

Definition to_bool (v : jvalue) (old : bool) : option bool :=
  match v with JNull => Some old | JBool b => Some b | _ => None end.

(** A signed number. *)
Definition from_int (n : Z) : jvalue :=
  JNumber (if n <? 0 then x2d :: strconv.Itoa (- n) else strconv.Itoa n).

(** A map with string keys: null makes it nil, members are added in order. *)
Fixpoint to_entries {V} (elem : jvalue → V → option V) (zero : V) (l : list (bytes * jvalue)) (m : gmap bytes V)
  : option (gmap bytes V) :=
  match l with
  | [] => Some m
  | (k, v) :: l => x ← elem v zero; to_entries elem zero l (<[k := x]> m)
  end.
Definition to_map {V} (elem : jvalue → V → option V) (zero : V) (v : jvalue) (old : gmap bytes V) : option (gmap bytes V) :=
  match v with JNull => Some ∅ | JObject l => to_entries elem zero l old | _ => None end.

(** A map is written in the order of its keys. *)
Definition from_map {V} (enc : V → jvalue) (m : gmap bytes V) : jvalue :=
  JObject ((λ e, (e.1, enc e.2)) <$> sort.SliceBy fst (map_to_list m)).

(** A nil slice is null. *)
Definition from_slice {V} (enc : V → jvalue) (l : option (list V)) : jvalue :=
  match l with None => JNull | Some l => JArray (map enc l) end.

Lemma to_entries_map {V} (elem : jvalue → V → option V) (zero : V) (enc : V → jvalue) (l : list (bytes * V)) m :
  Forall (λ e, elem (enc e.2) zero = Some e.2) l → NoDup l.*1 → (∀ k, k ∈ l.*1 → m !! k = None) →
  to_entries elem zero ((λ e, (e.1, enc e.2)) <$> l) m = Some (list_to_map l ∪ m).
Proof.
  intros H. revert m. induction H as [|[k x] l Hx _ IH]; intros m Hn Hm; cbn [fmap list_fmap to_entries].
  - by rewrite left_id_L by apply _.
  - cbn [fst snd] in *. rewrite Hx. cbn [mbind option_bind]. apply NoDup_cons in Hn as [Hk Hn]. rewrite IH; [|done|].
    + cbn [list_to_map foldr fst snd]. rewrite <- insert_union_l. f_equal. rewrite insert_union_r; [done|].
      by apply not_elem_of_list_to_map.
    + intros j Hj. rewrite lookup_insert_ne by (intros ->; done). apply Hm. by right.
Qed.

Lemma to_from_map {V} (elem : jvalue → V → option V) (zero : V) (enc : V → jvalue) (m : gmap bytes V) :
  map_Forall (λ _ x, elem (enc x) zero = Some x) m → to_map elem zero (from_map enc m) ∅ = Some m.
Proof.
  intros H. unfold from_map. cbn [to_map]. pose proof (sort.SliceBy_perm fst (map_to_list m)) as Hp.
  rewrite to_entries_map.
  - rewrite right_id_L by apply _. f_equal. rewrite (list_to_map_proper _ (map_to_list m)); [apply list_to_map_to_list| |done].
    rewrite Hp. apply NoDup_fst_map_to_list.
  - rewrite Hp. apply map_Forall_to_list in H. eapply Forall_impl; [exact H|]. by intros [].
  - rewrite Hp. apply NoDup_fst_map_to_list.
  - intros. apply lookup_empty.
Qed.

Lemma to_from_slice {V} (elem : jvalue → V → option V) (zero : V) (enc : V → jvalue) l :
  Forall (λ x, elem (enc x) zero = Some x) (default [] l) → to_slice elem zero (from_slice enc l) None = Some l.
Proof. intros H. destruct l as [l|]; [|done]. cbn [to_slice from_slice default] in *. by rewrite to_elements_map. Qed.

Lemma to_from_uint32 n old : u32 n → to_uint32 (from_uint64 n) old = Some n.
Proof.
  intros H. unfold to_uint32. rewrite to_from_uint64 by (unfold u32, u64 in *; lia). cbn [mbind option_bind].
  by rewrite (proj2 (Z.ltb_ge _ _)) by (unfold u32 in H; lia).
Qed.

Lemma to_from_int n old : - 2 ^ 63 < n < 2 ^ 63 → to_int (from_int n) old = Some n.
Proof.
  intros Hn. unfold from_int. destruct (n <? 0) eqn:E; zbool; [|by apply (to_int_from n); lia].
  cbn [to_int parse_int]. rewrite decide_True by done. rewrite strconv.ParseUint_Itoa by (unfold u64; lia).
  cbn [mbind option_bind]. rewrite (proj2 (Z.ltb_ge _ _)) by lia. f_equal. lia.
Qed.

Lemma json_ok_map {V} (enc : V → jvalue) (m : gmap bytes V) :
  map_Forall (λ k x, utf8.Valid k = true ∧ json_ok (enc x)) m → json_ok (from_map enc m).
Proof.
  intros H. unfold from_map. cbn [json_ok]. apply all_of_Forall, Forall_fmap.
  rewrite (sort.SliceBy_perm fst (map_to_list m)). apply map_Forall_to_list in H. eapply Forall_impl; [exact H|]. by intros [].
Qed.

Lemma json_ok_slice {V} (enc : V → jvalue) l : Forall (λ x, json_ok (enc x)) (default [] l) → json_ok (from_slice enc l).
Proof. intros H. destruct l as [l|]; [|done]. cbn [from_slice json_ok]. apply all_of_Forall. by apply Forall_fmap. Qed.

Lemma depth_slice {V} (enc : V → jvalue) l n : Forall (λ x, (json_depth (enc x) ≤ n)%nat) (default [] l) →
  (json_depth (from_slice enc l) ≤ S n)%nat.
Proof.
  intros H. destruct l as [l|]; [|cbn; lia]. cbn [from_slice json_depth]. apply le_n_S, maximum_le. by apply Forall_fmap.
Qed.

Lemma depth_map {V} (enc : V → jvalue) (m : gmap bytes V) n : map_Forall (λ _ x, (json_depth (enc x) ≤ n)%nat) m →
  (json_depth (from_map enc m) ≤ S n)%nat.
Proof.
  intros H. unfold from_map. cbn [json_depth]. apply le_n_S, maximum_le, Forall_fmap.
  rewrite (sort.SliceBy_perm fst (map_to_list m)). apply map_Forall_to_list in H. eapply Forall_impl; [exact H|]. by intros [].
Qed.

Lemma unambiguous_slice {V} (enc : V → jvalue) l : Forall (λ x, unambiguous (enc x)) (default [] l) → unambiguous (from_slice enc l).
Proof. intros H. destruct l as [l|]; [|done]. cbn [from_slice unambiguous]. apply all_of_Forall. by apply Forall_fmap. Qed.

Lemma unambiguous_map {V} (enc : V → jvalue) (m : gmap bytes V) :
  map_Forall (λ _ x, unambiguous (enc x)) m → unambiguous (from_map enc m).
Proof.
  intros H. unfold from_map. cbn [unambiguous]. pose proof (sort.SliceBy_perm fst (map_to_list m)) as Hp. split.
  - rewrite <- list_fmap_compose. rewrite (list_fmap_ext _ fst) by done. rewrite Hp. apply NoDup_fst_map_to_list.
  - apply all_of_Forall, Forall_fmap. rewrite Hp. apply map_Forall_to_list in H. eapply Forall_impl; [exact H|]. by intros [].
Qed.

(** ** The strict reader *)

(** The token pass: no object has a key twice and no value is nested more than
    sixteen deep. *)
Fixpoint token_pass (depth : Z) (v : jvalue) : option error :=
  if 16 <? depth then Some (PlainError (txt "JSON nesting limit"))
  else match v with
  | JArray l =>
      (fix elements l := match l with [] => None | x :: l => match token_pass (depth + 1) x with Some e => Some e | None => elements l end end) l
  | JObject l =>
      (fix members (seen : list bytes) l :=
         match l with
         | [] => None
         | (k, x) :: l =>
             if bool_decide (k ∈ seen) then Some (PlainError (txt "duplicate JSON field"))
             else match token_pass (depth + 1) x with Some e => Some e | None => members (k :: seen) l end
         end) [] l
  | _ => None
  end.

Lemma token_pass_ok v : ∀ depth, unambiguous v → depth + Z.of_nat (json_depth v) ≤ 16 → token_pass depth v = None.
Proof.
  induction v as [| | | |l IH|l IH] using jvalue_nested; intros depth Hu Hd; cbn [token_pass json_depth unambiguous] in *;
    rewrite (proj2 (Z.ltb_ge _ _)) by lia; try done.
  - apply all_of_Forall in Hu. pose proof (maximum_bound json_depth l _ (le_n _)) as Hm. revert Hm.
    assert (Hn : depth + 1 + Z.of_nat (maximum (map json_depth l)) ≤ 16) by lia. revert Hn. clear Hd.
    generalize (maximum (map json_depth l)) as n. intros n Hn Hm.
    induction IH as [|x l Hx _ IHl]; [done|]. apply Forall_cons in Hu as [Hux Hu]. apply Forall_cons in Hm as [Hmx Hm].
    rewrite Hx by (done || lia). by apply IHl.
  - destruct Hu as [Hnd Hu]. apply all_of_Forall in Hu.
    pose proof (maximum_bound (λ m : bytes * jvalue, json_depth m.2) l _ (le_n _)) as Hm. revert Hm.
    assert (Hn : depth + 1 + Z.of_nat (maximum (map (λ m : bytes * jvalue, json_depth m.2) l)) ≤ 16) by lia. revert Hn. clear Hd.
    generalize (maximum (map (λ m : bytes * jvalue, json_depth m.2) l)) as n. intros n Hn Hm.
    assert (Hseen : ∀ k, k ∈ l.*1 → k ∉ @nil bytes) by (intros k _; apply not_elem_of_nil).
    revert Hseen. generalize (@nil bytes) as seen.
    induction IH as [|[k x] l Hx _ IHl]; intros seen Hseen; [done|].
    apply Forall_cons in Hu as [Hux Hu]. apply Forall_cons in Hm as [Hmx Hm]. cbn [fst snd fmap list_fmap] in *.
    apply NoDup_cons in Hnd as [Hk Hnd].
    rewrite bool_decide_eq_false_2 by (apply Hseen; by left). rewrite Hx by (done || lia).
    apply IHl; try done. intros j Hj. apply not_elem_of_cons. split; [by intros ->|]. apply Hseen. by right.
Qed.

Section strictJSON.
(** What encoding/json reports of a text it rejects. *)
Context (json_error : bytes → error).

Definition strictJSON {A} (decode : jvalue → A → option A) (data : bytes) (dst : A) (limit : Z) : result A :=
  if (limit <? len data) || negb (utf8.Valid data) then Err (PlainError (txt "JSON exceeds byte bound or is not UTF-8"))
  else match parse_text data with
  | None => Err (json_error data)
  | Some v =>
      match token_pass 0 v with
      | Some e => Err e
      | None => match decode v dst with None => Err (json_error data) | Some a => Ok a end
      end
  end.

(** What was written within the bounds reads back. *)
Lemma strict_Marshal {A} (decode : jvalue → A → option A) v space dst a limit :
  json_ok v → unambiguous v → (json_depth v ≤ 16)%nat → forallb json.is_space space = true →
  len (Marshal v ++ space) ≤ limit → decode v dst = Some a → strictJSON decode (Marshal v ++ space) dst limit = Ok a.
Proof.
  intros Hok Hu Hd Hs Hl Ha. unfold strictJSON. rewrite (proj2 (Z.ltb_ge _ _)) by lia.
  assert (Hv : utf8.Valid (Marshal v ++ space) = true).
  { rewrite utf8.Valid_app by (by apply Valid_Marshal). apply utf8.Valid_ascii. clear -Hs.
    induction space as [|c s IH]; [done|]. cbn in Hs. apply andb_true_iff in Hs as [Hc Hs]. constructor; [|by apply IH].
    by destruct c. }
  rewrite Hv. cbn [negb orb]. rewrite parse_text_Marshal; [|done|unfold json.maxNestingDepth; lia|done].
  rewrite token_pass_ok by (done || lia). by rewrite Ha.
Qed.

Lemma strictJSON_Ok {A} (decode : jvalue → A → option A) data dst limit a :
  strictJSON decode data dst limit = Ok a → ∃ v, len data ≤ limit ∧ utf8.Valid data = true ∧ parse_text data = Some v
    ∧ token_pass 0 v = None ∧ decode v dst = Some a.
Proof.
  unfold strictJSON. intros H. destruct (_ || _) eqn:E; [done|]. zbool. destruct (parse_text data) as [v|]; [|done].
  destruct (token_pass 0 v) eqn:Et; [done|]. destruct (decode v dst) as [x|] eqn:Ed; [|done]. injection H as ->. eauto 10.
Qed.
End strictJSON.
