(* ===== verification/JsonAscii.v ===== *)
(** * ASCII JSON

    Several records are kept readable for tools that expect ASCII: the encoder's
    text is rewritten with every character above ASCII as an escape (and as a pair
    of escapes beyond the first plane). The rewritten text reads back as the same
    value. *)

From S2P Require Import Prelude GoStd Json FeatureStore FeatureProofs ArchiveRecord JsonTree JsonCompact.
Open Scope Z_scope.

(** [utf16.EncodeRune] *)
Definition EncodeRune (r : Z) : Z * Z :=
  if (0x10000 <=? r) && (r <=? 0x10FFFF)
  then (0xd800 + Z.land (Z.shiftr (r - 0x10000) 10) 0x3ff, 0xdc00 + Z.land (r - 0x10000) 0x3ff)
  else (utf8.RuneError, utf8.RuneError).

Definition unicode_escape (r : Z) : bytes := bs "\u" ++ strconv.hex4 r.

Definition ascii_rune (r : Z) : bytes :=
  if r <? 0x80 then [z2b r]
  else if r <=? 0xffff then unicode_escape r
  else let '(first, second) := EncodeRune r in unicode_escape first ++ unicode_escape second.

(** The loop over the runes of the encoded text. *)
Definition asciiJSON (encoded : bytes) : bytes := flat_map ascii_rune (utf8.runes encoded).

(** ** Characters and their codes *)

Lemma lor_add a b k : 0 ≤ k → 0 ≤ b < 2 ^ k → Z.lor (Z.shiftl a k) b = a * 2 ^ k + b.
Proof.
  intros Hk Hb. assert (Hl : Z.land (Z.shiftl a k) b = 0).
  { rewrite <- (Z.mod_small b (2 ^ k)), <- Z.land_ones, Z.land_comm, <- Z.land_assoc by done.
    rewrite (Z.land_comm (Z.ones k)), Z.land_ones, Z.shiftl_mul_pow2, Z.mod_mul by lia. apply Z.land_0_r. }
  pose proof (Z.add_lor_land (Z.shiftl a k) b) as H. rewrite Hl in H. rewrite <- Z.shiftl_mul_pow2 by done. lia.
Qed.

Lemma land_mod a k : 0 ≤ k → Z.land a (2 ^ k - 1) = a mod 2 ^ k.
Proof. intros Hk. rewrite <- Z.land_ones by done. by rewrite Z.ones_equiv, Z.sub_1_r. Qed.

Lemma land_3f a : Z.land a 0x3F = a mod 64.
Proof. exact (land_mod a 6 ltac:(done)). Qed.
Lemma land_3ff a : Z.land a 0x3ff = a mod 1024.
Proof. exact (land_mod a 10 ltac:(done)). Qed.
Lemma land_1f a : Z.land a 0x1F = a mod 32.
Proof. exact (land_mod a 5 ltac:(done)). Qed.
Lemma land_0f a : Z.land a 0x0F = a mod 16.
Proof. exact (land_mod a 4 ltac:(done)). Qed.
Lemma land_07 a : Z.land a 0x07 = a mod 8.
Proof. exact (land_mod a 3 ltac:(done)). Qed.

Lemma shiftr_6 a : Z.shiftr a 6 = a / 64.
Proof. exact (Z.shiftr_div_pow2 a 6 ltac:(done)). Qed.
Lemma shiftr_12 a : Z.shiftr a 12 = a / 4096.
Proof. exact (Z.shiftr_div_pow2 a 12 ltac:(done)). Qed.
Lemma shiftr_18 a : Z.shiftr a 18 = a / 262144.
Proof. exact (Z.shiftr_div_pow2 a 18 ltac:(done)). Qed.

(** The table of leading bytes, read as ranges. *)
Lemma lead_range b size lo hi : utf8.lead b = Some (size, lo, hi) →
  (size = 2 ∧ 0xC2 ≤ b2z b ≤ 0xDF ∧ lo = 0x80 ∧ hi = 0xBF)
  ∨ (size = 3 ∧ 0xE0 ≤ b2z b ≤ 0xEF ∧ 0x80 ≤ lo ∧ hi ≤ 0xBF ∧ (b2z b = 0xE0 → lo = 0xA0) ∧ (b2z b = 0xED → hi = 0x9F))
  ∨ (size = 4 ∧ 0xF0 ≤ b2z b ≤ 0xF4 ∧ 0x80 ≤ lo ∧ hi ≤ 0xBF ∧ (b2z b = 0xF0 → lo = 0x90) ∧ (b2z b = 0xF4 → hi = 0x8F)).
Proof.
  unfold utf8.lead, utf8.in_range. intros E.
  repeat match type of E with (if ?c then _ else _) = _ => destruct c eqn:? end; zbool; try discriminate E; injection E as <- <- <-; lia.
Qed.

Lemma in_range_iff lo hi b : utf8.in_range lo hi b = true ↔ lo ≤ b2z b ≤ hi.
Proof. unfold utf8.in_range. rewrite andb_true_iff, !Z.leb_le. done. Qed.

Lemma same_byte n b : n = b2z b → z2b n = b.
Proof. intros ->. apply z2b_b2z. Qed.

Ltac divide := Z.to_euclidean_division_equations; lia.

(** ** Codes and bytes are inverse *)

Lemma encode_2 p0 b1 : 0xC2 ≤ b2z p0 ≤ 0xDF → 0x80 ≤ b2z b1 ≤ 0xBF →
  let r := (b2z p0 - 0xC0) * 64 + (b2z b1 - 0x80) in
  json.encode_rune r = [p0; b1] ∧ 0x80 ≤ r < 0x800.
Proof.
  intros H0 H1 r. assert (Hr : 0x80 ≤ r < 0x800) by lia. split; [|done]. unfold json.encode_rune.
  rewrite (proj2 (Z.ltb_ge _ _)), (proj2 (Z.ltb_lt _ _)) by lia.
  rewrite shiftr_6, land_3f. subst r. repeat (apply (f_equal2 cons); [apply same_byte; divide|]). done.
Qed.

Lemma encode_3 p0 b1 b2 : 0xE0 ≤ b2z p0 ≤ 0xEF → 0x80 ≤ b2z b1 ≤ 0xBF → 0x80 ≤ b2z b2 ≤ 0xBF →
  (b2z p0 = 0xE0 → 0xA0 ≤ b2z b1) → (b2z p0 = 0xED → b2z b1 ≤ 0x9F) →
  let r := (b2z p0 - 0xE0) * 4096 + (b2z b1 - 0x80) * 64 + (b2z b2 - 0x80) in
  json.encode_rune r = [p0; b1; b2] ∧ 0x800 ≤ r < 0x10000 ∧ json.surrogate r = false.
Proof.
  intros H0 H1 H2 Hlo Hhi r. assert (Hr : 0x800 ≤ r < 0x10000) by lia. split_and!; [|lia|lia|].
  2: { unfold json.surrogate. apply andb_false_iff. rewrite !Z.leb_gt. lia. }
  unfold json.encode_rune. rewrite !(proj2 (Z.ltb_ge _ _)), (proj2 (Z.ltb_lt _ _)) by lia.
  rewrite ?shiftr_18, shiftr_12, shiftr_6, !land_3f.
  subst r. repeat (apply (f_equal2 cons); [apply same_byte; divide|]). done.
Qed.

Lemma encode_4 p0 b1 b2 b3 : 0xF0 ≤ b2z p0 ≤ 0xF4 → 0x80 ≤ b2z b1 ≤ 0xBF → 0x80 ≤ b2z b2 ≤ 0xBF → 0x80 ≤ b2z b3 ≤ 0xBF →
  (b2z p0 = 0xF0 → 0x90 ≤ b2z b1) → (b2z p0 = 0xF4 → b2z b1 ≤ 0x8F) →
  let r := (b2z p0 - 0xF0) * 262144 + (b2z b1 - 0x80) * 4096 + (b2z b2 - 0x80) * 64 + (b2z b3 - 0x80) in
  json.encode_rune r = [p0; b1; b2; b3] ∧ 0x10000 ≤ r ≤ 0x10FFFF.
Proof.
  intros H0 H1 H2 H3 Hlo Hhi r. assert (Hr : 0x10000 ≤ r ≤ 0x10FFFF) by lia. split; [|lia].
  unfold json.encode_rune. rewrite !(proj2 (Z.ltb_ge _ _)) by lia.
  rewrite ?shiftr_18, shiftr_12, shiftr_6, !land_3f.
  subst r. repeat (apply (f_equal2 cons); [apply same_byte; divide|]). done.
Qed.

(** What the decoder of one character computes. *)
Lemma decode_2 a b : 0xC0 ≤ a ≤ 0xDF → 0x80 ≤ b ≤ 0xBF →
  Z.lor (Z.shiftl (Z.land a 0x1F) 6) (Z.land b 0x3F) = (a - 0xC0) * 64 + (b - 0x80).
Proof. intros Ha Hb. rewrite land_1f, land_3f, lor_add by divide. divide. Qed.

Lemma decode_3 a b c : 0xE0 ≤ a ≤ 0xEF → 0x80 ≤ b ≤ 0xBF → 0x80 ≤ c ≤ 0xBF →
  Z.lor (Z.lor (Z.shiftl (Z.land a 0x0F) 12) (Z.shiftl (Z.land b 0x3F) 6)) (Z.land c 0x3F)
  = (a - 0xE0) * 4096 + (b - 0x80) * 64 + (c - 0x80).
Proof.
  intros Ha Hb Hc. rewrite land_0f, !land_3f, <- Z.lor_assoc, (lor_add _ (c mod 64) 6), (lor_add _ _ 12) by divide. divide.
Qed.

Lemma decode_4 a b c d : 0xF0 ≤ a ≤ 0xF7 → 0x80 ≤ b ≤ 0xBF → 0x80 ≤ c ≤ 0xBF → 0x80 ≤ d ≤ 0xBF →
  Z.lor (Z.lor (Z.lor (Z.shiftl (Z.land a 0x07) 18) (Z.shiftl (Z.land b 0x3F) 12)) (Z.shiftl (Z.land c 0x3F) 6)) (Z.land d 0x3F)
  = (a - 0xF0) * 262144 + (b - 0x80) * 4096 + (c - 0x80) * 64 + (d - 0x80).
Proof.
  intros Ha Hb Hc Hd. rewrite land_07, !land_3f, <- !Z.lor_assoc, (lor_add _ (d mod 64) 6), (lor_add _ _ 12), (lor_add _ _ 18) by divide.
  divide.
Qed.

(** The code of a character above ASCII. *)
Record char_code (ch : bytes) (r : Z) : Prop := {
  cc_decode : ∀ s, utf8.DecodeRune (ch ++ s) = (r, len ch);
  cc_encode : json.encode_rune r = ch;
  cc_range : 0x80 ≤ r ≤ 0x10FFFF;
  cc_scalar : json.surrogate r = false
}.

Lemma surrogate_outside r : r < 0xd800 ∨ 0xdfff < r → json.surrogate r = false.
Proof. intros H. unfold json.surrogate. apply andb_false_iff. rewrite !Z.leb_gt. lia. Qed.

Lemma wide_code ch : wide_char ch → ∃ r, char_code ch r.
Proof.
  intros [Hv (b0 & rest & -> & Hb & _) Hw]. specialize (Hw []). rewrite app_nil_r in Hw.
  cbn [utf8.Valid utf8.DecodeRune] in Hv, Hw. rewrite Hb in Hv, Hw.
  destruct (utf8.lead b0) as [[[size lo] hi]|] eqn:El; [|done]. pose proof (lead_range _ _ _ _ El) as Hl.
  destruct rest as [|b1 rest]; [done|]. destruct (utf8.in_range lo hi b1) eqn:E1; cbn [negb] in *; [|done].
  pose proof (proj1 (in_range_iff _ _ _) E1) as H1.
  destruct (size =? 2) eqn:Es2.
  { destruct rest as [|c rest]; [|rewrite !len_cons in Hw; pose proof (len_nonneg rest); cbn [snd] in Hw; lia]. pose proof (proj1 (Z.eqb_eq _ _) Es2).
    exists ((b2z b0 - 0xC0) * 64 + (b2z b1 - 0x80)). destruct (encode_2 b0 b1) as [He Hr]; [lia..|].
    split; [|done|lia|apply surrogate_outside; lia]. intros s. cbn [app utf8.DecodeRune]. rewrite Hb, El, E1. cbn [negb].
    rewrite (proj2 (Z.eqb_eq size 2)) by lia. rewrite decode_2 by lia. done. }
  destruct rest as [|b2 rest]; [done|]. destruct (utf8.cont b2) eqn:E2; cbn [negb] in *; [|done].
  pose proof (proj1 (in_range_iff _ _ _) E2) as H2.
  destruct (size =? 3) eqn:Es3.
  { destruct rest as [|c rest]; [|rewrite !len_cons in Hw; pose proof (len_nonneg rest); cbn [snd] in Hw; lia]. pose proof (proj1 (Z.eqb_eq _ _) Es3).
    exists ((b2z b0 - 0xE0) * 4096 + (b2z b1 - 0x80) * 64 + (b2z b2 - 0x80)).
    destruct (encode_3 b0 b1 b2) as (He & Hr & Hs); [lia..|].
    split; [|done|lia|done]. intros s. cbn [app utf8.DecodeRune]. rewrite Hb, El, E1. cbn [negb].
    rewrite (proj2 (Z.eqb_neq size 2)), E2, (proj2 (Z.eqb_eq size 3)) by lia. cbn [negb]. rewrite decode_3 by lia. done. }
  destruct rest as [|b3 rest]; [done|]. destruct (utf8.cont b3) eqn:E3; cbn [negb] in *; [|done].
  pose proof (proj1 (in_range_iff _ _ _) E3) as H3.
  destruct rest as [|c rest]; [|rewrite !len_cons in Hw; pose proof (len_nonneg rest); cbn [snd] in Hw; lia]. apply Z.eqb_neq in Es2, Es3.
  exists ((b2z b0 - 0xF0) * 262144 + (b2z b1 - 0x80) * 4096 + (b2z b2 - 0x80) * 64 + (b2z b3 - 0x80)).
  destruct (encode_4 b0 b1 b2 b3) as (He & Hr); [lia..|].
  split; [|done|lia|apply surrogate_outside; lia]. intros s. cbn [app utf8.DecodeRune]. rewrite Hb, El, E1. cbn [negb].
  rewrite (proj2 (Z.eqb_neq size 2)), E2, (proj2 (Z.eqb_neq size 3)), E3 by lia. cbn [negb]. rewrite decode_4 by lia. done.
Qed.

(** ** The rewritten text, piece by piece *)

Lemma ascii_low b s : b2z b < 0x80 → asciiJSON (b :: s) = b :: asciiJSON s.
Proof.
  intros Hb. unfold asciiJSON, utf8.runes. cbn [length utf8.runes_loop utf8.DecodeRune].
  rewrite (proj2 (Z.ltb_lt _ _) Hb). cbn [flat_map]. unfold ascii_rune at 1.
  rewrite (proj2 (Z.ltb_lt _ _) Hb), z2b_b2z. done.
Qed.

Lemma ascii_wide ch r s : ch ≠ [] → char_code ch r → asciiJSON (ch ++ s) = ascii_rune r ++ asciiJSON s.
Proof.
  intros Hne Hc. pose proof (cc_decode _ _ Hc s) as Hd. destruct ch as [|b ch]; [done|].
  unfold asciiJSON, utf8.runes. cbn [app length utf8.runes_loop] in *. rewrite Hd. cbn [flat_map]. f_equal. f_equal.
  change (b :: ch ++ s) with ((b :: ch) ++ s). rewrite dropZ_app by done.
  apply utf8.runes_fuel; rewrite ?length_app; lia.
Qed.

Lemma wide_nonempty ch : wide_char ch → ch ≠ [].
Proof. intros [_ (b & r & -> & _) _]. done. Qed.

Lemma ascii_app a b : utf8.Valid a = true → asciiJSON (a ++ b) = asciiJSON a ++ asciiJSON b.
Proof.
  revert a. apply (utf8_ind (λ a, asciiJSON (a ++ b) = asciiJSON a ++ asciiJSON b)); [done|intros c a Hc _ IH|intros ch a Hch _ IH].
  - apply Z.ltb_lt in Hc. cbn [app]. rewrite !ascii_low, IH by done. done.
  - destruct (wide_code _ Hch) as [r Hr]. pose proof (wide_nonempty _ Hch).
    rewrite <- app_assoc, !(ascii_wide ch r), IH, app_assoc by done. done.
Qed.

Lemma ascii_id w : Forall (λ b, b2z b < 0x80) w → asciiJSON w = w.
Proof. induction 1 as [|b w Hb _ IH]; [done|]. by rewrite ascii_low, IH. Qed.

(** Text that is ASCII already, for closed words. *)
Lemma ascii_word w s : forallb (λ b, b2z b <? 0x80) w = true → asciiJSON (w ++ s) = w ++ asciiJSON s.
Proof.
  intros Hw. assert (Forall (λ b, b2z b < 0x80) w).
  { apply Forall_forall. intros b Hb. rewrite forallb_forall in Hw. apply Z.ltb_lt, Hw. by apply list_elem_of_In. }
  rewrite ascii_app, ascii_id by (done || by apply utf8.Valid_ascii). done.
Qed.

(** ** Escapes read back *)

Lemma hex_digit d : 0 ≤ d < 16 → json.hex_value (strconv.hexdigit d) = Some d.
Proof.
  intros Hd. assert (H : d ∈ seqZ 0 16) by (apply elem_of_seqZ; lia). clear Hd. revert d H. apply Forall_forall.
  vm_compute. repeat constructor.
Qed.

Lemma hex4_read r : 0 ≤ r < 0x10000 →
  ∃ h1 h2 h3 h4, strconv.hex4 r = [h1; h2; h3; h4] ∧ json.hex4_value h1 h2 h3 h4 = Some r.
Proof.
  intros Hr. unfold strconv.hex4, strconv.hexbytes. cbn [mbind list_bind app]. do 4 eexists. split; [done|].
  unfold json.hex4_value. rewrite !b2z_z2b. rewrite !hex_digit by divide. cbn [mbind option_bind]. f_equal. divide.
Qed.

Lemma scan_unicode r t : 0 ≤ r < 0x10000 → json.scan_string (unicode_escape r ++ t) = json.scan_string t.
Proof.
  intros Hr. destruct (hex4_read r Hr) as (h1 & h2 & h3 & h4 & E & Hv). unfold unicode_escape. rewrite E.
  change (bs "\u") with [x5c; x75]. cbn [app json.scan_string]. rewrite decide_False, decide_True by done. cbn. by rewrite Hv.
Qed.

Lemma unquote_unicode r t : 0 ≤ r < 0x10000 → json.surrogate r = false →
  json.unquote (unicode_escape r ++ t) = json.encode_rune r ++ json.unquote t.
Proof.
  intros Hr Hs. destruct (hex4_read r Hr) as (h1 & h2 & h3 & h4 & E & Hv). unfold unicode_escape. rewrite E.
  change (bs "\u") with [x5c; x75]. cbn [app json.unquote]. rewrite decide_False, decide_True by done.
  change (json.simple_escape x75) with (@None byte). cbn match. rewrite Hv. change (default 0 (Some r)) with r. by rewrite Hs.
Qed.

Lemma unquote_pair a b t : 0xd800 ≤ a ≤ 0xdbff → 0xdc00 ≤ b ≤ 0xdfff →
  json.unquote (unicode_escape a ++ unicode_escape b ++ t)
  = json.encode_rune (0x10000 + (a - 0xd800) * 1024 + (b - 0xdc00)) ++ json.unquote t.
Proof.
  intros Ha Hb. destruct (hex4_read a ltac:(lia)) as (h1 & h2 & h3 & h4 & E & Hv).
  destruct (hex4_read b ltac:(lia)) as (g1 & g2 & g3 & g4 & E' & Hv'). unfold unicode_escape. rewrite E, E'.
  change (bs "\u") with [x5c; x75]. cbn [app json.unquote]. rewrite decide_False, decide_True by done.
  change (json.simple_escape x75) with (@None byte). cbn match. rewrite Hv. change (default 0 (Some a)) with a.
  unfold json.surrogate, json.high_surrogate, json.low_surrogate.
  rewrite !(proj2 (Z.leb_le _ _)) by lia. cbn [andb negb]. rewrite !decide_True by done. rewrite Hv'.
  rewrite !(proj2 (Z.leb_le _ _)) by lia. done.
Qed.

Lemma pair_code r : 0x10000 ≤ r ≤ 0x10FFFF →
  ∃ a b, EncodeRune r = (a, b) ∧ 0xd800 ≤ a ≤ 0xdbff ∧ 0xdc00 ≤ b ≤ 0xdfff ∧ 0x10000 + (a - 0xd800) * 1024 + (b - 0xdc00) = r.
Proof.
  intros Hr. unfold EncodeRune. rewrite !(proj2 (Z.leb_le _ _)) by lia. cbn [andb].
  rewrite (Z.shiftr_div_pow2 _ 10), !land_3ff by lia. change (2 ^ 10) with 1024. do 2 eexists. split; [done|]. divide.
Qed.

Lemma read_ascii_rune ch r t : char_code ch r →
  json.scan_string (ascii_rune r ++ t) = json.scan_string t ∧ json.unquote (ascii_rune r ++ t) = ch ++ json.unquote t.
Proof.
  intros [_ He Hr Hs]. unfold ascii_rune. rewrite (proj2 (Z.ltb_ge _ _)) by lia.
  destruct (Z.leb_spec r 0xffff) as [Hle|Hgt].
  - rewrite scan_unicode, unquote_unicode by (done || lia). by rewrite He.
  - destruct (pair_code r) as (a & b & E & Ha & Hb & Hab); [lia|]. rewrite E, <- app_assoc.
    rewrite !scan_unicode, unquote_pair by lia. by rewrite Hab, He.
Qed.

(** ** The escaping of the rewritten text *)

Definition escape_ascii_text (s : bytes) : bytes := asciiJSON (escape_text s).

Lemma escape_ascii_ascii b : b2z b < 0x80 → forallb (λ b, b2z b <? 0x80) (json.escape_ascii b) = true.
Proof. intros Hb%Z.ltb_lt. destruct b; try (vm_compute in Hb; discriminate Hb); by vm_compute. Qed.

(** One character of the text at a time. *)
Lemma low_escape_ascii b s : b2z b < 0x80 → utf8.Valid s = true →
  escape_ascii_text (b :: s) = json.escape_ascii b ++ escape_ascii_text s.
Proof.
  intros Hb Hs. unfold escape_ascii_text, escape_text. cbn [utf8.Valid]. rewrite (proj2 (Z.ltb_lt _ _) Hb), Hs.
  rewrite escape_low by (by apply Z.ltb_lt). apply ascii_word. by apply escape_ascii_ascii.
Qed.

Lemma escape_ascii_wide ch r s : wide_char ch → char_code ch r → utf8.Valid s = true →
  ∃ e, escape_ascii_text (ch ++ s) = e ++ escape_ascii_text s
       ∧ (∀ t, json.scan_string (e ++ t) = json.scan_string t) ∧ (∀ t, json.unquote (e ++ t) = ch ++ json.unquote t).
Proof.
  intros Hch Hr Hs. unfold escape_ascii_text, escape_text.
  rewrite (Valid_app_both _ _ (wc_valid _ Hch) Hs), Hs, (escape_wide _ _ Hch).
  destruct (decide (ch = separator_8)) as [->|]; [exists (bs "\u2028"); by rewrite ascii_word|].
  destruct (decide (ch = separator_9)) as [->|]; [exists (bs "\u2029"); by rewrite ascii_word|].
  exists (ascii_rune r). rewrite (ascii_wide ch r) by (done || by apply wide_nonempty).
  split_and!; [done|intros t; by apply (read_ascii_rune ch r t)..].
Qed.

Lemma read_escape_ascii s t : utf8.Valid s = true →
  json.scan_string (escape_ascii_text s ++ json.quote_ :: t) = Some t
  ∧ json.unquote (escape_ascii_text s ++ json.quote_ :: t) = s.
Proof.
  revert s. apply (utf8_ind (λ s, json.scan_string (escape_ascii_text s ++ json.quote_ :: t) = Some t
    ∧ json.unquote (escape_ascii_text s ++ json.quote_ :: t) = s)); [done|intros b s Hb Hs [I1 I2]|intros ch s Hch Hs [I1 I2]].
  - apply Z.ltb_lt in Hb. rewrite low_escape_ascii, <- app_assoc by done.
    rewrite scan_plain_byte, unquote_plain_byte. by rewrite I1, I2.
  - destruct (wide_code _ Hch) as [r Hr]. destruct (escape_ascii_wide ch r s Hch Hr Hs) as (e & -> & H1 & H2).
    rewrite <- app_assoc, H1, H2. by rewrite I1, I2.
Qed.

(** ** The rewritten text of a value *)

(** A text that ends in [rest] after ASCII only. *)
Definition ascii_before (s rest : bytes) : Prop := ∃ w, s = w ++ rest ∧ Forall (λ b, b2z b < 0x80) w.

Lemma ascii_before_refl s : ascii_before s s.
Proof. by exists []. Qed.
Lemma ascii_before_cons b s rest : b2z b < 0x80 → ascii_before s rest → ascii_before (b :: s) rest.
Proof. intros Hb (w & -> & Hw). exists (b :: w). split; [done|by constructor]. Qed.
Lemma ascii_before_trans a b c : ascii_before a b → ascii_before b c → ascii_before a c.
Proof. intros (w & -> & Hw) (u & -> & Hu). exists (w ++ u). split; [by rewrite app_assoc|by apply Forall_app]. Qed.

Lemma digit_low b : strconv.is_digit b = true → b2z b < 0x80.
Proof. intros Hb. destruct b; try (vm_compute in Hb; discriminate Hb); by vm_compute. Qed.

Lemma ascii_digits s : ascii_before s (json.skip_digits s).
Proof.
  induction s as [|b s IH]; [apply ascii_before_refl|]. cbn [json.skip_digits].
  destruct (strconv.is_digit b) eqn:E; [|apply ascii_before_refl]. apply ascii_before_cons; [by apply digit_low|done].
Qed.

Lemma ascii_some_digits s rest : json.some_digits s = Some rest → ascii_before s rest.
Proof.
  destruct s as [|b s]; [done|]. cbn [json.some_digits]. destruct (strconv.is_digit b) eqn:E; [|done]. intros [= <-].
  apply ascii_before_cons; [by apply digit_low|apply ascii_digits].
Qed.

Lemma ascii_number s rest : json.scan_number s = Some rest → ascii_before s rest.
Proof.
  unfold json.scan_number. intros E.
  set (s0 := match s with b :: r => if decide (b = x2d) then r else s | [] => s end) in E.
  apply (ascii_before_trans _ s0).
  { subst s0. destruct s as [|b s]; [apply ascii_before_refl|]. case_decide as Hb; [|apply ascii_before_refl].
    subst b. apply ascii_before_cons; [by vm_compute|apply ascii_before_refl]. }
  apply bind_Some in E as (s1 & E1 & E). apply (ascii_before_trans _ s1).
  { destruct s0 as [|b r]; [done|]. case_decide as Hb.
    - injection E1 as <-. subst b. apply ascii_before_cons; [by vm_compute|apply ascii_before_refl].
    - destruct (strconv.is_digit b) eqn:Ed; [|done]. injection E1 as <-.
      apply ascii_before_cons; [by apply digit_low|apply ascii_digits]. }
  apply bind_Some in E as (s2 & E2 & E). apply (ascii_before_trans _ s2).
  { destruct s1 as [|b r]; [injection E2 as <-; apply ascii_before_refl|]. case_decide as Hb.
    - subst b. apply ascii_before_cons; [by vm_compute|by apply ascii_some_digits].
    - injection E2 as <-. apply ascii_before_refl. }
  destruct s2 as [|b r]; [injection E as <-; apply ascii_before_refl|].
  destruct (bool_decide (b = x65) || bool_decide (b = x45)) eqn:Eb; [|injection E as <-; apply ascii_before_refl].
  apply ascii_before_cons; [apply orb_true_iff in Eb as [->%bool_decide_eq_true| ->%bool_decide_eq_true]; by vm_compute|].
  destruct r as [|c r]; [by apply ascii_some_digits|]. destruct (bool_decide (c = x2b) || bool_decide (c = x2d)) eqn:Ec.
  - apply ascii_before_cons; [apply orb_true_iff in Ec as [->%bool_decide_eq_true| ->%bool_decide_eq_true]; by vm_compute|].
    by apply ascii_some_digits.
  - by apply ascii_some_digits.
Qed.

Lemma ascii_number_ok w : number_ok w → Forall (λ b, b2z b < 0x80) w.
Proof.
  intros (_ & _ & _ & Hs). specialize (Hs [] I). destruct (ascii_number _ _ Hs) as (u & E & Hu).
  rewrite !app_nil_r in E. by subst u.
Qed.

Lemma ascii_quoted s t : utf8.Valid s = true →
  asciiJSON (quoted escape_text s ++ t) = quoted escape_ascii_text s ++ asciiJSON t.
Proof.
  intros Hs. unfold quoted. rewrite <- !app_assoc, ascii_word by done.
  assert (He : utf8.Valid (escape_text s) = true) by (unfold escape_text; rewrite Hs; by apply Valid_escape).
  rewrite (ascii_app _ _ He), ascii_word by done. done.
Qed.

Lemma ascii_newline level t : asciiJSON (newline level ++ t) = newline level ++ asciiJSON t.
Proof.
  apply ascii_word. unfold newline. cbn [forallb]. apply forallb_forall. intros b Hb%list_elem_of_In%elem_of_replicate_inv.
  by subst b.
Qed.

Lemma ascii_flat_map {A} (f g : A → bytes) l t :
  Forall (λ x, ∀ t, asciiJSON (f x ++ t) = g x ++ asciiJSON t) l → asciiJSON (flat_map f l ++ t) = flat_map g l ++ asciiJSON t.
Proof. induction 1 as [|x l Hx _ IH]; [done|]. cbn [flat_map]. by rewrite <- !app_assoc, Hx, IH. Qed.

Ltac ascii_step := rewrite <- ?app_assoc; repeat first [rewrite ascii_newline | rewrite ascii_word by reflexivity].

Lemma ascii_indent v : json_ok v → ∀ level t,
  asciiJSON (indent escape_text level v ++ t) = indent escape_ascii_text level v ++ asciiJSON t.
Proof.
  induction v as [|b|w|s|l IH|l IH] using jvalue_nested; intros Hok level t.
  - by apply ascii_word.
  - destruct b; by apply ascii_word.
  - pose proof (ascii_number_ok w Hok) as Hw. cbn [indent]. by rewrite ascii_app, ascii_id by (done || by apply utf8.Valid_ascii).
  - by apply ascii_quoted.
  - apply all_of_Forall in Hok. fold json_ok in Hok. destruct l as [|x l]; [by apply ascii_word|]. cbn [indent].
    rewrite !Forall_cons in *. destruct IH as [IHx IH], Hok as [Hx Hok].
    ascii_step. rewrite IHx by done.
    rewrite (ascii_flat_map _ (λ y, [x2c] ++ newline (S level) ++ indent escape_ascii_text (S level) y)); [by ascii_step|].
    apply Forall_forall. intros y Hy u. rewrite Forall_forall in IH, Hok. ascii_step. by rewrite IH by auto.
  - apply all_of_Forall in Hok. fold json_ok in Hok. destruct l as [|[k x] l]; [by apply ascii_word|]. cbn [indent].
    rewrite !Forall_cons in *. cbn [fst snd] in *. destruct IH as [IHx IH], Hok as [[Hk Hx] Hok].
    ascii_step. rewrite (ascii_quoted k) by done. ascii_step. rewrite IHx by done.
    rewrite (ascii_flat_map _ (λ m, [x2c] ++ newline (S level) ++ quoted escape_ascii_text m.1 ++ bs ": "
                                    ++ indent escape_ascii_text (S level) m.2)); [by ascii_step|].
    apply Forall_forall. intros y Hy u. rewrite Forall_forall in IH, Hok. destruct (Hok y Hy) as [Hyk Hyv].
    ascii_step. rewrite (ascii_quoted y.1) by done. ascii_step. by rewrite IH by done.
Qed.

Lemma ascii_compact v : json_ok v → ∀ t, asciiJSON (compact escape_text v ++ t) = compact escape_ascii_text v ++ asciiJSON t.
Proof.
  induction v as [|b|w|s|l IH|l IH] using jvalue_nested; intros Hok t.
  - by apply ascii_word.
  - destruct b; by apply ascii_word.
  - pose proof (ascii_number_ok w Hok) as Hw. cbn [compact]. by rewrite ascii_app, ascii_id by (done || by apply utf8.Valid_ascii).
  - by apply ascii_quoted.
  - apply all_of_Forall in Hok. fold json_ok in Hok. destruct l as [|x l]; [by apply ascii_word|]. cbn [compact].
    rewrite !Forall_cons in *. destruct IH as [IHx IH], Hok as [Hx Hok].
    ascii_step. rewrite IHx by done.
    rewrite (ascii_flat_map _ (λ y, [x2c] ++ compact escape_ascii_text y)); [by ascii_step|].
    apply Forall_forall. intros y Hy u. rewrite Forall_forall in IH, Hok. ascii_step. by rewrite IH by auto.
  - apply all_of_Forall in Hok. fold json_ok in Hok. destruct l as [|[k x] l]; [by apply ascii_word|]. cbn [compact].
    rewrite !Forall_cons in *. cbn [fst snd] in *. destruct IH as [IHx IH], Hok as [[Hk Hx] Hok].
    ascii_step. rewrite (ascii_quoted k) by done. ascii_step. rewrite IHx by done.
    rewrite (ascii_flat_map _ (λ m, [x2c] ++ quoted escape_ascii_text m.1 ++ [x3a] ++ compact escape_ascii_text m.2)); [by ascii_step|].
    apply Forall_forall. intros y Hy u. rewrite Forall_forall in IH, Hok. destruct (Hok y Hy) as [Hyk Hyv].
    ascii_step. rewrite (ascii_quoted y.1) by done. ascii_step. by rewrite IH by done.
Qed.

(** *** It is ASCII *)

Lemma unicode_escape_ascii r : 0 ≤ r < 0x10000 → Forall (λ b, b2z b < 0x80) (unicode_escape r).
Proof.
  intros Hr. assert (Hd : ∀ d, 0 ≤ d < 16 → b2z (strconv.hexdigit d) < 0x80).
  { intros d Hd. unfold strconv.hexdigit. destruct (Z.ltb_spec d 10); rewrite b2z_z2b, Z.mod_small; lia. }
  unfold unicode_escape, strconv.hex4, strconv.hexbytes. cbn [mbind list_bind app].
  repeat (apply Forall_cons_2; [first [by vm_compute | apply Hd; rewrite b2z_z2b; divide]|]). constructor.
Qed.

Lemma ascii_rune_ascii ch r : char_code ch r → Forall (λ b, b2z b < 0x80) (ascii_rune r) ∧ len (ascii_rune r) ≤ 6 * len ch.
Proof.
  intros [_ He Hr Hs]. unfold ascii_rune. rewrite (proj2 (Z.ltb_ge _ _)) by lia.
  destruct (Z.leb_spec r 0xffff) as [Hle|Hgt].
  - split; [apply unicode_escape_ascii; lia|]. change (6 ≤ 6 * len ch).
    assert (ch ≠ []) by (intros ->; unfold json.encode_rune in He; repeat destruct (_ <? _); discriminate He).
    destruct ch; [done|]. rewrite len_cons. pose proof (len_nonneg ch). lia.
  - destruct (pair_code r) as (a & b & -> & Ha & Hb & _); [lia|].
    split; [apply Forall_app; split; apply unicode_escape_ascii; lia|]. change (12 ≤ 6 * len ch).
    rewrite <- He. unfold json.encode_rune. rewrite !(proj2 (Z.ltb_ge _ _)) by lia. by vm_compute.
Qed.

Lemma asciiJSON_ascii s : utf8.Valid s = true → Forall (λ b, b2z b < 0x80) (asciiJSON s).
Proof.
  revert s. apply (utf8_ind (λ s, Forall (λ b, b2z b < 0x80) (asciiJSON s))); [constructor|intros b s Hb _ IH|intros ch s Hch _ IH].
  - apply Z.ltb_lt in Hb. rewrite ascii_low by done. by constructor.
  - destruct (wide_code _ Hch) as [r Hr]. rewrite (ascii_wide ch r) by (done || by apply wide_nonempty).
    apply Forall_app. split; [by apply (ascii_rune_ascii ch)|done].
Qed.

(** *** Its size *)

Lemma escape_ascii_text_len s : utf8.Valid s = true → len (escape_ascii_text s) ≤ 6 * len s.
Proof.
  revert s. apply (utf8_ind (λ s, len (escape_ascii_text s) ≤ 6 * len s)); [done|intros b s Hb Hs IH|intros ch s Hch Hs IH].
  - apply Z.ltb_lt in Hb. rewrite low_escape_ascii, len_app, len_cons by done.
    assert (len (json.escape_ascii b) ≤ 6) by (destruct b; by vm_compute). lia.
  - unfold escape_ascii_text, escape_text in *. rewrite Hs in IH. rewrite (Valid_app_both _ _ (wc_valid _ Hch) Hs), (escape_wide _ _ Hch).
    pose proof (wide_nonempty _ Hch). assert (1 ≤ len ch) by (destruct ch; [done|]; rewrite len_cons; pose proof (len_nonneg ch); lia).
    destruct (decide (ch = separator_8)); [rewrite ascii_word, !len_app by done; change (len (bs "\u2028")) with 6; lia|].
    destruct (decide (ch = separator_9)); [rewrite ascii_word, !len_app by done; change (len (bs "\u2029")) with 6; lia|].
    destruct (wide_code _ Hch) as [r Hr]. rewrite (ascii_wide ch r), !len_app by done.
    pose proof (proj2 (ascii_rune_ascii ch r Hr)). lia.
Qed.

(** An upper bound on the indented text that is easy to compute. *)
Fixpoint indent_size (level : nat) (v : jvalue) : Z :=
  match v with
  | JNull | JBool _ => 5
  | JNumber w => len w
  | JString s => 2 + 6 * len s
  | JArray l => 4 + 2 * Z.of_nat level + foldr (λ x n, 4 + 2 * Z.of_nat level + indent_size (S level) x + n) 0 l
  | JObject l => 4 + 2 * Z.of_nat level
                 + foldr (λ m n, 8 + 2 * Z.of_nat level + 6 * len m.1 + indent_size (S level) m.2 + n) 0 l
  end.

Lemma len_newline level : len (newline level) = 1 + 2 * Z.of_nat level.
Proof. unfold newline. rewrite len_cons. unfold len. rewrite length_replicate. lia. Qed.

Lemma len_quoted s : utf8.Valid s = true → len (quoted escape_ascii_text s) ≤ 2 + 6 * len s.
Proof.
  intros Hs. unfold quoted. rewrite !len_app. pose proof (escape_ascii_text_len s Hs).
  change (len [json.quote_]) with 1. lia.
Qed.

Lemma indent_size_bound v : json_ok v → ∀ level, len (indent escape_ascii_text level v) ≤ indent_size level v.
Proof.
  induction v as [|b|w|s|l IH|l IH] using jvalue_nested; intros Hok level.
  - by vm_compute.
  - destruct b; by vm_compute.
  - done.
  - by apply len_quoted.
  - apply all_of_Forall in Hok. fold json_ok in Hok. cbn [indent_size]. destruct l as [|x l]; [cbn [indent foldr]; change (len (bs "[]")) with 2; lia|].
    cbn [indent foldr]. rewrite !Forall_cons in *. destruct IH as [IHx IH], Hok as [Hx Hok]. specialize (IHx Hx (S level)).
    assert (Hl : len (flat_map (λ y, [x2c] ++ newline (S level) ++ indent escape_ascii_text (S level) y) l)
      ≤ foldr (λ x n, 4 + 2 * Z.of_nat level + indent_size (S level) x + n) 0 l).
    { clear IHx Hx. induction l as [|y l IHl]; [done|]. rewrite !Forall_cons in *. destruct IH as [Hy IH], Hok as [Hoy Hok].
      cbn [flat_map foldr]. specialize (Hy Hoy (S level)). specialize (IHl IH Hok).
      rewrite !len_app, len_newline. change (len [x2c]) with 1. lia. }
    rewrite !len_app, !len_newline. change (len [x5b]) with 1. change (len [x5d]) with 1. lia.
  - apply all_of_Forall in Hok. fold json_ok in Hok. cbn [indent_size]. destruct l as [|[k x] l]; [cbn [indent foldr]; change (len (bs "{}")) with 2; lia|].
    cbn [indent foldr fst snd]. rewrite !Forall_cons in *. cbn [fst snd] in *. destruct IH as [IHx IH], Hok as [[Hk Hx] Hok].
    specialize (IHx Hx (S level)). pose proof (len_quoted k Hk).
    assert (Hl : len (flat_map (λ m, [x2c] ++ newline (S level) ++ quoted escape_ascii_text m.1 ++ bs ": " ++ indent escape_ascii_text (S level) m.2) l)
      ≤ foldr (λ m n, 8 + 2 * Z.of_nat level + 6 * len m.1 + indent_size (S level) m.2 + n) 0 l).
    { clear IHx Hx. induction l as [|y l IHl]; [done|]. rewrite !Forall_cons in *. destruct IH as [Hy IH], Hok as [[Hky Hoy] Hok].
      cbn [flat_map foldr]. specialize (Hy Hoy (S level)). specialize (IHl IH Hok). pose proof (len_quoted y.1 Hky).
      rewrite !len_app, len_newline. change (len [x2c]) with 1. change (len (bs ": ")) with 2. lia. }
    rewrite !len_app, !len_newline. change (len [x7b]) with 1. change (len [x7d]) with 1. change (len (bs ": ")) with 2. lia.
Qed.

(** ** The texts read back *)

(** An [Encoder] with indentation and without HTML escaping, rewritten. *)
Definition EncodeIndentASCII (v : jvalue) : bytes := asciiJSON (indent escape_text 0 v ++ [x0a]).
(** The same on one line, without the final newline. *)
Definition EncodeASCII (v : jvalue) : bytes := strings.TrimSuffix (asciiJSON (Encode v)) [x0a].

Lemma EncodeIndentASCII_eq v : json_ok v → EncodeIndentASCII v = indent escape_ascii_text 0 v ++ [x0a].
Proof. intros Hok. unfold EncodeIndentASCII. by rewrite ascii_indent. Qed.

Lemma parse_EncodeIndentASCII v :
  json_ok v → Z.of_nat (json_depth v) ≤ json.maxNestingDepth → parse_text (EncodeIndentASCII v) = Some v.
Proof.
  intros Hok Hd. rewrite EncodeIndentASCII_eq by done.
  apply parse_indented; [intros s t Hs; by apply read_escape_ascii..|done|done|done].
Qed.

Lemma Valid_EncodeIndentASCII v : json_ok v → utf8.Valid (EncodeIndentASCII v) = true.
Proof.
  intros Hok. apply utf8.Valid_ascii, asciiJSON_ascii, Valid_app_both; [|done].
  apply Valid_indented; [|done]. intros s Hs. unfold escape_text. rewrite Hs. by apply Valid_escape.
Qed.

Lemma EncodeASCII_eq v : json_ok v → EncodeASCII v = compact escape_ascii_text v.
Proof.
  intros Hok. unfold EncodeASCII, Encode. rewrite ascii_compact by done. change (asciiJSON [x0a]) with [x0a].
  unfold strings.TrimSuffix. rewrite HasSuffix_app. rewrite len_app. change (len [x0a]) with 1.
  apply takeZ_app. lia.
Qed.

Lemma parse_EncodeASCII v :
  json_ok v → Z.of_nat (json_depth v) ≤ json.maxNestingDepth → parse_text (EncodeASCII v) = Some v.
Proof.
  intros Hok Hd. rewrite EncodeASCII_eq by done. rewrite <- (app_nil_r (compact _ _)).
  apply (parse_text_compact _ (λ s, utf8.Valid s = true)); [intros s t Hs; by apply read_escape_ascii..|done|done|done].
Qed.
