(* ===== verification/Hardware.v ===== *)
(** * Virtual hardware (src/internal/qemu/hardware.go)

    The hardware profiles of a run, the QEMU command line they stand for, and the
    manifest a generation archive keeps of it. What printable characters are
    ([unicode.IsPrint]) and the errors of the JSON decoder are arguments; running
    QEMU for its version is represented by what it wrote and how it ended. *)

From S2P Require Import Prelude GoStd Json FeatureStore ArchiveRecord JsonTree JsonCompact JsonAscii.
Open Scope Z_scope.

Definition hardwareSchemaVersion : Z := 1.
Definition qemuVersionLimit : Z := 256.
Definition qemuVersionOutputMax : Z := 1024 * 1024.
Definition hardwareManifestMax : Z := 1024 * 1024.

Definition hardware_error (reason : text) : error := HardwareError reason None.
Definition malformedHardwareManifest : error := hardware_error (txt "generation hardware manifest is malformed").
Definition malformedHardwareManifestWith (err : error) : error :=
  HardwareError (txt "generation hardware manifest is malformed") (Some err).

(** ** Profiles *)

Record HardwareProfile := mkProfile {
  hpProfile : bytes;
  hpMachine : bytes;
  hpAccelerator : bytes;
  hpCPUModel : bytes;
  hpVCPUs : Z;
  hpMemoryMiB : Z;
  hpGraphics : bytes;
  hpNetwork : bytes;
  hpWritableBlockDevices : list bytes
}.

Definition ExperimentHardwareProfile : HardwareProfile :=
  mkProfile (bs "experiment-v1") (bs "q35") (bs "kvm") (bs "host") 4 8192 (bs "std-vga") (bs "none") [].
Definition TestHardwareProfile : HardwareProfile :=
  mkProfile (bs "test-v1") (bs "q35") (bs "kvm:tcg") (bs "qemu64") 1 128 (bs "std-vga") (bs "none") [].

Definition between (lo hi : Z) (b : byte) : bool := (lo <=? b2z b) && (b2z b <=? hi).
Definition lower_or_digit (b : byte) : bool := between 0x61 0x7a b || between 0x30 0x39 b.

(** The regular expressions, anchored at both ends: a lower-case letter or digit,
    then up to 63 of those or hyphens; one to 64 of the characters of a CPU name. *)
Definition hardwareProfilePattern (s : bytes) : bool :=
  match s with
  | [] => false
  | b :: r => lower_or_digit b && forallb (λ c, lower_or_digit c || bool_decide (c = x2d)) r && (len r <=? 63)
  end.
Definition cpu_character (b : byte) : bool :=
  between 0x41 0x5a b || lower_or_digit b || bool_decide (b ∈ [x5f; x2e; x2b; x2d]).
Definition hardwareCPUPattern (s : bytes) : bool :=
  forallb cpu_character s && (1 <=? len s) && (len s <=? 64).

Definition Validate (p : HardwareProfile) : result unit :=
  let fail reason := Err (hardware_error (txt reason)) in
  if negb (hardwareProfilePattern (hpProfile p)) then fail "invalid CodexOS hardware profile"
  else if negb (bool_decide (hpMachine p = bs "q35")) then fail "invalid CodexOS hardware machine"
  else if negb (bool_decide (hpAccelerator p = bs "kvm")) && negb (bool_decide (hpAccelerator p = bs "kvm:tcg")) then
    fail "invalid CodexOS hardware accelerator"
  else if negb (hardwareCPUPattern (hpCPUModel p)) then fail "invalid CodexOS hardware CPU model"
  else if (hpVCPUs p <? 1) || (256 <? hpVCPUs p) then fail "invalid CodexOS hardware vCPU count"
  else if (hpMemoryMiB p <? 1) || (1048576 <? hpMemoryMiB p) then fail "invalid CodexOS hardware memory size"
  else if negb (bool_decide (hpGraphics p = bs "std-vga")) || negb (bool_decide (hpNetwork p = bs "none")) then
    fail "invalid CodexOS peripheral hardware"
  else if negb (len (hpWritableBlockDevices p) =? 0) then fail "writable block devices are not supported"
  else Ok ().

(** [kvm]: the outcome of asking for read and write access to /dev/kvm. *)
Definition RequireAvailable (kvm : option error) (p : HardwareProfile) : result unit :=
  _ ← Validate p;
  if negb (bool_decide (hpAccelerator p = bs "kvm")) then Ok ()
  else match kvm with
       | Some _ => Err (hardware_error ([Lit (hpProfile p)] ++ txt " requires KVM, but /dev/kvm is unavailable"))
       | None => Ok ()
       end.

(** ** The command line *)

(** [compactASCIIJSON] of the two block devices. *)
Definition compactASCIIJSON : jvalue → bytes := EncodeASCII.

Definition bootFile (bootISO : bytes) : jvalue :=
  JObject [(bs "driver", JString (bs "file")); (bs "filename", JString bootISO);
           (bs "node-name", JString (bs "codexos-boot-file")); (bs "read-only", JBool true)].
Definition bootRaw : jvalue :=
  JObject [(bs "driver", JString (bs "raw")); (bs "file", JString (bs "codexos-boot-file"));
           (bs "node-name", JString (bs "codexos-boot-cd")); (bs "read-only", JBool true)].

Definition QEMUCommandArguments (p : HardwareProfile) (bootISO qmpSocket serialSocket : bytes) : result (list bytes) :=
  _ ← Validate p;
  if negb (utf8.Valid bootISO) || negb (utf8.Valid qmpSocket) || negb (utf8.Valid serialSocket) then
    Err (hardware_error (txt "QEMU path is not valid UTF-8"))
  else Ok [
    bs "-machine"; hpMachine p ++ bs ",accel=" ++ hpAccelerator p ++ bs ",pcspk-audiodev=codexos-noaudio";
    bs "-cpu"; hpCPUModel p;
    bs "-smp"; strconv.Itoa (hpVCPUs p);
    bs "-m"; strconv.Itoa (hpMemoryMiB p) ++ bs "M";
    bs "-nodefaults";
    bs "-display"; bs "none";
    bs "-monitor"; bs "none";
    bs "-no-reboot";
    bs "-nic"; bs "none";
    bs "-audiodev"; bs "none,id=codexos-noaudio";
    bs "-blockdev"; compactASCIIJSON (bootFile bootISO);
    bs "-blockdev"; compactASCIIJSON bootRaw;
    bs "-device"; bs "ide-cd,drive=codexos-boot-cd,bootindex=1";
    bs "-device"; bs "VGA";
    bs "-chardev"; bs "socket,id=codexos-com1,path=" ++ serialSocket ++ bs ",server=on,wait=off";
    bs "-device"; bs "isa-serial,chardev=codexos-com1,index=0";
    bs "-qmp"; bs "unix:" ++ qmpSocket ++ bs ",server=on,wait=off"].

(** The loop stops one before the end, so an option always has its value. *)
Fixpoint EnableDisplay (arguments : list bytes) : list bytes :=
  match arguments with
  | argument :: ((_ :: rest) as tail) =>
      if bool_decide (argument = bs "-display") then argument :: bs "gtk,show-menubar=off,window-close=off" :: rest
      else argument :: EnableDisplay tail
  | _ => arguments
  end.

Section Manifest.
Context (IsPrint : Z → bool).
(** What [encoding/json] reports of a text it rejects. *)
Context (json_error : bytes → error).

(** ** Manifests *)

Definition validQEMUVersion (version : bytes) : bool :=
  negb (bool_decide (version = [])) && utf8.Valid version && (len version <=? qemuVersionLimit)
  && forallb IsPrint (utf8.runes version).

Definition profileOf (m : HardwareManifest) : HardwareProfile :=
  mkProfile (Profile m) (Machine m) (Accelerator m) (CPUModel m) (VCPUs m) (MemoryMiB m) (Graphics m) (Network m)
    (default [] (WritableBlockDevices m)).

(** The arguments with placeholders for the paths. *)
Definition placeholderArguments (p : HardwareProfile) : result (list bytes) :=
  QEMUCommandArguments p (bs "<BOOT_ISO>") (bs "<QMP_SOCKET>") (bs "<SERIAL_SOCKET>").

Definition ValidateHardwareManifest (m : HardwareManifest) : result unit :=
  match WritableBlockDevices m, QEMUArguments m with
  | Some _, Some arguments =>
      if negb (SchemaVersion m =? hardwareSchemaVersion) then Err malformedHardwareManifest
      else
        let profile := profileOf m in
        _ ← Validate profile;
        if negb (validQEMUVersion (QEMUVersion m)) then Err malformedHardwareManifest
        else
          expected ← placeholderArguments profile;
          if bool_decide (arguments = expected) then Ok ()
          else if bool_decide (arguments = EnableDisplay expected) then Ok ()
          else Err malformedHardwareManifest
  | _, _ => Err malformedHardwareManifest
  end.

Definition Manifest (p : HardwareProfile) (qemuVersion : bytes) : result HardwareManifest :=
  arguments ← placeholderArguments p;
  let manifest := mkHardware hardwareSchemaVersion (hpProfile p) (hpMachine p) (hpAccelerator p) (hpCPUModel p) (hpVCPUs p)
                    (hpMemoryMiB p) (hpGraphics p) (hpNetwork p) (Some []) qemuVersion (Some arguments) in
  _ ← ValidateHardwareManifest manifest;
  Ok manifest.

(** [EnableDisplay] of the arguments a manifest holds. *)
Definition with_display (m : HardwareManifest) : HardwareManifest :=
  mkHardware (SchemaVersion m) (Profile m) (Machine m) (Accelerator m) (CPUModel m) (VCPUs m) (MemoryMiB m) (Graphics m)
    (Network m) (WritableBlockDevices m) (QEMUVersion m) (EnableDisplay <$> QEMUArguments m).

(** *** Their text *)

Definition manifest_field (key : bytes) (v : jvalue) (m : HardwareManifest) : option HardwareManifest :=
  let '(mkHardware schema profile machine accelerator cpu vcpus memory graphics network devices version arguments) := m in
  if same_name key (bs "schema_version") then
    (λ x, mkHardware x profile machine accelerator cpu vcpus memory graphics network devices version arguments) <$> to_int v schema
  else if same_name key (bs "profile") then
    (λ x, mkHardware schema x machine accelerator cpu vcpus memory graphics network devices version arguments) <$> to_string v profile
  else if same_name key (bs "machine") then
    (λ x, mkHardware schema profile x accelerator cpu vcpus memory graphics network devices version arguments) <$> to_string v machine
  else if same_name key (bs "accelerator") then
    (λ x, mkHardware schema profile machine x cpu vcpus memory graphics network devices version arguments) <$> to_string v accelerator
  else if same_name key (bs "cpu_model") then
    (λ x, mkHardware schema profile machine accelerator x vcpus memory graphics network devices version arguments) <$> to_string v cpu
  else if same_name key (bs "vcpus") then
    (λ x, mkHardware schema profile machine accelerator cpu x memory graphics network devices version arguments) <$> to_int v vcpus
  else if same_name key (bs "memory_mib") then
    (λ x, mkHardware schema profile machine accelerator cpu vcpus x graphics network devices version arguments) <$> to_int v memory
  else if same_name key (bs "graphics") then
    (λ x, mkHardware schema profile machine accelerator cpu vcpus memory x network devices version arguments) <$> to_string v graphics
  else if same_name key (bs "network") then
    (λ x, mkHardware schema profile machine accelerator cpu vcpus memory graphics x devices version arguments) <$> to_string v network
  else if same_name key (bs "writable_block_devices") then
    (λ x, mkHardware schema profile machine accelerator cpu vcpus memory graphics network x version arguments)
      <$> to_slice to_string [] v devices
  else if same_name key (bs "qemu_version") then
    (λ x, mkHardware schema profile machine accelerator cpu vcpus memory graphics network devices x arguments) <$> to_string v version
  else if same_name key (bs "qemu_arguments") then
    (λ x, mkHardware schema profile machine accelerator cpu vcpus memory graphics network devices version x)
      <$> to_slice to_string [] v arguments
  else Some m.                                     (* unknown fields are ignored here *)

Definition expectedKeys : list bytes :=
  [bs "schema_version"; bs "profile"; bs "machine"; bs "accelerator"; bs "cpu_model"; bs "vcpus"; bs "memory_mib";
   bs "graphics"; bs "network"; bs "writable_block_devices"; bs "qemu_version"; bs "qemu_arguments"].

(** The members of a decoded map of raw values: the names it has. *)
Definition map_keys (members : list (bytes * jvalue)) : gset bytes := list_to_set members.*1.

Definition ParseHardwareManifest (encoded : bytes) : result HardwareManifest :=
  if (hardwareManifestMax <? len encoded) || negb (utf8.Valid encoded) then Err malformedHardwareManifest
  else match parse_text encoded with
  | None => Err (malformedHardwareManifestWith (json_error encoded))
  | Some value =>
      match value with
      | JObject _ | JNull =>
          let members := match value with JObject l => l | _ => [] end in
          if negb (Z.of_nat (size (map_keys members)) =? len expectedKeys) then Err malformedHardwareManifest
          else if negb (forallb (λ key, bool_decide (key ∈ map_keys members)) expectedKeys) then Err malformedHardwareManifest
          else match to_struct manifest_field value noHardware with
          | None => Err (malformedHardwareManifestWith (json_error encoded))
          | Some manifest => _ ← ValidateHardwareManifest manifest; Ok manifest
          end
      | _ => Err (malformedHardwareManifestWith (json_error encoded))
      end
  end.

Definition from_strings (l : option (list bytes)) : jvalue :=
  match l with None => JNull | Some l => JArray (map JString l) end.

Definition manifest_json (m : HardwareManifest) : jvalue :=
  JObject [(bs "accelerator", JString (Accelerator m)); (bs "cpu_model", JString (CPUModel m));
           (bs "graphics", JString (Graphics m)); (bs "machine", JString (Machine m));
           (bs "memory_mib", from_uint64 (MemoryMiB m)); (bs "network", JString (Network m));
           (bs "profile", JString (Profile m)); (bs "qemu_arguments", from_strings (QEMUArguments m));
           (bs "qemu_version", JString (QEMUVersion m)); (bs "schema_version", from_uint64 (SchemaVersion m));
           (bs "vcpus", from_uint64 (VCPUs m)); (bs "writable_block_devices", from_strings (WritableBlockDevices m))].

Definition hardwareASCIIJSON : bytes → bytes := asciiJSON.

Definition EncodeHardwareManifest (m : HardwareManifest) : result bytes :=
  _ ← ValidateHardwareManifest m;
  Ok (hardwareASCIIJSON (indent escape_text 0 (manifest_json m) ++ [x0a])).

(** ** The version of QEMU *)

Record boundedOutput := mkBounded { boBytes : bytes; boOverflow : bool }.

(** [Write] of a writer with limit [limit]. *)
Definition boundedOutput_Write (limit : Z) (value : bytes) (w : boundedOutput) : boundedOutput :=
  let remaining := limit - len (boBytes w) in
  mkBounded (if 0 <? remaining then boBytes w ++ takeZ (Z.min remaining (len value)) value else boBytes w)
    (boOverflow w || (remaining <? len value)).

Definition line_break (r : Z) : bool :=
  bool_decide (r ∈ [0x0a; 0x0b; 0x0c; 0x0d; 0x1c; 0x1d; 0x1e; 0x85; 0x2028; 0x2029]).

Fixpoint lineEnd (fuel : nat) (s : bytes) (index : Z) : option Z :=
  match fuel, s with
  | S fuel, _ :: _ =>
      let '(r, w) := utf8.DecodeRune s in
      if line_break r then Some index else lineEnd fuel (dropZ w s) (index + w)
  | _, _ => None
  end.

Definition firstPythonTextLine (value : bytes) : option bytes :=
  if bool_decide (value = []) then None
  else match lineEnd (length value) value 0 with
       | Some index => Some (takeZ index value)
       | None => Some value
       end.

(** [ran]: how the command ended; [contextErr]: the error of its context then;
    [written]: what it wrote, write by write. *)
Definition DiscoverQEMUVersion (ran : option error) (contextErr : option error) (written : list bytes) : result bytes :=
  match ran with
  | Some err =>
      Err (HardwareError (txt "could not determine QEMU version") (Some (default err contextErr)))
  | None =>
      let output := fold_left (λ w value, boundedOutput_Write qemuVersionOutputMax value w) written (mkBounded [] false) in
      if boOverflow output then Err (hardware_error (txt "could not determine QEMU version: output exceeds 1 MiB"))
      else if negb (utf8.Valid (boBytes output)) then Err (hardware_error (txt "QEMU version output is invalid"))
      else match firstPythonTextLine (boBytes output) with
      | None => Err (hardware_error (txt "QEMU version output is empty"))
      | Some version =>
          if negb (validQEMUVersion version) then Err (hardware_error (txt "QEMU version output is invalid"))
          else Ok version
      end
  end.
End Manifest.
