(* ===== verification/HardwareProofs.v ===== *)
(** * Hardware manifests

    A manifest that validates is written and read back unchanged; a valid profile
    always yields one, with or without a display; and the command line gives the
    guest nothing it could write to. *)

From S2P Require Import Prelude GoStd Json FeatureStore FeatureProofs ArchiveRecord JsonTree JsonCompact JsonAscii Hardware.
Open Scope Z_scope.

(** ** Valid profiles *)

Record profile_ok (p : HardwareProfile) : Prop := {
  po_profile : utf8.Valid (hpProfile p) = true ∧ len (hpProfile p) ≤ 64;
  po_machine : hpMachine p = bs "q35";
  po_accelerator : hpAccelerator p = bs "kvm" ∨ hpAccelerator p = bs "kvm:tcg";
  po_cpu : utf8.Valid (hpCPUModel p) = true ∧ len (hpCPUModel p) ≤ 64;
  po_vcpus : 1 ≤ hpVCPUs p ≤ 256;
  po_memory : 1 ≤ hpMemoryMiB p ≤ 1048576;
  po_graphics : hpGraphics p = bs "std-vga";
  po_network : hpNetwork p = bs "none";
  po_devices : hpWritableBlockDevices p = []
}.

Lemma between_ascii lo hi b : hi < 0x80 → between lo hi b = true → b2z b < 0x80.
Proof. unfold between. intros Hh H. zbool. lia. Qed.

Lemma lower_ascii b : lower_or_digit b = true → b2z b < 0x80.
Proof. unfold lower_or_digit. intros [H|H]%orb_true_iff; by eapply between_ascii, H. Qed.

Lemma cpu_ascii b : cpu_character b = true → b2z b < 0x80.
Proof.
  unfold cpu_character. rewrite !orb_true_iff. intros [[H|H]|H]; [by eapply between_ascii, H|by apply lower_ascii|].
  apply bool_decide_eq_true in H. rewrite !elem_of_cons in H.
  destruct H as [->|[->|[->|[->|H]]]]; [by vm_compute..|]. by apply not_elem_of_nil in H.
Qed.

Lemma ascii_valid f s : (∀ b, f b = true → b2z b < 0x80) → forallb f s = true → utf8.Valid s = true.
Proof.
  intros Hf Hs. apply utf8.Valid_ascii, Forall_forall. intros b Hb. rewrite forallb_forall in Hs.
  apply Hf, Hs. by apply list_elem_of_In.
Qed.

Lemma profile_pattern s : hardwareProfilePattern s = true → utf8.Valid s = true ∧ len s ≤ 64.
Proof.
  destruct s as [|b r]; [done|]. cbn [hardwareProfilePattern]. rewrite !andb_true_iff. intros [[Hb Hr] Hl%Z.leb_le].
  split; [|rewrite len_cons; lia]. apply lower_ascii in Hb. cbn [utf8.Valid]. rewrite (proj2 (Z.ltb_lt _ _) Hb).
  eapply ascii_valid, Hr. intros c [Hc|Hc%bool_decide_eq_true]%orb_true_iff; [by apply lower_ascii|by subst c].
Qed.

Lemma Validate_ok p : Validate p = Ok () → profile_ok p.
Proof.
  unfold Validate. intros E. repeat match type of E with (if ?c then _ else _) = _ => destruct c eqn:?; [discriminate E|] end.
  zbool. split; try done; try lia.
  - by apply profile_pattern.
  - match goal with H : _ && _ = false |- _ => apply andb_false_iff in H as [H|H] end; zbool; auto.
  - match goal with H : hardwareCPUPattern _ = true |- _ => unfold hardwareCPUPattern in H; zbool end.
    match goal with H : forallb cpu_character _ = true |- _ => split; [exact (ascii_valid _ _ cpu_ascii H)|lia] end.
  - by apply len_0.
Qed.

(** ** The arguments *)

(** A word of the command line: UTF-8 of bounded length. *)
Definition word_ok (w : bytes) : Prop := utf8.Valid w = true ∧ len w ≤ 256.

Lemma word_app a b : utf8.Valid a = true → utf8.Valid b = true → len a + len b ≤ 256 → word_ok (a ++ b).
Proof. intros Ha Hb Hl. split; [by apply Valid_app_both|by rewrite len_app]. Qed.

Lemma EnableDisplay_Forall (P : bytes → Prop) l :
  P (bs "gtk,show-menubar=off,window-close=off") → Forall P l → Forall P (EnableDisplay l).
Proof.
  intros Hg. induction l as [|a l IH]; intros Hl; [done|]. destruct l as [|b l]; [done|].
  cbn [EnableDisplay]. rewrite !Forall_cons in Hl. destruct Hl as (Ha & Hb & Hl).
  case_bool_decide; [by repeat constructor|]. constructor; [done|]. apply IH. by constructor.
Qed.

Lemma EnableDisplay_length l : length (EnableDisplay l) = length l.
Proof.
  induction l as [|a l IH]; [done|]. destruct l as [|b l]; [done|]. cbn [EnableDisplay].
  case_bool_decide; [done|]. exact (f_equal S IH).
Qed.

Lemma Itoa_valid n : u64 n → utf8.Valid (strconv.Itoa n) = true.
Proof. intros Hn. apply Valid_digits, (strconv.Itoa_spec n Hn). Qed.

Lemma placeholder_ok p : Validate p = Ok () →
  ∃ args, placeholderArguments p = Ok args ∧ Forall word_ok args ∧ length args = 32%nat.
Proof.
  intros Hv. destruct (Validate_ok p Hv) as [_ Hm Ha [Hc1 Hc2] Hs Hmem _ _ _].
  unfold placeholderArguments, QEMUCommandArguments. rewrite Hv. cbn [mbind result_bind].
  eexists. split; [reflexivity|]. split; [|reflexivity].
  pose proof (len_Itoa_bound (hpVCPUs p)). pose proof (len_Itoa_bound (hpMemoryMiB p)).
  repeat apply Forall_cons_2; try apply Forall_nil_2;
    lazymatch goal with
    | |- context [p] => idtac
    | |- word_ok _ => split; [vm_compute; reflexivity|vm_compute; discriminate]
    end.
  - rewrite Hm. destruct Ha as [-> | ->]; (split; [vm_compute; reflexivity|vm_compute; discriminate]).
  - split; [done|lia].
  - split; [apply Itoa_valid; unfold u64; lia|lia].
  - apply word_app; [apply Itoa_valid; unfold u64; lia|done|]. change (len (bs "M")) with 1. lia.
Qed.

(** ** Valid manifests *)

Section Manifests.
Context (IsPrint : Z → bool) (json_error : bytes → error).

Record manifest_ok (m : HardwareManifest) : Prop := {
  mo_schema : SchemaVersion m = 1;
  mo_devices : WritableBlockDevices m = Some [];
  mo_profile : profile_ok (profileOf m);
  mo_version : utf8.Valid (QEMUVersion m) = true ∧ len (QEMUVersion m) ≤ 256;
  mo_arguments : ∃ args, QEMUArguments m = Some args ∧ Forall word_ok args ∧ length args = 32%nat
}.

Lemma ValidateHardwareManifest_ok m : ValidateHardwareManifest IsPrint m = Ok () → manifest_ok m.
Proof.
  unfold ValidateHardwareManifest. destruct (WritableBlockDevices m) as [devices|] eqn:Ed; [|done].
  destruct (QEMUArguments m) as [args|] eqn:Ea; [|done].
  destruct (Z.eqb_spec (SchemaVersion m) hardwareSchemaVersion) as [Es|]; cbn [negb]; [|done].
  destruct (Validate (profileOf m)) as [[]|] eqn:Hv; cbn [mbind result_bind]; [|done].
  destruct (validQEMUVersion IsPrint (QEMUVersion m)) eqn:Ev; cbn [negb]; [|done].
  destruct (placeholder_ok _ Hv) as (expected & -> & HF & Hlen). cbn [mbind result_bind]. intros E.
  pose proof (Validate_ok _ Hv) as Hp. split; [done| |done| |].
  - pose proof (po_devices _ Hp) as H. unfold profileOf in H. cbn [hpWritableBlockDevices] in H. rewrite Ed in *. cbn in H. by subst.
  - unfold validQEMUVersion in Ev. zbool. done.
  - exists args. split; [done|]. case_bool_decide as H1; [by subst args|]. case_bool_decide as H2; [|done].
    subst args. split; [|by rewrite EnableDisplay_length]. apply EnableDisplay_Forall; [|done].
    split; [vm_compute; reflexivity|vm_compute; discriminate].
Qed.
(** ** The text *)

(** One member of the text at a time. *)
Section Fields.
Context (v : jvalue) (a : Z) (b c d e : bytes) (f g : Z) (h i : bytes) (j : option (list bytes)) (k : bytes) (l : option (list bytes)).
Lemma field_schema_version : manifest_field (bs "schema_version") v (mkHardware a b c d e f g h i j k l) = (λ x, mkHardware x b c d e f g h i j k l) <$> to_int v a.
Proof. reflexivity. Qed.
Lemma field_profile : manifest_field (bs "profile") v (mkHardware a b c d e f g h i j k l) = (λ x, mkHardware a x c d e f g h i j k l) <$> to_string v b.
Proof. reflexivity. Qed.
Lemma field_machine : manifest_field (bs "machine") v (mkHardware a b c d e f g h i j k l) = (λ x, mkHardware a b x d e f g h i j k l) <$> to_string v c.
Proof. reflexivity. Qed.
Lemma field_accelerator : manifest_field (bs "accelerator") v (mkHardware a b c d e f g h i j k l) = (λ x, mkHardware a b c x e f g h i j k l) <$> to_string v d.
Proof. reflexivity. Qed.
Lemma field_cpu_model : manifest_field (bs "cpu_model") v (mkHardware a b c d e f g h i j k l) = (λ x, mkHardware a b c d x f g h i j k l) <$> to_string v e.
Proof. reflexivity. Qed.
Lemma field_vcpus : manifest_field (bs "vcpus") v (mkHardware a b c d e f g h i j k l) = (λ x, mkHardware a b c d e x g h i j k l) <$> to_int v f.
Proof. reflexivity. Qed.
Lemma field_memory_mib : manifest_field (bs "memory_mib") v (mkHardware a b c d e f g h i j k l) = (λ x, mkHardware a b c d e f x h i j k l) <$> to_int v g.
Proof. reflexivity. Qed.
Lemma field_graphics : manifest_field (bs "graphics") v (mkHardware a b c d e f g h i j k l) = (λ x, mkHardware a b c d e f g x i j k l) <$> to_string v h.
Proof. reflexivity. Qed.
Lemma field_network : manifest_field (bs "network") v (mkHardware a b c d e f g h i j k l) = (λ x, mkHardware a b c d e f g h x j k l) <$> to_string v i.
Proof. reflexivity. Qed.
Lemma field_writable_block_devices : manifest_field (bs "writable_block_devices") v (mkHardware a b c d e f g h i j k l) = (λ x, mkHardware a b c d e f g h i x k l) <$> to_slice to_string [] v j.
Proof. reflexivity. Qed.
Lemma field_qemu_version : manifest_field (bs "qemu_version") v (mkHardware a b c d e f g h i j k l) = (λ x, mkHardware a b c d e f g h i j x l) <$> to_string v k.
Proof. reflexivity. Qed.
Lemma field_qemu_arguments : manifest_field (bs "qemu_arguments") v (mkHardware a b c d e f g h i j k l) = (λ x, mkHardware a b c d e f g h i j k x) <$> to_slice to_string [] v l.
Proof. reflexivity. Qed.
End Fields.

#[local] Hint Rewrite field_schema_version field_profile field_machine field_accelerator field_cpu_model field_vcpus field_memory_mib field_graphics field_network field_writable_block_devices field_qemu_version field_qemu_arguments : hardware.

Lemma to_strings l : to_slice to_string [] (from_strings (Some l)) None = Some (Some l).
Proof.
  cbn [from_strings to_slice]. change (default [] None) with (@nil bytes).
  assert (H : to_elements to_string [] (map JString l) [] = Some l).
  { induction l as [|x l IH]; [done|]. cbn [map to_elements to_string mbind option_bind tail]. by rewrite IH. }
  by rewrite H.
Qed.

Lemma to_fields_step {A} (field : bytes → jvalue → A → option A) k v l old :
  to_fields field ((k, v) :: l) old = field k v old ≫= to_fields field l.
Proof. done. Qed.

Lemma manifest_reads m : manifest_ok m → to_struct manifest_field (manifest_json m) noHardware = Some m.
Proof.
  intros [Hs Hd Hp _ (args & Ha & _)]. pose proof (po_vcpus _ Hp) as Hv. pose proof (po_memory _ Hp) as Hm.
  destruct m as [schema profile machine accelerator cpu vcpus memory graphics network devices version arguments].
  unfold profileOf in *. cbn [SchemaVersion WritableBlockDevices QEMUArguments VCPUs MemoryMiB hpVCPUs hpMemoryMiB] in *. subst.
  unfold manifest_json, noHardware.
  cbn [SchemaVersion WritableBlockDevices QEMUArguments VCPUs MemoryMiB Profile Machine Accelerator CPUModel Graphics Network QEMUVersion to_struct].
  repeat (rewrite to_fields_step; autorewrite with hardware; rewrite ?to_strings, ?to_int_from by lia;
          cbn [to_string mbind option_bind fmap option_fmap option_map]).
  done.
Qed.

Lemma from_strings_ok l : Forall word_ok l → json_ok (from_strings (Some l)).
Proof.
  intros HF. cbn [from_strings json_ok]. apply all_of_Forall. apply Forall_fmap. eapply Forall_impl; [exact HF|]. by intros x [? _].
Qed.

Lemma manifest_json_ok m : manifest_ok m → json_ok (manifest_json m).
Proof.
  intros [Hs Hd Hp [Hv _] (args & Ha & HF & _)]. destruct Hp as [[Hpr _] Hm Hacc [Hc _] Hvc Hme Hg Hn _].
  unfold profileOf in *. cbn [hpProfile hpMachine hpAccelerator hpCPUModel hpVCPUs hpMemoryMiB hpGraphics hpNetwork] in *.
  unfold manifest_json. cbn [json_ok]. apply all_of_Forall. rewrite Hs, Hd, Ha, Hm, Hg, Hn.
  repeat apply Forall_cons_2; try apply Forall_nil_2; (split; [by vm_compute|]); cbn [snd]; try done;
    try (apply json_ok_uint64; unfold u64; lia); try by apply from_strings_ok.
  by destruct Hacc as [-> | ->].
Qed.

Lemma strings_size l level : Forall word_ok l → (length l ≤ 32)%nat → (level ≤ 2)%nat →
  indent_size level (from_strings (Some l)) ≤ 60000.
Proof.
  intros HF Hl Hlevel. cbn [from_strings indent_size].
  assert (H : foldr (λ x n, 4 + 2 * Z.of_nat level + indent_size (S level) x + n) 0 (map JString l) ≤ 1600 * Z.of_nat (length l)).
  { clear Hl. induction HF as [|x l [_ Hx] _ IH]; [done|]. cbn [map foldr indent_size length]. lia. }
  lia.
Qed.

Lemma manifest_size m : manifest_ok m → len (EncodeIndentASCII (manifest_json m)) ≤ hardwareManifestMax.
Proof.
  intros Hm. pose proof (manifest_json_ok m Hm) as Hj. rewrite EncodeIndentASCII_eq, len_app by done.
  pose proof (indent_size_bound _ Hj 0) as Hb. destruct Hm as [Hs Hd Hp [_ Hv] (args & Ha & HF & Hlen)].
  destruct Hp as [[_ Hpr] Hma Hacc [_ Hc] Hvc Hme Hg Hn _]. unfold profileOf in *.
  cbn [hpProfile hpMachine hpAccelerator hpCPUModel hpVCPUs hpMemoryMiB hpGraphics hpNetwork] in *.
  pose proof (strings_size args 1 HF ltac:(lia) ltac:(lia)) as H1. pose proof (strings_size [] 1 ltac:(constructor) ltac:(cbn; lia) ltac:(lia)) as H2.
  assert (Hal : len (Accelerator m) ≤ 7) by (by destruct Hacc as [-> | ->]).
  unfold manifest_json in Hb at 2. rewrite Hd, Ha, Hma, Hg, Hn, Hs in Hb. cbn [indent_size foldr fst snd from_uint64] in Hb.
  pose proof (len_Itoa_bound (MemoryMiB m)). pose proof (len_Itoa_bound (VCPUs m)). pose proof (len_Itoa_bound 1).
  repeat match type of Hb with context [len (bs ?w)] =>
    let n := eval vm_compute in (len (bs w)) in change (len (bs w)) with n in Hb end.
  unfold hardwareManifestMax. change (len [x0a]) with 1. lia.
Qed.

Lemma manifest_keys m l : manifest_json m = JObject l →
  Z.of_nat (size (map_keys l)) = len expectedKeys ∧ forallb (λ key, bool_decide (key ∈ map_keys l)) expectedKeys = true.
Proof.
  intros [= <-]. unfold map_keys. cbn [fmap list_fmap fst]. vm_compute. done.
Qed.

Lemma manifest_depth m : (json_depth (manifest_json m) ≤ 2)%nat.
Proof.
  unfold manifest_json. cbn [json_depth]. apply le_n_S, maximum_le.
  assert (H : ∀ o, (json_depth (from_strings o) ≤ 1)%nat).
  { intros [l|]; [|cbn; lia]. cbn [from_strings json_depth]. apply le_n_S, maximum_le, Forall_fmap.
    apply Forall_forall. intros x _. cbn. lia. }
  repeat apply Forall_cons_2; try apply Forall_nil_2; cbn [snd]; try (cbn; lia); apply H.
Qed.

Lemma manifest_written m : ValidateHardwareManifest IsPrint m = Ok () →
  EncodeHardwareManifest IsPrint m = Ok (EncodeIndentASCII (manifest_json m))
  ∧ ParseHardwareManifest IsPrint json_error (EncodeIndentASCII (manifest_json m)) = Ok m.
Proof.
  intros Hv. pose proof (ValidateHardwareManifest_ok m Hv) as Hm. pose proof (manifest_json_ok m Hm) as Hj.
  split; [unfold EncodeHardwareManifest; by rewrite Hv|]. unfold ParseHardwareManifest.
  rewrite (proj2 (Z.ltb_ge _ _) (manifest_size m Hm)), Valid_EncodeIndentASCII by done. cbn [orb negb].
  rewrite parse_EncodeIndentASCII; [|done|pose proof (manifest_depth m); unfold json.maxNestingDepth; lia].
  destruct (manifest_json m) as [| | | | |l] eqn:El; try (unfold manifest_json in El; discriminate El).
  destruct (manifest_keys m l El) as [Hs Hk]. rewrite Hs, Z.eqb_refl, Hk. cbn [negb]. rewrite <- El, manifest_reads by done.
  by rewrite Hv.
Qed.

Lemma Manifest_made p version : Validate p = Ok () → validQEMUVersion IsPrint version = true →
  ∃ m, Manifest IsPrint p version = Ok m ∧ ValidateHardwareManifest IsPrint m = Ok ()
       ∧ ValidateHardwareManifest IsPrint (with_display m) = Ok () ∧ QEMUVersion m = version ∧ profileOf m = p.
Proof.
  intros Hp Hv. destruct (placeholder_ok p Hp) as (args & Ea & _). unfold Manifest. rewrite Ea. cbn [mbind result_bind].
  set (m := mkHardware _ _ _ _ _ _ _ _ _ _ _ _).
  assert (Hpm : profileOf m = p) by (unfold profileOf, m; destruct p; cbn; f_equal; symmetry; exact (po_devices _ (Validate_ok _ Hp))).
  assert (H1 : ValidateHardwareManifest IsPrint m = Ok ()).
  { unfold ValidateHardwareManifest. rewrite Hpm. cbn [WritableBlockDevices QEMUArguments SchemaVersion QEMUVersion m].
    rewrite Hp, Hv, Ea. cbn. by rewrite bool_decide_eq_true_2. }
  exists m. rewrite H1. split_and!; [done|done| |done|done].
  unfold ValidateHardwareManifest. change (profileOf (with_display m)) with (profileOf m). rewrite Hpm.
  cbn [with_display WritableBlockDevices QEMUArguments SchemaVersion QEMUVersion m fmap option_fmap option_map].
  rewrite Hp, Hv, Ea. cbn [mbind result_bind negb]. case_bool_decide; [done|]. by rewrite bool_decide_eq_true_2.
Qed.
End Manifests.

(** ** The command line, read as options *)

(** The options of a QEMU command line with their values; two of those used here
    take none. *)
Fixpoint options (l : list bytes) : list (bytes * option bytes) :=
  match l with
  | [] => []
  | o :: rest =>
      if bool_decide (o = bs "-nodefaults") || bool_decide (o = bs "-no-reboot") then (o, None) :: options rest
      else match rest with
           | value :: rest => (o, Some value) :: options rest
           | [] => [(o, None)]
           end
  end.

Definition listed (machine cpu smp memory file raw serial qmp : bytes) : list (bytes * option bytes) :=
  [(bs "-machine", Some machine); (bs "-cpu", Some cpu); (bs "-smp", Some smp); (bs "-m", Some memory); (bs "-nodefaults", None);
     (bs "-display", Some (bs "none")); (bs "-monitor", Some (bs "none")); (bs "-no-reboot", None); (bs "-nic", Some (bs "none"));
     (bs "-audiodev", Some (bs "none,id=codexos-noaudio")); (bs "-blockdev", Some file); (bs "-blockdev", Some raw);
     (bs "-device", Some (bs "ide-cd,drive=codexos-boot-cd,bootindex=1")); (bs "-device", Some (bs "VGA"));
     (bs "-chardev", Some serial); (bs "-device", Some (bs "isa-serial,chardev=codexos-com1,index=0")); (bs "-qmp", Some qmp)].

Lemma options_listed machine cpu smp memory file raw serial qmp :
  options [bs "-machine"; machine; bs "-cpu"; cpu; bs "-smp"; smp; bs "-m"; memory; bs "-nodefaults"; bs "-display"; bs "none";
           bs "-monitor"; bs "none"; bs "-no-reboot"; bs "-nic"; bs "none"; bs "-audiodev"; bs "none,id=codexos-noaudio";
           bs "-blockdev"; file; bs "-blockdev"; raw; bs "-device"; bs "ide-cd,drive=codexos-boot-cd,bootindex=1";
           bs "-device"; bs "VGA"; bs "-chardev"; serial; bs "-device"; bs "isa-serial,chardev=codexos-com1,index=0"; bs "-qmp"; qmp]
  = listed machine cpu smp memory file raw serial qmp.
Proof. reflexivity. Qed.

(** Values of an option that occurs with that name. *)
Definition values (name : bytes) (l : list (bytes * option bytes)) : list bytes :=
  omap (λ o, if bool_decide (o.1 = name) then o.2 else None) l.

Lemma values_listed machine cpu smp memory file raw serial qmp :
  let l := listed machine cpu smp memory file raw serial qmp in
  (values (bs "-machine") l = [machine] ∧ values (bs "-cpu") l = [cpu] ∧ values (bs "-smp") l = [smp] ∧ values (bs "-m") l = [memory])
  ∧ (values (bs "-blockdev") l = [file; raw]
     ∧ values (bs "-device") l = [bs "ide-cd,drive=codexos-boot-cd,bootindex=1"; bs "VGA"; bs "isa-serial,chardev=codexos-com1,index=0"]
     ∧ values (bs "-chardev") l = [serial] ∧ values (bs "-qmp") l = [qmp])
  ∧ values (bs "-nic") l = [bs "none"] ∧ values (bs "-monitor") l = [bs "none"] ∧ values (bs "-display") l = [bs "none"]
  ∧ values (bs "-audiodev") l = [bs "none,id=codexos-noaudio"].
Proof. cbv zeta. split_and!; reflexivity. Qed.

Definition valued_names : list bytes :=
  [bs "-machine"; bs "-cpu"; bs "-smp"; bs "-m"; bs "-display"; bs "-monitor"; bs "-nic"; bs "-audiodev"; bs "-blockdev";
   bs "-device"; bs "-chardev"; bs "-qmp"].

Definition plain_names : list bytes := [bs "-nodefaults"; bs "-no-reboot"].

Lemma listed_names machine cpu smp memory file raw serial qmp name v :
  (name, v) ∈ listed machine cpu smp memory file raw serial qmp →
  (name ∈ valued_names ∧ is_Some v) ∨ (name ∈ plain_names ∧ v = None).
Proof.
  intros H. unfold listed in H. unfold valued_names, plain_names.
  repeat (apply elem_of_cons in H as [H|H];
    [injection H as -> ->; first [left; split; [repeat first [left | right]|by eexists] | right; split; [repeat first [left | right]|done]]|]).
  by apply not_elem_of_nil in H.
Qed.

(** Showing the display changes nothing but the display, unless the CPU model reads as
    the option itself. *)
Lemma display_listed machine cpu smp memory file raw serial qmp :
  machine ≠ bs "-display" → cpu ≠ bs "-display" → smp ≠ bs "-display" → memory ≠ bs "-display" →
  options (EnableDisplay [bs "-machine"; machine; bs "-cpu"; cpu; bs "-smp"; smp; bs "-m"; memory; bs "-nodefaults"; bs "-display"; bs "none";
           bs "-monitor"; bs "none"; bs "-no-reboot"; bs "-nic"; bs "none"; bs "-audiodev"; bs "none,id=codexos-noaudio";
           bs "-blockdev"; file; bs "-blockdev"; raw; bs "-device"; bs "ide-cd,drive=codexos-boot-cd,bootindex=1";
           bs "-device"; bs "VGA"; bs "-chardev"; serial; bs "-device"; bs "isa-serial,chardev=codexos-com1,index=0"; bs "-qmp"; qmp])
  = (λ o, if bool_decide (o.1 = bs "-display") then (o.1, Some (bs "gtk,show-menubar=off,window-close=off")) else o)
      <$> listed machine cpu smp memory file raw serial qmp.
Proof.
  intros H1 H2 H3 H4.
  assert (Hne : ∀ a b l, a ≠ bs "-display" → EnableDisplay (a :: b :: l) = a :: EnableDisplay (b :: l)).
  { intros a b l Ha. cbn [EnableDisplay]. by rewrite bool_decide_eq_false_2. }
  do 9 (rewrite Hne by first [done|by vm_compute]). reflexivity.
Qed.

Lemma values_display name l v : name ≠ bs "-display" →
  values name ((λ o, if bool_decide (o.1 = bs "-display") then (o.1, Some v) else o) <$> l) = values name l.
Proof.
  intros Hn. unfold values. induction l as [|[n o] l IH]; [done|]. cbn [fmap list_fmap omap list_omap fst].
  destruct (bool_decide (n = bs "-display")) eqn:E; cbn [fst snd].
  - apply bool_decide_eq_true in E. subst n. by rewrite bool_decide_eq_false_2.
  - by destruct (if bool_decide _ then o else None); rewrite ?IH; f_equal.
Qed.

Lemma blockdev_json bootISO : utf8.Valid bootISO = true →
  parse_text (compactASCIIJSON (bootFile bootISO)) = Some (bootFile bootISO) ∧ parse_text (compactASCIIJSON bootRaw) = Some bootRaw.
Proof.
  intros Hb. split; apply parse_EncodeASCII; try (vm_compute; discriminate);
    refine (conj (conj _ _) (conj (conj _ _) (conj (conj _ _) (conj (conj _ I) I)))); first [exact Hb|by vm_compute].
Qed.

(** ** Claims *)

(** A hardware manifest that validates is written as ASCII text within the size
    limit of the reader, and reads back as the same manifest, whatever characters
    count as printable in the version of QEMU. *)
Theorem hardware_manifest_roundtrip IsPrint json_error m :
  ValidateHardwareManifest IsPrint m = Ok () →
  ∃ text, EncodeHardwareManifest IsPrint m = Ok text ∧ Forall (λ b, b2z b < 0x80) text
    ∧ ParseHardwareManifest IsPrint json_error text = Ok m.
Proof.
  intros Hv. destruct (manifest_written IsPrint json_error m Hv) as [He Hp]. exists (EncodeIndentASCII (manifest_json m)).
  split_and!; [done| |done]. pose proof (manifest_json_ok m (ValidateHardwareManifest_ok IsPrint m Hv)) as Hj.
  apply asciiJSON_ascii, Valid_app_both; [|done]. apply Valid_indented; [|done].
  intros s Hs. unfold escape_text. rewrite Hs. by apply Valid_escape.
Qed.

(** C38: Whatever version QEMU prints, if it is accepted then every valid profile has a
    manifest for it, which validates as it is and with the display shown: the
    archive of a generation that booted never refuses its hardware. *)
Theorem booted_hardware_valid IsPrint p ran contextErr written version :
  Validate p = Ok () → DiscoverQEMUVersion IsPrint ran contextErr written = Ok version →
  ∃ m, Manifest IsPrint p version = Ok m ∧ ValidateHardwareManifest IsPrint m = Ok ()
    ∧ ValidateHardwareManifest IsPrint (with_display m) = Ok ().
Proof.
  intros Hp Hd. assert (Hv : validQEMUVersion IsPrint version = true).
  { unfold DiscoverQEMUVersion in Hd. destruct ran; [done|]. destruct (boOverflow _); [done|]. destruct (negb _); [done|].
    destruct (firstPythonTextLine _) as [v|]; [|done]. destruct (validQEMUVersion IsPrint v) eqn:E; [|done]. by injection Hd as <-. }
  destruct (Manifest_made IsPrint p version Hp Hv) as (m & H1 & H2 & H3 & _). by exists m.
Qed.

Lemma cpu_one_setting p : Validate p = Ok () → x2c ∉ hpCPUModel p.
Proof.
  unfold Validate. intros E Hin. repeat match type of E with (if ?c then _ else _) = _ => destruct c eqn:?; [discriminate E|] end.
  match goal with H : negb (hardwareCPUPattern _) = false |- _ =>
    apply negb_false_iff, andb_true_iff in H as [[H _]%andb_true_iff _]; rewrite forallb_forall in H; apply list_elem_of_In, H in Hin end.
  discriminate Hin.
Qed.

Lemma Itoa_not_option n t : u64 n → strconv.Itoa n ++ t ≠ bs "-display".
Proof.
  intros Hn. destruct (strconv.Itoa_spec n Hn) as (Hd & _ & Hne). destruct (strconv.Itoa n) as [|b ds]; [done|].
  cbn [forallb] in Hd. apply andb_true_iff in Hd as [Hd _]. intros [= -> _]. discriminate Hd.
Qed.

(** C27: The command line of a valid profile gives the guest exactly the hardware of the
    profile and nothing else: its machine with its accelerator, its CPU model, which
    cannot carry further settings, its numbers of CPUs and of megabytes in decimal;
    two block devices, the JSON objects that read back as the boot image, under
    exactly its path however the path is spelled, and the drive on top of it, both
    read-only; the boot drive, the VGA adapter and one serial line as devices, the
    line on the given socket; one control socket; no network, no monitor, no sound.
    No other option occurs, and showing the display changes no other value. *)
Theorem guest_hardware_confined p bootISO qmpSocket serialSocket arguments :
  QEMUCommandArguments p bootISO qmpSocket serialSocket = Ok arguments →
  let given name := values (bs name) (options arguments) in
  (given "-machine" = [bs "q35,accel=" ++ hpAccelerator p ++ bs ",pcspk-audiodev=codexos-noaudio"]
   ∧ hpAccelerator p ∈ [bs "kvm"; bs "kvm:tcg"]
   ∧ given "-cpu" = [hpCPUModel p] ∧ x2c ∉ hpCPUModel p
   ∧ (∃ smp, given "-smp" = [smp] ∧ strconv.ParseUint smp = Some (hpVCPUs p) ∧ 1 ≤ hpVCPUs p ≤ 256)
   ∧ ∃ memory, given "-m" = [memory ++ bs "M"] ∧ strconv.ParseUint memory = Some (hpMemoryMiB p) ∧ 1 ≤ hpMemoryMiB p ≤ 2 ^ 20)
  ∧ (parse_text <$> given "-blockdev") = [Some (bootFile bootISO); Some bootRaw]
  ∧ given "-device" = [bs "ide-cd,drive=codexos-boot-cd,bootindex=1"; bs "VGA"; bs "isa-serial,chardev=codexos-com1,index=0"]
  ∧ given "-chardev" = [bs "socket,id=codexos-com1,path=" ++ serialSocket ++ bs ",server=on,wait=off"]
  ∧ given "-qmp" = [bs "unix:" ++ qmpSocket ++ bs ",server=on,wait=off"]
  ∧ (given "-nic" = [bs "none"] ∧ given "-monitor" = [bs "none"] ∧ given "-display" = [bs "none"]
     ∧ given "-audiodev" = [bs "none,id=codexos-noaudio"])
  ∧ (∀ o, o ∈ plain_names → (o, None) ∈ options arguments)
  ∧ (∀ name v, (name, v) ∈ options arguments → (name ∈ valued_names ∧ is_Some v) ∨ (name ∈ plain_names ∧ v = None))
  ∧ (hpCPUModel p ≠ bs "-display" → ∀ name, name ≠ bs "-display" →
     values name (options (EnableDisplay arguments)) = values name (options arguments)).
Proof.
  unfold QEMUCommandArguments. destruct (Validate p) as [[]|] eqn:Hv; [|done]. cbn [mbind result_bind].
  destruct (Validate_ok p Hv) as [_ Hm Ha _ Hn Hk _ _ _]. pose proof (cpu_one_setting p Hv) as Hc.
  destruct (utf8.Valid bootISO) eqn:Hb; cbn [negb orb]; [|done]. destruct (_ || _); [done|]. intros [= <-]. cbv zeta.
  destruct (blockdev_json bootISO Hb) as [H1 H2]. rewrite options_listed.
  match goal with |- context [listed ?a ?b ?c ?d ?e ?f ?g ?h] =>
    destruct (values_listed a b c d e f g h) as ((-> & -> & -> & ->) & (-> & -> & -> & ->) & -> & -> & -> & ->) end.
  cbn [fmap list_fmap]. rewrite H1, H2, Hm. split; [refine (conj eq_refl (conj _ (conj eq_refl (conj Hc (conj _ _)))))|].
  { destruct Ha as [-> | ->]; [by left|by right; left]. }
  { exists (strconv.Itoa (hpVCPUs p)). split; [reflexivity|]. split; [apply strconv.ParseUint_Itoa; unfold u64; lia|exact Hn]. }
  { exists (strconv.Itoa (hpMemoryMiB p)). split; [reflexivity|]. split; [apply strconv.ParseUint_Itoa; unfold u64; lia|exact Hk]. }
  refine (conj eq_refl (conj eq_refl (conj eq_refl (conj eq_refl (conj (conj eq_refl (conj eq_refl (conj eq_refl eq_refl))) (conj _ (conj _ _))))))).
  2: { intros name v. apply listed_names. }
  - intros o Ho. unfold plain_names in Ho. rewrite !elem_of_cons in Ho. destruct Ho as [->|[->|Ho]];
      [do 4 right; left|do 7 right; left|destruct (not_elem_of_nil _ Ho)].
  - intros Hd name Hne. rewrite display_listed; [by apply values_display| |done| |].
    + destruct Ha as [Ha | Ha]; rewrite Ha; by vm_compute.
    + rewrite <- (app_nil_r (strconv.Itoa _)). apply Itoa_not_option. unfold u64. lia.
    + apply Itoa_not_option. unfold u64. lia.
Qed.

(** ** Examples *)
Lemma Ok_inj {A} (x y : A) : Ok x = Ok y → x = y.
Proof. by intros [=]. Qed.

Module hardware_example.
Definition printable (r : Z) : bool := (0x20 <=? r) && negb (r =? 0x7f) && negb ((0x80 <=? r) && (r <=? 0x9f)).
(** A version with a character above ASCII, and the two lines QEMU prints. *)
Definition version : bytes := bs "QEMU emulator version 9.0 " ++ [xe2; x82; xac].
Definition written : list bytes := [version ++ [x0a]; bs "Copyright"].
Definition manifest : HardwareManifest :=
  match Manifest printable TestHardwareProfile version with Ok m => m | Err _ => noHardware end.
Definition text : bytes := match EncodeHardwareManifest printable manifest with Ok t => t | Err _ => [] end.
Definition arguments : list bytes :=
  match QEMUCommandArguments TestHardwareProfile (bs "/tmp/a b.iso") (bs "q") (bs "s") with Ok l => l | Err _ => [] end.

Lemma version_found : DiscoverQEMUVersion printable None None written = Ok version.
Proof. vm_compute. reflexivity. Qed.
Lemma manifest_valid : ValidateHardwareManifest printable manifest = Ok ().
Proof. vm_compute. reflexivity. Qed.
Lemma arguments_made : QEMUCommandArguments TestHardwareProfile (bs "/tmp/a b.iso") (bs "q") (bs "s") = Ok arguments.
Proof. vm_compute. reflexivity. Qed.
Lemma text_made : EncodeHardwareManifest printable manifest = Ok text.
Proof. vm_compute. reflexivity. Qed.
End hardware_example.

Lemma hardware_manifest_roundtrip_witness :
  ParseHardwareManifest hardware_example.printable (λ _, malformedHardwareManifest) hardware_example.text = Ok hardware_example.manifest
  ∧ QEMUVersion hardware_example.manifest = hardware_example.version.
Proof.
  destruct (hardware_manifest_roundtrip hardware_example.printable (λ _, malformedHardwareManifest) hardware_example.manifest
    hardware_example.manifest_valid) as (t & H1 & _ & H2).
  pose proof (Ok_inj _ _ (eq_trans (eq_sym hardware_example.text_made) H1)) as E. split; [|vm_compute; reflexivity].
  rewrite E. exact H2.
Defined.

Lemma booted_hardware_valid_witness :
  ∃ m, Manifest hardware_example.printable TestHardwareProfile hardware_example.version = Ok m
    ∧ ValidateHardwareManifest hardware_example.printable (with_display m) = Ok ().
Proof.
  destruct (booted_hardware_valid hardware_example.printable TestHardwareProfile None None hardware_example.written
    hardware_example.version eq_refl hardware_example.version_found) as (m & H1 & _ & H2).
  exists m. split; [exact H1|exact H2].
Defined.

Lemma guest_hardware_confined_witness :
  parse_text <$> values (bs "-blockdev") (options hardware_example.arguments) = [Some (bootFile (bs "/tmp/a b.iso")); Some bootRaw].
Proof.
  exact (proj1 (proj2 (guest_hardware_confined TestHardwareProfile (bs "/tmp/a b.iso") (bs "q") (bs "s") hardware_example.arguments
    hardware_example.arguments_made))).
Defined.
