(* ===== verification/LiveArchive.v ===== *)
(** * Archives of live generations (src/internal/experiment/archive.go, runtime.go)

    Publishing a completed generation, with the verified copies of the successor it
    selected, and the evidence an aborted generation keeps of its latest
    successful build. *)

From S2P Require Import Prelude GoStd Sha256 SourceCapacity Snapshot Json FeatureStore HostService ArchiveRecord JsonTree JsonCompact.
Open Scope Z_scope.

(** ** Verified copies *)

(** The file [relative] of the archive from what reading [source] gives. *)
Definition copyArchiveFileVerified (relative source : bytes) (contents : result bytes) (expected : option FileIdentity) : result bytes :=
  let failed err := Err (runtime_wrap (txt "could not persist generation archive artifact: " ++ [Lit relative]) err) in
  match contents with
  | Err err => Err (runtime_wrap (txt "could not open generation archive source: " ++ [Lit source]) err)
  | Ok data =>
      match expected with
      | None => Ok data
      | Some identity =>
          if negb (len data =? fiSize identity) || negb (bool_decide (sha256_hex data = fiSHA256 identity)) then
            failed (runtime_error (txt "validated successor artifact changed before archival: " ++ [Lit source]))
          else Ok data
      end
  end.

Definition kernelName : bytes := bs "successor/kernel.elf".
Definition imageName : bytes := bs "successor/codexos.iso".

(** ** A completed generation *)

Record CompletedArchive := mkCompleted {
  cpGeneration : Z;
  cpParent : option Z;
  cpTransition : bytes;
  cpHardware : HardwareManifest;
  cpHandoff : bytes;
  cpSnapshot : bytes;
  cpKernelELF : bytes;               (* path *)
  cpSuccessorISO : bytes;            (* path *)
  cpKernelIdentity : FileIdentity;
  cpISOIdentity : FileIdentity;
  cpHarness : bool;
  cpCapacity : Budget
}.

Definition completedDirectory (input : CompletedArchive) (kernel image : bytes) (refs : bool) : archiveDirectory :=
  mkArchiveDir (Ok refs) (Ok (savedCapacity (cpCapacity input)))
    (Ok (archiveMetadata (cpGeneration input) (bs "completed") (cpParent input) (cpTransition input)))
    (Ok (cpHardware input)) None (Ok (cpHarness input)) None (Ok (cpHandoff input)) (Ok (cpSnapshot input))
    (Err missing_artifact) None None
    ([archiveBootName; archiveMetadataName; hardwareManifestName; handoffName; sourceSnapshotName; sourceName;
      successorName; stdoutName; stderrName]
     ++ optional (negb (cpCapacity input =? 0)) capacityFilename ++ optional (cpHarness input) GenerationHarnessFilename
     ++ optional refs ReferencesFilename) (Ok (kernel, image)).

(** [readFile]: what opening and reading a source file gives; [written]: the
    outcome of writing and copying the other files. *)
Definition populateCompleted (input : CompletedArchive) (readFile : bytes → result bytes) (written : result unit)
  : result (bool → archiveDirectory) :=
  _ ← saveCapacity (cpCapacity input);
  _ ← written;
  kernel ← copyArchiveFileVerified kernelName (cpKernelELF input) (readFile (cpKernelELF input)) (Some (cpKernelIdentity input));
  image ← copyArchiveFileVerified imageName (cpSuccessorISO input) (readFile (cpSuccessorISO input)) (Some (cpISOIdentity input));
  Ok (completedDirectory input kernel image).

Definition writeCompletedArchiveFiles (run : bytes) (validHardware : HardwareManifest → option error) (input : CompletedArchive)
  (readFile : bytes → result bytes) (written : result unit) (frozen : result bool) (f : publishing) (entries : gmap bytes rundirent)
  : result ArchivedGeneration * gmap bytes rundirent :=
  match validateArchiveMetadataInput (cpGeneration input) (cpParent input) (cpTransition input) with
  | Err err => (Err err, entries)
  | Ok _ =>
      match validHardware (cpHardware input) with
      | Some err => (Err (runtime_wrap (txt "generation hardware manifest is malformed") err), entries)
      | None =>
          if negb (utf8.Valid (cpHandoff input)) then (Err (runtime_error (txt "generation handoff is not valid UTF-8")), entries)
          else match DecodeSourceSnapshotWithBudget (cpSnapshot input) (cpCapacity input) with
          | Err err => (Err err, entries)
          | Ok _ => publishArchive run (cpGeneration input) (populateCompleted input readFile written) frozen f entries
          end
      end
  end.

(** ** Evidence of the latest success *)

(** [normalizeJSONNumbers]: every number of a decoded value is an unsigned 64-bit
    integer; of several members of a name the last counts. *)
Fixpoint normalizeJSONNumbers (v : jvalue) : bool :=
  match v with
  | JNumber w => bool_decide (is_Some (strconv.ParseUint w))
  | JArray l => forallb normalizeJSONNumbers l
  | JObject l =>
      (fix members l := match l with
       | [] => true
       | m :: l => (existsb (λ x, bool_decide (x.1 = m.1)) l || normalizeJSONNumbers m.2) && members l
       end) l
  | _ => true
  end.

Definition decodeJSONWithUint64 (encoded : bytes) : option jvalue :=
  if negb (utf8.Valid encoded) then None
  else match parse_text encoded with
       | Some (JObject l) => if normalizeJSONNumbers (JObject l) then Some (JObject l) else None
       | _ => None
       end.

Definition get_uint64 (name : string) (v : jvalue) : option Z :=
  match get name v with Some (JNumber w) => strconv.ParseUint w | _ => None end.
Definition get_bool (name : string) (v : jvalue) : option bool :=
  match get name v with Some (JBool b) => Some b | _ => None end.

Definition lower_hex (b : byte) : bool :=
  ((0x30 <=? b2z b) && (b2z b <=? 0x39)) || ((0x61 <=? b2z b) && (b2z b <=? 0x66)).
Definition isSHA256 (v : option jvalue) : bool :=
  match v with Some (JString s) => (len s =? 64) && forallb lower_hex s | _ => false end.

Definition archiveForensicManifestLimit : Z := 1024 * 1024.

Definition identity_valid (manifest : jvalue) (name : string) : result unit :=
  match get name manifest with
  | Some (JObject l) =>
      if isSHA256 (get "sha256" (JObject l)) && bool_decide (is_Some (get_uint64 "size" (JObject l))) then Ok ()
      else Err (PlainError (txt "aborted generation " ++ txt name ++ txt " identity is invalid"))
  | _ => Err (PlainError (txt "aborted generation " ++ txt name ++ txt " identity is invalid"))
  end.

Definition validateAbortedSuccessEvidence (manifestArtifact snapshotArtifact : result bytes) (generation : Z) (budget : Budget)
  : result unit :=
  let fail reason := Err (PlainError (txt reason)) in
  match readArchiveArtifact manifestArtifact archiveForensicManifestLimit with
  | Err _ => fail "aborted generation forensic manifest is malformed"
  | Ok manifestBytes =>
  match decodeJSONWithUint64 manifestBytes with
  | None => fail "aborted generation forensic manifest is malformed"
  | Some manifest =>
      if negb (bool_decide (get_uint64 "schema_version" manifest = Some 1)) then
        fail "aborted generation forensic manifest is malformed"
      else if negb (bool_decide (get_uint64 "generation" manifest = Some generation)) then
        fail "aborted generation forensic generation is incorrect"
      else if negb (bool_decide (get_bool "ready" manifest = Some true)) then
        fail "aborted generation forensic success is invalid"
      else if negb (bool_decide (get_bool "protocol_validated" manifest = Some true)) then
        fail "aborted generation forensic success is invalid"
      else match get_string "build_attempt_id" manifest with
      | None => fail "aborted generation build attempt ID is invalid"
      | Some attemptID =>
          if negb (strings.HasPrefix attemptID (bs "build-")) then fail "aborted generation build attempt ID is invalid"
          else match readArchiveArtifact snapshotArtifact (SnapshotLimit budget), get "source_snapshot" manifest with
          | Ok snapshot, Some (JObject source) =>
              if negb (len (last_members source) =? 2)
                 || negb (bool_decide (get_string "sha256" (JObject source) = Some (sha256_hex snapshot)))
                 || negb (bool_decide (get_uint64 "size" (JObject source) = Some (len snapshot))) then
                fail "aborted generation source identity is invalid"
              else match DecodeSourceSnapshotWithBudget snapshot budget with
              | Err _ => fail "aborted generation source identity is invalid"
              | Ok _ => _ ← identity_valid manifest "kernel"; identity_valid manifest "iso"
              end
          | _, _ => fail "aborted generation source identity is invalid"
          end
      end
  end end.

Definition validateAbortedSuccessEvidenceBytes (manifest snapshot : bytes) (generation : Z) (budget : Budget) : result unit :=
  validateAbortedSuccessEvidence (Ok manifest) (Ok snapshot) generation budget.
