(* ===== verification/LiveRun.v ===== *)
(** * Live runs (src/internal/experiment/live.go, live_lifecycle.go)

    The run object that owns a QEMU process: booting a generation, serving its
    tools, pausing it, and ending it by a finish or an abort, each of which
    publishes an archive and returns to the gate. The operations hold
    [operationMu] from beginning to end, so each is one step; the gate's own lock is
    taken in sections inside, and the only methods that could run between them
    ([RetainGenerationFinish] and [ReleaseGenerationFinish]) are refused by the
    [transitioning] flag or touch the lease alone.

    What QEMU, the guest, the file system, the bootstrap service and the evidence
    store answer are arguments of each operation. An event of the log is its name
    and generation. *)

From S2P Require Import Prelude GoStd Protocol SourceCapacity Snapshot ToolClient Json FeatureStore HostService ArchiveRecord RunGate.
From S2P Require Import JsonTree JsonCompact Hardware LiveArchive.
Open Scope Z_scope.

(** [errors.Join]: the messages, one per line. *)
Definition joinErrors (errs : list error) : option error :=
  match errs with
  | [] => None
  | err :: errs => Some (PlainError (fold_left (λ message e, message ++ [Lit [x0a]] ++ Error e) errs (Error err)))
  end.

(** A live generation is known by its workspace, a fresh directory of the run. *)
Record liveGeneration := mkLive {
  lvWorkspace : bytes;               (* the name of the directory *)
  lvBootISO : bytes;
  hostServices : CodexOSHostServices
}.

Record liveRun := mkLiveRun {
  lrRun : CodexOSRun;
  lrClosed : bool;
  lrStarted : bool;
  assetsReady : bool;
  lrGeneration : option liveGeneration;
  gateHarnessTransition : bool;              (* is there one to show at the gate? *)
  lrLog : list (string * option Z)
}.

Definition set_run r l :=
  mkLiveRun r (lrClosed l) (lrStarted l) (assetsReady l) (lrGeneration l) (gateHarnessTransition l) (lrLog l).
Definition set_closed c l :=
  mkLiveRun (lrRun l) c (lrStarted l) (assetsReady l) (lrGeneration l) (gateHarnessTransition l) (lrLog l).
Definition set_started s l :=
  mkLiveRun (lrRun l) (lrClosed l) s (assetsReady l) (lrGeneration l) (gateHarnessTransition l) (lrLog l).
Definition set_assets a l :=
  mkLiveRun (lrRun l) (lrClosed l) (lrStarted l) a (lrGeneration l) (gateHarnessTransition l) (lrLog l).
Definition installLiveGeneration g l :=
  mkLiveRun (lrRun l) (lrClosed l) (lrStarted l) (assetsReady l) g (gateHarnessTransition l) (lrLog l).
Definition set_gate_harness h l :=
  mkLiveRun (lrRun l) (lrClosed l) (lrStarted l) (assetsReady l) (lrGeneration l) h (lrLog l).
Definition recordLive event generation l :=
  mkLiveRun (lrRun l) (lrClosed l) (lrStarted l) (assetsReady l) (lrGeneration l) (gateHarnessTransition l)
    (lrLog l ++ [(event, generation)]).

Definition set_state (s : RuntimeState) (r : CodexOSRun) : CodexOSRun :=
  mkRun (activeOperatorRequests r) (sourceCapacity r) s (generationNumber r) (previousHandoff r) (currentOperatorFeedback r)
    (runPending r) (currentParent r) (currentTransition r) (currentBootImage r) (currentHardware r) (retainedFinish r) (transitioning r).

Definition detachExpectedLiveGeneration (expected : liveGeneration) (l : liveRun) : bool * liveRun :=
  match lrGeneration l with
  | Some g => if bool_decide (lvWorkspace g = lvWorkspace expected) then (true, installLiveGeneration None l) else (false, l)
  | None => (false, l)
  end.

(** ** Closing *)

(** What closing the parts of a generation gives: is the process running at the
    two tests, and the outcomes of stopping it, of closing the dispatcher (or the
    serial connection) and QMP, of stopping it again, and the health of the
    bootstrap service. A part that does not exist reports nothing. The last answer is
    that of the removal of the workspace after it. *)
Record closing := mkClosing {
  clRunning : bool;
  clStop : option error;
  clSerial : option error;
  clQMP : option error;
  clStopAgain : option error;
  clHealthy : option error;
  clRemoved : bool
}.

Definition closeLiveGeneration (c : closing) : option error :=
  joinErrors (omap id [if clRunning c then clStop c else None; clSerial c; clQMP c; clStopAgain c; clHealthy c]).

(** [os.RemoveAll] of a workspace, whose error is ignored: when it fails, the
    directory stays with what it still holds. *)
Definition removeAll (c : closing) (workspace : bytes) (d : rundir) : rundir :=
  if clRemoved c then mkRundir (delete workspace (entries d)) (feedback d) (capacityRecord d) else d.

Section Live.
Context (run : bytes) (quote : bytes → bytes) (IsPrint : Z → bool).
(** The configuration: hardware, whether a harness identity is recorded, and
    whether activities and provenance are. *)
Context (profile : HardwareProfile) (harness activity provenance log metric : bool).

Definition validManifest (m : HardwareManifest) : option error :=
  match ValidateHardwareManifest IsPrint m with Ok _ => None | Err err => Some err end.

(** ** Booting *)

Record booting := mkBooting {
  bKVM : option error;
  bVersionRan : option error; bVersionContext : option error; bVersionWritten : list bytes;
  bSuffix : result bytes;                 (* the random end of the workspace's name *)
  bCopy : option error;
  bValidator : option error;
  bBootstrap : option error; bRecover : option error;
  bFeatures : FeatureRequestStore; bAssets : option ProvidedAssets.ProvidedAssets;
  bAbsolute : option error; bMkdir : option error;
  bStart : option error; bQMP : option error; bSerial : option error; bDispatcher : option error;
  bReady : option error; bDiagnostic : bytes;
  bClosing : closing
}.

Definition workspaceName (number : Z) (suffix : bytes) : bytes := bs ".generation-" ++ padded 4 number ++ bs "-" ++ suffix.
Definition inWorkspace (workspace name : bytes) : bytes := run ++ bs "/" ++ workspace ++ bs "/" ++ name.

Definition check (outcome : option error) : result unit := match outcome with None => Ok () | Some err => Err err end.

(** The part of booting after the workspace exists. *)
Definition bootIn (b : booting) (capacity : Budget) (number : Z) (workspace : bytes) : result liveGeneration :=
  _ ← match bCopy b with
      | None => Ok ()
      | Some err => Err (runtime_wrap (txt "could not stage generation boot image") err)
      end;
  _ ← check (bValidator b);
  _ ← check (bBootstrap b);
  _ ← check (bRecover b);
  services ← NewCodexOSHostServices (mkBuildConfig true capacity activity (Some number) provenance) (Some (bFeatures b)) true log
               metric (bAssets b) (bAbsolute b) (bMkdir b);
  _ ← QEMUCommandArguments profile (inWorkspace workspace (bs "boot.iso")) (inWorkspace workspace (bs "qmp.sock"))
        (inWorkspace workspace (bs "serial.sock"));
  _ ← check (bStart b);
  _ ← check (bQMP b);
  _ ← check (bSerial b);
  _ ← check (bDispatcher b);
  _ ← match bReady b with
      | None => Ok ()
      | Some err =>
          if bool_decide (bDiagnostic b = []) then Err err
          else Err (PlainError (Error err ++ [Lit [x0a]] ++ txt "Guest serial before failure:" ++ [Lit [x0a]]
                                ++ [Lit (EscapeDiagnosticBytes (bDiagnostic b))]))
      end;
  Ok (mkLive workspace (inWorkspace workspace (bs "boot.iso")) services).

(** A failure closes what was started; the workspace stays when that fails. *)
Definition bootLiveGeneration (b : booting) (capacity : Budget) (number : Z) (d : rundir)
  : result (liveGeneration * HardwareManifest) * rundir :=
  match (_ ← match RequireAvailable (bKVM b) profile with
             | Ok _ => Ok ()
             | Err err => Err (runtime_wrap (txt "could not start QEMU") err)
             end;
         version ← DiscoverQEMUVersion IsPrint (bVersionRan b) (bVersionContext b) (bVersionWritten b);
         hardware ← Manifest IsPrint profile version;
         suffix ← match bSuffix b with
                  | Ok suffix => Ok suffix
                  | Err err => Err (runtime_wrap (txt "could not create generation workspace") err)
                  end;
         Ok (with_display hardware, suffix)) with
  | Err err => (Err err, d)
  | Ok (hardware, suffix) =>
      let workspace := workspaceName number suffix in
      let staged := mkRundir (<[workspace := OtherEntry]> (entries d)) (feedback d) (capacityRecord d) in
      match bootIn b capacity number workspace with
      | Ok generation => (Ok (generation, hardware), staged)
      | Err err =>
          match closeLiveGeneration (bClosing b) with
          | Some closeErr => (Err (default err (joinErrors [err; closeErr])), staged)
          | None => (Err err, removeAll (bClosing b) workspace staged)
          end
      end
  end.

(** A generation that booted but cannot be entered. *)
Definition discardBooted (err : error) (c : closing) (g : liveGeneration) (d : rundir) : error * rundir :=
  match closeLiveGeneration c with
  | Some closeErr => (default err (joinErrors [err; closeErr]), d)
  | None => (err, removeAll c (lvWorkspace g) d)
  end.

(** [configureLiveAssets]: its outcome, and whether a revision was accepted. *)
Definition configureLiveAssets (generation : Z) (outcome : result bool) (l : liveRun) : result unit * liveRun :=
  if assetsReady l then (Ok (), l)
  else match outcome with
  | Err err => (Err err, l)
  | Ok created =>
      let l := set_assets true l in
      (Ok (), if created : bool then recordLive "provided_assets_revision_accepted" (Some generation) l else l)
  end.

(** [recordHarnessGenerationStart]: with a harness identity the store first makes its
    directory in the run ([made]: is it there afterwards?) and then writes the record of
    the generation into it, once. *)
Record recording := mkRecording {
  made : bool;
  recorded : option error
}.

Definition harnessGenerationDirectory : bytes := bs "harness-generations".

Definition recordHarnessGenerationStart (h : recording) (d : rundir) : result unit * rundir :=
  if negb harness then (Ok (), d)
  else (check (recorded h),
        if made h && bool_decide (entries d !! harnessGenerationDirectory = None) then
          mkRundir (<[harnessGenerationDirectory := OtherEntry]> (entries d)) (feedback d) (capacityRecord d)
        else d).

Definition recordLiveGenerationStarted (number : Z) (l : liveRun) : liveRun :=
  let l := recordLive "generation_started" (Some number) l in
  if bool_decide (is_Some (currentOperatorFeedback (lrRun l))) then recordLive "operator_abort_feedback_attached" (Some number) l else l.

(** ** Starting *)

(** [verified]: checking the harness identity; [iso]: resolving the initial image;
    [imported]: checking it against an imported run; [handoff]: the handoff of that
    run; [started]: recording the start. *)
Definition Start (verified : option error) (iso : result bytes) (initialISO : bytes) (imported : option error) (handoff : option bytes)
  (assets : result bool) (b : booting) (started : recording) (c : closing) (d : rundir) (l : liveRun)
  : result unit * (liveRun * rundir) :=
  let r := lrRun l in
  let fail reason := (Err (runtime_error reason), (l, d)) in
  if lrClosed l then fail (txt "CodexOS run is closed")
  else if negb (bool_decide (state r = RuntimeStateStopped)) then fail (txt "CodexOS run is not stopped")
  else if bool_decide (is_Some (generationNumber r)) then fail (txt "CodexOS run has already been started")
  else match (if harness then check verified else Ok ()) with
  | Err err => (Err err, (l, d))
  | Ok _ =>
  match iso with
  | Err _ => fail (txt "initial ISO is unavailable: " ++ [Lit initialISO])
  | Ok _ =>
  match check imported with
  | Err err => (Err err, (l, d))
  | Ok _ =>
  let '(configured, l) := configureLiveAssets 0 assets l in
  match configured with
  | Err err => (Err err, (l, d))
  | Ok _ =>
  let '(booted, d) := bootLiveGeneration b (sourceCapacity r) 0 d in
  match booted with
  | Err err => (Err err, (l, d))
  | Ok (g, hardware) =>
  let '(start, d) := recordHarnessGenerationStart started d in
  match start with
  | Err err => let '(err, d) := discardBooted err c g d in (Err err, (l, d))
  | Ok _ =>
      let l := installLiveGeneration (Some g) l in
      let l := set_run (mkRun (activeOperatorRequests r) (sourceCapacity r) RuntimeStateRunning (Some 0)
                          (match handoff with Some h => Some h | None => previousHandoff r end) None (runPending r)
                          (currentParent r) (bs "initial") (lvBootISO g) hardware (retainedFinish r) (transitioning r)) l in
      let l := set_started true (recordLive "run_started" None l) in
      (Ok (), (recordLiveGenerationStarted 0 l, d))
  end end end end end end.

(** [ReopenAtGate] of a live run: [prepared] is the harness transition, if it is to
    be recorded, [recorded] the outcome of recording it. *)
Definition reopenLive (prepared : result bool) (assets : result bool) (recorded : option error) (d : rundir) (l : liveRun)
  : result unit * liveRun :=
  let r := lrRun l in
  let fail reason := (Err (runtime_error reason), l) in
  if lrClosed l then fail (txt "CodexOS run is closed")
  else if negb (bool_decide (state r = RuntimeStateStopped)) then fail (txt "CodexOS run is not stopped")
  else if bool_decide (is_Some (generationNumber r)) then fail (txt "CodexOS run has already been opened")
  else match gateLatest run d with
  | Err err => (Err err, l)
  | Ok latest =>
  match (if harness then prepared else Ok false) with
  | Err err => (Err err, l)
  | Ok transition =>
  let number := agGeneration latest in
  let '(configured, l) := configureLiveAssets (if number =? max_uint64 then number else wrap64 (number + 1)) assets l in
  match configured with
  | Err err => (Err err, l)
  | Ok _ =>
  match gateSuccessor d latest with
  | Err err => (Err err, l)
  | Ok pending =>
  match (if transition : bool then check recorded else Ok ()) with
  | Err err => (Err err, l)
  | Ok _ =>
      let l := if transition : bool then recordLive "harness_identity_transition_recorded" (Some number) l else l in
      let l := set_gate_harness transition l in
      let l := set_run (mkRun (activeOperatorRequests r) (sourceCapacity r) RuntimeStateAwaitingNextGeneration (Some number)
                          (pfHandoff <$> pending) None pending None [] [] noHardware (retainedFinish r) (transitioning r)) l in
      (Ok (), recordLive "run_reopened_at_gate" (Some number) (set_started true l))
  end end end end end.

(** ** The end of a generation *)

Definition atGate (pending : option PendingFinish) (handoff : option bytes) (retained : option Z) (r : CodexOSRun) : CodexOSRun :=
  mkRun (activeOperatorRequests r) (sourceCapacity r) RuntimeStateAwaitingNextGeneration (generationNumber r) handoff None pending None
    [] [] noHardware retained (transitioning r).

Definition stoppedRun (r : CodexOSRun) : CodexOSRun :=
  mkRun (activeOperatorRequests r) (sourceCapacity r) RuntimeStateStopped (generationNumber r) None None None None [] [] noHardware None false.

(** [cleanup]: close the generation first. *)
Definition failLiveGeneration (g : liveGeneration) (cleanup : option closing) (d : rundir) (l : liveRun)
  : option error * (liveRun * rundir) :=
  let stop l := set_gate_harness false (set_run (stoppedRun (lrRun l)) l) in
  match cleanup with
  | None => (None, (stop l, d))
  | Some c =>
      match closeLiveGeneration c with
      | Some err => (Some err, (l, d))
      | None => (None, (stop (detachExpectedLiveGeneration g l).2, removeAll c (lvWorkspace g) d))
      end
  end.

(** What ending a generation meets: recording its start, closing it, reading the
    successor's files, writing and publishing the archive. *)
Record ending := mkEnding {
  eStarted : recording;
  eClosing : closing;
  eRead : bytes → result bytes;
  eWritten : result unit;
  eFrozen : result bool;
  eFault : publishing
}.

Definition no_matching : error := runtime_error (txt "accepted generation finish has no matching validated successor").
Definition unavailable : error := runtime_error (txt "CodexOS generation state is unavailable").

Definition completeLiveGeneration (e : ending) (g : liveGeneration) (number : Z) (pending : PendingGenerationFinish)
  (validated : option StagedBuildArtifacts) (d : rundir) (l : liveRun) : result unit * (liveRun * rundir) :=
  let r := lrRun l in
  match validated with
  | None => (Err no_matching, (l, d))
  | Some validated =>
  if negb (bool_decide (pendingKernelELF pending = KernelELF validated)) || negb (bool_decide (pendingISO pending = ISO validated))
     || negb (bool_decide (PendingSnapshot pending = StagedSnapshot validated)) then (Err no_matching, (l, d))
  else if negb (bool_decide (state r = RuntimeStateRunning)) || negb (bool_decide (generationNumber r = Some number))
     || bool_decide (currentTransition r = []) || (SchemaVersion (currentHardware r) =? 0) then (Err unavailable, (l, d))
  else
  let '(start, d) := recordHarnessGenerationStart (eStarted e) d in
  match start with
  | Err err => (Err err, (l, d))
  | Ok _ =>
  if negb (bool_decide (lvWorkspace <$> lrGeneration l = Some (lvWorkspace g))) then
    (Err (runtime_error (txt "CodexOS live generation ownership changed")), (l, d))
  else match closeLiveGeneration (eClosing e) with
  | Some closeErr => (Err (runtime_wrap (txt "could not stop completed generation") closeErr), (l, d))
  | None =>
  let '(detached, l) := detachExpectedLiveGeneration g l in
  if negb detached then (Err (runtime_error (txt "CodexOS live generation ownership changed after shutdown")), (l, d))
  else
    let input := mkCompleted number (currentParent r) (currentTransition r) (currentHardware r) (HandoffMessage pending)
                   (PendingSnapshot pending) (pendingKernelELF pending) (pendingISO pending) (KernelIdentity validated)
                   (ISOIdentity validated) harness (sourceCapacity r) in
    let '(archived, es) := writeCompletedArchiveFiles run validManifest input (eRead e) (eWritten e) (eFrozen e) (eFault e) (entries d) in
    let d := removeAll (eClosing e) (lvWorkspace g) (mkRundir es (feedback d) (capacityRecord d)) in
    match archived with
    | Err err => (Err err, (failLiveGeneration g None d l).2)
    | Ok archive =>
        let pendingRun := mkPendingFinish (HandoffMessage pending) (PendingSnapshot pending) (successorKernel (ArchivePath archive))
                            (successorISO (ArchivePath archive)) in
        (Ok (), (recordLive "generation_completed" (Some number)
                   (set_run (atGate (Some pendingRun) (Some (HandoffMessage pending)) (retainedFinish r) r) l), d))
    end
  end end end.

Definition finishLiveIfRequested (e : ending) (g : liveGeneration) (number : Z) (d : rundir) (l : liveRun)
  : result unit * (liveRun * rundir) :=
  match pendingFinish (hostServices g) with
  | None => (Ok (), (l, d))
  | Some pending => completeLiveGeneration e g number pending (LatestSuccessfulBuild (Some (buildService (hostServices g)))) d l
  end.

(** ** Tools *)

Definition requireRunningLiveGeneration (l : liveRun) : result (liveGeneration * Z) :=
  match state (lrRun l), generationNumber (lrRun l) with
  | RuntimeStateRunning, Some number =>
      match lrGeneration l with
      | Some g => Ok (g, number)
      | None => Err (runtime_error (txt "CodexOS guest tool client is unavailable"))
      end
  | _, _ => Err (runtime_error (txt "CodexOS generation is not running"))
  end.

(** [exchange]: the guest's answer; [host]: the host services as the requests it
    made meanwhile left them. *)
Definition InvokeTool (name : bytes) (arguments : list bytes) (exchange : result ToolResult) (host : CodexOSHostServices) (e : ending)
  (d : rundir) (l : liveRun) : result ToolResult * (liveRun * rundir) :=
  match requireRunningLiveGeneration l with
  | Err err => (Err err, (l, d))
  | Ok (g, number) =>
      let send :=
        let l := recordLive "tool_guest_invocation_started" (Some number) l in
        let g := mkLive (lvWorkspace g) (lvBootISO g) host in
        let l := installLiveGeneration (Some g) l in
        match exchange with
        | Err err => (Err err, (recordLive "tool_guest_invocation_failed" (Some number) l, d))
        | Ok result =>
            let l := recordLive "tool_guest_invocation_completed" (Some number) l in
            let '(finished, ld) := finishLiveIfRequested e g number d l in
            (match finished with Err err => Err err | Ok _ => Ok result end, ld)
        end in
      match InvokeRequestPayloadSize name arguments with
      | Ok encodedBytes =>
          if V1GuestInvocationPayloadCapacity <? encodedBytes then
            (Ok (OversizedV1GuestInvocationResult encodedBytes),
             (recordLive "tool_invocation_rejected_before_dispatch" (Some number) l, d))
          else send
      | Err _ => send
      end
  end.

Definition ListTools (exchange : result (list bytes)) (host : CodexOSHostServices) (e : ending) (d : rundir) (l : liveRun)
  : result (list bytes) * (liveRun * rundir) :=
  match requireRunningLiveGeneration l with
  | Err err => (Err err, (l, d))
  | Ok (g, number) =>
      let l := recordLive "tool_guest_invocation_started" (Some number) l in
      let g := mkLive (lvWorkspace g) (lvBootISO g) host in
      let l := installLiveGeneration (Some g) l in
      match exchange with
      | Err err => (Err err, (recordLive "tool_guest_invocation_failed" (Some number) l, d))
      | Ok tools =>
          let l := recordLive "tool_guest_invocation_completed" (Some number) l in
          let '(finished, ld) := finishLiveIfRequested e g number d l in
          (match finished with Err err => Err err | Ok _ => Ok tools end, ld)
      end
  end.

(** [captured]: the snapshot read through the guest's tools, or why it could not be. *)
Definition CaptureReviewSource (captured : result SourceSnapshot) (host : CodexOSHostServices) (l : liveRun) : result bytes * liveRun :=
  match requireRunningLiveGeneration l with
  | Err err => (Err err, l)
  | Ok (g, number) =>
      let l := installLiveGeneration (Some (mkLive (lvWorkspace g) (lvBootISO g) host)) l in
      match captured with
      | Err err => (Err err, recordLive "review_source_snapshot_failed" (Some number) l)
      | Ok snapshot => (Ok (Snapshot_Bytes snapshot), recordLive "review_source_snapshot_captured" (Some number) l)
      end
  end.

(** ** Pausing *)

Definition Pause (stopped : option error) (status : result bytes) (l : liveRun) : result unit * liveRun :=
  match requireRunningLiveGeneration l with
  | Err err => (Err err, l)
  | Ok (_, number) =>
      match stopped with
      | Some err => (Err err, l)
      | None =>
          let l := set_run (set_state RuntimeStatePaused (lrRun l)) l in
          match status with
          | Err err => (Err err, l)
          | Ok status =>
              if negb (bool_decide (status = bs "paused")) then
                (Err (runtime_error (txt "QEMU did not pause; status is " ++ [Quoted status])), l)
              else (Ok (), recordLive "generation_paused" (Some number) l)
          end
      end
  end.

Definition Resume (continued : option error) (status : result bytes) (l : liveRun) : result unit * liveRun :=
  match state (lrRun l), generationNumber (lrRun l) with
  | RuntimeStatePaused, Some number =>
      match lrGeneration l with
      | None => (Err (runtime_error (txt "CodexOS QMP connection is unavailable")), l)
      | Some _ =>
          match continued, status with
          | Some err, _ => (Err err, l)
          | None, Err err => (Err err, l)
          | None, Ok status =>
              if negb (bool_decide (status = bs "running")) then
                (Err (runtime_error (txt "QEMU did not resume; status is " ++ [Quoted status])), l)
              else (Ok (), recordLive "generation_resumed" (Some number) (set_run (set_state RuntimeStateRunning (lrRun l)) l))
          end
      end
  | _, _ => (Err (runtime_error (txt "CodexOS generation is not paused")), l)
  end.

(** ** The next generation *)

Definition set_transitioning (t : bool) (l : liveRun) : liveRun :=
  let r := lrRun l in
  set_run (mkRun (activeOperatorRequests r) (sourceCapacity r) (state r) (generationNumber r) (previousHandoff r)
             (currentOperatorFeedback r) (runPending r) (currentParent r) (currentTransition r) (currentBootImage r)
             (currentHardware r) (retainedFinish r) t) l.
Definition clearLiveTransition : liveRun → liveRun := set_transitioning false.

(** What booting the next generation meets: the boot, recording its start,
    attaching the feedback, and closing it when one of these fails. *)
Record entering := mkEntering {
  nBoot : booting;
  nStarted : recording;
  nFeedback : fault;
  nClosing : closing
}.

(** The common part of continuing and forking, from the boot on. *)
Definition enterLiveGeneration (n : entering) (next parent : Z) (transition handoff : bytes) (events : list string) (d : rundir)
  (l : liveRun) : result unit * (liveRun * rundir) :=
  let r := lrRun l in
  let '(booted, d) := bootLiveGeneration (nBoot n) (sourceCapacity r) next d in
  match booted with
  | Err err => (Err err, (clearLiveTransition l, d))
  | Ok (g, hardware) =>
  let discard err d :=
    let '(err, d) := discardBooted err (nClosing n) g d in (Err err, (clearLiveTransition l, d)) in
  let '(start, d) := recordHarnessGenerationStart (nStarted n) d in
  match start with
  | Err err => discard err d
  | Ok _ =>
  let '(attached, fb) := attachOperatorFeedback run (entries d) next (nFeedback n) (feedback d) in
  let d := mkRundir (entries d) fb (capacityRecord d) in
  match attached with
  | Err err => discard err d
  | Ok attached =>
      let l := set_gate_harness false (installLiveGeneration (Some g) l) in
      let l := set_run (mkRun (activeOperatorRequests r) (sourceCapacity r) RuntimeStateRunning (Some next) (Some handoff) attached None
                          (Some parent) transition (lvBootISO g) hardware (retainedFinish r) false) l in
      (Ok (), (recordLiveGenerationStarted next (fold_left (λ l event, recordLive event (Some next) l) events l), d))
  end end end.

Section Files.
Context (isRegularWithoutSymlink : bytes → bool).

Definition continueLiveGeneration (n : entering) (d : rundir) (l : liveRun) : result unit * (liveRun * rundir) :=
  let r := lrRun l in
  let fail reason := (Err (runtime_error reason), (l, d)) in
  if transitioning r then fail (txt "CodexOS generation transition is already active")
  else if bool_decide (is_Some (retainedFinish r)) then fail (txt "completed generation is retained for an exit interview")
  else if negb (bool_decide (state r = RuntimeStateAwaitingNextGeneration)) then
    fail (txt "CodexOS run is not awaiting a generation")
  else match runPending r, generationNumber r with
  | Some pending, Some parent =>
      if parent =? max_uint64 then fail (txt "generation number space is exhausted")
      else match ParseSourceSnapshotWithBudget (pfSnapshot pending) (sourceCapacity r) with
      | Err err => (Err err, (l, d))
      | Ok _ =>
          let l := set_transitioning true l in
          if negb (isRegularWithoutSymlink (pfISO pending)) then
            (Err (runtime_error (txt "selected successor artifact is missing: " ++ [Lit (pfISO pending)])), (clearLiveTransition l, d))
          else enterLiveGeneration n (wrap64 (parent + 1)) parent (bs "successor") (pfHandoff pending) [] d l
      end
  | _, _ => fail (txt "CodexOS run has no selected successor")
  end.

Definition forkLiveGeneration (forkParent : Z) (n : entering) (d : rundir) (l : liveRun) : result unit * (liveRun * rundir) :=
  let r := lrRun l in
  let fail reason := (Err (runtime_error reason), (l, d)) in
  if transitioning r then fail (txt "CodexOS generation transition is already active")
  else if bool_decide (is_Some (retainedFinish r)) then fail (txt "completed generation is retained for an exit interview")
  else if negb (bool_decide (state r = RuntimeStateAwaitingNextGeneration)) then
    fail (txt "CodexOS run is not awaiting a generation")
  else match generationNumber r with
  | None => fail (txt "CodexOS generation number is unavailable")
  | Some current =>
      if current <=? forkParent then fail (txt "fork parent must be an earlier generation")
      else if current =? max_uint64 then fail (txt "generation number space is exhausted")
      else
        let l := set_transitioning true l in
        let refuse err := (Err err, (clearLiveTransition l, d)) in
        match InspectGeneration run (entries d) forkParent with
        | Err err => refuse err
        | Ok archived =>
            match bool_decide (Outcome archived = bs "completed"), Handoff archived with
            | true, Some handoff =>
                match validateInheritedSource d archived (sourceCapacity r) with
                | Err err => refuse err
                | Ok _ =>
                    let image := successorISO (ArchivePath archived) in
                    if negb (isRegularWithoutSymlink image) then
                      refuse (runtime_error (txt "generation archive artifact is missing: " ++ [Lit image]))
                    else enterLiveGeneration n (wrap64 (current + 1)) forkParent (bs "rollback") handoff
                           ["generation_rollback_started"%string] d l
                end
            | _, _ => refuse (runtime_error (txt "aborted generation cannot be a rollback parent"))
            end
        end
  end.
End Files.

(** ** Aborting *)

Definition joined (err : error) (other : option error) : error :=
  match other with None => err | Some other => default err (joinErrors [err; other]) end.

(** [manifest]: what the evidence of the latest success answers when asked for
    its manifest. *)
Definition abortLiveGeneration (reason : bytes) (manifest : result jvalue) (e : ending) (d : rundir) (l : liveRun)
  : result unit * (liveRun * rundir) :=
  let r := lrRun l in
  let fail err := (Err err, (l, d)) in
  match ValidateAbortReason reason with
  | Err err => fail err
  | Ok _ =>
  if negb (bool_decide (state r = RuntimeStateRunning)) && negb (bool_decide (state r = RuntimeStatePaused)) then
    fail (runtime_error (txt "CodexOS generation cannot be aborted"))
  else match generationNumber r with
  | None => fail unavailable
  | Some number =>
  if bool_decide (currentTransition r = []) || (SchemaVersion (currentHardware r) =? 0) then fail unavailable
  else
  let '(start, d) := recordHarnessGenerationStart (eStarted e) d in
  let fail err := (Err err, (l, d)) in
  match start with
  | Err err => fail err
  | Ok _ =>
  match lrGeneration l with
  | None => fail (runtime_error (txt "CodexOS live generation is unavailable"))
  | Some g =>
  match (match LatestSuccessfulBuild (Some (buildService (hostServices g))) with
         | Some successful =>
             match Evidence successful with
             | Some _ =>
                 manifest ← manifest;
                 Ok (Some (validateAbortedSuccessEvidenceBytes (MarshalIndent (sortKeys manifest) ++ [x0a]) (StagedSnapshot successful)
                             number (sourceCapacity r)))
             | None => Ok None
             end
         | None => Ok None
         end) with
  | Err err => let '(cleanup, ld) := failLiveGeneration g (Some (eClosing e)) d l in (Err (joined err cleanup), ld)
  | Ok latest =>
  match closeLiveGeneration (eClosing e) with
  | Some closeErr => fail (runtime_wrap (txt "could not stop aborted generation") closeErr)
  | None =>
  let '(detached, l) := detachExpectedLiveGeneration g l in
  if negb detached then (Err (runtime_error (txt "CodexOS live generation ownership changed after shutdown")), (l, d))
  else
    let input := mkAborted number (currentParent r) (currentTransition r) (currentHardware r) reason (sourceCapacity r) latest harness in
    let '(archived, es) := WriteAbortedArchive run validManifest input (eWritten e) (eFrozen e) (eFault e) (entries d) in
    let d := removeAll (eClosing e) (lvWorkspace g) (mkRundir es (feedback d) (capacityRecord d)) in
    match archived with
    | Err err => (Err err, (failLiveGeneration g None d l).2)
    | Ok _ => (Ok (), (recordLive "generation_aborted" (Some number) (set_run (atGate None None None r) l), d))
    end
  end end end end end end.

(** ** Capacity, feature decisions, stopping *)

Definition setLiveCapacity (budget : Budget) (save : fault) (d : rundir) (l : liveRun) : result unit * (liveRun * rundir) :=
  match Budget_Validate budget with
  | Err err => (Err err, (l, d))
  | Ok _ =>
      if lrClosed l || bool_decide (is_Some (lrGeneration l)) then
        (Err (runtime_error (txt "source capacity requires an inactive generation gate")), (l, d))
      else
        let '(outcome, (r, d)) := RunGate.SetSourceCapacity run budget save d (lrRun l) in
        let l := set_run r l in
        (outcome, (match outcome with Ok _ => recordLive "source_capacity_provisioned" (generationNumber r) l | Err _ => l end, d))
  end.

(** [decideFeatureRequest]: the decision on the store, and what is logged. *)
Definition decideFeatureRequest (id : Z) (approve : bool) (note : bytes) (f : recordFault) (s : FeatureRequestStore) (l : liveRun)
  : result FeatureRequest * (FeatureRequestStore * liveRun) :=
  let r := lrRun l in
  let refused := (Err (runtime_error (txt "feature requests may be decided only while awaiting a generation")), (s, l)) in
  if negb (bool_decide (state r = RuntimeStateAwaitingNextGeneration)) || transitioning r then refused
  else match generationNumber r with
  | None => refused
  | Some generation =>
      let '(decided, s) := if approve then Approve id note f s else Deny id note f s in
      match decided with
      | Err err => (Err err, (s, l))
      | Ok request =>
          let l := recordLive (if approve then "feature_approved" else "feature_denied") (Some generation) l in
          (Ok request, ((Requests s).2, l))
      end
  end.

Definition stopLive (c : closing) (d : rundir) (l : liveRun) : option error * (liveRun * rundir) :=
  let l := set_closed true l in
  let '(err, (l, d)) :=
    match lrGeneration l with
    | None => (None, (l, d))
    | Some g =>
        match closeLiveGeneration c with
        | Some err => (Some err, (l, d))
        | None => (None, ((detachExpectedLiveGeneration g l).2, removeAll c (lvWorkspace g) d))
        end
    end in
  match err with
  | Some err => (Some err, (l, d))
  | None => (None, (if lrStarted l then set_started false (recordLive "run_stopped" None l) else l, d))
  end.

Definition Close (c : closing) (d : rundir) (l : liveRun) : option error * (liveRun * rundir) :=
  let '(err, (l, d)) := stopLive c d l in
  match err with
  | Some err => (Some err, (l, d))
  | None => (None, (set_run (clearStoppedState (lrRun l)) l, d))
  end.

(** [NewLiveCodexOSRun]; [profile] is the given one or the default, [features],
    [imported] and [requests] the outcomes of opening the feature store, loading the
    cross-run record and listing the requests, [identity] that of checking the
    harness identity. *)
Definition NewLiveCodexOSRun (readyTimeout candidateTimeout : Z) (resolved : option error) (ledger : result Z)
  (features imported identity requests : option error) (d : rundir) : result liveRun :=
  _ ← Hardware.Validate profile;
  if readyTimeout <? 0 then Err (runtime_error (txt "generation readiness timeout must not be negative"))
  else if candidateTimeout <? 0 then Err (runtime_error (txt "candidate readiness timeout must not be negative"))
  else
    r ← NewCodexOSRun resolved ledger d;
    _ ← check features;
    _ ← check imported;
    _ ← (if harness then check identity else Ok ());
    _ ← check requests;
    Ok (mkLiveRun r false false false None false []).
End Live.
