(* ===== verification/LiveRunProofs.v ===== *)
(** * The history of a live run

    Whatever sequence of live operations runs, with QEMU, the guest and the file
    system failing anywhere, the archives stay loadable and valid and only grow;
    the gate a live run stands at is the one a new run object would open; a
    completed generation archives exactly the successor that was proven; and a boot
    that fails leaves the gate as it was, but for what could not be removed. *)

From S2P Require Import Prelude GoStd Sha256 Protocol SourceCapacity Snapshot Json FeatureStore FeatureProofs HostService ArchiveRecord.
From S2P Require Import RunGate RunGateProofs JsonTree JsonCompact Hardware HardwareProofs LiveArchive LiveRun.
Open Scope Z_scope.

(** ** The workspaces and the harness records are no archives *)

Lemma hidden_workspace number suffix : hidden (workspaceName number suffix).
Proof. reflexivity. Qed.

Lemma removeAll_same c name d : hidden name → same_archives (entries d) (entries (removeAll c name d)).
Proof. intros Hh. unfold removeAll. destruct (clRemoved c); [by apply same_delete|done]. Qed.

Lemma record_same harness h d : same_archives (entries d) (entries (recordHarnessGenerationStart harness h d).2).
Proof.
  unfold recordHarnessGenerationStart. destruct (negb harness); [done|]. cbn [snd]. destruct (_ && _); [|done]. by apply same_insert.
Qed.

Section Archives.
Context (run : bytes).

(** ** A completed archive reads back *)

Definition completed_archive (input : CompletedArchive) : ArchivedGeneration :=
  mkArchived (cpGeneration input) (cpParent input) (cpTransition input) (bs "completed") (archivePath run (cpGeneration input))
    (Some (cpHandoff input)) None (cpHardware input) (savedCapacity (cpCapacity input)).

Lemma completed_names input kernel image refs base :
  validateArchiveNames (dirNames (completedDirectory input kernel image refs))
    ([archiveBootName; archiveMetadataName; hardwareManifestName; handoffName; sourceSnapshotName; sourceName;
      successorName; stdoutName; stderrName]
     ++ optional (negb (cpCapacity input =? 0)) capacityFilename ++ optional (cpHarness input) GenerationHarnessFilename
     ++ optional refs ReferencesFilename) base = Ok ().
Proof.
  unfold completedDirectory. cbn [dirNames]. by destruct (negb (cpCapacity input =? 0)), (cpHarness input), refs; vm_compute.
Qed.

Lemma Bytes_saved c : Bytes (savedCapacity c) = Bytes c.
Proof.
  unfold savedCapacity. destruct (Z.eqb_spec c 0) as [->|Hn]; [done|]. unfold Bytes at 1.
  by rewrite (proj2 (Z.eqb_neq _ _) (Bytes_nonzero _ Hn)).
Qed.

Lemma decode_iff snapshot c :
  is_ok (DecodeSourceSnapshotWithBudget snapshot c) = true ↔ ∃ fs, valid_files fs c ∧ snapshot = snapshot_wire fs.
Proof.
  unfold DecodeSourceSnapshotWithBudget. destruct (ParseSourceSnapshotWithBudget snapshot c) as [s|] eqn:E.
  - split; [|done]. intros _. apply ParseSourceSnapshotWithBudget_Ok in E as (Hv & Hd & _). by exists (files s).
  - split; [done|]. intros (fs & Hv & Hd).
    rewrite (proj2 (ParseSourceSnapshotWithBudget_Ok snapshot c (sourceSnapshot snapshot fs))) in E; done.
Qed.

Lemma decode_saved snapshot c :
  is_ok (DecodeSourceSnapshotWithBudget snapshot c) = true →
  is_ok (DecodeSourceSnapshotWithBudget snapshot (savedCapacity c)) = true ∧ len snapshot ≤ SnapshotLimit (savedCapacity c).
Proof.
  intros (fs & (Hb & Hn & Hp & Hd & Ht) & ->)%decode_iff.
  assert (Hv : valid_files fs (savedCapacity c)) by (unfold valid_files, budget_ok in *; by rewrite Bytes_saved).
  split; [by apply decode_iff; exists fs|]. etransitivity; [apply snapshot_wire_bound|].
  - eapply Forall_impl; [exact Hp|]. intros f Hf. apply ValidateSourcePath_lengths in Hf. lia.
  - unfold SnapshotLimit. rewrite Bytes_saved. unfold FramingOverhead, maxSnapshotFiles in *. lia.
Qed.

Lemma published_completed_reads input kernel image refs es :
  u64 (cpGeneration input) → (∀ p, cpParent input = Some p → u64 p) →
  lineage_ok (cpGeneration input) (cpParent input) (cpTransition input) = true →
  len (cpHandoff input) ≤ archiveHandoffLimit → utf8.Valid (cpHandoff input) = true →
  is_ok (DecodeSourceSnapshotWithBudget (cpSnapshot input) (cpCapacity input)) = true →
  readArchivedGeneration run (<[generationName (cpGeneration input) := ArchiveEntry (completedDirectory input kernel image refs)]> es)
    (cpGeneration input) = Ok (completed_archive input).
Proof.
  intros Hg Hp Hl Hh Hu Hs. apply decode_saved in Hs as [Hs Hlen].
  unfold readArchivedGeneration. rewrite lookup_insert_eq.
  pose proof (λ base, completed_names input kernel image refs base) as Hnames.
  set (d := completedDirectory input kernel image refs) in *.
  change (dirBootstrap d) with (@Ok bool refs). change (dirCapacity d) with (@Ok Z (savedCapacity (cpCapacity input))).
  change (dirMetadata d) with (@Ok bytes (archiveMetadata (cpGeneration input) (bs "completed") (cpParent input) (cpTransition input))).
  change (dirHardware d) with (@Ok HardwareManifest (cpHardware input)). change (dirArtifacts d) with (@None error).
  change (dirHarness d) with (@Ok bool (cpHarness input)). unfold readArchiveArtifact at 1. cbn [mbind result_bind].
  pose proof (metadata_short (cpGeneration input) (bs "completed") (cpParent input) (cpTransition input) (or_introl eq_refl) Hl) as Hm.
  rewrite (proj2 (Z.ltb_ge _ _) Hm). cbn [mbind result_bind]. rewrite metadata_roundtrip by (done || by left).
  cbn [mbind result_bind mdOutcome mdParent mdTransition]. rewrite bool_decide_eq_true_2 by done.
  unfold readCompleted. change (dirCompleted d) with (@None error). change (dirHandoff d) with (@Ok bytes (cpHandoff input)).
  change (dirSnapshot d) with (@Ok bytes (cpSnapshot input)). unfold readArchiveArtifact. cbn [mbind result_bind].
  rewrite (proj2 (Z.ltb_ge _ _) Hh), Hu. cbn [mbind result_bind]. rewrite (proj2 (Z.ltb_ge _ _) Hlen). cbn [mbind result_bind].
  destruct (DecodeSourceSnapshotWithBudget _ _); [|done]. cbn [mbind result_bind]. rewrite savedCapacity_zero, Hnames. done.
Qed.

End Archives.

(** ** The invariant *)

Definition history (archives : list ArchivedGeneration) : Prop := archives = [] ∨ valid_history archives.

(** How the running generation was entered, when it is the next to be archived. *)
Definition entered (archives : list ArchivedGeneration) (r : CodexOSRun) : Prop :=
  archives = [] ∧ currentParent r = None ∧ currentTransition r = bs "initial"
  ∨ ∃ (p : nat) parent, currentParent r = Some (Z.of_nat p) ∧ archives !! p = Some parent ∧ Outcome parent = bs "completed"
      ∧ (currentTransition r = bs "successor" ∧ S p = length archives
         ∨ currentTransition r = bs "rollback" ∧ (S p < length archives)%nat).

Definition inside (archives : list ArchivedGeneration) (r : CodexOSRun) : Prop :=
  ∃ n : nat, generationNumber r = Some (Z.of_nat n) ∧ u64 (Z.of_nat n) ∧ (n ≤ length archives)%nat
    ∧ (n = length archives → entered archives r).

(** Where the run stands: at the gate the directory determines, or in a
    generation that is not archived yet (or cannot be). *)
Definition position (archives : list ArchivedGeneration) (d : rundir) (r : CodexOSRun) : Prop :=
  match state r with
  | RuntimeStateAwaitingNextGeneration =>
      ∃ latest, last archives = Some latest ∧ generationNumber r = Some (agGeneration latest)
        ∧ gateSuccessor d latest = Ok (runPending r) ∧ previousHandoff r = pfHandoff <$> runPending r
  | RuntimeStateRunning | RuntimeStatePaused => inside archives r
  | RuntimeStateStopped => currentParent r = None
  end.

Definition served (capacity : Budget) (g : liveGeneration) : Prop :=
  hidden (lvWorkspace g) ∧ ∃ history, session_inv capacity history (hostServices g).

Lemma session_inv_more quote capacity history history' s s' :
  session_inv capacity history s → session quote s history' s' → session_inv capacity (history ++ history') s'.
Proof.
  intros H Hs. induction Hs as [|history' s' ports request _ IH]; [by rewrite app_nil_r|]. rewrite app_assoc.
  by apply session_inv_step.
Qed.

Lemma gateSuccessor_same d d' latest : same_archives (entries d) (entries d') → gateSuccessor d latest = gateSuccessor d' latest.
Proof.
  intros H. unfold gateSuccessor, archivedSnapshot. by rewrite (H _ (generationName_prefix (agGeneration latest))).
Qed.

Lemma position_same archives d d' r : same_archives (entries d) (entries d') → position archives d r → position archives d' r.
Proof.
  intros H. unfold position. destruct (state r); [done..|]. intros (latest & ?). exists latest. by rewrite <- (gateSuccessor_same d d').
Qed.

Lemma position_fields archives d r r' :
  state r' = state r → generationNumber r' = generationNumber r → previousHandoff r' = previousHandoff r → runPending r' = runPending r →
  currentParent r' = currentParent r → currentTransition r' = currentTransition r → position archives d r → position archives d r'.
Proof. unfold position, inside, entered. intros -> -> -> -> -> ->. done. Qed.

Lemma history_snoc archives a (r : CodexOSRun) :
  history archives → agGeneration a = Z.of_nat (length archives) → entered archives r →
  ParentGeneration a = currentParent r → Transition a = currentTransition r → valid_history (archives ++ [a]).
Proof.
  intros Hh Hn He Hp Ht. destruct He as [(-> & _)|(p & parent & E1 & E2 & E3 & E4)].
  - split_and!; [done| |]; intros [|i] x E; [|done..]. cbn in E. injection E as <-. rewrite Hn. done.
  - apply valid_history_snoc; [|done|].
    + destruct Hh as [->|]; done.
    + exists p, parent. rewrite Hp, Ht. split_and!; [done..| |]; intros E;
        destruct E4 as [[Et ?]|[Et ?]]; rewrite Et in E; (lia || discriminate E).
Qed.

Section Live.
Context (run : bytes) (quote : bytes → bytes) (IsPrint : Z → bool).
Context (profile : HardwareProfile) (harness activity provenance log metric : bool).

Definition live_inv (archives : list ArchivedGeneration) (ld : liveRun * rundir) : Prop :=
  LoadArchivedGenerations run (entries ld.2) = Ok archives ∧ history archives ∧ position archives ld.2 (lrRun ld.1)
  ∧ ∀ g, lrGeneration ld.1 = Some g → served (sourceCapacity (lrRun ld.1)) g.

Lemma inv_dir archives l d d' : same_archives (entries d) (entries d') → live_inv archives (l, d) → live_inv archives (l, d').
Proof. intros Hs (Hl & Hh & Hp & Hg). split_and!; [by eapply load_same|done|by eapply position_same|done]. Qed.

(** Only the run object and the live generation matter. *)
Lemma inv_run archives l l' d :
  lrRun l' = lrRun l → lrGeneration l' = lrGeneration l → live_inv archives (l, d) → live_inv archives (l', d).
Proof. intros Er Eg (Hl & Hh & Hp & Hg). unfold live_inv. cbn [fst snd]. by rewrite Er, Eg. Qed.

Lemma inv_detach archives l d g :
  live_inv archives (l, d) → live_inv archives ((detachExpectedLiveGeneration g l).2, d).
Proof.
  intros (Hl & Hh & Hp & Hg). unfold detachExpectedLiveGeneration. destruct (lrGeneration l); [|done].
  case_bool_decide; [|done]. by split_and!.
Qed.

(** The run stops: nothing but the directory is left to keep. *)
Lemma inv_stop archives l l' d :
  live_inv archives (l, d) → state (lrRun l') = RuntimeStateStopped → currentParent (lrRun l') = None →
  sourceCapacity (lrRun l') = sourceCapacity (lrRun l) → lrGeneration l' = None ∨ lrGeneration l' = lrGeneration l →
  live_inv archives (l', d).
Proof.
  intros (Hl & Hh & Hp & Hg) Hs Hc Ec Eg. split_and!; [done|done| |]; cbn [fst snd] in *.
  - unfold position. by rewrite Hs.
  - intros g E. rewrite Ec. apply Hg. destruct Eg as [Eg|Eg]; congruence.
Qed.

(** *** Booting *)

Lemma bootIn_served b capacity number workspace g :
  hidden workspace → bootIn run profile activity provenance log metric b capacity number workspace = Ok g →
  served capacity g ∧ lvWorkspace g = workspace.
Proof.
  intros Hh E. unfold bootIn in E. do 4 (apply bind_Ok in E as (? & _ & E)).
  apply bind_Ok in E as (services & Hs & E). do 6 (apply bind_Ok in E as (? & _ & E)). injection E as <-.
  split; [|done]. split; [done|]. exists []. exact (new_services_inv _ _ _ _ _ _ _ _ _ Hs).
Qed.

Lemma boot_spec b capacity number d res d' :
  bootLiveGeneration run IsPrint profile activity provenance log metric b capacity number d = (res, d') →
  same_archives (entries d) (entries d') ∧ feedback d' = feedback d
  ∧ (∀ g hardware, res = Ok (g, hardware) → served capacity g).
Proof.
  unfold bootLiveGeneration. destruct (_ ≫= _) as [[hardware suffix]|]; [|by intros [= <- <-]].
  pose proof (hidden_workspace number suffix) as Hh. destruct (bootIn _ _ _ _ _ _ _ _ _ _) as [g|] eqn:Eb.
  - intros [= <- <-]. split_and!; [by apply same_insert|done|]. intros ? ? [= <- _]. by eapply bootIn_served.
  - destruct (closeLiveGeneration _); intros [= <- <-]; (split_and!; [|unfold removeAll; by try destruct (clRemoved _)|done]); cbn [entries].
    + by apply same_insert.
    + etransitivity; [by apply same_insert|by apply (removeAll_same _ _ (mkRundir _ _ _))].
Qed.

Lemma discard_same err c g d err' d' :
  hidden (lvWorkspace g) → discardBooted err c g d = (err', d') → same_archives (entries d) (entries d').
Proof.
  intros Hh. unfold discardBooted. destruct (closeLiveGeneration c); intros [= _ <-]; [done|]. by apply removeAll_same.
Qed.

Lemma configure_run generation outcome l res l' :
  configureLiveAssets generation outcome l = (res, l') → lrRun l' = lrRun l ∧ lrGeneration l' = lrGeneration l.
Proof.
  unfold configureLiveAssets. destruct (assetsReady l); [by intros [= <- <-]|]. destruct outcome as [[]|]; by intros [= <- <-].
Qed.

Lemma record_inv h archives d l : live_inv archives (l, d) → live_inv archives (l, (recordHarnessGenerationStart harness h d).2).
Proof. intros Hinv. eapply inv_dir; [apply record_same|exact Hinv]. Qed.

Lemma started_run number l : lrRun (recordLiveGenerationStarted number l) = lrRun l.
Proof. unfold recordLiveGenerationStarted. by case_bool_decide. Qed.
Lemma started_generation number l : lrGeneration (recordLiveGenerationStarted number l) = lrGeneration l.
Proof. unfold recordLiveGenerationStarted. by case_bool_decide. Qed.

Lemma Start_inv verified iso initialISO imported handoff assets b started c archives d l :
  live_inv archives (l, d) →
  live_inv archives (Start run IsPrint profile harness activity provenance log metric verified iso initialISO imported handoff
                       assets b started c d l).2.
Proof.
  intros Hinv. unfold Start. destruct (lrClosed l); [done|].
  case_bool_decide as Hs; cbn [negb]; [|done]. case_bool_decide as Hn; [done|]. destruct (if harness then _ else _); [|done].
  destruct iso; [|done]. destruct (check imported); [|done].
  destruct (configureLiveAssets 0 assets l) as [configured l1] eqn:Ec. destruct (configure_run _ _ _ _ _ Ec) as [Er Eg].
  assert (H1 : live_inv archives (l1, d)) by (by eapply inv_run). destruct configured; [|done].
  destruct (bootLiveGeneration _ _ _ _ _ _ _ _ _ _ _) as [booted d1] eqn:Eb.
  destruct (boot_spec _ _ _ _ _ _ Eb) as (Hsame & _ & Hserved).
  assert (H2 : live_inv archives (l1, d1)) by (by eapply inv_dir). destruct booted as [[g hardware]|]; [|done].
  specialize (Hserved g hardware eq_refl). apply (record_inv started) in H2.
  destruct (recordHarnessGenerationStart harness started d1) as [[|] d3]; cbn [snd] in H2.
  - pose proof H2 as (Hl & Hh & Hp & _). cbn [fst snd] in Hl, Hp. rewrite Er in Hp. unfold position in Hp. rewrite Hs in Hp.
    cbn [snd]. split_and!; cbn [fst snd]; [done|done| |].
    + rewrite started_run. cbn. exists 0%nat. split_and!; [done|done|lia|]. intros E0. left. split_and!; [|done|done].
      by apply nil_length_inv.
    + rewrite started_generation, started_run. cbn. by intros ? [= <-].
  - destruct (discardBooted _ _ _ _) as [err d2] eqn:Ed. eapply inv_dir; [|exact H2]. eapply discard_same; [|exact Ed]. apply Hserved.
Qed.

Lemma reopenLive_inv prepared assets recorded archives d l :
  live_inv archives (l, d) → live_inv archives ((reopenLive run harness prepared assets recorded d l).2, d).
Proof.
  intros Hinv. unfold reopenLive. destruct (lrClosed l); [done|].
  case_bool_decide as Hs; cbn [negb]; [|done]. case_bool_decide as Hn; [done|].
  destruct (gateLatest run d) as [latest|] eqn:El; [|done]. destruct (if harness then _ else _) as [transition|]; [|done].
  destruct (configureLiveAssets _ assets l) as [configured l1] eqn:Ec. destruct (configure_run _ _ _ _ _ Ec) as [Er Eg].
  assert (H1 : live_inv archives (l1, d)) by (by eapply inv_run). destruct configured; [|done].
  destruct (gateSuccessor d latest) as [pending|] eqn:Ep; [|done]. destruct (if transition then _ else _); [|done].
  destruct H1 as (Hl & Hh & _ & Hserved). destruct (gateLatest_last run archives d latest Hl El) as (Ha & _ & _).
  split_and!; [done|done| |].
  - cbn. by exists latest.
  - cbn [fst] in *. rewrite Er in Hserved. by destruct transition.
Qed.

(** *** The next generation *)

Lemma events_run events n l :
  lrRun (fold_left (λ l event, recordLive event n l) events l) = lrRun l
  ∧ lrGeneration (fold_left (λ l event, recordLive event n l) events l) = lrGeneration l.
Proof. revert l. induction events as [|e events IH]; intros l; [done|]. cbn. destruct (IH (recordLive e n l)) as [-> ->]. done. Qed.

Lemma transitioning_inv archives l d b : live_inv archives (l, d) → live_inv archives (set_transitioning b l, d).
Proof. intros (Hl & Hh & Hp & Hg). by split_and!. Qed.

Lemma enterLive_inv n (p : nat) parent transition handoff events archives d l :
  live_inv archives (l, d) → u64 (Z.of_nat (length archives)) → archives !! p = Some parent → Outcome parent = bs "completed" →
  transition = bs "successor" ∧ S p = length archives ∨ transition = bs "rollback" ∧ (S p < length archives)%nat →
  live_inv archives (enterLiveGeneration run IsPrint profile harness activity provenance log metric n (Z.of_nat (length archives))
                       (Z.of_nat p) transition handoff events d l).2.
Proof.
  intros Hinv Hu Hp Ho Ht. unfold enterLiveGeneration.
  destruct (bootLiveGeneration _ _ _ _ _ _ _ _ _ _ _) as [booted d1] eqn:Eb.
  destruct (boot_spec _ _ _ _ _ _ Eb) as (Hsame & _ & Hserved).
  assert (H2 : live_inv archives (l, d1)) by (by eapply inv_dir).
  destruct booted as [[g hardware]|]; [|by apply transitioning_inv]. specialize (Hserved g hardware eq_refl).
  apply (record_inv (nStarted n)) in H2. destruct (recordHarnessGenerationStart harness (nStarted n) d1) as [start dr]. cbn [snd] in H2.
  assert (Hdiscard : ∀ err d2, same_archives (entries dr) (entries d2) →
    live_inv archives (let '(err, d) := discardBooted err (nClosing n) g d2 in (Err (A := unit) err, (clearLiveTransition l, d))).2).
  { intros err d2 H. destruct (discardBooted _ _ _ _) as [err' d3] eqn:Ed. apply transitioning_inv.
    eapply inv_dir; [|exact H2]. etransitivity; [exact H|]. eapply discard_same; [|exact Ed]. apply Hserved. }
  destruct start; [|by apply Hdiscard].
  destruct (attachOperatorFeedback _ _ _ _ _) as [[attached|err] fb]; [|by apply Hdiscard].
  pose proof H2 as (Hl & Hh & _). cbn [snd]. set (l2 := set_run _ _). destruct (events_run events (Some (Z.of_nat (length archives))) l2) as [Er Eg].
  split_and!; cbn [fst snd]; [done|done| |].
  - rewrite started_run, Er. cbn. exists (length archives). split_and!; [done|done|lia|]. intros _. right. by exists p, parent.
  - rewrite started_generation, started_run, Er, Eg. cbn. by intros ? [= <-].
Qed.

(** The number of the next generation at the gate. *)
Lemma gate_next archives d l number :
  live_inv archives (l, d) → state (lrRun l) = RuntimeStateAwaitingNextGeneration → generationNumber (lrRun l) = Some number →
  number ≠ max_uint64 →
  valid_history archives ∧ number = Z.of_nat (length archives) - 1 ∧ wrap64 (number + 1) = Z.of_nat (length archives)
  ∧ u64 (Z.of_nat (length archives))
  ∧ ∃ latest, last archives = Some latest ∧ (is_Some (runPending (lrRun l)) → Outcome latest = bs "completed").
Proof.
  intros (Hl & Hh & Hp & _) Hs Hn Hmax. cbn [fst snd] in *. unfold position in Hp. rewrite Hs in Hp.
  destruct Hp as (latest & El & En & Es & _). rewrite Hn in En. injection En as ->.
  assert (Hv : valid_history archives) by (by destruct Hh as [->|]).
  assert (Hu : u64 (agGeneration latest)) by (eapply loaded_elem; [done|]; by eapply last_Some_elem_of).
  destruct (next_number archives latest Hv El Hu Hmax) as [Ew Hu']. split_and!; [done|by apply last_number|done|done|].
  exists latest. split; [done|]. intros Hsome. by eapply gateSuccessor_completed.
Qed.

Lemma continueLive_inv isRegular n archives d l :
  live_inv archives (l, d) →
  live_inv archives (continueLiveGeneration run IsPrint profile harness activity provenance log metric isRegular n d l).2.
Proof.
  intros Hinv. unfold continueLiveGeneration. destruct (transitioning (lrRun l)); [done|].
  case_bool_decide; [done|]. case_bool_decide as Hs; cbn [negb]; [|done].
  destruct (runPending (lrRun l)) as [pending|] eqn:Hp; [|done]. destruct (generationNumber (lrRun l)) as [parent|] eqn:Hn; [|done].
  destruct (Z.eqb_spec parent max_uint64); [done|]. destruct (ParseSourceSnapshotWithBudget _ _); [|done].
  pose proof (transitioning_inv archives l d true Hinv) as H1.
  destruct (negb _); [by apply (transitioning_inv archives (set_transitioning true l) d false)|].
  destruct (gate_next archives d l parent Hinv Hs Hn) as (Hv & En & Ew & Hu & latest & El & Ho); [done|].
  rewrite Hp in Ho. specialize (Ho ltac:(by eexists)). rewrite Ew. rewrite last_lookup in El. pose proof (lookup_lt_Some _ _ _ El).
  replace parent with (Z.of_nat (pred (length archives))) by lia. eapply enterLive_inv; [done|done|exact El|done|]. left. split; [done|lia].
Qed.

Lemma forkLive_inv isRegular g n archives d l :
  u64 g → live_inv archives (l, d) →
  live_inv archives (forkLiveGeneration run IsPrint profile harness activity provenance log metric isRegular g n d l).2.
Proof.
  intros Hug Hinv. unfold forkLiveGeneration. destruct (transitioning (lrRun l)); [done|].
  case_bool_decide; [done|]. case_bool_decide as Hs; cbn [negb]; [|done].
  destruct (generationNumber (lrRun l)) as [current|] eqn:Hn; [|done].
  destruct (Z.leb_spec current g) as [|Hlt]; [done|]. destruct (Z.eqb_spec current max_uint64); [done|].
  pose proof (transitioning_inv archives l d true Hinv) as H1.
  assert (Hrefuse : live_inv archives (clearLiveTransition (set_transitioning true l), d)) by (by apply transitioning_inv).
  unfold InspectGeneration. destruct (readArchivedGeneration run (entries d) g) as [a|] eqn:Er; [|done].
  case_bool_decide as Ho; [|done]. destruct (Handoff a); [|done].
  destruct (validateInheritedSource _ _ _); [|done]. destruct (negb _); [done|].
  destruct (gate_next archives d l current Hinv Hs Hn) as (Hv & En & Ew & Hu & _); [done|]. rewrite Ew.
  pose proof Hinv as (Hl & _). pose proof (loaded_inspect run _ _ g a Hl Hug Er) as Hin. apply list_elem_of_lookup in Hin as [p Hp].
  destruct (readArchived_number run _ _ _ Er) as [Hag _]. pose proof Hv as (_ & Hnum & _). rewrite (Hnum p a Hp) in Hag.
  rewrite <- Hag. eapply enterLive_inv; [done|done|done|done|]. right. split; [done|]. lia.
Qed.

(** *** The end of a generation *)

Lemma live_publish populate frozen f archives es (n : nat) (r : CodexOSRun) a :
  LoadArchivedGenerations run es = Ok archives → history archives → (n ≤ length archives)%nat → u64 (Z.of_nat n) →
  (n = length archives → entered archives r) → agGeneration a = Z.of_nat n → ParentGeneration a = currentParent r →
  Transition a = currentTransition r →
  (n = length archives → ∀ directory refs, populate = Ok directory →
     readArchivedGeneration run (<[generationName (Z.of_nat n) := ArchiveEntry (directory refs)]> es) (Z.of_nat n) = Ok a) →
  let '(res, es') := publishArchive run (Z.of_nat n) populate frozen f es in
  (same_archives es es' ∧ is_ok res = false)
  ∨ (LoadArchivedGenerations run es' = Ok (archives ++ [a]) ∧ valid_history (archives ++ [a]) ∧ (res = Ok a ∨ is_ok res = false)
     ∧ ∃ directory refs, populate = Ok directory ∧ es' = <[generationName (Z.of_nat n) := ArchiveEntry (directory refs)]> es).
Proof.
  intros Hl Hh Hle Hu Hent Hag Hpar Htr Hread. destruct (decide (n = length archives)) as [Heq|Hneq].
  - pose proof (publish_loaded run (Z.of_nat n) populate frozen f archives es a Hl Hu) as H.
    destruct (publishArchive _ _ _ _ _ _) as [res es']. destruct H as [H|(H1 & H2 & H3)]; [..|by left|right].
    + intros b Hb. destruct Hh as [->|Hv]; [by apply not_elem_of_nil in Hb|]. rewrite Heq. by apply history_below.
    + by apply Hread.
    + split_and!; [done| |done|done]. eapply history_snoc; [done|by rewrite Hag, Heq|by apply Hent|done|done].
  - unfold publishArchive. destruct (lookup_lt_is_Some_2 archives n) as [x Hx]; [lia|].
    rewrite bool_decide_eq_true_2; [by left|]. destruct Hh as [->|Hv]; [done|]. by eapply loaded_entry.
Qed.

Lemma entered_parent archives r p :
  u64 (Z.of_nat (length archives)) → entered archives r → currentParent r = Some p → u64 p.
Proof.
  intros Hu [(_ & E & _)|(q & parent & E & Hq & _)] Hp; [congruence|]. rewrite E in Hp. injection Hp as <-.
  apply lookup_lt_Some in Hq. unfold u64 in *. lia.
Qed.

(** What is known of a finish the session accepted. *)
Lemma served_finish capacity g pending :
  served capacity g → pendingFinish (hostServices g) = Some pending →
  len (HandoffMessage pending) ≤ maxFinishHandoffBytes ∧ utf8.Valid (HandoffMessage pending) = true
  ∧ is_ok (DecodeSourceSnapshotWithBudget (PendingSnapshot pending) capacity) = true.
Proof.
  intros (_ & hist & Hc & _ & Hp) E. destruct (Hp pending E) as (request & staged & _ & H1 & H2 & H3 & _). by rewrite <- Hc.
Qed.

Lemma populate_completed input readFile written directory :
  populateCompleted input readFile written = Ok directory →
  ∃ kernel image, directory = completedDirectory input kernel image
    ∧ readFile (cpKernelELF input) = Ok kernel ∧ len kernel = fiSize (cpKernelIdentity input) ∧ sha256_hex kernel = fiSHA256 (cpKernelIdentity input)
    ∧ readFile (cpSuccessorISO input) = Ok image ∧ len image = fiSize (cpISOIdentity input) ∧ sha256_hex image = fiSHA256 (cpISOIdentity input).
Proof.
  unfold populateCompleted. intros E. apply bind_Ok in E as (? & _ & E). apply bind_Ok in E as (? & _ & E).
  apply bind_Ok in E as (kernel & Ek & E). apply bind_Ok in E as (image & Ei & [= <-]). exists kernel, image.
  assert (Hcopy : ∀ relative source contents identity data,
    copyArchiveFileVerified relative source contents (Some identity) = Ok data →
    contents = Ok data ∧ len data = fiSize identity ∧ sha256_hex data = fiSHA256 identity).
  { intros relative source [data'|] identity data H; [|done]. unfold copyArchiveFileVerified in H.
    destruct (Z.eqb_spec (len data') (fiSize identity)); [|done]. cbn [negb orb] in H. case_bool_decide; [|done].
    injection H as <-. by split_and!. }
  apply Hcopy in Ek as (? & ? & ?). apply Hcopy in Ei as (? & ? & ?). by split_and!.
Qed.

(** The gate after a completed archive. *)
Lemma completed_successor d input kernel image refs :
  entries d !! generationName (cpGeneration input) = Some (ArchiveEntry (completedDirectory input kernel image refs)) →
  is_ok (DecodeSourceSnapshotWithBudget (cpSnapshot input) (cpCapacity input)) = true →
  let archive := completed_archive run input in
  gateSuccessor d archive
  = Ok (Some (mkPendingFinish (cpHandoff input) (cpSnapshot input) (successorKernel (ArchivePath archive)) (successorISO (ArchivePath archive)))).
Proof.
  intros He Hd archive. apply decode_saved in Hd as [_ Hlen]. unfold gateSuccessor. rewrite bool_decide_eq_true_2 by done.
  unfold archivedSnapshot. change (agGeneration archive) with (cpGeneration input). rewrite He.
  change (Handoff archive) with (Some (cpHandoff input)). cbn match. unfold readArchiveArtifact.
  change (dirSnapshot (completedDirectory input kernel image refs)) with (@Ok bytes (cpSnapshot input)). cbn [mbind result_bind].
  change (agSourceCapacity archive) with (savedCapacity (cpCapacity input)). by rewrite (proj2 (Z.ltb_ge _ _) Hlen).
Qed.

Definition grows (archives : list ArchivedGeneration) (ld : liveRun * rundir) : Prop :=
  ∃ archives', archives `prefix_of` archives' ∧ live_inv archives' ld.

Lemma grows_same archives ld : live_inv archives ld → grows archives ld.
Proof. intros H. by exists archives. Qed.

(** The archive is published (or not), the workspace removed; then the run is at
    the gate or stopped. *)
Lemma publish_grows archives d l l' es' a g c :
  live_inv archives (l, d) → served (sourceCapacity (lrRun l)) g →
  (same_archives (entries d) es' ∨ LoadArchivedGenerations run es' = Ok (archives ++ [a]) ∧ valid_history (archives ++ [a])) →
  state (lrRun l') = RuntimeStateStopped → currentParent (lrRun l') = None → lrGeneration l' = None →
  grows archives (l', removeAll c (lvWorkspace g) (mkRundir es' (feedback d) (capacityRecord d))).
Proof.
  intros (Hl & Hh & Hp & Hg) [Hhid _] Hes Hs Hc Eg.
  assert (Hsame : same_archives es' (entries (removeAll c (lvWorkspace g) (mkRundir es' (feedback d) (capacityRecord d)))))
    by (by apply (removeAll_same _ _ (mkRundir _ _ _))).
  destruct Hes as [Hes|[Hl' Hv']]; [apply (load_same run _ _ _ Hes) in Hl; exists archives|exists (archives ++ [a])];
    (split; [done || by apply prefix_app_r|]); (split_and!; [by eapply load_same|done || by right| |]); cbn [fst snd].
  1, 3: unfold position; by rewrite Hs.
  all: intros x E; congruence.
Qed.

Lemma at_gate_grows archives d l es' a g pending retained l' c :
  live_inv archives (l, d) → served (sourceCapacity (lrRun l)) g →
  LoadArchivedGenerations run es' = Ok (archives ++ [a]) → valid_history (archives ++ [a]) →
  generationNumber (lrRun l) = Some (agGeneration a) → lrGeneration l' = None →
  lrRun l' = atGate pending (pfHandoff <$> pending) retained (lrRun l) →
  gateSuccessor (mkRundir es' (feedback d) (capacityRecord d)) a = Ok pending →
  grows archives (l', removeAll c (lvWorkspace g) (mkRundir es' (feedback d) (capacityRecord d))).
Proof.
  intros (Hl & Hh & Hp & Hg) [Hhid _] Hl' Hv' Hn Eg Er Hs. exists (archives ++ [a]). split; [by apply prefix_app_r|].
  assert (Hsame : same_archives es' (entries (removeAll c (lvWorkspace g) (mkRundir es' (feedback d) (capacityRecord d)))))
    by (by apply (removeAll_same _ _ (mkRundir _ _ _))).
  split_and!; [by eapply load_same|by right| |]; cbn [fst snd].
  - unfold position. rewrite Er. cbn [state atGate]. exists a. rewrite last_snoc. split_and!; [done|by rewrite <- Hn| |done].
    by rewrite <- (gateSuccessor_same (mkRundir es' (feedback d) (capacityRecord d))).
  - intros x E. congruence.
Qed.

Lemma complete_inv e g number pending validated archives d l :
  live_inv archives (l, d) → lrGeneration l = Some g → pendingFinish (hostServices g) = Some pending →
  grows archives (completeLiveGeneration run IsPrint harness e g number pending validated d l).2.
Proof.
  intros Hinv Hg Hpend. pose proof (grows_same _ _ Hinv) as Hsame. unfold completeLiveGeneration.
  destruct validated as [validated|]; [|done]. destruct (_ || _ || _); [done|].
  case_bool_decide as Hs; cbn [negb orb]; [|done]. case_bool_decide as Hn; cbn [negb orb]; [|done].
  destruct (bool_decide _ || _); [done|]. apply (record_inv (eStarted e)) in Hinv.
  destruct (recordHarnessGenerationStart _ _ _) as [start d1]. cbn [snd] in Hinv. clear Hsame d. rename d1 into d.
  pose proof (grows_same _ _ Hinv) as Hsame. destruct start; [|done].
  rewrite Hg. cbn [fmap option_fmap option_map]. rewrite bool_decide_eq_true_2 by done. cbn [negb].
  destruct (closeLiveGeneration _); [done|]. unfold detachExpectedLiveGeneration. rewrite Hg, bool_decide_eq_true_2 by done. cbn [negb].
  set (input := mkCompleted _ _ _ _ _ _ _ _ _ _ _ _). set (l1 := installLiveGeneration None l).
  pose proof Hinv as (Hl & Hh & Hp & Hserved). cbn [fst snd] in *. specialize (Hserved g Hg).
  unfold position in Hp. rewrite Hs in Hp. destruct Hp as (n & En & Hu & Hle & Hent). rewrite Hn in En. injection En as ->.
  destruct (served_finish _ _ _ Hserved Hpend) as (Hhand & Hutf & Hdec).
  assert (Hstop : ∀ a es', (same_archives (entries d) es' ∨ LoadArchivedGenerations run es' = Ok (archives ++ [a]) ∧ valid_history (archives ++ [a])) →
    grows archives (failLiveGeneration g None (removeAll (eClosing e) (lvWorkspace g) (mkRundir es' (feedback d) (capacityRecord d))) l1).2).
  { intros x es' Hes. eapply publish_grows; [exact Hinv|done|exact Hes|done..]. }
  unfold writeCompletedArchiveFiles, validateArchiveMetadataInput.
  destruct (lineage_ok (cpGeneration input) (cpParent input) (cpTransition input)) eqn:Hlin; [|by apply (Hstop (completed_archive run input)); left].
  destruct (validManifest IsPrint (cpHardware input)); [by apply (Hstop (completed_archive run input)); left|].
  change (cpHandoff input) with (HandoffMessage pending). rewrite Hutf. cbn [negb].
  change (cpSnapshot input) with (PendingSnapshot pending). change (cpCapacity input) with (sourceCapacity (lrRun l)).
  destruct (DecodeSourceSnapshotWithBudget _ _) eqn:Ed; [|by apply (Hstop (completed_archive run input)); left].
  pose proof (live_publish (populateCompleted input (eRead e) (eWritten e)) (eFrozen e) (eFault e) archives (entries d) n (lrRun l)
    (completed_archive run input) Hl Hh Hle Hu Hent eq_refl eq_refl eq_refl) as Hpub.
  change (cpGeneration input) with (Z.of_nat n). destruct (publishArchive _ _ _ _ _ _) as [res es'].
  destruct Hpub as [[Hes Hres]|(Hl' & Hv' & Hres & directory & refs & Hpop & Ees)].
  - intros Heq directory refs Hpop. apply populate_completed in Hpop as (kernel & image & -> & _).
    apply published_completed_reads; cbn; [done| |done|done|done|by rewrite Ed].
    intros p Hp. eapply entered_parent; [|by apply Hent|done]. by rewrite <- Heq.
  - destruct res; [done|]. by apply (Hstop (completed_archive run input)); left.
  - destruct Hres as [->|Hres]; [|destruct res; [done|]; by eapply Hstop; right].
    apply populate_completed in Hpop as (kernel & image & -> & _).
    pose (archive := completed_archive run input).
    apply at_gate_grows with (a := archive) (l := l) (retained := retainedFinish (lrRun l)) (pending := Some (mkPendingFinish
      (HandoffMessage pending) (PendingSnapshot pending) (successorKernel (ArchivePath archive)) (successorISO (ArchivePath archive)))); [exact Hinv|done|done|done|done|done|reflexivity|].
    eapply (completed_successor _ input kernel image refs); [|by cbn; rewrite Ed]. cbn. rewrite Ees. apply lookup_insert_eq.
Qed.

Lemma finish_inv e g number archives d l :
  live_inv archives (l, d) → lrGeneration l = Some g →
  grows archives (finishLiveIfRequested run IsPrint harness e g number d l).2.
Proof.
  intros Hinv Hg. unfold finishLiveIfRequested. destruct (pendingFinish (hostServices g)) eqn:E; [by apply complete_inv|].
  by apply grows_same.
Qed.

Lemma abort_inv reason manifest e archives d l :
  live_inv archives (l, d) → grows archives (abortLiveGeneration run IsPrint harness reason manifest e d l).2.
Proof.
  intros Hinv. pose proof (grows_same _ _ Hinv) as Hsame. unfold abortLiveGeneration.
  destruct (ValidateAbortReason reason) as [[]|] eqn:Hreason; [|done].
  destruct (negb _ && negb _) eqn:Hrun; [done|]. destruct (generationNumber (lrRun l)) as [number|] eqn:Hn; [|done].
  destruct (bool_decide _ || _); [done|]. apply (record_inv (eStarted e)) in Hinv.
  destruct (recordHarnessGenerationStart _ _ _) as [start d1]. cbn [snd] in Hinv. clear Hsame d. rename d1 into d. cbv zeta.
  pose proof (grows_same _ _ Hinv) as Hsame. destruct start; [|done].
  destruct (lrGeneration l) as [g|] eqn:Hg; [|done].
  pose proof Hinv as (Hl & Hh & Hp & Hserved). cbn [fst snd] in *. specialize (Hserved g Hg).
  assert (Hstop : ∀ c, grows archives (failLiveGeneration g (Some c) d l).2).
  { intros c. unfold failLiveGeneration. destruct (closeLiveGeneration c); [done|]. apply grows_same.
    assert (H2 : live_inv archives (l, removeAll c (lvWorkspace g) d)) by (eapply inv_dir, Hinv; apply removeAll_same, Hserved).
    unfold detachExpectedLiveGeneration. rewrite Hg, bool_decide_eq_true_2 by done. apply (inv_stop archives l); [exact H2|done..|by left]. }
  match goal with |- context [match ?c with Ok _ => _ | Err _ => _ end] => destruct c as [latest|err] end.
  2: { pose proof (Hstop (eClosing e)) as H. by destruct (failLiveGeneration _ _ _ _) as [cleanup ld]. }
  destruct (closeLiveGeneration _); [done|]. unfold detachExpectedLiveGeneration. rewrite Hg, bool_decide_eq_true_2 by done. cbn [negb].
  set (input := mkAborted _ _ _ _ _ _ _ _). set (l1 := installLiveGeneration None l).
  assert (Hin : inside archives (lrRun l)).
  { unfold position in Hp. rewrite andb_false_iff, !negb_false_iff, !bool_decide_eq_true in Hrun. by destruct Hrun as [E|E]; rewrite E in Hp. }
  destruct Hin as (n & En & Hu & Hle & Hent). rewrite Hn in En. injection En as ->.
  assert (Hfail : ∀ es', (same_archives (entries d) es' ∨ LoadArchivedGenerations run es' = Ok (archives ++ [aborted_archive run input])
      ∧ valid_history (archives ++ [aborted_archive run input])) →
    grows archives (failLiveGeneration g None (removeAll (eClosing e) (lvWorkspace g) (mkRundir es' (feedback d) (capacityRecord d))) l1).2).
  { intros es' Hes. eapply publish_grows; [exact Hinv|done|exact Hes|done..]. }
  unfold WriteAbortedArchive, validateArchiveMetadataInput.
  destruct (lineage_ok (abGeneration input) (abParent input) (abTransition input)) eqn:Hlin; [|by apply Hfail; left].
  destruct (validManifest IsPrint (abHardware input)); [by apply Hfail; left|].
  change (abReason input) with reason. rewrite Hreason.
  destruct (default (Ok ()) (abEvidence input)); [|by apply Hfail; left].
  pose proof (live_publish (_ ← saveCapacity (abCapacity input); _ ← eWritten e; Ok (abortedDirectory input)) (eFrozen e) (eFault e)
    archives (entries d) n (lrRun l) (aborted_archive run input) Hl Hh Hle Hu Hent eq_refl eq_refl eq_refl) as Hpub.
  change (abGeneration input) with (Z.of_nat n). destruct (publishArchive _ _ _ _ _ _) as [res es'].
  destruct Hpub as [[Hes Hres]|(Hl' & Hv' & Hres & _)].
  - intros Heq directory refs Hpop. apply bind_Ok in Hpop as (? & _ & Hpop). apply bind_Ok in Hpop as (? & _ & [= <-]).
    apply published_reads; [done| |done|done]. intros p Hpar. eapply entered_parent; [|by apply Hent|done]. by rewrite <- Heq.
  - destruct res; [done|]. by apply Hfail; left.
  - destruct Hres as [->|Hres]; [|destruct res; [done|]; by apply Hfail; right].
    by apply at_gate_grows with (a := aborted_archive run input) (l := l) (pending := None) (retained := None).
Qed.

(** *** Tools, pauses, capacity, stopping *)

Lemma require_running l g number :
  requireRunningLiveGeneration l = Ok (g, number) →
  lrGeneration l = Some g ∧ state (lrRun l) = RuntimeStateRunning ∧ generationNumber (lrRun l) = Some number.
Proof.
  unfold requireRunningLiveGeneration. destruct (state (lrRun l)); try done. destruct (generationNumber (lrRun l)); [|done].
  destruct (lrGeneration l); [|done]. by intros [= <- <-].
Qed.

(** The host services move on during an exchange. *)
Lemma exchange_inv archives d l g host hist :
  live_inv archives (l, d) → lrGeneration l = Some g → session quote (hostServices g) hist host →
  live_inv archives (installLiveGeneration (Some (mkLive (lvWorkspace g) (lvBootISO g) host)) l, d).
Proof.
  intros (Hl & Hh & Hp & Hserved) Hg Hs. split_and!; [done..|]. cbn [fst snd] in *. intros ? [= <-].
  destruct (Hserved g Hg) as (Hhid & h & Hinv). split; [done|]. exists (h ++ hist). by eapply session_inv_more.
Qed.

Lemma invoke_inv name arguments exchange host hist e archives d l :
  live_inv archives (l, d) → (∀ g, lrGeneration l = Some g → session quote (hostServices g) hist host) →
  grows archives (LiveRun.InvokeTool run IsPrint harness name arguments exchange host e d l).2.
Proof.
  intros Hinv Hs. unfold LiveRun.InvokeTool. destruct (requireRunningLiveGeneration l) as [[g number]|] eqn:Er; [|by apply grows_same].
  apply require_running in Er as (Hg & _ & _).
  pose proof (exchange_inv archives d l g host hist Hinv Hg (Hs g Hg)) as H1. set (g' := mkLive _ _ host) in *.
  assert (Hsend : ∀ l', lrRun l' = lrRun l → lrGeneration l' = Some g' → live_inv archives (l', d)).
  { intros l' E1 E2. eapply inv_run; [| |exact H1]; done. }
  cbn zeta. match goal with |- context [match InvokeRequestPayloadSize _ _ with Ok _ => _ | Err _ => ?send end] => set (sent := send) end.
  assert (H2 : grows archives sent.2).
  { subst sent. destruct exchange; [|by apply grows_same, Hsend].
    match goal with |- context [finishLiveIfRequested ?a ?b ?c ?e ?g ?n ?d ?l] =>
      pose proof (finish_inv e g n archives d l (Hsend l eq_refl eq_refl) eq_refl) as H;
      destruct (finishLiveIfRequested a b c e g n d l) as [finished ld] end. exact H. }
  destruct (InvokeRequestPayloadSize name arguments); [|done]. case_match; [|done]. by apply grows_same.
Qed.

Lemma list_inv exchange host hist e archives d l :
  live_inv archives (l, d) → (∀ g, lrGeneration l = Some g → session quote (hostServices g) hist host) →
  grows archives (LiveRun.ListTools run IsPrint harness exchange host e d l).2.
Proof.
  intros Hinv Hs. unfold LiveRun.ListTools. destruct (requireRunningLiveGeneration l) as [[g number]|] eqn:Er; [|by apply grows_same].
  apply require_running in Er as (Hg & _ & _).
  pose proof (exchange_inv archives d l g host hist Hinv Hg (Hs g Hg)) as H1. set (g' := mkLive _ _ host) in *. cbn zeta.
  destruct exchange; [|apply grows_same; by eapply inv_run, H1].
  match goal with |- context [finishLiveIfRequested ?a ?b ?c ?e ?g ?n ?d ?l] =>
    pose proof (finish_inv e g n archives d l) as H; destruct (finishLiveIfRequested a b c e g n d l) as [finished ld] end.
  apply H; [by eapply inv_run, H1|done].
Qed.

Lemma pause_inv stopped status archives d l : live_inv archives (l, d) → live_inv archives ((LiveRun.Pause stopped status l).2, d).
Proof.
  intros Hinv. unfold LiveRun.Pause. destruct (requireRunningLiveGeneration l) as [[g number]|] eqn:Er; [|done].
  apply require_running in Er as (_ & Hs & _). destruct stopped; [done|].
  assert (H : live_inv archives (set_run (set_state RuntimeStatePaused (lrRun l)) l, d)).
  { destruct Hinv as (Hl & Hh & Hp & Hg). cbn [fst snd] in *. unfold position in Hp. rewrite Hs in Hp. by split_and!. }
  destruct status; [|done]. destruct (negb _); done.
Qed.

Lemma resume_inv continued status archives d l : live_inv archives (l, d) → live_inv archives ((LiveRun.Resume continued status l).2, d).
Proof.
  intros Hinv. unfold LiveRun.Resume. destruct (state (lrRun l)) eqn:Hs; try done. destruct (generationNumber (lrRun l)) eqn:Hn; [|done].
  destruct (lrGeneration l) eqn:Hg; [|done]. destruct continued, status as [st|]; try done. destruct (negb _); [done|].
  destruct Hinv as (Hl & Hh & Hp & Hserved). cbn [fst snd] in *. unfold position in Hp. rewrite Hs in Hp. by split_and!.
Qed.

Lemma capacity_inv budget f archives d l : live_inv archives (l, d) → live_inv archives (setLiveCapacity run budget f d l).2.
Proof.
  intros Hinv. unfold setLiveCapacity. destruct (Budget_Validate budget); [|done].
  destruct (lrClosed l); [done|]. cbn [orb]. case_bool_decide as Hg; [done|]. apply eq_None_not_Some in Hg.
  assert (H : ∀ res r d', SetSourceCapacity run budget f d (lrRun l) = (res, (r, d')) → entries d' = entries d ∧ feedback d' = feedback d
    ∧ (position archives d (lrRun l) → position archives d r)).
  { intros res r d'. unfold SetSourceCapacity. repeat case_match; intros [= <- <- <-]; (split_and!; [done..|]);
      apply position_fields; cbn; congruence. }
  destruct (SetSourceCapacity run budget f d (lrRun l)) as [res [r d']] eqn:E. destruct (H _ _ _ eq_refl) as (Ee & _ & Hpos).
  assert (H1 : live_inv archives (set_run r l, d')).
  { apply (inv_dir archives _ d d'); [by rewrite Ee|]. destruct Hinv as (Hl & Hh & Hp & _). split_and!; [done|done|by apply Hpos|].
    intros g E'. cbn in E'. congruence. }
  by destruct res.
Qed.

Lemma live_close_inv c archives d l : live_inv archives (l, d) → live_inv archives (LiveRun.Close c d l).2.
Proof.
  intros Hinv. unfold LiveRun.Close, stopLive. cbn [lrGeneration set_closed].
  assert (H1 : live_inv archives (set_closed true l, d)) by done.
  destruct (lrGeneration l) as [g|] eqn:Hg.
  - pose proof Hinv as (_ & _ & _ & Hserved). destruct (Hserved g Hg) as [Hhid _].
    destruct (closeLiveGeneration c); [done|]. set (l1 := (detachExpectedLiveGeneration _ _).2).
    assert (H2 : live_inv archives (l1, removeAll c (lvWorkspace g) d))
      by (eapply inv_dir; [by apply removeAll_same|]; by apply (inv_detach archives (set_closed true l) d g)).
    destruct (lrStarted l1); (eapply inv_stop; [exact H2|done..|by right]).
  - destruct (lrStarted _); (eapply inv_stop; [exact H1|done..|by right]).
Qed.

(** ** Sequences of operations *)

(** One operation of a live run with whatever the environment answers. While a
    tool is invoked the guest may make any requests of the host services. A
    restart is a new run object on the same directory. *)
Inductive live_step : liveRun * rundir → liveRun * rundir → Prop :=
| live_start verified iso initialISO imported handoff assets b started c l d :
    live_step (l, d) (Start run IsPrint profile harness activity provenance log metric verified iso initialISO imported handoff assets b
                        started c d l).2
| live_reopen prepared assets recorded l d : live_step (l, d) ((reopenLive run harness prepared assets recorded d l).2, d)
| live_invoke name arguments exchange host hist e l d :
    (∀ g, lrGeneration l = Some g → session quote (hostServices g) hist host) →
    live_step (l, d) (LiveRun.InvokeTool run IsPrint harness name arguments exchange host e d l).2
| live_list exchange host hist e l d :
    (∀ g, lrGeneration l = Some g → session quote (hostServices g) hist host) →
    live_step (l, d) (LiveRun.ListTools run IsPrint harness exchange host e d l).2
| live_capture captured host hist l d :
    (∀ g, lrGeneration l = Some g → session quote (hostServices g) hist host) →
    live_step (l, d) ((CaptureReviewSource captured host l).2, d)
| live_pause stopped status l d : live_step (l, d) ((Pause stopped status l).2, d)
| live_resume continued status l d : live_step (l, d) ((Resume continued status l).2, d)
| live_continue isRegular n l d :
    live_step (l, d) (continueLiveGeneration run IsPrint profile harness activity provenance log metric isRegular n d l).2
| live_fork isRegular g n l d :
    u64 g → live_step (l, d) (forkLiveGeneration run IsPrint profile harness activity provenance log metric isRegular g n d l).2
| live_abort reason manifest e l d : live_step (l, d) (abortLiveGeneration run IsPrint harness reason manifest e d l).2
| live_capacity budget f l d : live_step (l, d) (setLiveCapacity run budget f d l).2
| live_decide id approve note f s l d : live_step (l, d) ((decideFeatureRequest id approve note f s l).2.2, d)
| live_retain g l d : live_step (l, d) (set_run (RetainGenerationFinish g (lrRun l)).2 l, d)
| live_release g l d : live_step (l, d) (set_run (ReleaseGenerationFinish g (lrRun l)) l, d)
| live_close c l d : live_step (l, d) (Close c d l).2
| live_restart ready candidate resolved ledger features imported identity requests l l' d :
    NewLiveCodexOSRun profile harness ready candidate resolved ledger features imported identity requests d = Ok l' →
    live_step (l, d) (l', d).

Lemma new_live ready candidate resolved ledger features imported identity requests d l :
  NewLiveCodexOSRun profile harness ready candidate resolved ledger features imported identity requests d = Ok l →
  ∃ active budget, l = mkLiveRun (newRun active budget) false false false None false [].
Proof.
  unfold NewLiveCodexOSRun, NewCodexOSRun. intros E. apply bind_Ok in E as (? & _ & E). do 2 (case_in E; [done|]).
  apply bind_Ok in E as (r & Hr & E). do 4 (apply bind_Ok in E as (? & _ & E)). injection E as <-.
  destruct resolved; [done|]. apply bind_Ok in Hr as (budget & _ & Hr). apply bind_Ok in Hr as (active & _ & [= <-]).
  by exists active, budget.
Qed.

Lemma new_live_inv ready candidate resolved ledger features imported identity requests d l archives :
  NewLiveCodexOSRun profile harness ready candidate resolved ledger features imported identity requests d = Ok l →
  LoadArchivedGenerations run (entries d) = Ok archives → history archives → live_inv archives (l, d).
Proof. intros (active & budget & ->)%new_live Hl Hh. by split_and!. Qed.

Lemma live_step_inv archives ld ld' : live_inv archives ld → live_step ld ld' → grows archives ld'.
Proof.
  intros Hinv Hstep. destruct Hstep.
  - by apply grows_same, Start_inv.
  - by apply grows_same, reopenLive_inv.
  - by eapply invoke_inv.
  - by eapply list_inv.
  - apply grows_same. unfold CaptureReviewSource. destruct (requireRunningLiveGeneration l) as [[g number]|] eqn:Er; [|done].
    apply require_running in Er as (Hg & _). pose proof (exchange_inv archives d l g host hist Hinv Hg (H g Hg)) as H1.
    by destruct captured.
  - by apply grows_same, pause_inv.
  - by apply grows_same, resume_inv.
  - by apply grows_same, continueLive_inv.
  - by apply grows_same, forkLive_inv.
  - by apply abort_inv.
  - by apply grows_same, capacity_inv.
  - apply grows_same. unfold decideFeatureRequest. destruct (_ || _); [done|]. destruct (generationNumber (lrRun l)); [|done].
    destruct (if approve then _ else _) as [[request|] s']; done.
  - apply grows_same. unfold RetainGenerationFinish. by destruct (_ || _ || _ || _ || _).
  - apply grows_same. unfold ReleaseGenerationFinish. by case_bool_decide.
  - by apply grows_same, live_close_inv.
  - apply grows_same. destruct Hinv as (Hl & Hh & _). by eapply new_live_inv.
Qed.

Lemma live_steps_inv archives ld ld' : live_inv archives ld → rtc live_step ld ld' → grows archives ld'.
Proof.
  intros Hinv Hs. revert archives Hinv. induction Hs as [ld|ld ld1 ld2 Hstep _ IH]; intros archives Hinv; [by apply grows_same|].
  destruct (live_step_inv archives ld ld1 Hinv Hstep) as (a1 & Hp1 & H1). destruct (IH a1 H1) as (a2 & Hp2 & H2).
  exists a2. split; [by transitivity a1|done].
Qed.
End Live.

(** ** Claims *)

Lemma history_valid run es archives :
  LoadArchivedGenerations run es = Ok archives → (archives = [] ∨ ValidateArchivedHistory archives = Ok ()) ↔ history archives.
Proof. intros Hl. unfold history. by rewrite (loaded_valid run es archives Hl). Qed.

(** C3: from any run directory whose archives load and are empty or form a valid
    history, every sequence of starting, reopening, invoking tools, pausing,
    resuming, continuing, forking, aborting, deciding, leasing, changing the
    capacity, closing and restarting a live run, with QEMU, the guest and the file
    system failing anywhere, leaves a directory whose archives load and form a
    valid history (or none) that extends the earlier one. *)
Theorem live_preserves_history run quote IsPrint profile harness activity provenance log metric
  ready candidate resolved ledger features imported identity requests d archives l l' d' :
  NewLiveCodexOSRun profile harness ready candidate resolved ledger features imported identity requests d = Ok l →
  LoadArchivedGenerations run (entries d) = Ok archives → archives = [] ∨ ValidateArchivedHistory archives = Ok () →
  rtc (live_step run quote IsPrint profile harness activity provenance log metric) (l, d) (l', d') →
  ∃ archives', LoadArchivedGenerations run (entries d') = Ok archives' ∧ archives `prefix_of` archives'
    ∧ (archives' = [] ∨ ValidateArchivedHistory archives' = Ok ()).
Proof.
  intros Hnew Hl Hv Hs. apply (history_valid run _ _ Hl) in Hv.
  destruct (live_steps_inv run quote IsPrint profile harness activity provenance log metric archives (l, d) (l', d')) as (archives' & Hp & Hl' & Hh & _);
    [by eapply new_live_inv|done|]. exists archives'. split_and!; [done|done|]. by apply (history_valid run (entries d')).
Qed.

Lemma gateLatest_known run d archives latest records :
  LoadArchivedGenerations run (entries d) = Ok archives → valid_history archives → last archives = Some latest →
  partialGenerationState (entries d) = [] → loadOperatorFeedbackRecords (feedback d) = Ok records →
  validateOperatorFeedbackRecords records archives = Ok () → gateLatest run d = Ok latest.
Proof.
  intros Hl Hv El Hp Hf Hr. unfold gateLatest. rewrite Hp, bool_decide_eq_true_2 by done. cbn [negb]. rewrite Hl. cbn [mbind result_bind].
  rewrite El, (proj2 (loaded_valid run _ _ Hl) Hv), Hf. cbn [mbind result_bind]. by rewrite Hr.
Qed.

(** C5: whenever a live run stands at its gate, the run directory determines that
    gate: a new run object that opens the directory stands at the same generation
    with the same pending successor and handoff; and without a harness identity to
    record it can be opened whenever no workspace is left and the feedback
    attachments are consistent. *)
Theorem live_gate_recoverable run quote IsPrint profile harness activity provenance log metric
  ready candidate resolved ledger features imported identity requests d archives l l' d' l2 :
  NewLiveCodexOSRun profile harness ready candidate resolved ledger features imported identity requests d = Ok l →
  LoadArchivedGenerations run (entries d) = Ok archives → archives = [] ∨ ValidateArchivedHistory archives = Ok () →
  rtc (live_step run quote IsPrint profile harness activity provenance log metric) (l, d) (l', d') →
  state (lrRun l') = RuntimeStateAwaitingNextGeneration →
  NewLiveCodexOSRun profile harness ready candidate resolved ledger features imported identity requests d' = Ok l2 →
  (∀ prepared assets recorded l3, reopenLive run harness prepared assets recorded d' l2 = (Ok (), l3) →
     state (lrRun l3) = state (lrRun l') ∧ generationNumber (lrRun l3) = generationNumber (lrRun l')
     ∧ runPending (lrRun l3) = runPending (lrRun l') ∧ previousHandoff (lrRun l3) = previousHandoff (lrRun l'))
  ∧ (∀ records archives' assets, harness = false → partialGenerationState (entries d') = [] →
       loadOperatorFeedbackRecords (feedback d') = Ok records → LoadArchivedGenerations run (entries d') = Ok archives' →
       validateOperatorFeedbackRecords records archives' = Ok () →
       is_ok (reopenLive run harness (Ok false) (Ok assets) None d' l2).1 = true).
Proof.
  intros Hnew Hl Hv Hs Hgate (active & budget & ->)%new_live. apply (history_valid run _ _ Hl) in Hv.
  destruct (live_steps_inv run quote IsPrint profile harness activity provenance log metric archives (l, d) (l', d')) as (archives' & _ & Hl' & Hh & Hp & _);
    [by eapply new_live_inv|done|]. cbn [fst snd] in *. unfold position in Hp. rewrite Hgate in Hp.
  destruct Hp as (latest & El & En & Es & Eh). split.
  - intros prepared assets recorded l3. unfold reopenLive. cbn [lrClosed lrRun state generationNumber newRun].
    rewrite bool_decide_eq_true_2 by done. cbn [negb]. rewrite (bool_decide_eq_false_2 (is_Some None)) by (by intros [? [=]]).
    destruct (gateLatest run d') as [latest'|] eqn:Eg; [|done]. destruct (gateLatest_last run archives' d' latest' Hl' Eg) as (El' & _).
    assert (latest' = latest) as -> by congruence. destruct (if harness then _ else _) as [transition|]; [|done].
    destruct (configureLiveAssets _ _ _) as [[|] l1]; [|done]. rewrite Es. destruct (if transition then _ else _); [|done].
    intros [= <-]. cbn. rewrite Hgate. by split_and!.
  - intros records archives2 assets -> Hpart Hf Hl2 Hval. assert (archives2 = archives') as -> by congruence.
    assert (Hvalid : valid_history archives') by (by destruct Hh as [->|]).
    pose proof (gateLatest_known run d' archives' latest records Hl' Hvalid El Hpart Hf Hval) as Eg.
    unfold reopenLive. cbn [lrClosed lrRun state generationNumber newRun]. rewrite bool_decide_eq_true_2 by done. cbn [negb].
    rewrite (bool_decide_eq_false_2 (is_Some None)) by (by intros [? [=]]). rewrite Eg. unfold configureLiveAssets. cbn [assetsReady].
    by rewrite Es.
Qed.

(** ** What a finished generation archives *)

Lemma complete_archived run IsPrint harness e g number pending validated d l l' d' :
  completeLiveGeneration run IsPrint harness e g number pending validated d l = (Ok (), (l', d')) → hidden (lvWorkspace g) →
  ∃ staged dir kernel image, validated = Some staged ∧ generationNumber (lrRun l) = Some number ∧ entries d !! generationName number = None
    ∧ entries d' !! generationName number = Some (ArchiveEntry dir)
    ∧ dirHandoff dir = Ok (HandoffMessage pending) ∧ dirSnapshot dir = Ok (PendingSnapshot pending) ∧ PendingSnapshot pending = StagedSnapshot staged
    ∧ dirSuccessor dir = Ok (kernel, image)
    ∧ len kernel = fiSize (KernelIdentity staged) ∧ sha256_hex kernel = fiSHA256 (KernelIdentity staged)
    ∧ len image = fiSize (ISOIdentity staged) ∧ sha256_hex image = fiSHA256 (ISOIdentity staged)
    ∧ runPending (lrRun l') = Some (mkPendingFinish (HandoffMessage pending) (PendingSnapshot pending)
        (successorKernel (archivePath run number)) (successorISO (archivePath run number))).
Proof.
  unfold completeLiveGeneration. intros E Hhid. destruct validated as [staged|]; [|done].
  destruct (_ || _ || _) eqn:Hmatch in E; [done|]. apply orb_false_iff in Hmatch as [_ Hsnap%negb_false_iff%bool_decide_eq_true].
  match type of E with (if ?c then _ else _) = _ => destruct c eqn:Hrun; [done|] end.
  apply orb_false_iff in Hrun as [[[_ Hn%negb_false_iff%bool_decide_eq_true]%orb_false_iff _]%orb_false_iff _].
  pose proof (record_same harness (eStarted e) d) as Hrec. revert E Hrec.
  destruct (recordHarnessGenerationStart _ _ _) as [start d1]. intros E Hrec. cbn [snd] in Hrec.
  destruct start in E; [|done]. destruct (negb _) in E; [done|]. rewrite (Hrec _ (generationName_prefix number)).
  destruct (closeLiveGeneration _) in E; [done|]. destruct (detachExpectedLiveGeneration g l) as [[] l1]; [|done]. cbn [negb] in E.
  revert E. set (input := mkCompleted _ _ _ _ _ _ _ _ _ _ _ _). unfold writeCompletedArchiveFiles.
  destruct (validateArchiveMetadataInput _ _ _); [|done]. destruct (validManifest _ _); [done|]. destruct (negb _); [done|].
  destruct (DecodeSourceSnapshotWithBudget _ _); [|done]. unfold publishArchive. case_bool_decide as Hfree; [done|].
  apply eq_None_not_Some in Hfree. destruct (populateCompleted _ _ _) as [directory|] eqn:Hpop; [|done].
  apply populate_completed in Hpop as (kernel & image & -> & _ & K1 & K2 & _ & I1 & I2).
  destruct (eFrozen e) as [refs|]; [|done]. destruct (pbFault (eFault e)); [|done|done].
  change (cpGeneration input) with number in *. destruct (InspectGeneration _ _ _) as [archive|] eqn:Ei; [|done].
  unfold InspectGeneration in Ei. destruct (readArchivedGeneration _ _ _) as [x|] eqn:Er; [|done]. injection Ei as ->.
  apply readArchived_number in Er as [_ Epath]. intros [= <- <-]. rewrite Epath.
  exists staged, (completedDirectory input kernel image refs), kernel, image. split_and!; try done.
  rewrite <- (removeAll_same (eClosing e) _ (mkRundir _ _ _) Hhid) by apply generationName_prefix. apply lookup_insert_eq.
Qed.

(** C4: when a tool invocation brings a live run from a generation to the gate, the
    archive it published, under a number that was free, holds exactly the handoff
    and the snapshot of the accepted finish, which an earlier request of the same
    session built and proved, and a kernel and an image of exactly the sizes and
    digests taken when they were validated; the pending successor points into this
    archive. *)
Theorem finished_generation_archived run quote IsPrint harness config fstore recorded log metric assets absolute mkdir s0 hist host
  name arguments exchange e d l res l' d' :
  NewCodexOSHostServices config fstore recorded log metric assets absolute mkdir = Ok s0 → session quote s0 hist host →
  (∀ g, lrGeneration l = Some g → hidden (lvWorkspace g)) → state (lrRun l) = RuntimeStateRunning →
  LiveRun.InvokeTool run IsPrint harness name arguments exchange host e d l = (Ok res, (l', d')) →
  state (lrRun l') = RuntimeStateAwaitingNextGeneration →
  ∃ number p staged ports dir kernel image,
    generationNumber (lrRun l) = Some number ∧ entries d !! generationName number = None
    ∧ entries d' !! generationName number = Some (ArchiveEntry dir)
    ∧ pendingFinish host = Some p ∧ dirHandoff dir = Ok (HandoffMessage p) ∧ dirSnapshot dir = Ok (StagedSnapshot staged)
    ∧ ports ∈ hist ∧ proven (buildPorts ports) staged ∧ dirSuccessor dir = Ok (kernel, image)
    ∧ len kernel = fiSize (KernelIdentity staged) ∧ sha256_hex kernel = fiSHA256 (KernelIdentity staged)
    ∧ len image = fiSize (ISOIdentity staged) ∧ sha256_hex image = fiSHA256 (ISOIdentity staged)
    ∧ runPending (lrRun l') = Some (mkPendingFinish (HandoffMessage p) (StagedSnapshot staged)
        (successorKernel (archivePath run number)) (successorISO (archivePath run number))).
Proof.
  intros Hnew Hsession Hhid Hrun E Hgate. unfold LiveRun.InvokeTool in E.
  destruct (requireRunningLiveGeneration l) as [[g number]|] eqn:Er; [|done]. apply require_running in Er as (Hg & _ & Hn).
  specialize (Hhid g Hg). cbn zeta in E. set (g' := mkLive _ _ host) in *.
  assert (E' : ∃ l1, lrRun l1 = lrRun l ∧ ∃ u, finishLiveIfRequested run IsPrint harness e g' number d l1 = (Ok u, (l', d'))).
  { revert E. destruct (InvokeRequestPayloadSize name arguments); [case_match|]; [intros [= <- <- <-]; cbn in Hgate; congruence|..];
      (destruct exchange; [|done]); destruct (finishLiveIfRequested _ _ _ _ _ _ _ _) as [[u|] ld] eqn:Ef; try done;
      intros [= <- ->]; eexists; (split; [|by exists u]); done. }
  destruct E' as (l1 & Erun & [] & Ef). unfold finishLiveIfRequested in Ef. change (hostServices g') with host in Ef.
  destruct (pendingFinish host) as [p|] eqn:Hp.
  2: { injection Ef as <- <-. rewrite Erun in Hgate. congruence. }
  apply complete_archived in Ef as (staged & dir & kernel & image & Hst & _ & F1 & F2 & F3 & F4 & F5 & F6 & F7 & F8 & F9 & F10 & F11); [|done].
  pose proof (new_services_inv _ _ _ _ _ _ _ _ _ Hnew) as Hinv.
  destruct (session_inv_reach quote _ _ _ _ Hinv Hsession) as (_ & Hl & _). destruct (Hl staged Hst) as (ports & Hin & Hpr).
  rewrite F5 in F4, F11. exists number, p, staged, ports, dir, kernel, image. by split_and!.
Qed.

(** ** Boots that fail *)




Section Failing.
Context (run : bytes) (IsPrint : Z → bool) (profile : HardwareProfile) (harness activity provenance log metric : bool).








(** The number of the next generation. *)
Definition next_number (l : liveRun) : Z := wrap64 (default 0 (generationNumber (lrRun l)) + 1).




End Failing.

(** ** A run that finishes its first generation *)

Module live_example.
Definition dir : rundir := mkRundir ∅ FbMissing (Ok 0).
Definition closed : closing := mkClosing false None None None None None true.
Definition boots (start : option error) : booting :=
  mkBooting None None None HardwareProofs.hardware_example.written (Ok (bs "x1")) None None None None (mkStore Missing ∅) None None None
    start None None None None [] closed.
Definition fresh : liveRun := mkLiveRun (newRun 0 0) false false false None false [].
Definition started : liveRun * rundir :=
  (Start (bs "/run") HardwareProofs.hardware_example.printable TestHardwareProfile false false false false false None (Ok (bs "/os.iso"))
     (bs "os.iso") None None (Ok false) (boots None) (mkRecording true None) closed dir fresh).2.

(** The artifacts hold their own paths. *)
Definition identity (path : bytes) : FileIdentity := mkIdentity (sha256_hex path) (len path).
Definition ports : SessionPorts :=
  mkSessionPorts
    (mkPorts (λ _ _, Ok (bs "build-1")) (λ _, None) (Ok (mkIdentity (bs "s") 1)) (Ok (bs "attempt"))
       (λ _ _, mkBuildResult BuildStatusSuccess [] (bs "kernel.elf") (bs "os.iso"))
       (λ path, Ok (identity path)) (λ _ _, mkCandidateResult BuildStatusSuccess (bs "ok") false))
    (λ _, Err (PlainError (txt "no bootstrap"))) [] NoFault.
Definition config : BuildHostServiceConfig := mkBuildConfig true 0 false (Some 0) false.
Definition services : CodexOSHostServices :=
  match NewCodexOSHostServices config (Some (mkStore Missing ∅)) true false false None None None with
  | Ok s => s
  | Err _ => sample_services
  end.
Definition built : CodexOSHostServices :=
  (HandleSessionRequest (λ s, s) ports (mkHostRequest 1 (bs "build") [sample_snapshot]) services).2.
Definition finished : CodexOSHostServices := (HandleSessionRequest (λ s, s) ports sample_finish built).2.
Definition ends : ending := mkEnding (mkRecording true None) closed (λ path, Ok path) (Ok ()) (Ok false) NoFault.
Definition invoked : result ToolResult * (liveRun * rundir) :=
  LiveRun.InvokeTool (bs "/run") HardwareProofs.hardware_example.printable false (bs "finish") [] (Ok (mkToolResult 0 [])) finished ends
    started.2 started.1.

Lemma session_done : session (λ s, s) services [ports; ports] finished.
Proof.
  apply (session_request (λ s, s) services [ports] built ports sample_finish).
  apply (session_request (λ s, s) services [] services ports). apply session_start.
Qed.

Lemma first_generation : hostServices <$> lrGeneration started.1 = Some services.
Proof. vm_compute. reflexivity. Qed.

Lemma live_run :
  rtc (live_step (bs "/run") (λ s, s) HardwareProofs.hardware_example.printable TestHardwareProfile false false false false false)
    (fresh, dir) invoked.2.
Proof.
  apply rtc_l with started; [apply live_start|]. apply rtc_once. unfold invoked. pose proof first_generation as Hg.
  destruct started as [l d] eqn:E. apply (live_invoke _ _ _ _ _ _ _ _ _ _ _ _ _ [ports; ports]).
  intros g Eg. cbn [fst] in Hg, Eg. rewrite Eg in Hg. cbn in Hg. injection Hg as ->. apply session_done.
Qed.
End live_example.

Lemma live_preserves_history_witness :
  ∃ archives', LoadArchivedGenerations (bs "/run") (entries live_example.invoked.2.2) = Ok archives' ∧ length archives' = 1%nat
    ∧ ValidateArchivedHistory archives' = Ok ().
Proof.
  destruct (live_preserves_history (bs "/run") (λ s, s) HardwareProofs.hardware_example.printable TestHardwareProfile false false false
    false false 1 1 None (Ok 0) None None None None live_example.dir [] live_example.fresh live_example.invoked.2.1
    live_example.invoked.2.2) as (archives' & H1 & _ & H3).
  - vm_compute. reflexivity.
  - vm_compute. reflexivity.
  - left. reflexivity.
  - pose proof live_example.live_run as H. destruct live_example.invoked.2 as [l d]. exact H.
  - exists archives'. split; [exact H1|]. vm_compute in H1. injection H1 as <-. destruct H3 as [H3|H3]; [discriminate H3|].
    split; [reflexivity|exact H3].
Defined.

Lemma live_gate_recoverable_witness :
  ∃ l3, reopenLive (bs "/run") false (Ok false) (Ok false) None live_example.invoked.2.2 live_example.fresh = (Ok (), l3)
    ∧ runPending (lrRun l3) = runPending (lrRun live_example.invoked.2.1) ∧ generationNumber (lrRun l3) = Some 0.
Proof.
  assert (Hs : rtc (live_step (bs "/run") (λ s, s) HardwareProofs.hardware_example.printable TestHardwareProfile false false false false false)
    (live_example.fresh, live_example.dir) (live_example.invoked.2.1, live_example.invoked.2.2))
    by (pose proof live_example.live_run as H; destruct live_example.invoked.2 as [l d]; exact H).
  destruct (live_gate_recoverable (bs "/run") (λ s, s) HardwareProofs.hardware_example.printable TestHardwareProfile false false false
    false false 1 1 None (Ok 0) None None None None live_example.dir [] live_example.fresh live_example.invoked.2.1
    live_example.invoked.2.2 live_example.fresh) as [H1 H2].
  - vm_compute. reflexivity.
  - vm_compute. reflexivity.
  - left. reflexivity.
  - exact Hs.
  - vm_compute. reflexivity.
  - vm_compute. reflexivity.
  - destruct (LoadArchivedGenerations (bs "/run") (entries live_example.invoked.2.2)) as [archives'|] eqn:El.
    2: { vm_compute in El. discriminate El. }
    specialize (H2 [] archives' false eq_refl).
    destruct (reopenLive (bs "/run") false (Ok false) (Ok false) None live_example.invoked.2.2 live_example.fresh) as [[[]|] l3] eqn:E.
    + exists l3. destruct (H1 _ _ _ _ E) as (_ & Hn & Hp & _). split; [reflexivity|]. split; [exact Hp|]. rewrite Hn. vm_compute. reflexivity.
    + exfalso. cbn in H2. discriminate H2; [vm_compute; reflexivity|vm_compute; reflexivity|reflexivity|reflexivity].
Defined.

Lemma finished_generation_archived_witness :
  ∃ dir kernel image, entries live_example.invoked.2.2 !! generationName 0 = Some (ArchiveEntry dir) ∧ dirSuccessor dir = Ok (kernel, image)
    ∧ sha256_hex image = fiSHA256 (live_example.identity (bs "os.iso")).
Proof.
  destruct (finished_generation_archived (bs "/run") (λ s, s) HardwareProofs.hardware_example.printable false live_example.config
    (Some (mkStore Missing ∅)) true false false None None None live_example.services [live_example.ports; live_example.ports]
    live_example.finished (bs "finish") [] (Ok (mkToolResult 0 [])) live_example.ends live_example.started.2 live_example.started.1
    (mkToolResult 0 []) live_example.invoked.2.1 live_example.invoked.2.2)
    as (number & p & staged & ports & dir & kernel & image & H1 & _ & H2 & H3 & _ & _ & _ & H5 & H6 & _ & _ & _ & H7 & _).
  - reflexivity.
  - apply live_example.session_done.
  - intros g Hg. vm_compute in Hg. injection Hg as <-. reflexivity.
  - vm_compute. reflexivity.
  - vm_compute. reflexivity.
  - vm_compute. reflexivity.
  - vm_compute in H1. injection H1 as <-. exists dir, kernel, image. split; [exact H2|]. split; [exact H6|].
    vm_compute in H2. injection H2 as <-. cbn [dirSuccessor] in H6. injection H6 as <- <-. vm_compute. reflexivity.
Defined.


