(* ===== verification/Planning.v ===== *)
(** * Planning evidence (src/internal/provenance/planning.go)

    The private record of a generation's planning turns: one manifest that lists
    the attempts, and a file per response. Every file is replaced by a rename, so a
    write either happens or leaves the file alone; which writes fail is an argument
    of each operation. *)

From S2P Require Import Prelude GoStd Sha256 Json FeatureStore FeatureProofs ArchiveRecord JsonTree JsonCompact JsonAscii.
Open Scope Z_scope.

Definition planningSchemaVersion : Z := 2.

(** [PlanningEvidenceError]: the reason and the cause in one text. *)
Definition planning_error (reason : text) (err : option error) : error :=
  PlainError (reason ++ match err with None => [] | Some err => txt ": " ++ Error err end).

Record PlanningResponseIdentity := mkResponse { prSHA256 : bytes; prSize : Z }.

Inductive attempt_outcome := AttemptActive | AttemptCompleted | AttemptInterrupted | AttemptYielded | AttemptFailed.
Definition attempt_text (o : attempt_outcome) : bytes :=
  match o with
  | AttemptActive => bs "active"
  | AttemptCompleted => bs "completed"
  | AttemptInterrupted => bs "interrupted"
  | AttemptYielded => bs "yielded_for_review"
  | AttemptFailed => bs "failed"
  end.
Inductive plan_stage := StageAllocated | StageStarted | StageAwaitingResume | StageCompleted.
Definition stage_text (s : plan_stage) : bytes :=
  match s with
  | StageAllocated => bs "allocated"
  | StageStarted => bs "started"
  | StageAwaitingResume => bs "awaiting_resume"
  | StageCompleted => bs "completed"
  end.
Inductive plan_outcome := PlanIncomplete | PlanCompleted | PlanFailed.
Definition plan_text (o : plan_outcome) : bytes :=
  match o with PlanIncomplete => bs "incomplete" | PlanCompleted => bs "completed" | PlanFailed => bs "failed" end.

#[global] Instance attempt_outcome_eq_dec : EqDecision attempt_outcome.
Proof. solve_decision. Defined.
#[global] Instance plan_stage_eq_dec : EqDecision plan_stage.
Proof. solve_decision. Defined.
#[global] Instance plan_outcome_eq_dec : EqDecision plan_outcome.
Proof. solve_decision. Defined.

(** What is recorded of a response: its file, whether there was one, and its
    identity. *)
Record response_record := mkRecorded { rrFile : bytes; rrPresent : bool; rrIdentity : PlanningResponseIdentity }.

Record planningAttempt := mkAttempt {
  atNumber : Z;
  atOutcome : attempt_outcome;
  atResponse : option response_record;
  atTurn : option bytes
}.

Record planningManifest := mkPlan {
  plAttempts : list planningAttempt;
  plGeneration : Z;
  plHarness : option jvalue;
  plOutcome : plan_outcome;
  plResponse : option response_record;
  plStage : plan_stage;
  plThread : bytes;
  plTurn : option bytes
}.

(** ** The text of the manifest *)

(** [omitempty]: a missing response leaves its four fields out, an empty digest or
    file name is never written. *)
Definition response_json (r : option response_record) : list (bytes * jvalue) :=
  match r with
  | None => []
  | Some r =>
      [(bs "response_bytes", from_uint64 (prSize (rrIdentity r)))]
      ++ (if bool_decide (rrFile r = []) then [] else [(bs "response_file", JString (rrFile r))])
      ++ [(bs "response_present", JBool (rrPresent r))]
      ++ (if bool_decide (prSHA256 (rrIdentity r) = []) then [] else [(bs "response_sha256", JString (prSHA256 (rrIdentity r)))])
  end.
Definition turn_json (turn : option bytes) : jvalue := match turn with None => JNull | Some t => JString t end.

Definition attempt_json (a : planningAttempt) : jvalue :=
  JObject ([(bs "attempt", from_uint64 (atNumber a)); (bs "outcome", JString (attempt_text (atOutcome a)))]
           ++ response_json (atResponse a) ++ [(bs "turn_id", turn_json (atTurn a))]).

Definition plan_json (m : planningManifest) : jvalue :=
  JObject ([(bs "attempts", JArray (map attempt_json (plAttempts m))); (bs "generation", from_uint64 (plGeneration m))]
           ++ match plHarness m with None => [] | Some h => [(bs "harness_identity", h)] end
           ++ [(bs "kind", JString (bs "generation_plan")); (bs "outcome", JString (plan_text (plOutcome m)))]
           ++ response_json (plResponse m)
           ++ [(bs "schema_version", from_uint64 planningSchemaVersion); (bs "stage", JString (stage_text (plStage m)));
               (bs "thread_id", JString (plThread m)); (bs "turn_id", turn_json (plTurn m))]).

(** ** The directory of a generation *)

Record PlanningEvidence := mkEvidence {
  peManifest : planningManifest;             (* in memory *)
  peFiles : gmap bytes bytes                 (* the files of the directory *)
}.

Definition manifestFile : bytes := bs "manifest.json".
Definition responseName : bytes := bs "response.txt".

(** [failure]: why the temporary file could not be written, synced or renamed. *)
Definition writePlanningBytes (name value : bytes) (failure : option error) (files : gmap bytes bytes) : result (gmap bytes bytes) :=
  match failure with
  | Some err => Err (planning_error (txt "cannot write planning evidence " ++ [Lit name]) (Some err))
  | None => Ok (<[name := value]> files)
  end.

Definition writePlanningJSON (m : planningManifest) (failure : option error) (files : gmap bytes bytes) : result (gmap bytes bytes) :=
  writePlanningBytes manifestFile (EncodeIndentASCII (plan_json m)) failure files.

(** The candidate becomes the manifest once it is written. *)
Definition publishCandidate (candidate : planningManifest) (failure : option error) (e : PlanningEvidence) : result unit * PlanningEvidence :=
  match writePlanningJSON candidate failure (peFiles e) with
  | Err err => (Err err, e)
  | Ok files => (Ok (), mkEvidence candidate files)
  end.

(** [allocated]: making the directory; [identity]: checking the harness identity. *)
Definition Begin (generation : Z) (threadID : bytes) (harness : option jvalue) (allocated identity failure : option error)
  : result PlanningEvidence :=
  if bool_decide (threadID = []) then Err (PlainError (txt "planning thread ID must not be empty"))
  else if negb (utf8.Valid threadID) then Err (PlainError (txt "planning thread ID must be valid UTF-8"))
  else match allocated with
  | Some err => Err err
  | None =>
      match (match harness with Some _ => identity | None => None end) with
      | Some err => Err err
      | None =>
          let manifest := mkPlan [] generation harness PlanIncomplete None StageAllocated threadID None in
          files ← writePlanningJSON manifest failure ∅;
          Ok (mkEvidence manifest files)
      end
  end.

(** ** Attempts *)

Definition set_attempts l m := mkPlan l (plGeneration m) (plHarness m) (plOutcome m) (plResponse m) (plStage m) (plThread m) (plTurn m).
Definition set_stage s o m := mkPlan (plAttempts m) (plGeneration m) (plHarness m) o (plResponse m) s (plThread m) (plTurn m).
Definition set_response r m := mkPlan (plAttempts m) (plGeneration m) (plHarness m) (plOutcome m) r (plStage m) (plThread m) (plTurn m).
Definition set_plan_turn t m := mkPlan (plAttempts m) (plGeneration m) (plHarness m) (plOutcome m) (plResponse m) (plStage m) (plThread m) t.

Definition RecordStarted (turnID : bytes) (failure : option error) (e : PlanningEvidence) : result unit * PlanningEvidence :=
  let m := peManifest e in
  if bool_decide (turnID = []) then (Err (PlainError (txt "planning turn ID must not be empty")), e)
  else if negb (utf8.Valid turnID) then (Err (PlainError (txt "planning turn ID must be valid UTF-8")), e)
  else match plStage m with
  | StageAllocated | StageAwaitingResume =>
      let attempt := mkAttempt (wrap64 (len (plAttempts m) + 1)) AttemptActive None (Some turnID) in
      publishCandidate (set_stage StageStarted (plOutcome m) (set_plan_turn (Some turnID) (set_attempts (plAttempts m ++ [attempt]) m)))
        failure e
  | _ => (Err (planning_error (txt "planning evidence cannot start another attempt") None), e)
  end.

Definition activeAttempt (m : planningManifest) : result planningAttempt :=
  match plStage m, last (plAttempts m) with
  | StageStarted, Some attempt =>
      if negb (bool_decide (atOutcome attempt = AttemptActive)) then Err (planning_error (txt "planning evidence has no active attempt") None)
      else Ok attempt
  | _, _ => Err (planning_error (txt "planning evidence is not active") None)
  end.

(** The last attempt with a new outcome and, maybe, a response. *)
Definition closeAttempt (o : attempt_outcome) (r : option response_record) (m : planningManifest) : planningManifest :=
  match last (plAttempts m) with
  | Some a =>
      set_attempts (removelast (plAttempts m)
        ++ [mkAttempt (atNumber a) o (match r with Some r => Some r | None => atResponse a end) (atTurn a)]) m
  | None => m
  end.

Definition identity_of (response : bytes) : PlanningResponseIdentity := mkResponse (sha256_hex response) (len response).

Definition attemptFile (number : Z) (suffix : string) : bytes := bs "attempt-" ++ padded 4 number ++ bs suffix.

(** [written]: writing the response; [failure]: writing the manifest. *)
Definition Complete (outcome : bytes) (response : option bytes) (written failure : option error) (e : PlanningEvidence)
  : result PlanningResponseIdentity * PlanningEvidence :=
  let m := peManifest e in
  let completed := bool_decide (outcome = bs "completed") in
  if negb completed && negb (bool_decide (outcome = bs "interrupted")) then
    (Err (PlainError (txt "planning completion outcome is invalid")), e)
  else match activeAttempt m with
  | Err err => (Err err, e)
  | Ok active =>
      let exactResponse := default [] response in
      if negb (utf8.Valid exactResponse) then (Err (PlainError (txt "planning response must be valid UTF-8")), e)
      else
        let responseFile := if completed then responseName else attemptFile (atNumber active) "-response.txt" in
        match writePlanningBytes responseFile exactResponse written (peFiles e) with
        | Err err => (Err err, e)
        | Ok files =>
            let r := mkRecorded responseFile (bool_decide (is_Some response)) (identity_of exactResponse) in
            let candidate := closeAttempt (if completed then AttemptCompleted else AttemptInterrupted) (Some r) m in
            let candidate := if completed then set_response (Some r) (set_stage StageCompleted PlanCompleted candidate)
                             else set_stage StageAwaitingResume PlanIncomplete candidate in
            let '(published, e) := publishCandidate candidate failure (mkEvidence m files) in
            (match published with Err err => Err err | Ok _ => Ok (identity_of exactResponse) end, e)
        end
  end.

Definition RecordYielded (proposal : bytes) (written failure : option error) (e : PlanningEvidence)
  : result PlanningResponseIdentity * PlanningEvidence :=
  let m := peManifest e in
  if negb (utf8.Valid proposal) then (Err (PlainError (txt "planning proposal must be valid UTF-8")), e)
  else match activeAttempt m with
  | Err err => (Err err, e)
  | Ok active =>
      let responseFile := attemptFile (atNumber active) "-proposal.txt" in
      match writePlanningBytes responseFile proposal written (peFiles e) with
      | Err err => (Err err, e)
      | Ok files =>
          let r := mkRecorded responseFile true (identity_of proposal) in
          let candidate := set_stage StageAwaitingResume PlanIncomplete (closeAttempt AttemptYielded (Some r) m) in
          let '(published, e) := publishCandidate candidate failure (mkEvidence m files) in
          (match published with Err err => Err err | Ok _ => Ok (identity_of proposal) end, e)
      end
  end.

Definition Fail (failure : option error) (e : PlanningEvidence) : result unit * PlanningEvidence :=
  let m := peManifest e in
  match plOutcome m with
  | PlanCompleted | PlanFailed => (Ok (), e)
  | PlanIncomplete =>
      match (match plStage m with
             | StageStarted => _ ← activeAttempt m; Ok (closeAttempt AttemptFailed None m)
             | _ => Ok (set_attempts (plAttempts m ++ [mkAttempt (wrap64 (len (plAttempts m) + 1)) AttemptFailed None None]) m)
             end) with
      | Err err => (Err err, e)
      | Ok candidate => publishCandidate (set_stage StageCompleted PlanFailed candidate) failure e
      end
  end.

Definition RecordRetryableFailure (failure : option error) (e : PlanningEvidence) : result unit * PlanningEvidence :=
  let m := peManifest e in
  match activeAttempt m with
  | Err err => (Err err, e)
  | Ok _ => publishCandidate (set_stage StageAwaitingResume PlanIncomplete (closeAttempt AttemptFailed None m)) failure e
  end.
