(* ===== verification/PlanningProofs.v ===== *)
(** * The planning record can be trusted

    Whatever operations run and whichever writes fail, the manifest on disk is the
    one in memory and reads back, every recorded response is on disk with its
    digest, and an outcome is final. *)

From S2P Require Import Prelude GoStd Sha256 Json FeatureStore FeatureProofs ArchiveRecord JsonTree OperatorLedgerProofs JsonCompact JsonAscii Planning.
Open Scope Z_scope.

(** ** File names *)

Lemma digits_sep (d1 d2 r1 r2 : bytes) :
  forallb strconv.is_digit d1 = true → forallb strconv.is_digit d2 = true → d1 ++ x2d :: r1 = d2 ++ x2d :: r2 → d1 = d2 ∧ r1 = r2.
Proof.
  revert d2. induction d1 as [|b d1 IH]; intros [|c d2] H1 H2 E; cbn in *.
  - injection E as ->. done.
  - injection E as <- _. apply andb_true_iff in H2 as [H2 _]. by vm_compute in H2.
  - injection E as -> _. apply andb_true_iff in H1 as [H1 _]. by vm_compute in H1.
  - injection E as <- E. apply andb_true_iff in H1 as [_ H1], H2 as [_ H2]. destruct (IH d2 H1 H2 E) as [-> ->]. done.
Qed.

Lemma attemptFile_inj n m s1 s2 r1 r2 :
  u64 n → u64 m → bs s1 = x2d :: r1 → bs s2 = x2d :: r2 → attemptFile n s1 = attemptFile m s2 → n = m ∧ bs s1 = bs s2.
Proof.
  intros Hn Hm E1 E2 E. unfold attemptFile in E. apply app_inv_head in E. rewrite E1, E2 in E.
  destruct (padded_digits 4 n Hn) as (Hd1 & _), (padded_digits 4 m Hm) as (Hd2 & _).
  destruct (digits_sep _ _ _ _ Hd1 Hd2 E) as [Ep Er]. rewrite E1, E2, Er. split; [|done].
  pose proof (ParseUint_padded 4 n Hn) as P1. rewrite Ep, (ParseUint_padded 4 m Hm) in P1. congruence.
Qed.

Definition ownFile (n : Z) (file : bytes) : Prop :=
  file = responseName ∨ file = attemptFile n "-response.txt" ∨ file = attemptFile n "-proposal.txt".

Lemma attemptFile_other n m s file :
  u64 n → u64 m → n ≠ m → s = "-response.txt"%string ∨ s = "-proposal.txt"%string → ownFile m file → file ≠ attemptFile n s.
Proof.
  intros Hn Hm Hne Hs Hf ->. assert (Hr : ∃ r, bs s = x2d :: r) by (destruct Hs as [-> | ->]; by eexists). destruct Hr as [r Hr].
  destruct Hf as [Hf|[Hf|Hf]]; [by unfold attemptFile in Hf|..];
    (eapply attemptFile_inj in Hf as [? _]; [done|done|done|exact Hr|reflexivity]).
Qed.

Lemma attemptFile_plain n s : attemptFile n s ≠ manifestFile ∧ attemptFile n s ≠ responseName.
Proof. split; intros H; by unfold attemptFile in H. Qed.

(** ** The invariant *)

(** A response on record is on disk, in a file of its attempt. *)
Definition recorded (files : gmap bytes bytes) (n : Z) (r : response_record) : Prop :=
  ownFile n (rrFile r) ∧ ∃ content, files !! rrFile r = Some content ∧ rrIdentity r = identity_of content ∧ len content < 2 ^ 63.

Record attempt_ok (m : planningManifest) (files : gmap bytes bytes) (i : nat) (a : planningAttempt) : Prop := {
  ao_number : atNumber a = Z.of_nat i + 1;
  ao_turn : ∀ t, atTurn a = Some t → utf8.Valid t = true;
  ao_response : ∀ r, atResponse a = Some r → recorded files (atNumber a) r;
  ao_active : atOutcome a = AttemptActive → plStage m = StageStarted ∧ S i = length (plAttempts m);
  ao_unpublished : plStage m ≠ StageCompleted → ∀ r, atResponse a = Some r → rrFile r ≠ responseName
}.

Definition stage_ok (m : planningManifest) : Prop :=
  match plStage m with
  | StageStarted => plOutcome m = PlanIncomplete ∧ plResponse m = None
      ∧ ∃ l a, plAttempts m = l ++ [a] ∧ atOutcome a = AttemptActive ∧ atResponse a = None
  | StageCompleted =>
      plOutcome m = PlanFailed ∧ plResponse m = None
      ∨ plOutcome m = PlanCompleted ∧ ∃ l a r, plAttempts m = l ++ [a] ∧ atOutcome a = AttemptCompleted ∧ atResponse a = Some r
          ∧ plResponse m = Some r ∧ rrFile r = responseName
  | _ => plOutcome m = PlanIncomplete ∧ plResponse m = None
  end.

Record content_inv (m : planningManifest) (files : gmap bytes bytes) : Prop := {
  ci_attempts : ∀ i a, plAttempts m !! i = Some a → attempt_ok m files i a;
  ci_stage : stage_ok m;
  ci_length : len (plAttempts m) < 2 ^ 63;
  ci_generation : u64 (plGeneration m);
  ci_thread : utf8.Valid (plThread m) = true;
  ci_turn : ∀ t, plTurn m = Some t → utf8.Valid t = true;
  ci_harness : ∀ h, plHarness m = Some h → json_ok h ∧ (json_depth h ≤ 100)%nat
}.

Definition plan_inv (e : PlanningEvidence) : Prop :=
  content_inv (peManifest e) (peFiles e) ∧ peFiles e !! manifestFile = Some (EncodeIndentASCII (plan_json (peManifest e))).

Lemma own_not_manifest n file : ownFile n file → file ≠ manifestFile.
Proof. intros [->|[->| ->]]; [done|apply attemptFile_plain..]. Qed.

Lemma recorded_insert files n r name value :
  recorded files n r → rrFile r ≠ name → recorded (<[name := value]> files) n r.
Proof. intros (Ho & c & Hc & H) Hne. split; [done|]. exists c. by rewrite lookup_insert_ne. Qed.

Lemma content_insert m files name value :
  content_inv m files → (∀ i a r, plAttempts m !! i = Some a → atResponse a = Some r → rrFile r ≠ name) →
  content_inv m (<[name := value]> files).
Proof.
  intros [Ha Hs Hl Hg Ht Htu Hh] Hne. split; try done. intros i a Hi. destruct (Ha i a Hi) as [H1 H2 H3 H4 H5]. split; try done.
  intros r Hr. apply recorded_insert; [by apply H3|by eapply Hne].
Qed.

(** Writing the manifest disturbs no response. *)
Lemma content_manifest m files value : content_inv m files → content_inv m (<[manifestFile := value]> files).
Proof.
  intros H. apply content_insert; [done|]. intros i a r Hi Hr.
  destruct (ao_response _ _ _ _ (ci_attempts _ _ H i a Hi) r Hr) as [Ho _]. by eapply own_not_manifest.
Qed.

Lemma publish_inv candidate failure e res e' :
  publishCandidate candidate failure e = (res, e') → plan_inv e → content_inv candidate (peFiles e) →
  (res = Ok () ∧ peManifest e' = candidate ∨ is_ok res = false ∧ e' = e) ∧ plan_inv e'.
Proof.
  unfold publishCandidate, writePlanningJSON, writePlanningBytes. intros E Hinv Hc. destruct failure; injection E as <- <-.
  - split; [by right|done].
  - split; [by left|]. split; [by apply content_manifest|]. apply lookup_insert_eq.
Qed.

Lemma closeAttempt_snoc o r m l a :
  plAttempts m = l ++ [a] →
  closeAttempt o r m = set_attempts (l ++ [mkAttempt (atNumber a) o (match r with Some r => Some r | None => atResponse a end) (atTurn a)]) m.
Proof. intros E. unfold closeAttempt. by rewrite E, last_snoc, removelast_last. Qed.

Lemma activeAttempt_inv m files a : content_inv m files → activeAttempt m = Ok a →
  plStage m = StageStarted ∧ ∃ l, plAttempts m = l ++ [a] ∧ atOutcome a = AttemptActive ∧ atResponse a = None
    ∧ plOutcome m = PlanIncomplete ∧ plResponse m = None.
Proof.
  intros Hc E. unfold activeAttempt in E. destruct (plStage m) eqn:Es; try done.
  pose proof (ci_stage _ _ Hc) as Hs. unfold stage_ok in Hs. rewrite Es in Hs. destruct Hs as (Ho & Hr & l & b & El & Hb & Hbr).
  rewrite El, last_snoc in E. case_bool_decide; [|done]. injection E as <-. split; [done|]. by exists l.
Qed.

Lemma snoc_lookup {A} (l : list A) a i x : (l ++ [a]) !! i = Some x → l !! i = Some x ∨ i = length l ∧ x = a.
Proof.
  intros H. apply lookup_app_Some in H as [H|[Hle H]]; [by left|]. apply list_lookup_singleton_Some in H as [Hi <-]. right. split; [lia|done].
Qed.

(** Closing the active attempt: a response it gets is in a file of its own. *)
Lemma close_content m files l a o r stage outcome response :
  content_inv m files → plStage m = StageStarted → plAttempts m = l ++ [a] → atResponse a = None → o ≠ AttemptActive →
  (∀ x, r = Some x → recorded files (atNumber a) x) → (stage ≠ StageCompleted → ∀ x, r = Some x → rrFile x ≠ responseName) →
  stage ≠ StageStarted →
  let m' := set_response response (set_stage stage outcome (closeAttempt o r m)) in
  stage_ok m' → content_inv m' files.
Proof.
  intros Hc Hst El Har Ho Hr Hfile Hstage m' Hok. subst m'. rewrite (closeAttempt_snoc _ _ _ _ _ El) in *. destruct Hc as [Ha _ Hl Hg Ht Htu Hh].
  assert (Hold : ∀ i x, l !! i = Some x → attempt_ok m files i x)
    by (intros i x Hi; apply Ha; rewrite El; by apply lookup_app_l_Some).
  assert (Hlast : attempt_ok m files (length l) a) by (apply Ha; rewrite El; by apply list_lookup_middle).
  split; try done.
  - intros i x Hi. cbn in Hi. apply snoc_lookup in Hi as [Hi|[-> ->]].
    + destruct (Hold i x Hi) as [H1 H2 H3 H4 H5]. split; try done; cbn.
      * intros Hact. destruct (H4 Hact) as [_ Hi']. rewrite El, length_app in Hi'. apply lookup_lt_Some in Hi. cbn in Hi'. lia.
      * intros _. apply H5. congruence.
    + destruct Hlast as [H1 H2 H3 H4 H5]. split; cbn; [done|done| |done|].
      * rewrite Har. destruct r; [|done]. intros x [= <-]. by apply Hr.
      * intros Hs. rewrite Har. destruct r; [|done]. intros x [= <-]. by apply Hfile.
  - cbn. rewrite El, len_app in Hl. rewrite len_app. exact Hl.
Qed.

(** Closing it without publishing a response: the plan waits for another attempt, or failed. *)
Lemma close_unpublished m files l a o r stage outcome :
  content_inv m files → plStage m = StageStarted → plAttempts m = l ++ [a] → atResponse a = None → plResponse m = None → o ≠ AttemptActive →
  (∀ x, r = Some x → recorded files (atNumber a) x ∧ rrFile x ≠ responseName) →
  stage = StageAwaitingResume ∧ outcome = PlanIncomplete ∨ stage = StageCompleted ∧ outcome = PlanFailed →
  content_inv (set_stage stage outcome (closeAttempt o r m)) files.
Proof.
  intros Hc Hst El Har Hr Ho Hrec Hcase.
  assert (H : content_inv (set_response None (set_stage stage outcome (closeAttempt o r m))) files).
  { apply (close_content _ _ l a); try done; [by intros; apply Hrec|by intros; apply Hrec|by destruct Hcase as [[-> _]|[-> _]]|].
    unfold stage_ok. cbn. destruct Hcase as [[-> ->]|[-> ->]]; [done|by left]. }
  unfold set_response in H. rewrite (closeAttempt_snoc _ _ _ _ _ El) in *. cbn in *. rewrite <- Hr in H. exact H.
Qed.

(** Beginning an attempt, active or failed at once. *)
Lemma append_content m files o turn planTurn stage outcome :
  content_inv m files → plStage m ≠ StageCompleted → (plStage m = StageStarted → False) → len (plAttempts m) + 1 < 2 ^ 63 →
  (∀ t, turn = Some t → utf8.Valid t = true) → (∀ t, planTurn = Some t → utf8.Valid t = true) → (o = AttemptActive → stage = StageStarted) →
  let m' := set_stage stage outcome (set_plan_turn planTurn
              (set_attempts (plAttempts m ++ [mkAttempt (wrap64 (len (plAttempts m) + 1)) o None turn]) m)) in
  stage_ok m' → content_inv m' files.
Proof.
  intros [Ha Hs0 Hl Hg Ht Htu Hh] Hnc Hns Hlen Hturn Hplan Hact m' Hok. subst m'. split; try done.
  - intros i x Hi. cbn in Hi. apply snoc_lookup in Hi as [Hi|[-> ->]].
    + destruct (Ha i x Hi) as [H1 H2 H3 H4 H5]. split; try done; cbn.
      * intros Hx. destruct (H4 Hx) as [Hst _]. done.
      * intros _. by apply H5.
    + split; cbn; [|done|done| |done].
      * unfold wrap64. rewrite Z.mod_small; [unfold len; lia|]. pose proof (len_nonneg (plAttempts m)). lia.
      * intros Ho. split; [by apply Hact|]. rewrite length_app. cbn. lia.
  - cbn. rewrite len_app. change (len [_]) with 1. lia.
Qed.

(** ** Operations *)

Lemma RecordStarted_inv turnID failure e res e' :
  RecordStarted turnID failure e = (res, e') → plan_inv e → len (plAttempts (peManifest e)) + 1 < 2 ^ 63 → plan_inv e'.
Proof.
  unfold RecordStarted. intros E Hinv Hlen. case_bool_decide; [by injection E as <- <-|].
  destruct (utf8.Valid turnID) eqn:Hu; cbn [negb] in E; [|by injection E as <- <-].
  destruct Hinv as [Hc Hm] eqn:Ehi. clear Ehi. pose proof (ci_stage _ _ Hc) as Hs. unfold stage_ok in Hs.
  destruct (plStage (peManifest e)) eqn:Est; try (injection E as <- <-; done);
    (eapply publish_inv in E as [_ ?]; [done|done|]; destruct Hs as [Ho Hr];
     apply append_content; [done|by rewrite Est|by rewrite Est|done|by intros t [= <-]|by intros t [= <-]|done|];
     unfold stage_ok; cbn; split_and!; [done|done|by eexists _, _]).
Qed.

(** A file of the active attempt, or the response file, may be written. *)
Lemma write_free m files l a name value :
  content_inv m files → plStage m = StageStarted → plAttempts m = l ++ [a] → atResponse a = None →
  (name = responseName ∨ ∃ s, name = attemptFile (atNumber a) s ∧ (s = "-response.txt" ∨ s = "-proposal.txt")%string) →
  content_inv m (<[name := value]> files).
Proof.
  intros Hc Hst El Har Hname. apply content_insert; [done|]. intros i x r Hi Hr. rewrite El in Hi.
  apply snoc_lookup in Hi as [Hi|[-> ->]]; [|congruence].
  assert (Hx : attempt_ok m files i x) by (apply (ci_attempts _ _ Hc); rewrite El; by apply lookup_app_l_Some).
  destruct Hname as [->|(s & -> & Hs)]; [apply (ao_unpublished _ _ _ _ Hx); [by rewrite Hst|done]|].
  assert (Ha : attempt_ok m files (length l) a) by (apply (ci_attempts _ _ Hc); rewrite El; by apply list_lookup_middle).
  pose proof (ci_length _ _ Hc) as Hl. rewrite El, len_app in Hl. change (len [a]) with 1 in Hl. apply lookup_lt_Some in Hi.
  destruct (ao_response _ _ _ _ Hx r Hr) as [Ho _]. eapply attemptFile_other; [| | |exact Hs|exact Ho];
    rewrite ?(ao_number _ _ _ _ Ha), ?(ao_number _ _ _ _ Hx); unfold u64, len in *; lia.
Qed.

Lemma own_file a completed :
  ownFile (atNumber a) (if completed : bool then responseName else attemptFile (atNumber a) "-response.txt").
Proof. destruct completed; [by left|right; by left]. Qed.

Lemma Complete_inv outcome response written failure e res e' :
  Complete outcome response written failure e = (res, e') → plan_inv e → len (default [] response) < 2 ^ 63 → plan_inv e'.
Proof.
  unfold Complete. intros E [Hc Hm] Hsize. destruct (negb _ && negb _); [by injection E as <- <-|].
  destruct (activeAttempt _) as [a|] eqn:Ea; [|by injection E as <- <-]. destruct (negb (utf8.Valid _)); [by injection E as <- <-|].
  destruct (activeAttempt_inv _ _ _ Hc Ea) as (Hst & l & El & Hact & Har & Ho & Hr). unfold writePlanningBytes in E.
  destruct written; [by injection E as <- <-|]. set (completed := bool_decide (outcome = bs "completed")) in *. clearbody completed.
  set (content := default [] response) in *.
  set (file := if completed then responseName else attemptFile (atNumber a) "-response.txt") in *.
  set (files := <[file := content]> (peFiles e)) in *. set (r := mkRecorded file _ _) in *.
  assert (Hc' : content_inv (peManifest e) files).
  { eapply write_free; [done|done|done|done|]. subst file. destruct completed; [by left|right; eexists; by auto]. }
  assert (Hfile : file ≠ manifestFile) by (eapply own_not_manifest, own_file).
  assert (Hinv : plan_inv (mkEvidence (peManifest e) files)) by (split; [done|]; cbn [peFiles peManifest]; unfold files; by rewrite lookup_insert_ne).
  assert (Hrec : recorded files (atNumber a) r) by (split; [apply own_file|]; exists content; split; [apply lookup_insert_eq|done]).
  set (candidate := if completed then _ else _) in E.
  assert (Hcand : content_inv candidate files).
  { subst candidate. destruct completed.
    - apply (close_content _ _ l a AttemptCompleted (Some r) StageCompleted PlanCompleted (Some r)); try done; [by intros x [= <-]|].
      unfold stage_ok. rewrite (closeAttempt_snoc _ _ _ _ _ El). cbn. right. split; [done|]. by eexists _, _, _.
    - apply (close_unpublished _ _ l a); try done; [|by left]. intros x [= <-]. split; [done|]. apply attemptFile_plain. }
  destruct (publishCandidate candidate failure _) as [published e2] eqn:Ep. injection E as _ <-.
  eapply publish_inv in Ep as [_ ?]; done.
Qed.

Lemma RecordYielded_inv proposal written failure e res e' :
  RecordYielded proposal written failure e = (res, e') → plan_inv e → len proposal < 2 ^ 63 → plan_inv e'.
Proof.
  unfold RecordYielded. intros E [Hc Hm] Hsize. destruct (negb (utf8.Valid _)); [by injection E as <- <-|].
  destruct (activeAttempt _) as [a|] eqn:Ea; [|by injection E as <- <-].
  destruct (activeAttempt_inv _ _ _ Hc Ea) as (Hst & l & El & Hact & Har & Ho & Hr). unfold writePlanningBytes in E.
  destruct written; [by injection E as <- <-|]. set (file := attemptFile (atNumber a) "-proposal.txt") in *.
  set (files := <[file := proposal]> (peFiles e)) in *. set (r := mkRecorded file _ _) in *.
  assert (Hown : ownFile (atNumber a) file) by (right; by right).
  assert (Hc' : content_inv (peManifest e) files).
  { eapply write_free; [done|done|done|done|]. right. eexists. by auto. }
  assert (Hinv : plan_inv (mkEvidence (peManifest e) files)) by (split; [done|]; cbn [peFiles peManifest]; unfold files; rewrite lookup_insert_ne; [done|by eapply own_not_manifest]).
  assert (Hrec : recorded files (atNumber a) r) by (split; [done|]; exists proposal; split; [apply lookup_insert_eq|done]).
  destruct (publishCandidate _ failure _) as [published e2] eqn:Ep. injection E as _ <-.
  eapply publish_inv in Ep as [_ ?]; [done|done|].
  apply (close_unpublished _ _ l a); try done; [|by left]. intros x [= <-]. split; [done|]. apply attemptFile_plain.
Qed.

Lemma Fail_inv failure e res e' :
  Fail failure e = (res, e') → plan_inv e → len (plAttempts (peManifest e)) + 1 < 2 ^ 63 → plan_inv e'.
Proof.
  unfold Fail. intros E Hinv Hlen. destruct (plOutcome (peManifest e)) eqn:Eo; [|by injection E as <- <-..].
  pose proof Hinv as [Hc Hm]. pose proof (ci_stage _ _ Hc) as Hs. unfold stage_ok in Hs.
  destruct (plStage (peManifest e)) eqn:Est.
  1,3: destruct Hs as [Ho Hr]; eapply publish_inv in E as [_ ?]; [done|done|];
    apply (append_content _ _ AttemptFailed None (plTurn (peManifest e)) StageCompleted PlanFailed); try done;
    [by rewrite Est|by rewrite Est|by apply ci_turn with (peFiles e)|by left].
  - destruct Hs as (_ & Hr & l & a & El & Hact & Har). unfold activeAttempt in E. rewrite Est, El, last_snoc, bool_decide_eq_true_2 in E by done.
    cbn [negb mbind result_bind] in E. eapply publish_inv in E as [_ ?]; [done|done|]. eapply close_unpublished; try done. by right.
  - destruct Hs as [[Ho _]|[Ho _]]; congruence.
Qed.

Lemma RecordRetryableFailure_inv failure e res e' :
  RecordRetryableFailure failure e = (res, e') → plan_inv e → plan_inv e'.
Proof.
  unfold RecordRetryableFailure. intros E Hinv. destruct (activeAttempt _) as [a|] eqn:Ea; [|by injection E as <- <-].
  pose proof Hinv as [Hc Hm]. destruct (activeAttempt_inv _ _ _ Hc Ea) as (Hst & l & El & Hact & Har & Ho & Hr).
  eapply publish_inv in E as [_ ?]; [done|done|]. eapply close_unpublished; try done. by left.
Qed.

(** ** The manifest reads back *)

Lemma ownFile_valid n file : u64 n → ownFile n file → utf8.Valid file = true.
Proof.
  intros Hn. destruct (padded_digits 4 n Hn) as [Hd _]. assert (Hp : utf8.Valid (padded 4 n) = true) by by apply Valid_digits.
  intros [->|[->| ->]]; [by vm_compute|..]; unfold attemptFile; (apply Valid_app_both; [by vm_compute|]);
    (apply Valid_app_both; [done|by vm_compute]).
Qed.

Lemma turn_json_ok turn : (∀ t, turn = Some t → utf8.Valid t = true) → json_ok (turn_json turn).
Proof. destruct turn; cbn; [|done]. intros H. by apply H. Qed.

Definition member_ok (m : bytes * jvalue) : Prop := utf8.Valid m.1 = true ∧ json_ok m.2.

Lemma response_json_ok files n r : u64 n → (∀ x, r = Some x → recorded files n x) → Forall member_ok (response_json r).
Proof.
  intros Hn Hr. destruct r as [x|]; [|constructor]. destruct (Hr x eq_refl) as (Ho & c & _ & Hi & Hl). unfold response_json.
  rewrite Hi. cbn [identity_of prSHA256 prSize]. pose proof (len_nonneg c).
  repeat apply Forall_app_2; try (case_bool_decide; [constructor|]);
    (apply Forall_singleton; split; cbn [fst snd]; [by vm_compute|]); cbn [json_ok];
    [apply json_ok_uint64; unfold u64; lia|by eapply ownFile_valid|done|apply hexbytes_valid].
Qed.

Ltac members := repeat apply Forall_app_2; repeat apply Forall_cons_2; try apply Forall_nil_2;
  try (split; cbn [fst snd]; [by vm_compute|]).

Lemma attempt_json_ok m files i a : u64 (Z.of_nat i + 1) → attempt_ok m files i a → json_ok (attempt_json a).
Proof.
  intros Hi [Hn Ht Hr _ _]. rewrite <- Hn in Hi. unfold attempt_json. cbn [json_ok]. apply all_of_Forall.
  change (Forall member_ok ([(bs "attempt", from_uint64 (atNumber a)); (bs "outcome", JString (attempt_text (atOutcome a)))]
           ++ response_json (atResponse a) ++ [(bs "turn_id", turn_json (atTurn a))])).
  members; [by apply json_ok_uint64|by destruct (atOutcome a)|by eapply response_json_ok|by apply turn_json_ok].
Qed.

Lemma last_recorded m files r : content_inv m files → plResponse m = Some r → ∃ n, u64 n ∧ recorded files n r.
Proof.
  intros Hc Hr. pose proof (ci_stage _ _ Hc) as Hs. unfold stage_ok in Hs.
  destruct (plStage m); try (destruct Hs as (_ & Hn & _); congruence); try (destruct Hs as (_ & Hn); congruence).
  destruct Hs as [[_ Hn]|(_ & l & a & x & El & _ & Hx & Hn & _)]; [congruence|]. assert (x = r) as -> by congruence.
  assert (Ha : attempt_ok m files (length l) a) by (apply (ci_attempts _ _ Hc); rewrite El; by apply list_lookup_middle).
  exists (atNumber a). split; [|by apply Ha]. rewrite (ao_number _ _ _ _ Ha). pose proof (ci_length _ _ Hc) as Hl.
  rewrite El, len_app in Hl. change (len [a]) with 1 in Hl. unfold u64, len in *. lia.
Qed.

Lemma plan_json_ok m files : content_inv m files → json_ok (plan_json m).
Proof.
  intros Hc. unfold plan_json. cbn [json_ok]. apply all_of_Forall.
  match goal with |- Forall _ ?l => change (Forall member_ok l) end.
  assert (Hresp : Forall member_ok (response_json (plResponse m))).
  { destruct (plResponse m) as [r|] eqn:Er; [|constructor]. destruct (last_recorded _ _ _ Hc Er) as (n & Hn & Hr).
    apply (response_json_ok files n); [done|]. by intros x [= <-]. }
  assert (Hlist : json_ok (JArray (map attempt_json (plAttempts m)))).
  { cbn [json_ok]. apply all_of_Forall, Forall_fmap, Forall_lookup. intros i a Hi.
    apply (attempt_json_ok m files i); [|by apply (ci_attempts _ _ Hc)].
    pose proof (ci_length _ _ Hc). apply lookup_lt_Some in Hi. unfold u64, len in *. lia. }
  destruct Hc as [_ _ _ Hg Ht Htu Hh]. members; try exact Hlist; try exact Hresp; try exact Ht.
  - by apply json_ok_uint64.
  - destruct (plHarness m); members. by apply Hh.
  - by vm_compute.
  - by destruct (plOutcome m).
  - by apply json_ok_uint64.
  - by destruct (plStage m).
  - by apply turn_json_ok.
Qed.

Lemma response_depth r : Forall (λ m : bytes * jvalue, (json_depth m.2 ≤ 0)%nat) (response_json r).
Proof.
  destruct r as [r|]; [|constructor]. unfold response_json. repeat apply Forall_app_2; try (case_bool_decide; [constructor|]);
    (apply Forall_singleton; cbn; lia).
Qed.

Lemma turn_depth t : json_depth (turn_json t) = 0%nat.
Proof. by destruct t. Qed.

Lemma attempt_depth a : (json_depth (attempt_json a) ≤ 1)%nat.
Proof.
  unfold attempt_json. cbn [json_depth]. apply le_n_S, maximum_le.
  repeat apply Forall_app_2; [repeat constructor|apply response_depth|apply Forall_singleton; cbn [snd]; by rewrite turn_depth].
Qed.

Lemma plan_depth m files : content_inv m files → (json_depth (plan_json m) ≤ 101)%nat.
Proof.
  intros Hc. unfold plan_json. cbn [json_depth]. apply le_n_S, maximum_le.
  repeat apply Forall_app_2; repeat apply Forall_cons_2; try apply Forall_nil_2; try (cbn; lia).
  - cbn [snd json_depth]. transitivity 2%nat; [|lia]. apply le_n_S, maximum_le, Forall_fmap, Forall_forall. intros a _. apply attempt_depth.
  - destruct (plHarness m) as [h|] eqn:Eh; [|constructor]. apply Forall_singleton. by apply (ci_harness _ _ Hc).
  - eapply Forall_impl; [apply response_depth|]. cbn. lia.
  - cbn [snd]. rewrite turn_depth. lia.
Qed.

(** ** A run of operations *)

(** An operation of the session, with whatever its writes answer; Go's lengths are
    below 2^63. *)
Inductive planning_step (e e' : PlanningEvidence) : Prop :=
| do_started turnID failure res :
    RecordStarted turnID failure e = (res, e') → len (plAttempts (peManifest e)) + 1 < 2 ^ 63 → planning_step e e'
| do_complete outcome response written failure res :
    Complete outcome response written failure e = (res, e') → len (default [] response) < 2 ^ 63 → planning_step e e'
| do_yielded proposal written failure res :
    RecordYielded proposal written failure e = (res, e') → len proposal < 2 ^ 63 → planning_step e e'
| do_fail failure res :
    Fail failure e = (res, e') → len (plAttempts (peManifest e)) + 1 < 2 ^ 63 → planning_step e e'
| do_retryable failure res :
    RecordRetryableFailure failure e = (res, e') → planning_step e e'.

(** The evidence a session can hold: begun, then operated on. *)
Definition evidence_reachable (e : PlanningEvidence) : Prop :=
  ∃ generation threadID harness allocated identity failure e0,
    u64 generation ∧ (∀ h, harness = Some h → json_ok h ∧ (json_depth h ≤ 100)%nat)
    ∧ Begin generation threadID harness allocated identity failure = Ok e0 ∧ rtc planning_step e0 e.

Lemma Begin_inv generation threadID harness allocated identity failure e :
  Begin generation threadID harness allocated identity failure = Ok e → u64 generation →
  (∀ h, harness = Some h → json_ok h ∧ (json_depth h ≤ 100)%nat) → plan_inv e.
Proof.
  unfold Begin. intros E Hg Hh. case_bool_decide; [done|]. destruct (utf8.Valid threadID) eqn:Hu; [|done]. destruct allocated; [done|].
  destruct (match harness with Some _ => identity | None => None end); [done|]. unfold writePlanningJSON, writePlanningBytes in E.
  destruct failure; [done|]. injection E as <-. split; [|apply lookup_insert_eq]. by split.
Qed.

Lemma planning_step_inv e e' : planning_step e e' → plan_inv e → plan_inv e'.
Proof.
  intros [] Hinv; [by eapply RecordStarted_inv|by eapply Complete_inv|by eapply RecordYielded_inv|by eapply Fail_inv
    |by eapply RecordRetryableFailure_inv].
Qed.

Lemma planning_steps_inv e e' : rtc planning_step e e' → plan_inv e → plan_inv e'.
Proof. induction 1 as [|e e1 e2 Hstep _ IH]; [done|]. intros H. by apply IH, (planning_step_inv e). Qed.

Lemma evidence_reachable_inv e : evidence_reachable e → plan_inv e.
Proof.
  intros (g & t & h & a & i & f & e0 & Hg & Hh & HB & Hs). apply Begin_inv in HB; [|done|done].
  by eapply planning_steps_inv.
Qed.

Definition keeps (m m' : planningManifest) : Prop :=
  ∀ i a, plAttempts m !! i = Some a → atOutcome a ≠ AttemptActive → plAttempts m' !! i = Some a.

Lemma keeps_publish candidate failure e res e' :
  publishCandidate candidate failure e = (res, e') → keeps (peManifest e) candidate → keeps (peManifest e) (peManifest e').
Proof.
  unfold publishCandidate, writePlanningJSON, writePlanningBytes. intros E Hk. destruct failure; injection E as _ <-; [by intros i a|exact Hk].
Qed.

Lemma keeps_close m a o r : activeAttempt m = Ok a → keeps m (closeAttempt o r m).
Proof.
  unfold activeAttempt, closeAttempt, keeps. intros E i x Hi Hx. destruct (plStage m); try done.
  destruct (last (plAttempts m)) as [b|] eqn:El; [|done]. case_bool_decide as Hb; [|done]. apply last_Some in El as [l El].
  rewrite El in *. rewrite removelast_last. cbn. apply snoc_lookup in Hi as [Hi|[-> ->]]; [by apply lookup_app_l_Some|done].
Qed.

Lemma keeps_append m l : keeps m (set_attempts (plAttempts m ++ l) m).
Proof. intros i a Hi _. by apply lookup_app_l_Some. Qed.

(** Closing an attempt and the fields around it touch no other attempt. *)
Lemma keeps_step e e' : planning_step e e' → keeps (peManifest e) (peManifest e').
Proof.
  assert (Hid : ∀ m, keeps m m) by by intros m i a.
  intros [turnID failure res E _|outcome response written failure res E _|proposal written failure res E _|failure res E _|failure res E].
  - unfold RecordStarted in E. case_bool_decide; [by injection E as <- <-|]. destruct (negb _); [by injection E as <- <-|].
    destruct (plStage (peManifest e)); try (by injection E as <- <-); (eapply keeps_publish; [exact E|apply keeps_append]).
  - unfold Complete in E. destruct (negb _ && negb _); [by injection E as <- <-|].
    destruct (activeAttempt _) as [a|] eqn:Ea; [|by injection E as <- <-]. destruct (negb _); [by injection E as <- <-|].
    unfold writePlanningBytes in E. destruct written; [by injection E as <- <-|].
    destruct (publishCandidate _ _ _) as [p e2] eqn:Ep. injection E as _ <-. apply keeps_publish in Ep; [done|].
    destruct (bool_decide (outcome = bs "completed")); by apply (keeps_close _ a).
  - unfold RecordYielded in E. destruct (negb _); [by injection E as <- <-|].
    destruct (activeAttempt _) as [a|] eqn:Ea; [|by injection E as <- <-].
    unfold writePlanningBytes in E. destruct written; [by injection E as <- <-|].
    destruct (publishCandidate _ _ _) as [p e2] eqn:Ep. injection E as _ <-. apply keeps_publish in Ep; [done|]. by apply (keeps_close _ a).
  - unfold Fail in E. destruct (plOutcome _); [|by injection E as <- <-..].
    destruct (plStage _); [eapply keeps_publish; [exact E|apply keeps_append]| |eapply keeps_publish; [exact E|apply keeps_append]..].
    destruct (activeAttempt _) as [a|] eqn:Ea; cbn [mbind result_bind] in E; [|by injection E as <- <-].
    eapply keeps_publish; [exact E|]. by apply (keeps_close _ a).
  - unfold RecordRetryableFailure in E. destruct (activeAttempt _) as [a|] eqn:Ea; [|by injection E as <- <-].
    eapply keeps_publish; [exact E|]. by apply (keeps_close _ a).
Qed.

(** Nothing happens to evidence that is completed or failed. *)
Lemma final_step e e' : plan_inv e → plOutcome (peManifest e) ≠ PlanIncomplete → planning_step e e' → e' = e.
Proof.
  intros [Hc _] Ho Hstep. pose proof (ci_stage _ _ Hc) as Hs. unfold stage_ok in Hs.
  assert (Hst : plStage (peManifest e) = StageCompleted) by (destruct (plStage (peManifest e)); naive_solver). clear Hs.
  assert (Ha : activeAttempt (peManifest e) = Err (planning_error (txt "planning evidence is not active") None))
    by (unfold activeAttempt; by rewrite Hst).
  destruct Hstep as [turnID failure res E _|outcome response written failure res E _|proposal written failure res E _|failure res E _|failure res E].
  - unfold RecordStarted in E. rewrite Hst in E. case_bool_decide; [by injection E|]. by destruct (negb _); injection E.
  - unfold Complete in E. rewrite Ha in E. by destruct (negb _ && negb _); injection E.
  - unfold RecordYielded in E. rewrite Ha in E. by destruct (negb _); injection E.
  - unfold Fail in E. by destruct (plOutcome (peManifest e)); [|injection E..].
  - unfold RecordRetryableFailure in E. rewrite Ha in E. by injection E.
Qed.

Lemma Fail_final e e' res : plan_inv e → Fail None e = (res, e') → res = Ok () ∧ plOutcome (peManifest e') ≠ PlanIncomplete.
Proof.
  intros [Hc _] E. unfold Fail in E. destruct (plOutcome (peManifest e)) eqn:Eo; [|injection E as <- <-; by rewrite Eo..].
  pose proof (ci_stage _ _ Hc) as Hs. unfold stage_ok in Hs. destruct (plStage (peManifest e)) eqn:Est; try by injection E as <- <-.
  destruct Hs as (_ & _ & l & a & El & Hact & _). unfold activeAttempt in E.
  rewrite Est, El, last_snoc, bool_decide_eq_true_2 in E by done. by injection E as <- <-.
Qed.

(** What the claims and the session rely on. *)
Lemma plan_readable e : plan_inv e →
  ∃ contents, peFiles e !! manifestFile = Some contents ∧ parse_text contents = Some (plan_json (peManifest e)).
Proof.
  intros [Hc Hm]. eexists. split; [exact Hm|]. apply parse_EncodeIndentASCII; [by eapply plan_json_ok|].
  pose proof (plan_depth _ _ Hc). unfold json.maxNestingDepth. lia.
Qed.

Lemma plan_published e : plan_inv e → plOutcome (peManifest e) = PlanCompleted →
  ∃ r content, plResponse (peManifest e) = Some r ∧ peFiles e !! responseName = Some content
    ∧ rrIdentity r = mkResponse (sha256_hex content) (len content).
Proof.
  intros [Hc Hm] Ho. pose proof (ci_stage _ _ Hc) as Hs. unfold stage_ok in Hs.
  destruct (plStage (peManifest e)); [destruct Hs as [? _]; congruence|destruct Hs as [? _]; congruence|destruct Hs as [? _]; congruence|].
  destruct Hs as [[? _]|(_ & l & a & r & El & _ & _ & Hr & Hf)]; [congruence|].
  destruct (last_recorded _ _ _ Hc Hr) as (n & _ & _ & content & Hfile & Hi & _). exists r, content. by rewrite <- Hf.
Qed.

(** C34: whatever operations run and whichever writes fail, the manifest on disk is
    a text from which the manifest in memory reads back, the attempts are numbered
    in order with at most the last one active, every response on record is in its
    file with the recorded size and digest, and planning counts as completed only
    with its last attempt's response published in response.txt. *)
Theorem planning_evidence_durable e :
  evidence_reachable e →
  (∃ contents, peFiles e !! manifestFile = Some contents ∧ parse_text contents = Some (plan_json (peManifest e)))
  ∧ (∀ i a, plAttempts (peManifest e) !! i = Some a →
       atNumber a = Z.of_nat i + 1
       ∧ (atOutcome a = AttemptActive → plStage (peManifest e) = StageStarted ∧ S i = length (plAttempts (peManifest e)))
       ∧ ∀ r, atResponse a = Some r →
           ∃ content, peFiles e !! rrFile r = Some content ∧ rrIdentity r = mkResponse (sha256_hex content) (len content))
  ∧ (plOutcome (peManifest e) = PlanCompleted ↔
       ∃ a r, last (plAttempts (peManifest e)) = Some a ∧ atOutcome a = AttemptCompleted ∧ atResponse a = Some r
         ∧ plResponse (peManifest e) = Some r ∧ rrFile r = responseName).
Proof.
  intros Hr. destruct (evidence_reachable_inv e Hr) as [Hc Hm]. refine (conj _ (conj _ _)).
  - by apply plan_readable.
  - intros i a Hi. destruct (ci_attempts _ _ Hc i a Hi) as [Hn _ Hrec Hact _]. split_and!; [done|done|].
    intros r Har. destruct (Hrec r Har) as (_ & content & Hf & Hi' & _). by exists content.
  - pose proof (ci_stage _ _ Hc) as Hs. unfold stage_ok in Hs.
    destruct (plStage (peManifest e));
      [destruct Hs as [Ho Hn]|destruct Hs as (Ho & Hn & _)|destruct Hs as [Ho Hn]|destruct Hs as [[Ho Hn]|Hs]];
      try (split; [congruence|intros (a & r & _ & _ & _ & Hp & _); congruence]).
    destruct Hs as (Ho & l & a & r & El & Hs). split; [|done]. intros _. exists a, r. by rewrite El, last_snoc.
Qed.

(** the record only grows and its outcome is final: an attempt that is over
    stays as it was recorded through any later operations, evidence that is
    completed or failed is never written again, and giving up a plan whose manifest
    can be written always records a final outcome. *)
Theorem planning_outcome_final e e' :
  evidence_reachable e → rtc planning_step e e' →
  (∀ i a, plAttempts (peManifest e) !! i = Some a → atOutcome a ≠ AttemptActive → plAttempts (peManifest e') !! i = Some a)
  ∧ (plOutcome (peManifest e) ≠ PlanIncomplete → e' = e)
  ∧ ∃ e'', Fail None e' = (Ok (), e'') ∧ plOutcome (peManifest e'') ≠ PlanIncomplete.
Proof.
  intros Hr Hs. apply evidence_reachable_inv in Hr. split_and!.
  - clear Hr. induction Hs as [|e e1 e2 Hstep _ IH]; [done|]. intros i a Hi Ha. apply IH; [|done]. by apply (keeps_step e e1).
  - intros Ho. induction Hs as [|e e1 e2 Hstep _ IH]; [done|]. assert (e1 = e) as -> by by apply final_step. by apply IH.
  - assert (Hr' : plan_inv e') by by eapply planning_steps_inv.
    destruct (Fail None e') as [res e''] eqn:E. exists e''. apply Fail_final in E as [-> ?]; done.
Qed.

(** ** A plan that is reviewed, resumed and completed *)

Module planning_example.

Definition begun : PlanningEvidence :=
  mkEvidence (mkPlan [] 3 None PlanIncomplete None StageAllocated (bs "thread-1") None)
    (<[manifestFile := EncodeIndentASCII (plan_json (mkPlan [] 3 None PlanIncomplete None StageAllocated (bs "thread-1") None))]> ∅).
Definition started : PlanningEvidence := (RecordStarted (bs "turn-1") None begun).2.
Definition yielded : PlanningEvidence := (RecordYielded (bs "a plan") None None started).2.
Definition resumed : PlanningEvidence := (RecordStarted (bs "turn-2") None yielded).2.
Definition completed : PlanningEvidence := (Complete (bs "completed") (Some (bs "the plan")) None None resumed).2.

Lemma surj {A B} (p : A * B) : p = (p.1, p.2).
Proof. by destruct p. Qed.

Lemma begun_steps : rtc planning_step begun yielded ∧ rtc planning_step yielded completed.
Proof.
  split.
  - apply (rtc_l _ begun started); [eapply do_started; [apply surj|reflexivity]|].
    apply (rtc_l _ started yielded); [eapply do_yielded; [apply surj|reflexivity]|apply rtc_refl].
  - apply (rtc_l _ yielded resumed); [eapply do_started; [apply surj|vm_compute; reflexivity]|].
    apply (rtc_l _ resumed completed); [eapply do_complete; [apply surj|reflexivity]|apply rtc_refl].
Qed.

Lemma begun_reachable e : rtc planning_step begun e → evidence_reachable e.
Proof.
  intros H. exists 3, (bs "thread-1"), None, None, None, None, begun. refine (conj _ (conj _ (conj _ H))); [done|done|reflexivity].
Qed.

End planning_example.

Lemma planning_evidence_durable_witness :
  plOutcome (peManifest planning_example.completed) = PlanCompleted
  ∧ ∃ contents, peFiles planning_example.completed !! manifestFile = Some contents
      ∧ parse_text contents = Some (plan_json (peManifest planning_example.completed)).
Proof.
  destruct planning_example.begun_steps as [H1 H2]. split; [vm_compute; reflexivity|].
  exact (proj1 (planning_evidence_durable planning_example.completed
    (planning_example.begun_reachable _ (transitivity H1 H2)))).
Defined.

Lemma planning_outcome_final_witness :
  ∃ a, plAttempts (peManifest planning_example.yielded) !! 0%nat = Some a ∧ atOutcome a = AttemptYielded
    ∧ plAttempts (peManifest planning_example.completed) !! 0%nat = Some a.
Proof.
  destruct planning_example.begun_steps as [H1 H2]. eexists. split; [vm_compute; reflexivity|]. split; [reflexivity|].
  apply (proj1 (planning_outcome_final planning_example.yielded planning_example.completed (planning_example.begun_reachable _ H1) H2) 0%nat);
    [vm_compute; reflexivity|discriminate].
Defined.
