(* ===== verification/CodexApp.v ===== *)
(** * The application server's protocol (src/internal/codexapp)

    message.go, token_usage.go and the sequential parts of app_server.go: the
    messages on the wire, the token counts, the bounded queues, the shapes of
    requests and responses and the checks on them. The concurrent part of
    app_server.go is in file CodexServer. Values of type [any] are [jvalue]s, as
    [DecodeMessage] makes them; numbers keep their text. *)

From S2P Require Import Prelude GoStd Json JsonTree JsonCompact.
Open Scope Z_scope.

Definition MaxErrorOutput : Z := 64 * 1024.
Definition maxAppServerMessageSize : Z := 16 * 1024 * 1024.

Definition codex (reason : string) : error := CodexError (txt reason) None.

(** [a != b] of an [any] with a string or a boolean *)
Definition is_string (v : option jvalue) (s : bytes) : bool :=
  match v with Some (JString t) => bool_decide (t = s) | _ => false end.
Definition is_bool (v : option jvalue) (b : bool) : bool :=
  match v with Some (JBool c) => bool_decide (c = b) | _ => false end.

Lemma is_string_eq v s : is_string v s = true ↔ v = Some (JString s).
Proof.
  destruct v as [[]|]; cbn [is_string]; try (split; [discriminate|congruence]).
  rewrite bool_decide_eq_true. split; congruence.
Qed.
Lemma is_bool_eq v b : is_bool v b = true ↔ v = Some (JBool b).
Proof.
  destruct v as [[]|]; cbn [is_bool]; try (split; [discriminate|congruence]).
  rewrite bool_decide_eq_true. split; congruence.
Qed.

(** ** Messages *)
Section Messages.
(** What encoding/json reports of a text it cannot read. *)
Context (syntax_error : bytes → error).

Definition EncodeMessage (message : list (bytes * jvalue)) : result bytes :=
  let encoded := Encode (sortKeys (JObject message)) in
  if maxAppServerMessageSize <? len encoded then Err (codex "Codex app-server message exceeds size limit")
  else Ok encoded.

Definition DecodeMessage (encoded : bytes) : result jvalue :=
  if maxAppServerMessageSize <? len encoded then Err (codex "Codex app-server message exceeds size limit")
  else if negb (utf8.Valid encoded) then Err (codex "failed to read Codex app-server output: invalid UTF-8")
  else match parse_value (2 * S (length encoded)) 0 (json.skip_space encoded) with
       | None => Err (CodexError (txt "Codex app-server emitted malformed JSON") (Some (syntax_error encoded)))
       | Some (value, rest) =>
           match json.skip_space rest with
           | _ :: _ => Err (codex "Codex app-server emitted malformed JSON")
           | [] => match value with
                   | JObject _ => Ok value
                   | _ => Err (codex "Codex app-server message is not an object")
                   end
           end
       end.
End Messages.

(** The end of the first [n] characters. *)
Fixpoint runesEnd (n : nat) (encoded : bytes) (end_ : Z) : Z :=
  match n with
  | O => end_
  | S n => runesEnd n encoded (end_ + (utf8.DecodeRune (dropZ end_ encoded)).2)
  end.

(** [utf8.DecodeRune] of no bytes has width 0, which [utf8.runes] never asks for. *)
Definition ShortJSON (value : jvalue) : bytes :=
  let encoded := compact escape_text (sortKeys value) in
  if len (utf8.runes encoded) <=? MaxErrorOutput then encoded
  else takeZ (runesEnd (Z.to_nat MaxErrorOutput) encoded 0) encoded.

(** ** Token usage *)

Record CumulativeTokenUsage := mkUsage {
  InputTokens : Z; CachedInputTokens : Z; OutputTokens : Z; ReasoningOutputTokens : Z
}.

Definition UncachedInputTokens (u : CumulativeTokenUsage) : Z :=
  if InputTokens u <? CachedInputTokens u then 0 else wrap64 (InputTokens u - CachedInputTokens u).

Record TokenUsageDelta := mkDelta {
  dInput : Z; dCached : Z; dUncached : Z; dOutput : Z; dReasoning : Z
}.

Definition DeltaFrom (u previous : CumulativeTokenUsage) : result TokenUsageDelta :=
  if (InputTokens u <? InputTokens previous) || (CachedInputTokens u <? CachedInputTokens previous)
     || (OutputTokens u <? OutputTokens previous) || (ReasoningOutputTokens u <? ReasoningOutputTokens previous) then
    Err (codex "token usage cumulative total decreased")
  else if (InputTokens u <? CachedInputTokens u) || (InputTokens previous <? CachedInputTokens previous)
          || (UncachedInputTokens u <? UncachedInputTokens previous) then
    Err (codex "token usage cumulative uncached input decreased")
  else Ok (mkDelta (wrap64 (InputTokens u - InputTokens previous)) (wrap64 (CachedInputTokens u - CachedInputTokens previous))
             (wrap64 (UncachedInputTokens u - UncachedInputTokens previous)) (wrap64 (OutputTokens u - OutputTokens previous))
             (wrap64 (ReasoningOutputTokens u - ReasoningOutputTokens previous))).

Definition IsZero (d : TokenUsageDelta) : bool :=
  (dInput d =? 0) && (dCached d =? 0) && (dUncached d =? 0) && (dOutput d =? 0) && (dReasoning d =? 0).

(** A decoded count is a [json.Number]. *)
Definition tokenCount (value : option jvalue) : option Z :=
  match value with
  | Some (JNumber encoded) =>
      match encoded with
      | [] => None
      | b :: _ => if decide (b = x2d) then None else strconv.ParseUint encoded
      end
  | _ => None
  end.

Definition TokenUsageDeltaFromNotification (params : jvalue) (threadID turnID : bytes) (previous : CumulativeTokenUsage)
  : result (CumulativeTokenUsage * TokenUsageDelta) :=
  match params with
  | JObject _ =>
    if negb (is_string (get "threadId" params) threadID) || negb (is_string (get "turnId" params) turnID) then
      Err (codex "thread/tokenUsage/updated has the wrong thread or turn ID")
    else match get "tokenUsage" params with
    | Some ((JObject _) as tokenUsage) =>
      match get "total" tokenUsage with
      | Some ((JObject _) as total) =>
        match tokenCount (get "inputTokens" total), tokenCount (get "cachedInputTokens" total),
              tokenCount (get "outputTokens" total), tokenCount (get "reasoningOutputTokens" total) with
        | Some input, Some cached, Some output, Some reasoning =>
            let current := mkUsage input cached output reasoning in
            if InputTokens current <? CachedInputTokens current then
              Err (codex "token usage cached input exceeds total input")
            else if OutputTokens current <? ReasoningOutputTokens current then
              Err (codex "token usage reasoning output exceeds total output")
            else delta ← DeltaFrom current previous; Ok (current, delta)
        | _, _, _, _ => Err (codex "token usage has invalid counts")
        end
      | _ => Err (codex "total token usage is not an object")
      end
    | _ => Err (codex "token usage is not an object")
    end
  | _ => Err (codex "thread/tokenUsage/updated notification is not an object")
  end.

(** ** Requests and responses *)

Definition ObjectValue (value : option jvalue) (description : text) : result jvalue :=
  match value with
  | Some ((JObject _) as v) => Ok v
  | _ => Err (CodexError (description ++ txt " is not an object") None)
  end.

Definition responseID (value : jvalue) : option Z :=
  match value with JNumber w => strconv.ParseUint w | _ => None end.

Definition asAppServerError (err : error) : error :=
  match err with
  | CodexError _ _ => err
  | _ => CodexError (txt "failed to read Codex app-server output") (Some err)
  end.

(** What [Request] makes of the message on its channel. *)
Definition requestResult (method : bytes) (message : jvalue) : result jvalue :=
  message ← ObjectValue (Some message) [Lit (method ++ bs " response")];
  match get "error" message with
  | Some errorValue =>
      Err (CodexError [Lit (bs "Codex app-server " ++ method ++ bs " failed: " ++ ShortJSON errorValue)] None)
  | None => match get "result" message with
            | Some result => Ok result
            | None => Err (CodexError [Lit (bs "Codex app-server " ++ method ++ bs " response has no result")] None)
            end
  end.

Definition requestMessage (requestID : Z) (method : bytes) (params : jvalue) : list (bytes * jvalue) :=
  [(bs "id", from_uint64 requestID); (bs "method", JString method); (bs "params", params)].

(** A nil params value is left out. *)
Definition notifyMessage (method : bytes) (params : option jvalue) : list (bytes * jvalue) :=
  (bs "method", JString method) :: match params with Some p => [(bs "params", p)] | None => [] end.

Definition resultMessage (requestID result : jvalue) : list (bytes * jvalue) := [(bs "id", requestID); (bs "result", result)].

Definition str (s : string) : jvalue := JString (bs s).

(** [RejectServerRequest]: the answer to a request nobody handles. *)
Definition rejection (message : jvalue) : list (bytes * jvalue) :=
  let requestID := default JNull (get "id" message) in
  let method := default [] (get_string "method" message) in
  if bool_decide (method = bs "item/commandExecution/requestApproval") || bool_decide (method = bs "item/fileChange/requestApproval") then
    resultMessage requestID (JObject [(bs "decision", str "decline")])
  else if bool_decide (method = bs "item/permissions/requestApproval") then
    resultMessage requestID (JObject [
      (bs "permissions", JObject [(bs "fileSystem", JObject [(bs "entries", JArray [])]);
                                  (bs "network", JObject [(bs "enabled", JBool false)])]);
      (bs "scope", str "turn"); (bs "strictAutoReview", JBool false)])
  else if bool_decide (method = bs "item/tool/requestUserInput") then
    resultMessage requestID (JObject [(bs "answers", JObject [])])
  else [(bs "id", requestID);
        (bs "error", JObject [(bs "code", JNumber (bs "-32601"));
                              (bs "message", JString (bs "unsupported server request: " ++ method))])].

(** *** The checks on responses *)

Definition initializeParams : jvalue :=
  JObject [(bs "clientInfo", JObject [(bs "name", str "codexos-harness"); (bs "title", str "CodexOS harness"); (bs "version", str "0.1.0")]);
           (bs "capabilities", JObject [(bs "experimentalApi", JBool true)])].

(** [ValidateChatGPTLogin], on the response to account/read *)
Definition validateLogin (response : jvalue) : result unit :=
  values ← ObjectValue (Some response) (txt "account/read response");
  match ObjectValue (get "account" values) (txt "account") with
  | Err _ => Err (codex "Codex is not authenticated using ChatGPT")
  | Ok account => if is_string (get "type" account) (bs "chatgpt") then Ok ()
                  else Err (codex "Codex is not authenticated using ChatGPT")
  end.

Definition model_error (model : bytes) (rest : text) : error :=
  CodexError (txt "model " ++ [Quoted model] ++ rest) None.

(** The search for the service tier in a catalog entry *)
Fixpoint findTier (model serviceTier : bytes) (tiers : list jvalue) : result bytes :=
  match tiers with
  | [] => Err (model_error model (txt " does not support service tier " ++ [Quoted serviceTier]))
  | tier :: tiers =>
      if negb (is_string (get "id" tier) serviceTier) then findTier model serviceTier tiers
      else match get_string "name" tier with
           | Some ((_ :: _) as name) => Ok name
           | _ => Err (model_error model (txt " has malformed service-tier capabilities for " ++ [Quoted serviceTier]))
           end
  end.

Definition checkEntry (model effort serviceTier : bytes) (entry : jvalue) : result bytes :=
  match get "supportedReasoningEfforts" entry with
  | Some (JArray supported) =>
      if negb (existsb (λ option, is_string (get "reasoningEffort" option) effort) supported) then
        Err (model_error model (txt " does not support reasoning effort " ++ [Quoted effort]))
      else match get "serviceTiers" entry with
           | None => findTier model serviceTier []
           | Some (JArray tiers) => findTier model serviceTier tiers
           | Some _ => Err (model_error model (txt " has malformed service-tier capabilities"))
           end
  | _ => Err (model_error model (txt " has malformed reasoning capabilities"))
  end.

(** The entry of the model on one page; [None] goes to the next page. *)
Fixpoint checkPage (model effort serviceTier : bytes) (data : list jvalue) : option (result bytes) :=
  match data with
  | [] => None
  | entry :: data =>
      if is_string (get "model" entry) model then Some (checkEntry model effort serviceTier entry)
      else checkPage model effort serviceTier data
  end.

(** What a page of model/list says: a decision, or the cursor of the next page
    ([None] at the end). *)
Definition modelPage (model effort serviceTier : bytes) (response : jvalue) : result (result bytes + option bytes) :=
  values ← ObjectValue (Some response) (txt "model/list response");
  match get "data" values with
  | Some (JArray data) =>
      match checkPage model effort serviceTier data with
      | Some decision => Ok (inl decision)
      | None => match get "nextCursor" values with
                | None | Some JNull => Ok (inr None)
                | Some (JString cursor) => Ok (inr (Some cursor))
                | Some _ => Err (codex "model/list returned an invalid cursor")
                end
      end
  | _ => Err (codex "model/list response is missing its model catalog")
  end.

(** The catalog as the server answers it, by cursor. The loop ends when the server
    ends the list; [pages] bounds the number of pages asked for. *)
Section ValidateModel.
Context {S : Type} (request : option bytes → S → result jvalue * S).

Fixpoint modelPages (pages : nat) (model effort serviceTier : bytes) (cursor : option bytes) (s : S)
  : option (result bytes * S) :=
  match pages with
  | O => None
  | Datatypes.S pages =>
      match request cursor s with
      | (Err e, s) => Some (Err e, s)
      | (Ok response, s) =>
          match modelPage model effort serviceTier response with
          | Err e => Some (Err e, s)
          | Ok (inl decision) => Some (decision, s)
          | Ok (inr None) => Some (Err (CodexError [Lit (bs "requested Codex model is unavailable: " ++ model)] None), s)
          | Ok (inr (Some cursor)) => modelPages pages model effort serviceTier (Some cursor) s
          end
      end
  end.

Definition ValidateModel (pages : nat) (model effort serviceTier reasoningSummary : bytes) (s : S) : option (result bytes * S) :=
  if negb (bool_decide (reasoningSummary ∈ [bs "auto"; bs "concise"; bs "detailed"; bs "none"])) then
    Some (Err (CodexError (txt "unsupported reasoning summary setting: " ++ [Quoted reasoningSummary]) None), s)
  else modelPages pages model effort serviceTier None s.
End ValidateModel.

Record StartThreadOptions := mkThreadOptions {
  toModel : bytes; toEffort : bytes; toServiceTier : bytes; PermissionProfile : bytes;
  DynamicTools : list jvalue; RequireReadOnly : bool
}.

Definition threadParams (workspace : bytes) (o : StartThreadOptions) : jvalue :=
  JObject [(bs "allowProviderModelFallback", JBool false); (bs "approvalPolicy", str "never"); (bs "approvalsReviewer", str "user");
           (bs "config", JObject [(bs "model_reasoning_effort", JString (toEffort o))]); (bs "cwd", JString workspace);
           (bs "dynamicTools", JArray (DynamicTools o)); (bs "environments", JArray []); (bs "ephemeral", JBool true);
           (bs "model", JString (toModel o)); (bs "permissions", JString (PermissionProfile o));
           (bs "runtimeWorkspaceRoots", JArray [JString workspace]); (bs "serviceTier", JString (toServiceTier o))].

(** [StartThread], on the response to thread/start *)
Definition checkThread (o : StartThreadOptions) (response : jvalue) : result bytes :=
  values ← ObjectValue (Some response) (txt "thread/start response");
  thread ← ObjectValue (get "thread" values) (txt "thread/start thread");
  match get_string "id" thread with
  | None | Some [] => Err (codex "thread/start response is missing a thread ID")
  | Some threadID =>
      if negb (is_bool (get "ephemeral" thread) true) then Err (codex "Codex app-server did not create an ephemeral thread")
      else if negb (is_string (get "model" values) (toModel o)) then
        Err (codex "Codex app-server did not select the requested model")
      else if negb (is_string (get "reasoningEffort" values) (toEffort o)) then
        Err (codex "Codex app-server did not select the requested reasoning effort")
      else if negb (is_string (get "serviceTier" values) (toServiceTier o)) then
        Err (codex "Codex app-server did not select the requested service tier")
      else match ObjectValue (get "activePermissionProfile" values) (txt "active permission profile") with
      | Err _ => Err (codex "Codex app-server did not activate the isolated permission profile")
      | Ok profile =>
          if negb (is_string (get "id" profile) (PermissionProfile o)) then
            Err (codex "Codex app-server did not activate the isolated permission profile")
          else match ObjectValue (get "sandbox" values) (txt "sandbox") with
          | Err _ => Err (codex "Codex app-server did not disable command network access")
          | Ok sandbox =>
              if negb (is_bool (get "networkAccess" sandbox) false) then
                Err (codex "Codex app-server did not disable command network access")
              else if is_string (get "type" sandbox) (bs "dangerFullAccess") then
                Err (codex "Codex app-server selected an unsafe filesystem sandbox")
              else if RequireReadOnly o && negb (is_string (get "type" sandbox) (bs "readOnly")) then
                Err (codex "Codex app-server did not activate a read-only filesystem sandbox")
              else Ok threadID
          end
      end
  end.

Record StartTurnOptions := mkTurnOptions {
  tuThreadID : bytes; Prompt : bytes; tuModel : bytes; tuEffort : bytes; ReasoningSummary : bytes;
  tuServiceTier : bytes; tuPermissionProfile : bytes; RuntimeWorkspaceRoots : option (list bytes)
}.

Definition turnParams (o : StartTurnOptions) : jvalue :=
  JObject ([(bs "approvalPolicy", str "never"); (bs "approvalsReviewer", str "user"); (bs "effort", JString (tuEffort o));
            (bs "environments", JArray []);
            (bs "input", JArray [JObject [(bs "type", str "text"); (bs "text", JString (Prompt o))]]);
            (bs "model", JString (tuModel o)); (bs "permissions", JString (tuPermissionProfile o));
            (bs "serviceTier", JString (tuServiceTier o)); (bs "summary", JString (ReasoningSummary o));
            (bs "threadId", JString (tuThreadID o))]
           ++ match RuntimeWorkspaceRoots o with
              | Some roots => [(bs "runtimeWorkspaceRoots", JArray (map JString roots))]
              | None => []
              end).

(** [StartTurn], on the response to turn/start *)
Definition checkTurn (response : jvalue) : result bytes :=
  values ← ObjectValue (Some response) (txt "turn/start response");
  turn ← ObjectValue (get "turn" values) (txt "turn/start turn");
  match get_string "id" turn with
  | None | Some [] => Err (codex "turn/start response is missing a turn ID")
  | Some turnID => Ok turnID
  end.

(** ** Bounded buffers *)

(** [boundedOutput.Write]: the first bytes of the diagnostics are kept. *)
Definition boundedWrite (data kept : bytes) : bytes :=
  let remaining := MaxErrorOutput - len kept in
  if 0 <? remaining then kept ++ takeZ (if len data <? remaining then len data else remaining) data else kept.

Definition removeEnvironment (environment : list bytes) (name : bytes) : list bytes :=
  filter (λ v, strings.HasPrefix v (name ++ bs "=") = false) environment.
Definition setEnvironment (environment : list bytes) (name v : bytes) : list bytes :=
  removeEnvironment environment name ++ [name ++ bs "=" ++ v].

(** The environment of the child, in the order [startProcess] prepares it. *)
Definition childEnvironment (environment : list bytes) (codexHome processTmp : bytes) : list bytes :=
  let environment := setEnvironment environment (bs "CODEX_HOME") codexHome in
  let environment := setEnvironment environment (bs "CODEX_SQLITE_HOME") codexHome in
  let environment := setEnvironment environment (bs "TMPDIR") processTmp in
  let environment := setEnvironment environment (bs "CODEX_NON_INTERACTIVE") (bs "1") in
  fold_left removeEnvironment [bs "OPENAI_API_KEY"; bs "CODEX_API_KEY"; bs "CODEX_ACCESS_TOKEN"] environment.
