(* ===== verification/CodexAppProofs.v ===== *)
(** * Messages, token counts and the checks on responses *)

From S2P Require Import Prelude GoStd Json JsonTree JsonCompact CodexApp.
Open Scope Z_scope.

(** ** Messages read back *)

Lemma skip_space_encode v : json_ok v → json.skip_space (Encode v) = Encode v.
Proof. intros Hv. unfold Encode. by apply (skip_compact _ (λ s, utf8.Valid s = true)). Qed.

(** A message that [EncodeMessage] accepts is read back by [DecodeMessage] as
    the same map: same keys, same values, with the keys of every object in order. *)
Theorem message_roundtrip syntax message encoded :
  json_ok (JObject message) → Z.of_nat (json_depth (JObject message)) ≤ json.maxNestingDepth →
  EncodeMessage message = Ok encoded →
  DecodeMessage syntax encoded = Ok (sortKeys (JObject message))
  ∧ ∀ name, get name (sortKeys (JObject message)) = sortKeys <$> get name (JObject message).
Proof.
  intros Hok Hd H. split; [|intros name; apply sortKeys_get].
  assert (Henc : encoded = Encode (sortKeys (JObject message)) ∧ (maxAppServerMessageSize <? len encoded) = false).
  { unfold EncodeMessage in H. cbn zeta in H. destruct (maxAppServerMessageSize <? _) eqn:Hl; [done|]. by injection H as <-. }
  destruct Henc as [-> Hl]. clear H.
  pose proof (sortKeys_ok _ Hok) as Hs. pose proof (sortKeys_depth (JObject message)) as Hdep.
  pose proof (parse_text_Encode (sortKeys (JObject message)) Hs ltac:(lia)) as Hp.
  unfold DecodeMessage. rewrite Hl.
  replace (utf8.Valid (Encode (sortKeys (JObject message)))) with true
    by (symmetry; apply FeatureProofs.Valid_app_both; [by apply Valid_compact|done]).
  cbn [negb]. unfold parse_text in Hp. rewrite skip_space_encode in * by done.
  destruct (parse_value _ 0 _) as [[value rest]|]; [|done]. cbn [mbind option_bind] in Hp.
  destruct (json.skip_space rest); [|done]. injection Hp as ->. done.
Qed.

Definition interrupt_message : list (bytes * jvalue) :=
  requestMessage 7 (bs "turn/interrupt") (JObject [(bs "turnId", JString (bs "t1")); (bs "threadId", JString (bs "<a>"))]).

Lemma message_roundtrip_witness :
  DecodeMessage (λ _, codex "syntax") (Encode (sortKeys (JObject interrupt_message))) = Ok (sortKeys (JObject interrupt_message))
  ∧ get "id" (sortKeys (JObject interrupt_message)) = sortKeys <$> get "id" (JObject interrupt_message).
Proof.
  assert (Henc : EncodeMessage interrupt_message = Ok (Encode (sortKeys (JObject interrupt_message)))) by (vm_compute; reflexivity).
  assert (Hok : json_ok (JObject interrupt_message)).
  { refine (conj (conj _ _) (conj (conj _ _) (conj (conj _ _) I))); try (vm_compute; reflexivity).
    - apply json_ok_uint64. done.
    - repeat split; vm_compute; reflexivity. }
  assert (Hd : Z.of_nat (json_depth (JObject interrupt_message)) ≤ json.maxNestingDepth) by (vm_compute; discriminate).
  destruct (message_roundtrip (λ _, codex "syntax") interrupt_message _ Hok Hd Henc) as [H1 H2].
  split; [exact H1|exact (H2 "id")].
Defined.

(** ** Error texts *)

(** A valid text is its first character and the rest. *)
Lemma first_char s : utf8.Valid s = true → s ≠ [] →
  ∃ ch r, s = ch ++ r ∧ ch ≠ [] ∧ utf8.Valid ch = true ∧ utf8.Valid r = true ∧ ∀ t, (utf8.DecodeRune (ch ++ t)).2 = len ch.
Proof.
  revert s. apply (utf8_ind (λ s, s ≠ [] → _)); [done|intros b s Hb Hv _ _|intros ch s Hch Hv _ _].
  - exists [b], s. split_and!; [done|done|by cbn [utf8.Valid]; rewrite Hb|done|]. intros t. cbn [app utf8.DecodeRune]. by rewrite Hb.
  - exists ch, s. destruct Hch as [Hc (b0 & rest & -> & _) Hw]. by split_and!.
Qed.

Lemma runes_char ch t : ch ≠ [] → (utf8.DecodeRune (ch ++ t)).2 = len ch → len (utf8.runes (ch ++ t)) = 1 + len (utf8.runes t).
Proof.
  intros Hc Hw. unfold utf8.runes. destruct ch as [|b ch]; [done|]. cbn [app length utf8.runes_loop] in *.
  destruct (utf8.DecodeRune (b :: ch ++ t)) as [x w]. cbn [snd] in Hw. subst w.
  change (b :: ch ++ t) with ((b :: ch) ++ t). rewrite dropZ_app, len_cons by done. f_equal. f_equal.
  apply utf8.runes_fuel; rewrite ?length_app; lia.
Qed.

(** The first [n] characters of a valid text. *)
Lemma runesEnd_prefix n : ∀ pre s,
  utf8.Valid s = true → (Z.of_nat n ≤ len (utf8.runes s)) →
  ∃ a b, s = a ++ b ∧ runesEnd n (pre ++ s) (len pre) = len pre + len a ∧ utf8.Valid a = true ∧ len (utf8.runes a) = Z.of_nat n.
Proof.
  induction n as [|n IH]; intros pre s Hv Hn; cbn [runesEnd].
  { exists [], s. split_and!; [done|by rewrite len_nil, Z.add_0_r|done|done]. }
  assert (Hne : s ≠ []) by (intros ->; change (len (utf8.runes [])) with 0 in Hn; lia).
  destruct (first_char s Hv Hne) as (ch & r & -> & Hc & Hvc & Hvr & Hw). rewrite (runes_char ch r Hc (Hw r)) in Hn.
  rewrite dropZ_app by done. rewrite Hw, <- len_app, app_assoc.
  destruct (IH (pre ++ ch) r Hvr ltac:(lia)) as (a & b & -> & -> & Ha & Hla).
  exists (ch ++ a), b. split_and!; [by rewrite app_assoc|rewrite !len_app; lia|by apply FeatureProofs.Valid_app_both|].
  rewrite (runes_char ch a Hc (Hw a)). lia.
Qed.

(** The text of a server's error in a message is the beginning of its JSON, in
    whole characters, at most 65536 of them, and all of it when it is short. *)
Theorem ShortJSON_bounded value :
  json_ok value →
  let encoded := compact escape_text (sortKeys value) in
  (∃ rest, encoded = ShortJSON value ++ rest) ∧ utf8.Valid (ShortJSON value) = true
  ∧ len (utf8.runes (ShortJSON value)) = len (utf8.runes encoded) `min` MaxErrorOutput
  ∧ (len (utf8.runes encoded) ≤ MaxErrorOutput → ShortJSON value = encoded).
Proof.
  intros Hok. cbn zeta. pose proof (Valid_compact _ (sortKeys_ok _ Hok)) as Hv. unfold ShortJSON. cbn zeta.
  set (encoded := compact escape_text (sortKeys value)) in *. destruct (len (utf8.runes encoded) <=? MaxErrorOutput) eqn:E.
  - apply Z.leb_le in E. split_and!; [by exists []; rewrite app_nil_r|done|lia|done].
  - apply Z.leb_gt in E.
    assert (Hn : Z.of_nat (Z.to_nat MaxErrorOutput) = MaxErrorOutput) by (apply Z2Nat.id; discriminate).
    revert Hn. generalize (Z.to_nat MaxErrorOutput). intros n Hn.
    destruct (runesEnd_prefix n [] encoded Hv ltac:(lia)) as (a & b & Ha & Hend & Hva & Hla).
    cbn [app] in Hend. change (len []) with 0 in Hend. rewrite Z.add_0_l in Hend. rewrite Hend.
    assert (Htake : takeZ (len a) encoded = a) by (rewrite Ha; by apply takeZ_app). rewrite Htake.
    split_and!; [by exists b|done|lia|lia].
Qed.

Lemma ShortJSON_bounded_witness :
  len (utf8.runes (ShortJSON (JObject [(bs "code", JNumber (bs "5"))])))
  = len (utf8.runes (compact escape_text (sortKeys (JObject [(bs "code", JNumber (bs "5"))])))) `min` MaxErrorOutput.
Proof.
  assert (Hok : json_ok (JObject [(bs "code", JNumber (bs "5"))])).
  { refine (conj (conj _ _) I); [vm_compute; reflexivity|]. exact (json_ok_uint64 5 ltac:(done)). }
  exact (proj1 (proj2 (proj2 (ShortJSON_bounded _ Hok)))).
Defined.

(** ** Token counts *)

Definition usage_ok (u : CumulativeTokenUsage) : Prop :=
  u64 (InputTokens u) ∧ u64 (CachedInputTokens u) ∧ u64 (OutputTokens u) ∧ u64 (ReasoningOutputTokens u)
  ∧ CachedInputTokens u ≤ InputTokens u ∧ ReasoningOutputTokens u ≤ OutputTokens u.

(** The notifications of a turn, one after the other. *)
Fixpoint trackUsage (threadID turnID : bytes) (notes : list jvalue) (previous : CumulativeTokenUsage)
  : result (CumulativeTokenUsage * list TokenUsageDelta) :=
  match notes with
  | [] => Ok (previous, [])
  | params :: notes =>
      '(current, delta) ← TokenUsageDeltaFromNotification params threadID turnID previous;
      '(last, deltas) ← trackUsage threadID turnID notes current;
      Ok (last, delta :: deltas)
  end.

Definition sum_of (f : TokenUsageDelta → Z) (l : list TokenUsageDelta) : Z := foldr (λ d n, f d + n) 0 l.

Lemma tokenCount_range v n : tokenCount v = Some n → u64 n.
Proof.
  unfold tokenCount. destruct v as [[]|]; try done. destruct literal as [|b r]; [done|]. destruct (decide _); [done|].
  apply FeatureProofs.ParseUint_range.
Qed.

Lemma wrap64_id z : u64 z → wrap64 z = z.
Proof. unfold u64, wrap64. intros. apply Z.mod_small. lia. Qed.

Lemma DeltaFrom_exact u p d :
  usage_ok u → usage_ok p → DeltaFrom u p = Ok d →
  (0 ≤ dInput d ∧ dInput d = InputTokens u - InputTokens p) ∧ (0 ≤ dCached d ∧ dCached d = CachedInputTokens u - CachedInputTokens p)
  ∧ (0 ≤ dUncached d ∧ dUncached d = dInput d - dCached d)
  ∧ (0 ≤ dOutput d ∧ dOutput d = OutputTokens u - OutputTokens p) ∧ (0 ≤ dReasoning d ∧ dReasoning d = ReasoningOutputTokens u - ReasoningOutputTokens p).
Proof.
  destruct u as [a b c e], p as [a' b' c' e']. unfold usage_ok, u64, DeltaFrom, UncachedInputTokens.
  cbn [InputTokens CachedInputTokens OutputTokens ReasoningOutputTokens].
  intros Hu Hp H. destruct ((a <? a') || _ || _ || _) eqn:E1; [done|]. destruct ((a <? b) || _ || _) eqn:E2; [done|].
  injection H as <-. cbn [dInput dCached dUncached dOutput dReasoning]. rewrite !orb_false_iff, !Z.ltb_ge in E1. rewrite !orb_false_iff in E2.
  destruct E2 as [[E2 E3] E4]. rewrite E2, E3 in *. apply Z.ltb_ge in E2, E3, E4.
  rewrite (wrap64_id (a - b)), (wrap64_id (a' - b')) in * by (unfold u64; lia). rewrite !wrap64_id by (unfold u64; lia). lia.
Qed.

Lemma notification_inv params threadID turnID previous current d :
  TokenUsageDeltaFromNotification params threadID turnID previous = Ok (current, d) →
  usage_ok current ∧ DeltaFrom current previous = Ok d
  ∧ get "threadId" params = Some (JString threadID) ∧ get "turnId" params = Some (JString turnID).
Proof.
  unfold TokenUsageDeltaFromNotification. destruct params as [| | | | |l]; try done. set (params := JObject l).
  destruct (negb _ || _) eqn:Eid; [done|]. apply orb_false_iff in Eid as [E1%negb_false_iff E2%negb_false_iff].
  apply is_string_eq in E1, E2.
  destruct (get "tokenUsage" params) as [[| | | | |k]|]; try done. destruct (get "total" (JObject k)) as [[| | | | |m]|]; try done.
  destruct (tokenCount (get "inputTokens" _)) as [i|] eqn:Hi; [|done].
  destruct (tokenCount (get "cachedInputTokens" _)) as [c|] eqn:Hc; [|done].
  destruct (tokenCount (get "outputTokens" _)) as [o|] eqn:Ho; [|done].
  destruct (tokenCount (get "reasoningOutputTokens" _)) as [r|] eqn:Hr; [|done].
  cbn [InputTokens CachedInputTokens OutputTokens ReasoningOutputTokens].
  destruct (i <? c) eqn:Eic; [done|]. destruct (o <? r) eqn:Eor; [done|]. apply Z.ltb_ge in Eic, Eor.
  destruct (DeltaFrom _ _) as [x|] eqn:Ed; [|done]. cbn [mbind result_bind]. intros [= <- <-].
  split; [|by rewrite E1, E2].
  exact (conj (tokenCount_range _ _ Hi) (conj (tokenCount_range _ _ Hc) (conj (tokenCount_range _ _ Ho)
    (conj (tokenCount_range _ _ Hr) (conj Eic Eor))))).
Qed.

(** Over any sequence of accepted token notifications the counts stay
    consistent, the notifications carry the ids of the thread and turn, no delta is
    negative or wraps, the uncached input is the input less the cached input, and
    the deltas add up to the change of the totals. *)
Theorem token_usage_telescopes threadID turnID notes previous last deltas :
  usage_ok previous → trackUsage threadID turnID notes previous = Ok (last, deltas) →
  usage_ok last
  ∧ Forall (λ p, get "threadId" p = Some (JString threadID) ∧ get "turnId" p = Some (JString turnID)) notes
  ∧ Forall (λ d, 0 ≤ dInput d ∧ 0 ≤ dCached d ∧ (0 ≤ dUncached d ∧ dUncached d = dInput d - dCached d) ∧ 0 ≤ dOutput d ∧ 0 ≤ dReasoning d) deltas
  ∧ sum_of dInput deltas = InputTokens last - InputTokens previous
  ∧ sum_of dCached deltas = CachedInputTokens last - CachedInputTokens previous
  ∧ sum_of dOutput deltas = OutputTokens last - OutputTokens previous
  ∧ sum_of dReasoning deltas = ReasoningOutputTokens last - ReasoningOutputTokens previous.
Proof.
  revert previous deltas. induction notes as [|p notes IH]; intros previous deltas Hp H; cbn [trackUsage] in H.
  { injection H as <- <-. cbn. split_and!; [done|constructor|constructor|lia..]. }
  apply bind_Ok in H as ([current d] & Hn & H). apply bind_Ok in H as ([last' ds] & Ht & H). injection H as -> <-.
  destruct (notification_inv _ _ _ _ _ _ Hn) as (Hc & Hd & Hid). pose proof (DeltaFrom_exact _ _ _ Hc Hp Hd) as Hx.
  destruct (IH current ds Hc Ht) as (Hl & HF & HD & S1 & S2 & S3 & S4). unfold sum_of in *. cbn [foldr].
  split_and!; [done|by constructor|constructor; [lia|done]|lia..].
Qed.

(** A notification with the given totals. *)
Definition usage_note (i c o r : Z) : jvalue :=
  JObject [(bs "threadId", str "th"); (bs "turnId", str "tu");
           (bs "tokenUsage", JObject [(bs "total", JObject [(bs "inputTokens", from_uint64 i); (bs "cachedInputTokens", from_uint64 c);
             (bs "outputTokens", from_uint64 o); (bs "reasoningOutputTokens", from_uint64 r)])])].

Lemma token_usage_telescopes_witness :
  sum_of dInput [mkDelta 10 4 6 3 1; mkDelta 5 4 1 2 0] = 15 - 0.
Proof.
  assert (H : trackUsage (bs "th") (bs "tu") [usage_note 10 4 3 1; usage_note 15 8 5 1] (mkUsage 0 0 0 0)
    = Ok (mkUsage 15 8 5 1, [mkDelta 10 4 6 3 1; mkDelta 5 4 1 2 0])) by (vm_compute; reflexivity).
  assert (Hp : usage_ok (mkUsage 0 0 0 0)) by (unfold usage_ok, u64; cbn; lia).
  exact (proj1 (proj2 (proj2 (proj2 (token_usage_telescopes _ _ _ _ _ _ Hp H))))).
Defined.

(** ** The policy of a thread *)

Lemma ObjectValue_inv v description x : ObjectValue v description = Ok x → v = Some x.
Proof. unfold ObjectValue. destruct v as [[]|]; try done. congruence. Qed.

(** A thread is only used when the server confirmed the whole policy: an
    ephemeral thread with the requested model, effort, tier and permission profile,
    commands without network access, and a sandbox that is not unrestricted and is
    read-only where that was required. *)
Theorem thread_policy_enforced o response threadID :
  checkThread o response = Ok threadID →
  ∃ thread profile sandbox,
    threadID ≠ [] ∧ get "thread" response = Some thread ∧ get "id" thread = Some (JString threadID)
    ∧ get "ephemeral" thread = Some (JBool true)
    ∧ get "model" response = Some (JString (toModel o)) ∧ get "reasoningEffort" response = Some (JString (toEffort o))
    ∧ get "serviceTier" response = Some (JString (toServiceTier o))
    ∧ get "activePermissionProfile" response = Some profile ∧ get "id" profile = Some (JString (PermissionProfile o))
    ∧ get "sandbox" response = Some sandbox ∧ get "networkAccess" sandbox = Some (JBool false)
    ∧ get "type" sandbox ≠ Some (JString (bs "dangerFullAccess"))
    ∧ (RequireReadOnly o = true → get "type" sandbox = Some (JString (bs "readOnly"))).
Proof.
  unfold checkThread. intros H. apply bind_Ok in H as (values & Hv%ObjectValue_inv & H). injection Hv as <-.
  apply bind_Ok in H as (thread & Ht%ObjectValue_inv & H).
  destruct (get_string "id" thread) as [[|b id]|] eqn:Hid; try done.
  destruct (negb (is_bool _ true)) eqn:E1; [done|]. destruct (negb (is_string _ (toModel o))) eqn:E2; [done|].
  destruct (negb (is_string _ (toEffort o))) eqn:E3; [done|]. destruct (negb (is_string _ (toServiceTier o))) eqn:E4; [done|].
  destruct (ObjectValue (get "activePermissionProfile" _) _) as [profile|] eqn:Ep; [|done]. apply ObjectValue_inv in Ep.
  destruct (negb (is_string _ (PermissionProfile o))) eqn:E5; [done|].
  destruct (ObjectValue (get "sandbox" _) _) as [sandbox|] eqn:Es; [|done]. apply ObjectValue_inv in Es.
  destruct (negb (is_bool _ false)) eqn:E6; [done|]. destruct (is_string _ (bs "dangerFullAccess")) eqn:E7; [done|].
  destruct (RequireReadOnly o && _) eqn:E8; [done|]. injection H as <-.
  apply negb_false_iff in E1, E2, E3, E4, E5, E6. apply is_string_eq in E2, E3, E4, E5. apply is_bool_eq in E1, E6.
  exists thread, profile, sandbox. split_and!; try done.
  - unfold get_string in Hid. destruct (get "id" thread) as [[]|]; try done. congruence.
  - intros E. apply (is_string_eq _ (bs "dangerFullAccess")) in E. congruence.
  - intros Hr. rewrite Hr in E8. by apply negb_false_iff, is_string_eq in E8.
Qed.

Definition reviewer_thread : StartThreadOptions := mkThreadOptions (bs "m") (bs "high") (bs "fast") (bs "codexos-reviewer") [] true.
Definition thread_answer : jvalue :=
  JObject [(bs "thread", JObject [(bs "id", str "t-1"); (bs "ephemeral", JBool true)]); (bs "model", str "m");
           (bs "reasoningEffort", str "high"); (bs "serviceTier", str "fast");
           (bs "activePermissionProfile", JObject [(bs "id", str "codexos-reviewer")]);
           (bs "sandbox", JObject [(bs "type", str "readOnly"); (bs "networkAccess", JBool false)])].

Lemma thread_policy_enforced_witness :
  ∃ sandbox, get "sandbox" thread_answer = Some sandbox ∧ get "type" sandbox = Some (JString (bs "readOnly")).
Proof.
  assert (H : checkThread reviewer_thread thread_answer = Ok (bs "t-1")) by (vm_compute; reflexivity).
  destruct (thread_policy_enforced _ _ _ H) as (th & pr & sb & _ & _ & _ & _ & _ & _ & _ & _ & _ & Hs & _ & _ & Hr).
  exists sb. split; [exact Hs|]. exact (Hr eq_refl).
Defined.

(** ** The model catalog *)

(** What a catalog entry must say. *)
Definition entry_offers (effort serviceTier name : bytes) (entry : jvalue) : Prop :=
  ∃ efforts tiers option tier,
    get "supportedReasoningEfforts" entry = Some (JArray efforts) ∧ option ∈ efforts
    ∧ get "reasoningEffort" option = Some (JString effort)
    ∧ get "serviceTiers" entry = Some (JArray tiers) ∧ tier ∈ tiers
    ∧ get "id" tier = Some (JString serviceTier) ∧ get "name" tier = Some (JString name) ∧ name ≠ [].

Lemma findTier_inv model serviceTier tiers name : findTier model serviceTier tiers = Ok name →
  ∃ tier, tier ∈ tiers ∧ get "id" tier = Some (JString serviceTier) ∧ get "name" tier = Some (JString name) ∧ name ≠ [].
Proof.
  induction tiers as [|t tiers IH]; cbn [findTier]; [done|]. destruct (negb _) eqn:E.
  - intros H. destruct (IH H) as (x & ? & ?). exists x. split; [set_solver|done].
  - apply negb_false_iff, is_string_eq in E. unfold get_string. destruct (get "name" t) as [[| | |s| |]|] eqn:En; try done.
    destruct s as [|b s]; [done|]. intros [= <-]. exists t. split_and!; [set_solver|done|done|done].
Qed.

Lemma checkEntry_inv model effort serviceTier entry name :
  checkEntry model effort serviceTier entry = Ok name → entry_offers effort serviceTier name entry.
Proof.
  unfold checkEntry. destruct (get "supportedReasoningEfforts" entry) as [[| | | |efforts|]|] eqn:Ee; try done.
  destruct (negb (existsb _ _)) eqn:Ex; [done|]. apply negb_false_iff, existsb_exists in Ex as (op & Hin & Hop%is_string_eq).
  destruct (get "serviceTiers" entry) as [[| | | |tiers|]|] eqn:Et; try done.
  intros (tier & Ht & Hid & Hn & Hne)%findTier_inv. exists efforts, tiers, op, tier.
  split_and!; try done. by apply list_elem_of_In.
Qed.

Lemma checkPage_inv model effort serviceTier data name :
  checkPage model effort serviceTier data = Some (Ok name) →
  ∃ before entry after, data = before ++ entry :: after ∧ Forall (λ e, get "model" e ≠ Some (JString model)) before
    ∧ get "model" entry = Some (JString model) ∧ entry_offers effort serviceTier name entry.
Proof.
  induction data as [|e data IH]; cbn [checkPage]; [done|]. destruct (is_string _ model) eqn:E.
  - intros [= H]. exists [], e, data. apply is_string_eq in E. split_and!; [done|constructor|done|by eapply checkEntry_inv].
  - intros H. destruct (IH H) as (b & x & a & -> & HF & Hm & Ho). exists (e :: b), x, a. split_and!; [done| |done..].
    constructor; [|done]. intros Hx. apply (is_string_eq _ model) in Hx. congruence.
Qed.

Section pages.
Context {S : Type} (request : option bytes → S → result jvalue * S).

Lemma modelPages_more n k model effort tier cursor s r :
  modelPages request n model effort tier cursor s = Some r → (n ≤ k)%nat →
  modelPages request k model effort tier cursor s = Some r.
Proof.
  revert k cursor s. induction n as [|n IH]; intros k cursor s H Hk; [done|]. destruct k as [|k]; [lia|].
  cbn [modelPages] in *. destruct (request cursor s) as [[response|e] s1]; [|done].
  destruct (modelPage _ _ _ _) as [[d|[c|]]|]; try done. apply IH; [done|lia].
Qed.

(** A model is accepted only with a supported summary setting and with a
    catalog entry, the first of the model on a page the server sent, that offers
    the effort and the tier, whose display name is returned; once the server has
    ended its list, reading with a larger bound on the pages changes nothing. *)
Theorem model_offered pages model effort tier summary s name s' :
  ValidateModel request pages model effort tier summary s = Some (Ok name, s') →
  summary ∈ [bs "auto"; bs "concise"; bs "detailed"; bs "none"]
  ∧ (∃ cursor s0 response data before entry after,
       request cursor s0 = (Ok response, s') ∧ get "data" response = Some (JArray data)
       ∧ data = before ++ entry :: after ∧ Forall (λ e, get "model" e ≠ Some (JString model)) before
       ∧ get "model" entry = Some (JString model) ∧ entry_offers effort tier name entry)
  ∧ ∀ more, (pages ≤ more)%nat → ValidateModel request more model effort tier summary s = Some (Ok name, s').
Proof.
  unfold ValidateModel. destruct (bool_decide _) eqn:Es; cbn [negb]; [|by intros [= ]]. apply bool_decide_eq_true in Es.
  intros H. split; [done|]. split; [|intros more Hm; by eapply modelPages_more].
  generalize dependent (@None bytes). revert s. induction pages as [|n IH]; intros s cursor H; [done|]. cbn [modelPages] in H.
  destruct (request cursor s) as [[response|e] s1] eqn:Er; [|done].
  destruct (modelPage model effort tier response) as [[d|[c|]]|] eqn:Ep; try done; [|by eapply IH].
  injection H as -> ->. unfold modelPage in Ep. apply bind_Ok in Ep as (values & Hv%ObjectValue_inv & Ep). injection Hv as <-.
  destruct (get "data" response) as [[| | | |data|]|] eqn:Ed; try done.
  destruct (checkPage _ _ _ data) as [x|] eqn:Ec.
  - injection Ep as ->. destruct (checkPage_inv _ _ _ _ _ Ec) as (b & en & a & Hd & HF & Hm & Ho).
    exists cursor, s, response, data, b, en, a. split_and!; done.
  - destruct (get "nextCursor" response) as [[]|]; done.
Qed.
End pages.

Definition catalog (cursor : option bytes) (s : nat) : result jvalue * nat :=
  (Ok (match cursor with
       | None => JObject [(bs "data", JArray [JObject [(bs "model", str "other")]]); (bs "nextCursor", str "2")]
       | Some _ => JObject [(bs "data", JArray [JObject [(bs "model", str "m");
           (bs "supportedReasoningEfforts", JArray [JObject [(bs "reasoningEffort", str "high")]]);
           (bs "serviceTiers", JArray [JObject [(bs "id", str "fast"); (bs "name", str "Fast")]])]])]
       end), S s).

Lemma model_offered_witness :
  ValidateModel catalog 9 (bs "m") (bs "high") (bs "fast") (bs "auto") 0%nat = Some (Ok (bs "Fast"), 2%nat).
Proof.
  assert (H : ValidateModel catalog 2 (bs "m") (bs "high") (bs "fast") (bs "auto") 0%nat = Some (Ok (bs "Fast"), 2%nat))
    by (vm_compute; reflexivity).
  exact (proj2 (proj2 (model_offered catalog 2 _ _ _ _ _ _ _ H)) 9%nat ltac:(lia)).
Defined.
