(* ===== verification/CodexServer.v ===== *)
(** * Requests, responses and queues of the application server
      (src/internal/codexapp/app_server.go, the concurrent part)

    The state is the part of [CodexAppServer] that its goroutines share. Every
    definition is one critical section of the code; [server_step] interleaves
    them. A goroutine inside [Request] is a [call], named by its request number;
    the channel it waits on is part of it. Stages record how far [failReader] and
    [Shutdown] have come. The child process, the transport and the contexts are
    the arguments of the steps: what was read, whether a write failed, whether a
    context has ended. *)

From S2P Require Import Prelude GoStd Json JsonTree JsonCompact CodexApp.
Open Scope Z_scope.

Definition maxAppServerQueueMessages : Z := 256.
Definition maxAppServerQueueBytes : Z := 32 * 1024 * 1024.

(** ** The queues *)

(** A queued [any]: a message, a reader error, or [appQueueClosed]. *)
Inductive qvalue := QMessage (m : jvalue) | QError (e : error) | QClosed.

Record queuedMessage := mkQueued { qValue : qvalue; qBytes : Z }.

(** [wake] tells whether the one slot of the wake channel is taken. *)
Record appMessageQueue := mkQueue { values : list queuedMessage; queuedBytes : Z; wake : bool }.

Definition newAppMessageQueue : appMessageQueue := mkQueue [] 0 false.

Definition overfull (q : appMessageQueue) (encodedSize : Z) : bool :=
  (maxAppServerQueueMessages <=? len (values q)) || (maxAppServerQueueBytes - encodedSize <? queuedBytes q).

Definition put (value : qvalue) (encodedSize : Z) (q : appMessageQueue) : bool * appMessageQueue :=
  if (encodedSize <? 0) || (maxAppServerQueueBytes <? encodedSize) then (false, q)
  else if overfull q encodedSize then (false, q)
  else (true, mkQueue (values q ++ [mkQueued value encodedSize]) (queuedBytes q + encodedSize) true).

Definition replace (value : qvalue) (encodedSize : Z) (q : appMessageQueue) : appMessageQueue :=
  mkQueue [mkQueued value encodedSize] encodedSize true.

(** The loop of [forcePut] that drops the oldest values. *)
Fixpoint dropOldest (vs : list queuedMessage) (queued encodedSize : Z) : list queuedMessage * Z :=
  match vs with
  | [] => ([], queued)
  | v :: rest =>
      if (maxAppServerQueueMessages <=? len vs) || (maxAppServerQueueBytes - encodedSize <? queued)
      then dropOldest rest (queued - qBytes v) encodedSize else (vs, queued)
  end.

Definition forcePut (value : qvalue) (encodedSize : Z) (q : appMessageQueue) : appMessageQueue :=
  if (encodedSize <? 0) || (maxAppServerQueueBytes <? encodedSize) then q
  else let '(vs, queued) := dropOldest (values q) (queuedBytes q) encodedSize in
       mkQueue (vs ++ [mkQueued value encodedSize]) (queued + encodedSize) true.

(** One turn of the loop of [get]: the first value, or none when the queue is
    empty and the caller goes on to wait. *)
Definition take_value (q : appMessageQueue) : option (qvalue * appMessageQueue) :=
  match values q with
  | [] => None
  | v :: rest => Some (qValue v, mkQueue rest (queuedBytes q - qBytes v) (wake q))
  end.

(** ** The shared state *)

Inductive reply := RMessage (m : jvalue) | RError (e : error).

(** Where a goroutine stands in [Request]. *)
Inductive phase :=
| Numbered                            (* holds a request number *)
| Registered                          (* is in the pending table *)
| Sent                                (* waits for the response *)
| Returning (r : result jvalue)       (* before the deferred deletion *)
| Returned (r : result jvalue).

Record call := mkCall { method : bytes; params : jvalue; phase_ : phase; channel : option reply }.

Inductive fail_stage := FailNone | FailPending (e : error) | FailNotify (e : error) | FailDone (e : error).
Inductive stop_stage := StopNone | StopPending | StopNotify | StopServer | StopDone.
(** Where the reader stands: [Sending] has looked up the channel of a response. *)
Inductive reader_pc := Reading | Sending (id : Z) (m : jvalue) | ReaderDone.

Record CodexAppServer := mkServer {
  process : bool;                       (* process != nil, and then stdin and stdout *)
  closing : bool;
  readerError : option error;
  nextRequestID : Z;
  pending : gset Z;
  calls : gmap Z call;
  notifications : appMessageQueue;
  serverRequests : appMessageQueue;
  serverHandler : bool;
  written : list bytes;                 (* what the child was sent, in order *)
  reader : reader_pc;
  serving : bool;                       (* serverRequestLoop runs *)
  failing : fail_stage;
  stopping : stop_stage;
  (* what was read and handed on, for the statements *)
  responses : list (Z * jvalue);
  notified : list jvalue;
  taken : list qvalue
}.

(** After [startProcess]. *)
Definition startedServer : CodexAppServer :=
  mkServer true false None 1 ∅ ∅ newAppMessageQueue newAppMessageQueue false [] Reading true FailNone StopNone [] [] [].

Section setters.
Variable s : CodexAppServer.
Definition set_next n := mkServer (process s) (closing s) (readerError s) n (pending s) (calls s) (notifications s)
  (serverRequests s) (serverHandler s) (written s) (reader s) (serving s) (failing s) (stopping s) (responses s) (notified s) (taken s).
Definition set_calls (p : gset Z) (c : gmap Z call) := mkServer (process s) (closing s) (readerError s) (nextRequestID s) p c
  (notifications s) (serverRequests s) (serverHandler s) (written s) (reader s) (serving s) (failing s) (stopping s) (responses s)
  (notified s) (taken s).
Definition set_notifications q (n : list jvalue) (t : list qvalue) := mkServer (process s) (closing s) (readerError s) (nextRequestID s)
  (pending s) (calls s) q (serverRequests s) (serverHandler s) (written s) (reader s) (serving s) (failing s) (stopping s) (responses s) n t.
Definition set_requests q := mkServer (process s) (closing s) (readerError s) (nextRequestID s) (pending s) (calls s)
  (notifications s) q (serverHandler s) (written s) (reader s) (serving s) (failing s) (stopping s) (responses s) (notified s) (taken s).
Definition set_handler h := mkServer (process s) (closing s) (readerError s) (nextRequestID s) (pending s) (calls s)
  (notifications s) (serverRequests s) h (written s) (reader s) (serving s) (failing s) (stopping s) (responses s) (notified s) (taken s).
Definition set_written w := mkServer (process s) (closing s) (readerError s) (nextRequestID s) (pending s) (calls s)
  (notifications s) (serverRequests s) (serverHandler s) w (reader s) (serving s) (failing s) (stopping s) (responses s) (notified s) (taken s).
Definition set_reader r := mkServer (process s) (closing s) (readerError s) (nextRequestID s) (pending s) (calls s)
  (notifications s) (serverRequests s) (serverHandler s) (written s) r (serving s) (failing s) (stopping s) (responses s) (notified s) (taken s).
Definition set_serving b := mkServer (process s) (closing s) (readerError s) (nextRequestID s) (pending s) (calls s)
  (notifications s) (serverRequests s) (serverHandler s) (written s) (reader s) b (failing s) (stopping s) (responses s) (notified s) (taken s).
Definition set_failing e f := mkServer (process s) (closing s) e (nextRequestID s) (pending s) (calls s)
  (notifications s) (serverRequests s) (serverHandler s) (written s) (reader s) (serving s) f (stopping s) (responses s) (notified s) (taken s).
Definition set_stopping p c f := mkServer p c (readerError s) (nextRequestID s) (pending s) (calls s)
  (notifications s) (serverRequests s) (serverHandler s) (written s) (reader s) (serving s) (failing s) f (responses s) (notified s) (taken s).
Definition set_responses l := mkServer (process s) (closing s) (readerError s) (nextRequestID s) (pending s) (calls s)
  (notifications s) (serverRequests s) (serverHandler s) (written s) (reader s) (serving s) (failing s) (stopping s) l (notified s) (taken s).
End setters.

Definition not_running : error := codex "Codex app-server is not running".
Definition closed_error : error := codex "Codex app-server is closed".

(** ** failReader *)

(** Only the first failure counts, and none after [Shutdown] began. *)
Definition failReader_mark (err : error) (s : CodexAppServer) : CodexAppServer :=
  match readerError s with
  | Some _ => s
  | None => if closing s then s else set_failing s (Some err) (FailPending err)
  end.

(** [nonBlockingSend] to a channel of capacity one. *)
Definition nonBlockingSend (value : reply) (c : call) : bool * call :=
  match channel c with
  | Some _ => (false, c)
  | None => (true, mkCall (method c) (params c) (phase_ c) (Some value))
  end.

Definition send_pending (value : reply) (s : CodexAppServer) : CodexAppServer :=
  set_calls s (pending s)
    (map_imap (λ id c, Some (if decide (id ∈ pending s) then (nonBlockingSend value c).2 else c)) (calls s)).

Definition failReader_pending (s : CodexAppServer) : option CodexAppServer :=
  match failing s with
  | FailPending e => Some (set_failing (send_pending (RError e) s) (readerError s) (FailNotify e))
  | _ => None
  end.

Definition failReader_notify (s : CodexAppServer) : option CodexAppServer :=
  match failing s with
  | FailNotify e =>
      let s := set_notifications s (replace (QError e) 0 (notifications s)) (notified s) (taken s) in
      Some (set_failing s (readerError s) (FailDone e))
  | _ => None
  end.

(** ** Request *)

Definition newCall (m : bytes) (p : jvalue) : call := mkCall m p Numbered None.
Definition set_phase (ph : phase) (c : call) : call := mkCall (method c) (params c) ph (channel c).

(** The section under [requestMu] *)
Definition request_number (m : bytes) (p : jvalue) (s : CodexAppServer) : result Z * CodexAppServer :=
  let requestID := nextRequestID s in
  if requestID =? 0 then (Err (codex "Codex app-server request ID space is exhausted"), s)
  else (Ok requestID, set_calls (set_next s (wrap64 (requestID + 1))) (pending s) (<[requestID := newCall m p]> (calls s))).

(** The section under [pendingMu] *)
Definition request_register (id : Z) (c : call) (s : CodexAppServer) : CodexAppServer :=
  match readerError s with
  | Some e => set_calls s (pending s) (<[id := set_phase (Returned (Err e)) c]> (calls s))
  | None =>
      if closing s || negb (process s) then
        set_calls s (pending s) (<[id := set_phase (Returned (Err not_running)) c]> (calls s))
      else set_calls s ({[id]} ∪ pending s) (<[id := set_phase Registered c]> (calls s))
  end.

(** [writeMessage]; [fault] is what the pipe reports. *)
Definition writeMessage (message : list (bytes * jvalue)) (fault : option error) (s : CodexAppServer) : result unit * CodexAppServer :=
  match EncodeMessage message with
  | Err e => (Err e, s)
  | Ok encoded =>
      if negb (process s) || closing s then (Err not_running, s)
      else match fault with
           | Some e => (Err (CodexError (txt "Codex app-server closed its input unexpectedly") (Some e)), s)
           | None => (Ok (), set_written s (written s ++ [encoded]))
           end
  end.

Definition request_write (id : Z) (c : call) (fault : option error) (s : CodexAppServer) : CodexAppServer :=
  match writeMessage (requestMessage id (method c) (params c)) fault s with
  | (Err e, s) => set_calls s (pending s) (<[id := set_phase (Returning (Err e)) c]> (calls s))
  | (Ok _, s) => set_calls s (pending s) (<[id := set_phase Sent c]> (calls s))
  end.

(** The first arm of the select: a value on the channel *)
Definition request_receive (id : Z) (c : call) (s : CodexAppServer) : option CodexAppServer :=
  match channel c with
  | None => None
  | Some value =>
      let r := match value with RError e => Err e | RMessage m => requestResult (method c) m end in
      Some (set_calls s (pending s) (<[id := mkCall (method c) (params c) (Returning r) None]> (calls s)))
  end.

(** The second arm: the context has ended *)
Definition request_cancel (id : Z) (c : call) (e : error) (s : CodexAppServer) : CodexAppServer :=
  set_calls s (pending s) (<[id := set_phase (Returning (Err e)) c]> (calls s)).

(** The deferred deletion *)
Definition request_delete (id : Z) (c : call) (r : result jvalue) (s : CodexAppServer) : CodexAppServer :=
  set_calls s (pending s ∖ {[id]}) (<[id := set_phase (Returned r) c]> (calls s)).

(** ** The reader *)

Definition hasID (message : jvalue) : option jvalue :=
  match get "id" message with Some JNull => None | o => o end.
Definition hasMethod (message : jvalue) : bool := if get "method" message then true else false.

Definition reader_stops (s : CodexAppServer) : CodexAppServer := set_reader s ReaderDone.

(** [routeMessage] up to the lookup of the channel of a response. A
    server request goes to its queue (after the observer), a message without a
    number is a notification. *)
Definition routeMessage (message : jvalue) (encodedSize : Z) (s : CodexAppServer) : CodexAppServer :=
  match hasID message with
  | Some requestID =>
      if hasMethod message then
        match put (QMessage message) encodedSize (serverRequests s) with
        | (true, q) => set_requests s q
        | (false, _) => reader_stops (failReader_mark (codex "Codex app-server server-request queue exceeds bounds") s)
        end
      else match responseID requestID with
      | None => reader_stops (failReader_mark (codex "Codex app-server response ID is not an integer") s)
      | Some identifier =>
          if decide (identifier ∈ pending s) then set_reader s (Sending identifier message)
          else reader_stops (failReader_mark (codex "Codex app-server response ID does not match a request") s)
      end
  | None =>
      match put (QMessage message) encodedSize (notifications s) with
      | (true, q) => set_notifications s q (notified s ++ [message]) (taken s)
      | (false, _) => reader_stops (failReader_mark (codex "Codex app-server notification queue exceeds bounds") s)
      end
  end.

(** ... and the send. The channel may meanwhile belong to no waiting request. *)
Definition route_send (id : Z) (m : jvalue) (c : call) (s : CodexAppServer) : CodexAppServer :=
  match nonBlockingSend (RMessage m) c with
  | (true, c) => set_reader (set_responses (set_calls s (pending s) (<[id := c]> (calls s))) (responses s ++ [(id, m)])) Reading
  | (false, _) => reader_stops (failReader_mark (codex "Codex app-server sent a duplicate response") s)
  end.

(** The loop's body on a line that decodes, and on everything else: the end of the
    stream, a read error, or a line that does not decode. *)
Section ReadLoop.
Context (syntax_error : bytes → error).
Definition readLoop_line (line : bytes) (s : CodexAppServer) : CodexAppServer :=
  match DecodeMessage syntax_error line with
  | Ok message => routeMessage message (len line) s
  | Err e => reader_stops (if closing s then s else failReader_mark (asAppServerError e) s)
  end.
End ReadLoop.
Definition readLoop_fails (err : error) (s : CodexAppServer) : CodexAppServer :=
  reader_stops (if closing s then s else failReader_mark err s).

(** [unexpectedExitError]: how the child ended and what it left on its error output *)
Inductive exit_status := ExitZero | ExitCode (code : Z) | ExitOther (message : text).
Definition unexpectedExitError (processErr : exit_status) (diagnostics : bytes) : error :=
  let status := match processErr with
                | ExitZero => txt "0" | ExitCode code => [Lit (strconv.Itoa code)] | ExitOther message => message
                end in
  CodexError (txt "Codex app-server exited unexpectedly with status " ++ status
              ++ if bool_decide (diagnostics = []) then [] else txt ": " ++ [Lit diagnostics]) None.

(** ** serverRequestLoop: one value; an installed handler acts through other steps *)
Definition serve (fault : option error) (s : CodexAppServer) : option CodexAppServer :=
  match take_value (serverRequests s) with
  | None => None
  | Some (QClosed, q) => Some (set_serving (set_requests s q) false)
  | Some (QError _, q) =>
      Some (set_serving (failReader_mark (codex "Codex app-server server request is not an object") (set_requests s q)) false)
  | Some (QMessage message, q) =>
      let s := set_requests s q in
      if serverHandler s then Some s
      else match writeMessage (rejection message) fault s with
           | (Ok _, s) => Some s
           | (Err e, s) => Some (set_serving (if closing s then s else failReader_mark (asAppServerError e) s) false)
           end
  end.

(** ** The other operations *)

Definition Notify (m : bytes) (p : option jvalue) (fault : option error) (s : CodexAppServer) : result unit * CodexAppServer :=
  writeMessage (notifyMessage m p) fault s.
Definition WriteResult (requestID result : jvalue) (fault : option error) (s : CodexAppServer) : GoStd.result unit * CodexAppServer :=
  writeMessage (resultMessage requestID result) fault s.
Definition RejectServerRequest (message : jvalue) (fault : option error) (s : CodexAppServer) : GoStd.result unit * CodexAppServer :=
  writeMessage (rejection message) fault s.
Definition SetServerRequestHandler (installed : bool) (s : CodexAppServer) : CodexAppServer := set_handler s installed.

(** [NextNotification], when a value is there *)
Definition NextNotification (s : CodexAppServer) : option (GoStd.result jvalue * CodexAppServer) :=
  match take_value (notifications s) with
  | None => None
  | Some (v, q) =>
      let s := set_notifications s q (notified s) (taken s ++ [v]) in
      Some (match v with
            | QClosed => Err closed_error
            | QError e => Err e
            | QMessage m => ObjectValue (Some m) (txt "Codex app-server notification")
            end, s)
  end.

(** [Shutdown], up to the signals to the child: its sections under [stateMu] and
    [pendingMu] and the two terminal markers. *)
Definition Shutdown_mark (s : CodexAppServer) : CodexAppServer :=
  if negb (process s) then s else set_stopping s false true StopPending.
Definition Shutdown_step (s : CodexAppServer) : option CodexAppServer :=
  match stopping s with
  | StopPending => Some (set_stopping (send_pending (RError closed_error) s) (process s) (closing s) StopNotify)
  | StopNotify => Some (set_stopping (set_notifications s (forcePut QClosed 0 (notifications s)) (notified s) (taken s))
                          (process s) (closing s) StopServer)
  | StopServer => Some (set_stopping (set_requests s (forcePut QClosed 0 (serverRequests s))) (process s) (closing s) StopDone)
  | _ => None
  end.

(** ** Interleavings *)
Inductive server_step : CodexAppServer → CodexAppServer → Prop :=
| step_number m p s s' id : request_number m p s = (Ok id, s') → server_step s s'
| step_register id c s : calls s !! id = Some c → phase_ c = Numbered → server_step s (request_register id c s)
| step_write id c fault s : calls s !! id = Some c → phase_ c = Registered → server_step s (request_write id c fault s)
| step_receive id c s s' : calls s !! id = Some c → phase_ c = Sent → request_receive id c s = Some s' → server_step s s'
| step_cancel id c e s : calls s !! id = Some c → phase_ c = Sent → server_step s (request_cancel id c e s)
| step_delete id c r s : calls s !! id = Some c → phase_ c = Returning r → server_step s (request_delete id c r s)
| step_line syntax line s : reader s = Reading → server_step s (readLoop_line syntax line s)
| step_read_error e s : reader s = Reading → server_step s (readLoop_fails e s)
| step_send id m c s : reader s = Sending id m → calls s !! id = Some c → server_step s (route_send id m c s)
| step_fail_pending s s' : failReader_pending s = Some s' → server_step s s'
| step_fail_notify s s' : failReader_notify s = Some s' → server_step s s'
| step_serve fault s s' : serving s = true → serve fault s = Some s' → server_step s s'
| step_notify m p fault s : server_step s (Notify m p fault s).2
| step_result i r fault s : server_step s (WriteResult i r fault s).2
| step_reject m fault s : server_step s (RejectServerRequest m fault s).2
| step_handler h s : server_step s (SetServerRequestHandler h s)
| step_next r s s' : NextNotification s = Some (r, s') → server_step s s'
| step_shutdown s : server_step s (Shutdown_mark s)
| step_stop s s' : Shutdown_step s = Some s' → server_step s s'.
