(* ===== verification/CodexServerProofs.v ===== *)
(** * Requests get their own response, and none waits forever

    The invariant of the application server's shared state under every
    interleaving of its goroutines, and what follows from it. *)

From S2P Require Import Prelude GoStd Json JsonTree JsonCompact CodexApp CodexServer.
Open Scope Z_scope.

(** ** The queues *)

Definition total_bytes (l : list queuedMessage) : Z := foldr (λ v n, qBytes v + n) 0 l.

Record queue_ok (q : appMessageQueue) : Prop := {
  qo_length : len (values q) ≤ maxAppServerQueueMessages;
  qo_total : queuedBytes q = total_bytes (values q);
  qo_bytes : queuedBytes q ≤ maxAppServerQueueBytes;
  qo_sizes : Forall (λ v, 0 ≤ qBytes v) (values q)
}.

Lemma total_bytes_cons v l : total_bytes (v :: l) = qBytes v + total_bytes l.
Proof. done. Qed.

Lemma total_bytes_app l k : total_bytes (l ++ k) = total_bytes l + total_bytes k.
Proof. induction l as [|v l IH]; [done|]. cbn [app]. rewrite !total_bytes_cons. lia. Qed.

Lemma total_bytes_nonneg l : Forall (λ v, 0 ≤ qBytes v) l → 0 ≤ total_bytes l.
Proof. induction 1; [done|]. rewrite total_bytes_cons. lia. Qed.

Lemma queue_new : queue_ok newAppMessageQueue.
Proof. split; cbn; [done|done|done|constructor]. Qed.

Lemma put_inv v n q b q' : put v n q = (b, q') →
  (b = false ∧ q' = q) ∨ (b = true ∧ 0 ≤ n ∧ len (values q) < maxAppServerQueueMessages
    ∧ queuedBytes q + n ≤ maxAppServerQueueBytes
    ∧ q' = mkQueue (values q ++ [mkQueued v n]) (queuedBytes q + n) true).
Proof.
  unfold put, overfull. destruct ((n <? 0) || _) eqn:E1; [intros [= <- <-]; auto|].
  destruct ((_ <=? _) || _) eqn:E2; intros [= <- <-]; [auto|]. right.
  apply orb_false_iff in E1 as [?%Z.ltb_ge _], E2 as [?%Z.leb_gt ?%Z.ltb_ge]. split_and!; [done|lia|lia|lia|done].
Qed.

Lemma put_ok v n q b q' : put v n q = (b, q') → queue_ok q → queue_ok q'.
Proof.
  intros [[_ ->] | (_ & Hn & Hl & Hb & ->)]%put_inv [H1 H2 H3 H4]; [by split|]. split; cbn [values queuedBytes].
  - rewrite len_app. change (len [mkQueued v n]) with 1. lia.
  - rewrite total_bytes_app. cbn. lia.
  - lia.
  - apply Forall_app. split; [done|]. by constructor.
Qed.

Lemma replace_ok v q : queue_ok (replace v 0 q).
Proof. split; cbn; [done|done|done|by constructor]. Qed.

(** What [forcePut] drops is a beginning of the queue. *)
Lemma dropOldest_inv vs queued vs' queued' : queued = total_bytes vs → Forall (λ v, 0 ≤ qBytes v) vs →
  dropOldest vs queued 0 = (vs', queued') →
  ∃ pre, vs = pre ++ vs' ∧ queued' = total_bytes vs' ∧ len vs' < maxAppServerQueueMessages ∧ queued' ≤ maxAppServerQueueBytes.
Proof.
  revert queued. induction vs as [|v vs IH]; intros queued Hq HF; cbn [dropOldest].
  { intros [= <- <-]. exists []. by rewrite Hq. }
  apply Forall_cons in HF as [Hv HF]. rewrite total_bytes_cons in Hq.
  destruct ((_ <=? _) || _) eqn:E.
  - intros H. destruct (IH (queued - qBytes v) ltac:(lia) HF H) as (pre & -> & ?). by exists (v :: pre).
  - intros [= <- <-]. apply orb_false_iff in E as [?%Z.leb_gt ?%Z.ltb_ge]. exists [].
    split_and!; [done|by rewrite total_bytes_cons|lia|lia].
Qed.

Lemma forcePut_inv v q : queue_ok q →
  ∃ pre kept, values q = pre ++ kept ∧ len kept < maxAppServerQueueMessages ∧ total_bytes kept ≤ maxAppServerQueueBytes
    ∧ forcePut v 0 q = mkQueue (kept ++ [mkQueued v 0]) (total_bytes kept) true.
Proof.
  intros [H1 H2 H3 H4]. unfold forcePut. cbn [orb Z.ltb Z.compare].
  change (maxAppServerQueueBytes <? 0) with false. cbn match.
  destruct (dropOldest _ _ _) as [vs queued] eqn:E.
  destruct (dropOldest_inv _ _ _ _ H2 H4 E) as (pre & Hv & -> & ? & ?). exists pre, vs.
  rewrite Z.add_0_r. done.
Qed.

Lemma forcePut_ok v q : queue_ok q → queue_ok (forcePut v 0 q).
Proof.
  intros Hq. destruct (forcePut_inv v q Hq) as (pre & kept & E & Hl & Hb & ->). destruct Hq as [_ _ _ HF].
  rewrite E in HF. apply Forall_app in HF as [_ HF]. split; cbn [values queuedBytes].
  - rewrite len_app. change (len [mkQueued v 0]) with 1. lia.
  - rewrite total_bytes_app. cbn. lia.
  - lia.
  - apply Forall_app. split; [done|]. by constructor.
Qed.

Lemma take_inv q v q' : take_value q = Some (v, q') →
  ∃ n, values q = mkQueued v n :: values q' ∧ queuedBytes q' = queuedBytes q - n.
Proof.
  unfold take_value. destruct (values q) as [|[w n] rest] eqn:E; [done|]. intros [= <- <-]. by exists n.
Qed.

Lemma take_ok q v q' : take_value q = Some (v, q') → queue_ok q → queue_ok q'.
Proof.
  intros (n & E & Hb)%take_inv [H1 H2 H3 H4]. rewrite E in *. apply Forall_cons in H4 as [Hn H4]. cbn in Hn.
  rewrite total_bytes_cons in H2. cbn [qBytes] in H2.
  rewrite len_cons in H1. split; [lia|lia|lia|done].
Qed.

(** ** The invariant *)

(** The first response that was routed to a request. *)
Definition first_response (l : list (Z * jvalue)) (id : Z) : option jvalue :=
  snd <$> head (filter (λ p, p.1 = id) l).

Definition waiting (p : phase) : bool :=
  match p with Registered | Sent | Returning _ => true | _ => false end.

(** A message that answers request [id]. *)
Definition answers (id : Z) (m : jvalue) : Prop := ∃ v, get "id" m = Some v ∧ v ≠ JNull ∧ responseID v = Some id.

(** A call and what was routed to it. *)
Definition call_ok (s : CodexAppServer) (id : Z) (c : call) : Prop :=
  match phase_ c with
  | Numbered => channel c = None ∧ first_response (responses s) id = None
  | Registered | Sent =>
      match channel c with
      | None => first_response (responses s) id = None
      | Some (RMessage m) => first_response (responses s) id = Some m
      | Some (RError e) => readerError s = Some e ∨ (e = closed_error ∧ closing s = true)
      end
  | Returning r | Returned r =>
      ∀ v, r = Ok v → ∃ m, first_response (responses s) id = Some m ∧ requestResult (method c) m = Ok v
  end.

Definition fail_error (f : fail_stage) : option error :=
  match f with FailNone => None | FailPending e | FailNotify e | FailDone e => Some e end.

(** The waiters have been told. *)
Definition told (s : CodexAppServer) : bool :=
  match failing s with FailNotify _ | FailDone _ => true | _ => false end
  || match stopping s with StopNotify | StopServer | StopDone => true | _ => false end.

(** The terminal value has been queued. *)
Definition ended (s : CodexAppServer) : bool :=
  match failing s with FailDone _ => true | _ => false end
  || match stopping s with StopServer | StopDone => true | _ => false end.

Definition message_of (v : qvalue) : option jvalue := match v with QMessage m => Some m | _ => None end.
Definition queued (s : CodexAppServer) : list qvalue := qValue <$> values (notifications s).

Record server_inv (s : CodexAppServer) : Prop := {
  si_notifications : queue_ok (notifications s);
  si_requests : queue_ok (serverRequests s);
  si_next : u64 (nextRequestID s);
  si_ids : ∀ id c, calls s !! id = Some c → 0 < id ∧ u64 id ∧ (nextRequestID s = 0 ∨ id < nextRequestID s);
  si_pending : ∀ id, id ∈ pending s ↔ ∃ c, calls s !! id = Some c ∧ waiting (phase_ c) = true;
  si_calls : ∀ id c, calls s !! id = Some c → call_ok s id c;
  si_reader : ∀ id m, reader s = Sending id m →
    answers id m ∧ ∃ c, calls s !! id = Some c ∧ phase_ c ≠ Numbered;
  si_answers : Forall (λ p, answers p.1 p.2 ∧ p.1 ∈ dom (calls s)) (responses s);
  si_failing : readerError s = fail_error (failing s);
  si_stopping : closing s = match stopping s with StopNone => false | _ => true end ∧ process s = negb (closing s);
  si_told : told s = true → ∀ id c, calls s !! id = Some c → phase_ c = Registered ∨ phase_ c = Sent → channel c ≠ None;
  si_order : sublist (omap message_of (taken s ++ queued s)) (notified s);
  si_all : ended s = false → taken s ++ queued s = QMessage <$> notified s;
  si_terminal : ended s = true → ∃ v, v ∈ taken s ++ queued s ∧ message_of v = None
}.

Lemma first_response_app l k id m : first_response l id = Some m → first_response (l ++ k) id = Some m.
Proof. unfold first_response. rewrite filter_app. by destruct (filter _ l). Qed.

Lemma first_response_new l id m : first_response l id = None → first_response (l ++ [(id, m)]) id = Some m.
Proof.
  unfold first_response. rewrite filter_app. destruct (filter _ l); [|done]. intros _. cbn [app].
  rewrite filter_cons_True by done. done.
Qed.

Lemma first_response_other l id id' m : id ≠ id' → first_response (l ++ [(id', m)]) id = first_response l id.
Proof.
  intros Hne. unfold first_response. rewrite filter_app, filter_cons_False by (cbn; congruence). by rewrite app_nil_r.
Qed.

Lemma started_inv : server_inv startedServer.
Proof.
  split; cbn [startedServer notifications serverRequests nextRequestID pending calls responses readerError failing stopping
    closing process reader taken notified]; try done; try apply queue_new.
  - intros id. split; [by intros ?%elem_of_empty|]. intros (c & Hc & _). by rewrite lookup_empty in Hc.
Qed.

(** ** Operations that leave the calls and notifications alone *)

Lemma server_frame s s' :
  server_inv s →
  queue_ok (serverRequests s') →
  notifications s' = notifications s → nextRequestID s' = nextRequestID s → pending s' = pending s → calls s' = calls s →
  (reader s' = reader s ∨ reader s' = Reading ∨ reader s' = ReaderDone) → responses s' = responses s →
  readerError s' = readerError s → failing s' = failing s → stopping s' = stopping s → closing s' = closing s →
  process s' = process s → taken s' = taken s → notified s' = notified s →
  server_inv s'.
Proof.
  intros [] Hq En Ex Ep Ec Er Eo Ee Ef Es El Eu Et Ed.
  assert (Htold : told s' = told s) by (unfold told; by rewrite Ef, Es).
  assert (Hended : ended s' = ended s) by (unfold ended; by rewrite Ef, Es).
  assert (Hqueued : queued s' = queued s) by (unfold queued; by rewrite En).
  split; rewrite ?En, ?Ex, ?Ep, ?Ec, ?Eo, ?Ee, ?Ef, ?Es, ?El, ?Eu, ?Et, ?Ed, ?Htold, ?Hended, ?Hqueued; try done.
  - intros id c Hc. specialize (si_calls0 id c Hc). unfold call_ok in *. by rewrite Eo, Ee, El.
  - destruct Er as [-> |[-> | ->]]; done.
Qed.

Ltac frame s := apply (server_frame s); cbn; auto.

Lemma failReader_mark_fields e s :
  failReader_mark e s = s
  ∨ readerError s = None ∧ closing s = false ∧ failReader_mark e s = set_failing s (Some e) (FailPending e).
Proof. unfold failReader_mark. destruct (readerError s) eqn:E1, (closing s) eqn:E2; auto. Qed.

(** The first failure is only marked: nobody has been told yet. *)
Lemma failReader_mark_inv e s : server_inv s → server_inv (failReader_mark e s).
Proof.
  intros Hs. destruct (failReader_mark_fields e s) as [-> |(E1 & E2 & ->)]; [done|]. destruct Hs.
  assert (Hf : failing s = FailNone) by (rewrite E1 in *; by destruct (failing s)).
  split; cbn; try done.
  - intros id c Hc. specialize (si_calls0 id c Hc). unfold call_ok in *. cbn.
    destruct (phase_ c), (channel c) as [[]|]; try done; rewrite E1 in *; naive_solver.
  - intros Ht. apply si_told0. unfold told in *. cbn in Ht. by rewrite Hf, Ht.
  - intros He. apply si_all0. unfold ended in *. cbn in He. by rewrite Hf, He.
  - intros He. apply si_terminal0. unfold ended in *. cbn in He. by rewrite Hf, He.
Qed.

Lemma stops_inv s : server_inv s → server_inv (reader_stops s).
Proof. intros Hs. pose proof (si_requests s Hs). frame s. Qed.

Lemma serving_inv s b : server_inv s → server_inv (set_serving s b).
Proof. intros Hs. pose proof (si_requests s Hs). frame s. Qed.

Lemma requests_inv s q : server_inv s → queue_ok q → server_inv (set_requests s q).
Proof. intros Hs Hq. frame s. Qed.

Lemma writeMessage_fields m f s : ∃ w, (writeMessage m f s).2 = s ∨ (writeMessage m f s).2 = set_written s w.
Proof. unfold writeMessage. destruct (EncodeMessage m) as [x|]; [|by exists []; left].
  exists (written s ++ [x]). destruct (_ || _); [by left|]. destruct f; auto.
Qed.

Lemma writeMessage_inv m f s : server_inv s → server_inv (writeMessage m f s).2.
Proof.
  intros Hs. destruct (writeMessage_fields m f s) as (w & [-> | ->]); [done|]. pose proof (si_requests s Hs). frame s.
Qed.

(** ** One call moves on *)

Lemma set_call_inv s id c c' p :
  server_inv s → calls s !! id = Some c →
  (∀ j, j ∈ p ↔ if decide (j = id) then waiting (phase_ c') = true else j ∈ pending s) →
  call_ok s id c' → phase_ c' ≠ Numbered →
  (told s = true → phase_ c' = Registered ∨ phase_ c' = Sent → channel c' ≠ None) →
  server_inv (set_calls s p (<[id := c']> (calls s))).
Proof.
  intros [] Hc Hp Hok Hne Htold. split; cbn; try done.
  - intros j d Hj. destruct (decide (j = id)) as [-> |Hj']; [eauto|]. rewrite lookup_insert_ne in Hj by done. eauto.
  - intros j. rewrite Hp. destruct (decide (j = id)) as [-> |Hj'].
    + rewrite lookup_insert_eq. naive_solver.
    + rewrite lookup_insert_ne by done. apply si_pending0.
  - intros j d Hj. destruct (decide (j = id)) as [-> |Hj'].
    + rewrite lookup_insert_eq in Hj. by injection Hj as <-.
    + rewrite lookup_insert_ne in Hj by done. exact (si_calls0 j d Hj).
  - intros j m Hr. destruct (si_reader0 j m Hr) as (Ha & d & Hd & Hph). split; [done|].
    destruct (decide (j = id)) as [-> |Hj'].
    + exists c'. by rewrite lookup_insert_eq.
    + exists d. by rewrite lookup_insert_ne.
  - eapply Forall_impl; [exact si_answers0|]. intros [j m] [Ha Hd]. split; [done|]. rewrite dom_insert. cbn in *. set_solver.
  - intros Ht j d Hj Hph. destruct (decide (j = id)) as [-> |Hj'].
    + rewrite lookup_insert_eq in Hj. injection Hj as <-. by apply Htold.
    + rewrite lookup_insert_ne in Hj by done. by apply (si_told0 Ht j).
Qed.

(** Moving on without leaving the table, or with nobody in the table. *)
Lemma same_pending s id c c' :
  server_inv s → calls s !! id = Some c → waiting (phase_ c') = waiting (phase_ c) →
  ∀ j, j ∈ pending s ↔ if decide (j = id) then waiting (phase_ c') = true else j ∈ pending s.
Proof.
  intros Hs Hc Hw j. destruct (decide (j = id)) as [-> |]; [|done]. rewrite (si_pending s Hs), Hw. naive_solver.
Qed.

Lemma told_closed s : server_inv s → told s = true → readerError s ≠ None ∨ closing s = true.
Proof.
  intros [] Ht. rewrite si_failing0. destruct si_stopping0 as [-> _]. unfold told in Ht.
  destruct (failing s); cbn in *; try (left; discriminate); right; by destruct (stopping s).
Qed.

Lemma register_inv s id c :
  server_inv s → calls s !! id = Some c → phase_ c = Numbered → server_inv (request_register id c s).
Proof.
  intros Hs Hc Hp. pose proof (si_calls s Hs id c Hc) as Hok. unfold call_ok in Hok. rewrite Hp in Hok. destruct Hok as [Hch Hno].
  unfold request_register. destruct (readerError s) as [e|] eqn:He; [|destruct (closing s || negb (process s)) eqn:Hcl].
  1, 2: apply (set_call_inv s id c); [done|done| |by intros v|done|by intros _ []];
    apply (same_pending s id c); [done|done|by rewrite Hp].
  apply (set_call_inv s id c); [done|done| | |done|].
  - intros j. cbn. destruct (decide (j = id)) as [-> |]; set_solver.
  - unfold call_ok. cbn. by rewrite Hch.
  - intros Ht. destruct (told_closed s Hs Ht) as [? | Hx]; [congruence|]. by rewrite Hx in Hcl.
Qed.

Lemma sent_inv s id c ph :
  server_inv s → calls s !! id = Some c → phase_ c = Registered ∨ phase_ c = Sent → ph = Sent ∨ (∃ e, ph = Returning (Err e)) →
  server_inv (set_calls s (pending s) (<[id := set_phase ph c]> (calls s))).
Proof.
  intros Hs Hc Hp Hph. pose proof (si_calls s Hs id c Hc) as Hok.
  apply (set_call_inv s id c); [done|done| | | |].
  - apply (same_pending s id c); [done|done|]. destruct Hp as [-> | ->], Hph as [-> |[e ->]]; done.
  - unfold call_ok in *. destruct Hph as [-> |[e ->]]; cbn; [by destruct Hp as [E|E]; rewrite E in Hok|by intros v].
  - by destruct Hph as [-> |[e ->]].
  - intros Ht _. exact (si_told s Hs Ht id c Hc Hp).
Qed.

Lemma write_inv s id c f :
  server_inv s → calls s !! id = Some c → phase_ c = Registered → server_inv (request_write id c f s).
Proof.
  intros Hs Hc Hp. unfold request_write. pose proof (writeMessage_inv (requestMessage id (method c) (params c)) f s Hs) as Hw.
  destruct (writeMessage_fields (requestMessage id (method c) (params c)) f s) as (w & Hf).
  destruct (writeMessage _ f s) as [r s1] eqn:E. cbn [snd] in *.
  assert (Hc1 : calls s1 !! id = Some c) by (by destruct Hf as [-> | ->]).
  destruct r as [[]|e]; apply (sent_inv s1 id c); eauto.
Qed.

Lemma receive_inv s s' id c :
  server_inv s → calls s !! id = Some c → phase_ c = Sent → request_receive id c s = Some s' → server_inv s'.
Proof.
  intros Hs Hc Hp H. pose proof (si_calls s Hs id c Hc) as Hok. unfold call_ok in Hok. rewrite Hp in Hok.
  unfold request_receive in H. destruct (channel c) as [value|] eqn:Hch; [|done]. injection H as <-.
  apply (set_call_inv s id c); [done|done| | |done|by intros _ []].
  - apply (same_pending s id c); [done|done|]. by rewrite Hp.
  - unfold call_ok. cbn. intros v Hv. destruct value as [m|e]; [|done]. eauto.
Qed.

Lemma delete_inv s id c r :
  server_inv s → calls s !! id = Some c → phase_ c = Returning r → server_inv (request_delete id c r s).
Proof.
  intros Hs Hc Hp. pose proof (si_calls s Hs id c Hc) as Hok. unfold call_ok in Hok. rewrite Hp in Hok.
  unfold request_delete. apply (set_call_inv s id c); [done|done| |done|done|by intros _ []].
  intros j. cbn. destruct (decide (j = id)) as [-> |]; set_solver.
Qed.

(** A request number is new. *)
Lemma number_fresh s m p id s' : server_inv s → request_number m p s = (Ok id, s') → calls s !! id = None.
Proof.
  intros [] H. unfold request_number in H. destruct (nextRequestID s =? 0) eqn:E; [done|]. injection H as <- _.
  apply Z.eqb_neq in E. destruct (calls s !! nextRequestID s) as [c|] eqn:Hc; [|done].
  destruct (si_ids0 _ _ Hc) as (_ & _ & [?|?]); [done|lia].
Qed.

Lemma number_inv s m p id s' : server_inv s → request_number m p s = (Ok id, s') → server_inv s'.
Proof.
  intros Hs H. pose proof (number_fresh s m p id s' Hs H) as Hnew. destruct Hs. unfold request_number in H.
  destruct (nextRequestID s =? 0) eqn:E; [done|]. injection H as <- <-. apply Z.eqb_neq in E.
  assert (Hnr : first_response (responses s) (nextRequestID s) = None).
  { unfold first_response. destruct (filter _ _) as [|x l] eqn:Ef; [done|].
    assert (Hx : x ∈ filter (λ p, p.1 = nextRequestID s) (responses s)) by (rewrite Ef; left).
    apply list_elem_of_filter in Hx as [Hid Hx]. rewrite Forall_forall in si_answers0.
    destruct (si_answers0 x Hx) as [_ Hd]. rewrite Hid in Hd. by apply not_elem_of_dom in Hnew. }
  unfold u64 in *. split; cbn; try done.
  - unfold wrap64. pose proof (Z.mod_pos_bound (nextRequestID s + 1) (2 ^ 64) ltac:(lia)). unfold u64. lia.
  - intros j c Hj. assert (Hw : wrap64 (nextRequestID s + 1) = 0 ∨ wrap64 (nextRequestID s + 1) = nextRequestID s + 1).
    { unfold wrap64. destruct (decide (nextRequestID s + 1 = 2 ^ 64)) as [-> |]; [by left|right; apply Z.mod_small; lia]. }
    destruct (decide (j = nextRequestID s)) as [-> |Hne]; [unfold u64; lia|].
    rewrite lookup_insert_ne in Hj by done. destruct (si_ids0 j c Hj) as (? & ? & ?). unfold u64 in *. lia.
  - intros j. destruct (decide (j = nextRequestID s)) as [-> |Hne].
    + rewrite lookup_insert_eq, si_pending0, Hnew. naive_solver.
    + by rewrite lookup_insert_ne by done.
  - intros j c Hj. destruct (decide (j = nextRequestID s)) as [-> |Hne].
    + rewrite lookup_insert_eq in Hj. by injection Hj as <-.
    + rewrite lookup_insert_ne in Hj by done. exact (si_calls0 j c Hj).
  - intros j m' Hr. destruct (si_reader0 j m' Hr) as (Ha & d & Hd & Hph). split; [done|]. exists d.
    by rewrite lookup_insert_ne by congruence.
  - eapply Forall_impl; [exact si_answers0|]. intros [j x] [Ha Hd]. split; [done|]. rewrite dom_insert. cbn in *. set_solver.
  - intros Ht j d Hj Hph. destruct (decide (j = nextRequestID s)) as [-> |Hne].
    + rewrite lookup_insert_eq in Hj. injection Hj as <-. by destruct Hph.
    + rewrite lookup_insert_ne in Hj by done. by apply (si_told0 Ht j).
Qed.

(** ** Telling everyone who waits *)

Lemma send_pending_call value s id :
  calls (send_pending value s) !! id
  = (λ c, if decide (id ∈ pending s) then (nonBlockingSend value c).2 else c) <$> calls s !! id.
Proof. cbn. rewrite map_lookup_imap. by destruct (calls s !! id). Qed.

Lemma sent_value_phase value c : phase_ (nonBlockingSend value c).2 = phase_ c ∧ method (nonBlockingSend value c).2 = method c.
Proof. unfold nonBlockingSend. by destruct (channel c). Qed.

Lemma call_lookup_sent value s id d : calls (send_pending value s) !! id = Some d →
  ∃ c, calls s !! id = Some c ∧ phase_ d = phase_ c ∧ method d = method c
    ∧ (d = c ∨ id ∈ pending s ∧ channel c = None ∧ channel d = Some value)
    ∧ (id ∈ pending s → channel d ≠ None).
Proof.
  rewrite send_pending_call. destruct (calls s !! id) as [c|] eqn:E; [|done]. cbn [fmap option_fmap option_map].
  intros [= <-]. exists c. destruct (decide _) as [Hp|Hp]; [|naive_solver].
  destruct (sent_value_phase value c) as [? ?]. unfold nonBlockingSend in *. destruct (channel c) eqn:Ec; cbn in *;
    split_and!; auto; congruence.
Qed.

Lemma send_pending_inv value e s :
  server_inv s → value = RError e → readerError s = Some e ∨ (e = closed_error ∧ closing s = true) →
  server_inv (send_pending value s)
  ∧ (∀ id d, calls (send_pending value s) !! id = Some d → phase_ d = Registered ∨ phase_ d = Sent → channel d ≠ None).
Proof.
  intros Hs -> He.
  assert (Hall : ∀ id d, calls (send_pending (RError e) s) !! id = Some d → phase_ d = Registered ∨ phase_ d = Sent → channel d ≠ None).
  { intros id d Hd Hph. destruct (call_lookup_sent _ _ _ _ Hd) as (c & Hc & Hp & _ & _ & Hch). apply Hch.
    apply (si_pending s Hs). exists c. split; [done|]. rewrite Hp in Hph. by destruct Hph as [-> | ->]. }
  split; [|exact Hall]. destruct Hs. split; try done.
  - intros id d Hd. destruct (call_lookup_sent _ _ _ _ Hd) as (c & Hc & _). exact (si_ids0 id c Hc).
  - intros id. change (pending (send_pending (RError e) s)) with (pending s). rewrite si_pending0, send_pending_call. split.
    + intros (c & -> & Hw). eexists. split; [done|]. destruct (decide _); [|done]. by rewrite (proj1 (sent_value_phase _ _)).
    + intros (d & Hd & Hw). destruct (calls s !! id) as [c|]; [|done]. exists c. split; [done|].
      injection Hd as <-. destruct (decide _); [|done]. by rewrite (proj1 (sent_value_phase _ _)) in Hw.
  - intros id d Hd. destruct (call_lookup_sent _ _ _ _ Hd) as (c & Hc & Hp & Hm & Hcase & _).
    pose proof (si_calls0 id c Hc) as Hok. unfold call_ok in *. rewrite Hp, Hm. cbn [send_pending set_calls responses readerError closing].
    destruct Hcase as [-> |(Hin & Hnone & Hsome)]; [done|]. rewrite Hsome.
    apply si_pending0 in Hin as (c' & Hc' & Hw). rewrite Hc in Hc'. injection Hc' as <-. destruct (phase_ c); done.
  - intros id m Hr. destruct (si_reader0 id m Hr) as (Ha & c & Hc & Hph). split; [done|].
    rewrite send_pending_call, Hc. eexists. split; [done|]. destruct (decide _); [|done]. by rewrite (proj1 (sent_value_phase _ _)).
  - eapply Forall_impl; [exact si_answers0|]. intros [j x] [Ha Hd]. split; [done|]. cbn [fst] in *.
    apply elem_of_dom in Hd as [c Hc]. apply elem_of_dom. rewrite send_pending_call, Hc. by eexists.
Qed.

(** Only the stages change. *)
Lemma stage_inv s s' :
  server_inv s →
  notifications s' = notifications s → serverRequests s' = serverRequests s → nextRequestID s' = nextRequestID s →
  pending s' = pending s → calls s' = calls s → reader s' = reader s → responses s' = responses s →
  readerError s' = readerError s → closing s' = closing s → process s' = process s → taken s' = taken s → notified s' = notified s →
  readerError s' = fail_error (failing s') →
  closing s' = match stopping s' with StopNone => false | _ => true end →
  ended s' = ended s →
  (told s' = true → ∀ id c, calls s !! id = Some c → phase_ c = Registered ∨ phase_ c = Sent → channel c ≠ None) →
  server_inv s'.
Proof.
  intros [] En Eq Ex Ep Ec Er Eo Ee El Eu Et Ed Hf Hst Hend Hto.
  assert (Hqueued : queued s' = queued s) by (unfold queued; by rewrite En).
  split; rewrite ?En, ?Eq, ?Ex, ?Ep, ?Ec, ?Er, ?Eo, ?El, ?Eu, ?Et, ?Ed, ?Hend, ?Hqueued; try done.
  - intros id c Hc. specialize (si_calls0 id c Hc). unfold call_ok in *. by rewrite Eo, Ee, El.
  - destruct si_stopping0. by rewrite <- El at 1.
Qed.

Lemma fail_pending_inv s s' : server_inv s → failReader_pending s = Some s' → server_inv s'.
Proof.
  intros Hs H. unfold failReader_pending in H. destruct (failing s) as [|e| |] eqn:Ef; try done. injection H as <-.
  assert (He : readerError s = Some e) by (by rewrite (si_failing s Hs), Ef).
  destruct (send_pending_inv _ e s Hs eq_refl (or_introl He)) as [Hs1 Hall].
  apply (stage_inv (send_pending (RError e) s)); try done.
  - apply (si_stopping _ Hs1).
  - unfold ended. cbn. by rewrite Ef.
Qed.

(** *** The terminal values *)

Lemma fail_notify_inv s s' : server_inv s → failReader_notify s = Some s' → server_inv s'.
Proof.
  intros Hs H. unfold failReader_notify in H. destruct (failing s) as [| |e|] eqn:Ef; try done. injection H as <-.
  destruct Hs. split; cbn; try done.
  - apply replace_ok.
  - by rewrite si_failing0, Ef.
  - intros _. apply si_told0. unfold told. by rewrite Ef.
  - unfold queued. cbn. rewrite omap_app. cbn. rewrite app_nil_r.
    etrans; [|exact si_order0]. rewrite omap_app. apply sublist_inserts_r. reflexivity.
  - intros _. exists (QError e). split; [|done]. unfold queued. cbn. set_solver.
Qed.

Lemma stop_notify_inv s :
  server_inv s → stopping s = StopNotify →
  server_inv (set_stopping (set_notifications s (forcePut QClosed 0 (notifications s)) (notified s) (taken s))
                (process s) (closing s) StopServer).
Proof.
  intros Hs Hst. destruct (forcePut_inv QClosed _ (si_notifications s Hs)) as (pre & kept & Hv & _ & _ & Hput).
  pose proof (forcePut_ok QClosed _ (si_notifications s Hs)) as Hok. destruct Hs.
  split; cbn; try done.
  - by rewrite Hst in si_stopping0.
  - intros _. apply si_told0. unfold told. rewrite Hst. apply orb_true_r.
  - unfold queued in *. cbn. rewrite Hput. cbn. etrans; [|exact si_order0]. rewrite Hv, !fmap_app, !omap_app. cbn.
    rewrite app_nil_r. apply sublist_app; [done|]. by apply sublist_inserts_l.
  - unfold ended. cbn. by rewrite orb_true_r.
  - intros _. exists QClosed. split; [|done]. unfold queued. cbn. rewrite Hput. cbn. rewrite fmap_app. set_solver.
Qed.

Lemma stop_inv s s' : server_inv s → Shutdown_step s = Some s' → server_inv s'.
Proof.
  intros Hs H. unfold Shutdown_step in H. destruct (stopping s) eqn:Hst; try done; injection H as <-.
  - assert (Hcl : closing s = true) by (destruct (si_stopping s Hs) as [-> _]; by rewrite Hst).
    destruct (send_pending_inv _ closed_error s Hs eq_refl (or_intror (conj eq_refl Hcl))) as [Hs1 Hall].
    apply (stage_inv (send_pending (RError closed_error) s)); try done.
    + apply (si_failing _ Hs1).
    + unfold ended. cbn. by rewrite Hst.
  - by apply stop_notify_inv.
  - pose proof (forcePut_ok QClosed _ (si_requests s Hs)) as Hq.
    apply (stage_inv (set_requests s (forcePut QClosed 0 (serverRequests s)))); try done.
    + by apply requests_inv.
    + apply (si_failing s Hs).
    + cbn. destruct (si_stopping s Hs) as [-> _]. by rewrite Hst.
    + unfold ended. cbn. by rewrite Hst.
    + intros _. apply (si_told s Hs). unfold told. rewrite Hst. apply orb_true_r.
Qed.

Lemma shutdown_inv s : server_inv s → server_inv (Shutdown_mark s).
Proof.
  intros Hs. unfold Shutdown_mark. destruct (process s) eqn:Hp; [cbn [negb]|done].
  assert (Hc : closing s = false) by (destruct (si_stopping s Hs) as [_ E]; rewrite Hp in E; by destruct (closing s)).
  assert (Hst : stopping s = StopNone) by (destruct (si_stopping s Hs) as [E _]; rewrite Hc in E; by destruct (stopping s)).
  destruct Hs. split; cbn; try done.
  - intros id c Hx. specialize (si_calls0 id c Hx). unfold call_ok in *. cbn. rewrite Hc in si_calls0.
    destruct (phase_ c), (channel c) as [[]|]; naive_solver.
  - intros Ht. apply si_told0. unfold told in *. by rewrite Hst.
  - intros He. apply si_all0. unfold ended in *. by rewrite Hst.
  - intros He. apply si_terminal0. unfold ended in *. by rewrite Hst.
Qed.

(** ** The reader and the consumer *)

Lemma notify_put_inv s m n q :
  server_inv s → put (QMessage m) n (notifications s) = (true, q) →
  server_inv (set_notifications s q (notified s ++ [m]) (taken s)).
Proof.
  intros Hs H. pose proof (put_ok _ _ _ _ _ H (si_notifications s Hs)) as Hq.
  destruct (put_inv _ _ _ _ _ H) as [[? _] | (_ & _ & _ & _ & ->)]; [done|]. destruct Hs.
  assert (Hqueued : ∀ r, taken s ++ (qValue <$> (values (notifications s) ++ [mkQueued (QMessage m) r]))
    = (taken s ++ queued s) ++ [QMessage m]) by (intros r; unfold queued; by rewrite fmap_app, app_assoc).
  split; try done; unfold queued; cbn [set_notifications taken notified notifications values]; rewrite Hqueued.
  - rewrite omap_app. cbn. by apply sublist_app.
  - intros He. by rewrite (si_all0 He), fmap_app.
  - intros He. destruct (si_terminal0 He) as (v & Hv & ?). exists v. set_solver.
Qed.

Lemma next_inv s r s' : server_inv s → NextNotification s = Some (r, s') → server_inv s'.
Proof.
  intros Hs H. unfold NextNotification in H. destruct (take_value (notifications s)) as [[v q]|] eqn:E; [|done].
  injection H as _ <-. pose proof (take_ok _ _ _ E (si_notifications s Hs)) as Hq.
  destruct (take_inv _ _ _ E) as (n & Hv & _). destruct Hs.
  assert (Hqueued : (taken s ++ [v]) ++ (qValue <$> values q) = taken s ++ queued s)
    by (unfold queued; rewrite Hv; by rewrite <- app_assoc).
  split; try done; unfold queued; cbn [set_notifications taken notified notifications values]; by rewrite Hqueued.
Qed.

Lemma hasID_get m v : hasID m = Some v → get "id" m = Some v ∧ v ≠ JNull.
Proof. unfold hasID. destruct (get "id" m) as [[]|]; naive_solver. Qed.

Lemma route_inv m n s : server_inv s → reader s = Reading → server_inv (routeMessage m n s).
Proof.
  intros Hs Hr. unfold routeMessage. destruct (hasID m) as [v|] eqn:Hid.
  - destruct (hasMethod m).
    + destruct (put _ _ _) as [[] q] eqn:E; [|by apply stops_inv, failReader_mark_inv].
      apply requests_inv; [done|]. exact (put_ok _ _ _ _ _ E (si_requests s Hs)).
    + destruct (responseID v) as [id|] eqn:Ev; [|by apply stops_inv, failReader_mark_inv].
      destruct (decide (id ∈ pending s)) as [Hp|]; [|by apply stops_inv, failReader_mark_inv].
      apply (si_pending s Hs) in Hp as (c & Hc & Hw). destruct Hs. split; cbn; try done.
      intros j m' [= <- <-]. apply hasID_get in Hid as [? ?]. split; [by exists v|]. exists c. by destruct (phase_ c).
  - destruct (put _ _ _) as [[] q] eqn:E; [|by apply stops_inv, failReader_mark_inv]. by eapply notify_put_inv.
Qed.

Lemma send_inv id m c s : server_inv s → reader s = Sending id m → calls s !! id = Some c → server_inv (route_send id m c s).
Proof.
  intros Hs Hr Hc. unfold route_send, nonBlockingSend. destruct (channel c) as [x|] eqn:Hch.
  { by apply stops_inv, failReader_mark_inv. }
  destruct Hs. destruct (si_reader0 id m Hr) as (Ha & c0 & Hc0 & Hph). rewrite Hc in Hc0. injection Hc0 as <-.
  split; cbn; try done.
  - intros j d Hj. destruct (decide (j = id)) as [-> |]; [eauto|]. rewrite lookup_insert_ne in Hj by done. eauto.
  - intros j. rewrite si_pending0. destruct (decide (j = id)) as [-> |]; [|by rewrite lookup_insert_ne].
    rewrite lookup_insert_eq, Hc. naive_solver.
  - intros j d Hj. destruct (decide (j = id)) as [-> |Hne].
    + rewrite lookup_insert_eq in Hj. injection Hj as <-. specialize (si_calls0 id c Hc). unfold call_ok in *. cbn.
      rewrite Hch in si_calls0. destruct (phase_ c); try done; try (by apply first_response_new).
      all: intros v Hv; destruct (si_calls0 v Hv) as (m' & Hm & ?); exists m'; split; [by apply first_response_app|done].
    + rewrite lookup_insert_ne in Hj by done. specialize (si_calls0 j d Hj). unfold call_ok in *. cbn.
      by rewrite first_response_other.
  - apply Forall_app. split; [|constructor; [|constructor]; split; [done|]; rewrite dom_insert; cbn; set_solver].
    eapply Forall_impl; [exact si_answers0|]. intros [j x] [? ?]. split; [done|]. rewrite dom_insert. cbn in *. set_solver.
  - intros Ht j d Hj Hp. destruct (decide (j = id)) as [-> |Hne].
    + rewrite lookup_insert_eq in Hj. by injection Hj as <-.
    + rewrite lookup_insert_ne in Hj by done. by apply (si_told0 Ht j).
Qed.

Lemma line_inv syntax line s : server_inv s → reader s = Reading → server_inv (readLoop_line syntax line s).
Proof.
  intros Hs Hr. unfold readLoop_line. destruct (DecodeMessage syntax line); [by apply route_inv|].
  apply stops_inv. destruct (closing s); [done|]. by apply failReader_mark_inv.
Qed.

Lemma serve_inv fault s s' : server_inv s → serve fault s = Some s' → server_inv s'.
Proof.
  intros Hs H. unfold serve in H. destruct (take_value (serverRequests s)) as [[v q]|] eqn:E; [|done].
  pose proof (requests_inv s q Hs (take_ok _ _ _ E (si_requests s Hs))) as Hs1. destruct v as [m|e|].
  - change (serverHandler (set_requests s q)) with (serverHandler s) in H. destruct (serverHandler s); [by injection H as <-|].
    pose proof (writeMessage_inv (rejection m) fault _ Hs1) as Hw. destruct (writeMessage _ _ _) as [[[]|e] s2]; injection H as <-; [done|].
    apply serving_inv. destruct (closing s2); [done|]. by apply failReader_mark_inv.
  - injection H as <-. by apply serving_inv, failReader_mark_inv.
  - injection H as <-. by apply serving_inv.
Qed.

Lemma server_step_inv s s' : server_inv s → server_step s s' → server_inv s'.
Proof.
  intros Hs H. destruct H.
  - by eapply number_inv.
  - by apply register_inv.
  - by apply write_inv.
  - by eapply receive_inv.
  - apply (sent_inv s id c); eauto.
  - by apply delete_inv.
  - by apply line_inv.
  - apply stops_inv. destruct (closing s); [done|]. by apply failReader_mark_inv.
  - by apply send_inv.
  - by eapply fail_pending_inv.
  - by eapply fail_notify_inv.
  - by eapply serve_inv.
  - by apply writeMessage_inv.
  - by apply writeMessage_inv.
  - by apply writeMessage_inv.
  - pose proof (si_requests s Hs). frame s.
  - by eapply next_inv.
  - by apply shutdown_inv.
  - by eapply stop_inv.
Qed.

Lemma server_reachable s : rtc server_step startedServer s → server_inv s.
Proof.
  assert (H : ∀ s0, rtc server_step s0 s → server_inv s0 → server_inv s).
  { induction 1 as [|s1 s2 s3 H1 _ IH]; [done|]. intros Hs. exact (IH (server_step_inv _ _ Hs H1)). }
  intros Hr. exact (H _ Hr started_inv).
Qed.

(** ** What the callers get *)

(** C15: Under every interleaving, a request that returned a value returned the
    result of the first response that was routed to it, which carries its own
    request number; and a new request gets a number no other request ever had. *)
Theorem codex_response_matches s id c v :
  rtc server_step startedServer s → calls s !! id = Some c → phase_ c = Returned (Ok v) →
  (∃ m, first_response (responses s) id = Some m ∧ answers id m ∧ requestResult (method c) m = Ok v)
  ∧ ∀ m p new s', request_number m p s = (Ok new, s') → calls s !! new = None.
Proof.
  intros Hr Hc Hp. pose proof (server_reachable s Hr) as Hs. split.
  - pose proof (si_calls s Hs id c Hc) as Hok. unfold call_ok in Hok. rewrite Hp in Hok.
    destruct (Hok v eq_refl) as (m & Hm & Hv). exists m. split_and!; [done| |done].
    pose proof (si_answers s Hs) as Ha. rewrite Forall_forall in Ha. unfold first_response in Hm.
    destruct (filter _ _) as [|x l] eqn:E; [done|]. injection Hm as <-.
    assert (Hx : x ∈ filter (λ p, p.1 = id) (responses s)) by (rewrite E; left).
    apply list_elem_of_filter in Hx as [<- Hx]. exact (proj1 (Ha x Hx)).
  - intros m p new s'. by apply number_fresh.
Qed.

(** C30: Nobody waits forever on a dead server: once a reader failure or a shutdown
    has told the waiters, every request that is waiting can return at once, no
    request is admitted any more, and once the terminal value has been queued the
    consumer of notifications has received it or finds a value in the queue. *)
Theorem codex_nobody_stranded s :
  rtc server_step startedServer s → told s = true →
  (∀ id c, calls s !! id = Some c → phase_ c = Sent → ∃ s', request_receive id c s = Some s')
  ∧ (∀ id c, calls s !! id = Some c → phase_ c = Numbered →
       ∃ e, calls (request_register id c s) !! id = Some (set_phase (Returned (Err e)) c))
  ∧ (ended s = true →
       (∃ v, v ∈ taken s ∧ message_of v = None) ∨ ∃ r s', NextNotification s = Some (r, s')).
Proof.
  intros Hr Ht. pose proof (server_reachable s Hr) as Hs. split_and!.
  - intros id c Hc Hp. pose proof (si_told s Hs Ht id c Hc (or_intror Hp)) as Hch. unfold request_receive.
    destruct (channel c); [eauto|done].
  - intros id c Hc Hp. unfold request_register. destruct (told_closed s Hs Ht) as [He|Hcl].
    + destruct (readerError s) as [e|]; [|done]. exists e. cbn. apply lookup_insert_eq.
    + rewrite Hcl. destruct (readerError s) as [e|]; [exists e|exists not_running]; cbn; apply lookup_insert_eq.
  - intros He. destruct (si_terminal s Hs He) as (v & [Hv|Hv]%elem_of_app & Hm); [eauto|]. right.
    unfold NextNotification, take_value, queued in *. destruct (values (notifications s)) as [|x rest]; [by inversion Hv|]. eauto.
Qed.

(** Both queues hold at most 256 messages and 32 MiB of encoded messages, and
    the byte count that admission relies on is exact, under every interleaving. *)
Theorem codex_queues_bounded s :
  rtc server_step startedServer s → queue_ok (notifications s) ∧ queue_ok (serverRequests s).
Proof. intros Hr. pose proof (server_reachable s Hr) as []. done. Qed.

(** Notifications reach their consumer in the order they were read and none is
    lost or duplicated while the server lives; a failure or a shutdown may only
    drop some of those still queued. *)
Theorem codex_notifications_in_order s :
  rtc server_step startedServer s →
  sublist (omap message_of (taken s ++ queued s)) (notified s)
  ∧ (ended s = false → taken s ++ queued s = QMessage <$> notified s).
Proof. intros Hr. pose proof (server_reachable s Hr) as []. done. Qed.

(** ** A run *)
Module server_example.

Definition c0 : call := newCall (bs "initialize") initializeParams.
Definition w1 : CodexAppServer := (request_number (bs "initialize") initializeParams startedServer).2.
Definition w2 : CodexAppServer := request_register 1 c0 w1.
Definition c2 : call := set_phase Registered c0.
Definition w3 : CodexAppServer := request_write 1 c2 None w2.
Definition c3 : call := set_phase Sent c0.

(** The response arrives. *)
Definition answer : jvalue := JObject [(bs "id", JNumber (bs "1")); (bs "result", JBool true)].
Definition syntax (text : bytes) : error := PlainError (txt "invalid character").
Definition w4 : CodexAppServer := readLoop_line syntax (Encode answer) w3.
Definition w5 : CodexAppServer := route_send 1 answer c3 w4.
Definition c5 : call := mkCall (method c0) (params c0) Sent (Some (RMessage answer)).
Definition w6 : CodexAppServer := default w5 (request_receive 1 c5 w5).
Definition c6 : call := mkCall (method c0) (params c0) (Returning (Ok (JBool true))) None.
Definition w7 : CodexAppServer := request_delete 1 c6 (Ok (JBool true)) w6.
Definition c7 : call := set_phase (Returned (Ok (JBool true))) c6.

(** The child dies instead. *)
Definition w8 : CodexAppServer := readLoop_fails (unexpectedExitError (ExitCode 1) []) w3.
Definition w9 : CodexAppServer := default w8 (failReader_pending w8).
Definition w10 : CodexAppServer := default w9 (failReader_notify w9).

Lemma number_1 : request_number (bs "initialize") initializeParams startedServer = (Ok 1, w1).
Proof. vm_compute. reflexivity. Qed.
Lemma call_1 : calls w1 !! 1 = Some c0. Proof. vm_compute. reflexivity. Qed.
Lemma call_2 : calls w2 !! 1 = Some c2. Proof. vm_compute. reflexivity. Qed.
Lemma call_3 : calls w4 !! 1 = Some c3. Proof. vm_compute. reflexivity. Qed.
Lemma reading_3 : reader w3 = Reading. Proof. vm_compute. reflexivity. Qed.
Lemma sending_4 : reader w4 = Sending 1 answer. Proof. vm_compute. reflexivity. Qed.
Lemma call_5 : calls w5 !! 1 = Some c5. Proof. vm_compute. reflexivity. Qed.
Lemma receive_6 : request_receive 1 c5 w5 = Some w6. Proof. vm_compute. reflexivity. Qed.
Lemma call_6 : calls w6 !! 1 = Some c6. Proof. vm_compute. reflexivity. Qed.
Lemma call_7 : calls w7 !! 1 = Some c7. Proof. vm_compute. reflexivity. Qed.
Lemma pending_9 : failReader_pending w8 = Some w9. Proof. vm_compute. reflexivity. Qed.
Lemma notify_10 : failReader_notify w9 = Some w10. Proof. vm_compute. reflexivity. Qed.
Lemma told_10 : told w10 = true. Proof. vm_compute. reflexivity. Qed.
Lemma call_10 : calls w10 !! 1
  = Some (mkCall (method c0) (params c0) Sent (Some (RError (unexpectedExitError (ExitCode 1) [])))).
Proof. vm_compute. reflexivity. Qed.

Lemma run_3 : rtc server_step startedServer w3.
Proof.
  apply (rtc_l server_step startedServer w1 w3); [exact (step_number _ _ _ _ _ number_1)|].
  apply (rtc_l server_step w1 w2 w3); [exact (step_register 1 c0 w1 call_1 eq_refl)|].
  apply (rtc_l server_step w2 w3 w3); [exact (step_write 1 c2 None w2 call_2 eq_refl)|].
  apply rtc_refl.
Qed.

Lemma run_7 : rtc server_step startedServer w7.
Proof.
  transitivity w3; [exact run_3|].
  apply (rtc_l server_step w3 w4 w7); [exact (step_line syntax (Encode answer) w3 reading_3)|].
  apply (rtc_l server_step w4 w5 w7); [exact (step_send 1 answer c3 w4 sending_4 call_3)|].
  apply (rtc_l server_step w5 w6 w7); [exact (step_receive 1 c5 w5 w6 call_5 eq_refl receive_6)|].
  apply (rtc_l server_step w6 w7 w7); [exact (step_delete 1 c6 _ w6 call_6 eq_refl)|].
  apply rtc_refl.
Qed.

Lemma run_10 : rtc server_step startedServer w10.
Proof.
  transitivity w3; [exact run_3|].
  apply (rtc_l server_step w3 w8 w10); [exact (step_read_error (unexpectedExitError (ExitCode 1) []) w3 reading_3)|].
  apply (rtc_l server_step w8 w9 w10); [exact (step_fail_pending w8 w9 pending_9)|].
  apply (rtc_l server_step w9 w10 w10); [exact (step_fail_notify w9 w10 notify_10)|].
  apply rtc_refl.
Qed.

(** A notification is read, and taken. *)
Definition note : jvalue := JObject [(bs "method", JString (bs "turn/started")); (bs "params", JObject [])].
Definition w11 : CodexAppServer := readLoop_line syntax (Encode note) w3.
Definition w12 : CodexAppServer := readLoop_line syntax (Encode note) w11.
Definition w13 : CodexAppServer := from_option snd w12 (NextNotification w12).
Lemma reading_11 : reader w11 = Reading. Proof. vm_compute. reflexivity. Qed.
Lemma next_13 : NextNotification w12 = Some (Ok note, w13). Proof. vm_compute. reflexivity. Qed.
Lemma ended_13 : ended w13 = false. Proof. vm_compute. reflexivity. Qed.
Lemma notified_13 : notified w13 = [note; note]. Proof. vm_compute. reflexivity. Qed.

Lemma run_13 : rtc server_step startedServer w13.
Proof.
  transitivity w3; [exact run_3|].
  apply (rtc_l server_step w3 w11 w13); [exact (step_line syntax (Encode note) w3 reading_3)|].
  apply (rtc_l server_step w11 w12 w13); [exact (step_line syntax (Encode note) w11 reading_11)|].
  apply (rtc_l server_step w12 w13 w13); [exact (step_next _ w12 w13 next_13)|].
  apply rtc_refl.
Qed.

End server_example.

Lemma codex_response_matches_witness :
  ∃ m, first_response (responses server_example.w7) 1 = Some m ∧ answers 1 m
    ∧ requestResult (bs "initialize") m = Ok (JBool true).
Proof.
  exact (proj1 (codex_response_matches server_example.w7 1 server_example.c7 (JBool true)
    server_example.run_7 server_example.call_7 eq_refl)).
Defined.

Lemma codex_nobody_stranded_witness :
  ∃ s', request_receive 1 (mkCall (bs "initialize") initializeParams Sent
          (Some (RError (unexpectedExitError (ExitCode 1) [])))) server_example.w10 = Some s'.
Proof.
  exact (proj1 (codex_nobody_stranded server_example.w10 server_example.run_10 server_example.told_10)
    1 _ server_example.call_10 eq_refl).
Defined.

Lemma codex_queues_bounded_witness : queue_ok (notifications server_example.w10) ∧ queue_ok (serverRequests server_example.w10).
Proof. exact (codex_queues_bounded server_example.w10 server_example.run_10). Defined.

Lemma codex_notifications_in_order_witness :
  taken server_example.w13 ++ queued server_example.w13 = QMessage <$> [server_example.note; server_example.note].
Proof.
  rewrite <- server_example.notified_13.
  exact (proj2 (codex_notifications_in_order server_example.w13 server_example.run_13) server_example.ended_13).
Defined.
