(* ===== verification/AgentTools.v ===== *)
(** * The agent's tools
      (src/internal/agent: generation.go, operator_requests.go, reviewer.go, review_yield.go)

    How a dynamic tool call of the model becomes a guest tool call: the checks on
    the call and its arguments, their encoding, what the planning phase allows,
    the operator requests of a turn, the text the model reads back; and the
    reviewer's read-only tools over a captured snapshot. The runtime behind the
    session is a parameter. Arguments are decoded JSON ([jvalue]); a Go map is the
    list of its members in the order the program happens to visit them. *)

From S2P Require Import Prelude GoStd Protocol Snapshot Json FeatureStore JsonTree JsonCompact OperatorLedger OperatorRequests CodexApp.
Open Scope Z_scope.

Definition plain_error (s : string) : error := PlainError (txt s).
Definition named (name s : string) : error := PlainError [Lit (bs name ++ bs s)].

(** ** Arguments *)

(** Names of tools and arguments. *)
Definition fields (l : list string) : list bytes := map bs l.

Definition arguments := list (bytes * jvalue).
Definition arg (name : string) (a : arguments) : option jvalue := member (bs name) a.
(** The names a [range] over the map visits. *)
Definition names (a : arguments) : list bytes := (last_members a).*1.
Definition has (name : bytes) (l : list bytes) : bool := bool_decide (name ∈ l).
(** [a < b] of strings *)
Definition string_lt (a b : bytes) : bool := negb (sort.bytes_leb b a).

(** The smallest name of those visited: the empty string stands for none yet. *)
Definition smaller (first name : bytes) : bytes :=
  if bool_decide (first = []) || string_lt name first then name else first.
Definition firstGenerationField (l : list bytes) : bytes := fold_left smaller l [].

Definition checkGenerationFields (a : arguments) (required optional : list bytes) : result unit :=
  let missing := filter (λ name, has name (names a) = false) required in
  if negb (bool_decide (missing = [])) then
    Err (PlainError [Lit (bs "missing argument: " ++ firstGenerationField missing)])
  else
    let unexpected := fold_left smaller (filter (λ name, has name required = false ∧ has name optional = false) (names a)) [] in
    if negb (bool_decide (unexpected = [])) then Err (PlainError [Lit (bs "unexpected argument: " ++ unexpected)])
    else Ok ().

Definition generationUTF8 (value : option jvalue) (name : string) : result bytes :=
  match value with
  | Some (JString text) =>
      if negb (utf8.Valid text) then Err (named name " is not valid UTF-8") else Ok text
  | _ => Err (named name " must be a string")
  end.

(** A number of the arguments is a [json.Number]. *)
Definition generationUnsignedDecimal (value : option jvalue) (name : string) : result bytes :=
  match value with
  | Some (JNumber text) =>
      let text := if bool_decide (text = bs "-0") then bs "0" else text in
      if bool_decide (text = []) || strings.HasPrefix text (bs "-") then Err (named name " must be a non-negative integer")
      else match strconv.ParseUint text with
           | None => Err (named name " must be a non-negative integer")
           | Some _ => Ok text
           end
  | _ => Err (named name " must be a non-negative integer")
  end.

Definition nonNegativeJSONInteger (value : option jvalue) : option Z :=
  match generationUnsignedDecimal value "integer" with
  | Err _ => None
  | Ok encoded => strconv.ParseUint encoded
  end.

Definition bad_encoding : error := plain_error "encoding must be 'utf8' or 'base64'".

Definition generationData (a : arguments) : result bytes :=
  encoding ← match arg "encoding" a with
             | None => Ok (bs "utf8")
             | Some (JString e) => Ok e
             | Some _ => Err bad_encoding
             end;
  match arg "data" a with
  | Some (JString value) =>
      if bool_decide (encoding = bs "utf8") then generationUTF8 (Some (JString value)) "data"
      else if negb (bool_decide (encoding = bs "base64")) || strings.ContainsAny value [x0d; x0a] then Err bad_encoding
      else base64.DecodeString value
  | _ => Err (plain_error "data must be a string")
  end.

Definition generationToolArguments (value : option jvalue) : result arguments :=
  match value with
  | Some (JObject l) => Ok l
  | _ => Err (plain_error "dynamic tool arguments are not an object")
  end.

Definition validateGenerationToolCall (values : jvalue) (threadID turnID : bytes) : result unit :=
  match get_string "callId" values with
  | None | Some [] => Err (plain_error "dynamic tool call ID must be a non-empty string")
  | Some _ =>
      if negb (is_string (get "threadId" values) threadID) then Err (plain_error "dynamic tool request has the wrong thread ID")
      else if negb (is_string (get "turnId" values) turnID) then Err (plain_error "dynamic tool request has the wrong turn ID")
      else Ok ()
  end.

(** ** What is sent to the guest *)

(** The arms of [dispatchTool] that call the guest: the arguments of the guest
    tool, or the error; [None] for the other arms. *)
Definition guestArguments (tool : bytes) (a : arguments) : option (result (list bytes)) :=
  if bool_decide (tool = bs "list") then Some (
    _ ← checkGenerationFields a [] (fields ["prefix"]);
    match arg "prefix" a with
    | None => Ok []
    | value => encoded ← generationUTF8 value "prefix"; Ok [encoded]
    end)
  else if bool_decide (tool = bs "read") then Some (
    _ ← checkGenerationFields a (fields ["path"; "offset"; "length"]) [];
    path ← generationUTF8 (arg "path" a) "path";
    offset ← generationUnsignedDecimal (arg "offset" a) "offset";
    length ← generationUnsignedDecimal (arg "length" a) "length";
    Ok [path; offset; length])
  else if bool_decide (tool = bs "write") then Some (
    _ ← checkGenerationFields a (fields ["path"; "offset"; "data"]) (fields ["encoding"]);
    path ← generationUTF8 (arg "path" a) "path";
    offset ← generationUnsignedDecimal (arg "offset" a) "offset";
    data ← generationData a;
    Ok [path; offset; data])
  else if bool_decide (tool = bs "truncate") then Some (
    _ ← checkGenerationFields a (fields ["path"; "size"]) [];
    path ← generationUTF8 (arg "path" a) "path";
    size ← generationUnsignedDecimal (arg "size" a) "size";
    Ok [path; size])
  else if bool_decide (tool = bs "remove") then Some (
    _ ← checkGenerationFields a (fields ["path"]) [];
    path ← generationUTF8 (arg "path" a) "path";
    Ok [path])
  else if bool_decide (tool = bs "build") then Some (_ ← checkGenerationFields a [] []; Ok [])
  else if bool_decide (tool = bs "finish_generation") then Some (
    _ ← checkGenerationFields a (fields ["handoff"]) [];
    handoff ← generationUTF8 (arg "handoff" a) "handoff";
    Ok [handoff])
  else if bool_decide (tool = bs "request_feature") then Some (
    _ ← checkGenerationFields a (fields ["title"; "description"]) [];
    title ← generationUTF8 (arg "title" a) "title";
    description ← generationUTF8 (arg "description" a) "description";
    if len title =? 0 then Err (plain_error "title must not be empty")
    else if MaxFeatureTitleBytes <? len title then Err (plain_error "title exceeds 256 encoded bytes")
    else if MaxFeatureDescriptionBytes <? len description then Err (plain_error "description exceeds 16 KiB")
    else Ok [title; description])
  else if bool_decide (tool = bs "list_provided_assets") then Some (_ ← checkGenerationFields a [] []; Ok [])
  else if bool_decide (tool = bs "run") || bool_decide (tool = bs "import_provided_asset") then Some (
    let required := fields ["path"] ++ if bool_decide (tool = bs "import_provided_asset") then fields ["id"] else [] in
    _ ← checkGenerationFields a required [];
    path ← generationUTF8 (arg "path" a) "path";
    if (len path =? 0) || (255 <? len path) then Err (plain_error "path must contain 1 through 255 UTF-8 bytes")
    else if bool_decide (tool = bs "run") then Ok [path]
    else id ← generationUTF8 (arg "id" a) "id";
         if len id =? 0 then Err (plain_error "id must not be empty") else Ok [id; path])
  else if bool_decide (tool = bs "reap") then Some (
    _ ← checkGenerationFields a (fields ["task_id"]) [];
    taskID ← generationUnsignedDecimal (arg "task_id" a) "task_id";
    match strconv.ParseUint taskID with
    | Some n => if n <=? max_uint32 then Ok [taskID] else Err (plain_error "task_id must be an unsigned 32-bit integer")
    | None => Err (plain_error "task_id must be an unsigned 32-bit integer")
    end)
  else if bool_decide (tool = bs "bootstrap_job") then Some (
    _ ← checkGenerationFields a (fields ["request"]) [];
    spec ← generationUTF8 (arg "request" a) "request";
    if 16384 <? len spec then Err (plain_error "bootstrap request exceeds 16 KiB") else Ok [spec])
  else if bool_decide (tool = bs "import_bootstrap_artifact") then Some (
    _ ← checkGenerationFields a (fields ["id"; "length"; "path"]) [];
    id ← generationUTF8 (arg "id" a) "id";
    if (len id =? 0) || (255 <? len id) || strings.ContainsByte id x00 then
      Err (plain_error "id must contain 1 through 255 UTF-8 bytes without NUL")
    else
    length ← generationUnsignedDecimal (arg "length" a) "length";
    let n := default 0 (strconv.ParseUint length) in
    if (32 * 1024 * 1024 <? n) || negb (bool_decide (length = strconv.Itoa n)) then
      Err (plain_error "length must be a canonical unsigned integer up to 32 MiB")
    else
    path ← generationUTF8 (arg "path" a) "path";
    if (len path =? 0) || (255 <? len path) then Err (plain_error "path must contain 1 through 255 UTF-8 bytes")
    else Ok [id; length; path])
  else if bool_decide (tool = bs "read_provided_asset") || bool_decide (tool = bs "read_bootstrap_artifact") then Some (
    _ ← checkGenerationFields a (fields ["id"; "offset"; "length"]) [];
    id ← generationUTF8 (arg "id" a) "id";
    offset ← generationUnsignedDecimal (arg "offset" a) "offset";
    length ← generationUnsignedDecimal (arg "length" a) "length";
    Ok [id; offset; length])
  else None.

(** ** Results as text *)

Definition maxListRequestsOutputBytes : Z := 16 * 1024 * 1024.

(** [bytes.ReplaceAll], for a pattern that is not empty. *)
Fixpoint ReplaceAll_from (skip : nat) (s old new : bytes) : bytes :=
  match s with
  | [] => []
  | b :: r =>
      match skip with
      | S skip => ReplaceAll_from skip r old new
      | O => if strings.HasPrefix s old then new ++ ReplaceAll_from (pred (length old)) r old new
             else b :: ReplaceAll_from O r old new
      end
  end.
Definition ReplaceAll (s old new : bytes) : bytes := ReplaceAll_from O s old new.

Definition featureRequestJSONSeparators (encoded : bytes) : bytes :=
  ReplaceAll (ReplaceAll encoded (bs "\u2028") separator_8) (bs "\u2029") separator_9.

(** The text and the encoding a result is shown with. *)
Definition shownOutput (output : bytes) : bytes * bytes :=
  if utf8.Valid output then (bs "utf8", output) else (bs "base64", base64.EncodeToString output).

Definition formatGenerationToolResult (r : ToolResult) : bytes :=
  let '(encoding, output) := shownOutput (Output r) in
  featureRequestJSONSeparators (strings.TrimSuffix
    (Encode (JObject [(bs "encoding", JString encoding); (bs "output", JString output);
                      (bs "status", from_uint64 (Protocol.Status r))])) [x0a]).

(** [formatToolResult] of the reviewer writes a map, and keeps the escapes. *)
Definition formatToolResult (r : ToolResult) : bytes :=
  let '(encoding, output) := shownOutput (Output r) in
  strings.TrimSuffix
    (Encode (sortKeys (JObject [(bs "status", from_uint64 (Protocol.Status r)); (bs "encoding", JString encoding);
                                (bs "output", JString output)]))) [x0a].

Definition by_id (a b : FeatureRequest) : Prop := ID a ≤ ID b.
#[global] Instance by_id_dec a b : Decision (by_id a b) := Z_le_dec _ _.

Definition featureItem (r : FeatureRequest) : jvalue :=
  JObject (omit_empty (bool_decide (DecisionNote r = [])) "decision_note" (JString (DecisionNote r))
           ++ [(bs "description", JString (Description r)); (bs "generation", from_uint64 (Generation r));
               (bs "id", from_uint64 (ID r)); (bs "status", JString (FeatureStore.Status r)); (bs "title", JString (Title r))]).

Definition featureRequestsJSON (requests : list FeatureRequest) : result bytes :=
  let items := map featureItem (merge_sort by_id requests) in
  let encoded := featureRequestJSONSeparators (strings.TrimSuffix (Encode (JObject [(bs "requests", JArray items)])) [x0a]) in
  if maxListRequestsOutputBytes <? len encoded then Err (plain_error "serialized feature request state exceeds 16 MiB")
  else Ok encoded.

(** ** Operator requests of a turn *)

Definition view_json (v : OperatorRequestView) : jvalue :=
  JObject ([(bs "id", from_uint64 (vwID v)); (bs "title", JString (vwTitle v)); (bs "description", JString (vwDescription v));
            (bs "revision", from_uint64 (vwRevision v)); (bs "active", JBool (vwActive v)); (bs "author", actor_json (Author v))]
           ++ (match Report v with None => [] | Some e => [(bs "implementor_report", revision_json e)] end)
           ++ (match Verification v with None => [] | Some e => [(bs "operator_verification", revision_json e)] end)).
Definition context_json (c : OperatorRequestContext) : jvalue :=
  JObject [(bs "run_id", JString (cxRunID c)); (bs "ledger_revision", from_uint64 (LedgerRevision c));
           (bs "requests", JArray (map view_json (cxRequests c)))].

(** What the session keeps for its tools. *)
Record GenerationSession := mkSession {
  availableTools : gset bytes;
  operatorRequests : OperatorRequestContext;
  generation : Z;
  sessionModel : bytes;
  sessionThread : bytes;
  sessionTurn : bytes
}.
Definition set_requests (c : OperatorRequestContext) (s : GenerationSession) : GenerationSession :=
  mkSession (availableTools s) c (generation s) (sessionModel s) (sessionThread s) (sessionTurn s).

Section Session.
(** The runtime: its guest tools, its feature requests, and, where it has them,
    its operator requests. *)
Context {R : Type}.
Context (InvokeTool : R → bytes → list bytes → result ToolResult * R).
Context (FeatureRequests : R → result (list FeatureRequest)).
Context (RecordRequest : option (Z → Z → OperatorRequestActor → bytes → bytes → bytes → R → result OperatorRequest * R)).

(** The arguments of record_operator_request. *)
Record disposition := mkDisposition {
  dsID : Z; dsRevision : Z; dsDisposition : bytes; dsExplanation : bytes; dsEvidence : bytes
}.
Definition recordArguments (a : arguments) : result disposition :=
  _ ← checkGenerationFields a (fields ["id"; "revision"; "disposition"; "explanation"]) (fields ["evidence"]);
  match nonNegativeJSONInteger (arg "id" a) with
  | None | Some 0 => Err (plain_error "id must be a positive integer")
  | Some id =>
    match nonNegativeJSONInteger (arg "revision" a) with
    | None | Some 0 => Err (plain_error "revision must be a positive integer")
    | Some revision =>
      d ← generationUTF8 (arg "disposition" a) "disposition";
      explanation ← generationUTF8 (arg "explanation" a) "explanation";
      evidence ← match arg "evidence" a with None => Ok [] | value => generationUTF8 value "evidence" end;
      Ok (mkDisposition id revision d explanation evidence)
    end
  end.

Definition presented (d : disposition) (v : OperatorRequestView) : bool :=
  (vwID v =? dsID d) && vwActive v && (vwRevision v =? dsRevision d).

(** The view of the report just recorded. *)
Definition updatedView (request : OperatorRequest) : OperatorRequestView :=
  mkView (rqID request) (rqTitle request) (rqDescription request) (Revision request) (Active request)
    (match head (History request) with Some e => Actor e | None => zeroActor end) (last (History request)) None.

Definition replaceView (d : disposition) (updated : OperatorRequestView) (c : OperatorRequestContext) : OperatorRequestContext :=
  mkContext (cxRunID c) (LedgerRevision c)
    (map (λ v, if (vwID v =? dsID d) && (vwRevision v =? dsRevision d) then updated else v) (cxRequests c)).

Definition sessionActor (s : GenerationSession) : OperatorRequestActor :=
  mkActor (bs "implementor") (sessionModel s) [] (Some (generation s)) (sessionThread s) (sessionTurn s).

Definition dispatchOperatorRequest (tool : bytes) (a : arguments) (s : GenerationSession) (r : R)
  : result ToolResult * (GenerationSession * R) :=
  if bool_decide (tool = bs "list_operator_requests") then
    (_ ← checkGenerationFields a [] []; Ok (mkToolResult 0 (Marshal (context_json (operatorRequests s)))), (s, r))
  else match recordArguments a with
  | Err e => (Err e, (s, r))
  | Ok d =>
    if negb (existsb (presented d) (cxRequests (operatorRequests s))) then
      (Err (plain_error "request revision was not active in this turn's presented context; use the next supported turn boundary for new operator input"), (s, r))
    else match RecordRequest with
    | None => (Err (plain_error "operator requests are unavailable"), (s, r))
    | Some record =>
      match record (dsID d) (dsRevision d) (sessionActor s) (dsDisposition d) (dsExplanation d) (dsEvidence d) r with
      | (Err e, r) => (Err e, (s, r))
      | (Ok request, r) =>
          let updated := updatedView request in
          (Ok (mkToolResult 0 (Marshal (view_json updated))),
           (set_requests (replaceView d updated (operatorRequests s)) s, r))
      end
    end
  end.

(** ** Dispatching *)

Definition dispatchTool (tool : bytes) (a : arguments) (s : GenerationSession) (r : R)
  : result ToolResult * (GenerationSession * R) :=
  if negb (has tool (fields ["list_requests"; "list_operator_requests"; "record_operator_request"]))
     && negb (bool_decide (tool ∈ availableTools s)) then
    (Err (PlainError [Lit (bs "CodexOS guest tool is unavailable: " ++ tool)]), (s, r))
  else if has tool (fields ["list_operator_requests"; "record_operator_request"]) then dispatchOperatorRequest tool a s r
  else match guestArguments tool a with
  | Some (Err e) => (Err e, (s, r))
  | Some (Ok arguments) => let '(result, r) := InvokeTool r tool arguments in (result, (s, r))
  | None =>
      if bool_decide (tool = bs "list_requests") then
        (_ ← checkGenerationFields a [] [];
         requests ← FeatureRequests r;
         output ← featureRequestsJSON requests;
         Ok (mkToolResult 0 output), (s, r))
      else (Err (PlainError [Lit (bs "unsupported CodexOS tool: " ++ tool)]), (s, r))
  end.

Definition planningTools : list bytes :=
  fields ["list"; "read"; "build"; "request_feature"; "list_provided_assets"; "read_provided_asset"; "list_requests";
     "bootstrap_job"; "read_bootstrap_artifact"; "list_operator_requests"; "record_operator_request"].

(** [values["namespace"]]: a missing member and a JSON null are both nil. *)
Definition namespaceOf (values : jvalue) : option jvalue := match get "namespace" values with Some JNull => None | o => o end.
Definition reviewCall (tool : bytes) (namespace : option jvalue) : bool :=
  bool_decide (tool = bs "review") && match namespace with None => true | _ => false end.

(** The checks of [dynamicToolResponse] before the dispatch: tool and arguments. *)
Definition admitCall (params : option jvalue) (threadID turnID : bytes) (planning : bool) : result (bytes * arguments) :=
  values ← ObjectValue params (txt "dynamic tool request");
  _ ← validateGenerationToolCall values threadID turnID;
  match get_string "tool" values with
  | None => Err (plain_error "dynamic tool name must be a string")
  | Some tool =>
      a ← generationToolArguments (get "arguments" values);
      let codexos := is_string (namespaceOf values) (bs "codexos") in
      let review := reviewCall tool (namespaceOf values) in
      if planning && negb (review || codexos && has tool planningTools) then
        Err (PlainError [Lit (tool ++ bs " is unavailable during the planning phase; persistent guest/runtime changes and generation completion begin with the implementation turn")])
      else if review then Err (plain_error "review request did not enter the turn-yield boundary")
      else if negb codexos then Err (plain_error "unsupported dynamic tool namespace")
      else Ok (tool, a)
  end.

(** [boundedGenerationError] and [boundedError], on the error's text *)
Definition boundedGenerationError (quote : bytes → bytes) (err : error) : bytes :=
  takeZ MaxErrorOutput (render quote (Error err)).

Definition inputText (text : bytes) : jvalue := JArray [JObject [(bs "type", JString (bs "inputText")); (bs "text", JString text)]].

(** [dynamicToolResponse]; its activity and event records are left out. *)
Definition dynamicToolResponse (quote : bytes → bytes) (params : option jvalue) (threadID turnID : bytes) (planning : bool)
  (s : GenerationSession) (r : R) : jvalue * (GenerationSession * R) :=
  let '(result, s') :=
    match admitCall params threadID turnID planning with
    | Err e => (Err e, (s, r))
    | Ok (tool, a) => dispatchTool tool a s r
    end in
  (match result with
   | Err e => JObject [(bs "contentItems", inputText (bs "Bridge error: " ++ boundedGenerationError quote e)); (bs "success", JBool false)]
   | Ok v => JObject [(bs "contentItems", inputText (formatGenerationToolResult v)); (bs "success", JBool true)]
   end, s').

Definition interviewToolDenial : jvalue :=
  JObject [(bs "contentItems", inputText (bs "dynamic tools are unavailable during a read-only exit interview")); (bs "success", JBool false)].
End Session.

(** ** Advertised tools *)

Definition guestToolRegistry : list bytes :=
  fields ["run"; "reap"; "import_provided_asset"; "import_bootstrap_artifact"; "bootstrap_job"; "read_bootstrap_artifact"; "list"; "read";
     "write"; "truncate"; "remove"; "build"; "finish_generation"; "request_feature"; "list_provided_assets"; "read_provided_asset"].

Fixpoint checkAdvertised (advertised : list bytes) (selected : gset bytes) : result unit :=
  match advertised with
  | [] => Ok ()
  | name :: advertised =>
      if bool_decide (name = []) then Err (plain_error "guest tool list contains an invalid name")
      else if bool_decide (name ∈ selected) then Err (PlainError [Lit (bs "guest tool list contains duplicate name: " ++ name)])
      else checkAdvertised advertised ({[name]} ∪ selected)
  end.

Definition advertisedGuestToolsInOrder (advertised : list bytes) : result (gset bytes * list bytes) :=
  _ ← checkAdvertised advertised ∅;
  let order := filter (λ name, has name guestToolRegistry = true) advertised in
  Ok (list_to_set order, order).

(** ** What is counted of a call: [toolMetadata]'s input bytes *)
Definition optionalText (name : string) (a : arguments) : list bytes :=
  match arg name a with Some (JString v) => if utf8.Valid v then [v] else [] | _ => [] end.
Definition optionalNumber (name : string) (a : arguments) : list bytes :=
  match nonNegativeJSONInteger (arg name a) with Some n => [strconv.Itoa n] | None => [] end.
Definition writtenData (a : arguments) : list bytes :=
  let value := match arg "data" a with Some (JString v) => v | _ => [] end in
  let encoding := match arg "encoding" a with Some (JString (b :: e)) => b :: e | _ => bs "utf8" end in
  (if bool_decide (encoding = bs "utf8") && utf8.Valid value then [value] else [])
  ++ (if bool_decide (encoding = bs "base64") && negb (strings.ContainsAny value [x0d; x0a]) then
        match base64.DecodeString value with Ok data => [data] | Err _ => [] end else []).
Definition inputBytes (tool : bytes) (a : arguments) : Z :=
  foldr (λ v n, len v + n) 0
    (flat_map (λ name, optionalText name a) ["prefix"; "path"; "id"; "handoff"; "title"; "description"; "disposition"; "explanation"; "evidence"]%string
     ++ flat_map (λ name, optionalNumber name a) ["offset"; "length"; "size"]%string
     ++ (if bool_decide (tool = bs "write") then writtenData a else [])).

(** ** The reviewer *)

(** [checkFields] names the first required field, and the unexpected one it met. *)
Definition firstField (l : list bytes) : bytes := fold_left smaller l [].
Definition checkFields (a : arguments) (required optional : list bytes) : result unit :=
  if negb (forallb (λ name, has name (names a)) required) then
    Err (PlainError [Lit (bs "missing argument: " ++ firstField required)])
  else match filter (λ name, has name required = false ∧ has name optional = false) (names a) with
       | name :: _ => Err (PlainError [Lit (bs "unexpected argument: " ++ name)])
       | [] => Ok ()
       end.

Definition utf8Argument (value : option jvalue) (name : string) : result bytes := generationUTF8 value name.

Definition unsignedDecimal (value : option jvalue) (name : string) : result bytes :=
  match value with
  | Some (JNumber text) =>
      if bool_decide (text = []) || strings.HasPrefix text (bs "-") then Err (named name " must be a non-negative integer")
      else match strconv.ParseUint text with
           | None => Err (named name " must be a non-negative integer")
           | Some _ => Ok text
           end
  | _ => Err (named name " must be a non-negative integer")
  end.

Definition decimalInt64 (value : bytes) : Z :=
  match strconv.ParseUint value with
  | Some parsed => if 2 ^ 63 - 1 <? parsed then 2 ^ 63 - 1 else parsed
  | None => 2 ^ 63 - 1
  end.

Section Review.
Context {R : Type} (InvokeTool : R → bytes → list bytes → result ToolResult * R).

(** [dispatchReadOnlyTool]; the evidence of a read is [RecordSourceRead]'s. *)
Record sourceRead := mkRead { rdPath : bytes; rdOffset : Z; rdLength : Z; rdStatus : Z; rdOutput : bytes }.
Definition dispatchReadOnlyTool (tool : bytes) (a : arguments) (r : R) : result ToolResult * option sourceRead * R :=
  if bool_decide (tool = bs "list") then
    match (_ ← checkFields a [] (fields ["prefix"]);
           match arg "prefix" a with None => Ok [] | value => encoded ← utf8Argument value "prefix"; Ok [encoded] end) with
    | Err e => (Err e, None, r)
    | Ok arguments => let '(result, r) := InvokeTool r (bs "list") arguments in (result, None, r)
    end
  else if bool_decide (tool = bs "read") then
    match (_ ← checkFields a (fields ["path"; "offset"; "length"]) [];
           path ← utf8Argument (arg "path" a) "path";
           offset ← unsignedDecimal (arg "offset" a) "offset";
           length ← unsignedDecimal (arg "length" a) "length";
           Ok (path, offset, length)) with
    | Err e => (Err e, None, r)
    | Ok (path, offset, length) =>
        match InvokeTool r (bs "read") [path; offset; length] with
        | (Err e, r) => (Err e, None, r)
        | (Ok result, r) =>
            (Ok result, Some (mkRead path (decimalInt64 offset) (decimalInt64 length) (Protocol.Status result) (Output result)), r)
        end
    end
  else (Err (PlainError [Lit (bs "unsupported reviewer CodexOS tool: " ++ tool)]), None, r).
End Review.

(** *** The snapshot the reviewer reads *)

Definition failed_tool : ToolResult := mkToolResult 1 [].

Fixpoint snapshotRead (files : list SnapshotFile) (path : bytes) (offset length : Z) : ToolResult :=
  match files with
  | [] => failed_tool
  | file :: files =>
      if negb (bool_decide (Path file = path)) || (len (Content file) <? offset) then snapshotRead files path offset length
      else
        let available := len (Content file) - offset in
        let length := if available <? length then available else length in
        mkToolResult 0 (takeZ length (dropZ offset (Content file)))
  end.

(** [snapshotReviewRuntime.InvokeTool], while its context is alive *)
Definition snapshotInvokeTool (files : list SnapshotFile) (name : bytes) (args : list bytes)
  : result ToolResult * list SnapshotFile :=
  (if bool_decide (name = bs "list") then
     match args with
     | _ :: _ :: _ => Ok failed_tool
     | _ =>
         let prefix := match args with p :: _ => p | [] => [] end in
         Ok (mkToolResult 0 (filter (λ file, strings.HasPrefix (Path file) prefix = true) files ≫= λ file, Path file ++ [x0a]))
     end
   else if bool_decide (name = bs "read") then
     match args with
     | [path; offset; length] =>
         match strconv.ParseUint offset, strconv.ParseUint length with
         | Some offset, Some length => Ok (snapshotRead files path offset length)
         | _, _ => Ok failed_tool
         end
     | _ => Ok failed_tool
     end
   else Ok failed_tool, files).

(** [finalAgentMessage] on the items of a turn *)
Definition finalAgentMessage (turn : jvalue) : option bytes :=
  match get "items" turn with
  | Some (JArray items) =>
      head (omap (λ item, if is_string (get "type" item) (bs "agentMessage") then get_string "text" item else None) (rev items))
  | _ => None
  end.

(** *** The options of a review *)

Definition maxReviewRequestBytes : Z := 8 * 1024.
Definition maxReviewProposalBytes : Z := 64 * 1024.
Definition reviewFocuses : list bytes := fields ["general"; "correctness"; "design"; "security"; "performance"].

Definition optionalReviewText (a : arguments) (name : string) (limit : Z) : result (option bytes) :=
  match arg name a with
  | None => Ok None
  | Some (JString text) =>
      if negb (utf8.Valid text) then Err (PlainError [Lit (bs "review " ++ bs name ++ bs " is not valid UTF-8")])
      else if limit <? len text then
        Err (PlainError [Lit (bs "review " ++ bs name ++ bs " exceeds " ++ strconv.Itoa (limit / 1024) ++ bs " KiB")])
      else Ok (Some text)
  | Some _ => Err (PlainError [Lit (bs "review " ++ bs name ++ bs " must be a string")])
  end.

(** The arguments [beginReviewYield] accepts: focus, request and proposal. *)
Definition reviewArguments (params : option jvalue) (threadID turnID : bytes) : result (bytes * option bytes * bytes) :=
  values ← ObjectValue params (txt "dynamic tool request");
  _ ← validateGenerationToolCall values threadID turnID;
  if (match namespaceOf values with None => false | _ => true end) || negb (is_string (get "tool" values) (bs "review")) then
    Err (plain_error "request is not an implementor review yield")
  else
  a ← generationToolArguments (get "arguments" values);
  _ ← checkGenerationFields a [] (fields ["request"; "focus"; "proposal"]);
  focus ← match arg "focus" a with
          | None => Ok (bs "general")
          | Some (JString focus) => if has focus reviewFocuses then Ok focus else Err (plain_error "unsupported review focus")
          | Some _ => Err (plain_error "unsupported review focus")
          end;
  request ← optionalReviewText a "request" maxReviewRequestBytes;
  proposal ← optionalReviewText a "proposal" maxReviewProposalBytes;
  match proposal with
  | None => Err (plain_error "review requires the actual proposed plan or change")
  | Some proposal =>
      if forallb ArchiveRecord.IsSpace (utf8.runes proposal) then Err (plain_error "review requires the actual proposed plan or change")
      else Ok (focus, request, proposal)
  end.
