(* ===== verification/AgentToolsProofs.v ===== *)
(** * What the tools do with calls and results

    The text of a tool result reads back as the result, except for text that spells
    the escape of a line separator, which never does; the planning phase reaches only its tools, writes carry exact
    bytes, a reviewer reads the captured source. *)

From S2P Require Import Prelude GoStd Protocol Sha256 SourceCapacity Snapshot SourceCapture Json FeatureStore FeatureProofs JsonTree JsonCompact OperatorLedger OperatorRequests CodexApp AgentTools.
Open Scope Z_scope.

(** ** Replacing the escapes of the line separators *)

(** [strings.Contains] *)
Fixpoint Contains (s w : bytes) : bool :=
  strings.HasPrefix s w || match s with [] => false | _ :: r => Contains r w end.

Definition escape_8 : bytes := bs "\u2028".
Definition escape_9 : bytes := bs "\u2029".

(** A string and its literal, with the separators still escaped or not. *)
Inductive encoded (e8 e9 : bool) : bytes → bytes → Prop :=
| enc_nil : encoded e8 e9 [] []
| enc_ascii b s t : (b2z b <? 0x80) = true → encoded e8 e9 s t → encoded e8 e9 (b :: s) (json.escape_ascii b ++ t)
| enc_8 s t : encoded e8 e9 s t → encoded e8 e9 (separator_8 ++ s) ((if e8 then escape_8 else separator_8) ++ t)
| enc_9 s t : encoded e8 e9 s t → encoded e8 e9 (separator_9 ++ s) ((if e9 then escape_9 else separator_9) ++ t)
| enc_wide ch s t : wide_char ch → ch ≠ separator_8 → ch ≠ separator_9 → encoded e8 e9 s t → encoded e8 e9 (ch ++ s) (ch ++ t).

Lemma escape_encoded s : utf8.Valid s = true → encoded true true s (json.escape s).
Proof.
  revert s. apply (utf8_ind (λ s, encoded true true s (json.escape s))); [constructor|intros b s Hb _ IH|intros ch s Hch _ IH].
  - rewrite escape_low by done. by constructor.
  - rewrite escape_wide by done. destruct (decide (ch = separator_8)) as [-> |]; [by apply (enc_8 true true)|].
    destruct (decide (ch = separator_9)) as [-> |]; [by apply (enc_9 true true)|by constructor].
Qed.

Lemma plain_app a b : plain (a ++ b) = plain a ++ plain b.
Proof. induction a as [|x a IH]; [done|]. cbn [app]. by rewrite !plain_cons, IH, app_assoc. Qed.

Lemma plain_high_bytes l : Forall (λ b, (b2z b <? 0x80) = false) l → plain l = l.
Proof. induction 1 as [|b l Hb _ IH]; [done|]. rewrite plain_cons, escape_ascii_high by done. cbn. by rewrite IH. Qed.

Lemma encoded_plain s t : encoded false false s t → t = plain s.
Proof.
  induction 1 as [|b s t Hb _ IH|s t _ IH|s t _ IH|ch s t Hch _ _ _ IH]; [done|by rewrite plain_cons, IH|by rewrite IH|by rewrite IH|].
  rewrite plain_app, IH. f_equal. destruct Hch as [_ (b0 & rest & -> & Hb & HF & _) _]. symmetry. apply plain_high_bytes.
  constructor; [done|]. eapply Forall_impl; [exact HF|]. by intros b [? _].
Qed.

(** A word that starts with no escape is only found where the string has it. *)
Definition word_byte (b : byte) : bool :=
  (b2z b <? 0x80) && bool_decide (json.escape_ascii b = [b]) && negb (bool_decide (b = json.quote_)).

Lemma word_in_encoded e8 e9 s t w u : encoded e8 e9 s t → forallb word_byte w = true →
  strings.HasPrefix (t ++ json.quote_ :: u) w = true → strings.HasPrefix s w = true.
Proof.
  intros H. revert w. induction H as [|b s t Hb _ IH|s t _ _|s t _ _|ch s t Hch _ _ _ _]; intros w Hw Hp;
    (destruct w as [|c w]; [done|]); cbn [forallb] in Hw; apply andb_true_iff in Hw as [Hc Hw];
    unfold word_byte in Hc; rewrite !andb_true_iff, negb_true_iff, bool_decide_eq_true, bool_decide_eq_false in Hc;
    destruct Hc as [[Hlow Hesc] Hq].
  - cbn [app strings.HasPrefix] in Hp. apply andb_true_iff in Hp as [Hp _]. by apply bool_decide_eq_true in Hp.
  - assert (Hone : json.escape_ascii b = [b] ∨ ∃ r, json.escape_ascii b = json.backslash :: r).
    { clear. destruct b; first [left; reflexivity|right; eexists; reflexivity]. }
    destruct Hone as [E|[r E]]; rewrite E in Hp; cbn [app strings.HasPrefix] in Hp |- *; apply andb_true_iff in Hp as [Hp Hp'].
    + rewrite Hp. cbn [andb]. by apply IH.
    + apply bool_decide_eq_true in Hp. subst c. vm_compute in Hesc. discriminate Hesc.
  - destruct e8; cbn [app strings.HasPrefix escape_8 separator_8] in Hp; apply andb_true_iff in Hp as [Hp%bool_decide_eq_true _];
      subst c; vm_compute in Hesc, Hlow; congruence.
  - destruct e9; cbn [app strings.HasPrefix escape_9 separator_9] in Hp; apply andb_true_iff in Hp as [Hp%bool_decide_eq_true _];
      subst c; vm_compute in Hesc, Hlow; congruence.
  - destruct Hch as [_ (b0 & rest & -> & Hb & _) _]. cbn [app strings.HasPrefix] in Hp.
    apply andb_true_iff in Hp as [Hp%bool_decide_eq_true _]. subst c. congruence.
Qed.

Lemma Contains_suffix a s w : Contains (a ++ s) w = false → Contains s w = false.
Proof. induction a as [|b a IH]; [done|]. cbn [app Contains]. rewrite orb_false_iff. intros [_ H]. auto. Qed.

Lemma Contains_head s w : Contains s w = false → strings.HasPrefix s w = false.
Proof. destruct s; cbn [Contains]; rewrite orb_false_iff; by intros [? _]. Qed.

(** The two patterns. *)
Definition pattern (last : byte) : bytes := [x5c; x75; x32; x30; x32; last].
Definition digit_byte (last : byte) : Prop := last = x38 ∨ last = x39.

Lemma replace_other b r w new : b ≠ json.backslash → digit_byte w → ReplaceAll (b :: r) (pattern w) new = b :: ReplaceAll r (pattern w) new.
Proof.
  intros Hb Hw. unfold ReplaceAll. cbn [ReplaceAll_from pattern strings.HasPrefix].
  rewrite bool_decide_eq_false_2 by done. done.
Qed.

Lemma replace_text p r w new : json.backslash ∉ p → digit_byte w →
  ReplaceAll (p ++ r) (pattern w) new = p ++ ReplaceAll r (pattern w) new.
Proof.
  intros Hp Hw. induction p as [|b p IH]; [done|]. cbn [app]. rewrite replace_other by (done || set_solver).
  f_equal. apply IH. set_solver.
Qed.

Lemma replace_ascii b r w new : b ≠ json.backslash → digit_byte w →
  ReplaceAll (json.escape_ascii b ++ r) (pattern w) new = json.escape_ascii b ++ ReplaceAll r (pattern w) new.
Proof. intros Hb [-> | ->]; destruct b; first [reflexivity|done]. Qed.

Lemma replace_backslash r w new : digit_byte w → strings.HasPrefix r [x75; x32; x30; x32; w] = false →
  ReplaceAll ([json.backslash; json.backslash] ++ r) (pattern w) new = [json.backslash; json.backslash] ++ ReplaceAll r (pattern w) new.
Proof.
  intros Hw Hr. cbn [app]. unfold ReplaceAll. cbn [ReplaceAll_from].
  assert (H1 : strings.HasPrefix (json.backslash :: json.backslash :: r) (pattern w) = false) by reflexivity.
  assert (H2 : strings.HasPrefix (json.backslash :: r) (pattern w) = false).
  { cbn [pattern strings.HasPrefix]. rewrite bool_decide_eq_true_2 by done. exact Hr. }
  by rewrite H1, H2.
Qed.

Lemma replace_hit r w new : digit_byte w → ReplaceAll (pattern w ++ r) (pattern w) new = new ++ ReplaceAll r (pattern w) new.
Proof. by intros [-> | ->]. Qed.

Lemma wide_no_backslash ch : wide_char ch → json.backslash ∉ ch.
Proof.
  intros [_ (b0 & rest & -> & Hb & HF & _) _] Hin. apply elem_of_cons in Hin as [<-|Hin]; [by vm_compute in Hb|].
  rewrite Forall_forall in HF. destruct (HF _ Hin) as [Hx _]. by vm_compute in Hx.
Qed.

Lemma pattern_head s w : strings.HasPrefix (json.backslash :: s) (pattern w) = strings.HasPrefix s [x75; x32; x30; x32; w].
Proof. reflexivity. Qed.

(** One pass turns one kind of escape back into its character. *)
Definition kept (w last : byte) (e : bool) : bool := if decide (w = last) then false else e.
Definition character (w : byte) : bytes := if decide (w = x38) then separator_8 else separator_9.

Lemma replace_escape w last (e : bool) u : digit_byte w → digit_byte last →
  ReplaceAll ((if e then pattern last else character last) ++ u) (pattern w) (character w)
  = (if kept w last e then pattern last else character last) ++ ReplaceAll u (pattern w) (character w).
Proof. by intros [-> | ->] [-> | ->]; destruct e. Qed.

Lemma replace_encoded w e8 e9 s t : digit_byte w → encoded e8 e9 s t → Contains s (pattern w) = false →
  ∃ t', encoded (kept w x38 e8) (kept w x39 e9) s t' ∧
    ∀ u, ReplaceAll (t ++ json.quote_ :: u) (pattern w) (character w) = t' ++ json.quote_ :: ReplaceAll u (pattern w) (character w).
Proof.
  intros Hd. induction 1 as [|b s t Hb Ht IH|s t Ht IH|s t Ht IH|ch s t Hch H8 H9 Ht IH]; intros Hc.
  { exists []. split; [constructor|]. intros u. by apply replace_other. }
  all: match type of Hc with
       | Contains (?b :: _) _ = _ => destruct (IH (Contains_suffix [b] s _ Hc)) as (t' & He & Hr)
       | Contains (?a ++ _) _ = _ => destruct (IH (Contains_suffix a s _ Hc)) as (t' & He & Hr)
       end.
  - exists (json.escape_ascii b ++ t'). split; [by constructor|]. intros u. rewrite <- !app_assoc.
    destruct (decide (b = json.backslash)) as [-> |Hne].
    + change (json.escape_ascii json.backslash) with [json.backslash; json.backslash].
      rewrite replace_backslash, Hr; [done|done|]. apply not_true_iff_false. intros Hp.
      apply (word_in_encoded _ _ _ _ _ _ Ht) in Hp; [|by destruct Hd as [-> | ->]].
      apply Contains_head in Hc. rewrite pattern_head in Hc. congruence.
    + by rewrite replace_ascii, Hr by done.
  - eexists. split; [by apply enc_8|]. intros u. rewrite <- !app_assoc, <- Hr.
    by apply (replace_escape w x38 e8); [|left].
  - eexists. split; [by apply enc_9|]. intros u. rewrite <- !app_assoc, <- Hr.
    by apply (replace_escape w x39 e9); [|right].
  - exists (ch ++ t'). split; [by constructor|]. intros u. rewrite <- !app_assoc.
    by rewrite replace_text, Hr by (done || by apply wide_no_backslash).
Qed.

(** Text that the replacement leaves readable. *)
Definition clean (s : bytes) : Prop := utf8.Valid s = true ∧ Contains s escape_8 = false ∧ Contains s escape_9 = false.

Lemma separators_text p u : json.backslash ∉ p → featureRequestJSONSeparators (p ++ u) = p ++ featureRequestJSONSeparators u.
Proof.
  intros Hp. unfold featureRequestJSONSeparators. change (bs "\u2028") with (pattern x38). change (bs "\u2029") with (pattern x39).
  rewrite !replace_text by (done || by (left + right)). done.
Qed.

Lemma separators_literal s u : clean s →
  featureRequestJSONSeparators (json.escape s ++ json.quote_ :: u) = plain s ++ json.quote_ :: featureRequestJSONSeparators u.
Proof.
  intros (Hv & H8 & H9).
  destruct (replace_encoded x38 _ _ _ _ ltac:(by left) (escape_encoded s Hv) H8) as (t & Ht & Hr).
  destruct (replace_encoded x39 _ _ _ _ ltac:(by right) Ht H9) as (t' & Ht' & Hr'). rewrite <- (encoded_plain _ _ Ht').
  unfold featureRequestJSONSeparators. change (bs "\u2028") with (pattern x38). change (bs "\u2029") with (pattern x39).
  change separator_8 with (character x38). change separator_9 with (character x39). by rewrite Hr, Hr'.
Qed.

(** A constant text holds no backslash. *)
Ltac no_backslash := apply (bool_decide_unpack _); vm_compute; exact I.

Lemma separators_quoted s u : clean s →
  featureRequestJSONSeparators (quoted escape_text s ++ u) = quoted plain s ++ featureRequestJSONSeparators u.
Proof.
  intros Hs. unfold quoted, escape_text. rewrite (proj1 Hs). rewrite <- !app_assoc. rewrite separators_text by no_backslash.
  cbn [app]. by rewrite separators_literal.
Qed.

Definition separates (v : jvalue) : Prop :=
  ∀ u, featureRequestJSONSeparators (compact escape_text v ++ u) = compact plain v ++ featureRequestJSONSeparators u.

Lemma separators_elements l u : Forall separates l →
  featureRequestJSONSeparators (flat_map (λ y, [x2c] ++ compact escape_text y) l ++ u)
  = flat_map (λ y, [x2c] ++ compact plain y) l ++ featureRequestJSONSeparators u.
Proof.
  induction 1 as [|y l Hy _ IH]; [done|]. cbn [flat_map]. rewrite <- !app_assoc.
  rewrite separators_text by no_backslash. by rewrite Hy, IH.
Qed.

Lemma separators_members l u : Forall (λ m, clean m.1 ∧ separates m.2) l →
  featureRequestJSONSeparators (flat_map (λ m, [x2c] ++ quoted escape_text m.1 ++ [x3a] ++ compact escape_text m.2) l ++ u)
  = flat_map (λ m, [x2c] ++ quoted plain m.1 ++ [x3a] ++ compact plain m.2) l ++ featureRequestJSONSeparators u.
Proof.
  induction 1 as [|y l [Hk Hy] _ IH]; [done|]. cbn [flat_map]. rewrite <- !app_assoc.
  rewrite separators_text by no_backslash. rewrite separators_quoted by done. rewrite separators_text by no_backslash.
  by rewrite Hy, IH.
Qed.

(** On clean texts the replacement only puts the characters back. *)
Lemma separators_compact v : texts_ok clean v → separates v.
Proof.
  induction v as [|b|w|s|l IH|l IH] using jvalue_nested; intros Hv u.
  - apply separators_text. no_backslash.
  - destruct b; apply separators_text; no_backslash.
  - destruct Hv as (_ & _ & Hw & _). by apply separators_text.
  - by apply separators_quoted.
  - apply all_of_Forall in Hv. fold (texts_ok clean) in Hv. destruct l as [|x l]; [apply separators_text; no_backslash|]. cbn [compact].
    assert (HF : Forall separates (x :: l)) by (rewrite Forall_forall in *; auto). apply Forall_cons in HF as [Hx HF].
    rewrite <- !app_assoc. rewrite separators_text by no_backslash. rewrite Hx, separators_elements by done.
    by rewrite separators_text by no_backslash.
  - apply all_of_Forall in Hv. fold (texts_ok clean) in Hv. destruct l as [|[k x] l]; [apply separators_text; no_backslash|]. cbn [compact].
    assert (HF : Forall (λ m, clean m.1 ∧ separates m.2) ((k, x) :: l)).
    { rewrite Forall_forall in *. intros m Hm. destruct (Hv m Hm). split; [done|by apply IH]. }
    apply Forall_cons in HF as [[Hk Hx] HF]. cbn [fst snd] in *. rewrite <- !app_assoc.
    rewrite separators_text by no_backslash. rewrite separators_quoted by done.
    rewrite separators_text by no_backslash. rewrite Hx, separators_members by done.
    by rewrite separators_text by no_backslash.
Qed.

(** The text of a value as the tools write it. *)
Lemma shown_readable v : texts_ok clean v → Z.of_nat (json_depth v) ≤ json.maxNestingDepth →
  parse_text (featureRequestJSONSeparators (strings.TrimSuffix (Encode v) [x0a])) = Some v.
Proof.
  intros Hv Hd. unfold Encode. change x0a with SourceCapture.newline. rewrite TrimSuffix_newline.
  pose proof (separators_compact v Hv []) as Hs. rewrite app_nil_r in Hs. rewrite Hs.
  apply (parse_text_compact plain clean); [| |done|done|done].
  - intros s t _. apply scan_plain.
  - intros s t _. apply unquote_plain.
Qed.

(** ** Results *)

(** What the model reads in the text of a result. *)
Definition valueResult (v : jvalue) : option ToolResult :=
  status ← get "status" v;
  n ← to_uint64 status 0;
  output ← get_string "output" v;
  data ← (if is_string (get "encoding" v) (bs "utf8") then Some output
          else match base64.DecodeString output with Ok data => Some data | Err _ => None end);
  Some (mkToolResult n data).
Definition readResult (text : bytes) : option ToolResult := parse_text text ≫= valueResult.

Lemma valueResult_shown status output v :
  u64 status → get "status" v = Some (from_uint64 status) → get_string "output" v = Some (shownOutput output).2 →
  get "encoding" v = Some (JString (shownOutput output).1) → valueResult v = Some (mkToolResult status output).
Proof.
  intros Hs H1 H2 H3. unfold valueResult. rewrite H1, H2, H3. cbn [mbind option_bind]. rewrite to_from_uint64 by done.
  cbn [mbind option_bind]. unfold shownOutput. destruct (utf8.Valid output) eqn:E; cbn [fst snd is_string].
  - by rewrite bool_decide_eq_true_2.
  - rewrite bool_decide_eq_false_2 by by vm_compute. by rewrite base64.DecodeString_Encode.
Qed.

Lemma alphabet_clean s : forallb base64.in_alphabet s = true → clean s.
Proof.
  intros H. assert (Hno : json.backslash ∉ s ∧ Forall (λ b, b2z b < 0x80) s).
  { induction s as [|b s IH]; [split; [apply not_elem_of_nil|constructor]|]. cbn [forallb] in H. apply andb_true_iff in H as [Hb Hs].
    destruct (IH Hs) as [Hn HF].
    assert (Hx : b ≠ json.backslash ∧ b2z b < 0x80) by (clear -Hb; destruct b; try (vm_compute in Hb; discriminate Hb); by vm_compute).
    split; [|constructor; [apply Hx|done]]. apply not_elem_of_cons. split; [|done]. by destruct Hx as [? _]; congruence. }
  destruct Hno as [Hn HF].
  assert (Hc : ∀ w, Contains s (pattern w) = false).
  { intros w. clear H HF. induction s as [|b s IH]; [done|]. apply not_elem_of_cons in Hn as [Hb Hn]. cbn [Contains pattern strings.HasPrefix].
    change json.backslash with x5c in Hb. rewrite bool_decide_eq_false_2 by congruence. cbn [andb orb]. by apply IH. }
  split; [by apply utf8.Valid_ascii|]. split; apply Hc.
Qed.

(** The text a tool result is shown to the model with reads back as exactly the
    guest's status and output, whatever bytes the output holds (they travel as
    UTF-8 or as base64), unless a UTF-8 output spells out the escape of a line
    separator; the text of a reviewer's tool result reads back without exception. *)
Theorem tool_result_readable r :
  u64 (Protocol.Status r) →
  ((utf8.Valid (Output r) = true → Contains (Output r) (bs "\u2028") = false ∧ Contains (Output r) (bs "\u2029") = false) →
   readResult (formatGenerationToolResult r) = Some r)
  ∧ readResult (formatToolResult r) = Some r.
Proof.
  intros Hs. destruct r as [status output]. cbn [Protocol.Status Output] in *.
  set (o := (shownOutput output).2). set (e := (shownOutput output).1).
  assert (He : e = bs "utf8" ∨ e = bs "base64") by (unfold e, shownOutput; destruct (utf8.Valid output); auto).
  assert (Hvo : utf8.Valid o = true).
  { unfold o, shownOutput. destruct (utf8.Valid output) eqn:E; [done|]. by apply alphabet_clean, base64.Encode_alphabet. }
  assert (Hce : clean e) by (destruct He as [-> | ->]; vm_compute; done).
  split.
  - intros Hclean. unfold readResult, formatGenerationToolResult. cbn [Output Protocol.Status].
    rewrite (surjective_pairing (shownOutput output)). fold o e. rewrite shown_readable; [cbn [mbind option_bind]; by apply valueResult_shown| |done].
    refine (conj (conj _ Hce) (conj (conj _ _) (conj (conj _ (json_ok_uint64 _ Hs)) I))); [by vm_compute|by vm_compute| |by vm_compute].
    unfold o, shownOutput. destruct (utf8.Valid output) eqn:E; [by destruct (Hclean eq_refl)|]. apply alphabet_clean, base64.Encode_alphabet.
  - unfold readResult, formatToolResult. cbn [Output Protocol.Status]. rewrite (surjective_pairing (shownOutput output)). fold o e.
    unfold Encode. change x0a with SourceCapture.newline. rewrite TrimSuffix_newline.
    assert (Hok : json_ok (JObject [(bs "status", from_uint64 status); (bs "encoding", JString e); (bs "output", JString o)])).
    { refine (conj (conj _ (json_ok_uint64 _ Hs)) (conj (conj _ (proj1 Hce)) (conj (conj _ Hvo) I))); by vm_compute. }
    pose proof (parse_text_compact escape_text (λ s, utf8.Valid s = true)) as Hp. rewrite <- (app_nil_r (compact _ _)), Hp; clear Hp;
      [|intros s t Hx; unfold escape_text; rewrite Hx; apply scan_escape
       |intros s t Hx; unfold escape_text; rewrite Hx; apply unquote_escape|exact (sortKeys_ok _ Hok)| |done].
    + cbn [mbind option_bind]. apply valueResult_shown; unfold get_string; by rewrite ?sortKeys_get.
    + pose proof (sortKeys_depth (JObject [(bs "status", from_uint64 status); (bs "encoding", JString e); (bs "output", JString o)])) as Hd.
      match type of Hd with (_ ≤ ?n)%nat => change n with 1%nat in Hd end. unfold json.maxNestingDepth. lia.
Qed.

Lemma tool_result_readable_witness :
  readResult (formatGenerationToolResult (mkToolResult 0 [xff; x00; x5c])) = Some (mkToolResult 0 [xff; x00; x5c]).
Proof.
  assert (Hs : u64 (Protocol.Status (mkToolResult 0 [xff; x00; x5c]))) by (unfold u64; cbn; lia).
  apply (proj1 (tool_result_readable (mkToolResult 0 [xff; x00; x5c]) Hs)). intros H. vm_compute in H. discriminate H.
Defined.

(** ** The exception is real *)

(** Text inside a string literal in which a backslash comes before a character that no
    escape starts with. *)
Inductive broken : bytes → Prop :=
| broken_here u : broken (json.backslash :: xe2 :: u)
| broken_ascii b t : broken t → broken (json.escape_ascii b ++ t)
| broken_escape w t : digit_byte w → broken t → broken (pattern w ++ t).

Lemma broken_scan t : broken t → json.scan_string t = None.
Proof. induction 1 as [u|b t _ IH|w t [-> | ->] _ IH]; [done|by rewrite scan_plain_byte|exact IH..]. Qed.

Lemma broken_high l t : Forall (λ b, (b2z b <? 0x80) = false) l → broken t → broken (l ++ t).
Proof.
  induction 1 as [|b l Hb _ IH]; [done|]. intros Ht. pose proof (broken_ascii b _ (IH Ht)) as Hx. by rewrite escape_ascii_high in Hx.
Qed.
Lemma broken_character w t : broken t → broken (character w ++ t).
Proof. unfold character. destruct (decide _); apply broken_high; repeat constructor. Qed.

(** A match after the first of two backslashes. *)
Lemma backslash_hit r w : digit_byte w → strings.HasPrefix r [x75; x32; x30; x32; w] = true →
  broken (ReplaceAll ([json.backslash; json.backslash] ++ r) (pattern w) (character w)).
Proof.
  intros Hw Hr. apply strings.HasPrefix_spec in Hr as [r' ->]. destruct Hw as [-> | ->]; apply broken_here.
Qed.

Lemma backslash_broken r w : digit_byte w → broken (ReplaceAll r (pattern w) (character w)) →
  broken (ReplaceAll ([json.backslash; json.backslash] ++ r) (pattern w) (character w)).
Proof.
  intros Hw Hr. destruct (strings.HasPrefix r [x75; x32; x30; x32; w]) eqn:E; [by apply backslash_hit|].
  rewrite replace_backslash by done. by apply (broken_ascii json.backslash).
Qed.

Lemma ascii_broken b r w : digit_byte w → broken (ReplaceAll r (pattern w) (character w)) →
  broken (ReplaceAll (json.escape_ascii b ++ r) (pattern w) (character w)).
Proof.
  intros Hw Hr. destruct (decide (b = json.backslash)) as [-> |Hne]; [by apply backslash_broken|].
  rewrite replace_ascii by done. by apply broken_ascii.
Qed.

Lemma separator_broken w last (e : bool) r : digit_byte w → digit_byte last → broken (ReplaceAll r (pattern w) (character w)) →
  broken (ReplaceAll ((if e then pattern last else character last) ++ r) (pattern w) (character w)).
Proof.
  intros Hw Hl Hr. rewrite replace_escape by done. destruct (kept w last e); [by apply broken_escape|by apply broken_character].
Qed.

(** A further pass does not repair it. *)
Lemma broken_replaced t w : digit_byte w → broken t → broken (ReplaceAll t (pattern w) (character w)).
Proof.
  intros Hw. induction 1 as [u|b t _ IH|w' t Hw' _ IH].
  - destruct Hw as [-> | ->]; apply broken_here.
  - by apply ascii_broken.
  - by apply (separator_broken w w' true).
Qed.

(** A plain word of a string is in its literal. *)
Lemma encoded_prefix e8 e9 s t w : encoded e8 e9 s t → Forall (λ c, word_byte c = true) w →
  strings.HasPrefix s w = true → strings.HasPrefix t w = true.
Proof.
  intros H. revert w. induction H as [|b s t Hb _ IH|s t _ _|s t _ _|ch s t Hch _ _ _ _]; intros w Hw Hp;
    (destruct Hw as [|c w Hc Hw]; [done|]); unfold word_byte in Hc; rewrite !andb_true_iff, bool_decide_eq_true in Hc; destruct Hc as [[Hlow Hesc] _].
  - done.
  - cbn [strings.HasPrefix] in Hp. apply andb_true_iff in Hp as [->%bool_decide_eq_true Hp]. rewrite Hesc. cbn [app strings.HasPrefix].
    rewrite bool_decide_eq_true_2 by done. by apply IH.
  - cbn [app strings.HasPrefix separator_8] in Hp. apply andb_true_iff in Hp as [Hp%bool_decide_eq_true _]. subst c. by vm_compute in Hlow.
  - cbn [app strings.HasPrefix separator_9] in Hp. apply andb_true_iff in Hp as [Hp%bool_decide_eq_true _]. subst c. by vm_compute in Hlow.
  - destruct Hch as [_ (b0 & rest & -> & Hb & _) _]. cbn [app strings.HasPrefix] in Hp. apply andb_true_iff in Hp as [Hp%bool_decide_eq_true _]. subst c. congruence.
Qed.


Lemma word_in_literal e8 e9 s t w u : digit_byte w → encoded e8 e9 s t → strings.HasPrefix s [x75; x32; x30; x32; w] = true →
  strings.HasPrefix (t ++ u) [x75; x32; x30; x32; w] = true.
Proof.
  intros Hw Ht Hs. assert (Hp : strings.HasPrefix t [x75; x32; x30; x32; w] = true).
  { eapply encoded_prefix; [exact Ht| |exact Hs]. destruct Hw as [-> | ->]; repeat constructor. }
  apply strings.HasPrefix_spec in Hp as [r ->]. rewrite <- app_assoc. apply strings.HasPrefix_app.
Qed.

Lemma Contains_later p s w : digit_byte w → json.backslash ∉ p → Contains (p ++ s) (pattern w) = true → Contains s (pattern w) = true.
Proof.
  intros Hw Hp. induction p as [|b p IH]; [done|]. apply not_elem_of_cons in Hp as [Hb Hp]. cbn [app Contains pattern strings.HasPrefix].
  change json.backslash with x5c in Hb. rewrite bool_decide_eq_false_2 by congruence. by apply IH.
Qed.

(** A pass over the literal of a string that spells the escape leaves a broken text. *)
Lemma replace_breaks w e8 e9 s t u : digit_byte w → encoded e8 e9 s t → Contains s (pattern w) = true →
  broken (ReplaceAll (t ++ u) (pattern w) (character w)).
Proof.
  intros Hw. induction 1 as [|b s t Hb Ht IH|s t Ht IH|s t Ht IH|ch s t Hch H8 H9 Ht IH]; intros Hc.
  - by destruct Hw as [-> | ->].
  - rewrite <- app_assoc. cbn [Contains] in Hc. apply orb_true_iff in Hc as [Hc|Hc]; [|by apply ascii_broken, IH].
    assert (b = json.backslash) as -> by (cbn [pattern strings.HasPrefix] in Hc; apply andb_true_iff in Hc as [Hc%bool_decide_eq_true _]; exact (eq_sym Hc)).
    rewrite pattern_head in Hc. change (json.escape_ascii json.backslash) with [json.backslash; json.backslash].
    apply backslash_hit; [done|]. by eapply word_in_literal.
  - apply Contains_later in Hc; [|done|by no_backslash]. rewrite <- app_assoc. apply (separator_broken w x38 e8); [done|by left|by apply IH].
  - apply Contains_later in Hc; [|done|by no_backslash]. rewrite <- app_assoc. apply (separator_broken w x39 e9); [done|by right|by apply IH].
  - apply Contains_later in Hc; [|done|by apply wide_no_backslash]. rewrite <- app_assoc, replace_text by (done || by apply wide_no_backslash).
    destruct Hch as [_ (b0 & rest & -> & Hb & HF & _) _]. apply broken_high; [|by apply IH]. constructor; [done|].
    eapply Forall_impl; [exact HF|]. by intros x [? _].
Qed.

Lemma separators_break s u : utf8.Valid s = true → Contains s escape_8 = true ∨ Contains s escape_9 = true →
  broken (featureRequestJSONSeparators (json.escape s ++ json.quote_ :: u)).
Proof.
  intros Hv Hc. unfold featureRequestJSONSeparators. change (bs "\u2028") with (pattern x38). change (bs "\u2029") with (pattern x39).
  change separator_8 with (character x38). change separator_9 with (character x39). pose proof (escape_encoded s Hv) as He.
  destruct (Contains s escape_8) eqn:E8.
  - apply broken_replaced; [by right|]. eapply replace_breaks; [by left|exact He|exact E8].
  - destruct Hc as [|E9]; [done|]. destruct (replace_encoded x38 _ _ _ _ ltac:(by left) He E8) as (t & Ht & Hr). rewrite Hr.
    eapply replace_breaks; [by right|exact Ht|exact E9].
Qed.

(** A member with a text that is broken spoils the object. *)
Lemma broken_value f depth t : broken t → parse_value f depth (json.quote_ :: t) = None.
Proof. intros Ht. destruct f as [|f]; [done|]. cbn [parse_value]. rewrite decide_True by done. by rewrite broken_scan. Qed.

Lemma quoted_literal k t : quoted plain k ++ t = json.quote_ :: plain k ++ json.quote_ :: t.
Proof. unfold quoted. by rewrite <- !app_assoc. Qed.

Lemma quoted_value f depth k t : parse_value (S f) depth (quoted plain k ++ t) = Some (JString k, t).
Proof. rewrite quoted_literal. cbn [parse_value]. rewrite decide_True by done. rewrite scan_plain. cbn [mbind option_bind]. by rewrite unquote_plain. Qed.

Lemma skip_quote t : json.skip_space (json.quote_ :: t) = json.quote_ :: t.
Proof. done. Qed.

Lemma broken_member f depth k t : broken t → parse_members f depth (quoted plain k ++ [x3a; json.quote_] ++ t) = None.
Proof.
  intros Ht. destruct f as [|f]; [done|]. rewrite quoted_literal. cbn [app parse_members]. rewrite skip_quote. cbv iota.
  rewrite decide_True by done. rewrite scan_plain. cbn [mbind option_bind].
  change (json.skip_space (x3a :: ?r)) with (x3a :: r). cbv iota. rewrite decide_True by done. by rewrite skip_quote, broken_value.
Qed.

Lemma broken_second f depth k v l t : broken t →
  parse_members f depth (quoted plain k ++ [x3a] ++ quoted plain v ++ [x2c] ++ quoted plain l ++ [x3a; json.quote_] ++ t) = None.
Proof.
  intros Ht. destruct f as [|f]; [done|]. rewrite (quoted_literal k). cbn [app parse_members]. rewrite skip_quote. cbv iota.
  rewrite decide_True by done. rewrite scan_plain. cbn [mbind option_bind].
  change (json.skip_space (x3a :: ?r)) with (x3a :: r). cbv iota. rewrite decide_True by done.
  assert (Hv : ∀ r, json.skip_space (quoted plain v ++ r) = quoted plain v ++ r) by done. rewrite Hv. destruct f as [|f]; [done|].
  rewrite quoted_value. cbn [mbind option_bind]. change (json.skip_space (x2c :: ?r)) with (x2c :: r). cbv iota.
  rewrite decide_True by done. pose proof (broken_member (S f) depth l t Ht) as Hb. cbn [app] in Hb. by rewrite Hb.
Qed.

Lemma broken_object k v l t : broken t →
  parse_text ([x7b] ++ quoted plain k ++ [x3a] ++ quoted plain v ++ [x2c] ++ quoted plain l ++ [x3a; json.quote_] ++ t) = None.
Proof.
  intros Ht. unfold parse_text. set (n := (_ * _)%nat). destruct n as [|f]; [done|]. pose proof (broken_second f (0 + 1) k v l t Ht) as Hb.
  rewrite (quoted_literal k) in Hb |- *. change (json.skip_space ([x7b] ++ ?r)) with (x7b :: r). cbn [parse_value].
  rewrite decide_False, decide_True by done. change (json.maxNestingDepth <? 0 + 1) with false. cbv iota. rewrite skip_quote. cbv iota.
  rewrite decide_False by done. by rewrite Hb.
Qed.

(** C36: The exception is real, and it is every such output: a valid UTF-8 output that spells
    the escape of a line separator anywhere, six ordinary characters, is shown to the model
    as a text that is not JSON. The replacement meant for the encoder's own escapes takes
    the second of the two backslashes the encoder writes for the output's own. *)
Theorem tool_result_corrupted r : utf8.Valid (Output r) = true →
  Contains (Output r) (bs "\u2028") = true ∨ Contains (Output r) (bs "\u2029") = true →
  parse_text (formatGenerationToolResult r) = None.
Proof.
  intros Hv Hc. destruct r as [status output]. cbn [Output] in Hv, Hc. unfold formatGenerationToolResult, shownOutput. cbn [Output Protocol.Status]. rewrite Hv.
  unfold Encode. change x0a with SourceCapture.newline. rewrite TrimSuffix_newline. cbn [compact flat_map fst snd].
  assert (Eq : ∀ u, quoted escape_text output ++ u = [json.quote_] ++ json.escape output ++ json.quote_ :: u).
  { intros u. unfold quoted, escape_text. rewrite Hv. by rewrite <- !app_assoc. }
  rewrite <- !app_assoc. rewrite Eq. rewrite separators_text by no_backslash. rewrite separators_quoted by (vm_compute; done).
  rewrite separators_text by no_backslash. rewrite separators_quoted by (vm_compute; done). rewrite separators_text by no_backslash.
  rewrite separators_quoted by (vm_compute; done). rewrite separators_text by no_backslash. rewrite separators_text by no_backslash.
  apply (broken_object (bs "encoding") (bs "utf8") (bs "output")). by apply separators_break.
Qed.

Lemma tool_result_corrupted_witness : parse_text (formatGenerationToolResult (mkToolResult 0 (bs "see \u2029"))) = None.
Proof. apply tool_result_corrupted; [by vm_compute|right; by vm_compute]. Defined.

(** ** What a call can reach *)

Lemma has_in name l : has name l = true ↔ name ∈ l.
Proof. apply bool_decide_eq_true. Qed.

Lemma admitCall_inv params threadID turnID planning tool a :
  admitCall params threadID turnID planning = Ok (tool, a) →
  (∃ values, params = Some values ∧ get "threadId" values = Some (JString threadID) ∧ get "turnId" values = Some (JString turnID)
     ∧ get "tool" values = Some (JString tool) ∧ get "namespace" values = Some (JString (bs "codexos")))
  ∧ (planning = true → tool ∈ planningTools).
Proof.
  intros H. unfold admitCall in H. apply bind_Ok in H as (values & Hv & H). apply bind_Ok in H as ([] & Hcall & H).
  assert (Hp : params = Some values) by (unfold ObjectValue in Hv; destruct params as [[]|]; try done; congruence).
  destruct (get_string "tool" values) as [tool'|] eqn:Et; [|done]. apply bind_Ok in H as (a' & Ha & H). cbn zeta in H.
  destruct (planning && _) eqn:Epl; [done|]. destruct (reviewCall tool' (namespaceOf values)) eqn:Er; [done|].
  destruct (negb (is_string _ (bs "codexos"))) eqn:En; [done|]. injection H as -> ->. apply negb_false_iff in En. split.
  - exists values. unfold validateGenerationToolCall in Hcall. destruct (get_string "callId" values) as [[|b id]|]; try done.
    destruct (negb (is_string _ threadID)) eqn:E1; [done|]. destruct (negb (is_string _ turnID)) eqn:E2; [done|].
    apply negb_false_iff in E1, E2. apply is_string_eq in E1, E2, En. split_and!; try done.
    + unfold get_string in Et. destruct (get "tool" values) as [[]|]; try done. congruence.
    + unfold namespaceOf in En. destruct (get "namespace" values) as [[]|]; congruence.
  - intros ->. cbn [andb] in Epl. rewrite En in Epl. apply negb_false_iff in Epl. rewrite orb_false_l in Epl. by apply has_in in Epl.
Qed.

Section Reach.
Context {R : Type}.
Context (InvokeTool : R → bytes → list bytes → result ToolResult * R).
Context (FeatureRequests : R → result (list FeatureRequest)).
Context (RecordRequest : option (Z → Z → OperatorRequestActor → bytes → bytes → bytes → R → result OperatorRequest * R)).

(** What a dispatch may have done to the runtime. *)
Definition guest_effect (tool : bytes) (s : GenerationSession) (r r' : R) : Prop :=
  tool ∈ availableTools s ∧ ∃ args, r' = (InvokeTool r tool args).2.
Definition report_effect (s : GenerationSession) (r r' : R) : Prop :=
  ∃ record d v, RecordRequest = Some record ∧ v ∈ cxRequests (operatorRequests s) ∧ vwID v = dsID d ∧ vwRevision v = dsRevision d
    ∧ vwActive v = true
    ∧ r' = (record (dsID d) (dsRevision d) (sessionActor s) (dsDisposition d) (dsExplanation d) (dsEvidence d) r).2.

Lemma operator_effect tool a s r :
  let r' := (dispatchOperatorRequest RecordRequest tool a s r).2.2 in r' = r ∨ report_effect s r r'.
Proof.
  cbn zeta. unfold dispatchOperatorRequest. destruct (bool_decide _); [by left|]. destruct (recordArguments a) as [d|]; [|by left].
  destruct (existsb _ _) eqn:E; cbn [negb]; [|by left]. destruct RecordRequest as [record|] eqn:Er; [|by left]. right.
  apply existsb_exists in E as (v & Hv & Hp). unfold presented in Hp. rewrite !andb_true_iff, !Z.eqb_eq in Hp.
  destruct Hp as [[Hid Hact] Hrev]. exists record, d, v. apply list_elem_of_In in Hv.
  destruct (record _ _ _ _ _ _ r) as [[]]; split_and!; done.
Qed.

Lemma dispatch_effect tool a s r :
  let r' := (dispatchTool InvokeTool FeatureRequests RecordRequest tool a s r).2.2 in
  r' = r ∨ guest_effect tool s r r' ∨ report_effect s r r'.
Proof.
  cbn zeta. unfold dispatchTool. destruct (negb _ && _) eqn:Eav; [by left|]. apply andb_false_iff in Eav.
  destruct (has tool (fields ["list_operator_requests"; "record_operator_request"]%string)) eqn:Eo.
  { destruct (operator_effect tool a s r); auto. }
  destruct (guestArguments tool a) as [[args|e]|] eqn:Eg; [|by left|].
  - assert (Hin : tool ∈ availableTools s).
    { destruct Eav as [Eh|Ea]; [|by apply negb_false_iff, bool_decide_eq_true in Ea]. apply negb_false_iff, has_in in Eh.
      assert (tool = bs "list_requests") as ->; [|discriminate Eg].
      apply not_true_iff_false in Eo. rewrite has_in in Eo. cbn [fields map] in *. set_solver. }
    right. left. split; [done|]. exists args. by destruct (InvokeTool r tool args).
  - destruct (bool_decide (tool = bs "list_requests")); by left.
Qed.

(** C14: Whatever the model sends, a call reaches the guest only through a tool the
    guest advertised, and reports only a request revision that is active in the
    context of the turn, as the session's own implementor; a call for another
    thread, turn or namespace has no effect, and in the planning phase no tool that
    changes the source, runs code in the guest or ends the generation is reached. *)
Theorem planning_cannot_mutate quote params threadID turnID planning s r :
  let r' := (dynamicToolResponse InvokeTool FeatureRequests RecordRequest quote params threadID turnID planning s r).2.2 in
  r' = r
  ∨ (∃ values, params = Some values ∧ get "threadId" values = Some (JString threadID) ∧ get "turnId" values = Some (JString turnID)
       ∧ get "namespace" values = Some (JString (bs "codexos")))
    ∧ (report_effect s r r'
       ∨ ∃ tool, guest_effect tool s r r'
           ∧ (planning = true → tool ∉ fields ["write"; "truncate"; "remove"; "finish_generation"; "run"; "reap";
                                                "import_provided_asset"; "import_bootstrap_artifact"]%string)).
Proof.
  cbn zeta. unfold dynamicToolResponse. destruct (admitCall params threadID turnID planning) as [[tool a]|e] eqn:Ead; [|by left].
  destruct (admitCall_inv _ _ _ _ _ _ Ead) as [(values & Hv & Hth & Htu & _ & Hns) Hpl].
  pose proof (dispatch_effect tool a s r) as Heff. cbn zeta in Heff.
  destruct (dispatchTool _ _ _ tool a s r) as [res [s' r']]. cbn [snd] in *. destruct Heff as [-> |[Hg|Hr]]; [by left| |].
  - right. split; [by exists values|]. right. exists tool. split; [done|]. intros Hp Hin. specialize (Hpl Hp).
    assert (Hdisjoint : forallb (λ t, negb (has t (fields ["write"; "truncate"; "remove"; "finish_generation"; "run"; "reap";
      "import_provided_asset"; "import_bootstrap_artifact"]%string))) planningTools = true) by (vm_compute; reflexivity).
    rewrite forallb_forall in Hdisjoint. apply list_elem_of_In in Hpl. specialize (Hdisjoint tool Hpl).
    apply negb_true_iff, not_true_iff_false in Hdisjoint. by apply Hdisjoint, has_in.
  - right. split; [by exists values|by left].
Qed.
End Reach.

(** ** Arguments arrive exactly *)

Lemma last_members_id l : NoDup l.*1 → last_members l = l.
Proof.
  induction l as [|m l IH]; [done|]. cbn [fmap list_fmap]. intros [Hn Hd]%NoDup_cons. cbn [last_members].
  destruct (existsb _ l) eqn:E; [|by rewrite IH]. apply existsb_exists in E as (x & Hx & Hk%bool_decide_eq_true).
  destruct Hn. rewrite <- Hk. apply (list_elem_of_fmap_2 fst). by apply list_elem_of_In.
Qed.

Lemma filter_none {A} (P : A → Prop) `{∀ x, Decision (P x)} l : (∀ x, x ∈ l → ¬ P x) → filter P l = [].
Proof.
  induction l as [|x l IH]; intros H'; [done|]. rewrite filter_cons_False by (apply H'; left). apply IH. intros y Hy. apply H'. by right.
Qed.

Lemma checkFields_ok a required optional :
  (∀ name, name ∈ required → name ∈ names a) → (∀ name, name ∈ names a → name ∈ required ∨ name ∈ optional) →
  checkGenerationFields a required optional = Ok ().
Proof.
  intros Hr Ho. unfold checkGenerationFields. cbn zeta.
  assert (H1 : filter (λ name, has name (names a) = false) required = []).
  { apply filter_none. intros name Hin Hh. apply Hr, has_in in Hin. congruence. }
  assert (H2 : filter (λ name, has name required = false ∧ has name optional = false) (names a) = []).
  { apply filter_none. intros name Hin [Hh1 Hh2]. destruct (Ho name Hin) as [?%has_in | ?%has_in]; congruence. }
  by rewrite H1, H2.
Qed.

(** A call whose members are those of [l], in any order. *)
Lemma call_arguments (a l : arguments) : a ≡ₚ l → NoDup l.*1 →
  (∀ name, arg name a = arg name l) ∧ (∀ name, name ∈ names a ↔ name ∈ l.*1).
Proof.
  intros Hp Hd. assert (Hda : NoDup a.*1) by (by rewrite Hp). split.
  - intros name. unfold arg. by apply member_perm.
  - intros name. unfold names. rewrite last_members_id by done. by rewrite Hp.
Qed.

Lemma decimal_exact n name : u64 n → generationUnsignedDecimal (Some (from_uint64 n)) name = Ok (strconv.Itoa n).
Proof.
  intros Hn. unfold generationUnsignedDecimal, from_uint64. destruct (strconv.Itoa_spec n Hn) as (Hdig & _ & Hne).
  assert (Hhead : ∃ b r, strconv.Itoa n = b :: r ∧ b ≠ x2d).
  { destruct (strconv.Itoa n) as [|b r]; [done|]. exists b, r. split; [done|]. cbn in Hdig. apply andb_true_iff in Hdig as [Hb _].
    by intros ->. }
  destruct Hhead as (b & r & E & Hb). rewrite E. rewrite (bool_decide_eq_false_2 (b :: r = bs "-0")) by (intros [= -> _]; done).
  cbn zeta match. rewrite (bool_decide_eq_false_2 (b :: r = [])) by done. cbn [strings.HasPrefix orb].
  change (bs "-") with [x2d]. cbn [strings.HasPrefix]. rewrite bool_decide_eq_false_2 by done. cbn [andb].
  rewrite <- E. by rewrite strconv.ParseUint_Itoa.
Qed.

(** A write of bytes given in base64, or of text, at an offset reaches the guest
    with exactly that path, the offset in canonical decimal and exactly those bytes,
    whatever the order of the arguments. *)
Theorem write_sends_exact_bytes a path n data :
  utf8.Valid path = true → u64 n →
  (a ≡ₚ [(bs "path", JString path); (bs "offset", from_uint64 n); (bs "encoding", JString (bs "base64"));
         (bs "data", JString (base64.EncodeToString data))]
   ∨ utf8.Valid data = true ∧ a ≡ₚ [(bs "path", JString path); (bs "offset", from_uint64 n); (bs "data", JString data)]) →
  guestArguments (bs "write") a = Some (Ok [path; strconv.Itoa n; data]).
Proof.
  intros Hp Hn Ha.
  assert (Hg : guestArguments (bs "write") a = Some (
    _ ← checkGenerationFields a (fields ["path"; "offset"; "data"]%string) (fields ["encoding"]%string);
    path ← generationUTF8 (arg "path" a) "path";
    offset ← generationUnsignedDecimal (arg "offset" a) "offset";
    data ← generationData a;
    Ok [path; offset; data])) by reflexivity.
  rewrite Hg. clear Hg. f_equal. destruct Ha as [Ha|[Hd Ha]];
    (destruct (call_arguments _ _ Ha ltac:(apply (bool_decide_unpack _); vm_compute; exact I)) as [Harg Hnames]);
    (rewrite checkFields_ok; [|intros name; rewrite Hnames; cbn [fields map fmap list_fmap fst]; set_solver
                              |intros name; rewrite Hnames; cbn [fields map fmap list_fmap fst]; set_solver]);
    cbn [mbind result_bind]; unfold generationData; rewrite !Harg.
  - change (arg "path" _) with (Some (JString path)). change (arg "offset" _) with (Some (from_uint64 n)).
    change (arg "encoding" _) with (Some (JString (bs "base64"))). change (arg "data" _) with (Some (JString (base64.EncodeToString data))).
    unfold generationUTF8. rewrite Hp. cbn [negb mbind result_bind]. rewrite decimal_exact by done. cbn [mbind result_bind].
    rewrite (bool_decide_eq_false_2 (bs "base64" = bs "utf8")) by by vm_compute. rewrite bool_decide_eq_true_2 by done. cbn [negb orb].
    replace (strings.ContainsAny (base64.EncodeToString data) [x0d; x0a]) with false; [by rewrite base64.DecodeString_Encode|].
    symmetry. apply ContainsAny_false. intros c Hc Hin. pose proof (base64.Encode_alphabet data) as Hal. rewrite forallb_forall in Hal.
    apply list_elem_of_In in Hin. specialize (Hal c Hin). rewrite !elem_of_cons in Hc.
    destruct Hc as [-> |[-> |Hc]]; [by vm_compute in Hal|by vm_compute in Hal|by inversion Hc].
  - change (arg "path" _) with (Some (JString path)). change (arg "offset" _) with (Some (from_uint64 n)).
    change (arg "encoding" _) with (@None jvalue). change (arg "data" _) with (Some (JString data)).
    unfold generationUTF8. rewrite Hp, Hd. cbn [negb mbind result_bind]. rewrite decimal_exact by done. cbn [mbind result_bind].
    by rewrite bool_decide_eq_true_2.
Qed.

Lemma write_sends_exact_bytes_witness :
  guestArguments (bs "write")
    [(bs "data", JString (base64.EncodeToString [x00; xff])); (bs "path", JString (bs "seed/main.c"));
     (bs "offset", from_uint64 5); (bs "encoding", JString (bs "base64"))]
  = Some (Ok [bs "seed/main.c"; bs "5"; [x00; xff]]).
Proof.
  apply (write_sends_exact_bytes _ (bs "seed/main.c") 5 [x00; xff]); [reflexivity|unfold u64; lia|left].
  apply (Permutation_app_comm [_] [_; _; _]).
Defined.

(** ** The reviewer *)

Lemma snapshotRead_found files file path offset n :
  NoDup (Path <$> files) → file ∈ files → Path file = path → 0 ≤ offset ≤ len (Content file) → 0 ≤ n →
  snapshotRead files path offset n = mkToolResult 0 (takeZ n (dropZ offset (Content file))).
Proof.
  intros Hd Hin Hp Ho Hn. induction files as [|x files IH]; [by inversion Hin|]. cbn [fmap list_fmap] in Hd.
  apply NoDup_cons in Hd as [Hx Hd]. cbn [snapshotRead]. destruct (decide (Path x = path)) as [Ex|Ex].
  - assert (file = x) as ->.
    { apply elem_of_cons in Hin as [|Hin]; [done|]. destruct Hx. rewrite Ex, <- Hp. by apply (list_elem_of_fmap_2 Path). }
    rewrite bool_decide_eq_true_2 by done. cbn [negb orb]. rewrite (proj2 (Z.ltb_ge _ _)) by lia. cbn zeta.
    destruct (_ <? n) eqn:E; [|done]. apply Z.ltb_lt in E. f_equal.
    rewrite !(takeZ_all _ (dropZ offset (Content x))); [done|rewrite len_dropZ by lia; lia..].
  - rewrite bool_decide_eq_false_2 by done. cbn [negb orb]. apply IH; [done|]. apply elem_of_cons in Hin as [-> |]; done.
Qed.

Lemma snapshotRead_missing files path offset n :
  (∀ file, file ∈ files → Path file = path → len (Content file) < offset) → snapshotRead files path offset n = failed_tool.
Proof.
  induction files as [|x files IH]; intros H; [done|]. cbn [snapshotRead]. destruct (decide (Path x = path)) as [Ex|Ex].
  - rewrite (proj2 (Z.ltb_lt _ _)) by (apply H; [left|done]). rewrite orb_true_r. apply IH. intros y Hy. apply H. by right.
  - rewrite bool_decide_eq_false_2 by done. cbn [negb orb]. apply IH. intros y Hy. apply H. by right.
Qed.

(** The snapshot runtime keeps the promise the capture relies on. *)
#[global] Instance snapshot_store files :
  Forall (λ file, strings.HasPrefix (Path file) (bs "seed/") = true) files → NoDup (Path <$> files) →
  FileStore snapshotInvokeTool files files.
Proof.
  intros Hp Hd. split.
  - unfold snapshotInvokeTool. rewrite bool_decide_eq_true_2 by done. cbn match. do 3 f_equal.
    clear Hd. induction Hp as [|file files Hf _ IH]; [done|]. rewrite filter_cons_True by done. by rewrite !lbind_cons, IH.
  - intros file n Hin Hn. unfold snapshotInvokeTool. rewrite bool_decide_eq_false_2 by by vm_compute.
    rewrite bool_decide_eq_true_2 by done. cbn match. rewrite strconv.ParseUint_Itoa by done.
    change (strconv.ParseUint (bs "0")) with (Some 0). cbn match.
    rewrite (snapshotRead_found files file); [done|done|done|done|split; [lia|apply len_nonneg]|unfold u64 in Hn; lia].
Qed.

(** A call of a reviewer's tool that went through is a listing or a read; the evidence
    of a read is what was asked and what the tool answered. *)
Lemma reviewer_tool_inv {R} (InvokeTool : R → bytes → list bytes → result ToolResult * R) tool a r result record r' :
  dispatchReadOnlyTool InvokeTool tool a r = (Ok result, record, r') →
  (tool = bs "list" ∧ record = None
   ∧ ∃ args, InvokeTool r (bs "list") args = (Ok result, r')
     ∧ (args = [] ∧ arg "prefix" a = None ∨ ∃ prefix, args = [prefix] ∧ arg "prefix" a = Some (JString prefix)))
  ∨ (tool = bs "read" ∧ ∃ path offset length n k, strconv.ParseUint offset = Some n ∧ strconv.ParseUint length = Some k
     ∧ arg "path" a = Some (JString path) ∧ arg "offset" a = Some (JNumber offset) ∧ arg "length" a = Some (JNumber length)
     ∧ InvokeTool r (bs "read") [path; offset; length] = (Ok result, r')
     ∧ record = Some (mkRead path (n `min` (2 ^ 63 - 1)) (k `min` (2 ^ 63 - 1)) (Protocol.Status result) (Output result))).
Proof.
  assert (Hdec : ∀ v name w, unsignedDecimal v name = Ok w → v = Some (JNumber w) ∧ ∃ n, strconv.ParseUint w = Some n).
  { intros v name w. unfold unsignedDecimal. destruct v as [[]|]; try done. destruct (_ || _); [done|].
    destruct (strconv.ParseUint literal) eqn:E; [|done]. intros [= <-]. eauto. }
  assert (Htext : ∀ v name w, utf8Argument v name = Ok w → v = Some (JString w)).
  { intros v name w. unfold utf8Argument, generationUTF8. destruct v as [[]|]; try done. destruct (negb _); [done|]. congruence. }
  assert (Hint : ∀ w n, strconv.ParseUint w = Some n → decimalInt64 w = n `min` (2 ^ 63 - 1)).
  { intros w n E. unfold decimalInt64. rewrite E. destruct (_ <? _) eqn:El; zbool; lia. }
  unfold dispatchReadOnlyTool. destruct (bool_decide (tool = bs "list")) eqn:Et; [apply bool_decide_eq_true in Et|clear Et].
  - destruct (checkFields _ _ _) as [[]|]; [|done]. cbn [mbind result_bind].
    destruct (arg "prefix" a) as [v|] eqn:Ep; [destruct (utf8Argument (Some v) "prefix") as [prefix|] eqn:Eu; [|done]; apply Htext in Eu as [= ->]|];
      cbn [mbind result_bind] in *.
    + destruct (InvokeTool r _ [prefix]) as [res r1] eqn:Ei. intros [= -> <- <-]. left. split; [done|]. split; [done|]. eexists. split; [exact Ei|]. right. by eexists.
    + destruct (InvokeTool r _ []) as [res r1] eqn:Ei. intros [= -> <- <-]. left. split; [done|]. split; [done|]. eexists. split; [exact Ei|]. by left.
  - destruct (bool_decide (tool = bs "read")) eqn:Et; [apply bool_decide_eq_true in Et|done].
    destruct (checkFields _ _ _) as [[]|]; [|done]. cbn [mbind result_bind].
    destruct (utf8Argument (arg "path" a) "path") as [path|] eqn:Ep; [|done]. cbn [mbind result_bind].
    destruct (unsignedDecimal (arg "offset" a) "offset") as [offset|] eqn:Eo; [|done]. cbn [mbind result_bind].
    destruct (unsignedDecimal (arg "length" a) "length") as [length|] eqn:El; [|done]. cbn [mbind result_bind].
    destruct (InvokeTool r (bs "read") [path; offset; length]) as [[res|] r1] eqn:Ei; [|done]. intros [= -> <- ->].
    destruct (Hdec _ _ _ Eo) as [Ho [n Hn]], (Hdec _ _ _ El) as [Hl [k Hk]]. right. split; [done|]. exists path, offset, length, n, k.
    rewrite (Hint _ _ Hn), (Hint _ _ Hk). by split_and!; try apply (Htext _ _ _ Ep).
Qed.

(** What the reviewer's tools answer from a snapshot of the files [fs]. *)
Definition snapshot_listing (fs : list SnapshotFile) (prefix : bytes) : bytes :=
  filter (λ file, strings.HasPrefix (Path file) prefix = true) (sort.SliceBy Path fs) ≫= λ file, Path file ++ [x0a].
Definition snapshot_answer (fs : list SnapshotFile) (path : bytes) (offset length : Z) (result : ToolResult) : Prop :=
  (∃ file, file ∈ fs ∧ Path file = path ∧ offset ≤ len (Content file)
     ∧ result = mkToolResult 0 (takeZ length (dropZ offset (Content file))))
  ∨ (∀ file, file ∈ fs → Path file = path → len (Content file) < offset) ∧ result = mkToolResult 1 [].

Lemma snapshotRead_answer fs path n k : NoDup (Path <$> fs) → 0 ≤ n → 0 ≤ k →
  snapshot_answer fs path n k (snapshotRead (sort.SliceBy Path fs) path n k).
Proof.
  intros Hd Hn Hk. assert (Hin : ∀ file, file ∈ sort.SliceBy Path fs ↔ file ∈ fs) by (intros file; by rewrite sort.SliceBy_perm).
  destruct (decide (Exists (λ file, Path file = path ∧ n ≤ len (Content file)) fs)) as [He|He].
  - apply Exists_exists in He as (file & Hf & Hpf & Hle). left. exists file. split_and!; try done.
    apply snapshotRead_found; [by rewrite sort.SliceBy_NoDup|by apply Hin|done|lia|done].
  - assert (Hnone : ∀ file, file ∈ fs → Path file = path → len (Content file) < n).
    { intros file Hf Hpf. destruct (decide (len (Content file) < n)); [done|]. destruct He. apply Exists_exists. exists file.
      split_and!; [done|done|lia]. }
    right. split; [done|]. apply snapshotRead_missing. intros file Hf. apply Hnone. by apply Hin.
Qed.

(** C20: A review reads the source that was captured: when the guest stores the files
    [fs] and their capture succeeded, each call of a reviewer's tool that is answered
    leaves the snapshot as it is and is either a listing, which answers the stored
    paths with the asked prefix in order and records nothing, or a read, which answers
    exactly the requested range of the stored file, or fails when there is no such
    file or the offset lies behind its end, and records as evidence the path, the
    offset, the length (up to the largest [int64]), the status and the bytes answered. *)
Theorem reviewer_reads_captured_source {G} (invoke : G → bytes → list bytes → result ToolResult * G)
  g fs budget snapshot tool a result record files' :
  FileStore invoke g fs → budget_ok budget → len fs ≤ maxSnapshotFiles →
  Forall (λ file, ValidateSourcePath (Path file) = Ok ()) fs → NoDup (Path <$> fs) →
  CaptureCanonicalSourceSnapshotWithBudget invoke budget g = (Ok snapshot, g) →
  dispatchReadOnlyTool snapshotInvokeTool tool a (Files snapshot) = (Ok result, record, files') →
  files' = Files snapshot
  ∧ ((tool = bs "list" ∧ record = None
      ∧ ∃ prefix, (arg "prefix" a = None ∧ prefix = [] ∨ arg "prefix" a = Some (JString prefix))
                  ∧ result = mkToolResult 0 (snapshot_listing fs prefix))
     ∨ (tool = bs "read" ∧ ∃ path offset length n k, arg "path" a = Some (JString path)
          ∧ arg "offset" a = Some (JNumber offset) ∧ strconv.ParseUint offset = Some n
          ∧ arg "length" a = Some (JNumber length) ∧ strconv.ParseUint length = Some k
          ∧ snapshot_answer fs path n k result
          ∧ record = Some (mkRead path (n `min` (2 ^ 63 - 1)) (k `min` (2 ^ 63 - 1)) (Protocol.Status result) (Output result)))).
Proof.
  intros Hst Hb Hlen Hv Hd Hcap Hread.
  rewrite (capture_from_store invoke g fs budget Hst Hb Hlen Hv Hd) in Hcap.
  destruct (total_content fs <=? Bytes budget); [|done]. injection Hcap as <-.
  change (Files (sourceSnapshot ?w ?l)) with (cloneSnapshotFiles l) in *. rewrite cloneSnapshotFiles_id in *.
  apply reviewer_tool_inv in Hread as [(-> & -> & args & Hinv & Hargs)|(-> & path & offset & length & n & k & Hn & Hk & Hp & Ho & Hl & Hinv & ->)];
    unfold snapshotInvokeTool in Hinv.
  - rewrite bool_decide_eq_true_2 in Hinv by done.
    destruct Hargs as [[-> Ha]|(prefix & -> & Ha)]; injection Hinv as <- <-; (split; [done|]); left; (split; [done|]); (split; [done|]);
      eexists; (split; [by eauto|done]).
  - rewrite bool_decide_eq_false_2 in Hinv by by vm_compute. rewrite bool_decide_eq_true_2, Hn, Hk in Hinv by done. injection Hinv as <- <-.
    split; [done|]. right. split; [done|]. exists path, offset, length, n, k. split_and!; try done.
    apply snapshotRead_answer; [done|exact (proj1 (ParseUint_range _ _ Hn))|exact (proj1 (ParseUint_range _ _ Hk))].
Qed.

Definition review_read : arguments :=
  [(bs "path", JString (Path (hd (mkSnapshotFile [] []) sample_files))); (bs "offset", from_uint64 0); (bs "length", from_uint64 3)].

Lemma reviewer_reads_captured_source_witness :
  ∃ result rd, dispatchReadOnlyTool snapshotInvokeTool (bs "read") review_read (rev sample_files) = (Ok result, Some rd, rev sample_files)
    ∧ rdOutput rd = Output result.
Proof.
  assert (Hst : FileStore list_store sample_files sample_files).
  { apply list_store_FileStore; [by repeat constructor|]. by apply (bool_decide_unpack _). }
  assert (Hcap : CaptureCanonicalSourceSnapshotWithBudget list_store 0 sample_files
    = (Ok (sourceSnapshot (snapshot_wire (rev sample_files)) (rev sample_files)), sample_files)) by (vm_compute; reflexivity).
  destruct (dispatchReadOnlyTool snapshotInvokeTool (bs "read") review_read (rev sample_files)) as [[[result|e] record] files'] eqn:E;
    [|vm_compute in E; discriminate E].
  destruct (reviewer_reads_captured_source list_store sample_files sample_files 0 _ (bs "read") review_read result record files' Hst
    ltac:(by left) ltac:(by vm_compute) ltac:(by repeat constructor) ltac:(by apply (bool_decide_unpack _)) Hcap E)
    as (-> & [(Hx & _)|(_ & path & offset & length & n & k & _ & _ & _ & _ & _ & _ & ->)]); [discriminate Hx|].
  eexists _, _. split; [reflexivity|reflexivity].
Defined.

(** ** Unexpected arguments *)

Lemma smaller_nonempty l first : Forall (λ name, name ≠ []) l → fold_left smaller l first = [] → first = [] ∧ l = [].
Proof.
  revert first. induction l as [|name l IH]; intros first HF H; [done|]. apply Forall_cons in HF as [Hn HF]. cbn [fold_left] in H.
  destruct (IH _ HF H) as [Hs ->]. exfalso. unfold smaller in Hs. destruct (bool_decide (first = [])) eqn:E; [done|]. cbn [orb] in Hs.
  apply bool_decide_eq_false in E. by destruct (string_lt name first).
Qed.

(** A call whose arguments all have a name passes the field check exactly when
    every required argument is there and no other than the required and optional
    ones; but an argument whose name is empty goes unnoticed. *)
Theorem fields_checked_exactly a required optional :
  [] ∉ names a →
  (checkGenerationFields a required optional = Ok ()
   ↔ (∀ name, name ∈ required → name ∈ names a) ∧ (∀ name, name ∈ names a → name ∈ required ∨ name ∈ optional))
  ∧ checkGenerationFields [([], JNull)] [] [] = Ok ().
Proof.
  intros Hne. split; [|by vm_compute]. split; [|intros [? ?]; by apply checkFields_ok].
  unfold checkGenerationFields. cbn zeta. intros H.
  destruct (bool_decide (filter _ required = [])) eqn:E1; cbn [negb] in H; [|done]. apply bool_decide_eq_true in E1.
  destruct (bool_decide (fold_left smaller _ [] = [])) eqn:E2; cbn [negb] in H; [|done]. apply bool_decide_eq_true in E2.
  apply smaller_nonempty in E2 as [_ E2].
  - split; intros name Hin.
    + destruct (has name (names a)) eqn:Eh; [by apply has_in|].
      assert (Hx : name ∈ filter (λ name, has name (names a) = false) required) by (by apply list_elem_of_filter).
      rewrite E1 in Hx. by inversion Hx.
    + destruct (has name required) eqn:Er; [left; by apply has_in|]. destruct (has name optional) eqn:Eo; [right; by apply has_in|].
      assert (Hx : name ∈ filter (λ name, has name required = false ∧ has name optional = false) (names a))
        by (by apply list_elem_of_filter). rewrite E2 in Hx. by inversion Hx.
  - apply Forall_forall. intros name [_ Hin]%list_elem_of_filter ->. done.
Qed.

Lemma fields_checked_exactly_witness :
  checkGenerationFields [(bs "path", JString (bs "seed/a"))] (fields ["path"]%string) [] = Ok ()
  ↔ (∀ name, name ∈ fields ["path"]%string → name ∈ names [(bs "path", JString (bs "seed/a"))])
    ∧ (∀ name, name ∈ names [(bs "path", JString (bs "seed/a"))] → name ∈ fields ["path"]%string ∨ name ∈ @nil bytes).
Proof.
  assert (H : [] ∉ names [(bs "path", JString (bs "seed/a"))]) by (apply (bool_decide_unpack _); vm_compute; exact I).
  exact (proj1 (fields_checked_exactly _ (fields ["path"]%string) [] H)).
Defined.
