(* ===== verification/SessionState.v ===== *)
(** * The session of a generation: its state and critical sections
      (src/internal/agent: generation.go, review_yield.go)

    A session drives one Codex app-server thread through planning, implementation,
    reviews and the exit interview. Callers, tool callbacks, pauses and the close run
    as goroutines that meet at [s.mu]; each definition below is what one of them
    does while it holds that mutex, or one call it makes between two such sections.
    [Session.v] composes them. What the runtime, the app server, the file system and
    the clock answer is the argument [answer]. *)

From S2P Require Import Prelude GoStd Json FeatureStore ArchiveRecord JsonTree Planning.
Open Scope Z_scope.

Inductive turn_phase := Planning | Implementation | Continuation | Interview.
Inductive turn_status := StatusNone | StatusCompleted | StatusInterrupted | StatusFailed.
Inductive GenerationSessionMode := GenerationMode | GenerationModeRetainedAtGate | GenerationModeInterviewTurn | GenerationModeClosed.
Inductive ReviewYieldState := ReviewYieldIdle | ReviewYieldStoppingOrigin | ReviewYieldAwaitingReview | ReviewYieldReviewing
  | ReviewYieldAwaitingContinuation | ReviewYieldFailed | ReviewYieldResuming.
Inductive yield_outcome := OutcomeNone | OutcomeCompleted | OutcomeFailed | OutcomeCancelled.
Inductive permission := implementorPermissionProfile | planningPermissionProfile | interviewPermissionProfile.

#[global] Instance turn_phase_eq_dec : EqDecision turn_phase.
Proof. solve_decision. Defined.
#[global] Instance turn_status_eq_dec : EqDecision turn_status.
Proof. solve_decision. Defined.
#[global] Instance mode_eq_dec : EqDecision GenerationSessionMode.
Proof. solve_decision. Defined.
#[global] Instance yield_state_eq_dec : EqDecision ReviewYieldState.
Proof. solve_decision. Defined.
#[global] Instance yield_outcome_eq_dec : EqDecision yield_outcome.
Proof. solve_decision. Defined.
#[global] Instance permission_eq_dec : EqDecision permission.
Proof. solve_decision. Defined.

Definition outcome_text (o : yield_outcome) : bytes :=
  match o with OutcomeNone => [] | OutcomeCompleted => bs "completed" | OutcomeFailed => bs "failed" | OutcomeCancelled => bs "cancelled" end.
Definition status_text (st : turn_status) : bytes :=
  match st with StatusNone => [] | StatusCompleted => bs "completed" | StatusInterrupted => bs "interrupted" | StatusFailed => bs "failed" end.

(** A channel that is only ever closed; channel 0 is the one [closedChannel] makes. *)
Definition chan := nat.

(** [routing]: the identity of the call; [setupErr]: why its evidence could not be
    begun. The [request], the [focus] and the review evidence only reach the reviewer. *)
Record reviewYield := mkYield {
  yRouting : nat;
  ySetupErr : option error;
  yProposal : bytes;
  yPhase : turn_phase;
  yThread : bytes;
  yTurn : bytes;
  yCall : bytes;
  yResult : bytes;
  yOutcome : yield_outcome;
  yStarted : bool;                (* continuationStarted *)
  yFinished : bool                (* continuationFinished *)
}.

(** A turn asked of the app server. *)
Record turnRequest := mkRequest { rqPhase : turn_phase; rqPermission : permission; rqPrompt : bytes; rqResume : option nat }.

#[projections(primitive=yes)]
Record GenerationSession := mkSession {
  gsServer : bool;                (* server <> nil *)
  gsRunCtx : bool;                (* runCtx <> nil *)
  gsThread : bytes;
  gsGeneration : option Z;        (* generation, when generationSet *)
  gsStarted : bool;
  gsStartingServer : bool;        (* starting *)
  gsStartDone : option chan;
  gsStartErr : option error;
  gsClosed : bool;
  gsCloseDone : option chan;
  gsHealthy : bool;
  gsMode : GenerationSessionMode;
  gsTurn : bytes;                 (* turnID *)
  gsPhase : option turn_phase;
  gsTurnStarting : bool;
  gsAcceptingTools : bool;
  gsTurnReady : option chan;
  gsTurnDone : chan;
  gsToolIdle : chan;
  gsActiveTools : Z;
  gsLastStatus : turn_status;
  gsTurnNumber : Z;
  gsInitialStarted : bool;
  gsPlanningCompleted : bool;
  gsPlanningRetry : bool;
  gsInitialActive : bool;
  gsInitialDone : chan;
  gsStopBefore : bool;            (* stopBeforeImplementation *)
  gsEvidenceSet : bool;           (* planningEvidence <> nil *)
  gsEvidence : option PlanningEvidence;   (* the object it points to *)
  gsPendingReview : option nat;
  gsActiveResume : option nat;
  gsYieldState : ReviewYieldState;
  gsReviewDone : option chan;
  gsReviewPause : bool;
  gsInterviewStarted : bool;
  gsInterviewEnding : bool;
  gsInterviewPending : bool;
  gsAdmissionDone : option chan;
  gsInterviewNumber : Z;
  gsTranscript : bool;
  gsGateRetained : bool;
  gsYields : list reviewYield;    (* the review yields made so far *)
  gsNextChan : chan;
  gsClosedChans : gset chan;
  gsSent : list turnRequest;      (* the turns asked for, oldest first *)
  gsContinued : list nat          (* the yields whose continuation was recorded as started *)
}.

(** [update proj s v]: [s] with the field [proj] set to [v]. *)
Ltac update proj s v :=
  let e := constr:(mkSession (gsServer s) (gsRunCtx s) (gsThread s) (gsGeneration s) (gsStarted s) (gsStartingServer s) (gsStartDone s)
    (gsStartErr s) (gsClosed s) (gsCloseDone s) (gsHealthy s) (gsMode s) (gsTurn s) (gsPhase s) (gsTurnStarting s) (gsAcceptingTools s)
    (gsTurnReady s) (gsTurnDone s) (gsToolIdle s) (gsActiveTools s) (gsLastStatus s) (gsTurnNumber s) (gsInitialStarted s)
    (gsPlanningCompleted s) (gsPlanningRetry s) (gsInitialActive s) (gsInitialDone s) (gsStopBefore s) (gsEvidenceSet s) (gsEvidence s)
    (gsPendingReview s) (gsActiveResume s) (gsYieldState s) (gsReviewDone s) (gsReviewPause s) (gsInterviewStarted s)
    (gsInterviewEnding s) (gsInterviewPending s) (gsAdmissionDone s) (gsInterviewNumber s) (gsTranscript s) (gsGateRetained s)
    (gsYields s) (gsNextChan s) (gsClosedChans s) (gsSent s) (gsContinued s)) in
  match eval pattern (proj s) in e with ?f _ => let r := eval cbv beta in (f v) in exact r end.

Section Setters.
Implicit Types s : GenerationSession.
Definition set_server (v : bool) s : GenerationSession := ltac:(update gsServer s v).
Definition set_runCtx (v : bool) s : GenerationSession := ltac:(update gsRunCtx s v).
Definition set_thread (v : bytes) s : GenerationSession := ltac:(update gsThread s v).
Definition set_generation (v : option Z) s : GenerationSession := ltac:(update gsGeneration s v).
Definition set_started (v : bool) s : GenerationSession := ltac:(update gsStarted s v).
Definition set_startingServer (v : bool) s : GenerationSession := ltac:(update gsStartingServer s v).
Definition set_startDone (v : option chan) s : GenerationSession := ltac:(update gsStartDone s v).
Definition set_startErr (v : option error) s : GenerationSession := ltac:(update gsStartErr s v).
Definition set_closed (v : bool) s : GenerationSession := ltac:(update gsClosed s v).
Definition set_closeDone (v : option chan) s : GenerationSession := ltac:(update gsCloseDone s v).
Definition set_healthy (v : bool) s : GenerationSession := ltac:(update gsHealthy s v).
Definition set_mode (v : GenerationSessionMode) s : GenerationSession := ltac:(update gsMode s v).
Definition set_turn (v : bytes) s : GenerationSession := ltac:(update gsTurn s v).
Definition set_phase (v : option turn_phase) s : GenerationSession := ltac:(update gsPhase s v).
Definition set_turnStarting (v : bool) s : GenerationSession := ltac:(update gsTurnStarting s v).
Definition set_acceptingTools (v : bool) s : GenerationSession := ltac:(update gsAcceptingTools s v).
Definition set_turnReady (v : option chan) s : GenerationSession := ltac:(update gsTurnReady s v).
Definition set_turnDone (v : chan) s : GenerationSession := ltac:(update gsTurnDone s v).
Definition set_toolIdle (v : chan) s : GenerationSession := ltac:(update gsToolIdle s v).
Definition set_activeTools (v : Z) s : GenerationSession := ltac:(update gsActiveTools s v).
Definition set_lastStatus (v : turn_status) s : GenerationSession := ltac:(update gsLastStatus s v).
Definition set_turnNumber (v : Z) s : GenerationSession := ltac:(update gsTurnNumber s v).
Definition set_initialStarted (v : bool) s : GenerationSession := ltac:(update gsInitialStarted s v).
Definition set_planningCompleted (v : bool) s : GenerationSession := ltac:(update gsPlanningCompleted s v).
Definition set_planningRetry (v : bool) s : GenerationSession := ltac:(update gsPlanningRetry s v).
Definition set_initialActive (v : bool) s : GenerationSession := ltac:(update gsInitialActive s v).
Definition set_initialDone (v : chan) s : GenerationSession := ltac:(update gsInitialDone s v).
Definition set_stopBefore (v : bool) s : GenerationSession := ltac:(update gsStopBefore s v).
Definition set_evidenceSet (v : bool) s : GenerationSession := ltac:(update gsEvidenceSet s v).
Definition set_evidence (v : option PlanningEvidence) s : GenerationSession := ltac:(update gsEvidence s v).
Definition set_pendingReview (v : option nat) s : GenerationSession := ltac:(update gsPendingReview s v).
Definition set_activeResume (v : option nat) s : GenerationSession := ltac:(update gsActiveResume s v).
Definition set_yieldState (v : ReviewYieldState) s : GenerationSession := ltac:(update gsYieldState s v).
Definition set_reviewDone (v : option chan) s : GenerationSession := ltac:(update gsReviewDone s v).
Definition set_reviewPause (v : bool) s : GenerationSession := ltac:(update gsReviewPause s v).
Definition set_interviewStarted (v : bool) s : GenerationSession := ltac:(update gsInterviewStarted s v).
Definition set_interviewEnding (v : bool) s : GenerationSession := ltac:(update gsInterviewEnding s v).
Definition set_interviewPending (v : bool) s : GenerationSession := ltac:(update gsInterviewPending s v).
Definition set_admissionDone (v : option chan) s : GenerationSession := ltac:(update gsAdmissionDone s v).
Definition set_interviewNumber (v : Z) s : GenerationSession := ltac:(update gsInterviewNumber s v).
Definition set_transcript (v : bool) s : GenerationSession := ltac:(update gsTranscript s v).
Definition set_gateRetained (v : bool) s : GenerationSession := ltac:(update gsGateRetained s v).
Definition set_yields (v : list reviewYield) s : GenerationSession := ltac:(update gsYields s v).
Definition set_nextChan (v : chan) s : GenerationSession := ltac:(update gsNextChan s v).
Definition set_closedChans (v : gset chan) s : GenerationSession := ltac:(update gsClosedChans s v).
Definition set_sent (v : list turnRequest) s : GenerationSession := ltac:(update gsSent s v).
Definition set_continued (v : list nat) s : GenerationSession := ltac:(update gsContinued s v).
End Setters.

Definition NewGenerationSession : GenerationSession :=
  mkSession false false [] None false false None None false None true GenerationMode [] None false false None O O 0 StatusNone 0
    false false false false O false false None None None ReviewYieldIdle None false false false false None 0 false false [] 1%nat {[ O ]} [] [].

(** What happens around a step: the answers of the runtime, of a call that can
    fail, of the app server, and whether a timer has fired. *)
Record answer := mkAnswer {
  anRunning : bool;               (* GenerationRunning *)
  anNumber : option Z;            (* GenerationNumber *)
  anGate : bool;                  (* the runtime has a gate and holds this generation there *)
  anErr : option error;           (* the error of the call *)
  anErr2 : option error;          (* and of the second write of one operation *)
  anText : bytes;                 (* the text it returns *)
  anTurn : bytes;                 (* the identifier of the turn or thread *)
  anPresent : bool;               (* the response, the directory or the routing exists *)
  anReserved : bool;              (* the call router reserved or started the handler *)
  anMessages : list jvalue;       (* the notifications read until the turn ends *)
  anTimeout : bool;
  anCount : nat
}.

Definition worker (reason : string) : error := GenerationWorkerError (txt reason) None.

(** ** Channels *)

Definition close_chan (c : chan) (s : GenerationSession) : GenerationSession := set_closedChans ({[ c ]} ∪ gsClosedChans s) s.
Definition closeGenerationChannel (c : option chan) (s : GenerationSession) : GenerationSession :=
  match c with None => s | Some c => close_chan c s end.
Definition is_closed (c : chan) (s : GenerationSession) : bool := bool_decide (c ∈ gsClosedChans s).
(** [make(chan struct{})] *)
Definition make_chan (s : GenerationSession) : chan * GenerationSession := (gsNextChan s, set_nextChan (S (gsNextChan s)) s).

(** [waitUntil]: closed, timed out, or still waiting. *)
Definition waitUntil (c : option chan) (timeout : bool) (s : GenerationSession) : option bool :=
  match c with
  | None => Some true
  | Some c => if is_closed c s then Some true else if timeout then Some false else None
  end.

(** ** Shared sections *)

Definition markUnhealthy (s : GenerationSession) : GenerationSession := set_healthy false s.

Definition finishInterviewAdmissionLocked (done : option chan) (s : GenerationSession) : GenerationSession :=
  match done with
  | None => s
  | Some c => if bool_decide (gsAdmissionDone s = Some c) then close_chan c (set_admissionDone None (set_interviewPending false s)) else s
  end.

(** The section of [clearTurn]; the captured [turnDone] is closed after it. *)
Definition clearTurn (status : turn_status) (s : GenerationSession) : chan * GenerationSession :=
  (gsTurnDone s,
   closeGenerationChannel (gsTurnReady s)
     (set_turnReady None (set_acceptingTools false (set_turnStarting false (set_phase None (set_turn [] (set_lastStatus status s))))))).

Definition finishDynamicToolHandler (s : GenerationSession) : GenerationSession :=
  let s := if 0 <? gsActiveTools s then set_activeTools (gsActiveTools s - 1) s else s in
  if gsActiveTools s =? 0 then close_chan (gsToolIdle s) s else s.

(** Registering a queued handler. *)
Definition registerHandler (s : GenerationSession) : GenerationSession :=
  let s := set_activeTools (gsActiveTools s + 1) s in
  if gsActiveTools s =? 1 then let '(c, s) := make_chan s in set_toolIdle c s else s.

Definition yield_at (y : nat) (s : GenerationSession) : option reviewYield := gsYields s !! y.
Definition update_yield (f : reviewYield → reviewYield) (y : nat) (s : GenerationSession) : GenerationSession :=
  set_yields (alter f y (gsYields s)) s.
Definition with_outcome (result : bytes) (o : yield_outcome) (r : reviewYield) : reviewYield :=
  mkYield (yRouting r) (ySetupErr r) (yProposal r) (yPhase r) (yThread r) (yTurn r) (yCall r) result o (yStarted r) (yFinished r).
Definition with_continuation (finished : bool) (r : reviewYield) : reviewYield :=
  mkYield (yRouting r) (ySetupErr r) (yProposal r) (yPhase r) (yThread r) (yTurn r) (yCall r) (yResult r) (yOutcome r)
    (negb finished || yStarted r) (finished || yFinished r).
Definition outcome_at (y : nat) (s : GenerationSession) : yield_outcome := from_option yOutcome OutcomeNone (yield_at y s).

(** ** Planning evidence *)

(** [failPlanningEvidence] reads the pointer and marks the object failed. *)
Definition failPlanningEvidenceValue (failure : option error) (s : GenerationSession) : option error * GenerationSession :=
  match gsEvidence s with
  | None => (None, s)
  | Some e =>
      match Fail failure e with
      | (Ok _, e) => (None, set_evidence (Some e) s)
      | (Err err, e) => (Some err, set_evidence (Some e) s)
      end
  end.
Definition failPlanningEvidence (failure : option error) (s : GenerationSession) : option error * GenerationSession :=
  if gsEvidenceSet s then failPlanningEvidenceValue failure s else (None, s).

Definition evidenceStep {A} (op : PlanningEvidence → result A * PlanningEvidence) (s : GenerationSession) : result A * GenerationSession :=
  match gsEvidence s with
  | None => (Err (worker "planning evidence is unavailable"), s)
  | Some e => let '(r, e) := op e in (r, set_evidence (Some e) s)
  end.
Definition recordPlanningStarted (turn : bytes) (failure : option error) : GenerationSession → result unit * GenerationSession :=
  evidenceStep (RecordStarted turn failure).
Definition completePlanningEvidence (status : turn_status) (response : option bytes) (written failure : option error)
  : GenerationSession → result PlanningResponseIdentity * GenerationSession :=
  evidenceStep (Complete (status_text status) response written failure).
Definition recordPlanningYielded (proposal : bytes) (written failure : option error)
  : GenerationSession → result PlanningResponseIdentity * GenerationSession :=
  evidenceStep (RecordYielded proposal written failure).
Definition recordPlanningRetryableFailure (failure : option error) : GenerationSession → result unit * GenerationSession :=
  evidenceStep (RecordRetryableFailure failure).

Definition combineGenerationErrors (primary : error) (secondary : option error) : error :=
  match secondary with
  | None => primary
  | Some secondary => PlainError (Error primary ++ txt "; planning evidence fail-closed also failed: " ++ Error secondary)
  end.
Definition generationError (err : error) : error :=
  match err with GenerationWorkerError _ _ => err | _ => GenerationWorkerError (Error err) (Some err) end.
Definition generationFailure (primary : error) (evidence : option error) : error := generationError (combineGenerationErrors primary evidence).

(** ** Starting the app server *)

Inductive start_entry := StartDoneAlready | StartError (err : error) | StartJoin (done : option chan) | StartOwner.

Definition Start_enter (s : GenerationSession) : start_entry * GenerationSession :=
  if gsStarted s then (StartDoneAlready, s)
  else if gsClosed s then (StartError (worker "Codex generation session is closed"), s)
  else match gsStartErr s with
  | Some err => (StartError err, s)
  | None =>
      if gsStartingServer s then (StartJoin (gsStartDone s), s)
      else let '(c, s) := make_chan s in (StartOwner, set_startDone (Some c) (set_startingServer true s))
  end.

(** Another caller's start has ended. *)
Definition Start_joined (s : GenerationSession) : option error :=
  if gsStarted s then None
  else Some (match gsStartErr s with
             | Some err => err
             | None => if gsClosed s then worker "Codex generation session is closed" else worker "Codex generation session did not start"
             end).

(** [sessionGeneration] *)
Definition sessionGeneration (number : option Z) (s : GenerationSession) : option Z :=
  match gsGeneration s with Some g => Some g | None => number end.

(** The checks before the app server is made: [anErr] stands for a failed
    [ListTools], an unknown tool, or another generation in the meantime. *)
Definition Start_checks (a : answer) (s : GenerationSession) : result Z :=
  if negb (anRunning a) then Err (worker "CodexOS generation is not running")
  else match sessionGeneration (anNumber a) s with
  | None => Err (worker "Codex generation number is unavailable")
  | Some generation =>
      if match gsGeneration s with Some g => negb (g =? generation) | None => false end then
        Err (worker "Codex generation session belongs to another generation")
      else if gsClosed s then Err (worker "Codex generation session is closed")
      else Ok generation
  end.

(** The commit of a start: the thread exists. *)
Definition Start_publish (thread : bytes) (generation : Z) (s : GenerationSession) : option error * GenerationSession :=
  if gsClosed s then (Some (worker "Codex generation session is closed"), s)
  else (None, set_started true (set_generation (Some generation) (set_thread thread (set_runCtx true (set_server true s))))).

Definition finishStart (err : option error) (s : GenerationSession) : GenerationSession :=
  let s := match err with Some _ => set_startErr err s | None => s end in
  closeGenerationChannel (gsStartDone s) (set_startDone None (set_startingServer false s)).

(** [belongsToCurrentGeneration] *)
Definition belongsToCurrentGeneration (number : option Z) (s : GenerationSession) : bool :=
  match gsGeneration s, number with Some g, Some n => n =? g | _, _ => false end.

(** ** A turn *)

(** Who called [runTurnWithInterview]: the planning half of a sequence, its
    implementation half, a continuation, or an interview turn with the admission
    channel it made. *)
Inductive caller := BySequence (done : chan) | ByImplementation (done : chan) | ByContinuation | ByInterview (admission : chan).

Record turnCall := mkCall { tcCaller : caller; tcPhase : turn_phase; tcPrompt : bytes; tcResume : option nat }.

Definition interviewOf (c : turnCall) : option chan := match tcCaller c with ByInterview adm => Some adm | _ => None end.
Definition is_interview (c : turnCall) : bool := match interviewOf c with Some _ => true | None => false end.
Definition permissionOf (c : turnCall) : permission :=
  if bool_decide (tcPhase c = Planning) then planningPermissionProfile
  else if is_interview c then interviewPermissionProfile else implementorPermissionProfile.

(** A paused review waits for its continuation again. *)
Definition awaitContinuation (y : nat) (s : GenerationSession) : GenerationSession :=
  let s := set_pendingReview (Some y) s in
  let s := if bool_decide (gsActiveResume s = Some y) then set_activeResume None s else s in
  set_lastStatus StatusInterrupted
    (set_yieldState (if bool_decide (outcome_at y s = OutcomeCompleted) then ReviewYieldAwaitingContinuation else ReviewYieldFailed) s).

Inductive reservation := Refused (err : error) | NotStarted | Reserved (ready : chan).

(** The section that reserves the turn. *)
Definition reserveTurn (c : turnCall) (a : answer) (s : GenerationSession) : reservation * GenerationSession :=
  let expected := if is_interview c then GenerationModeInterviewTurn else GenerationMode in
  if negb (gsServer s) || bool_decide (gsThread s = []) then (Refused (worker "Codex app-server is not running"), s)
  else if negb (gsHealthy s) then (Refused (worker "Codex generation session is unusable"), s)
  else if negb (bool_decide (gsMode s = expected)) then
    (Refused (worker (if is_interview c then "Codex session is not in an interview turn"
                      else "ordinary Codex generation turns are unavailable after finish")), s)
  else if negb (is_interview c) && negb (anRunning a) then (Refused (worker "CodexOS generation is not running"), s)
  else if is_interview c && (negb (gsGateRetained s) || negb (anGate a)) then
    (Refused (worker "completed generation is not frozen at its gate"), s)
  else if negb (belongsToCurrentGeneration (anNumber a) s) then
    (Refused (worker "Codex generation session belongs to another generation"), s)
  else if negb (bool_decide (gsTurn s = [])) || gsTurnStarting s then (Refused (worker "Codex implementor turn is already active"), s)
  else if negb (gsActiveTools s =? 0) then (Refused (worker "a previous Codex dynamic tool call is still active"), s)
  else if bool_decide (tcPhase c = Implementation) && gsInitialActive s && gsStopBefore s then (NotStarted, s)
  else match (if gsReviewPause s then tcResume c else None) with
  | Some y => (NotStarted, awaitContinuation y s)
  | None =>
      if negb (gsRunCtx s) then (Refused (worker "Codex app-server lifecycle context is unavailable"), s)
      else
        let s := set_acceptingTools false (set_turnStarting true (set_lastStatus StatusNone (set_phase (Some (tcPhase c)) s))) in
        let '(ready, s) := make_chan s in
        let '(done, s) := make_chan s in
        let s := set_toolIdle O (set_turnDone done (set_turnReady (Some ready) s)) in
        (Reserved ready, finishInterviewAdmissionLocked (interviewOf c) s)
  end.

Definition startTurnRequest (c : turnCall) : turnRequest := mkRequest (tcPhase c) (permissionOf c) (tcPrompt c) (tcResume c).
Definition sendTurn (c : turnCall) (s : GenerationSession) : GenerationSession := set_sent (gsSent s ++ [startTurnRequest c]) s.

(** The section after the app server refused the turn: whether a requested pause
    explains it. The context is cancelled by then. *)
Definition turnRefused (c : turnCall) (ready : chan) (s : GenerationSession) : bool * GenerationSession :=
  let reserved := bool_decide (gsTurnReady s = Some ready) in
  match (if reserved && gsReviewPause s && negb (gsClosed s) then tcResume c else None) with
  | Some y => (true, awaitContinuation y s)
  | None => (false, if reserved then set_healthy false (set_lastStatus StatusFailed s) else s)
  end.

(** The section after the app server accepted the turn. *)
Definition publishTurn (ready : chan) (turn : bytes) (s : GenerationSession) : bool * GenerationSession :=
  if bool_decide (gsTurnReady s = Some ready) && gsTurnStarting s && negb (gsClosed s) && gsServer s then
    (true, set_turnNumber (wrap64 (gsTurnNumber s + 1))
             (close_chan ready (set_turnReady None (set_acceptingTools true (set_turnStarting false (set_turn turn s))))))
  else (false, s).

(** The continuation of a review may start once. *)
Definition beginContinuation (y : nat) (s : GenerationSession) : bool * GenerationSession :=
  match yield_at y s with
  | Some r => if yStarted r then (false, s) else (true, set_continued (gsContinued s ++ [y]) (update_yield (with_continuation false) y s))
  | None => (false, s)
  end.

Definition reviewYieldForTurn (thread turn : bytes) (ph : turn_phase) (s : GenerationSession) : option nat :=
  match gsPendingReview s with
  | None => None
  | Some y =>
      match yield_at y s with
      | Some r => if bool_decide (yThread r = thread) && bool_decide (yTurn r = turn) && bool_decide (yPhase r = ph) then Some y else None
      | None => None
      end
  end.

(** ** The planning sequence *)

Definition RunInitialTurn_enter (s : GenerationSession) : option error * GenerationSession :=
  if gsInitialStarted s then (Some (worker "initial Codex turn has already started"), s) else (None, set_initialStarted true s).

Definition RunInitialTurn_publish (s : GenerationSession) : bool * GenerationSession :=
  if gsClosed s then (false, s) else (true, set_evidenceSet true s).

Definition RunPlanningContinuationTurn_check (s : GenerationSession) : option error :=
  if negb (gsInitialStarted s) || negb (gsEvidenceSet s) then Some (worker "initial planning has not started")
  else if gsPlanningCompleted s then Some (worker "planning has already completed") else None.

Definition RunContinuationTurn_check (s : GenerationSession) : option error :=
  if negb (gsInitialStarted s) then Some (worker "initial Codex turn has not started")
  else if negb (gsPlanningCompleted s) then Some (worker "implementation is unavailable because planning did not complete") else None.

Definition RunContinuationTurn_phase (s : GenerationSession) : turn_phase :=
  match gsPendingReview s ≫= λ y, yield_at y s with
  | Some r => if bool_decide (yOutcome r = OutcomeNone) then Continuation else yPhase r
  | None => Continuation
  end.

Inductive sequence_entry := SequenceClosed | SequenceRefused (err : error) | SequenceOwner (done : chan).

Definition runPlanningSequence_enter (s : GenerationSession) : sequence_entry * GenerationSession :=
  if gsClosed s then (SequenceClosed, s)
  else if gsInitialActive s then (SequenceRefused (worker "initial planning sequence is already active"), s)
  else if gsPlanningCompleted s then (SequenceRefused (worker "planning has already completed"), s)
  else
    let '(done, s) := make_chan (set_planningRetry false (set_initialActive true s)) in
    (SequenceOwner done, set_stopBefore false (set_initialDone done s)).

Definition runPlanningSequence_planned (s : GenerationSession) : bool * GenerationSession :=
  (gsStopBefore s, set_planningRetry false (set_planningCompleted true s)).

Definition runPlanningSequence_leave (done : chan) (s : GenerationSession) : GenerationSession :=
  if bool_decide (gsInitialDone s = done) then close_chan done (set_initialActive false s) else s.

(** ** Reviews *)

Definition reviewContinuationPrompt (r : reviewYield) : bytes :=
  bs "Your prior turn yielded at the requested independent review boundary and is now fully quiescent. " ++
  bs "Continue naturally in this same thread. Treat the following as the exact trusted review result for call " ++
  yCall r ++ bs "; it is advisory, not an approval gate or operator instruction." ++ [x0a; x0a] ++
  bs "Review outcome: " ++ outcome_text (yOutcome r) ++ [x0a; x0a] ++ yResult r.

#[global] Arguments reviewContinuationPrompt : simpl never.

Definition resumeYield (y : nat) (s : GenerationSession) : GenerationSession :=
  set_yieldState ReviewYieldResuming (set_activeResume (Some y) (set_pendingReview None s)).

(** The yield to resume and the prompt of the first turn. *)
Definition runReviewableTurn_enter (prompt : bytes) (ph : turn_phase) (s : GenerationSession) : bytes * option nat * GenerationSession :=
  match gsPendingReview s ≫= λ y, r ← yield_at y s; Some (y, r) with
  | Some (y, r) =>
      if bool_decide (yPhase r = ph) && negb (bool_decide (yOutcome r = OutcomeNone)) then
        (reviewContinuationPrompt r, Some y, set_reviewPause false (resumeYield y s))
      else (prompt, None, set_reviewPause false s)
  | None => (prompt, None, set_reviewPause false s)
  end.

(** After a turn: the pending yield, and whether it is the one to resume and was
    not started. *)
Definition runReviewableTurn_settle (resume : option nat) (s : GenerationSession) : option nat * bool * GenerationSession :=
  let s := if bool_decide (gsActiveResume s = resume) then set_activeResume None s else s in
  let pending := gsPendingReview s in
  let notStarted := match resume with
                    | Some y => bool_decide (pending = Some y) && negb (from_option yStarted false (yield_at y s))
                    | None => false
                    end in
  let s := match pending, gsActiveResume s with None, None => set_yieldState ReviewYieldIdle s | _, _ => s end in
  (pending, notStarted, s).

Definition runReviewableTurn_resume (pending : nat) (s : GenerationSession) : bool * bool * GenerationSession :=
  let paused := gsReviewPause s || gsStopBefore s || gsClosed s in
  if negb paused && bool_decide (gsPendingReview s = Some pending) then (paused, true, resumeYield pending s) else (paused, false, s).

Definition completeReviewYield_enter (y : nat) (s : GenerationSession) : result (chan * bool) * GenerationSession :=
  if negb (bool_decide (gsPendingReview s = Some y)) then (Err (worker "review yield identity changed before review"), s)
  else if negb (gsRunCtx s) then (Err (worker "review lifecycle context is unavailable"), s)
  else
    let '(done, s) := match gsReviewDone s with
                      | Some c => (c, s)
                      | None => let '(c, s) := make_chan s in (c, set_reviewDone (Some c) s)
                      end in
    (Ok (done, gsReviewPause s || gsClosed s), set_yieldState ReviewYieldAwaitingReview s).

Definition completeReviewYield_settle (y : nat) (o : yield_outcome) (result : bytes) (s : GenerationSession) : GenerationSession :=
  if bool_decide (gsPendingReview s = Some y) then
    set_yieldState (if bool_decide (o = OutcomeCompleted) then ReviewYieldAwaitingContinuation else ReviewYieldFailed)
      (update_yield (with_outcome result o) y s)
  else s.

Definition completeReviewYield_leave (done : chan) (s : GenerationSession) : GenerationSession :=
  if bool_decide (gsReviewDone s = Some done) then set_reviewDone None s else s.

(** The last section of [beginReviewYield]. *)
Definition beginReviewYield_publish (r : reviewYield) (s : GenerationSession) : option error * GenerationSession :=
  match gsPendingReview s with
  | Some _ => (Some (PlainError (txt "another review yield is already pending")), s)
  | None =>
      let y := length (gsYields s) in
      let '(done, s) := make_chan (set_yieldState ReviewYieldStoppingOrigin (set_pendingReview (Some y) (set_yields (gsYields s ++ [r]) s))) in
      (None, set_acceptingTools false (set_reviewDone (Some done) s))
  end.

(** ** The exit interview *)

Definition RetainForExitInterview (a : answer) (s : GenerationSession) : result unit * GenerationSession :=
  if negb (gsHealthy s) || negb (gsStarted s) then (Err (worker "Codex generation session is unusable"), s)
  else if negb (bool_decide (gsMode s = GenerationMode)) then (Err (worker "Codex session is not completing a generation"), s)
  else if negb (bool_decide (gsTurn s = [])) || gsTurnStarting s || gsInitialActive s || negb (gsActiveTools s =? 0) then
    (Err (worker "Codex generation turn is still active"), s)
  else if negb (anGate a) then (Err (worker "completed generation is not frozen at its gate"), s)
  else (Ok (), set_mode GenerationModeRetainedAtGate (set_gateRetained true s)).

Definition BeginExitInterview (a : answer) (s : GenerationSession) : result unit * GenerationSession :=
  if negb (gsHealthy s) || gsInterviewEnding s || negb (bool_decide (gsMode s = GenerationModeRetainedAtGate)) then
    (Err (worker "no retained Codex session is available"), s)
  else if gsInterviewStarted s then (Err (worker "exit interview is already active"), s)
  else if negb (gsGateRetained s) || negb (anGate a) then (Err (worker "completed generation is not frozen at its gate"), s)
  else (Ok (), set_transcript true (set_interviewStarted true s)).

Definition RunExitInterviewTurn_enter (a : answer) (s : GenerationSession) : result chan * GenerationSession :=
  if negb (gsInterviewStarted s) then (Err (worker "exit interview has not been started"), s)
  else if negb (gsHealthy s) || gsInterviewEnding s || negb (bool_decide (gsMode s = GenerationModeRetainedAtGate)) then
    (Err (worker "exit interview session is unavailable"), s)
  else if negb (gsGateRetained s) || negb (anGate a) then (Err (worker "completed generation is not frozen at its gate"), s)
  else
    let '(adm, s) := make_chan (set_interviewPending true (set_mode GenerationModeInterviewTurn s)) in
    (Ok adm, set_interviewNumber (wrap64 (gsInterviewNumber s + 1)) (set_admissionDone (Some adm) s)).

Definition RunExitInterviewTurn_leave (adm : chan) (s : GenerationSession) : GenerationSession :=
  let s := finishInterviewAdmissionLocked (Some adm) s in
  if bool_decide (gsMode s = GenerationModeInterviewTurn) && gsHealthy s then set_mode GenerationModeRetainedAtGate s else s.

Definition EndExitInterview_enter (s : GenerationSession) : option error * GenerationSession :=
  if negb (gsInterviewStarted s) then (Some (worker "exit interview is not active"), s)
  else if gsInterviewPending s || negb (bool_decide (gsTurn s = [])) || gsTurnStarting s then
    (Some (worker "exit interview turn is still active"), s)
  else (None, set_interviewEnding true (set_interviewStarted false s)).

(** ** Pause and close *)

Definition InterruptTurn_request (s : GenerationSession) : ReviewYieldState * GenerationSession :=
  (gsYieldState s,
   if bool_decide (gsYieldState s = ReviewYieldIdle) then s
   else let s := set_reviewPause true s in if gsInitialActive s then set_stopBefore true s else s).

(** [recordExitInterviewEnded] *)
Definition recordExitInterviewEnded (s : GenerationSession) : GenerationSession :=
  if gsInterviewStarted s then set_interviewStarted false s else s.

(** The channels the close waits for. *)
Record closing := mkClosing {
  clTurnDone : chan; clToolIdle : chan; clReviewDone : option chan; clInitialDone : chan; clStartDone : option chan
}.

Definition Close_enter (s : GenerationSession) : (option chan + closing) * GenerationSession :=
  if gsClosed s then (inl (gsCloseDone s), s)
  else
    let cl := mkClosing (gsTurnDone s) (gsToolIdle s) (gsReviewDone s) (gsInitialDone s) (gsStartDone s) in
    let '(c, s) := make_chan (set_closed true s) in
    let s := set_stopBefore true (set_mode GenerationModeClosed (set_healthy false (set_closeDone (Some c) s))) in
    let s := set_server false (closeGenerationChannel (gsTurnReady s) s) in
    let s := finishInterviewAdmissionLocked (gsAdmissionDone s) (set_turnReady None s) in
    (inr cl, set_started false (set_thread [] (set_gateRetained false s))).

Definition Close_clear (s : GenerationSession) : GenerationSession :=
  let s := set_acceptingTools false (set_turnStarting false (set_lastStatus StatusNone (set_phase None (set_turn [] s)))) in
  let s := set_toolIdle O (set_turnDone O (set_initialDone O (set_runCtx false (set_initialActive false (set_turnReady None s))))) in
  set_reviewDone None (set_yieldState ReviewYieldIdle (set_activeResume None (set_pendingReview None s))).

Definition Close_done (s : GenerationSession) : GenerationSession := closeGenerationChannel (gsCloseDone s) s.
