(* ===== verification/Session.v ===== *)
(** * The goroutines of a session (src/internal/agent: generation.go, review_yield.go)

    Every exported call, tool callback and observer of a session is a goroutine; its
    program counter says which critical section or call comes next and holds its
    local variables. [thread_step] runs one of them up to the next point where
    another may run; a goroutine that waits for a channel has no step until the
    channel is closed or a timer fires. *)

From S2P Require Import Prelude GoStd Json FeatureStore ArchiveRecord JsonTree Planning CodexApp AgentTools SessionState.
Open Scope Z_scope.

Record GenerationResult := mkResult { grStatus : turn_status; grMessage : bytes }.
Definition interruptedResult : GenerationResult := mkResult StatusInterrupted [].

(** The part of a turn's variables that is known once it is admitted. *)
Record admitted := mkAdmitted { adThread : bytes; adTurn : bytes }.

(** What [waitForTurn] returned: [wDelivery] when a planning call was not delivered. *)
Record waited := mkWaited { wStatus : turn_status; wMessage : bytes; wPresent : bool; wDelivery : bool; wErr : option error }.

(** The state a callback read when it entered. *)
Record seen := mkSeen { seServer : bool; seThread : bytes; seTurn : bytes; sePhase : option turn_phase; seInterview : bool }.

(** What a pause captured. *)
Record captured := mkCaptured {
  caState : ReviewYieldState; caServer : bool; caThread : bytes; caTurn : bytes; caInitial : bool; caInitialDone : chan;
  caStarting : bool; caTurnDone : chan; caToolIdle : chan; caReviewDone : option chan
}.

Inductive after_start := ThenReturn | ThenInitial | ThenTurn (c : turnCall).

Inductive pc :=
| Finished (res : result GenerationResult)
| Panicked
(* Start *)
| StartEnter (k : after_start)
| StartWait (done : option chan) (k : after_start)
| StartChecks (k : after_start)
| StartTools (generation : Z) (k : after_start)
| StartLaunch (generation : Z) (k : after_start)
| StartServing (generation : Z) (k : after_start)
| StartUnhealthy (err : error) (k : after_start)
| StartCommit (thread : bytes) (generation : Z) (k : after_start)
| StartFinish (err : option error) (k : after_start)
(* RunInitialTurn *)
| InitialEnter
| InitialIdentity
| InitialBegin (generation : Z)
| InitialPublish
| InitialPrompt
| InitialUnhealthy (err : error) (evidence : bool)
| InitialFail (err : error)
(* RunPlanningContinuationTurn, RunContinuationTurn *)
| PlanningContinuationCheck (prompt : bytes)
| ContinuationCheck (prompt : bytes)
| ContinuationPhase (prompt : bytes)
(* runPlanningSequence *)
| SequenceEnter (prompt : bytes)
| SequenceFail
| SequenceAfter (done : chan) (res : result GenerationResult)
| SequencePlanned (done : chan) (r : GenerationResult)
| SequenceRecheck (done : chan) (r : GenerationResult)
| SequenceLeave (done : chan) (res : result GenerationResult)
(* runReviewableTurn, completeReviewYield *)
| ReviewEnter (k : caller) (prompt : bytes) (ph : turn_phase)
| ReviewSettle (c : turnCall) (res : result GenerationResult)
| ReviewResume (c : turnCall) (y : nat) (r : GenerationResult)
| CompleteEnter (c : turnCall) (y : nat) (res : result GenerationResult)
| CompleteCapture (c : turnCall) (y : nat) (res : result GenerationResult) (done : chan) (paused : bool)
| CompleteReviewing (c : turnCall) (y : nat) (res : result GenerationResult) (done : chan)
| CompleteReview (c : turnCall) (y : nat) (res : result GenerationResult) (done : chan)
| CompleteSettle (c : turnCall) (y : nat) (res : result GenerationResult) (done : chan) (o : yield_outcome) (text : bytes)
| CompleteClose (c : turnCall) (y : nat) (res : result GenerationResult) (done : chan)
| CompleteLeave (c : turnCall) (y : nat) (res : result GenerationResult) (done : chan)
| CompleteFailed (c : turnCall) (res : result GenerationResult) (err : error)
(* runTurnWithInterview *)
| TurnBelongs (c : turnCall)
| TurnForeign (c : turnCall)
| TurnFailBefore (c : turnCall) (err : error)
| TurnReserve (c : turnCall)
| TurnSend (c : turnCall) (ready : chan) (thread : bytes)
| TurnAnswer (c : turnCall) (ready : chan) (thread : bytes)
| TurnRefused (c : turnCall) (ready : chan) (err : error)
| TurnPublish (c : turnCall) (ready : chan) (ad : admitted)
| TurnStarted (c : turnCall) (ad : admitted)
| TurnTranscript (c : turnCall) (ad : admitted)
| TurnContinue (c : turnCall) (ad : admitted)
| TurnWait (c : turnCall) (ad : admitted)
| TurnQuiesce (c : turnCall) (ad : admitted) (w : waited)
| TurnJoin (c : turnCall) (ad : admitted) (w : waited) (idle : chan)
| TurnRetry (c : turnCall) (ad : admitted) (w : waited)
| TurnRetryMark (c : turnCall)
| TurnWaitFailed (c : turnCall) (w : waited) (err : error)
| TurnYield (c : turnCall) (ad : admitted) (w : waited)
| TurnComplete (c : turnCall) (ad : admitted) (w : waited) (yielded : option nat)
| TurnInterviewed (c : turnCall) (ad : admitted) (w : waited)
| TurnFinish (c : turnCall) (w : waited) (yielded : option nat)
| TurnFinishReview (c : turnCall) (w : waited) (yielded : option nat)
| TurnFail (c : turnCall) (err : error) (evidence unhealthy : bool)
| TurnUnhealthy (c : turnCall) (err : error) (unhealthy : bool)
| TurnClear (c : turnCall) (status : turn_status) (res : result GenerationResult)
| TurnDone (c : turnCall) (done : chan) (res : result GenerationResult)
(* the exit interview *)
| RetainEnter
| InterviewBegin
| InterviewEnter (question : bytes)
| InterviewLeave (adm : chan) (res : result GenerationResult)
| InterviewEnd
(* InterruptTurn *)
| InterruptRequest
| InterruptObserve (st : ReviewYieldState)
| InterruptAdmission (st : ReviewYieldState) (adm : option chan)
| InterruptDecide (ca : captured)
| InterruptWaits (l : list (option chan))
| InterruptServer (ca : captured)
| InterruptTurnDone (ca : captured)
| InterruptStatus (ca : captured)
| InterruptRetire
(* Cancel, Close *)
| CancelEnter
| CloseBegin
| CloseEnter
| CloseJoin (done : option chan)
| CloseRelease (cl : closing)
| CloseReleasing (n : nat) (cl : closing)
| CloseWaits (l : list (option chan))
| CloseFail
| CloseClear
| CloseDone
(* tool callbacks: the observer and the handler of a server request *)
| ObserverEnter (params : option jvalue)
| ObserverReady (params : option jvalue) (ready : chan)
| ObserverRoute (params : option jvalue) (se : seen)
| HandlerEnter (params : option jvalue)
| HandlerReady (params : option jvalue) (ready : chan)
| HandlerRoute (params : option jvalue) (se : seen)
| HandlerAdmit (params : option jvalue) (routing : nat) (se : seen)
| HandlerRun (params : option jvalue) (routing : nat) (se : seen)
| HandlerFinish
| BeginCheck (params : option jvalue) (routing : nat) (se : seen) (handler : bool)
| BeginPublish (r : reviewYield) (handler : bool).

Definition failedR (err : error) : result GenerationResult := Err err.
Definition returned (err : option error) : result GenerationResult :=
  match err with None => Ok (mkResult StatusNone []) | Some err => Err err end.

Definition then_start (k : after_start) (err : option error) : pc :=
  match k, err with
  | ThenReturn, _ => Finished (returned err)
  | ThenInitial, Some err => Finished (Err err)
  | ThenInitial, None => InitialIdentity
  | ThenTurn c, Some err => TurnFailBefore c err
  | ThenTurn c, None => TurnBelongs c
  end.

(** Where a turn, and a reviewable turn, returns to. *)
Definition return_turn (c : turnCall) (res : result GenerationResult) : pc :=
  match tcCaller c with ByInterview adm => InterviewLeave adm res | _ => ReviewSettle c res end.
Definition return_review (k : caller) (res : result GenerationResult) : pc :=
  match k with
  | BySequence done => SequenceAfter done res
  | ByImplementation done => SequenceLeave done res
  | ByContinuation | ByInterview _ => Finished res
  end.

Definition implementationPrompt : bytes :=
  bs "The planning phase is complete. Continue in this same session with ordinary implementation work. The preceding plan remains available in the conversation context; use your own judgment and revise it whenever appropriate.".
Definition exitInterviewPrompt (question : bytes) : bytes :=
  bs "The CodexOS generation has already completed and its exact successor " ++ bs "and handoff are frozen." ++ [x0a; x0a] ++
  bs "You are now in a read-only exit interview. Answer the human operator's " ++
  bs "retrospective question about the generation you just performed." ++ [x0a; x0a] ++
  bs "You cannot modify the generation, successor, handoff, feature requests, " ++
  bs "or future generations. Do not attempt development work." ++ [x0a; x0a] ++ bs "Operator question:" ++ [x0a] ++ question.

#[global] Arguments implementationPrompt : simpl never.
#[global] Arguments exitInterviewPrompt : simpl never.

Definition is_planning (c : turnCall) : bool := bool_decide (tcPhase c = Planning).

Definition turn_error (err : error) : waited := mkWaited StatusNone [] false false (Some err).

Definition statusOf (v : option jvalue) : option turn_status :=
  if is_string v (bs "completed") then Some StatusCompleted
  else if is_string v (bs "interrupted") then Some StatusInterrupted
  else if is_string v (bs "failed") then Some StatusFailed else None.

(** The text of a completed agent message. *)
Definition agentMessage (message : jvalue) : option bytes :=
  match get "params" message ≫= get "item" with
  | Some item => if is_string (get "type" item) (bs "agentMessage") then get_string "text" item else None
  | None => None
  end.

(** The end of a turn: [unresolved] of its calls were not delivered. *)
Definition completedTurn (ph : turn_phase) (unresolved : nat) (last : option bytes) (st : turn_status) (turn : jvalue) : waited :=
  if bool_decide (st = StatusCompleted) && bool_decide (ph = Planning) && negb (Nat.eqb unresolved 0) then mkWaited st [] false true None
  else if bool_decide (st = StatusFailed) then
    mkWaited st [] false false
      (Some (GenerationWorkerError (txt "Codex turn failed: " ++ [Lit (ShortJSON (default JNull (get "error" turn)))]) None))
  else
    let message := match finalAgentMessage turn with
                   | Some (_ :: _) as message => message
                   | message => match last with Some _ => last | None => message end
                   end in
    mkWaited st (default [] message) (match message with Some _ => true | None => false end) false None.

(** [waitForTurn] on the notifications it reads; [readErr]: reading the next one failed. *)
Fixpoint waitForTurn (threadID turnID : bytes) (ph : turn_phase) (unresolved : nat) (readErr : option error) (last : option bytes)
  (l : list jvalue) : waited :=
  match l with
  | [] => turn_error (generationError (default (worker "Codex app-server is not running") readErr))
  | message :: l =>
      if is_string (get "method" message) (bs "item/completed") then
        waitForTurn threadID turnID ph unresolved readErr (match agentMessage message with Some t => Some t | None => last end) l
      else if negb (is_string (get "method" message) (bs "turn/completed")) then waitForTurn threadID turnID ph unresolved readErr last l
      else match ObjectValue (get "params" message) (txt "turn/completed notification") with
      | Err err => turn_error (generationError err)
      | Ok values =>
          if negb (is_string (get "threadId" values) threadID) then turn_error (worker "turn/completed has the wrong thread ID")
          else match ObjectValue (get "turn" values) (txt "completed turn") with
          | Err err => turn_error (generationError err)
          | Ok turn =>
              if negb (is_string (get "id" turn) turnID) then turn_error (worker "turn/completed has the wrong turn ID")
              else match statusOf (get "status" turn) with
              | None => turn_error (worker "turn/completed has invalid status")
              | Some st => completedTurn ph unresolved last st turn
              end
          end
      end
  end.
Definition waitResult (ad : admitted) (ph : turn_phase) (a : answer) : waited :=
  waitForTurn (adThread ad) (adTurn ad) ph (anCount a) (anErr a) None (anMessages a).

Definition quiesce_error : error := worker "Codex dynamic tool call did not quiesce after the turn ended".
Definition delivery_error : error := PlainError (txt "planning turn completed before its dynamic tool results were delivered").

(** A cancelled review is told apart from a failed one. *)
Definition failedReview (err : error) (cancelled : bool) (quote : bytes → bytes) (failed : string) (cancel : string) : yield_outcome * bytes :=
  if cancelled || match err with ContextError _ => true | _ => false end
  then (OutcomeCancelled, bs cancel ++ boundedGenerationError quote err)
  else (OutcomeFailed, bs failed ++ boundedGenerationError quote err).

Section Steps.
(** The rendering of bytes that are not text, and the harness identity of the run. *)
Context (quote : bytes → bytes) (harness : option jvalue).
Implicit Types (a : answer) (s : GenerationSession).

Definition start_step a (p : pc) s : option (pc * GenerationSession) :=
  match p with
  | StartEnter k =>
      match Start_enter s with
      | (StartDoneAlready, s) => Some (then_start k None, s)
      | (StartError err, s) => Some (then_start k (Some err), s)
      | (StartJoin done, s) => Some (StartWait done k, s)
      | (StartOwner, s) => Some (StartChecks k, s)
      end
  | StartWait done k =>
      match waitUntil done (anTimeout a) s with
      | Some true => Some (then_start k (Start_joined s), s)
      | Some false => Some (then_start k (Some (worker "Codex generation session start was cancelled")), s)
      | None => None
      end
  | StartChecks k =>
      Some (match Start_checks a s with Ok generation => StartTools generation k | Err err => StartFinish (Some err) k end, s)
  | StartTools generation k =>
      Some (match anErr a with
            | Some err => StartUnhealthy (GenerationWorkerError (txt "could not discover running guest tools") (Some err)) k
            | None => if match anNumber a with Some g => negb (g =? generation) | None => true end
                      then StartUnhealthy (worker "Codex generation session belongs to another generation") k
                      else StartLaunch generation k
            end, s)
  | StartLaunch generation k =>
      Some (if gsClosed s then StartFinish (Some (worker "Codex generation session is closed")) k else StartServing generation k, s)
  | StartServing generation k =>
      Some (match anErr a with
            | Some err => StartUnhealthy (generationError err) k
            | None => if anTimeout a then StartFinish (Some (worker "Codex generation session start was cancelled")) k
                      else StartCommit (anTurn a) generation k
            end, s)
  | StartUnhealthy err k => Some (StartFinish (Some err) k, markUnhealthy s)
  | StartCommit thread generation k => let '(err, s) := Start_publish thread generation s in Some (StartFinish err k, s)
  | StartFinish err k => Some (then_start k err, finishStart err s)
  | _ => None
  end.

Definition initial_step a (p : pc) s : option (pc * GenerationSession) :=
  match p with
  | InitialEnter =>
      match RunInitialTurn_enter s with
      | (Some err, s) => Some (Finished (Err err), s)
      | (None, s) => Some (StartEnter ThenInitial, s)
      end
  | InitialIdentity =>
      Some (match sessionGeneration (anNumber a) s with
            | None => InitialUnhealthy (worker "Codex planning session identity is unavailable") false
            | Some generation =>
                if negb (anPresent a) then InitialUnhealthy (worker "Codex planning evidence directory is unavailable") false
                else InitialBegin generation
            end, s)
  | InitialBegin generation =>
      match Begin generation (gsThread s) harness (anErr a) (anErr2 a) (anErr2 a) with
      | Err err => Some (InitialUnhealthy (generationError err) false, s)
      | Ok evidence => Some (InitialPublish, set_evidence (Some evidence) s)
      end
  | InitialPublish =>
      match RunInitialTurn_publish s with
      | (true, s) => Some (InitialPrompt, s)
      | (false, s) => Some (InitialFail (worker "Codex generation session is closed"), s)
      end
  | InitialPrompt => Some (match anErr a with Some err => InitialUnhealthy err true | None => SequenceEnter (anText a) end, s)
  | InitialUnhealthy err evidence => Some (if evidence then InitialFail err else Finished (Err err), markUnhealthy s)
  | InitialFail err =>
      let '(evidenceErr, s) := failPlanningEvidenceValue (anErr a) s in Some (Finished (Err (generationFailure err evidenceErr)), s)
  | PlanningContinuationCheck prompt =>
      Some (match RunPlanningContinuationTurn_check s with Some err => Finished (Err err) | None => SequenceEnter prompt end, s)
  | ContinuationCheck prompt =>
      Some (match RunContinuationTurn_check s with Some err => Finished (Err err) | None => ContinuationPhase prompt end, s)
  | ContinuationPhase prompt => Some (ReviewEnter ByContinuation prompt (RunContinuationTurn_phase s), s)
  | _ => None
  end.

Definition sequence_step a (p : pc) s : option (pc * GenerationSession) :=
  match p with
  | SequenceEnter prompt =>
      match runPlanningSequence_enter s with
      | (SequenceClosed, s) => Some (SequenceFail, s)
      | (SequenceRefused err, s) => Some (Finished (Err err), s)
      | (SequenceOwner done, s) => Some (ReviewEnter (BySequence done) prompt Planning, s)
      end
  | SequenceFail =>
      let '(evidenceErr, s) := failPlanningEvidence (anErr a) s in
      Some (Finished (Err (generationFailure (worker "Codex generation session is closed") evidenceErr)), s)
  | SequenceAfter done res =>
      Some (match res with
            | Ok r => if bool_decide (grStatus r = StatusCompleted) && anRunning a then SequencePlanned done r else SequenceLeave done res
            | Err _ => SequenceLeave done res
            end, s)
  | SequencePlanned done r =>
      let '(stop, s) := runPlanningSequence_planned s in
      Some (if stop then SequenceLeave done (Ok (mkResult StatusInterrupted (grMessage r))) else SequenceRecheck done r, s)
  | SequenceRecheck done r =>
      Some (if gsStopBefore s then SequenceLeave done (Ok (mkResult StatusInterrupted (grMessage r)))
            else ReviewEnter (ByImplementation done) implementationPrompt Implementation, s)
  | SequenceLeave done res => Some (Finished res, runPlanningSequence_leave done s)
  | _ => None
  end.

Definition review_step a (p : pc) s : option (pc * GenerationSession) :=
  match p with
  | ReviewEnter k prompt ph =>
      let '(prompt, resume, s) := runReviewableTurn_enter prompt ph s in
      Some (StartEnter (ThenTurn (mkCall k ph prompt resume)), s)
  | ReviewSettle c res =>
      let '(pending, notStarted, s) := runReviewableTurn_settle (tcResume c) s in
      Some (match res, pending with
            | Err _, Some y => if bool_decide (outcome_at y s = OutcomeNone) then CompleteEnter c y res else return_review (tcCaller c) res
            | Err _, None => return_review (tcCaller c) res
            | Ok r, None => return_review (tcCaller c) res
            | Ok r, Some y =>
                if notStarted || bool_decide (from_option yThread [] (yield_at y s) = []) then return_review (tcCaller c) res
                else if bool_decide (grStatus r = StatusInterrupted) || bool_decide (grStatus r = StatusCompleted) then CompleteEnter c y res
                else return_review (tcCaller c) (failedR (worker "review yield did not quiesce its originating turn"))
            end, s)
  | ReviewResume c y r =>
      match runReviewableTurn_resume y s with
      | (true, _, s) => Some (return_review (tcCaller c) (Ok (mkResult StatusInterrupted (grMessage r))), s)
      | (false, true, s) =>
          Some (StartEnter (ThenTurn (mkCall (tcCaller c) (tcPhase c) (from_option reviewContinuationPrompt [] (yield_at y s)) (Some y))), s)
      | (false, false, s) => Some (StartEnter (ThenTurn c), s)
      end
  | _ => None
  end.

Definition complete_step a (p : pc) s : option (pc * GenerationSession) :=
  match p with
  | CompleteEnter c y res =>
      match completeReviewYield_enter y s with
      | (Err err, s) => Some (CompleteFailed c res err, s)
      | (Ok (done, paused), s) => Some (CompleteCapture c y res done paused, s)
      end
  | CompleteCapture c y res done paused =>
      let origin := match res with Ok r => grStatus r | Err _ => StatusNone end in
      let err := match yield_at y s ≫= ySetupErr with
                 | Some err => Some err
                 | None =>
                     if negb (bool_decide (origin = StatusCompleted)) && negb (bool_decide (origin = StatusInterrupted)) then
                       Some (PlainError (txt "review origin did not quiesce with a supported status"))
                     else if paused then Some (ContextError (txt "context canceled"))
                     else match anErr a with Some err => Some err | None => anErr2 a end
                 end in
      Some (match err with
            | None => CompleteReviewing c y res done
            | Some err =>
                let '(o, text) := failedReview err (anTimeout a) quote
                  "The independent review failed before inspecting the stable source snapshot: "
                  "The independent review was cancelled before inspecting the stable source snapshot: " in
                CompleteSettle c y res done o text
            end, s)
  | CompleteReviewing c y res done => Some (CompleteReview c y res done, set_yieldState ReviewYieldReviewing s)
  | CompleteReview c y res done =>
      Some (match anErr a with
            | None => CompleteSettle c y res done OutcomeCompleted (anText a)
            | Some err =>
                let '(o, text) := failedReview err (anTimeout a) quote
                  "The independent review failed before producing findings: "
                  "The independent review was cancelled before producing findings: " in
                CompleteSettle c y res done o text
            end, s)
  | CompleteSettle c y res done o text => Some (CompleteClose c y res done, completeReviewYield_settle y o text s)
  | CompleteClose c y res done =>
      Some (if is_closed done s then (Panicked, s) else (CompleteLeave c y res done, close_chan done s))
  | CompleteLeave c y res done =>
      Some (match res with Ok r => ReviewResume c y r | Err _ => return_review (tcCaller c) res end, completeReviewYield_leave done s)
  | CompleteFailed c res err =>
      Some (return_review (tcCaller c)
              (Err (match res with Ok _ => err | Err first => PlainError (Error first ++ [Lit [x0a]] ++ Error err) end)), markUnhealthy s)
  | _ => None
  end.

(** [runTurnWithInterview] up to the admission of the turn. *)
Definition admission_step a (p : pc) s : option (pc * GenerationSession) :=
  match p with
  | TurnBelongs c => Some (if belongsToCurrentGeneration (anNumber a) s then TurnReserve c else TurnForeign c, s)
  | TurnForeign c =>
      Some (TurnFailBefore c (worker "Codex generation session belongs to another generation"), markUnhealthy s)
  | TurnFailBefore c err =>
      if is_planning c then
        let '(evidenceErr, s) := failPlanningEvidence (anErr a) s in Some (return_turn c (failedR (generationFailure err evidenceErr)), s)
      else Some (return_turn c (failedR (generationError err)), s)
  | TurnReserve c =>
      match reserveTurn c a s with
      | (SessionState.Refused err, s) => Some (TurnFailBefore c err, s)
      | (NotStarted, s) => Some (return_turn c (Ok interruptedResult), s)
      | (Reserved ready, s) => Some (TurnSend c ready (gsThread s), s)
      end
  | TurnSend c ready thread =>
      match (if is_interview c then None else anErr a) with
      | Some err => Some (TurnRefused c ready err, s)                   (* prepareOperatorRequests *)
      | None => Some (TurnAnswer c ready thread, sendTurn c s)
      end
  | TurnAnswer c ready thread =>
      Some (match anErr a with
            | Some err => TurnRefused c ready err
            | None => if bool_decide (anTurn a = []) then TurnRefused c ready (CodexError (txt "turn/start response is missing a turn ID") None)
                      else TurnPublish c ready (mkAdmitted thread (anTurn a))
            end, s)
  | TurnRefused c ready err =>
      match turnRefused c ready s with
      | (true, s) => Some (TurnClear c StatusInterrupted (Ok interruptedResult), s)
      | (false, s) => Some (TurnFail c (generationError err) (is_planning c) false, s)
      end
  | TurnPublish c ready ad =>
      let '(reserved, s) := publishTurn ready (adTurn ad) s in
      let gone := worker "Codex generation session closed while starting turn" in
      Some (if is_planning c then
              if negb (gsEvidenceSet s) then TurnUnhealthy c (worker "planning evidence is unavailable") true
              else if negb reserved then TurnFail c gone true false else TurnStarted c ad
            else if negb reserved then TurnClear c StatusFailed (failedR gone)
            else if is_interview c then
              if negb (gsTranscript s) then TurnUnhealthy c (worker "exit interview transcript is unavailable") true else TurnTranscript c ad
            else TurnContinue c ad, s)
  | TurnStarted c ad =>
      match recordPlanningStarted (adTurn ad) (anErr a) s with
      | (Err err, s) => Some (TurnFail c err true true, s)
      | (Ok _, s) => Some (TurnContinue c ad, s)
      end
  | TurnTranscript c ad => Some (match anErr a with Some err => TurnUnhealthy c (generationError err) true | None => TurnContinue c ad end, s)
  | TurnContinue c ad =>
      match tcResume c with
      | None => Some (TurnWait c ad, s)
      | Some y =>
          match beginContinuation y s with
          | (true, s) => Some (TurnWait c ad, s)
          | (false, s) => Some (TurnUnhealthy c (worker "review continuation was already started") true, s)
          end
      end
  | _ => None
  end.

(** [runTurnWithInterview] from the terminal notification on. *)
Definition turn_step a (p : pc) s : option (pc * GenerationSession) :=
  match p with
  | TurnWait c ad =>
      let w := waitResult ad (tcPhase c) a in
      Some (TurnQuiesce c ad w, if bool_decide (wStatus w = StatusNone) then s else set_lastStatus (wStatus w) s)
  | TurnQuiesce c ad w => Some (TurnJoin c ad w (gsToolIdle s), set_acceptingTools false s)
  | TurnJoin c ad w idle =>
      let next (joinErr : option error) :=
        if wDelivery w && match joinErr with None => true | _ => false end then TurnRetry c ad w
        else match (match wErr w with Some err => Some err | None => if wDelivery w then Some delivery_error else joinErr end) with
        | Some err => TurnWaitFailed c w err
        | None => if is_planning c then TurnYield c ad w else if is_interview c then TurnInterviewed c ad w else TurnFinish c w None
        end in
      if anTimeout a then Some (next (Some quiesce_error), s)
      else if is_closed idle s then Some (next None, s) else None
  | TurnRetry c ad w =>
      if negb (gsEvidenceSet s) then Some (TurnWaitFailed c w (worker "planning evidence is unavailable"), s)
      else match recordPlanningRetryableFailure (anErr a) s with
      | (Err err, s) => Some (TurnWaitFailed c w (generationFailure delivery_error (Some err)), s)
      | (Ok _, s) => Some (TurnRetryMark c, s)
      end
  | TurnRetryMark c =>
      Some (TurnClear c StatusFailed (Ok (mkResult StatusFailed [])), set_lastStatus StatusFailed (set_planningRetry true s))
  | TurnWaitFailed c w err =>
      Some (TurnFail c err (is_planning c) (is_planning c || negb (bool_decide (wStatus w = StatusFailed))), set_lastStatus StatusFailed s)
  | TurnYield c ad w =>
      Some (if negb (gsEvidenceSet s) then TurnUnhealthy c (worker "planning evidence is unavailable") true
            else TurnComplete c ad w (reviewYieldForTurn (adThread ad) (adTurn ad) (tcPhase c) s), s)
  | TurnComplete c ad w yielded =>
      let '(r, s) :=
        match yielded ≫= λ y, yield_at y s with
        | Some r => recordPlanningYielded (yProposal r) (anErr a) (anErr2 a) s
        | None => completePlanningEvidence (wStatus w) (if wPresent w then Some (wMessage w) else None) (anErr a) (anErr2 a) s
        end in
      Some (match r with Err err => TurnFail c err true true | Ok _ => TurnFinish c w yielded end, s)
  | TurnInterviewed c ad w =>
      Some (match anErr a with Some err => TurnUnhealthy c (generationError err) true | None => TurnFinish c w None end, s)
  | TurnFinish c w yielded =>
      Some (match tcResume c with
            | Some _ => TurnFinishReview c w yielded
            | None => TurnClear c (wStatus w) (Ok (mkResult (wStatus w) (wMessage w)))
            end, set_lastStatus (wStatus w) s)
  | TurnFinishReview c w yielded =>
      Some (TurnClear c (wStatus w) (Ok (mkResult (wStatus w) (wMessage w))),
            match tcResume c with Some y => update_yield (with_continuation true) y s | None => s end)
  | TurnFail c err evidence unhealthy =>
      let '(evidenceErr, s) := if evidence then failPlanningEvidence (anErr a) s else (None, s) in
      Some (TurnUnhealthy c (generationFailure err evidenceErr) unhealthy, s)
  | TurnUnhealthy c err unhealthy => Some (TurnClear c StatusFailed (failedR err), if unhealthy then markUnhealthy s else s)
  | TurnClear c status res => let '(done, s) := clearTurn status s in Some (TurnDone c done res, s)
  | TurnDone c done res => Some (return_turn c res, close_chan done s)
  | _ => None
  end.

Definition interview_step a (p : pc) s : option (pc * GenerationSession) :=
  match p with
  | RetainEnter => let '(r, s) := RetainForExitInterview a s in Some (Finished (_ ← r; Ok (mkResult StatusNone [])), s)
  | InterviewBegin => let '(r, s) := BeginExitInterview a s in Some (Finished (_ ← r; Ok (mkResult StatusNone [])), s)
  | InterviewEnter question =>
      if negb (utf8.Valid question) || forallb IsSpace (utf8.runes question) then
        Some (Finished (failedR (worker "exit interview question must not be empty")), s)
      else match RunExitInterviewTurn_enter a s with
      | (Err err, s) => Some (Finished (Err err), s)
      | (Ok adm, s) => Some (StartEnter (ThenTurn (mkCall (ByInterview adm) Interview (exitInterviewPrompt question) None)), s)
      end
  | InterviewLeave adm res => Some (Finished res, RunExitInterviewTurn_leave adm s)
  | InterviewEnd =>
      match EndExitInterview_enter s with
      | (Some err, s) => Some (Finished (Err err), s)
      | (None, s) => Some (CloseBegin, s)
      end
  | _ => None
  end.

Definition interrupt_step a (p : pc) s : option (pc * GenerationSession) :=
  match p with
  | InterruptRequest => let '(st, s) := InterruptTurn_request s in Some (InterruptObserve st, s)
  | InterruptObserve st =>
      Some (if gsInterviewPending s then InterruptAdmission st (gsAdmissionDone s)
            else InterruptDecide (mkCaptured st (gsServer s) (gsThread s) (gsTurn s) (gsInitialActive s) (gsInitialDone s) (gsTurnStarting s)
                   (gsTurnDone s) (gsToolIdle s) (gsReviewDone s)), s)
  | InterruptAdmission st adm =>
      match waitUntil adm (anTimeout a) s with
      | Some true => Some (InterruptObserve st, s)
      | Some false => Some (InterruptRetire, s)
      | None => None
      end
  | InterruptDecide ca =>
      if negb (bool_decide (caState ca = ReviewYieldIdle)) && negb (bool_decide (caState ca = ReviewYieldResuming)) then
        Some (InterruptWaits [Some (caTurnDone ca); Some (caToolIdle ca); caReviewDone ca], s)
      else if bool_decide (caTurn ca = []) && (caInitial ca || caStarting ca) then
        Some (InterruptWaits ((if caInitial ca then [Some (caInitialDone ca)] else []) ++ [Some (caTurnDone ca); Some (caToolIdle ca)]),
              if caInitial ca then set_stopBefore true s else s)
      else if negb (caServer ca) || bool_decide (caThread ca = []) || bool_decide (caTurn ca = []) then
        Some (Finished (failedR (worker "no Codex implementor turn is active")), s)
      else Some (InterruptServer ca, s)
  | InterruptWaits l =>
      match l with
      | [] => Some (Finished (returned None), s)
      | c :: l =>
          match waitUntil c (anTimeout a) s with
          | Some true => Some (InterruptWaits l, s)
          | Some false => Some (InterruptRetire, s)
          | None => None
          end
      end
  | InterruptServer ca => Some (match anErr a with Some _ => InterruptRetire | None => InterruptTurnDone ca end, s)
  | InterruptTurnDone ca =>
      match waitUntil (Some (caTurnDone ca)) (anTimeout a) s with
      | Some true => Some (InterruptStatus ca, s)
      | Some false => Some (InterruptRetire, s)
      | None => None
      end
  | InterruptStatus ca =>
      Some (if bool_decide (gsLastStatus s = StatusInterrupted) then InterruptWaits [Some (caToolIdle ca)] else InterruptRetire, s)
  | InterruptRetire => Some (CloseBegin, markUnhealthy s)
  | _ => None
  end.

Definition close_step a (p : pc) s : option (pc * GenerationSession) :=
  match p with
  | CancelEnter => Some (if gsClosed s then (Finished (returned None), s) else (CloseBegin, set_stopBefore true s))
  | CloseBegin => Some (CloseEnter, recordExitInterviewEnded s)
  | CloseEnter =>
      match Close_enter s with
      | (inl done, s) => Some (CloseJoin done, s)
      | (inr cl, s) => Some (CloseRelease cl, s)
      end
  | CloseJoin done => match waitUntil done (anTimeout a) s with Some _ => Some (Finished (returned None), s) | None => None end
  | CloseRelease cl => Some (CloseReleasing (anCount a) cl, s)
  | CloseReleasing (S n) cl => Some (CloseReleasing n cl, finishDynamicToolHandler s)
  | CloseReleasing O cl =>
      Some (CloseWaits [clStartDone cl; Some (clInitialDone cl); Some (clTurnDone cl); Some (clToolIdle cl); clReviewDone cl], s)
  | CloseWaits (c :: l) => match waitUntil c (anTimeout a) s with Some _ => Some (CloseWaits l, s) | None => None end
  | CloseWaits [] => Some (CloseFail, s)
  | CloseFail => let '(_, s) := failPlanningEvidence (anErr a) s in Some (CloseClear, s)
  | CloseClear => Some (CloseDone, Close_clear s)
  | CloseDone => Some (Finished (returned None), Close_done s)
  | _ => None
  end.

Definition look s : seen :=
  mkSeen (gsServer s) (gsThread s) (gsTurn s) (gsPhase s) (bool_decide (gsMode s = GenerationModeInterviewTurn)).
(** The reservation a callback waits for before it looks again. *)
Definition turn_awaited s : option chan := if bool_decide (gsTurn s = []) && gsTurnStarting s then gsTurnReady s else None.

Definition isReviewToolCall (params : option jvalue) : bool :=
  match params with
  | Some (JObject l) => is_string (get "tool" (JObject l)) (bs "review") && match namespaceOf (JObject l) with None => true | _ => false end
  | _ => false
  end.

Definition tool_step a (p : pc) s : option (pc * GenerationSession) :=
  match p with
  | ObserverEnter params => Some (match turn_awaited s with Some ready => ObserverReady params ready | None => ObserverRoute params (look s) end, s)
  | ObserverReady params ready => if is_closed ready s then Some (ObserverRoute params (look s), s) else None
  | ObserverRoute params se =>
      Some (if isReviewToolCall params && anPresent a then BeginCheck params (anCount a) se false else Finished (returned None),
            if anReserved a then registerHandler s else s)
  | HandlerEnter params => Some (match turn_awaited s with Some ready => HandlerReady params ready | None => HandlerRoute params (look s) end, s)
  | HandlerReady params ready => if is_closed ready s then Some (HandlerRoute params (look s), s) else None
  | HandlerRoute params se =>
      Some (if negb (anPresent a && anReserved a) then Finished (returned None)
            else if negb (seServer se) || bool_decide (seThread se = []) || bool_decide (seTurn se = []) then HandlerFinish
            else HandlerAdmit params (anCount a) se, s)
  | HandlerAdmit params routing se =>
      let admittedReview := isReviewToolCall params
        && match gsPendingReview s ≫= λ y, yield_at y s with Some r => Nat.eqb (yRouting r) routing | None => false end in
      Some (if gsClosed s || negb (gsAcceptingTools s) && negb admittedReview || negb (gsServer s)
               || negb (bool_decide (gsThread s = seThread se)) || negb (bool_decide (gsTurn s = seTurn se))
               || negb admittedReview && negb (anPresent a)                                              (* mayWrite *)
            then HandlerFinish else HandlerRun params routing se, s)
  | HandlerRun params routing se =>
      Some (if negb (seInterview se) && isReviewToolCall params then
              match sePhase se with
              | Some ph => match reviewYieldForTurn (seThread se) (seTurn se) ph s with
                           | Some _ => HandlerFinish
                           | None => BeginCheck params routing se true
                           end
              | None => HandlerFinish
              end
            else HandlerFinish, s)
  | HandlerFinish => Some (Finished (returned None), finishDynamicToolHandler s)
  | BeginCheck params routing se handler =>
      let back := if handler then HandlerFinish else Finished (returned None) in
      Some (match gsPendingReview s, reviewArguments params (seThread se) (seTurn se), sePhase se with
            | None, Ok (_, _, proposal), Some ph =>
                BeginPublish (mkYield routing (anErr a) proposal ph (seThread se) (seTurn se) (anText a) [] OutcomeNone false false) handler
            | _, _, _ => back
            end, s)
  | BeginPublish r handler =>
      let '(_, s) := beginReviewYield_publish r s in Some (if handler then HandlerFinish else Finished (returned None), s)
  | _ => None
  end.

(** The program counters belong to one function each. *)
Definition thread_step a (p : pc) s : option (pc * GenerationSession) :=
  match p with
  | Finished _ | Panicked => None
  | StartEnter _ | StartWait _ _ | StartChecks _ | StartTools _ _ | StartLaunch _ _ | StartServing _ _ | StartUnhealthy _ _
  | StartCommit _ _ _ | StartFinish _ _ => start_step a p s
  | InitialEnter | InitialIdentity | InitialBegin _ | InitialPublish | InitialPrompt | InitialUnhealthy _ _ | InitialFail _
  | PlanningContinuationCheck _ | ContinuationCheck _ | ContinuationPhase _ => initial_step a p s
  | SequenceEnter _ | SequenceFail | SequenceAfter _ _ | SequencePlanned _ _ | SequenceRecheck _ _ | SequenceLeave _ _ => sequence_step a p s
  | ReviewEnter _ _ _ | ReviewSettle _ _ | ReviewResume _ _ _ => review_step a p s
  | CompleteEnter _ _ _ | CompleteCapture _ _ _ _ _ | CompleteReviewing _ _ _ _ | CompleteReview _ _ _ _ | CompleteSettle _ _ _ _ _ _
  | CompleteClose _ _ _ _ | CompleteLeave _ _ _ _ | CompleteFailed _ _ _ => complete_step a p s
  | TurnBelongs _ | TurnForeign _ | TurnFailBefore _ _ | TurnReserve _ | TurnSend _ _ _ | TurnAnswer _ _ _ | TurnRefused _ _ _
  | TurnPublish _ _ _ | TurnStarted _ _ | TurnTranscript _ _ | TurnContinue _ _ => admission_step a p s
  | TurnWait _ _ | TurnQuiesce _ _ _ | TurnJoin _ _ _ _ | TurnRetry _ _ _ | TurnRetryMark _ | TurnWaitFailed _ _ _ | TurnYield _ _ _
  | TurnComplete _ _ _ _ | TurnInterviewed _ _ _ | TurnFinish _ _ _ | TurnFinishReview _ _ _ | TurnFail _ _ _ _ | TurnUnhealthy _ _ _
  | TurnClear _ _ _ | TurnDone _ _ _ => turn_step a p s
  | RetainEnter | InterviewBegin | InterviewEnter _ | InterviewLeave _ _ | InterviewEnd => interview_step a p s
  | InterruptRequest | InterruptObserve _ | InterruptAdmission _ _ | InterruptDecide _ | InterruptWaits _ | InterruptServer _
  | InterruptTurnDone _ | InterruptStatus _ | InterruptRetire => interrupt_step a p s
  | CancelEnter | CloseBegin | CloseEnter | CloseJoin _ | CloseRelease _ | CloseReleasing _ _ | CloseWaits _ | CloseFail | CloseClear
  | CloseDone => close_step a p s
  | _ => tool_step a p s
  end.

(** What another part of the harness may begin. *)
Definition entry (p : pc) : bool :=
  match p with
  | StartEnter ThenReturn | InitialEnter | PlanningContinuationCheck _ | ContinuationCheck _ | RetainEnter | InterviewBegin
  | InterviewEnter _ | InterviewEnd | InterruptRequest | CancelEnter | CloseBegin | ObserverEnter _ | HandlerEnter _ => true
  | _ => false
  end.

(** A session with the goroutines that run on it. *)
Record system := mkSystem { syThreads : list pc; sySession : GenerationSession }.

(** A goroutine begins, or number [i] takes a step. *)
Inductive action := Spawn (p : pc) | Run (i : nat) (a : answer).

Definition system_step (act : action) (sy : system) : option system :=
  match act with
  | Spawn p => if entry p then Some (mkSystem (syThreads sy ++ [p]) (sySession sy)) else None
  | Run i a =>
      p ← syThreads sy !! i;
      r ← thread_step a p (sySession sy);
      Some (mkSystem (<[i := r.1]> (syThreads sy)) r.2)
  end.

Fixpoint run (l : list action) (sy : system) : option system :=
  match l with [] => Some sy | act :: l => sy ← system_step act sy; run l sy end.
End Steps.

Definition initial_system : system := mkSystem [] NewGenerationSession.
