(* ===== verification/SessionInv.v ===== *)
(** * The invariant of a session

    Rely and guarantee: [guarantee] is what any goroutine's step does to the state
    the others depend on, [thread_ok] what a goroutine may assume at its program
    counter, and [system_inv] says that every goroutine's assumptions hold and that
    at most one is in a turn, in a planning sequence, and before the evidence. *)

From S2P Require Import Prelude GoStd Json FeatureStore ArchiveRecord JsonTree Planning PlanningProofs CodexApp AgentTools SessionState Session.
Open Scope Z_scope.

(** ** Where a goroutine is *)

Definition call_of (p : pc) : option turnCall :=
  match p with
  | StartEnter (ThenTurn c) | StartWait _ (ThenTurn c) | StartChecks (ThenTurn c) | StartTools _ (ThenTurn c) | StartLaunch _ (ThenTurn c)
  | StartServing _ (ThenTurn c) | StartUnhealthy _ (ThenTurn c) | StartCommit _ _ (ThenTurn c) | StartFinish _ (ThenTurn c)
  | ReviewSettle c _ | ReviewResume c _ _ | CompleteEnter c _ _ | CompleteCapture c _ _ _ _ | CompleteReviewing c _ _ _
  | CompleteReview c _ _ _ | CompleteSettle c _ _ _ _ _ | CompleteClose c _ _ _ | CompleteLeave c _ _ _ | CompleteFailed c _ _
  | TurnBelongs c | TurnForeign c | TurnFailBefore c _ | TurnReserve c | TurnSend c _ _ | TurnAnswer c _ _ | TurnRefused c _ _
  | TurnPublish c _ _ | TurnStarted c _ | TurnTranscript c _ | TurnContinue c _ | TurnWait c _ | TurnQuiesce c _ _ | TurnJoin c _ _ _
  | TurnRetry c _ _ | TurnRetryMark c | TurnWaitFailed c _ _ | TurnYield c _ _ | TurnComplete c _ _ _ | TurnInterviewed c _ _
  | TurnFinish c _ _ | TurnFinishReview c _ _ | TurnFail c _ _ _ | TurnUnhealthy c _ _ | TurnClear c _ _ | TurnDone c _ _ => Some c
  | _ => None
  end.

Definition caller_of (p : pc) : option caller :=
  match p with ReviewEnter k _ _ => Some k | _ => tcCaller <$> call_of p end.

(** Between the reservation of a turn and the section that clears it. *)
Definition in_turn (p : pc) : bool :=
  match p with
  | TurnSend _ _ _ | TurnAnswer _ _ _ | TurnRefused _ _ _ | TurnPublish _ _ _ | TurnStarted _ _ | TurnTranscript _ _ | TurnContinue _ _
  | TurnWait _ _ | TurnQuiesce _ _ _ | TurnJoin _ _ _ _ | TurnRetry _ _ _ | TurnRetryMark _ | TurnWaitFailed _ _ _ | TurnYield _ _ _
  | TurnComplete _ _ _ _ | TurnInterviewed _ _ _ | TurnFinish _ _ _ | TurnFinishReview _ _ _ | TurnFail _ _ _ _ | TurnUnhealthy _ _ _
  | TurnClear _ _ _ => true
  | _ => false
  end.

Definition in_planning (p : pc) : bool :=
  match p with
  | SequenceAfter _ _ | SequencePlanned _ _ => true
  | _ => match caller_of p with Some (BySequence _) => true | _ => false end
  end.

Definition after_planning (p : pc) : bool :=
  match p with
  | SequenceRecheck _ _ | ContinuationPhase _ => true
  | _ => match caller_of p with Some (ByImplementation _) | Some ByContinuation => true | _ => false end
  end.

Definition in_sequence (p : pc) : bool :=
  match p with
  | SequenceAfter _ _ | SequencePlanned _ _ | SequenceRecheck _ _ | SequenceLeave _ _ => true
  | _ => match caller_of p with Some (BySequence _) | Some (ByImplementation _) => true | _ => false end
  end.

(** In [RunInitialTurn], before the evidence exists. *)
Definition in_initial (p : pc) : bool :=
  match p with
  | StartEnter ThenInitial | StartWait _ ThenInitial | StartChecks ThenInitial | StartTools _ ThenInitial | StartLaunch _ ThenInitial
  | StartServing _ ThenInitial | StartUnhealthy _ ThenInitial | StartCommit _ _ ThenInitial | StartFinish _ ThenInitial
  | InitialIdentity | InitialBegin _ => true
  | _ => false
  end.

Definition closing_down (p : pc) : bool :=
  match p with CloseRelease _ | CloseReleasing _ _ | CloseWaits _ | CloseFail | CloseClear | CloseDone => true | _ => false end.

Definition generation_of (p : pc) : option Z :=
  match p with
  | StartTools g _ | StartLaunch g _ | StartServing g _ | StartCommit _ g _ | InitialBegin g => Some g
  | _ => None
  end.

Definition thread_of (p : pc) : option bytes :=
  match p with
  | TurnSend _ _ thread | TurnAnswer _ _ thread => Some thread
  | TurnPublish _ _ ad | TurnStarted _ ad | TurnTranscript _ ad | TurnContinue _ ad | TurnWait _ ad | TurnQuiesce _ ad _
  | TurnJoin _ ad _ _ | TurnRetry _ ad _ | TurnYield _ ad _ | TurnComplete _ ad _ _ | TurnInterviewed _ ad _ => Some (adThread ad)
  | _ => None
  end.

(** After [TurnContinue]: the resumed review has been marked as started. *)
Definition continued (p : pc) : bool :=
  match p with
  | TurnWait _ _ | TurnQuiesce _ _ _ | TurnJoin _ _ _ _ | TurnRetry _ _ _ | TurnYield _ _ _ | TurnComplete _ _ _ _ | TurnInterviewed _ _ _
  | TurnFinish _ _ _ | TurnFinishReview _ _ _ => true
  | _ => false
  end.

(** ** Facts about the state *)

Definition completed_evidence (s : GenerationSession) : Prop :=
  ∃ e, gsEvidence s = Some e ∧ plOutcome (peManifest e) = PlanCompleted.

Definition turn_open (s : GenerationSession) : Prop := gsClosed s = true ∨ gsTurnStarting s = true ∨ gsTurn s ≠ [].

Definition interview_request (rq : turnRequest) : Prop := rqPermission rq = interviewPermissionProfile.

Definition started_yield (y : nat) (s : GenerationSession) : Prop := ∃ r, gsYields s !! y = Some r ∧ yStarted r = true.

(** The yield [y] of this turn is pending, and is not the one being resumed. *)
Definition yield_pending (c : turnCall) (y : nat) (s : GenerationSession) : Prop :=
  ∃ r, gsPendingReview s = Some y ∧ gsYields s !! y = Some r ∧ yThread r ≠ [] ∧ (tcResume c = Some y → yStarted r = true).

(** What a planning turn that ended as completed leaves behind. *)
Definition planned (c : turnCall) (s : GenerationSession) : Prop :=
  completed_evidence s ∨ gsClosed s = true ∨ ∃ y, yield_pending c y s.

Definition completed_result (res : result GenerationResult) : Prop :=
  match res with Ok r => grStatus r = StatusCompleted | Err _ => False end.

Definition yielded_ok (c : turnCall) (w : waited) (yielded : option nat) (s : GenerationSession) : Prop :=
  match yielded with
  | Some y => gsClosed s = true ∨ yield_pending c y s
  | None => wStatus w = StatusCompleted → completed_evidence s
  end.

(** What a goroutine of a planning sequence knows about its plan. *)
Definition plan_known (p : pc) (s : GenerationSession) : Prop :=
  match p with
  | TurnComplete c ad w (Some y) => gsClosed s = true ∨ yield_pending c y s
  | TurnFinish c w yielded | TurnFinishReview c w yielded => yielded_ok c w yielded s
  | TurnClear c _ res | TurnDone c _ res | ReviewSettle c res => completed_result res → planned c s
  | SequenceAfter _ res => completed_result res → completed_evidence s ∨ gsClosed s = true
  | SequencePlanned _ _ => completed_evidence s ∨ gsClosed s = true
  | _ => True
  end.

Definition call_wf (c : turnCall) : Prop :=
  match tcCaller c with
  | BySequence _ => tcPhase c = Planning
  | ByImplementation _ => tcPhase c = Implementation
  | ByInterview _ => tcPhase c = Interview ∧ tcResume c = None
  | ByContinuation => True
  end.

Definition caller_wf (p : pc) : Prop :=
  match p with
  | ReviewEnter (BySequence _) _ ph => ph = Planning
  | ReviewEnter (ByImplementation _) _ ph => ph = Implementation
  | ReviewEnter (ByInterview _) _ _ => False
  | ReviewSettle c _ | ReviewResume c _ _ | CompleteEnter c _ _ | CompleteCapture c _ _ _ _ | CompleteReviewing c _ _ _
  | CompleteReview c _ _ _ | CompleteSettle c _ _ _ _ _ | CompleteClose c _ _ _ | CompleteLeave c _ _ _ | CompleteFailed c _ _ =>
      is_interview c = false
  | TurnInterviewed c _ _ => is_interview c = true
  | TurnPublish _ _ ad => adTurn ad ≠ []
  | _ => True
  end.

Record thread_ok (p : pc) (s : GenerationSession) : Prop := {
  ok_turn : in_turn p = true → turn_open s;
  ok_sequence : in_sequence p = true → gsInitialActive s = true ∨ gsClosed s = true;
  ok_planning : in_planning p = true → gsPlanningCompleted s = false;
  ok_after : after_planning p = true → gsPlanningCompleted s = true;
  ok_initial : in_initial p = true → gsInitialStarted s = true ∧ gsEvidence s = None;
  ok_closing : closing_down p = true → gsClosed s = true;
  ok_call : ∀ c, call_of p = Some c → call_wf c;
  ok_caller : caller_wf p;
  ok_mode : ∀ c, call_of p = Some c → is_interview c = true → gsMode s ≠ GenerationMode;
  ok_ordinary : ∀ c, call_of p = Some c → in_turn p = true → is_interview c = false → Forall (λ rq, ¬ interview_request rq) (gsSent s);
  ok_implementor : ∀ c, call_of p = Some c → in_turn p = true → permissionOf c = implementorPermissionProfile → completed_evidence s;
  ok_generation : ∀ g, generation_of p = Some g → u64 g;
  ok_thread : ∀ t, thread_of p = Some t → t ≠ [];
  ok_continued : ∀ c y, call_of p = Some c → continued p = true → tcResume c = Some y → started_yield y s;
  ok_plan : in_planning p = true → plan_known p s;
  ok_proposal : match p with BeginPublish r _ => len (yProposal r) < 2 ^ 63 ∧ yStarted r = false | TurnQuiesce _ _ w | TurnJoin _ _ w _ | TurnRetry _ _ w
                | TurnYield _ _ w | TurnComplete _ _ w _ | TurnInterviewed _ _ w => len (wMessage w) < 2 ^ 63 | _ => True end
}.

Definition permission_fits (rq : turnRequest) : Prop :=
  (rqPhase rq = Planning ↔ rqPermission rq = planningPermissionProfile).

Record state_inv (s : GenerationSession) : Prop := {
  si_server : gsClosed s = true → gsServer s = false;
  si_fresh : gsInitialStarted s = false → gsEvidence s = None;
  si_evidence : ∀ e, gsEvidence s = Some e → evidence_reachable e;
  si_planned : gsPlanningCompleted s = true → completed_evidence s ∨ gsClosed s = true;
  si_permission : Forall permission_fits (gsSent s);
  si_implementor : (∃ rq, rq ∈ gsSent s ∧ rqPermission rq = implementorPermissionProfile) → completed_evidence s;
  si_interview : (∃ rq, rq ∈ gsSent s ∧ interview_request rq) → gsMode s ≠ GenerationMode;
  si_last : ∀ l1 rq l2, gsSent s = l1 ++ rq :: l2 → interview_request rq → Forall interview_request l2;
  si_nodup : NoDup (gsContinued s);
  si_continued : ∀ y, y ∈ gsContinued s → started_yield y s;
  si_generation : ∀ g, gsGeneration s = Some g → u64 g;
  si_proposals : ∀ y r, gsYields s !! y = Some r → len (yProposal r) < 2 ^ 63
}.

Definition exclusive (P : pc → bool) (threads : list pc) : Prop :=
  ∀ i j p q, threads !! i = Some p → threads !! j = Some q → P p = true → P q = true → i = j.

Record system_inv (sy : system) : Prop := {
  in_state : state_inv (sySession sy);
  in_threads : ∀ i p, syThreads sy !! i = Some p → thread_ok p (sySession sy);
  in_one_turn : exclusive in_turn (syThreads sy);
  in_one_sequence : exclusive in_sequence (syThreads sy);
  in_one_initial : exclusive in_initial (syThreads sy)
}.

(** ** Case analysis of a step *)

Ltac unfold_sections := unfold Start_enter, Start_checks, Start_publish, finishStart, RunInitialTurn_enter, RunInitialTurn_publish,
  runPlanningSequence_enter, runPlanningSequence_planned, runPlanningSequence_leave, runReviewableTurn_enter, runReviewableTurn_settle,
  runReviewableTurn_resume, completeReviewYield_enter, completeReviewYield_settle, completeReviewYield_leave, beginReviewYield_publish,
  RetainForExitInterview, BeginExitInterview, RunExitInterviewTurn_enter, RunExitInterviewTurn_leave, EndExitInterview_enter,
  InterruptTurn_request, recordExitInterviewEnded, Close_enter, Close_clear, Close_done, reserveTurn, turnRefused, publishTurn,
  beginContinuation, awaitContinuation, clearTurn, finishDynamicToolHandler, registerHandler, failPlanningEvidence,
  failPlanningEvidenceValue, recordPlanningStarted, completePlanningEvidence, recordPlanningYielded, recordPlanningRetryableFailure,
  evidenceStep, markUnhealthy, sendTurn, resumeYield, closeGenerationChannel, finishInterviewAdmissionLocked, make_chan, update_yield in *.

Ltac split_step H :=
  repeat match type of H with
  | None = Some _ => discriminate H
  | context [match ?x with _ => _ end] =>
      lazymatch x with context [match _ with _ => _ end] => fail | _ => let E := fresh "E" in destruct x eqn:E end
  end; simplify_eq/=.

(** All the ways a step of the goroutine at [p] ends. *)
Ltac step_case H :=
  cbn [thread_step start_step initial_step sequence_step review_step complete_step admission_step turn_step interview_step
    interrupt_step close_step tool_step] in H; try discriminate H; unfold_sections; split_step H.
Ltac step_cases p H := destruct p; step_case H.

(** The program counters a step reaches, with the callers spelled out. *)
Ltac reached := unfold then_start, return_turn, return_review in *; repeat case_match; cbn in *; simplify_eq; try discriminate;
  repeat match goal with E : tcCaller ?c = _, H : context [tcCaller ?c] |- _ => lazymatch H with E => fail | _ => rewrite E in H end end;
  try discriminate; auto.

(** The assumptions of the goroutine, unfolded at its program counter. *)
Ltac know Hok :=
  pose proof (ok_turn _ _ Hok) as Htu; pose proof (ok_sequence _ _ Hok) as Hse; pose proof (ok_planning _ _ Hok) as Hpl;
  pose proof (ok_after _ _ Hok) as Haf; pose proof (ok_initial _ _ Hok) as Hin; pose proof (ok_closing _ _ Hok) as Hcl;
  pose proof (ok_call _ _ Hok) as Hcall; pose proof (ok_caller _ _ Hok) as Hwf; pose proof (ok_mode _ _ Hok) as Hmode;
  pose proof (ok_ordinary _ _ Hok) as Hord; pose proof (ok_implementor _ _ Hok) as Himp; pose proof (ok_generation _ _ Hok) as Hge;
  pose proof (ok_thread _ _ Hok) as Hth; pose proof (ok_continued _ _ Hok) as Hcont; pose proof (ok_plan _ _ Hok) as Hplan;
  pose proof (ok_proposal _ _ Hok) as Hpr;
  cbn in Htu, Hse, Hpl, Haf, Hin, Hcl, Hcall, Hwf, Hmode, Hord, Himp, Hge, Hth, Hcont, Hplan, Hpr.

Section Guarantee.
Context (quote : bytes → bytes) (harness : option jvalue).

(** Answers and lengths are within Go's integers. *)
Record bounded (a : answer) (s : GenerationSession) : Prop := {
  bo_messages : ∀ ad ph, len (wMessage (waitResult ad ph a)) < 2 ^ 63;
  bo_number : ∀ g, anNumber a = Some g → u64 g;
  bo_attempts : ∀ e, gsEvidence s = Some e → len (plAttempts (peManifest e)) + 1 < 2 ^ 63
}.

Record guarantee (p : pc) (s s' : GenerationSession) : Prop := {
  gu_closed : gsClosed s = true → gsClosed s' = true;
  gu_mode : gsMode s ≠ GenerationMode → gsMode s' ≠ GenerationMode;
  gu_completed : gsPlanningCompleted s = true → gsPlanningCompleted s' = true;
  gu_initial : gsInitialStarted s = true → gsInitialStarted s' = true;
  gu_turn : turn_open s → turn_open s' ∨ in_turn p = true;
  gu_active : gsInitialActive s = true → gsInitialActive s' = true ∨ gsClosed s' = true ∨ in_sequence p = true;
  gu_planned : gsPlanningCompleted s' = true → gsPlanningCompleted s = true ∨ in_planning p = true;
  gu_evidence : gsEvidence s' = gsEvidence s ∨ in_initial p = true ∨ gsEvidence s ≠ None;
  gu_sent : gsSent s' = gsSent s ∨ in_turn p = true;
  gu_pending : ∀ y, gsPendingReview s = Some y →
    gsPendingReview s' = Some y ∨ gsClosed s' = true ∨ in_sequence p = true ∨ after_planning p = true;
  gu_yields : ∀ y r, gsYields s !! y = Some r →
    ∃ r', gsYields s' !! y = Some r' ∧ yThread r' = yThread r ∧ (yStarted r = true → yStarted r' = true)
}.

Lemma alter_yield f (l : list reviewYield) y0 y r :
  (∀ r, yThread (f r) = yThread r) → (∀ r, yStarted r = true → yStarted (f r) = true) → l !! y = Some r →
  ∃ r', alter f y0 l !! y = Some r' ∧ yThread r' = yThread r ∧ (yStarted r = true → yStarted r' = true).
Proof.
  intros Ht Hs Hy. destruct (decide (y0 = y)) as [->|Hne].
  - rewrite list_lookup_alter_eq, Hy. exists (f r). auto.
  - rewrite list_lookup_alter_ne by done. by exists r.
Qed.

Lemma with_continuation_started b r : yStarted r = true → yStarted (with_continuation b r) = true.
Proof. cbn. intros ->. by destruct b. Qed.

(** A caller that may resume a review is in a sequence or follows the plan. *)
Lemma resumer c : call_wf c → is_interview c = false ∨ tcResume c ≠ None →
  match tcCaller c with BySequence _ | ByImplementation _ => true | _ => false end = true
  ∨ match tcCaller c with ByImplementation _ | ByContinuation => true | _ => false end = true.
Proof.
  unfold call_wf, is_interview, interviewOf. destruct (tcCaller c); auto. intros [_ Hn] [?|?]; done.
Qed.

Lemma guarantee_step a p s p' s' :
  thread_step quote harness a p s = Some (p', s') → thread_ok p s → guarantee p s s'.
Proof.
  intros H Hok.
  step_cases p H; split; cbn; try done; intros; first [done | by left | by right | by eexists | by (right; left) | by (right; right) | idtac].
  all: try (right; right; congruence).
  all: try (apply alter_yield; [done| |done]; first [by intros|apply with_continuation_started]).
  all: try (eexists; split; [by apply lookup_app_l_Some|done]).
  all: try (right; right; apply resumer; [by apply (ok_call _ _ Hok)|]; first [left; exact (ok_caller _ _ Hok)|right; congruence]).
  all: try (pose proof (ok_caller _ _ Hok); destruct k; cbn in *; tauto).
  all: try by (left; right; left).
  all: try by (left; left).
  all: try (pose proof (ok_closing _ _ Hok eq_refl); first [by left; left|by right; left]).
Qed.

(** The evidence changes only by an operation on it. *)
Lemma evidence_step a p s p' s' e :
  thread_step quote harness a p s = Some (p', s') → thread_ok p s → state_inv s → bounded a s → gsEvidence s = Some e →
  ∃ e', gsEvidence s' = Some e' ∧ rtc planning_step e e'.
Proof.
  intros H Hok Hinv Hb He. step_cases p H; cbn; try (exists e; split; [done|apply rtc_refl]).
  { destruct (ok_initial _ _ Hok eq_refl) as [_ Hn]. congruence. }
  all: eexists; split; [reflexivity|]; apply rtc_once.
  all: try (eapply do_fail; [eassumption|by apply (bo_attempts _ _ Hb)]).
  all: try (eapply do_started; [eassumption|by apply (bo_attempts _ _ Hb)]).
  all: try (eapply do_retryable; eassumption).
  all: try (eapply do_complete; [eassumption|]; first [exact (ok_proposal _ _ Hok)|done]).
  all: eapply do_yielded; [eassumption|]; apply bind_Some in E as (y & _ & Hy); by apply (si_proposals _ Hinv y).
Qed.

Lemma completed_step a p s p' s' :
  thread_step quote harness a p s = Some (p', s') → thread_ok p s → state_inv s → bounded a s → completed_evidence s → completed_evidence s'.
Proof.
  intros H Hok Hinv Hb (e & He & Ho). destruct (evidence_step _ _ _ _ _ e H Hok Hinv Hb He) as (e' & He' & Hs).
  assert (e' = e) as ->; [|by exists e]. pose proof (evidence_reachable_inv e (si_evidence _ Hinv e He)) as Hr. clear - Hs Hr Ho.
  induction Hs as [|e e1 e2 Hstep _ IH]; [done|]. assert (e1 = e) as -> by (apply final_step; [done|congruence|done]). by apply IH.
Qed.

Lemma reachable_steps e e' : evidence_reachable e → rtc planning_step e e' → evidence_reachable e'.
Proof.
  intros (g & t & h & al & i & f & e0 & Hg & Hh & HB & H0) Hs. exists g, t, h, al, i, f, e0. split_and!; try done. by transitivity e.
Qed.

(** ** What another goroutine may assume survives a step *)

Lemma pending_step c y p s s' q :
  guarantee p s s' → thread_ok p s → thread_ok q s → in_planning q = true → (in_sequence p = true → False) →
  yield_pending c y s → gsClosed s' = true ∨ yield_pending c y s'.
Proof.
  intros G Hp Hq Hpl Hseq (r & Hpe & Hy & Ht & Hst). destruct (gu_pending _ _ _ G y Hpe) as [Hpe'|[Hc|[Hs|Ha]]]; [|by left|done|].
  - right. destruct (gu_yields _ _ _ G y r Hy) as (r' & Hy' & Et & Es). exists r'. rewrite Et. split_and!; auto.
  - pose proof (ok_after _ _ Hp Ha). pose proof (ok_planning _ _ Hq Hpl). congruence.
Qed.

Lemma started_step p s s' y : guarantee p s s' → started_yield y s → started_yield y s'.
Proof. intros G (r & Hy & Hs). destruct (gu_yields _ _ _ G y r Hy) as (r' & Hy' & _ & Es). exists r'. auto. Qed.

Lemma plan_known_step p q s s' :
  guarantee p s s' → thread_ok p s → thread_ok q s → (completed_evidence s → completed_evidence s') →
  in_planning q = true → (in_sequence p = true → False) → plan_known q s → plan_known q s'.
Proof.
  intros G Hp Hq Hcomp Hpl Hseq.
  assert (Hy : ∀ c y, gsClosed s = true ∨ yield_pending c y s → gsClosed s' = true ∨ yield_pending c y s').
  { intros c y [Hc|Hy]; [left; by apply (gu_closed _ _ _ G)|by eapply pending_step]. }
  assert (Hplan : ∀ c, planned c s → planned c s').
  { intros c [Hc|[Hc|[y Hc]]]; [left; by apply Hcomp|right; left; by apply (gu_closed _ _ _ G)|].
    destruct (Hy c y (or_intror Hc)) as [?|?]; [right; by left|right; right; by exists y]. }
  assert (Hdone : completed_evidence s ∨ gsClosed s = true → completed_evidence s' ∨ gsClosed s' = true).
  { intros [Hc|Hc]; [left; by apply Hcomp|right; by apply (gu_closed _ _ _ G)]. }
  destruct q; cbn; auto; unfold yielded_ok; repeat case_match; auto.
Qed.

Lemma planning_in_sequence p : in_planning p = true → in_sequence p = true.
Proof. unfold in_planning, in_sequence. by destruct p; try done; repeat case_match. Qed.

Lemma other_ok p q s s' :
  guarantee p s s' → thread_ok p s → thread_ok q s → (completed_evidence s → completed_evidence s') →
  (in_turn p = true → in_turn q = true → False) → (in_sequence p = true → in_sequence q = true → False) →
  (in_initial p = true → in_initial q = true → False) → thread_ok q s'.
Proof.
  intros G Hp Hq Hcomp Ht Hs Hi. pose proof Hq as [q1 q2 q3 q4 q5 q6 q7 q8 q9 q10 q11 q12 q13 q14 q15 q16].
  pose proof (planning_in_sequence q) as Hps. pose proof (planning_in_sequence p) as Hpp.
  split; try done.
  - intros Hq'. destruct (gu_turn _ _ _ G (q1 Hq')) as [?|?]; [done|naive_solver].
  - intros Hq'. destruct (q2 Hq') as [Ha|Hc]; [|right; by apply (gu_closed _ _ _ G)].
    destruct (gu_active _ _ _ G Ha) as [?|[?|?]]; naive_solver.
  - intros Hq'. destruct (gsPlanningCompleted s') eqn:E; [|done]. destruct (gu_planned _ _ _ G E) as [Hc|Hc]; [rewrite q3 in Hc; done|].
    exfalso. auto.
  - intros Hq'. by apply (gu_completed _ _ _ G), q4.
  - intros Hq'. destruct (q5 Hq') as [H1 H2]. split; [by apply (gu_initial _ _ _ G)|].
    destruct (gu_evidence _ _ _ G) as [He|[He|He]]; [congruence|exfalso; auto|done].
  - intros Hq'. by apply (gu_closed _ _ _ G), q6.
  - intros c Hc Hint. apply (gu_mode _ _ _ G). by eapply q9.
  - intros c Hc Hq' Hint. destruct (gu_sent _ _ _ G) as [->|?]; [by eapply q10|exfalso; auto].
  - intros c Hc Hq' Him. apply Hcomp. by eapply q11.
  - intros c y Hc Hco Hre. eapply started_step; [done|]. by eapply q14.
  - intros Hpl. eapply plan_known_step; eauto.
Qed.
(** ** The goroutine that steps *)

Lemma reserveTurn_reserved c a s ready s' :
  reserveTurn c a s = (Reserved ready, s') →
  gsServer s = true ∧ gsThread s ≠ [] ∧ gsMode s = (if is_interview c then GenerationModeInterviewTurn else GenerationMode)
  ∧ gsTurn s = [] ∧ gsTurnStarting s = false ∧ ¬ (tcPhase c = Implementation ∧ gsInitialActive s = true ∧ gsStopBefore s = true)
  ∧ gsThread s' = gsThread s ∧ gsSent s' = gsSent s ∧ gsEvidence s' = gsEvidence s ∧ gsTurnStarting s' = true
  ∧ gsInitialActive s' = gsInitialActive s ∧ gsPlanningCompleted s' = gsPlanningCompleted s ∧ gsClosed s' = gsClosed s ∧ gsMode s' = gsMode s.
Proof.
  unfold_sections. intros H. split_step H;
    repeat match goal with E : _ || _ = false |- _ => apply orb_false_iff in E as [? ?] end;
    repeat match goal with E : negb _ = false |- _ => apply negb_false_iff in E end; repeat case_bool_decide; try done;
    split_and!; try done; intros (? & Hi & Hs); rewrite Hi, Hs in *; done.
Qed.

Lemma permission_implementor c : permissionOf c = implementorPermissionProfile → tcPhase c ≠ Planning ∧ is_interview c = false.
Proof. unfold permissionOf. case_bool_decide; [done|]. by destruct (is_interview c). Qed.

Lemma no_interview_yet s : state_inv s → gsMode s = GenerationMode → Forall (λ rq, ¬ interview_request rq) (gsSent s).
Proof.
  intros Hinv Hm. apply Forall_forall. intros rq Hin Hi. by apply (si_interview _ Hinv); [exists rq|].
Qed.

Lemma own_reserve a c s p' s' :
  thread_step quote harness a (TurnReserve c) s = Some (p', s') → thread_ok (TurnReserve c) s → state_inv s → bounded a s →
  guarantee (TurnReserve c) s s' → (completed_evidence s → completed_evidence s') → in_turn p' = true → thread_ok p' s'.
Proof.
  intros H Hok Hinv Hb G Hcomp Ht. know Hok. cbn in H. destruct (reserveTurn c a s) as [[err| |ready] s1] eqn:E; injection H as <- <-; try done.
  { cbn in Ht. unfold return_turn in Ht. by destruct (tcCaller c). }
  apply reserveTurn_reserved in E as (Hsv & Hthr & Hm & _ & _ & _ & Hthr' & Hse' & Hev' & Hst' & Hia & Hpc & Hcl' & Hmo).
  split; cbn; try done.
  - intros _. right. by left.
  - rewrite Hia, Hcl'. exact Hse.
  - rewrite Hpc. exact Hpl.
  - rewrite Hpc. exact Haf.
  - rewrite Hmo. exact Hmode.
  - intros ? [= <-] _ Hint. rewrite Hse'. apply no_interview_yet; [done|]. by rewrite Hm, Hint.
  - intros ? [= <-] _ Hperm. apply Hcomp. apply permission_implementor in Hperm as [Hph Hint].
    assert (Hdone : gsPlanningCompleted s = true).
    { specialize (Hcall c eq_refl). unfold call_wf in Hcall. unfold is_interview, interviewOf in Hint. destruct (tcCaller c); try done; by apply Haf. }
    destruct (si_planned _ Hinv Hdone) as [?|Hc]; [done|]. apply (si_server _ Hinv) in Hc. congruence.
  - intros ? [= <-]. by rewrite Hthr'.
Qed.

Lemma generation_known a s g : state_inv s → bounded a s → sessionGeneration (anNumber a) s = Some g → u64 g.
Proof.
  intros Hinv Hb. unfold sessionGeneration. destruct (gsGeneration s) as [g'|] eqn:E; [intros [= <-]; by apply (si_generation _ Hinv)|].
  apply (bo_number _ _ Hb).
Qed.

Lemma completed_same s s' : gsEvidence s' = gsEvidence s → completed_evidence s → completed_evidence s'.
Proof. intros E (e & He & Ho). exists e. by rewrite E. Qed.

Lemma proposal_bound params thread turn focus request proposal :
  reviewArguments params thread turn = Ok (focus, request, proposal) → len proposal < 2 ^ 63.
Proof.
  assert (Hopt : ∀ a o, optionalReviewText a "proposal" maxReviewProposalBytes = Ok (Some o) → len o < 2 ^ 63).
  { intros a o. unfold optionalReviewText, maxReviewProposalBytes. repeat case_match; try done. intros [= <-].
    match goal with E : (_ <? _) = false |- _ => apply Z.ltb_ge in E; lia end. }
  unfold reviewArguments. intros H.
  apply bind_Ok in H as (v & _ & H). apply bind_Ok in H as (u & _ & H). case_match; [done|].
  apply bind_Ok in H as (a & _ & H). apply bind_Ok in H as (u' & _ & H). apply bind_Ok in H as (f & _ & H).
  apply bind_Ok in H as (rq & _ & H). apply bind_Ok in H as (pr & Hp & H).
  destruct pr as [o|]; [|done]. case_match; [done|]. injection H as _ _ <-. by eapply Hopt.
Qed.

Lemma sequence_planning c : call_wf c → match tcCaller c with BySequence _ => true | _ => false end = true →
  tcPhase c = Planning ∧ is_interview c = false.
Proof. unfold call_wf, is_interview, interviewOf. by destruct (tcCaller c). Qed.

Lemma yieldForTurn_pending c ad s y :
  reviewYieldForTurn (adThread ad) (adTurn ad) (tcPhase c) s = Some y → adThread ad ≠ [] →
  (∀ y, tcResume c = Some y → started_yield y s) → yield_pending c y s.
Proof.
  unfold reviewYieldForTurn, yield_at. intros H Ht Hres. repeat case_match; simplify_eq.
  match goal with E : _ && _ = true |- _ => apply andb_true_iff in E as [E _]; apply andb_true_iff in E as [E _]; case_bool_decide; [|done] end.
  eexists. split_and!; [done|done|congruence|]. intros Hr. destruct (Hres _ Hr) as (r' & Hy & Hs). congruence.
Qed.

Lemma pending_same c y s s' : gsPendingReview s' = gsPendingReview s → gsYields s' = gsYields s → yield_pending c y s → yield_pending c y s'.
Proof. intros E1 E2 (r & ?). exists r. by rewrite E1, E2. Qed.

Lemma pending_finished c y n s : yield_pending c y s → yield_pending c y (update_yield (with_continuation true) n s).
Proof.
  intros (r & Hp & Hy & Ht & Hs). destruct (alter_yield (with_continuation true) (gsYields s) n y r) as (r' & Hy' & Et & Es);
    [done|apply with_continuation_started|done|]. exists r'. rewrite Et. split_and!; [done|done|done|auto].
Qed.

(** A completed plan is recorded as completed. *)
Lemma Complete_completed response written failure e i e' :
  Complete (bs "completed") response written failure e = (Ok i, e') → plOutcome (peManifest e') = PlanCompleted.
Proof.
  unfold Complete. cbn [negb andb]. rewrite bool_decide_eq_true_2 by done. cbn [negb andb]. intros H.
  destruct (activeAttempt _); [|done]. destruct (negb _); [done|]. destruct (writePlanningBytes _ _ _ _); [|done].
  unfold publishCandidate in H. destruct (writePlanningJSON _ _ _); [|done]. cbn match in H. by injection H as _ <-.
Qed.

(** Whoever returns from a reviewable turn with a completed result left nothing pending. *)
Lemma settled_some c s y :
  planned c s → gsPendingReview s = Some y →
  (match tcResume c with Some y' => bool_decide (Some y = Some y') && negb (from_option yStarted false (yield_at y' s)) | None => false end
   || bool_decide (from_option yThread [] (yield_at y s) = [])) = true →
  completed_evidence s ∨ gsClosed s = true.
Proof.
  intros [Hc|[Hc|(y' & r & Hp & Hy & Ht & Hs)]] E Hor; [by left|by right|]. exfalso. rewrite Hp in E. injection E as <-.
  unfold yield_at in Hor. apply orb_true_iff in Hor as [Hor|Hor]; [|rewrite Hy in Hor; by case_bool_decide].
  destruct (tcResume c) as [z|]; [|done]. apply andb_true_iff in Hor as [Hz Hor]. case_bool_decide as Ez; [|done].
  injection Ez as <-. rewrite Hy in Hor. cbn in Hor. by rewrite Hs in Hor.
Qed.

Lemma settled_none c s : planned c s → gsPendingReview s = None → completed_evidence s ∨ gsClosed s = true.
Proof. intros [Hc|[Hc|(y & r & Hp & _)]] E; [by left|by right|]. congruence. Qed.

Lemma planned_yielded c w yielded s s' :
  yielded_ok c w yielded s → (completed_evidence s → completed_evidence s') → gsClosed s' = gsClosed s →
  (∀ y, yield_pending c y s → yield_pending c y s') → wStatus w = StatusCompleted → planned c s'.
Proof.
  unfold yielded_ok, planned. intros Hy Hc Hcl Hp Hw. rewrite Hcl. destruct yielded as [y|]; [|left; auto].
  destruct Hy as [?|?]; [auto|]. right. right. eauto.
Qed.

Lemma yielded_recorded c ad w yielded s e i e' a :
  thread_ok (TurnComplete c ad w yielded) s → in_planning (TurnComplete c ad w yielded) = true →
  (yielded ≫= λ y, yield_at y s) = None →
  Complete (status_text (wStatus w)) (if wPresent w then Some (wMessage w) else None) (anErr a) (anErr2 a) e = (Ok i, e') →
  yielded_ok c w yielded (set_evidence (Some e') s).
Proof.
  intros Hok Hpl Hy HC. pose proof (ok_plan _ _ Hok Hpl) as Hp. cbn in Hp. destruct yielded as [y|]; cbn in *.
  - destruct Hp as [Hp|(r & _ & Hr & _)]; [by left|]. unfold yield_at in Hy. congruence.
  - intros Hw. rewrite Hw in HC. exists e'. split; [done|]. by eapply Complete_completed.
Qed.

Lemma yielded_kept c ad w yielded s e' r :
  thread_ok (TurnComplete c ad w yielded) s → in_planning (TurnComplete c ad w yielded) = true →
  (yielded ≫= λ y, yield_at y s) = Some r → yielded_ok c w yielded (set_evidence (Some e') s).
Proof.
  intros Hok Hpl Hy. pose proof (ok_plan _ _ Hok Hpl) as Hp. cbn in Hp. by destruct yielded as [y|].
Qed.

Lemma begun_started s n r : yield_at n s = Some r → started_yield n (update_yield (with_continuation false) n s).
Proof. intros H. exists (with_continuation false r). split; [|done]. cbn. unfold yield_at in H. by rewrite list_lookup_alter_eq, H. Qed.

Lemma own_ok a p s p' s' :
  thread_step quote harness a p s = Some (p', s') → thread_ok p s → state_inv s → bounded a s → guarantee p s s' →
  (completed_evidence s → completed_evidence s') → thread_ok p' s'.
Proof.
  intros H Hok Hinv Hb G Hcomp.
  destruct (in_turn p') eqn:Ht'; [destruct p; try (cbn [thread_step] in H; discriminate H); try (eapply own_reserve; eassumption)|destruct p].
  all: step_case H; unfold then_start, return_turn, return_review in *; repeat case_match.
  all: try discriminate.
  all: know Hok.
  all: split; cbn; try done; try (intros; done); try assumption.
  all: try (intros; simplify_eq; by auto).
  all: try match goal with Ek : tcCaller ?c = _ |- _ => unfold is_interview, interviewOf; rewrite Ek; reflexivity end.
  all: try match goal with Ek : tcCaller ?c = _ |- _ => rewrite Ek in Hse, Hpl, Haf, Hplan end.
  all: try (intros; simplify_eq; by auto).
  all: try (intros _; right; by left).
  all: try (intros _; by left).
  all: try (intros ? [= <-]; by eapply generation_known).
  all: try (intros ? [= <-]; revert Hwf; unfold call_wf, is_interview, interviewOf; cbn; by destruct k).
  all: try (intros ? [= <-]; specialize (Hcall _ eq_refl); revert Hwf Hcall; unfold call_wf, is_interview, interviewOf; cbn; by destruct (tcCaller c)).
  all: try (intros ? [= <-] _ Hperm; apply Hcomp; by eapply Himp).
  all: try (intros _; right; right; exact Hwf).
  all: try by apply (bo_messages _ _ Hb).
  all: try (intros ? [= <-] _ Hint; apply Forall_app; split; [by eapply Hord|]; apply Forall_singleton; unfold interview_request; cbn;
    unfold permissionOf; rewrite Hint; by case_bool_decide).
  all: try (split; [by eapply proposal_bound|done]).
  all: try (intros; by case_bool_decide).
  all: try (intros Hs; exfalso; apply sequence_planning in Hs as [Hph Hni]; [|by apply Hcall];
    unfold is_planning in *; rewrite ?Hph, ?bool_decide_eq_true_2, ?Hni in * by done; done).
  all: try (intros Hst; eapply planned_yielded; [by apply Hplan|first [exact Hcomp|by apply completed_same]|reflexivity|first [done|by intros; apply pending_finished]]).
  all: try (intros _ Hst; match goal with Hp : gsPendingReview _ = _ |- _ =>
    first [exact (settled_none _ _ (Hplan eq_refl Hst) Hp)|refine (settled_some _ _ _ (Hplan eq_refl Hst) Hp _)] end;
    match goal with E : tcResume _ = _ |- _ => by rewrite E end).
  - intros ? y [= <-] _ Hr. assert (y = n) as -> by congruence. by eapply begun_started.
  - intros Hs. destruct (reviewYieldForTurn _ _ _ _) eqn:Ey; [|done]. right.
    eapply yieldForTurn_pending; [done|by apply Hth|]. intros y0 Hr. by eapply Hcont.
  - intros Hs. by eapply yielded_kept.
  - intros Hs. eapply yielded_recorded; [done|done|done|]. by rewrite E1.
  - intros Hs. eapply yielded_recorded; [done|done|done|]. by rewrite E1.
  - intros _. split; [done|]. by apply (si_fresh _ Hinv).
  - intros _. unfold RunContinuationTurn_check in *. by destruct (gsPlanningCompleted s'), (negb (gsInitialStarted s')).
  - intros _. apply Hplan; [done|]. apply andb_true_iff in E0 as [E0 _]. by case_bool_decide.
Qed.

(** ** The state *)

Lemma sent_step a p s p' s' : thread_step quote harness a p s = Some (p', s') →
  gsSent s' = gsSent s ∨ ∃ c ready thread, p = TurnSend c ready thread ∧ gsSent s' = gsSent s ++ [startTurnRequest c].
Proof. intros H. step_cases p H; try (by left); right; by eexists _, _, _. Qed.

Lemma continued_step a p s p' s' : thread_step quote harness a p s = Some (p', s') →
  gsContinued s' = gsContinued s
  ∨ ∃ c ad y r, p = TurnContinue c ad ∧ gsYields s !! y = Some r ∧ yStarted r = false
      ∧ gsContinued s' = gsContinued s ++ [y] ∧ started_yield y s'.
Proof.
  intros H. step_cases p H; try (by left). right. eexists _, _, _, _. split_and!; [done|done|done|done|]. by eapply begun_started.
Qed.

Lemma server_step a p s p' s' : thread_step quote harness a p s = Some (p', s') →
  (gsServer s' = true → gsServer s = true ∨ gsClosed s' = false) ∧ (gsClosed s = false → gsClosed s' = true → gsServer s' = false).
Proof. intros H. step_cases p H; cbn; split; try done; intros; by auto || congruence. Qed.

Lemma begun_step a p s p' s' e :
  thread_step quote harness a p s = Some (p', s') → gsEvidence s = None → gsEvidence s' = Some e →
  ∃ generation, p = InitialBegin generation ∧ Begin generation (gsThread s) harness (anErr a) (anErr2 a) (anErr2 a) = Ok e.
Proof. intros H Hn He. step_cases p H; cbn in *; simplify_eq; by eexists. Qed.

Lemma planned_step a p s p' s' :
  thread_step quote harness a p s = Some (p', s') → gsPlanningCompleted s = false → gsPlanningCompleted s' = true →
  (∃ done r, p = SequencePlanned done r) ∧ gsEvidence s' = gsEvidence s ∧ gsClosed s' = gsClosed s.
Proof. intros H Hn He. step_cases p H; cbn in *; try congruence; (split; [by eexists _, _|done]). Qed.

Lemma generation_step a p s p' s' g :
  thread_step quote harness a p s = Some (p', s') → gsGeneration s' = Some g → gsGeneration s = Some g ∨ generation_of p = Some g.
Proof. intros H He. step_cases p H; cbn in *; auto. Qed.

Lemma proposals_step a p s p' s' :
  thread_step quote harness a p s = Some (p', s') → thread_ok p s → (∀ y r, gsYields s !! y = Some r → len (yProposal r) < 2 ^ 63) →
  ∀ y r, gsYields s' !! y = Some r → len (yProposal r) < 2 ^ 63.
Proof.
  intros H Hok Hp y0 r0.
  assert (Halter : ∀ f n, (∀ r, yProposal (f r) = yProposal r) → alter f n (gsYields s) !! y0 = Some r0 → len (yProposal r0) < 2 ^ 63).
  { intros f n Hf. destruct (decide (n = y0)) as [->|Hne].
    - rewrite list_lookup_alter_eq. intros Hy. apply fmap_Some in Hy as (r1 & Hy & ->). rewrite Hf. by eapply Hp.
    - rewrite list_lookup_alter_ne by done. apply Hp. }
  step_cases p H; cbn; try apply Hp; try (by apply Halter); intros Hy;
    (apply lookup_app_Some in Hy as [Hy|[_ Hy]]; [by eapply Hp|]; apply list_lookup_singleton_Some in Hy as [_ <-]; apply (ok_proposal _ _ Hok)).
Qed.

Lemma enter_turn a p s p' s' :
  thread_step quote harness a p s = Some (p', s') → state_inv s → in_turn p' = true → in_turn p = true ∨ ¬ turn_open s.
Proof.
  intros H Hinv Ht. step_cases p H; unfold then_start, return_turn, return_review in *; repeat case_match; cbn in *; try discriminate;
    try (by left); right; intros [Hc|[Hc|Hc]].
  all: repeat match goal with E : _ || _ = false |- _ => apply orb_false_iff in E as [? E] end.
  all: try (apply (si_server _ Hinv) in Hc).
  all: repeat match goal with E : negb _ = false |- _ => apply negb_false_iff in E end; repeat case_bool_decide; congruence.
Qed.

Lemma enter_sequence a p s p' s' :
  thread_step quote harness a p s = Some (p', s') → in_sequence p' = true →
  in_sequence p = true ∨ gsInitialActive s = false ∧ gsClosed s = false.
Proof. intros H Ht. step_cases p H; reached. Qed.

Lemma enter_initial a p s p' s' :
  thread_step quote harness a p s = Some (p', s') → in_initial p' = true → in_initial p = true ∨ gsInitialStarted s = false.
Proof. intros H Ht. step_cases p H; reached. Qed.

Lemma last_kind {A} (P : A → Prop) l x :
  (∀ l1 y l2, l = l1 ++ y :: l2 → P y → Forall P l2) → ((∃ y, y ∈ l ∧ P y) → P x) →
  ∀ l1 y l2, l ++ [x] = l1 ++ y :: l2 → P y → Forall P l2.
Proof.
  intros Hl Hx l1 y l2. destruct l2 as [|z l2 _] using rev_ind; [constructor|]. intros E Hy.
  rewrite app_comm_cons, app_assoc in E. apply app_inj_tail in E as [-> ->]. apply Forall_app. split; [by eapply Hl|].
  apply Forall_singleton, Hx. exists y. split; [|done]. apply elem_of_app. right. by left.
Qed.

Lemma interview_permission c : call_wf c → is_interview c = true → permissionOf c = interviewPermissionProfile.
Proof.
  unfold call_wf, permissionOf, is_interview, interviewOf. destruct (tcCaller c); try done. by intros [-> _].
Qed.

(** A session whose first interview turn was asked for sends nothing else. *)
Lemma sent_last c ready thread s :
  thread_ok (TurnSend c ready thread) s → (∃ rq, rq ∈ gsSent s ∧ interview_request rq) → interview_request (startTurnRequest c).
Proof.
  intros Hok (rq & Hin & Hi). destruct (is_interview c) eqn:Ei; [apply interview_permission; [by apply (ok_call _ _ Hok)|done]|].
  pose proof (ok_ordinary _ _ Hok c eq_refl eq_refl Ei) as HF. rewrite Forall_forall in HF. by apply HF in Hin.
Qed.

Lemma own_sent a p s p' s' :
  thread_step quote harness a p s = Some (p', s') → thread_ok p s → state_inv s → guarantee p s s' →
  (completed_evidence s → completed_evidence s') →
  Forall permission_fits (gsSent s')
  ∧ ((∃ rq, rq ∈ gsSent s' ∧ rqPermission rq = implementorPermissionProfile) → completed_evidence s')
  ∧ ((∃ rq, rq ∈ gsSent s' ∧ interview_request rq) → gsMode s' ≠ GenerationMode)
  ∧ (∀ l1 rq l2, gsSent s' = l1 ++ rq :: l2 → interview_request rq → Forall interview_request l2).
Proof.
  intros H Hok Hinv G Hcomp. destruct (sent_step _ _ _ _ _ H) as [->|(c & ready & t & -> & ->)].
  { split_and!; [apply (si_permission _ Hinv)|intros Hx; by apply Hcomp, (si_implementor _ Hinv)| |apply (si_last _ Hinv)].
    intros Hx. by apply (gu_mode _ _ _ G), (si_interview _ Hinv). }
  split_and!.
  - apply Forall_app. split; [apply (si_permission _ Hinv)|]. apply Forall_singleton. unfold permission_fits. cbn.
    unfold permissionOf. case_bool_decide; [done|]. by destruct (is_interview c).
  - intros (rq & [Hin|Hin%list_elem_of_singleton]%elem_of_app & Hperm); apply Hcomp; [by apply (si_implementor _ Hinv); exists rq|subst rq].
    by eapply (ok_implementor _ _ Hok).
  - intros (rq & [Hin|Hin%list_elem_of_singleton]%elem_of_app & Hi); apply (gu_mode _ _ _ G); [by apply (si_interview _ Hinv); exists rq|subst rq].
    eapply (ok_mode _ _ Hok); [done|]. revert Hi. unfold interview_request. cbn. unfold permissionOf. case_bool_decide; [done|].
    by destruct (is_interview c).
  - apply last_kind; [apply (si_last _ Hinv)|]. by apply sent_last with ready t.
Qed.

Lemma own_state a p s p' s' :
  thread_step quote harness a p s = Some (p', s') → thread_ok p s → state_inv s → bounded a s → guarantee p s s' →
  (∀ h, harness = Some h → json_ok h ∧ (json_depth h ≤ 100)%nat) → state_inv s'.
Proof.
  intros H Hok Hinv Hb G Hh. pose proof (completed_step _ _ _ _ _ H Hok Hinv Hb) as Hcomp. destruct (server_step _ _ _ _ _ H) as [Hsv1 Hsv2].
  destruct (own_sent _ _ _ _ _ H Hok Hinv G Hcomp) as (H1 & H2 & H3 & H4). split; try assumption.
  - intros Hc. destruct (gsClosed s) eqn:Ec; [|by apply Hsv2]. destruct (gsServer s') eqn:Es; [|done].
    destruct (Hsv1 eq_refl) as [Hs|Hs]; [|congruence]. apply (si_server _ Hinv) in Ec. congruence.
  - intros Hi. assert (Hn : gsEvidence s = None).
    { apply (si_fresh _ Hinv). destruct (gsInitialStarted s) eqn:E; [|done]. rewrite (gu_initial _ _ _ G E) in Hi. done. }
    destruct (gu_evidence _ _ _ G) as [He|[He|He]]; [congruence| |done]. destruct (ok_initial _ _ Hok He) as [Hs _].
    rewrite (gu_initial _ _ _ G Hs) in Hi. done.
  - intros e He. destruct (gsEvidence s) as [e0|] eqn:E0.
    + destruct (evidence_step _ _ _ _ _ e0 H Hok Hinv Hb E0) as (e1 & He1 & Hs). assert (e1 = e) as -> by congruence.
      eapply reachable_steps; [by apply (si_evidence _ Hinv)|done].
    + destruct (begun_step _ _ _ _ _ e H E0 He) as (g & -> & HB).
      eexists g, _, harness, _, _, _, e. split_and!; [by apply (ok_generation _ _ Hok)|done|exact HB|apply rtc_refl].
  - intros Hp. destruct (gsPlanningCompleted s) eqn:Ep.
    + destruct (si_planned _ Hinv Ep) as [?|?]; [left; auto|right; by apply (gu_closed _ _ _ G)].
    + destruct (planned_step _ _ _ _ _ H Ep Hp) as ((done & r & ->) & He & Hc). rewrite Hc.
      destruct (ok_plan _ _ Hok eq_refl) as [?|?]; [left; by apply Hcomp|by right].
  - destruct (continued_step _ _ _ _ _ H) as [->|(c & ad & y & r & _ & Hy & Hr & -> & _)]; [apply (si_nodup _ Hinv)|].
    apply NoDup_app. split_and!; [apply (si_nodup _ Hinv)| |apply NoDup_singleton]. intros z Hz Hz'%list_elem_of_singleton. subst z.
    apply (si_continued _ Hinv) in Hz as (r' & Hy' & Hr'). congruence.
  - intros y. assert (Hold : y ∈ gsContinued s → started_yield y s') by (intros Hin; eapply started_step, (si_continued _ Hinv); done).
    destruct (continued_step _ _ _ _ _ H) as [->|(c & ad & z & r & _ & _ & _ & -> & Hz)]; [done|].
    intros [Hin|Hin%list_elem_of_singleton]%elem_of_app; [auto|by subst z].
  - intros g Hg. destruct (generation_step _ _ _ _ _ _ H Hg) as [?|?]; [by apply (si_generation _ Hinv)|by apply (ok_generation _ _ Hok)].
  - by eapply proposals_step, (si_proposals _ Hinv).
Qed.

(** ** The whole system *)

Lemma exclusive_insert (P : pc → bool) threads i p p' :
  exclusive P threads → threads !! i = Some p →
  (P p' = true → P p = true ∨ ∀ j q, threads !! j = Some q → P q = false) → exclusive P (<[i := p']> threads).
Proof.
  intros Hex Hi Henter j k q r Hj Hk Hq Hr. assert (Hlen : (i < length threads)%nat) by by eapply lookup_lt_Some.
  destruct (decide (i = j)) as [<-|Hij], (decide (i = k)) as [<-|Hik]; [done|..].
  - rewrite list_lookup_insert_eq in Hj by done. rewrite list_lookup_insert_ne in Hk by done. injection Hj as <-.
    destruct (Henter Hq) as [Hp|Hno]; [by eapply Hex|by rewrite (Hno k r Hk) in Hr].
  - rewrite list_lookup_insert_ne in Hj by done. rewrite list_lookup_insert_eq in Hk by done. injection Hk as <-.
    destruct (Henter Hr) as [Hp|Hno]; [by eapply Hex|by rewrite (Hno j q Hj) in Hq].
  - rewrite list_lookup_insert_ne in Hj, Hk by done. by eapply Hex.
Qed.

Lemma exclusive_spawn (P : pc → bool) threads p : exclusive P threads → P p = false → exclusive P (threads ++ [p]).
Proof.
  intros Hex Hp j k q r Hj Hk Hq Hr. apply snoc_lookup in Hj as [Hj|[-> ->]]; [|congruence].
  apply snoc_lookup in Hk as [Hk|[-> ->]]; [|congruence]. by eapply Hex.
Qed.

Lemma entry_ok p s : entry p = true → thread_ok p s ∧ in_turn p = false ∧ in_sequence p = false ∧ in_initial p = false.
Proof. destruct p; try done; try (destruct k; done); intros _; split; try done; by split. Qed.

(** One action, with answers within Go's integers. *)
Definition session_step (sy sy' : system) : Prop :=
  ∃ act, (∀ i a, act = Run i a → bounded a (sySession sy)) ∧ system_step quote harness act sy = Some sy'.

Context (harness_ok : ∀ h, harness = Some h → json_ok h ∧ (json_depth h ≤ 100)%nat).

Lemma system_run i a sy sy' p p' s' :
  syThreads sy !! i = Some p → thread_step quote harness a p (sySession sy) = Some (p', s') → bounded a (sySession sy) →
  sy' = mkSystem (<[i := p']> (syThreads sy)) s' → system_inv sy → system_inv sy'.
Proof using harness_ok.
  intros Hi H Hb -> [Hinv Hth Ht Hs Hin]. pose proof (Hth i p Hi) as Hok. pose proof (guarantee_step _ _ _ _ _ H Hok) as G.
  pose proof (completed_step _ _ _ _ _ H Hok Hinv Hb) as Hcomp. split; cbn [syThreads sySession].
  - by eapply own_state.
  - intros j q Hj. destruct (decide (i = j)) as [<-|Hne].
    + rewrite list_lookup_insert_eq in Hj by by eapply lookup_lt_Some. injection Hj as <-. by eapply own_ok.
    + rewrite list_lookup_insert_ne in Hj by done.
      eapply other_ok; [done|done|by eapply Hth|done|..]; intros; apply Hne;
        first [eapply Ht; eassumption|eapply Hs; eassumption|eapply Hin; eassumption].
  - eapply exclusive_insert; [done|done|]. intros Hp'. destruct (enter_turn _ _ _ _ _ H Hinv Hp') as [?|Hno]; [by left|].
    right. intros j q Hj. destruct (in_turn q) eqn:Eq; [|done]. exfalso. apply Hno. by apply (ok_turn _ _ (Hth j q Hj)).
  - eapply exclusive_insert; [done|done|]. intros Hp'. destruct (enter_sequence _ _ _ _ _ H Hp') as [?|[Hna Hnc]]; [by left|].
    right. intros j q Hj. destruct (in_sequence q) eqn:Eq; [|done]. destruct (ok_sequence _ _ (Hth j q Hj) Eq); congruence.
  - eapply exclusive_insert; [done|done|]. intros Hp'. destruct (enter_initial _ _ _ _ _ H Hp') as [?|Hni]; [by left|].
    right. intros j q Hj. destruct (in_initial q) eqn:Eq; [|done]. destruct (ok_initial _ _ (Hth j q Hj) Eq); congruence.
Qed.

Lemma session_step_inv sy sy' : session_step sy sy' → system_inv sy → system_inv sy'.
Proof using harness_ok.
  intros ([p|i a] & Hb & H) Hinv; cbn in H.
  - destruct (entry p) eqn:Ee; [|done]. injection H as <-. destruct (entry_ok p (sySession sy) Ee) as (Hok & H1 & H2 & H3).
    destruct Hinv as [Hst Hth Ht Hs Hin]. split; cbn; [done| |by apply exclusive_spawn..].
    intros j q Hj. apply snoc_lookup in Hj as [Hj|[-> ->]]; [by eapply Hth|done].
  - apply bind_Some in H as (p & Hi & H). apply bind_Some in H as ([p' s'] & H & E). injection E as <-.
    eapply system_run; [exact Hi|exact H|by eapply Hb|done|done].
Qed.

Definition session_reachable (sy : system) : Prop := rtc session_step initial_system sy.

Lemma session_initial_inv : system_inv initial_system.
Proof.
  split; cbn; try done; [|by intros i j p q Hi; rewrite lookup_nil in Hi..].
  split; cbn; try done; try constructor; try (intros (rq & Hin & _); by apply elem_of_nil in Hin).
  - by intros [|] rq l2 E.
  - intros y Hy. by apply elem_of_nil in Hy.
Qed.

Lemma reachable_system_inv sy : session_reachable sy → system_inv sy.
Proof using harness_ok.
  intros H. apply (rtc_ind_r system_inv initial_system) in H; [done|apply session_initial_inv|]. intros y z _ Hs. by apply session_step_inv.
Qed.
End Guarantee.
