(* ===== verification/SessionProofs.v ===== *)
(** * What a session guarantees

    Over every interleaving of callers, callbacks, pauses and closes: one turn at a
    time; no implementation turn before the plan is on disk; a stop is obeyed;
    nothing but interview turns after the first one; a review is continued once; a
    closed session admits nothing. Two examples are schedules in which the code does
    not do what it means to. *)

From S2P Require Import Prelude GoStd Sha256 Json FeatureStore ArchiveRecord JsonTree Planning PlanningProofs CodexApp AgentTools SessionState Session SessionInv.
Open Scope Z_scope.

Section Claims.
Context (quote : bytes → bytes) (harness : option jvalue).
Context (harness_ok : ∀ h, harness = Some h → json_ok h ∧ (json_depth h ≤ 100)%nat).

(** ** Stopping a sequence *)

Definition implementing (p : pc) : bool :=
  in_turn p && match call_of p with Some c => bool_decide (tcPhase c = Implementation) | None => false end.

Definition stop_requested (s : GenerationSession) : Prop :=
  gsClosed s = true ∨ gsInitialActive s = true ∧ gsStopBefore s = true.

Lemma stop_step a p s p' s' :
  thread_step quote harness a p s = Some (p', s') → thread_ok p s → in_sequence p = false ∨ in_sequence p' = true →
  stop_requested s → stop_requested s'.
Proof.
  intros H Hok Hp [Hc|[Ha Hs]]; [left; by apply (gu_closed _ _ _ (guarantee_step _ _ _ _ _ _ _ H Hok))|].
  pose proof (ok_closing _ _ Hok) as Hcl.
  step_cases p H; unfold stop_requested; cbn in *; try (by right); try (by left; auto); try congruence.
  all: by destruct Hp.
Qed.

Lemma leave_sequence a p s p' s' :
  thread_step quote harness a p s = Some (p', s') → in_sequence p = true →
  in_sequence p' = true ∨ (∃ res, p' = Finished res) ∨ p' = Panicked.
Proof.
  intros H Hp. step_cases p H; reached; try match goal with E : tcCaller ?c = _ |- _ => rewrite E end; eauto.
Qed.

Lemma implementing_step a p s p' s' :
  thread_step quote harness a p s = Some (p', s') → state_inv s → stop_requested s → implementing p' = true → implementing p = true.
Proof.
  intros H Hinv Hstop. unfold implementing. destruct (in_turn p) eqn:Ep.
  - clear Hinv Hstop. intros Hp'. destruct p; try discriminate Ep; step_case H; unfold return_turn in *; repeat case_match; cbn in *; try done; congruence.
  - intros [Ht Hp']%andb_true_iff. exfalso. destruct (enter_turn _ _ _ _ _ _ _ H Hinv Ht) as [?|Hno]; [congruence|].
    destruct p; try discriminate Ep;
      try (clear Hstop Hno Hp'; step_case H; unfold then_start, return_turn, return_review in *; repeat case_match; cbn in *; discriminate).
    cbn in H. destruct (reserveTurn c a s) as [[err| |ready] s1] eqn:E; injection H as <- <-; [done|unfold return_turn in Ht; by destruct (tcCaller c)|].
    cbn in Hp'. case_bool_decide; [|done]. apply reserveTurn_reserved in E as (Hs & _ & _ & _ & _ & Hn & _).
    destruct Hstop as [Hc|[Ha Hb]]; [|by apply Hn]. apply (si_server _ Hinv) in Hc. congruence.
Qed.

(** ** Closing *)


(** ** The claims *)

Notation step := (session_step quote harness).
Notation reachable := (session_reachable quote harness).

Lemma reachable_steps_inv sy sy' : reachable sy → rtc step sy sy' → system_inv sy'.
Proof using harness_ok. intros H1 H2. apply (reachable_system_inv quote harness harness_ok). unfold session_reachable in *. by transitivity sy. Qed.

(** C7: at any moment at most one goroutine is between the reservation
    of a turn and the section that clears it, whichever calls, interviews, pauses
    and callbacks run concurrently; while it is there, the session shows a turn
    identifier or a reservation, or is closed. *)
Theorem one_turn_at_a_time sy i j p q :
  reachable sy → syThreads sy !! i = Some p → syThreads sy !! j = Some q → in_turn p = true → in_turn q = true →
  i = j ∧ (gsClosed (sySession sy) = true ∨ gsTurnStarting (sySession sy) = true ∨ gsTurn (sySession sy) ≠ []).
Proof using harness_ok.
  intros Hr Hi Hj Hp Hq. apply (reachable_system_inv quote harness harness_ok) in Hr as [_ Hth Ht _ _]. split; [by eapply Ht|].
  by apply (ok_turn _ _ (Hth i p Hi)).
Qed.

(** C6: once the session has asked the app server for a turn with the
    implementor's permissions, the planning evidence is completed: the manifest on
    disk reads back as completed, and the published response is in response.txt
    with the recorded size and digest. *)
Theorem implementation_after_plan sy rq :
  reachable sy → rq ∈ gsSent (sySession sy) → rqPermission rq = implementorPermissionProfile →
  ∃ e r content contents, gsEvidence (sySession sy) = Some e ∧ plOutcome (peManifest e) = PlanCompleted
    ∧ peFiles e !! manifestFile = Some contents ∧ parse_text contents = Some (plan_json (peManifest e))
    ∧ plResponse (peManifest e) = Some r ∧ peFiles e !! responseName = Some content
    ∧ rrIdentity r = mkResponse (sha256_hex content) (len content).
Proof using harness_ok.
  intros Hr Hin Hperm. apply (reachable_system_inv quote harness harness_ok) in Hr as [Hst _ _ _ _].
  destruct (si_implementor _ Hst) as (e & He & Ho); [by exists rq|]. pose proof (evidence_reachable_inv e (si_evidence _ Hst e He)) as Hinv.
  destruct (plan_readable e Hinv) as (contents & Hf & Hparse). destruct (plan_published e Hinv Ho) as (r & content & Hpr & Hc & Hi).
  by exists e, r, content, contents.
Qed.

(** C40: a planning turn, and only a planning turn, is asked for with the
    planning permissions; once an exit-interview turn was asked for, every later
    turn is an exit-interview turn with the interview permissions, and the session
    is no longer in its generation mode, whatever runs concurrently. *)
Theorem interview_is_last sy l1 rq l2 :
  reachable sy → gsSent (sySession sy) = l1 ++ rq :: l2 →
  (rqPhase rq = Planning ↔ rqPermission rq = planningPermissionProfile)
  ∧ (rqPermission rq = interviewPermissionProfile →
       Forall (λ rq, rqPermission rq = interviewPermissionProfile) l2 ∧ gsMode (sySession sy) ≠ GenerationMode).
Proof using harness_ok.
  intros Hr E. apply (reachable_system_inv quote harness harness_ok) in Hr as [Hst _ _ _ _].
  assert (Hin : rq ∈ gsSent (sySession sy)) by (rewrite E; apply elem_of_app; right; by left).
  split; [by apply (proj1 (Forall_forall _ _) (si_permission _ Hst))|]. intros Hi.
  split; [by apply (si_last _ Hst l1 rq l2)|]. apply (si_interview _ Hst). by exists rq.
Qed.

(** the continuation of a review is recorded as started at most once,
    however often a pause sends it back and whoever resumes it. *)
Theorem review_continued_once sy : reachable sy →
  NoDup (gsContinued (sySession sy))
  ∧ ∀ y, y ∈ gsContinued (sySession sy) → ∃ r, gsYields (sySession sy) !! y = Some r ∧ yStarted r = true.
Proof using harness_ok.
  intros Hr. apply (reachable_system_inv quote harness harness_ok) in Hr as [Hst _ _ _ _]. split; [apply (si_nodup _ Hst)|apply (si_continued _ Hst)].
Qed.

(** What holds of the goroutine of a stopped sequence from then on. *)
Definition stopped (i : nat) (sy : system) : Prop :=
  ∃ p, syThreads sy !! i = Some p ∧ implementing p = false
    ∧ (in_sequence p = true ∧ stop_requested (sySession sy) ∨ (∃ res, p = Finished res) ∨ p = Panicked).

Lemma stopped_run i j a sy q q' s' :
  system_inv sy → stopped i sy → syThreads sy !! j = Some q → thread_step quote harness a q (sySession sy) = Some (q', s') →
  stopped i (mkSystem (<[j := q']> (syThreads sy)) s').
Proof.
  intros [Hst Hth _ Hseq _] (p & Hi & Hn & Hp) Hj H. unfold stopped. cbn. destruct (decide (j = i)) as [->|Hne].
  - assert (q = p) as -> by congruence. exists q'. rewrite list_lookup_insert_eq by by eapply lookup_lt_Some. split; [done|].
    destruct Hp as [[Hsq Hstop]|[[res ->]| ->]]; [|by cbn in H..].
    assert (Hn' : implementing q' = false).
    { destruct (implementing q') eqn:E; [|done]. rewrite (implementing_step _ _ _ _ _ H Hst Hstop E) in Hn. done. }
    split; [done|]. destruct (leave_sequence _ _ _ _ _ H Hsq) as [Hs'|?]; [left|by right].
    split; [done|]. by eapply stop_step; [exact H|by apply (Hth i)|by right|].
  - exists p. rewrite list_lookup_insert_ne by done. split_and!; [done|done|].
    destruct Hp as [[Hsq Hstop]|?]; [left|by right]. split; [done|]. eapply stop_step; [exact H|by apply (Hth j)| |done].
    left. destruct (in_sequence q) eqn:E; [|done]. exfalso. apply Hne. by eapply Hseq.
Qed.

Lemma stopped_step i sy sy' : system_inv sy → step sy sy' → stopped i sy → stopped i sy'.
Proof.
  intros Hinv ([p|j a] & _ & H) Hstop; cbn in H.
  - destruct (entry p); [|done]. injection H as <-. destruct Hstop as (q & Hi & Hq). exists q. split; [by apply lookup_app_l_Some|done].
  - apply bind_Some in H as (q & Hj & H). apply bind_Some in H as ([q' s'] & H & E). injection E as <-. by eapply stopped_run.
Qed.

(** C8: once a planning sequence that has not begun its implementation
    turn was asked to stop, or the session was closed, the goroutine that runs the
    sequence never holds an implementation turn, whatever happens afterwards. *)
Theorem stopped_sequence_never_implements sy sy' i p p' :
  reachable sy → syThreads sy !! i = Some p → in_sequence p = true → implementing p = false → stop_requested (sySession sy) →
  rtc step sy sy' → syThreads sy' !! i = Some p' → implementing p' = false.
Proof using harness_ok.
  intros Hr Hi Hp Hn Hstop Hs Hi'. assert (H : stopped i sy) by (exists p; auto).
  apply (reachable_system_inv quote harness harness_ok) in Hr. clear p Hi Hp Hn Hstop.
  induction Hs as [sy|sy sy1 sy2 H1 _ IH]; [destruct H as (q & Hq & ? & _); congruence|].
  apply IH; [by eapply session_step_inv|done|by eapply stopped_step].
Qed.

End Claims.

(** ** Schedules *)

Module session_example.

Definition fits (o : option bytes) : bool := len (default [] o) <? 2 ^ 63.
Definition short (message : jvalue) : bool :=
  fits (agentMessage message) && match get "params" message ≫= get "turn" with Some turn => fits (finalAgentMessage turn) | None => true end.

Lemma short_waited thread turn ph n err last l :
  fits last = true → forallb short l = true → len (wMessage (waitForTurn thread turn ph n err last l)) < 2 ^ 63.
Proof.
  revert last. induction l as [|m l IH]; intros last Hlast Hl; [done|]. cbn [forallb] in Hl. apply andb_true_iff in Hl as [Hm Hl].
  unfold short in Hm. apply andb_true_iff in Hm as [Ha Ht]. cbn [waitForTurn].
  destruct (is_string (get "method" m) (bs "item/completed")); [apply IH; [by destruct (agentMessage m)|done]|].
  destruct (negb (is_string (get "method" m) (bs "turn/completed"))); [by apply IH|].
  destruct (ObjectValue (get "params" m) _) as [values|] eqn:Ev; [|done]. destruct (negb (is_string _ thread)); [done|].
  destruct (ObjectValue (get "turn" values) _) as [t|] eqn:Et; [|done]. destruct (negb (is_string _ turn)); [done|].
  destruct (statusOf _) as [st|]; [|done].
  assert (Hf : fits (finalAgentMessage t) = true).
  { revert Ht. unfold ObjectValue in Ev, Et. destruct (get "params" m) as [[]|]; try done. injection Ev as <-. cbn [mbind option_bind].
    destruct (get "turn" _) as [[]|]; try done. by injection Et as <-. }
  unfold completedTurn, fits in *. apply Z.ltb_lt in Hlast, Hf. destruct (_ && _ && _); [done|].
  destruct (bool_decide (st = StatusFailed)); [done|]. cbn [wMessage].
  destruct (finalAgentMessage t) as [[|b f]|]; [by destruct last|done|by destruct last].
Qed.

Definition within (a : answer) (s : GenerationSession) : bool :=
  forallb short (anMessages a) && match anNumber a with Some g => (0 <=? g) && (g <? 2 ^ 64) | None => true end
  && match gsEvidence s with Some e => len (plAttempts (peManifest e)) + 1 <? 2 ^ 63 | None => true end.

Fixpoint checked (l : list action) (sy : system) : option system :=
  match l with
  | [] => Some sy
  | act :: l =>
      if match act with Run _ a => within a (sySession sy) | Spawn _ => true end
      then sy ← system_step id None act sy; checked l sy else None
  end.

Lemma within_bounded a s : within a s = true → bounded a s.
Proof.
  unfold within. intros [[H1 H2]%andb_true_iff H3]%andb_true_iff. split.
  - intros ad ph. by apply short_waited.
  - intros g E. rewrite E in H2. apply andb_true_iff in H2 as [Ha Hb]. split; [by apply Z.leb_le|by apply Z.ltb_lt].
  - intros e E. rewrite E in H3. by apply Z.ltb_lt.
Qed.

Lemma checked_steps l sy sy' : checked l sy = Some sy' → rtc (session_step id None) sy sy'.
Proof.
  revert sy. induction l as [|act l IH]; intros sy; cbn; [by intros [= ->]|]. destruct (match act with Run _ _ => _ | _ => _ end) eqn:Hb; [|done].
  destruct (system_step id None act sy) as [sy1|] eqn:E; [|done]. intros H. apply (rtc_l _ _ sy1); [|by apply IH].
  exists act. split; [|done]. intros i a ->. by apply within_bounded.
Qed.

(** Calls that all succeed; [turn] is the identifier the app server answers with
    and the turn that it reports as completed. *)
Definition turn_completed (turn : string) : jvalue :=
  JObject [(bs "method", JString (bs "turn/completed"));
    (bs "params", JObject [(bs "threadId", JString (bs "turn-1"));
       (bs "turn", JObject [(bs "id", JString (bs turn)); (bs "status", JString (bs "completed"));
          (bs "items", JArray [JObject [(bs "type", JString (bs "agentMessage")); (bs "text", JString (bs "text"))]])])])].
Definition answered (turn : string) (unresolved : nat) (late : bool) : answer :=
  mkAnswer true (Some 1) true None None (bs "text") (bs turn) true true [turn_completed turn] late unresolved.
Definition fine (turn : string) : answer := answered turn 0 false.
Definition times (n i : nat) (a : answer) : list action := repeat (Run i a) n.
Definition after (l : list action) : system := default initial_system (checked l initial_system).

(** The first planning turn is sent, but not yet answered. *)
Definition sent_plan : list action := Spawn InitialEnter :: times 18 0 (fine "turn-1").
(** A pause then asks the sequence to stop. *)
Definition paused_plan : list action := sent_plan ++ Spawn InterruptRequest :: times 3 1 (fine "turn-1").
(** The plan is completed and the implementation turn runs. *)
Definition implementing_run : list action := Spawn InitialEnter :: times 42 0 (fine "turn-1").

(** A call of the review tool in the given turn; [unresolved]: the turn ends as
    completed with another planning call undelivered; [late]: a timer fires. *)
Definition review_call (turn : string) : option jvalue :=
  Some (JObject [(bs "threadId", JString (bs "turn-1")); (bs "turnId", JString (bs turn)); (bs "callId", JString (bs "call-1"));
    (bs "tool", JString (bs "review")); (bs "arguments", JObject [(bs "proposal", JString (bs "a plan"))])]).
Definition unresolved : answer := answered "turn-1" 1 false.
Definition late : answer := answered "turn-1" 0 true.
(** Every call succeeded and no timer fired. *)
Definition plain (act : action) : bool :=
  match act with
  | Run _ a => match anErr a, anErr2 a with None, None => negb (anTimeout a) | _, _ => false end
  | Spawn _ => true
  end.

(** The observer and the handler of the call: goroutines [i] and [i + 1]. *)
Definition review_requested (i : nat) (turn : string) : list action :=
  Spawn (ObserverEnter (review_call turn)) :: times 4 i (fine turn) ++ Spawn (HandlerEnter (review_call turn)) :: times 5 (S i) (fine turn).

(** A planning turn asks for a review and ends as completed with an undelivered
    call; planning is retried as the summary says, and completes. *)
Definition retried_plan : list action :=
  Spawn InitialEnter :: times 22 0 (fine "turn-1") ++ review_requested 1 "turn-1" ++ Run 0 unresolved :: times 9 0 (fine "turn-1")
  ++ Spawn (PlanningContinuationCheck (bs "again")) :: times 18 3 (fine "turn-2") ++ times 24 3 (fine "turn-3").

(** An exit-interview turn in which the review tool is called. *)
Definition interviewed : list action :=
  Spawn InitialEnter :: times 50 0 (fine "turn-1") ++ Spawn RetainEnter :: times 1 1 (fine "turn-2") ++ Spawn InterviewBegin :: times 1 2 (fine "turn-2")
  ++ Spawn (InterviewEnter (bs "why?")) :: times 9 3 (fine "turn-2") ++ review_requested 4 "turn-2".

(** The review of a planning turn is completed and continued. *)
Definition reviewed_plan : list action :=
  Spawn InitialEnter :: times 22 0 (fine "turn-1") ++ review_requested 1 "turn-1" ++ times 8 0 (fine "turn-1")
  ++ times 18 0 (fine "turn-2").

Definition happens (o : option system) : bool := match o with Some _ => true | None => false end.

Lemma after_reachable l : happens (checked l initial_system) = true → session_reachable id None (after l).
Proof. intros H. apply (checked_steps l). unfold after. by destruct (checked l initial_system). Qed.

Lemma checked_app l l' sy : checked (l ++ l') sy = checked l sy ≫= checked l'.
Proof.
  revert sy. induction l as [|act l IH]; intros sy; cbn; [done|]. destruct (match act with Run _ _ => _ | _ => _ end); [|done].
  destruct (system_step id None act sy); [|done]. apply IH.
Qed.
Lemma checked_final l l' : happens (checked (l ++ l') initial_system) = true → checked l' (after l) = Some (after (l ++ l')).
Proof.
  unfold after. rewrite checked_app. destruct (checked l initial_system) as [sy|]; [|done]. cbn. by destruct (checked l' sy).
Qed.

Definition final (l : list action) (sy : system) : system := default initial_system (run id None l sy).
Lemma run_final l sy : happens (run id None l sy) = true → run id None l sy = Some (final l sy).
Proof. unfold final. by destruct (run id None l sy). Qed.

Lemma pick {A} (o : option A) (f : A → bool) b : f <$> o = Some b → ∃ x, o = Some x ∧ f x = b.
Proof. destruct o as [x|]; [|done]. intros [= E]. by exists x. Qed.

Lemma no_harness : ∀ h, (None : option jvalue) = Some h → json_ok h ∧ (json_depth h ≤ 100)%nat.
Proof. done. Qed.

End session_example.
Import session_example.

(** A schedule that shows a defect: a planning turn that asks for a review and ends as
    completed with another call undelivered leaves its review pending. When planning
    is retried, as the operator is told to, and completes, the stale review is run
    and continued as a planning turn, which the completed evidence refuses: without
    any call failing, the session ends unusable with a completed plan it does not
    acknowledge. *)
Example undelivered_review_spoils_plan :
  ∃ l sy, forallb plain l = true ∧ run id None l initial_system = Some sy
    ∧ (λ e, plOutcome (peManifest e)) <$> gsEvidence (sySession sy) = Some PlanCompleted
    ∧ gsPlanningCompleted (sySession sy) = false ∧ gsHealthy (sySession sy) = false ∧ gsClosed (sySession sy) = false.
Proof.
  exists retried_plan, (final retried_plan initial_system). split; [by vm_compute|]. split; [apply run_final; by vm_compute|].
  repeat split; by vm_compute.
Qed.

(** Another one: a call of the review tool in an exit interview is denied,
    but the observer has already made it a pending review. A pause of the interview
    turn then waits for the turn to end without asking the app server to interrupt
    it, and when its timer fires the session is closed while the turn still runs. *)
Example interview_review_defeats_pause :
  ∃ l sy i j sy', forallb plain l = true ∧ run id None l initial_system = Some sy
    ∧ gsMode (sySession sy) = GenerationModeInterviewTurn ∧ gsClosed (sySession sy) = false
    ∧ (∃ c ad, syThreads sy !! j = Some (TurnWait c ad)) ∧ syThreads sy !! i = None
    ∧ run id None (Spawn InterruptRequest :: times 3 i (fine "turn-2") ++ Run i late :: times 3 i (fine "turn-2")) sy = Some sy'
    ∧ gsClosed (sySession sy') = true ∧ ∃ c ad, syThreads sy' !! j = Some (TurnWait c ad).
Proof.
  assert (Hw : ∀ o : option pc, (λ p, match p with TurnWait _ _ => true | _ => false end) <$> o = Some true → ∃ c ad, o = Some (TurnWait c ad)).
  { intros o H. apply pick in H as (p & -> & Hp). destruct p; try done. by eexists _, _. }
  exists interviewed, (final interviewed initial_system), 6%nat, 3%nat.
  exists (final (Spawn InterruptRequest :: times 3 6 (fine "turn-2") ++ Run 6 late :: times 3 6 (fine "turn-2")) (final interviewed initial_system)).
  split; [by vm_compute|]. split; [apply run_final; by vm_compute|]. split; [by vm_compute|]. split; [by vm_compute|].
  split; [apply Hw; by vm_compute|]. split; [by vm_compute|]. split; [apply run_final; by vm_compute|]. split; [by vm_compute|].
  apply Hw. by vm_compute.
Qed.

Lemma one_turn_at_a_time_witness :
  ∃ p, syThreads (after implementing_run) !! 0%nat = Some p ∧ in_turn p = true
    ∧ (gsClosed (sySession (after implementing_run)) = true ∨ gsTurnStarting (sySession (after implementing_run)) = true
       ∨ gsTurn (sySession (after implementing_run)) ≠ []).
Proof.
  destruct (pick (syThreads (after implementing_run) !! 0%nat) in_turn true) as (p & Hi & Hp); [by vm_compute|].
  exists p. split; [exact Hi|]. split; [exact Hp|].
  refine (proj2 (one_turn_at_a_time id None no_harness (after implementing_run) 0 0 p p _ Hi Hi Hp Hp)).
  apply after_reachable. by vm_compute.
Defined.

Lemma implementation_after_plan_witness :
  ∃ rq e, rq ∈ gsSent (sySession (after implementing_run)) ∧ rqPermission rq = implementorPermissionProfile
    ∧ gsEvidence (sySession (after implementing_run)) = Some e ∧ plOutcome (peManifest e) = PlanCompleted.
Proof.
  destruct (pick (gsSent (sySession (after implementing_run)) !! 1%nat) (λ rq, bool_decide (rqPermission rq = implementorPermissionProfile)) true)
    as (rq & Hi & Hp); [by vm_compute|]. apply bool_decide_eq_true in Hp. apply list_elem_of_lookup_2 in Hi.
  destruct (implementation_after_plan id None no_harness (after implementing_run) rq) as (e & r & content & contents & He & Ho & _);
    [apply after_reachable; by vm_compute|exact Hi|exact Hp|]. exists rq, e. exact (conj Hi (conj Hp (conj He Ho))).
Defined.

Lemma interview_is_last_witness : gsMode (sySession (after interviewed)) ≠ GenerationMode.
Proof.
  destruct (pick (gsSent (sySession (after interviewed)) !! 2%nat) (λ rq, bool_decide (rqPermission rq = interviewPermissionProfile)) true)
    as (rq & Hi & Hp); [by vm_compute|]. apply bool_decide_eq_true in Hp. apply take_drop_middle in Hi.
  refine (proj2 (proj2 (interview_is_last id None no_harness (after interviewed) _ rq _ _ (eq_sym Hi)) Hp)).
  apply after_reachable. by vm_compute.
Defined.

Lemma review_continued_once_witness : NoDup (gsContinued (sySession (after reviewed_plan))) ∧ gsContinued (sySession (after reviewed_plan)) = [0%nat].
Proof.
  split; [|by vm_compute]. refine (proj1 (review_continued_once id None no_harness (after reviewed_plan) _)).
  apply after_reachable. by vm_compute.
Defined.

Lemma stopped_sequence_never_implements_witness :
  gsStopBefore (sySession (after paused_plan)) = true
  ∧ ∃ p', syThreads (after (paused_plan ++ times 16 0 (fine "turn-1"))) !! 0%nat = Some p' ∧ implementing p' = false.
Proof.
  split; [by vm_compute|].
  destruct (pick (syThreads (after paused_plan) !! 0%nat) (λ p, in_sequence p && negb (implementing p)) true) as (p & Hi & Hp); [by vm_compute|].
  apply andb_true_iff in Hp as [Hs Hn]. apply negb_true_iff in Hn.
  destruct (pick (syThreads (after (paused_plan ++ times 16 0 (fine "turn-1"))) !! 0%nat) (λ _, true) true) as (p' & Hi' & _); [by vm_compute|].
  exists p'. split; [exact Hi'|].
  refine (stopped_sequence_never_implements id None no_harness (after paused_plan) _ 0 p p' _ Hi Hs Hn _ _ Hi').
  - apply after_reachable. by vm_compute.
  - right. split; by vm_compute.
  - apply (checked_steps (times 16 0 (fine "turn-1"))). apply checked_final; by vm_compute.
Defined.

