(* ===== verification/BootstrapRequest.v ===== *)
(** * Bootstrap jobs: requests and results (src/internal/bootstrap/request.go)

    What a guest asks of the bootstrap service and what it is told: the request, its
    strict JSON reader and its validation, the fixed limits, and the inputs a worker
    stages before it runs a job (stageInputs of worker_linux.go). *)

From S2P Require Import Prelude GoStd Sha256 SourceCapacity Snapshot Json FeatureStore ArchiveRecord JsonTree JsonCompact JsonStruct.
Open Scope Z_scope.

Definition Image : bytes := bs "docker.io/library/gcc@sha256:a689e29bc3adf4663ef9a141d23081252764d1319c63f591a027bd6fd676f4c1".
Definition ImageID : bytes := bs "f3d916a4884034b89cb6148781f07d8c92d94b6c6dc1b74dcbec3475d16400da".
Definition TCCCommit : bytes := bs "0fb54300b56512754221d80adda85ddb9815bceb".
Definition TCCSHA256 : bytes := bs "e696d12b9429faf08a08aeeaffe96769370e5ea50cf98218f45c74956b3b3f18".
Definition MaxRequest : Z := 16 * 1024.
Definition MaxDiagnostics : Z := 64 * 1024.
Definition MaxInputs : Z := 64 * 1024 * 1024.
Definition MaxOutput : Z := 16 * 1024 * 1024.
Definition MaxOutputs : Z := 32 * 1024 * 1024.
Definition MaxRead : Z := 1024 * 1024.
Definition MaxRunBytes : Z := 128 * 1024 * 1024.
Definition MaxGlobalBytes : Z := 512 * 1024 * 1024.
Definition MaxManifest : Z := 1024 * 1024.

(** ** Limits *)

(** The struct has one integer per name; a value is the list of them in the order of
    the declaration. *)
Definition limitNames : list bytes := map bs
  ["cpu"; "memory_bytes"; "swap_bytes"; "pids"; "aggregate_cpu"; "aggregate_memory_bytes"; "aggregate_pids"; "seconds";
   "capture_seconds"; "stop_grace_seconds"; "cleanup_seconds"; "scratch_bytes"; "tmp_bytes"; "supervisor_control_bytes";
   "file_size_bytes"; "open_files"; "core_size_bytes"; "diagnostic_bytes"; "input_bytes"; "read_bytes"; "output_count";
   "output_file_bytes"; "output_total_bytes"; "run_bytes"; "global_bytes"; "retained_jobs"; "retained_artifacts";
   "retained_failures"; "failure_bytes"].
Abbreviation Limits := (list Z).
Definition noLimits : Limits := replicate 29 0.

Definition Baseline : Limits :=
  [1; 512 * 1024 * 1024; 0; 64; 1; 768 * 1024 * 1024; 96; 180; 15; 2; 5; 256 * 1024 * 1024; 16 * 1024 * 1024; 1024 * 1024;
   64 * 1024 * 1024; 128; 0; MaxDiagnostics; MaxInputs; MaxRead; 32; MaxOutput; MaxOutputs; MaxRunBytes; MaxGlobalBytes;
   64; 256; 32; 2 * 1024 * 1024].

(** One field per name. *)
Definition limit_fields : list (field Limits) :=
  imap (λ i name, mkField name (λ _, false) (λ l, from_int (default 0 (l !! i)))
                    (λ v l, (λ x, <[i := x]> l) <$> to_int v (default 0 (l !! i)))) limitNames.

(** ** Requests and results *)

Record AssetRef := mkAssetRef { arID : bytes; arSHA256 : bytes }.
Record Request := mkRequest {
  rqVersion : Z;
  rqArgv : option (list bytes);
  rqAssets : option (list AssetRef);
  rqArtifacts : option (list bytes);
  rqOutputs : option (list bytes)
}.
Record Input := mkInput { inPath : bytes; inData : bytes }.
Record Artifact := mkArtifact { afID : bytes; afName : bytes; afSize : Z }.
Record Result := mkResult {
  rsJobID : bytes;
  rsWorkerSHA256 : bytes;
  rsControls : gmap bytes bytes;
  rsResourceEvents : gmap bytes Z;
  rsStatus : Z;
  rsReason : bytes;
  rsDiagnostics : bytes;
  rsExitCode : Z;
  rsOOM : bool;
  rsCleaned : bool;
  rsArtifacts : option (list Artifact)
}.

Definition argv (r : Request) : list bytes := default [] (rqArgv r).
Definition assets (r : Request) : list AssetRef := default [] (rqAssets r).
Definition artifacts (r : Request) : list bytes := default [] (rqArtifacts r).
Definition outputs (r : Request) : list bytes := default [] (rqOutputs r).

#[global] Instance AssetRef_eq_dec : EqDecision AssetRef.
Proof. solve_decision. Defined.
#[global] Instance Request_eq_dec : EqDecision Request.
Proof. solve_decision. Defined.
#[global] Instance Artifact_eq_dec : EqDecision Artifact.
Proof. solve_decision. Defined.

Definition noAssetRef : AssetRef := mkAssetRef [] [].
Definition noRequest : Request := mkRequest 0 None None None None.
Definition noArtifact : Artifact := mkArtifact [] [] 0.
Definition noResult : Result := mkResult [] [] ∅ ∅ 0 [] [] 0 false false None.

(** A refusal that started nothing. *)
Definition refused (reason : string) (diagnostics : bytes) : Result :=
  mkResult [] [] ∅ ∅ 2 (bs reason) diagnostics 0 false true None.

Definition asset_ref_fields : list (field AssetRef) :=
  [kept "id" (λ a, JString (arID a)) (λ v a, (λ x, mkAssetRef x (arSHA256 a)) <$> to_string v (arID a));
   kept "sha256" (λ a, JString (arSHA256 a)) (λ v a, (λ x, mkAssetRef (arID a) x) <$> to_string v (arSHA256 a))].
Definition asset_ref_json : AssetRef → jvalue := struct_json asset_ref_fields.
Definition to_asset_ref : jvalue → AssetRef → option AssetRef := to_table asset_ref_fields.

Definition request_fields : list (field Request) :=
  [kept "version" (λ r, from_int (rqVersion r))
     (λ v r, (λ x, mkRequest x (rqArgv r) (rqAssets r) (rqArtifacts r) (rqOutputs r)) <$> to_int v (rqVersion r));
   kept "argv" (λ r, from_slice JString (rqArgv r))
     (λ v r, (λ x, mkRequest (rqVersion r) x (rqAssets r) (rqArtifacts r) (rqOutputs r)) <$> to_slice to_string [] v (rqArgv r));
   kept "assets" (λ r, from_slice asset_ref_json (rqAssets r))
     (λ v r, (λ x, mkRequest (rqVersion r) (rqArgv r) x (rqArtifacts r) (rqOutputs r)) <$> to_slice to_asset_ref noAssetRef v (rqAssets r));
   kept "artifacts" (λ r, from_slice JString (rqArtifacts r))
     (λ v r, (λ x, mkRequest (rqVersion r) (rqArgv r) (rqAssets r) x (rqOutputs r)) <$> to_slice to_string [] v (rqArtifacts r));
   kept "outputs" (λ r, from_slice JString (rqOutputs r))
     (λ v r, (λ x, mkRequest (rqVersion r) (rqArgv r) (rqAssets r) (rqArtifacts r) x) <$> to_slice to_string [] v (rqOutputs r))].
Definition request_json : Request → jvalue := struct_json request_fields.
Definition to_request : jvalue → Request → option Request := to_table request_fields.

Definition artifact_fields : list (field Artifact) :=
  [kept "id" (λ a, JString (afID a)) (λ v a, (λ x, mkArtifact x (afName a) (afSize a)) <$> to_string v (afID a));
   kept "name" (λ a, JString (afName a)) (λ v a, (λ x, mkArtifact (afID a) x (afSize a)) <$> to_string v (afName a));
   kept "size" (λ a, from_int (afSize a)) (λ v a, (λ x, mkArtifact (afID a) (afName a) x) <$> to_int v (afSize a))].
Definition artifact_json : Artifact → jvalue := struct_json artifact_fields.
Definition to_artifact : jvalue → Artifact → option Artifact := to_table artifact_fields.

(** The record with one field replaced, as the decoder assigns it. *)
Definition result_fields : list (field Result) :=
  [mkField (bs "job_id") (λ r, bool_decide (rsJobID r = [])) (λ r, JString (rsJobID r))
     (λ v r, let 'mkResult a b c d e f g h i j k := r in (λ x, mkResult x b c d e f g h i j k) <$> to_string v a);
   mkField (bs "worker_sha256") (λ r, bool_decide (rsWorkerSHA256 r = [])) (λ r, JString (rsWorkerSHA256 r))
     (λ v r, let 'mkResult a b c d e f g h i j k := r in (λ x, mkResult a x c d e f g h i j k) <$> to_string v b);
   mkField (bs "controls") (λ r, bool_decide (rsControls r = ∅)) (λ r, from_map JString (rsControls r))
     (λ v r, let 'mkResult a b c d e f g h i j k := r in (λ x, mkResult a b x d e f g h i j k) <$> to_map to_string [] v c);
   mkField (bs "resource_events") (λ r, bool_decide (rsResourceEvents r = ∅)) (λ r, from_map from_uint64 (rsResourceEvents r))
     (λ v r, let 'mkResult a b c d e f g h i j k := r in (λ x, mkResult a b c x e f g h i j k) <$> to_map to_uint64 0 v d);
   kept "status" (λ r, from_uint64 (rsStatus r))
     (λ v r, let 'mkResult a b c d e f g h i j k := r in (λ x, mkResult a b c d x f g h i j k) <$> to_uint32 v e);
   kept "reason" (λ r, JString (rsReason r))
     (λ v r, let 'mkResult a b c d e f g h i j k := r in (λ x, mkResult a b c d e x g h i j k) <$> to_string v f);
   kept "diagnostics" (λ r, JString (rsDiagnostics r))
     (λ v r, let 'mkResult a b c d e f g h i j k := r in (λ x, mkResult a b c d e f x h i j k) <$> to_string v g);
   kept "exit_code" (λ r, from_int (rsExitCode r))
     (λ v r, let 'mkResult a b c d e f g h i j k := r in (λ x, mkResult a b c d e f g x i j k) <$> to_int v h);
   kept "oom" (λ r, JBool (rsOOM r))
     (λ v r, let 'mkResult a b c d e f g h i j k := r in (λ x, mkResult a b c d e f g h x j k) <$> to_bool v i);
   kept "cleaned" (λ r, JBool (rsCleaned r))
     (λ v r, let 'mkResult a b c d e f g h i j k := r in (λ x, mkResult a b c d e f g h i x k) <$> to_bool v j);
   kept "artifacts" (λ r, from_slice artifact_json (rsArtifacts r))
     (λ v r, let 'mkResult a b c d e f g h i j k := r in (λ x, mkResult a b c d e f g h i j x) <$> to_slice to_artifact noArtifact v k)].
Definition result_json : Result → jvalue := struct_json result_fields.
Definition to_result : jvalue → Result → option Result := to_table result_fields.

(** ** Names *)

Definition Digest : bytes → bytes := sha256_hex.

(** Sixty-four hexadecimal digits, none in upper case. *)
Definition validID (s : bytes) : bool :=
  (len s =? 64) && forallb (λ b, match json.hex_value b with Some _ => true | None => false end) s
  && forallb (λ b, negb ((0x41 <=? b2z b) && (b2z b <=? 0x5a))) s.

Definition unsafe_characters : bytes := [x00; x0d; x0a; x5c].
Definition safePath (s : bytes) : bool :=
  if bool_decide (s = []) || (255 <? len s) || negb (utf8.Valid s) || strings.ContainsAny s unsafe_characters
     || strings.HasPrefix s (bs "/") then false
  else forallb (λ c, negb (bool_decide (c = [])) && negb (bool_decide (c = bs ".")) && negb (bool_decide (c = bs "..")))
         (strings.Split s x2f).
Definition safeAssetID (s : bytes) : bool := safePath s && negb (strings.ContainsByte s x2f).

(** ** Validation *)

Fixpoint checkArgv (l : list bytes) (total : Z) : result Z :=
  match l with
  | [] => Ok total
  | a :: l =>
      if (1024 <? len a) || negb (utf8.Valid a) || strings.ContainsByte a x00 then Err (PlainError (txt "invalid job argument"))
      else checkArgv l (total + len a)
  end.

(** The keys of [seen] carry a letter per kind, so each list has its own. *)
Fixpoint checkAssets (l : list AssetRef) (seen : list bytes) : result unit :=
  match l with
  | [] => Ok ()
  | a :: l =>
      if negb (safeAssetID (arID a)) || negb (validID (arSHA256 a)) || bool_decide (arID a ∈ seen) then
        Err (PlainError (txt "invalid/duplicate asset reference"))
      else checkAssets l (arID a :: seen)
  end.
Fixpoint checkArtifacts (l : list bytes) (seen : list bytes) : result unit :=
  match l with
  | [] => Ok ()
  | a :: l =>
      if negb (validID a) || bool_decide (a ∈ seen) then Err (PlainError (txt "invalid/duplicate artifact reference"))
      else checkArtifacts l (a :: seen)
  end.
Fixpoint checkOutputs (l : list bytes) (seen : list bytes) : result unit :=
  match l with
  | [] => Ok ()
  | p :: l =>
      if negb (safePath p) || bool_decide (p ∈ seen) then Err (PlainError (txt "unsafe/duplicate output path " ++ [Quoted p]))
      else checkOutputs l (p :: seen)
  end.

Definition Request_Validate (r : Request) : result unit :=
  if negb (rqVersion r =? 1) || (len (argv r) =? 0) || (32 <? len (argv r)) || bool_decide (head (argv r) = Some []) then
    Err (PlainError (txt "invalid job version or argv"))
  else
    total ← checkArgv (argv r) 0;
    if 8192 <? total then Err (PlainError (txt "job arguments exceed 8 KiB"))
    else if (8 <? len (assets r) + len (artifacts r)) || (32 <? len (outputs r)) then
      Err (PlainError (txt "job input/output count limit"))
    else
      _ ← checkAssets (assets r) []; _ ← checkArtifacts (artifacts r) []; checkOutputs (outputs r) [].

(** ** Diagnostics *)

(** [strings.ToValidUTF8] with U+FFFD: a run of bytes that start no character becomes
    one replacement. *)
Fixpoint to_valid (fuel : nat) (inv : bool) (s : bytes) : bytes :=
  match fuel, s with
  | S fuel, b :: r =>
      if b2z b <? 0x80 then b :: to_valid fuel false r
      else
        let '(_, width) := utf8.DecodeRune s in
        if width =? 1 then (if inv then [] else [xef; xbf; xbd]) ++ to_valid fuel true r
        else takeZ width s ++ to_valid fuel false (dropZ width s)
  | _, _ => []
  end.
Definition ToValidUTF8 (s : bytes) : bytes := to_valid (length s) false s.

(** The loop that drops bytes until the text is valid. *)
Fixpoint cut_valid (fuel : nat) (s : bytes) : bytes :=
  match fuel with
  | O => s
  | S fuel => if utf8.Valid s then s else cut_valid fuel (takeZ (len s - 1) s)
  end.

Definition diagnosticText (s : bytes) : bytes :=
  let s := ToValidUTF8 s in
  if MaxDiagnostics <? len s then cut_valid (Z.to_nat MaxDiagnostics) (takeZ MaxDiagnostics s) else s.

Section Parsing.
Context (json_error : bytes → error).

Definition ParseRequest (data snapshot : bytes) (budget : Budget) : result (Request * SourceSnapshot) :=
  r ← strictJSON json_error to_request data noRequest MaxRequest;
  s ← ParseSourceSnapshotWithBudget snapshot budget;
  _ ← Request_Validate r;
  Ok (r, s).

(** ** The inputs of a worker *)

Record wireRequest := mkWire {
  wrKind : bytes;
  wrRequest : Request;
  wrSnapshot : bytes;
  wrBudget : Budget;
  wrInputs : list Input;
  wrTCCAsset : bytes
}.
Record wireResponse := mkWireResponse { wpResult : Result; wpOutputs : list Input }.

(** The paths a job mounts and their digests: a map, so a path counts once. *)
Fixpoint expectedAssets (l : list AssetRef) (tcc : bytes) (expected : gmap bytes bytes) : result (gmap bytes bytes) :=
  match l with
  | [] => Ok expected
  | a :: l =>
      if bool_decide (arID a = tcc) && negb (bool_decide (arSHA256 a = TCCSHA256)) then Err (PlainError (txt "upstream TCC pin mismatch"))
      else expectedAssets l tcc (<[bs "assets/" ++ arID a := arSHA256 a]> expected)
  end.
Definition expectedArtifacts (l : list bytes) (expected : gmap bytes bytes) : gmap bytes bytes :=
  fold_left (λ m a, <[bs "artifacts/" ++ a := a]> m) l expected.

(** [writes]: the outcome of the write of each path below the root. *)
Fixpoint stageCaptured (writes : bytes → option error) (l : list Input) (expected : gmap bytes bytes) (total : Z)
  (written : list Input) : result (list Input) :=
  match l with
  | [] => Ok written
  | i :: l =>
      match expected !! inPath i with
      | Some digest =>
          if negb (safePath (inPath i)) || negb (bool_decide (Digest (inData i) = digest)) then
            Err (PlainError (txt "captured input identity mismatch"))
          else if MaxInputs <? total + len (inData i) then Err (PlainError (txt "captured input quota"))
          else match writes (inPath i) with
          | Some e => Err e
          | None => stageCaptured writes l (delete (inPath i) expected) (total + len (inData i)) (written ++ [i])
          end
      | None => Err (PlainError (txt "captured input identity mismatch"))
      end
  end.
Fixpoint stageSource (writes : bytes → option error) (l : list SnapshotFile) (written : list Input) : result (list Input) :=
  match l with
  | [] => Ok written
  | f :: l =>
      let p := bs "source/" ++ Path f in
      match writes p with
      | Some e => Err e
      | None => stageSource writes l (written ++ [mkInput p (Content f)])
      end
  end.

(** The files written below the root, in order. *)
Definition stageInputs (writes : bytes → option error) (w : wireRequest) : result (list Input) :=
  let r := wrRequest w in
  _ ← Request_Validate r;
  '(_, snap) ← ParseRequest (Marshal (request_json r)) (wrSnapshot w) (wrBudget w);
  if negb (safeAssetID (wrTCCAsset w)) then Err (PlainError (txt "missing pinned source identity"))
  else
    expected ← expectedAssets (assets r) (wrTCCAsset w) ∅;
    let expected := expectedArtifacts (artifacts r) expected in
    if negb (len (wrInputs w) =? Z.of_nat (size expected)) then Err (PlainError (txt "captured input count mismatch"))
    else
      written ← stageCaptured writes (wrInputs w) expected 0 [];
      stageSource writes (Files snap) written.
End Parsing.

(** ** The bounded buffer of a worker's output *)

Record boundedBuffer := mkBuffer { bbBytes : bytes; bbLimit : Z; bbOverflow : bool; bbCancelled : nat }.

(** [Write]: it keeps what fits and cancels once, at the first byte that does not. *)
Definition boundedBuffer_Write (p : bytes) (b : boundedBuffer) : Z * boundedBuffer :=
  let n := len p in
  let left := bbLimit b - len (bbBytes b) in
  if left <? n then
    (n, mkBuffer (bbBytes b ++ takeZ left p) (bbLimit b) true (if bbOverflow b then bbCancelled b else S (bbCancelled b)))
  else (n, mkBuffer (bbBytes b ++ p) (bbLimit b) (bbOverflow b) (bbCancelled b)).
