(* ===== verification/BootstrapRequestProofs.v ===== *)
(** * Bootstrap jobs: what requests guarantee

    Safe paths, the exact inputs of a worker, requests that reach it, bounded
    diagnostics. *)

From S2P Require Import Prelude GoStd Sha256 SourceCapacity Snapshot Json FeatureStore FeatureProofs ArchiveRecord JsonTree JsonCompact JsonStruct BootstrapRequest.
Open Scope Z_scope.

(** ** Reading back *)

(** The fields of a table that were written, one after the other. *)
Ltac copy_table :=
  rewrite struct_reads by (vm_compute; reflexivity);
  cbn [copy_fields fdOmit fdGet fdSet kept mbind option_bind].

Lemma asset_ref_reads a : to_asset_ref (asset_ref_json a) noAssetRef = Some a.
Proof. destruct a as [i d]. unfold to_asset_ref, asset_ref_json, asset_ref_fields. by copy_table. Qed.

Lemma strings_read l : to_slice to_string [] (from_slice JString l) None = Some l.
Proof. apply to_from_slice. apply Forall_forall. done. Qed.

Lemma job_request_reads r : - 2 ^ 63 < rqVersion r < 2 ^ 63 → to_request (request_json r) noRequest = Some r.
Proof.
  destruct r as [version ar assets arts outs]. intros Hv. unfold to_request, request_json, request_fields.
  copy_table. cbn [rqVersion rqArgv rqAssets rqArtifacts rqOutputs noRequest] in *.
  rewrite to_from_int by done. cbn [fmap option_fmap option_map mbind option_bind rqVersion rqArgv rqAssets rqArtifacts rqOutputs].
  rewrite strings_read. cbn [fmap option_fmap option_map mbind option_bind rqVersion rqArgv rqAssets rqArtifacts rqOutputs].
  rewrite to_from_slice by (apply Forall_forall; intros; apply asset_ref_reads).
  cbn [fmap option_fmap option_map mbind option_bind rqVersion rqArgv rqAssets rqArtifacts rqOutputs].
  rewrite strings_read. cbn [fmap option_fmap option_map mbind option_bind rqVersion rqArgv rqAssets rqArtifacts rqOutputs].
  by rewrite strings_read.
Qed.

(** ** What validation guarantees *)

Lemma hex_low b : (match json.hex_value b with Some _ => true | None => false end) = true → b2z b < 0x80.
Proof. by destruct b. Qed.

Lemma validID_valid s : validID s = true → utf8.Valid s = true ∧ len s = 64.
Proof.
  unfold validID. intros H. zbool. split; [|done]. apply utf8.Valid_ascii, Forall_forall. intros b Hb.
  apply hex_low. match goal with Hx : forallb (λ b, match json.hex_value b with _ => _ end) s = true |- _ => rewrite forallb_forall in Hx; apply Hx end.
  by apply list_elem_of_In.
Qed.

(** What [safePath] accepts. *)
Definition path_safe (s : bytes) : Prop :=
  s ≠ [] ∧ len s ≤ 255 ∧ utf8.Valid s = true ∧ (∀ c, c ∈ unsafe_characters → c ∉ s) ∧ Forall component_ok (strings.Split s x2f).

Lemma safePath_ok s : safePath s = true → path_safe s.
Proof.
  unfold safePath, path_safe. intros H. destruct (_ || _) eqn:E in H; [done|]. zbool. rewrite ContainsAny_false in *. split_and!; try done.
  apply Forall_forall. intros c Hc. rewrite forallb_forall in H. apply list_elem_of_In, H in Hc. zbool. done.
Qed.

Record request_ok (r : Request) : Prop := {
  ro_version : rqVersion r = 1;
  ro_argv : 1 ≤ len (argv r) ≤ 32 ∧ Forall (λ a, len a ≤ 1024 ∧ utf8.Valid a = true ∧ x00 ∉ a) (argv r);
  ro_assets : Forall (λ a, path_safe (arID a) ∧ x2f ∉ arID a ∧ validID (arSHA256 a) = true) (assets r) ∧ NoDup (arID <$> assets r);
  ro_artifacts : Forall (λ a, validID a = true) (artifacts r) ∧ NoDup (artifacts r);
  ro_outputs : Forall path_safe (outputs r) ∧ NoDup (outputs r);
  ro_counts : len (assets r) + len (artifacts r) ≤ 8 ∧ len (outputs r) ≤ 32
}.

Lemma checkArgv_ok l n m : checkArgv l n = Ok m → Forall (λ a, len a ≤ 1024 ∧ utf8.Valid a = true ∧ x00 ∉ a) l.
Proof.
  revert n. induction l as [|a l IH]; intros n H; [done|]. cbn [checkArgv] in H.
  destruct (_ || _) eqn:E in H; [done|]. zbool. rewrite ContainsByte_false in *. constructor; [done|]. by eapply IH.
Qed.

Lemma checkAssets_ok l seen : checkAssets l seen = Ok () →
  Forall (λ a, path_safe (arID a) ∧ x2f ∉ arID a ∧ validID (arSHA256 a) = true) l
  ∧ NoDup (arID <$> l) ∧ ∀ x, x ∈ arID <$> l → x ∉ seen.
Proof.
  revert seen. induction l as [|a l IH]; intros seen H; [split_and!; [done|constructor|]; intros x Hx; by apply not_elem_of_nil in Hx|].
  cbn [checkAssets] in H. destruct (_ || _) eqn:E in H; [done|]. zbool. destruct (IH _ H) as (HA & HB & HC).
  unfold safeAssetID in *. zbool. rewrite ContainsByte_false in *. split_and!.
  - constructor; [|done]. split_and!; [by apply safePath_ok|done..].
  - cbn. constructor; [|done]. intros Hin. apply (HC _ Hin). by left.
  - intros x. cbn. intros [->|Hx]%elem_of_cons; [done|]. apply HC in Hx. intros ?. apply Hx. by right.
Qed.

Lemma checkArtifacts_ok l seen : checkArtifacts l seen = Ok () →
  Forall (λ a, validID a = true) l ∧ NoDup l ∧ ∀ x, x ∈ l → x ∉ seen.
Proof.
  revert seen. induction l as [|a l IH]; intros seen H; [split_and!; [done|constructor|]; intros x Hx; by apply not_elem_of_nil in Hx|].
  cbn [checkArtifacts] in H. destruct (_ || _) eqn:E in H; [done|]. zbool. destruct (IH _ H) as (HA & HB & HC). split_and!.
  - by constructor.
  - constructor; [|done]. intros Hin. apply (HC _ Hin). by left.
  - intros x [->|Hx]%elem_of_cons; [done|]. apply HC in Hx. intros ?. apply Hx. by right.
Qed.

Lemma checkOutputs_ok l seen : checkOutputs l seen = Ok () →
  Forall path_safe l ∧ NoDup l ∧ ∀ x, x ∈ l → x ∉ seen.
Proof.
  revert seen. induction l as [|a l IH]; intros seen H; [split_and!; [done|constructor|]; intros x Hx; by apply not_elem_of_nil in Hx|].
  cbn [checkOutputs] in H. destruct (_ || _) eqn:E in H; [done|]. zbool. destruct (IH _ H) as (HA & HB & HC). split_and!.
  - constructor; [by apply safePath_ok|done].
  - constructor; [|done]. intros Hin. apply (HC _ Hin). by left.
  - intros x [->|Hx]%elem_of_cons; [done|]. apply HC in Hx. intros ?. apply Hx. by right.
Qed.

Lemma Request_Validate_ok r : Request_Validate r = Ok () → request_ok r.
Proof.
  unfold Request_Validate. intros H. destruct (_ || _) eqn:E in H; [done|].
  apply bind_Ok in H as (total & Ht & H). destruct (8192 <? total) eqn:Et; [done|].
  destruct (_ || _) eqn:Ec in H; [done|]. apply bind_Ok in H as ([] & Ha & H). apply bind_Ok in H as ([] & Hb & H). zbool.
  destruct (checkAssets_ok _ _ Ha) as (? & ? & _). destruct (checkArtifacts_ok _ _ Hb) as (? & ? & _). destruct (checkOutputs_ok _ _ H) as (? & ? & _).
  split; try done; split; try done; [|by eapply checkArgv_ok]. pose proof (len_nonneg (argv r)). lia.
Qed.

(** ** Requests reach the worker *)

(** One goal per field of a table. *)
Ltac each_field := repeat first [apply Forall_nil_2 | apply Forall_cons_2]; cbn [fdName fdOmit fdGet kept].

Lemma asset_ref_facts a : utf8.Valid (arID a) = true → utf8.Valid (arSHA256 a) = true →
  json_ok (asset_ref_json a) ∧ unambiguous (asset_ref_json a) ∧ (json_depth (asset_ref_json a) ≤ 1)%nat.
Proof.
  intros Hi Hs. unfold asset_ref_json. split_and!.
  - apply struct_json_ok. by each_field.
  - apply struct_unambiguous; [by vm_compute|]. by each_field.
  - apply struct_depth. each_field; cbn; lia.
Qed.

Lemma strings_facts l : Forall (λ s, utf8.Valid s = true) (default [] l) →
  json_ok (from_slice JString l) ∧ unambiguous (from_slice JString l) ∧ (json_depth (from_slice JString l) ≤ 1)%nat.
Proof.
  intros H. split_and!; [by apply json_ok_slice|apply unambiguous_slice|apply depth_slice]; apply Forall_forall; intros; cbn; done || lia.
Qed.

Lemma request_facts r : request_ok r →
  json_ok (request_json r) ∧ unambiguous (request_json r) ∧ (json_depth (request_json r) ≤ 3)%nat.
Proof.
  intros [Hv [_ Ha] [Has _] [Har _] [Ho _] _].
  destruct (strings_facts (rqArgv r)) as (A1 & A2 & A3); [eapply Forall_impl; [exact Ha|]; by intros x (_ & ? & _)|].
  destruct (strings_facts (rqArtifacts r)) as (B1 & B2 & B3); [eapply Forall_impl; [exact Har|]; by intros x [? _]%validID_valid|].
  destruct (strings_facts (rqOutputs r)) as (C1 & C2 & C3); [eapply Forall_impl; [exact Ho|]; by intros x (_ & _ & ? & _)|].
  assert (Hf : Forall (λ a, json_ok (asset_ref_json a) ∧ unambiguous (asset_ref_json a) ∧ (json_depth (asset_ref_json a) ≤ 1)%nat)
                 (default [] (rqAssets r))).
  { eapply Forall_impl; [exact Has|]. intros a ((_ & _ & Hi & _) & _ & [Hs _]%validID_valid). by apply asset_ref_facts. }
  assert (Hn : number_ok (strconv.Itoa 1)) by (by apply number_ok_Itoa; unfold u64).
  unfold request_json. split_and!.
  - apply struct_json_ok. each_field; (split; [done|intros _]); try done.
    + by rewrite Hv.
    + apply json_ok_slice. eapply Forall_impl; [exact Hf|]. by intros a [? _].
  - apply struct_unambiguous; [by vm_compute|]. each_field; intros _; try done.
    apply unambiguous_slice. eapply Forall_impl; [exact Hf|]. by intros a (_ & ? & _).
  - apply struct_depth. each_field; intros _; try lia; [cbn; lia|].
    apply depth_slice. eapply Forall_impl; [exact Hf|]. by intros a (_ & _ & ?).
Qed.

(** The request of an accepted call, written again, reads as itself. *)
Lemma request_again json_error r : Request_Validate r = Ok () → len (Marshal (request_json r)) ≤ MaxRequest →
  strictJSON json_error to_request (Marshal (request_json r)) noRequest MaxRequest = Ok r.
Proof.
  intros Hr Hl. pose proof (Request_Validate_ok r Hr) as Hok. destruct (request_facts r Hok) as (H1 & H2 & H3).
  rewrite <- (app_nil_r (Marshal (request_json r))). apply strict_Marshal; [done|done|lia|done|by rewrite app_nil_r|].
  apply job_request_reads. rewrite (ro_version r Hok). lia.
Qed.

(** ** Diagnostics *)

(** A character that is decoded is one. *)
Lemma DecodeRune_char s : s ≠ [] → (utf8.DecodeRune s).2 ≠ 1 → utf8.Valid (takeZ (utf8.DecodeRune s).2 s) = true.
Proof.
  destruct s as [|p0 r0]; [done|]. intros _. unfold utf8.DecodeRune.
  destruct (b2z p0 <? 0x80) eqn:E0; [done|]. destruct (utf8.lead p0) as [[[size lo] hi]|] eqn:El; [|done].
  destruct r0 as [|b1 r1]; [done|]. destruct (utf8.in_range lo hi b1) eqn:E1; cbn [negb]; [|done].
  destruct (size =? 2) eqn:Es; [intros _; change (utf8.Valid [p0; b1] = true); cbn [utf8.Valid]; by rewrite E0, El, E1, Es|].
  destruct r1 as [|b2 r2]; [done|]. destruct (utf8.cont b2) eqn:E2; cbn [negb]; [|done].
  destruct (size =? 3) eqn:Es3; [intros _; change (utf8.Valid [p0; b1; b2] = true); cbn [utf8.Valid]; rewrite E0, El, E1; cbn [negb]; by rewrite Es, E2, Es3|].
  destruct r2 as [|b3 r3]; [done|]. destruct (utf8.cont b3) eqn:E3; cbn [negb]; [|done].
  intros _; change (utf8.Valid [p0; b1; b2; b3] = true); cbn [utf8.Valid]; rewrite E0, El, E1; cbn [negb]; rewrite Es, E2; cbn [negb]; by rewrite Es3, E3.
Qed.

Lemma to_valid_valid fuel : ∀ inv s, utf8.Valid (to_valid fuel inv s) = true.
Proof.
  induction fuel as [|fuel IH]; intros inv [|b r]; try done. cbn [to_valid].
  destruct (b2z b <? 0x80) eqn:E; [by apply (Valid_app_both [b]); [cbn; rewrite E|]|].
  pose proof (DecodeRune_char (b :: r) ltac:(done)) as Hd. destruct (utf8.DecodeRune (b :: r)) as [c width]. cbn [snd] in Hd.
  destruct (width =? 1) eqn:Ew; zbool; apply Valid_app_both; auto. by destruct inv.
Qed.

Lemma cut_valid_prefix fuel s : ∃ n, cut_valid fuel s = takeZ n s.
Proof.
  revert s. induction fuel as [|fuel IH]; intros s; cbn [cut_valid]; [exists (len s); by rewrite takeZ_all by lia|].
  destruct (utf8.Valid s); [exists (len s); by rewrite takeZ_all by lia|]. destruct (IH (takeZ (len s - 1) s)) as [n ->].
  exists (Z.min n (len s - 1)). unfold takeZ. rewrite take_take. f_equal. lia.
Qed.

(** The longest valid prefix is what is left. *)
Lemma cut_valid_longest fuel s n : 0 ≤ n ≤ len s → utf8.Valid (takeZ n s) = true → len s - n ≤ Z.of_nat fuel →
  utf8.Valid (cut_valid fuel s) = true ∧ n ≤ len (cut_valid fuel s).
Proof.
  revert s. induction fuel as [|fuel IH]; intros s Hn Hv Hf; cbn [cut_valid].
  - assert (n = len s) as -> by lia. rewrite takeZ_all in Hv by lia. split; [done|lia].
  - destruct (utf8.Valid s) eqn:Es; [split; [done|lia]|].
    assert (n ≠ len s). { intros ->. rewrite takeZ_all in Hv by lia. congruence. }
    apply IH; [rewrite len_takeZ; lia| |rewrite len_takeZ; lia].
    unfold takeZ in *. rewrite take_take. by rewrite Nat.min_l by lia.
Qed.

Lemma DecodeRune_width_4 s : (utf8.DecodeRune s).2 ≤ 4.
Proof. unfold utf8.DecodeRune. destruct s; [done|]. repeat case_goal; done. Qed.

(** A valid text cut anywhere is valid after at most three more bytes. *)
Lemma valid_cut s : utf8.Valid s = true → ∀ n, 0 ≤ n ≤ len s → ∃ m, 0 ≤ m ∧ n - 3 ≤ m ≤ n ∧ utf8.Valid (takeZ m s) = true.
Proof.
  revert s. apply (utf8_ind (λ s, ∀ n, 0 ≤ n ≤ len s → ∃ m, 0 ≤ m ∧ n - 3 ≤ m ≤ n ∧ utf8.Valid (takeZ m s) = true)).
  - intros n Hn. change (len []) with 0 in Hn. exists 0. split_and!; [lia..|done].
  - intros b s Hb Hs IH n Hn. destruct (decide (n = 0)) as [->|]; [exists 0; split_and!; [lia..|done]|].
    rewrite len_cons in Hn. destruct (IH (n - 1)) as (m & ? & ? & Hm); [lia|]. exists (m + 1). split_and!; [lia..|].
    replace (takeZ (m + 1) (b :: s)) with ([b] ++ takeZ m s).
    { apply Valid_app_both; [cbn; by rewrite Hb|done]. }
    unfold takeZ. replace (Z.to_nat (m + 1)) with (S (Z.to_nat m)) by lia. done.
  - intros ch s Hch Hs IH n Hn. pose proof (wc_valid _ Hch) as Hv. pose proof (wc_width _ Hch []) as Hw. pose proof (DecodeRune_width_4 (ch ++ [])) as H4. rewrite Hw in H4.
    destruct (decide (n < len ch)) as [Hlt|Hge].
    + exists 0. split_and!; [lia|lia|lia|done].
    + rewrite len_app in Hn. destruct (IH (n - len ch)) as (m & ? & ? & Hm); [lia|].
      pose proof (len_nonneg ch). exists (len ch + m). split_and!; [lia..|]. replace (takeZ (len ch + m) (ch ++ s)) with (ch ++ takeZ m s).
      { by apply Valid_app_both. }
      unfold takeZ. rewrite take_app. f_equal; [symmetry; apply take_ge; unfold len; lia|f_equal; unfold len; lia].
Qed.

Lemma to_valid_id s : utf8.Valid s = true → ∀ fuel inv, (length s ≤ fuel)%nat → to_valid fuel inv s = s.
Proof.
  revert s. apply (utf8_ind (λ s, ∀ fuel inv, (length s ≤ fuel)%nat → to_valid fuel inv s = s)).
  - by intros [].
  - intros b s Hb _ IH [|fuel] inv Hf; [cbn in Hf; lia|]. cbn [to_valid]. rewrite Hb. f_equal. apply IH. cbn in Hf. lia.
  - intros ch s Hch _ IH fuel inv Hf. destruct (wc_bytes _ Hch) as (b0 & rest & -> & Hb0 & _).
    pose proof (wc_width _ Hch s) as Hw. destruct fuel as [|fuel]; [cbn in Hf; lia|]. cbn [to_valid app]. rewrite Hb0.
    cbn [app] in Hw. destruct (utf8.DecodeRune (b0 :: rest ++ s)) as [c width] eqn:Ed. cbn [snd] in Hw. subst width.
    destruct (len (b0 :: rest) =? 1) eqn:E1; zbool.
    { pose proof (wc_valid _ Hch) as Hv. destruct rest; [|rewrite !len_cons in E1; pose proof (len_nonneg rest); lia].
      cbn [utf8.Valid] in Hv. rewrite (proj2 (Z.ltb_ge _ _) Hb0) in Hv. by repeat case_match. }
    change (b0 :: rest ++ s) with ((b0 :: rest) ++ s). rewrite takeZ_app, dropZ_app by done. f_equal. apply IH.
    rewrite length_app in Hf. cbn in Hf. lia.
Qed.

Lemma cut_within limit s : 0 ≤ limit → utf8.Valid s = true →
  let d := if limit <? len s then cut_valid (Z.to_nat limit) (takeZ limit s) else s in
  utf8.Valid d = true ∧ len d ≤ limit ∧ (∃ n, d = takeZ n s) ∧ Z.min (len s) (limit - 3) ≤ len d.
Proof.
  intros Hm Hv. cbn zeta. destruct (limit <? len s) eqn:E; zbool.
  - set (t := takeZ limit s). assert (Ht : len t = limit) by (apply len_takeZ; lia).
    destruct (valid_cut _ Hv limit) as (m & Hm0 & Hm3 & Hmv); [lia|].
    destruct (cut_valid_longest (Z.to_nat limit) t m) as [Hc Hl]; [lia| |lia|].
    { unfold t, takeZ in *. rewrite take_take. by rewrite Nat.min_l by lia. }
    destruct (cut_valid_prefix (Z.to_nat limit) t) as [n Hn]. split_and!.
    + done.
    + rewrite Hn. unfold takeZ, len in *. rewrite length_take. lia.
    + exists (Z.min n limit). rewrite Hn. unfold t, takeZ. rewrite take_take. f_equal. lia.
    + lia.
  - split_and!; [done|lia|exists (len s); by rewrite takeZ_all by lia|lia].
Qed.

(** What is shown of the diagnostics of a job is UTF-8 within the bound: a text that
    already was is shown as it is, and a longer one keeps all but the last three bytes
    that fit. *)
Theorem diagnostics_bounded s :
  utf8.Valid (diagnosticText s) = true ∧ len (diagnosticText s) ≤ MaxDiagnostics
  ∧ (∃ n, diagnosticText s = takeZ n (ToValidUTF8 s))
  ∧ Z.min (len (ToValidUTF8 s)) (MaxDiagnostics - 3) ≤ len (diagnosticText s)
  ∧ (utf8.Valid s = true → len s ≤ MaxDiagnostics → diagnosticText s = s).
Proof.
  pose proof (to_valid_valid (length s) false s) as Hv. fold (ToValidUTF8 s) in Hv.
  assert (Hm : 0 ≤ MaxDiagnostics) by (unfold MaxDiagnostics; lia).
  destruct (cut_within MaxDiagnostics _ Hm Hv) as (H1 & H2 & H3 & H4).
  split_and!; [exact H1|exact H2|exact H3|exact H4|].
  intros Hs Hl. unfold diagnosticText. assert (ToValidUTF8 s = s) as -> by (by apply to_valid_id).
  by rewrite (proj2 (Z.ltb_ge _ _)) by lia.
Qed.

(** ** Staged inputs *)

(** The paths a request mounts, with the digests of their content. *)
Definition mounted (r : Request) : list (bytes * bytes) :=
  ((λ a, (bs "assets/" ++ arID a, arSHA256 a)) <$> assets r) ++ ((λ a, (bs "artifacts/" ++ a, a)) <$> artifacts r).

Lemma expectedAssets_ok l tcc m m' : expectedAssets l tcc m = Ok m' →
  m' = fold_left (λ m e, <[e.1 := e.2]> m) ((λ a, (bs "assets/" ++ arID a, arSHA256 a)) <$> l) m.
Proof.
  revert m. induction l as [|a l IH]; intros m H; [by injection H as ->|]. cbn [expectedAssets] in H.
  destruct (_ && _) in H; [done|]. by apply IH.
Qed.

Lemma expectedArtifacts_eq l m : expectedArtifacts l m = fold_left (λ m e, <[e.1 := e.2]> m) ((λ a, (bs "artifacts/" ++ a, a)) <$> l) m.
Proof. unfold expectedArtifacts. revert m. induction l as [|a l IH]; intros m; [done|]. apply IH. Qed.

Lemma fold_insert_map (l : list (bytes * bytes)) (m : gmap bytes bytes) : NoDup l.*1 → (∀ k, k ∈ l.*1 → m !! k = None) →
  fold_left (λ m e, <[e.1 := e.2]> m) l m = list_to_map l ∪ m.
Proof.
  revert m. induction l as [|[k x] l IH]; intros m Hn Hm; cbn [fold_left fst snd]; [by rewrite left_id_L by apply _|].
  apply NoDup_cons in Hn as [Hk Hn]. rewrite IH; [|done|].
  - cbn [list_to_map foldr fst snd]. rewrite <- insert_union_l. rewrite insert_union_r; [done|]. by apply not_elem_of_list_to_map.
  - intros j Hj. rewrite lookup_insert_ne by (intros ->; done). apply Hm. by right.
Qed.

Lemma mounted_NoDup r : request_ok r → NoDup (mounted r).*1.
Proof.
  intros [_ _ [_ Ha] [_ Hb] _ _]. unfold mounted. rewrite fmap_app, <- !list_fmap_compose. apply NoDup_app. split_and!.
  - rewrite (list_fmap_ext _ (λ a, bs "assets/" ++ arID a)) by done. rewrite (list_fmap_compose arID (λ x, bs "assets/" ++ x)).
    apply NoDup_fmap_2; [|done]. intros x y E. by apply app_inv_head in E.
  - intros x (a & -> & _)%list_elem_of_fmap (b & E & _)%list_elem_of_fmap. cbn in E. discriminate E.
  - apply NoDup_fmap_2; [|done]. intros x y E. cbn in E. by simplify_eq.
Qed.

Lemma expected_mounted r tcc m : request_ok r → expectedAssets (assets r) tcc ∅ = Ok m →
  expectedArtifacts (artifacts r) m = list_to_map (mounted r).
Proof.
  intros Hr Hm. rewrite expectedArtifacts_eq, (expectedAssets_ok _ _ _ _ Hm), <- fold_left_app.
  rewrite (fold_insert_map (mounted r)); [by rewrite right_id_L by apply _|by apply mounted_NoDup|intros; apply lookup_empty].
Qed.

Definition total_data (l : list Input) : Z := fold_right (λ i n, len (inData i) + n) 0 l.

Lemma stageCaptured_ok writes l : ∀ expected total written out,
  stageCaptured writes l expected total written = Ok out → total ≤ MaxInputs →
  out = written ++ l ∧ NoDup (inPath <$> l) ∧ total + total_data l ≤ MaxInputs
  ∧ Forall (λ i, expected !! inPath i = Some (Digest (inData i)) ∧ path_safe (inPath i)) l.
Proof.
  induction l as [|i l IH]; intros expected total written out H Ht; cbn [stageCaptured] in H.
  - injection H as ->. rewrite app_nil_r. split_and!; [done|constructor|cbn; lia|done].
  - destruct (expected !! inPath i) as [d|] eqn:Ed; [|done]. destruct (_ || _) eqn:E in H; [done|].
    destruct (MaxInputs <? _) eqn:Em in H; [done|]. destruct (writes (inPath i)); [done|]. zbool. subst d.
    destruct (IH _ _ _ _ H) as (-> & Hn & Hs & Hf); [lia|]. split_and!.
    + by rewrite <- app_assoc.
    + cbn. constructor; [|done]. intros (j & Ej & Hj)%list_elem_of_fmap. rewrite Forall_forall in Hf.
      destruct (Hf j Hj) as [Hl _]. rewrite <- Ej, lookup_delete_eq in Hl. discriminate Hl.
    + cbn [total_data fold_right]. fold (total_data l). lia.
    + constructor; [split; [done|by apply safePath_ok]|]. eapply Forall_impl; [exact Hf|]. intros j [Hl Hp]. split; [|done].
      by apply lookup_delete_Some in Hl as [_ ?].
Qed.

Lemma stageSource_ok writes l written out : stageSource writes l written = Ok out →
  out = written ++ ((λ f, mkInput (bs "source/" ++ Path f) (Content f)) <$> l).
Proof.
  revert written. induction l as [|f l IH]; intros written H; cbn [stageSource] in H; [injection H as ->; by rewrite app_nil_r|].
  destruct (writes _); [done|]. rewrite (IH _ H). by rewrite <- app_assoc.
Qed.

Lemma mounted_perm r (l : list Input) : request_ok r → len l = Z.of_nat (size (list_to_map (mounted r) : gmap bytes bytes)) →
  NoDup (inPath <$> l) → Forall (λ i, (list_to_map (mounted r) : gmap bytes bytes) !! inPath i = Some (Digest (inData i))) l →
  (λ i, (inPath i, Digest (inData i))) <$> l ≡ₚ mounted r.
Proof.
  intros Hr Hl Hn Hf. pose proof (mounted_NoDup r Hr) as Hm.
  rewrite (map_size_list_to_map (mounted r)) in Hl by done.
  apply submseteq_length_Permutation; [|unfold len in Hl; rewrite length_fmap; lia].
  apply NoDup_submseteq; [apply (NoDup_fmap_1 fst); by rewrite <- list_fmap_compose|].
  intros e (i & -> & Hi)%list_elem_of_fmap. rewrite Forall_forall in Hf. by apply elem_of_list_to_map_2, Hf.
Qed.

Lemma source_path_safe p : ValidateSourcePath p = Ok () → Forall component_ok (strings.Split (bs "source/" ++ p) x2f).
Proof.
  unfold ValidateSourcePath. intros H. destruct (negb _) in H; [done|]. destruct (_ || _) in H; [done|].
  apply validateBuildPath_Ok in H as (_ & _ & _ & c & cs & Es & Hc).
  assert (strings.Split (bs "source/" ++ p) x2f = bs "source" :: strings.Split p x2f) as -> by done.
  change x2f with slash. rewrite Es. repeat (constructor; [by vm_compute|]). done.
Qed.

(** *** The other direction: what the harness captured is accepted *)

Lemma safePath_iff s : safePath s = true ↔ path_safe s.
Proof.
  split; [apply safePath_ok|]. intros (Hne & Hl & Hv & Hu & Hc). unfold safePath.
  assert (Hp : strings.HasPrefix s (bs "/") = false).
  { destruct (strings.HasPrefix s (bs "/")) eqn:E; [|done]. apply strings.HasPrefix_spec in E as [r ->].
    apply Forall_inv in Hc. destruct Hc as [Hc _]. by cbn in Hc. }
  rewrite bool_decide_eq_false_2, (proj2 (Z.ltb_ge _ _)), Hv, (proj2 (ContainsAny_false _ _)), Hp by done. cbn [orb negb].
  apply forallb_forall. intros c Hin%list_elem_of_In. rewrite Forall_forall in Hc. destruct (Hc c Hin) as (? & ? & ?).
  by rewrite !bool_decide_eq_false_2.
Qed.

Lemma Split_whole s sep : sep ∉ s → strings.Split s sep = [s].
Proof.
  induction s as [|b s IH]; intros H; [done|]. apply not_elem_of_cons in H as [Hb Hs]. cbn [strings.Split].
  rewrite decide_False by congruence. by rewrite IH.
Qed.

Lemma under_safe dir s : forallb (λ b, (b2z b <? 0x80) && negb (bool_decide (b ∈ x2f :: unsafe_characters))) dir = true →
  component_ok dir → path_safe s → len dir + 1 + len s ≤ 255 → path_safe (dir ++ x2f :: s).
Proof.
  intros Hd Hc (Hne & Hl & Hv & Hu & Hs) Hlen. rewrite forallb_forall in Hd.
  assert (Hdir : ∀ b, b ∈ dir → b2z b < 0x80 ∧ b ∉ x2f :: unsafe_characters).
  { intros b Hb. apply list_elem_of_In, Hd in Hb. zbool. done. }
  split_and!.
  - by destruct dir.
  - rewrite len_app, len_cons. lia.
  - apply Valid_app_both; [|done]. apply utf8.Valid_ascii, Forall_forall. intros b Hb. by apply Hdir.
  - intros c Hcu. rewrite elem_of_app, elem_of_cons. intros [Hin|[->|Hin]].
    + apply Hdir in Hin as [_ Hin]. apply Hin. by right.
    + by vm_compute in Hcu; repeat (apply elem_of_cons in Hcu as [Hcu|Hcu]; [discriminate Hcu|]); apply not_elem_of_nil in Hcu.
    + by apply (Hu c).
  - assert (x2f ∉ dir) as Hno by (intros Hin; apply Hdir in Hin as [_ Hin]; apply Hin; by left).
    assert (strings.Split (dir ++ x2f :: s) x2f = dir :: strings.Split s x2f) as ->; [|by constructor].
    clear -Hno. induction dir as [|b dir IH]; [by cbn; rewrite decide_True by done|].
    apply not_elem_of_cons in Hno as [Hb Hno]. cbn [app strings.Split]. rewrite decide_False by congruence. by rewrite IH.
Qed.

Lemma validID_safe a : validID a = true → path_safe a.
Proof.
  intros H. destruct (validID_valid a H) as [Hv Hl]. unfold validID in H. zbool.
  match goal with Hx : forallb (λ b, match json.hex_value b with _ => _ end) a = true |- _ => rename Hx into Hh end.
  assert (Hb : ∀ b, json.hex_value b = None → b ∉ a).
  { intros b E Hin%list_elem_of_In. rewrite forallb_forall in Hh. apply Hh in Hin. by rewrite E in Hin. }
  split_and!; [by intros ->|lia|done| |].
  - intros c Hc. apply Hb. repeat (apply elem_of_cons in Hc as [->|Hc]; [done|]). by apply not_elem_of_nil in Hc.
  - rewrite Split_whole by by apply Hb. constructor; [|done]. split_and!; intros ->; discriminate Hl.
Qed.

Lemma mounted_safe r p d : request_ok r → Forall (λ a, len (arID a) ≤ 64) (assets r) → (p, d) ∈ mounted r → path_safe p.
Proof.
  intros Hr Hids Hin. unfold mounted in Hin. apply elem_of_app in Hin as [Hin|Hin].
  - apply list_elem_of_fmap in Hin as (a & E & Ha). injection E as -> ->. rewrite Forall_forall in Hids.
    destruct (ro_assets r Hr) as [Hf _]. rewrite Forall_forall in Hf. destruct (Hf a Ha) as [Hs _].
    apply (under_safe (bs "assets")); [done|done|done|]. pose proof (Hids a Ha). change (len (bs "assets")) with 6. lia.
  - apply list_elem_of_fmap in Hin as (a & E & Ha). injection E as -> ->.
    destruct (ro_artifacts r Hr) as [Hf _]. rewrite Forall_forall in Hf. pose proof (Hf a Ha) as Hid.
    apply (under_safe (bs "artifacts")); [done|done|by apply validID_safe|]. destruct (validID_valid a Hid) as [_ ->]. done.
Qed.

Lemma stageCaptured_complete l : ∀ expected total written, NoDup (inPath <$> l) → total + total_data l ≤ MaxInputs →
  Forall (λ i, expected !! inPath i = Some (Digest (inData i)) ∧ path_safe (inPath i)) l →
  stageCaptured (λ _, None) l expected total written = Ok (written ++ l).
Proof.
  induction l as [|i l IH]; intros expected total written Hn Ht Hf; cbn [stageCaptured]; [by rewrite app_nil_r|].
  apply Forall_cons in Hf as [[Hi Hs] Hf]. cbn in Hn. apply NoDup_cons in Hn as [Hi' Hn].
  cbn [total_data fold_right] in Ht. fold (total_data l) in Ht.
  assert (0 ≤ total_data l) by (clear; induction l as [|x l IH]; cbn; [lia|pose proof (len_nonneg (inData x)); fold (total_data l); lia]).
  rewrite Hi, (proj2 (safePath_iff _) Hs), bool_decide_eq_true_2 by done. cbn [negb orb].
  rewrite (proj2 (Z.ltb_ge _ _)) by lia. rewrite IH; [by rewrite <- app_assoc|done|lia|].
  eapply Forall_impl; [apply Forall_and; split; [exact Hf|apply Forall_forall; intros j Hj; exact Hj]|].
  intros j [[Hl Hp] Hj]. split; [|done]. rewrite lookup_delete_ne; [done|]. intros E. apply Hi'. rewrite E. by apply list_elem_of_fmap_2.
Qed.

Lemma stageSource_complete l written :
  stageSource (λ _, None) l written = Ok (written ++ ((λ f, mkInput (bs "source/" ++ Path f) (Content f)) <$> l)).
Proof.
  revert written. induction l as [|f l IH]; intros written; cbn [stageSource]; [by rewrite app_nil_r|]. rewrite IH. by rewrite <- app_assoc.
Qed.

Lemma expectedAssets_pinned l tcc m : (∀ a, a ∈ l → arID a = tcc → arSHA256 a = TCCSHA256) → ∃ m', expectedAssets l tcc m = Ok m'.
Proof.
  revert m. induction l as [|a l IH]; intros m H; [by eexists|]. cbn [expectedAssets].
  destruct (bool_decide (arID a = tcc)) eqn:E; zbool.
  - rewrite bool_decide_eq_true_2 by (apply H; [by left|done]). apply IH. intros b Hb. apply H. by right.
  - apply IH. intros b Hb. apply H. by right.
Qed.

Lemma snapshot_paths data budget snap : ParseSourceSnapshotWithBudget data budget = Ok snap →
  Forall (λ f, ValidateSourcePath (Path f) = Ok ()) (Files snap) ∧ NoDup (Path <$> Files snap).
Proof.
  unfold ParseSourceSnapshotWithBudget. intros H. apply bind_Ok in H as (? & _ & H). apply bind_Ok in H as (fs & Hfs & E).
  injection E as <-. apply decodeSnapshotFiles_iff in Hfs as [(_ & _ & Hpath & Hnp & _) _].
  change (Files (sourceSnapshot data fs)) with (cloneSnapshotFiles fs). by rewrite cloneSnapshotFiles_id.
Qed.

Lemma mounted_not_source r p d q : (p, d) ∈ mounted r → p ≠ bs "source/" ++ q.
Proof.
  unfold mounted. rewrite elem_of_app, !list_elem_of_fmap. intros [(a & E & _)|(a & E & _)]; injection E as -> ->; intros E; discriminate E.
Qed.

(** C23: Whatever a worker is sent, what it stages for a job is exact: the captured inputs
    are the assets and artifacts the request names, each once and with the digest asked
    for, at most 64 MiB of them, followed by the files of the snapshot; every path stays
    below the directory of the job and none is written twice. *)
Theorem staged_inputs_exact json_error writes w l :
  stageInputs json_error writes w = Ok l →
  ∃ snap, ParseSourceSnapshotWithBudget (wrSnapshot w) (wrBudget w) = Ok snap
    ∧ l = wrInputs w ++ ((λ f, mkInput (bs "source/" ++ Path f) (Content f)) <$> Files snap)
    ∧ (λ i, (inPath i, Digest (inData i))) <$> wrInputs w ≡ₚ mounted (wrRequest w)
    ∧ total_data (wrInputs w) ≤ MaxInputs
    ∧ Forall (λ i, Forall component_ok (strings.Split (inPath i) x2f)) l
    ∧ NoDup (inPath <$> l).
Proof.
  unfold stageInputs, ParseRequest. intros H. apply bind_Ok in H as ([] & Hr & H). apply Request_Validate_ok in Hr.
  apply bind_Ok in H as ([r snap] & Hp & H). apply bind_Ok in Hp as (r' & _ & Hp). apply bind_Ok in Hp as (s' & Hsnap & Hp).
  apply bind_Ok in Hp as ([] & _ & Hp). injection Hp as <- ->. destruct (negb _) in H; [done|].
  apply bind_Ok in H as (m & Hm & H). rewrite (expected_mounted _ _ _ Hr Hm) in H. destruct (negb _) eqn:En in H; [done|]. zbool.
  apply bind_Ok in H as (written & Hw & H). destruct (stageCaptured_ok _ _ _ _ _ _ Hw) as (-> & Hnd & Ht & Hf); [done|].
  rewrite (stageSource_ok _ _ _ _ H). exists snap.
  destruct (snapshot_paths _ _ _ Hsnap) as [Hpath Hnp].
  assert (Hperm : (λ i, (inPath i, Digest (inData i))) <$> wrInputs w ≡ₚ mounted (wrRequest w)).
  { apply mounted_perm; [done|done|done|]. eapply Forall_impl; [exact Hf|]. by intros i [? _]. }
  split_and!; [done|done|done|lia| |].
  - apply Forall_app. split; [eapply Forall_impl; [exact Hf|]; by intros i [_ (_ & _ & _ & _ & ?)]|].
    apply Forall_fmap. eapply Forall_impl; [exact Hpath|]. intros f. apply source_path_safe.
  - rewrite fmap_app, <- list_fmap_compose. apply NoDup_app. split_and!; [done| |].
    + intros p (i & -> & Hi)%list_elem_of_fmap (f & E & _)%list_elem_of_fmap. cbn in E. revert E.
      apply (mounted_not_source (wrRequest w) _ (Digest (inData i))). rewrite <- Hperm. apply list_elem_of_fmap. by exists i.
    + rewrite (list_fmap_ext _ (λ f, bs "source/" ++ Path f)) by done. rewrite (list_fmap_compose Path (λ x, bs "source/" ++ x)).
      apply NoDup_fmap_2; [|done]. intros x y E. by apply app_inv_head in E.
Qed.

(** A request the harness accepted, with the inputs it captured for it, is accepted by
    the worker as well, as long as the request written again is within the bound for
    requests: every input and every file of the snapshot is staged. *)
Theorem accepted_request_reaches_worker json_error data snapshot budget r snap ins tcc :
  ParseRequest json_error data snapshot budget = Ok (r, snap) →
  len (Marshal (request_json r)) ≤ MaxRequest →
  Forall (λ a, len (arID a) ≤ 64) (assets r) →
  safeAssetID tcc = true → (∀ a, a ∈ assets r → arID a = tcc → arSHA256 a = TCCSHA256) →
  (λ i, (inPath i, Digest (inData i))) <$> ins = mounted r → total_data ins ≤ MaxInputs →
  stageInputs json_error (λ _, None) (mkWire (bs "job") r snapshot budget ins tcc)
  = Ok (ins ++ ((λ f, mkInput (bs "source/" ++ Path f) (Content f)) <$> Files snap)).
Proof.
  unfold ParseRequest at 1. intros Hp Hl Hids Htcc Hpin Hins Htot.
  apply bind_Ok in Hp as (r' & _ & Hp). apply bind_Ok in Hp as (s' & Hsnap & Hp). apply bind_Ok in Hp as ([] & Hv & Hp). injection Hp as -> ->.
  pose proof (Request_Validate_ok r Hv) as Hr. unfold stageInputs, ParseRequest.
  cbn [wrRequest wrSnapshot wrBudget wrTCCAsset wrInputs]. rewrite Hv. cbn [mbind result_bind].
  rewrite request_again by done. cbn [mbind result_bind]. rewrite Hsnap. cbn [mbind result_bind]. rewrite Hv. cbn [mbind result_bind].
  rewrite Htcc. cbn [negb]. destruct (expectedAssets_pinned (assets r) tcc ∅ Hpin) as [m Hm]. rewrite Hm. cbn [mbind result_bind].
  rewrite (expected_mounted _ _ _ Hr Hm). pose proof (mounted_NoDup r Hr) as Hn.
  rewrite (map_size_list_to_map (mounted r)) by done.
  assert (len ins = Z.of_nat (length (mounted r))) as E by (rewrite <- Hins, length_fmap; done). rewrite E, Z.eqb_refl. cbn [negb].
  rewrite stageCaptured_complete; [cbn [mbind result_bind app]; apply stageSource_complete| |lia|].
  - rewrite <- Hins, <- list_fmap_compose in Hn. exact Hn.
  - apply Forall_forall. intros i Hi.
    assert (Hin : (inPath i, Digest (inData i)) ∈ mounted r) by (rewrite <- Hins; apply list_elem_of_fmap; by exists i).
    split; [|by eapply mounted_safe]. by apply elem_of_list_to_map_1.
Qed.

(** ** Examples *)
Module request_example.
Definition no_error : bytes → error := λ _, PlainError [].
Definition hello : bytes := bs "hello".
Definition digest : bytes := Eval vm_compute in Digest hello.
Definition old : bytes := bs "old artifact".
Definition old_id : bytes := Eval vm_compute in Digest old.
Definition snapshot : bytes := Eval vm_compute in encodeSnapshotFiles [mkSnapshotFile (bs "seed/a.c") (bs "int x;")].
Definition request : Request :=
  mkRequest 1 (Some [bs "cc"; bs "a<b"]) (Some [mkAssetRef (bs "tool") digest]) (Some [old_id]) (Some [bs "out/a.o"]).
Definition data : bytes := Eval vm_compute in Marshal (request_json request).
Definition snap : SourceSnapshot := Eval vm_compute in sourceSnapshot snapshot [mkSnapshotFile (bs "seed/a.c") (bs "int x;")].
Definition ins : list Input := [mkInput (bs "assets/tool") hello; mkInput (bs "artifacts/" ++ old_id) old].
Definition wire : wireRequest := mkWire (bs "job") request snapshot 0 ins (bs "tcc").
Definition staged : list Input := ins ++ [mkInput (bs "source/seed/a.c") (bs "int x;")].

Lemma parsed : ParseRequest no_error data snapshot 0 = Ok (request, snap).
Proof. vm_compute. reflexivity. Qed.
Lemma stages : stageInputs no_error (λ _, None) wire = Ok staged.
Proof. vm_compute. reflexivity. Qed.

(** A command of three arguments of a thousand redirections each. *)
Definition angle : bytes := replicate 1000 x3c.
Definition long_data : bytes :=
  bs "{" ++ [x22] ++ bs "version" ++ [x22] ++ bs ":1," ++ [x22] ++ bs "argv" ++ [x22] ++ bs ":["
  ++ [x22] ++ angle ++ [x22; x2c; x22] ++ angle ++ [x22; x2c; x22] ++ angle ++ [x22] ++ bs "]}".
Definition long_request : Request := mkRequest 1 (Some [angle; angle; angle]) None None None.
End request_example.

Lemma staged_inputs_exact_witness :
  NoDup (inPath <$> request_example.staged).
Proof.
  destruct (staged_inputs_exact _ _ _ _ request_example.stages) as (snap & _ & _ & _ & _ & _ & H). exact H.
Defined.

Lemma accepted_request_reaches_worker_witness :
  stageInputs request_example.no_error (λ _, None) request_example.wire
  = Ok (request_example.ins ++ ((λ f, mkInput (bs "source/" ++ Path f) (Content f)) <$> Files request_example.snap)).
Proof.
  apply (accepted_request_reaches_worker _ request_example.data _ _ _ _ _ _ request_example.parsed).
  - apply Z.leb_le. vm_compute. reflexivity.
  - repeat constructor; vm_compute; discriminate.
  - vm_compute. reflexivity.
  - intros a Ha E. apply list_elem_of_singleton in Ha. subst a. discriminate E.
  - vm_compute. reflexivity.
  - apply Z.leb_le. vm_compute. reflexivity.
Defined.

(** The bound on requests is applied to two different texts: a request of three
    kilobytes that the harness accepts is refused by every worker, whatever inputs come
    with it, because its arguments grow sixfold when they are written again. *)
Theorem escaped_request_refused json_error writes ins tcc :
  ParseRequest json_error request_example.long_data request_example.snapshot 0 = Ok (request_example.long_request, request_example.snap)
  ∧ len request_example.long_data < 4 * 1024
  ∧ stageInputs json_error writes (mkWire (bs "job") request_example.long_request request_example.snapshot 0 ins tcc)
    = Err (PlainError (txt "JSON exceeds byte bound or is not UTF-8")).
Proof.
  split_and!; [vm_compute; reflexivity|apply Z.ltb_lt; vm_compute; reflexivity|].
  unfold stageInputs, ParseRequest. cbn [wrRequest wrSnapshot wrBudget].
  assert (Request_Validate request_example.long_request = Ok ()) as -> by (vm_compute; reflexivity). cbn [mbind result_bind].
  assert (strictJSON json_error to_request (Marshal (request_json request_example.long_request)) noRequest MaxRequest
          = Err (PlainError (txt "JSON exceeds byte bound or is not UTF-8"))) as -> by (vm_compute; reflexivity). done.
Qed.
