(* ===== verification/BootstrapStore.v ===== *)
(** * Bootstrap jobs: the artifact store (src/internal/bootstrap/storage.go)

    The storage root with one directory per run: the index of the jobs whose artifacts
    the running generation may use, the retained jobs, and evidence of failed ones. Every
    method is a function on the root; what the file system refuses, and when, is an
    argument. Reads return what is there. The format of a time is a class. *)

From S2P Require Import Prelude GoStd Sha256 SourceCapacity Snapshot Json FeatureStore ArchiveRecord JsonTree JsonCompact JsonStruct BootstrapRequest.
Open Scope Z_scope.

(** ** Times

    A [time.Time] in UTC is the number of nanoseconds since the epoch; what package time
    writes of it and reads back is given by an instance. *)
Class TimeFormat := {
  time_range : Z → Prop;
  time_text : Z → bytes;
  time_parse : bytes → option Z;
  time_zero : Z;
  time_text_valid t : utf8.Valid (time_text t) = true;
  time_parse_text t : time_range t → time_parse (time_text t) = Some t
}.

Definition to_time `{TimeFormat} (v : jvalue) (old : Z) : option Z :=
  match v with JNull => Some old | JString s => time_parse s | _ => None end.

(** ** Records *)

Record Config := mkConfig { cfVersion : Z; cfEnabled : bool; cfStorage : bytes; cfRunID : bytes; cfTCCAsset : bytes }.
Record JobRef := mkJobRef { jrID : bytes; jrSHA256 : bytes }.
Record References := mkReferences {
  rfEnabled : bool;
  rfTCCAsset : AssetRef;
  rfImage : bytes;
  rfVersion : Z;
  rfRunID : bytes;
  rfGeneration : Z;
  rfJobs : option (list JobRef);
  rfLimits : Limits
}.
Record Manifest := mkManifest {
  mfRunID : bytes;
  mfVersion : Z;
  mfID : bytes;
  mfGeneration : Z;
  mfImage : bytes;
  mfImageID : bytes;
  mfTCCCommit : bytes;
  mfRequest : Request;
  mfSnapshotSHA256 : bytes;
  mfSourceContentBytes : Z;
  mfInputs : option (list AssetRef);
  mfLimits : Limits;
  mfStarted : Z;
  mfFinished : Z;
  mfResult : Result
}.
Record diskOwner := mkOwner { owVersion : Z; owRun : bytes }.

#[global] Instance JobRef_eq_dec : EqDecision JobRef.
Proof. solve_decision. Defined.

Definition jobs (r : References) : list JobRef := default [] (rfJobs r).
Definition set_jobs (l : option (list JobRef)) (r : References) : References :=
  mkReferences (rfEnabled r) (rfTCCAsset r) (rfImage r) (rfVersion r) (rfRunID r) (rfGeneration r) l (rfLimits r).
Definition results (m : Manifest) : list Artifact := default [] (rsArtifacts (mfResult m)).

Definition noConfig : Config := mkConfig 0 false [] [] [].
Definition noJobRef : JobRef := mkJobRef [] [].
Definition noReferences : References := mkReferences false noAssetRef [] 0 [] 0 None noLimits.
Definition noManifest `{TimeFormat} : Manifest :=
  mkManifest [] 0 [] 0 [] [] [] noRequest [] 0 None noLimits time_zero time_zero noResult.

(** ** Their texts *)

Definition config_fields : list (field Config) :=
  [kept "version" (λ c, from_int (cfVersion c)) (λ v c, let 'mkConfig a b s i t := c in (λ x, mkConfig x b s i t) <$> to_int v a);
   kept "enabled" (λ c, JBool (cfEnabled c)) (λ v c, let 'mkConfig a b s i t := c in (λ x, mkConfig a x s i t) <$> to_bool v b);
   kept "storage" (λ c, JString (cfStorage c)) (λ v c, let 'mkConfig a b s i t := c in (λ x, mkConfig a b x i t) <$> to_string v s);
   kept "run_id" (λ c, JString (cfRunID c)) (λ v c, let 'mkConfig a b s i t := c in (λ x, mkConfig a b s x t) <$> to_string v i);
   kept "tcc_asset" (λ c, JString (cfTCCAsset c)) (λ v c, let 'mkConfig a b s i t := c in (λ x, mkConfig a b s i x) <$> to_string v t)].

Definition owner_fields : list (field diskOwner) :=
  [kept "version" (λ o, from_int (owVersion o)) (λ v o, (λ x, mkOwner x (owRun o)) <$> to_int v (owVersion o));
   kept "run" (λ o, JString (owRun o)) (λ v o, (λ x, mkOwner (owVersion o) x) <$> to_string v (owRun o))].

Definition job_ref_fields : list (field JobRef) :=
  [kept "id" (λ j, JString (jrID j)) (λ v j, (λ x, mkJobRef x (jrSHA256 j)) <$> to_string v (jrID j));
   kept "sha256" (λ j, JString (jrSHA256 j)) (λ v j, (λ x, mkJobRef (jrID j) x) <$> to_string v (jrSHA256 j))].
Definition job_ref_json : JobRef → jvalue := struct_json job_ref_fields.
Definition to_job_ref : jvalue → JobRef → option JobRef := to_table job_ref_fields.

Definition reference_fields : list (field References) :=
  [kept "enabled" (λ r, JBool (rfEnabled r))
     (λ v r, let 'mkReferences a b c d e f g h := r in (λ x, mkReferences x b c d e f g h) <$> to_bool v a);
   kept "tcc_asset" (λ r, asset_ref_json (rfTCCAsset r))
     (λ v r, let 'mkReferences a b c d e f g h := r in (λ x, mkReferences a x c d e f g h) <$> to_asset_ref v b);
   kept "image" (λ r, JString (rfImage r))
     (λ v r, let 'mkReferences a b c d e f g h := r in (λ x, mkReferences a b x d e f g h) <$> to_string v c);
   kept "version" (λ r, from_int (rfVersion r))
     (λ v r, let 'mkReferences a b c d e f g h := r in (λ x, mkReferences a b c x e f g h) <$> to_int v d);
   kept "run_id" (λ r, JString (rfRunID r))
     (λ v r, let 'mkReferences a b c d e f g h := r in (λ x, mkReferences a b c d x f g h) <$> to_string v e);
   kept "generation" (λ r, from_uint64 (rfGeneration r))
     (λ v r, let 'mkReferences a b c d e f g h := r in (λ x, mkReferences a b c d e x g h) <$> to_uint64 v f);
   kept "jobs" (λ r, from_slice job_ref_json (rfJobs r))
     (λ v r, let 'mkReferences a b c d e f g h := r in (λ x, mkReferences a b c d e f x h) <$> to_slice to_job_ref noJobRef v g);
   kept "limits" (λ r, struct_json limit_fields (rfLimits r))
     (λ v r, let 'mkReferences a b c d e f g h := r in (λ x, mkReferences a b c d e f g x) <$> to_table limit_fields v h)].

Section Text.
Context `{TimeFormat}.

Definition manifest_fields : list (field Manifest) :=
  [kept "run_id" (λ m, JString (mfRunID m))
     (λ v m, let 'mkManifest a b c d e f g h i j k l o p q := m in (λ x, mkManifest x b c d e f g h i j k l o p q) <$> to_string v a);
   kept "version" (λ m, from_int (mfVersion m))
     (λ v m, let 'mkManifest a b c d e f g h i j k l o p q := m in (λ x, mkManifest a x c d e f g h i j k l o p q) <$> to_int v b);
   kept "id" (λ m, JString (mfID m))
     (λ v m, let 'mkManifest a b c d e f g h i j k l o p q := m in (λ x, mkManifest a b x d e f g h i j k l o p q) <$> to_string v c);
   kept "generation" (λ m, from_uint64 (mfGeneration m))
     (λ v m, let 'mkManifest a b c d e f g h i j k l o p q := m in (λ x, mkManifest a b c x e f g h i j k l o p q) <$> to_uint64 v d);
   kept "image" (λ m, JString (mfImage m))
     (λ v m, let 'mkManifest a b c d e f g h i j k l o p q := m in (λ x, mkManifest a b c d x f g h i j k l o p q) <$> to_string v e);
   kept "image_id" (λ m, JString (mfImageID m))
     (λ v m, let 'mkManifest a b c d e f g h i j k l o p q := m in (λ x, mkManifest a b c d e x g h i j k l o p q) <$> to_string v f);
   kept "tcc_commit" (λ m, JString (mfTCCCommit m))
     (λ v m, let 'mkManifest a b c d e f g h i j k l o p q := m in (λ x, mkManifest a b c d e f x h i j k l o p q) <$> to_string v g);
   kept "request" (λ m, request_json (mfRequest m))
     (λ v m, let 'mkManifest a b c d e f g h i j k l o p q := m in (λ x, mkManifest a b c d e f g x i j k l o p q) <$> to_request v h);
   kept "snapshot_sha256" (λ m, JString (mfSnapshotSHA256 m))
     (λ v m, let 'mkManifest a b c d e f g h i j k l o p q := m in (λ x, mkManifest a b c d e f g h x j k l o p q) <$> to_string v i);
   kept "source_content_bytes" (λ m, from_int (mfSourceContentBytes m))
     (λ v m, let 'mkManifest a b c d e f g h i j k l o p q := m in (λ x, mkManifest a b c d e f g h i x k l o p q) <$> to_int v j);
   kept "inputs" (λ m, from_slice asset_ref_json (mfInputs m))
     (λ v m, let 'mkManifest a b c d e f g h i j k l o p q := m in
             (λ x, mkManifest a b c d e f g h i j x l o p q) <$> to_slice to_asset_ref noAssetRef v k);
   kept "limits" (λ m, struct_json limit_fields (mfLimits m))
     (λ v m, let 'mkManifest a b c d e f g h i j k l o p q := m in
             (λ x, mkManifest a b c d e f g h i j k x o p q) <$> to_table limit_fields v l);
   kept "started" (λ m, JString (time_text (mfStarted m)))
     (λ v m, let 'mkManifest a b c d e f g h i j k l o p q := m in (λ x, mkManifest a b c d e f g h i j k l x p q) <$> to_time v o);
   kept "finished" (λ m, JString (time_text (mfFinished m)))
     (λ v m, let 'mkManifest a b c d e f g h i j k l o p q := m in (λ x, mkManifest a b c d e f g h i j k l o x q) <$> to_time v p);
   kept "result" (λ m, result_json (mfResult m))
     (λ v m, let 'mkManifest a b c d e f g h i j k l o p q := m in (λ x, mkManifest a b c d e f g h i j k l o p x) <$> to_result v q)].
End Text.

(** [mustJSON], and the line [atomicJSON] writes. *)
Definition references_text (r : References) : bytes := Marshal (struct_json reference_fields r).
Definition manifest_text `{TimeFormat} (m : Manifest) : bytes := Marshal (struct_json manifest_fields m).
Definition config_text (c : Config) : bytes := Marshal (struct_json config_fields c).
Definition owner_text (o : diskOwner) : bytes := Marshal (struct_json owner_fields o).
Definition line (b : bytes) : bytes := b ++ [x0a].

(** ** The storage root *)

(** The directory of one run. [stTemp]: temporary files a crash left behind. *)
Record Store := mkStore {
  stOwner : bytes;                              (* owner.json *)
  stIndex : option bytes;                       (* bootstrap-artifacts.json *)
  stBlocked : option bytes;                     (* blocked.json *)
  stJobs : gmap bytes (gmap bytes bytes);       (* jobs/, by directory and file *)
  stFailures : option (gmap bytes bytes);       (* failures/ *)
  stTemp : list bytes
}.
Definition set_index (x : option bytes) (s : Store) := mkStore (stOwner s) x (stBlocked s) (stJobs s) (stFailures s) (stTemp s).
Definition set_blocked (x : option bytes) (s : Store) := mkStore (stOwner s) (stIndex s) x (stJobs s) (stFailures s) (stTemp s).
Definition set_store_jobs (x : gmap bytes (gmap bytes bytes)) (s : Store) := mkStore (stOwner s) (stIndex s) (stBlocked s) x (stFailures s) (stTemp s).
Definition set_failures (x : option (gmap bytes bytes)) (s : Store) := mkStore (stOwner s) (stIndex s) (stBlocked s) (stJobs s) x (stTemp s).
Definition set_temp (x : list bytes) (s : Store) := mkStore (stOwner s) (stIndex s) (stBlocked s) (stJobs s) (stFailures s) x.

(** Store directories by name, and initializers that were never renamed. *)
Record Root := mkRoot { rtStores : gmap bytes Store; rtInits : gmap bytes Store }.

Definition on_store (id : bytes) (f : Store → Store) (r : Root) : Root := mkRoot (alter f id (rtStores r)) (rtInits r).

Definition not_exist : error := SystemError (txt "file does not exist").
(** [sourcecapacity.ReadFile] *)
Definition ReadFile (content : option bytes) (limit : Z) : result bytes :=
  match content with
  | None => Err not_exist
  | Some b => if limit <? len b then Err (PlainError (txt "source artifact exceeds serialized bytes")) else Ok b
  end.

Definition stagePrefix : bytes := bs ".stage-".

(** [atomicJSON] of one file: what it did to the content, and what it reports. *)
Definition atomicJSON (fault : fault) (text : bytes) (old : option bytes) : option error * option bytes :=
  match fault with
  | NoFault => (None, Some (line text))
  | BeforeRename e => (Some e, old)
  | AfterRename e => (Some e, Some (line text))
  end.

(** *** Sizes *)

Definition sum (l : list Z) : Z := foldr Z.add 0 l.
Definition files_bytes (m : gmap bytes bytes) : Z := sum ((λ e, len e.2) <$> map_to_list m).
Definition jobs_bytes (m : gmap bytes (gmap bytes bytes)) : Z := sum ((λ e, files_bytes e.2) <$> map_to_list m).
Definition file_bytes (o : option bytes) : Z := match o with Some b => len b | None => 0 end.
Definition file_count (o : option bytes) : Z := match o with Some _ => 1 | None => 0 end.

Definition store_bytes (s : Store) : Z :=
  len (stOwner s) + file_bytes (stIndex s) + file_bytes (stBlocked s) + jobs_bytes (stJobs s)
  + match stFailures s with Some m => files_bytes m | None => 0 end + sum (len <$> stTemp s).
(** Files and directories, the directory itself and jobs/ included. *)
Definition store_count (s : Store) : Z :=
  1 + 1 + file_count (stIndex s) + file_count (stBlocked s)
  + (1 + sum ((λ e, 1 + Z.of_nat (size e.2)) <$> map_to_list (stJobs s)))
  + match stFailures s with Some m => 1 + Z.of_nat (size m) | None => 0 end + len (stTemp s).
Definition root_bytes (r : Root) : Z :=
  sum ((λ e, store_bytes e.2) <$> map_to_list (rtStores r)) + sum ((λ e, store_bytes e.2) <$> map_to_list (rtInits r)).
(** The root and the lock file, which is empty, are two more. *)
Definition root_count (r : Root) : Z :=
  2 + sum ((λ e, store_count e.2) <$> map_to_list (rtStores r)) + sum ((λ e, store_count e.2) <$> map_to_list (rtInits r)).

Definition directoryBytes (count bytes : Z) : result Z :=
  if 65536 <? count then Err (PlainError (txt "bootstrap global file-count bound")) else Ok bytes.

Definition Reserve (c : Config) (runBytes globalBytes : Z) (r : Root) : result unit :=
  n ← match rtStores r !! cfRunID c with
      | Some s => directoryBytes (store_count s) (store_bytes s)
      | None => Ok 0
      end;
  if MaxRunBytes <? n + runBytes then Err (PlainError (txt "bootstrap destination/run artifact quota exceeded"))
  else
    n ← directoryBytes (root_count r) (root_bytes r);
    if MaxGlobalBytes <? n + globalBytes then Err (PlainError (txt "bootstrap aggregate storage quota exceeded"))
    else Ok ().

Section Store.
Context `{TimeFormat} (json_error : bytes → error).

(** ** Configurations *)

(** [filepath.Clean p = p] for an absolute path. *)
Definition cleanAbsolute (p : bytes) : bool :=
  bool_decide (p = bs "/")
  || match strings.Split p x2f with
     | [] => false
     | first :: rest => bool_decide (first = []) && negb (bool_decide (rest = []))
         && forallb (λ c, negb (bool_decide (c = [])) && negb (bool_decide (c = bs ".")) && negb (bool_decide (c = bs ".."))) rest
     end.

Definition LoadConfig (content : option bytes) : result (option Config) :=
  match content with
  | None => Ok None
  | Some _ =>
      data ← ReadFile content 4096;
      c ← strictJSON json_error (to_table config_fields) data noConfig 4096;
      if negb (cfVersion c =? 1) || negb (validID (cfRunID c)) || negb (cleanAbsolute (cfStorage c)) || negb (safeAssetID (cfTCCAsset c))
      then Err (PlainError (txt "invalid bootstrap service configuration"))
      else Ok (Some c)
  end.

Definition NewReferences (c : Config) (generation : Z) : References :=
  mkReferences (cfEnabled c) (mkAssetRef (cfTCCAsset c) TCCSHA256) Image 1 (cfRunID c) generation None Baseline.

(** ** References *)

Fixpoint checkJobs (l : list JobRef) (seen : list bytes) : result unit :=
  match l with
  | [] => Ok ()
  | j :: l =>
      if negb (validID (jrID j)) || negb (validID (jrSHA256 j)) || bool_decide (jrID j ∈ seen) then
        Err (PlainError (txt "invalid bootstrap job reference"))
      else checkJobs l (jrID j :: seen)
  end.

Definition readReferencesFile (content : option bytes) : result (option References) :=
  match content with
  | None => Ok None
  | Some _ =>
      data ← ReadFile content MaxManifest;
      r ← strictJSON json_error (to_table reference_fields) data noReferences MaxManifest;
      if negb (rfVersion r =? 1) || negb (bool_decide (rfImage r = Image)) || negb (safeAssetID (arID (rfTCCAsset r)))
         || negb (bool_decide (arSHA256 (rfTCCAsset r) = TCCSHA256)) || negb (validID (rfRunID r))
         || negb (bool_decide (rfLimits r = Baseline)) || (64 <? len (jobs r))
      then Err (PlainError (txt "invalid bootstrap artifact references"))
      else _ ← checkJobs (jobs r) []; Ok (Some r)
  end.
Definition ReadReferences : option bytes → result (option References) := readReferencesFile.

(** ** Manifests *)

Definition job_file (st : Store) (job name : bytes) : option bytes := stJobs st !! job ≫= λ d, d !! name.
Definition manifestName : bytes := bs "manifest.json".

Fixpoint checkArtifactList (l : list Artifact) (names : list bytes) (seen : list bytes) (total : Z) : result Z :=
  match l, names with
  | [], _ => Ok total
  | a :: l, name :: names =>
      if negb (validID (afID a)) || negb (bool_decide (afName a = name)) || bool_decide (afName a ∈ seen)
         || (afSize a <? 0) || (MaxOutput <? afSize a)
      then Err (PlainError (txt "invalid bootstrap artifact"))
      else checkArtifactList l names (afName a :: seen) (total + afSize a)
  | _ :: _, [] => Err (PlainError (txt "bootstrap output manifest mismatch"))
  end.

Definition manifest (st : Store) (ref : JobRef) : result Manifest :=
  if negb (validID (jrID ref)) || negb (validID (jrSHA256 ref)) then Err (PlainError (txt "invalid bootstrap job reference"))
  else
    b ← ReadFile (job_file st (jrID ref) manifestName) MaxManifest;
    if negb (bool_decide (Digest b = jrSHA256 ref)) then Err (PlainError (txt "bootstrap manifest digest mismatch"))
    else
      m ← strictJSON json_error (to_table manifest_fields) b noManifest MaxManifest;
      if negb (mfVersion m =? 1) || negb (validID (mfRunID m)) || negb (bool_decide (mfID m = jrID ref))
         || negb (bool_decide (mfImage m = Image)) || negb (bool_decide (mfImageID m = ImageID))
         || negb (bool_decide (mfTCCCommit m = TCCCommit)) || negb (bool_decide (mfLimits m = Baseline))
         || negb (rsStatus (mfResult m) =? 0) || negb (rsCleaned (mfResult m)) || negb (validID (mfSnapshotSHA256 m))
         || (mfFinished m <? mfStarted m)
      then Err (PlainError (txt "invalid bootstrap job provenance"))
      else
        _ ← Request_Validate (mfRequest m);
        _ ← Budget_Validate (mfSourceContentBytes m);
        if negb (len (results m) =? len (outputs (mfRequest m))) then Err (PlainError (txt "bootstrap output manifest mismatch"))
        else
          total ← checkArtifactList (results m) (outputs (mfRequest m)) [] 0;
          if MaxOutputs <? total then Err (PlainError (txt "bootstrap output total exceeded")) else Ok m.

(** ** Validation *)

Fixpoint checkContents (st : Store) (job : bytes) (l : list Artifact) : result unit :=
  match l with
  | [] => Ok ()
  | a :: l =>
      b ← ReadFile (job_file st job (afID a)) MaxOutput;
      if negb (len b =? afSize a) || negb (bool_decide (Digest b = afID a)) then
        Err (PlainError (txt "bootstrap artifact content mismatch"))
      else checkContents st job l
  end.

(** The loop of [Validate]: every job is there with its artifacts; their number. *)
Fixpoint validateJobs (st : Store) (l : list JobRef) (count : Z) : result Z :=
  match l with
  | [] => Ok count
  | ref :: l =>
      m ← manifest st ref;
      _ ← checkContents st (jrID ref) (results m);
      validateJobs st l (count + len (results m))
  end.

Definition no_store : Store := mkStore [] None None ∅ None [].
Definition here (c : Config) (r : Root) : Store := default no_store (rtStores r !! cfRunID c).

Definition Storage_Validate (c : Config) (refs : option References) (r : Root) : result unit :=
  match refs with
  | None => Ok ()
  | Some refs =>
      if negb (rfVersion refs =? 1) || negb (bool_decide (rfLimits refs = Baseline)) || (64 <? len (jobs refs))
         || negb (bool_decide (rfRunID refs = cfRunID c))
      then Err (PlainError (txt "bootstrap references belong to another run"))
      else
        count ← validateJobs (here c r) (jobs refs) 0;
        if 256 <? count then Err (PlainError (txt "bootstrap artifact count quota exceeded")) else Reserve c 0 0 r
  end.

(** ** Reading an artifact *)

(** The artifact of that digest in the first job that lists it. *)
Fixpoint findArtifact (st : Store) (l : list JobRef) (id : bytes) : result (JobRef * Artifact) :=
  match l with
  | [] => Err (PlainError (txt "artifact is not authorized for this generation lineage"))
  | ref :: l =>
      m ← manifest st ref;
      match find (λ a, bool_decide (afID a = id)) (results m) with
      | Some a => Ok (ref, a)
      | None => findArtifact st l id
      end
  end.

Definition readArtifact (st : Store) (ref : JobRef) (a : Artifact) (id : bytes) : result bytes :=
  b ← ReadFile (job_file st (jrID ref) id) MaxOutput;
  if negb (bool_decide (Digest b = id)) || negb (len b =? afSize a) then Err (PlainError (txt "artifact digest mismatch")) else Ok b.

Definition Storage_Read (c : Config) (refs : References) (id : bytes) (offset length : Z) (r : Root) : result bytes :=
  if negb (bool_decide (rfRunID refs = cfRunID c)) || negb (validID id) || (MaxRead <? length) || (wrap64 (offset + length) <? offset) then
    Err (PlainError (txt "invalid artifact range"))
  else
    '(ref, a) ← findArtifact (here c r) (jobs refs) id;
    if (afSize a <? offset) || (afSize a - offset <? length) then Err (PlainError (txt "artifact range exceeds content"))
    else b ← readArtifact (here c r) ref a id; Ok (slice offset (offset + length) b).

Definition Storage_artifact (c : Config) (refs : References) (id : bytes) (r : Root) : result bytes :=
  '(ref, a) ← findArtifact (here c r) (jobs refs) id; readArtifact (here c r) ref a id.

(** ** Admission *)

Fixpoint admitJobs (st : Store) (names : list bytes) (count artifacts : Z) : result (Z * Z) :=
  match names with
  | [] => Ok (count, artifacts)
  | name :: names =>
      if strings.HasPrefix name stagePrefix then admitJobs st names count artifacts
      else if negb (validID name) then Err (PlainError (txt "invalid retained bootstrap job"))
      else
        b ← ReadFile (job_file st name manifestName) MaxManifest;
        m ← manifest st (mkJobRef name (Digest b));
        admitJobs st names (count + 1) (artifacts + len (results m))
  end.

(** Every retained job counts, referenced or not. *)
Definition Admit (c : Config) (outputs : Z) (r : Root) : result unit :=
  match rtStores r !! cfRunID c with
  | None => Err not_exist
  | Some st =>
      '(count, artifacts) ← admitJobs st (sort.Strings (map_to_list (stJobs st)).*1) 0 outputs;
      if (64 <=? count) || (256 <? artifacts) then Err (PlainError (txt "bootstrap retained job/artifact quota exhausted")) else Ok ()
  end.

(** ** Publication *)

(** Where the file system or a cancellation can stop a publication. *)
Inductive publish_point := AtStage | AtOutput (i : nat) | AtManifest | AtStageSync | AtRename | AtJobsSync.
Record publish_env := mkPublishEnv {
  pvCancelled : nat → option error;               (* the context at its three checks *)
  pvFails : publish_point → option error;
  pvIndex : fault;                                (* writing the index *)
  pvStage : bytes;                                (* what MkdirTemp appended *)
  pvLeft : option (gmap bytes bytes)              (* a stage that could not be removed *)
}.

(** Each output is checked against the result and written once per content. *)
Fixpoint stageOutputs (fails : nat → option error) (i : nat) (l : list Input) (expected : list Artifact) (files : gmap bytes bytes)
  : result (gmap bytes bytes) :=
  match l with
  | [] => Ok files
  | o :: l =>
      match expected with
      | a :: expected =>
          if negb (bool_decide (inPath o = afName a)) || negb (bool_decide (Digest (inData o) = afID a))
             || negb (len (inData o) =? afSize a)
          then Err (PlainError (txt "worker output identity mismatch"))
          else match files !! Digest (inData o) with
          | Some _ => stageOutputs fails (S i) l expected files
          | None =>
              match fails i with
              | Some e => Err e
              | None => stageOutputs fails (S i) l expected (<[Digest (inData o) := inData o]> files)
              end
          end
      | [] => Err (PlainError (txt "worker output identity mismatch"))
      end
  end.

Fixpoint checkDeclared (l : list Input) (names : list bytes) (total : Z) : result Z :=
  match l, names with
  | [], _ => Ok total
  | o :: l, name :: names =>
      if negb (bool_decide (inPath o = name)) || (MaxOutput <? len (inData o)) then Err (PlainError (txt "output declaration/size mismatch"))
      else checkDeclared l names (total + len (inData o))
  | _ :: _, [] => Err (PlainError (txt "output count mismatch"))
  end.

(** The artifacts of the jobs already referenced. *)
Fixpoint countArtifacts (st : Store) (l : list JobRef) (count : Z) : result Z :=
  match l with
  | [] => Ok count
  | j :: l => old ← manifest st j; countArtifacts st l (count + len (results old))
  end.

(** The checks before anything is written. *)
Definition publishable (c : Config) (m : Manifest) (outs : list Input) (refs : References) (r : Root) : result unit :=
  if negb (validID (mfID m)) || negb (validID (mfRunID m)) || negb (mfVersion m =? 1) || negb (rsStatus (mfResult m) =? 0)
     || negb (rsCleaned (mfResult m)) || negb (bool_decide (mfLimits m = Baseline)) || negb (bool_decide (rfRunID refs = cfRunID c))
  then Err (PlainError (txt "invalid or unclean bootstrap publication"))
  else
    _ ← Request_Validate (mfRequest m);
    if negb (len outs =? len (outputs (mfRequest m))) || negb (len outs =? len (results m)) then Err (PlainError (txt "output count mismatch"))
    else
      total ← checkDeclared outs (outputs (mfRequest m)) 0;
      if MaxOutputs <? total then Err (PlainError (txt "output total quota exceeded"))
      else if MaxManifest <? len (manifest_text m) then Err (PlainError (txt "job manifest exceeds bound"))
      else
        _ ← Admit c (len outs) r;
        if 64 <=? len (jobs refs) then Err (PlainError (txt "bootstrap successful job quota exhausted"))
        else
          count ← countArtifacts (here c r) (jobs refs) (len outs);
          if 256 <? count then Err (PlainError (txt "bootstrap artifact count quota exhausted")) else Ok ().

(** A job directory under a name of jobs/. *)
Definition put_job (c : Config) (name : bytes) (files : gmap bytes bytes) (r : Root) : Root :=
  on_store (cfRunID c) (λ st, set_store_jobs (<[name := files]> (stJobs st)) st) r.

(** The files of the stage: the outputs, then the manifest. *)
Definition stagedJob (env : publish_env) (m : Manifest) (outs : list Input) : result (gmap bytes bytes) :=
  match pvFails env AtStage with
  | Some e => Err e
  | None =>
      files ← stageOutputs (λ i, pvFails env (AtOutput i)) 0 outs (results m) ∅;
      match pvFails env AtManifest with
      | Some e => Err e
      | None => match pvFails env AtStageSync with Some e => Err e | None => Ok (<[manifestName := line (manifest_text m)]> files) end
      end
  end.

(** After the rename: the index with the new job, and the references it holds. *)
Definition publishIndex (env : publish_env) (c : Config) (m : Manifest) (refs : References) (r : Root) : result References * Root :=
  match pvFails env AtJobsSync with
  | Some e => (Err e, r)
  | None =>
      match ReadFile (job_file (here c r) (mfID m) manifestName) MaxManifest with
      | Err e => (Err e, r)
      | Ok b =>
          let next := set_jobs (Some (jobs refs ++ [mkJobRef (mfID m) (Digest b)])) refs in
          let newIndexBytes := len (references_text next) + 1 in
          let delta := Z.max 0 (newIndexBytes - file_bytes (stIndex (here c r))) in
          match Reserve c delta delta r with
          | Err e => (Err e, r)
          | Ok _ =>
              match pvCancelled env 2%nat with
              | Some e => (Err e, r)
              | None =>
                  let '(failed, index) := atomicJSON (pvIndex env) (references_text next) (stIndex (here c r)) in
                  let r := on_store (cfRunID c) (set_index index) r in
                  match failed with Some e => (Err e, r) | None => (Ok next, r) end
              end
          end
      end
  end.

Definition Publish (env : publish_env) (c : Config) (m : Manifest) (outs : list Input) (refs : References) (r : Root)
  : result References * Root :=
  let stage := stagePrefix ++ pvStage env in
  (* the deferred removal of the stage *)
  let left r := match pvLeft env with Some files => put_job c stage files r | None => r end in
  match pvCancelled env 0%nat with
  | Some e => (Err e, r)
  | None =>
      match publishable c m outs refs r with
      | Err e => (Err e, r)
      | Ok _ =>
          match stagedJob env m outs with
          | Err e => (Err e, left r)
          | Ok files =>
              match Reserve c 0 0 (put_job c stage files r) with
              | Err e => (Err e, left r)
              | Ok _ =>
                  match stJobs (here c r) !! mfID m with
                  | Some _ => (Err (PlainError (txt "bootstrap job ID collision")), left r)
                  | None =>
                      match pvCancelled env 1%nat with
                      | Some e => (Err e, left r)
                      | None =>
                          match pvFails env AtRename with
                          | Some e => (Err e, left r)
                          | None => publishIndex env c m refs (put_job c (mfID m) files r)
                          end
                      end
                  end
              end
          end
      end
  end.

(** ** Evidence of failures *)

Definition pad20 (n : Z) : bytes := let d := strconv.Itoa n in replicate (20 - length d) x30 ++ d.
Definition failureName (stamp : Z) (id : bytes) : bytes := pad20 stamp ++ bs "-" ++ id ++ bs ".json".

Definition set_diagnostics (d : bytes) (m : Manifest) : Manifest :=
  let 'mkManifest a b c d0 e f g h i j k l o p q := m in
  let 'mkResult r1 r2 r3 r4 r5 r6 _ r8 r9 r10 r11 := q in
  mkManifest a b c d0 e f g h i j k l o p (mkResult r1 r2 r3 r4 r5 r6 d r8 r9 r10 r11).

(** The loop that removes the oldest records; [removes i]: the i-th removal. *)
Fixpoint dropOldest (removes : nat → option error) (i : nat) (names : list bytes) (m : gmap bytes bytes) : option error * gmap bytes bytes :=
  match names with
  | name :: rest =>
      if len names <? 32 then (None, m)
      else match removes i with
           | Some e => (Some e, m)
           | None => dropOldest removes (S i) rest (delete name m)
           end
  | [] => (None, m)
  end.

Definition Failure (made : option error) (removes : nat → option error) (write : fault) (stamp : Z) (c : Config) (m : Manifest) (r : Root)
  : option error * Root :=
  match made with
  | Some e => (Some e, r)
  | None =>
      let r := on_store (cfRunID c) (λ st, set_failures (Some (default ∅ (stFailures st))) st) r in
      let m := if 8192 <? len (rsDiagnostics (mfResult m)) then set_diagnostics (takeZ 8192 (rsDiagnostics (mfResult m))) m else m in
      let b := manifest_text m in
      if MaxDiagnostics <? len b then (Some (PlainError (txt "failure record exceeds bound")), r)
      else
        let records := default ∅ (stFailures (here c r)) in
        let '(failed, records) := dropOldest removes 0 (sort.Strings (map_to_list records).*1) records in
        let r := on_store (cfRunID c) (set_failures (Some records)) r in
        match failed with
        | Some e => (Some e, r)
        | None =>
            match Reserve c (len b) (len b) r with
            | Err e => (Some e, r)
            | Ok _ =>
                let name := failureName stamp (mfID m) in
                let '(failed, content) := atomicJSON write b (records !! name) in
                (failed, on_store (cfRunID c) (set_failures (Some (match content with Some x => <[name := x]> records | None => records end))) r)
            end
        end
  end.

(** ** The lock and recovery *)

(** [configOf run]: the configuration of the run an owner record names. *)
Definition recoverStore (c : Config) (configOf : bytes → result (option Config)) (id : bytes) (st : Store) : result (option Store) :=
  if negb (validID id) then Err (PlainError (txt "unexpected bootstrap storage entry"))
  else
    data ← ReadFile (Some (stOwner st)) 4096;
    owner ← strictJSON json_error (to_table owner_fields) data (mkOwner 0 []) 4096;
    config ← configOf (owRun owner);
    match config with
    | None => Ok None                                       (* a crash before the run was committed *)
    | Some other =>
        if negb (owVersion owner =? 1) || negb (bool_decide (cfStorage other = cfStorage c)) || negb (bool_decide (cfRunID other = id)) then
          Err (PlainError (txt "bootstrap store ownership mismatch"))
        else Ok (Some (set_temp [] (set_store_jobs (filter (λ e, strings.HasPrefix e.1 stagePrefix = false) (stJobs st)) st)))
    end.

Fixpoint recoverStores (c : Config) (configOf : bytes → result (option Config)) (removes : bytes → option error) (ids : list bytes) (r : Root)
  : result unit * Root :=
  match ids with
  | [] => (Ok (), r)
  | id :: ids =>
      match rtStores r !! id with
      | None => recoverStores c configOf removes ids r
      | Some st =>
          match recoverStore c configOf id st with
          | Err e => (Err e, r)
          | Ok st' =>
              match removes id with
              | Some e => (Err e, r)
              | None => recoverStores c configOf removes ids (mkRoot (partial_alter (λ _, st') id (rtStores r)) (rtInits r))
              end
          end
      end
  end.

Definition recover (c : Config) (configOf : bytes → result (option Config)) (removes : bytes → option error) (r : Root) : result unit * Root :=
  recoverStores c configOf removes (sort.Strings (map_to_list (rtStores r)).*1) (mkRoot (rtStores r) ∅).

(** [refused]: the directory is not private, or the reservation is held. *)
Definition LockStorage (refused : option error) (c : Config) (configOf : bytes → result (option Config)) (removes : bytes → option error) (r : Root)
  : result unit * Root :=
  match refused with Some e => (Err e, r) | None => recover c configOf removes r end.

(** ** The directory of a run *)

Record RunDir := mkRunDir {
  rdConfig : option bytes;                       (* bootstrap-service.json *)
  rdInherited : option bytes;                    (* bootstrap-inherited.json *)
  rdArchives : gmap Z bytes                      (* generation-NNNN/bootstrap-artifacts.json *)
}.

(** [Freeze]: the references a completed generation keeps. *)
Definition Freeze (write : fault) (run : RunDir) (generation : Z) (r : Root) : result (option bytes) :=
  config ← LoadConfig (rdConfig run);
  match config with
  | None => Ok None
  | Some c =>
      refs ← ReadReferences (stIndex (here c r));
      let refs := default (NewReferences c generation) refs in
      if negb (rfGeneration refs =? generation) then Err (PlainError (txt "bootstrap generation reference mismatch"))
      else
        _ ← Storage_Validate c (Some refs) r;
        match write with
        | NoFault => Ok (Some (line (references_text refs)))
        | BeforeRename e | AfterRename e => Err e
        end
  end.

(** ** Garbage collection *)

(** The jobs the archives keep; every archive is validated on the way. *)
Fixpoint keptJobs (c : Config) (r : Root) (l : list (Z * bytes)) (keep : gset bytes) : result (gset bytes) :=
  match l with
  | [] => Ok keep
  | (_, content) :: l =>
      refs ← ReadReferences (Some content);
      _ ← Storage_Validate c refs r;
      keptJobs c r l (list_to_set (jrID <$> (match refs with Some refs => jobs refs | None => [] end)) ∪ keep)
  end.

(** [removes]: the outcome of removing a job. *)
Fixpoint removeJobs (c : Config) (removes : bytes → option error) (keep : gset bytes) (names : list bytes) (count : Z) (r : Root)
  : Z * option error * Root :=
  match names with
  | [] => (count, None, r)
  | name :: names =>
      if negb (validID name) then (count, Some (PlainError (txt "unexpected job storage entry")), r)
      else if bool_decide (name ∈ keep) then removeJobs c removes keep names count r
      else match removes name with
           | Some e => (count, Some e, r)
           | None =>
               removeJobs c removes keep names (count + 1)
                 (on_store (cfRunID c) (λ st, set_store_jobs (delete name (stJobs st)) st) r)
           end
  end.

(** [write]: rewriting the index; [synced]: the last sync of jobs/. *)
Definition GarbageCollect (refused : option error) (configOf : bytes → result (option Config)) (recovers removes : bytes → option error)
  (write : fault) (synced : option error) (run : RunDir) (r : Root) : result Z * Root :=
  match LoadConfig (rdConfig run) with
  | Err e => (Err e, r)
  | Ok None => (Ok 0, r)
  | Ok (Some c) =>
      let '(locked, r) := LockStorage refused c configOf recovers r in
      match locked with
      | Err e => (Err e, r)
      | Ok _ =>
          let kept :=
            keep ← keptJobs c r (map_to_list (rdArchives run)) ∅;
            inherited ← match rdInherited run with
                        | None => Ok []
                        | Some _ => data ← ReadFile (rdInherited run) MaxManifest;
                                    refs ← strictJSON json_error (to_table reference_fields) data noReferences MaxManifest; Ok (jobs refs)
                        end;
            current ← ReadReferences (stIndex (here c r));
            Ok (list_to_set (jrID <$> inherited) ∪ keep, current) in
          match kept with
          | Err e => (Err e, r)
          | Ok (keep, current) =>
              let '(failed, r) :=
                match current with
                | None => (None, r)
                | Some refs =>
                    let refs := set_jobs (Some (filter (λ j, jrID j ∈ keep) (jobs refs))) refs in
                    let '(failed, index) := atomicJSON write (references_text refs) (stIndex (here c r)) in
                    (failed, on_store (cfRunID c) (set_index index) r)
                end in
              match failed with
              | Some e => (Err e, r)
              | None =>
                  let '(count, failed, r) := removeJobs c removes keep (sort.Strings (map_to_list (stJobs (here c r))).*1) 0 r in
                  match failed with
                  | Some e => (Err e, r)
                  | None => match synced with Some e => (Err e, r) | None => (Ok count, r) end
                  end
              end
          end
      end
  end.
End Store.
