(* ===== verification/BootstrapText.v ===== *)
(** * Bootstrap jobs: the records read back

    Sizes of compact texts, and that the references and the manifest of a job, once
    written, are read as they were. *)

From S2P Require Import Prelude GoStd Sha256 SourceCapacity Snapshot Json FeatureStore FeatureProofs ArchiveRecord JsonTree JsonCompact JsonStruct BootstrapRequest BootstrapRequestProofs BootstrapStore.
Open Scope Z_scope.

(** ** Sizes *)

(** An upper bound on the compact text that is easy to compute. *)
Fixpoint compact_size (v : jvalue) : Z :=
  match v with
  | JNull | JBool _ => 5
  | JNumber w => len w
  | JString s => 2 + 6 * len s
  | JArray l => 2 + foldr (λ x n, 1 + compact_size x + n) 0 l
  | JObject l => 2 + foldr (λ m n, 4 + 6 * len m.1 + compact_size m.2 + n) 0 l
  end.

Lemma escape_html_len s : len (escape_html s) ≤ 6 * len s.
Proof.
  remember (length s) as n eqn:Hn. revert s Hn. induction (lt_wf n) as [n _ IH]. intros s ->.
  assert (Hb : ∀ b, len (escape_html_ascii b) ≤ 6) by (intros b; apply Z.leb_le; by destruct b).
  destruct s as [|b r]; [done|]. cbn [escape_html].
  assert (Hstep : len (escape_html_ascii b ++ escape_html r) ≤ 6 * len (b :: r)).
  { rewrite len_app, len_cons. pose proof (Hb b). pose proof (IH (length r) ltac:(cbn; lia) r eq_refl). lia. }
  destruct r as [|c [|d r']]; try done.
  assert (Hr : len (escape_html r') ≤ 6 * len r') by (apply (IH (length r')); [cbn; lia|done]).
  destruct (_ && _); [rewrite len_app, !len_cons; change (len (bs "\u2028")) with 6; lia|].
  destruct (_ && _); [rewrite len_app, !len_cons; change (len (bs "\u2029")) with 6; lia|done].
Qed.

Lemma len_quoted_html s : utf8.Valid s = true → len (quoted escape_html_text s) ≤ 2 + 6 * len s.
Proof.
  intros Hs. unfold quoted, escape_html_text. rewrite Hs, !len_app. pose proof (escape_html_len s).
  change (len [json.quote_]) with 1. lia.
Qed.

Lemma Marshal_size v : json_ok v → len (Marshal v) ≤ compact_size v.
Proof.
  unfold Marshal. induction v as [|b|w|s|l IH|l IH] using jvalue_nested; intros Hok.
  - by vm_compute.
  - destruct b; by vm_compute.
  - done.
  - by apply len_quoted_html.
  - apply all_of_Forall in Hok. fold json_ok in Hok. cbn [compact_size]. destruct l as [|x l]; [by vm_compute|].
    cbn [compact foldr]. rewrite !Forall_cons in *. destruct IH as [IHx IH], Hok as [Hx Hok]. specialize (IHx Hx).
    assert (Hl : len (flat_map (λ y, [x2c] ++ compact escape_html_text y) l) ≤ foldr (λ x n, 1 + compact_size x + n) 0 l).
    { clear IHx Hx. induction l as [|y l IHl]; [done|]. rewrite !Forall_cons in *. destruct IH as [Hy IH], Hok as [Hoy Hok].
      cbn [flat_map foldr]. specialize (Hy Hoy). specialize (IHl IH Hok). rewrite !len_app. change (len [x2c]) with 1. lia. }
    rewrite !len_app. change (len [x5b]) with 1. change (len [x5d]) with 1. lia.
  - apply all_of_Forall in Hok. fold json_ok in Hok. cbn [compact_size]. destruct l as [|[k x] l]; [by vm_compute|].
    cbn [compact foldr fst snd]. rewrite !Forall_cons in *. cbn [fst snd] in *. destruct IH as [IHx IH], Hok as [[Hk Hx] Hok].
    specialize (IHx Hx). pose proof (len_quoted_html k Hk).
    assert (Hl : len (flat_map (λ m, [x2c] ++ quoted escape_html_text m.1 ++ [x3a] ++ compact escape_html_text m.2) l)
      ≤ foldr (λ m n, 4 + 6 * len m.1 + compact_size m.2 + n) 0 l).
    { clear IHx Hx. induction l as [|y l IHl]; [done|]. rewrite !Forall_cons in *. destruct IH as [Hy IH], Hok as [[Hky Hoy] Hok].
      cbn [flat_map foldr]. specialize (Hy Hoy). specialize (IHl IH Hok). pose proof (len_quoted_html y.1 Hky).
      rewrite !len_app. change (len [x2c]) with 1. change (len [x3a]) with 1. lia. }
    rewrite !len_app. change (len [x7b]) with 1. change (len [x7d]) with 1. change (len [x3a]) with 1. lia.
Qed.

(** A bound on the elements of an array. *)
Lemma array_size {A} (enc : A → jvalue) l n : Forall (λ x, compact_size (enc x) ≤ n) l →
  compact_size (JArray (map enc l)) ≤ 2 + len l * (1 + n).
Proof.
  intros H. cbn [compact_size]. apply Zplus_le_compat_l. induction H as [|x l Hx _ IH]; [done|].
  cbn [map foldr]. rewrite len_cons. lia.
Qed.

(** ** References *)

Definition references_ok (r : References) : Prop :=
  rfVersion r = 1 ∧ rfImage r = Image ∧ path_safe (arID (rfTCCAsset r)) ∧ arSHA256 (rfTCCAsset r) = TCCSHA256
  ∧ validID (rfRunID r) = true ∧ rfLimits r = Baseline ∧ len (jobs r) ≤ 64 ∧ u64 (rfGeneration r)
  ∧ Forall (λ j, validID (jrID j) = true ∧ validID (jrSHA256 j) = true) (jobs r) ∧ NoDup (jrID <$> jobs r)
  ∧ safeAssetID (arID (rfTCCAsset r)) = true.

Lemma job_ref_reads j : to_job_ref (job_ref_json j) noJobRef = Some j.
Proof. destruct j as [i d]. unfold to_job_ref, job_ref_json, job_ref_fields. by copy_table. Qed.

Lemma job_ref_facts j : utf8.Valid (jrID j) = true → utf8.Valid (jrSHA256 j) = true →
  json_ok (job_ref_json j) ∧ unambiguous (job_ref_json j) ∧ (json_depth (job_ref_json j) ≤ 1)%nat.
Proof.
  intros Hi Hs. unfold job_ref_json. split_and!.
  - apply struct_json_ok. by each_field.
  - apply struct_unambiguous; [by vm_compute|]. by each_field.
  - apply struct_depth. each_field; cbn; lia.
Qed.

Lemma limits_read : to_table limit_fields (struct_json limit_fields Baseline) noLimits = Some Baseline.
Proof. vm_compute. reflexivity. Qed.

Lemma limits_facts : json_ok (struct_json limit_fields Baseline) ∧ unambiguous (struct_json limit_fields Baseline)
  ∧ (json_depth (struct_json limit_fields Baseline) ≤ 1)%nat ∧ compact_size (struct_json limit_fields Baseline) ≤ 4096.
Proof.
  split_and!.
  - apply struct_json_ok. unfold limit_fields, limitNames. cbn [map imap]. each_field; (split; [done|intros _]); by apply number_ok_Itoa.
  - apply struct_unambiguous; [by vm_compute|]. unfold limit_fields, limitNames. cbn [map imap]. by each_field.
  - apply Nat.leb_le. vm_compute. reflexivity.
  - apply Z.leb_le. vm_compute. reflexivity.
Qed.

Lemma references_read r : references_ok r → to_table reference_fields (struct_json reference_fields r) noReferences = Some r.
Proof.
  destruct r as [enabled tcc image version run generation js limits]. intros (Hv & _ & _ & _ & _ & Hl & _ & Hg & _).
  cbn [rfVersion rfLimits rfGeneration] in *. subst version limits. unfold reference_fields. copy_table.
  cbn [rfEnabled rfTCCAsset rfImage rfVersion rfRunID rfGeneration rfJobs rfLimits noReferences to_bool to_string fmap option_fmap option_map mbind option_bind].
  rewrite asset_ref_reads. cbn [fmap option_fmap option_map mbind option_bind to_string].
  rewrite to_from_int by lia. cbn [fmap option_fmap option_map mbind option_bind to_string].
  rewrite to_from_uint64 by done. cbn [fmap option_fmap option_map mbind option_bind].
  rewrite to_from_slice by (apply Forall_forall; intros; apply job_ref_reads). cbn [fmap option_fmap option_map mbind option_bind].
  by rewrite limits_read.
Qed.

Lemma to_table_inv {A} (P : A → Prop) (fs : list (field A)) v old x :
  Forall (λ f, ∀ v a b, P a → fdSet f v a = Some b → P b) fs → P old → to_table fs v old = Some x → P x.
Proof.
  intros Hf. apply to_struct_inv. intros k w a b Ha H. unfold struct_field in H.
  destruct (find _ fs) as [f|] eqn:E; [|done]. apply find_some in E as [Hin%list_elem_of_In _].
  rewrite Forall_forall in Hf. by eapply Hf.
Qed.

Lemma references_decoded v r : to_table reference_fields v noReferences = Some r → u64 (rfGeneration r).
Proof.
  apply (to_table_inv (λ r, u64 (rfGeneration r))); [|done].
  each_field; intros w [a b c d e f g h] y Hy H; cbn [rfGeneration fdSet kept] in *; apply fmap_Some in H as (x & Hx & ->); cbn [rfGeneration]; try done.
  by eapply to_uint64_inv.
Qed.

Lemma checkJobs_ok l seen : checkJobs l seen = Ok () →
  Forall (λ j, validID (jrID j) = true ∧ validID (jrSHA256 j) = true) l ∧ NoDup (jrID <$> l) ∧ ∀ x, x ∈ jrID <$> l → x ∉ seen.
Proof.
  revert seen. induction l as [|j l IH]; intros seen H; [split_and!; [done|constructor|]; intros x Hx; by apply not_elem_of_nil in Hx|].
  cbn [checkJobs] in H. destruct (_ || _) eqn:E in H; [done|]. zbool. destruct (IH _ H) as (HA & HB & HC). split_and!.
  - by constructor.
  - cbn. constructor; [|done]. intros Hin. apply (HC _ Hin). by left.
  - intros x. cbn. intros [->|Hx]%elem_of_cons; [done|]. apply HC in Hx. intros ?. apply Hx. by right.
Qed.

Lemma checkJobs_complete l seen : Forall (λ j, validID (jrID j) = true ∧ validID (jrSHA256 j) = true) l → NoDup (jrID <$> l) →
  (∀ x, x ∈ jrID <$> l → x ∉ seen) → checkJobs l seen = Ok ().
Proof.
  revert seen. induction l as [|j l IH]; intros seen Hf Hn Hs; [done|]. cbn [checkJobs]. apply Forall_cons in Hf as [[-> ->] Hf].
  cbn in Hn. apply NoDup_cons in Hn as [Hj Hn]. rewrite bool_decide_eq_false_2 by (apply Hs; by left). cbn [negb orb]. apply IH; try done.
  intros x Hx. apply not_elem_of_cons. split; [by intros ->|]. apply Hs. by right.
Qed.

Section Texts.
Context `{TimeFormat} (json_error : bytes → error).

Lemma readReferencesFile_ok content r : readReferencesFile json_error content = Ok (Some r) → references_ok r.
Proof.
  unfold readReferencesFile. intros Hr. destruct content as [b|]; [|done]. apply bind_Ok in Hr as (data & _ & Hr).
  apply bind_Ok in Hr as (x & Hx & Hr). destruct (_ || _) eqn:E in Hr; [done|]. apply bind_Ok in Hr as ([] & Hj & Hr). injection Hr as <-.
  apply strictJSON_Ok in Hx as (v & _ & _ & _ & _ & Hx). apply references_decoded in Hx. destruct (checkJobs_ok _ _ Hj) as (? & ? & _). zbool.
  unfold references_ok. match goal with Hs : safeAssetID _ = true |- _ => pose proof Hs as Hs'; unfold safeAssetID in Hs'; apply andb_true_iff in Hs' as [Hs' _] end.
  split_and!; try done. by apply safePath_ok.
Qed.

Lemma references_facts r : references_ok r →
  json_ok (struct_json reference_fields r) ∧ unambiguous (struct_json reference_fields r)
  ∧ (json_depth (struct_json reference_fields r) ≤ 3)%nat ∧ compact_size (struct_json reference_fields r) + 1 ≤ MaxManifest.
Proof.
  intros (Hv & Hi & Ht & Hs & Hr & Hl & Hn & Hg & Hj & _).
  destruct limits_facts as (L1 & L2 & L3 & L4). destruct Ht as (_ & Ht2 & Ht3 & _). destruct (validID_valid _ Hr) as [Hr1 Hr2].
  destruct (asset_ref_facts (rfTCCAsset r)) as (A1 & A2 & A3); [done|by rewrite Hs|].
  assert (Hf : Forall (λ j, json_ok (job_ref_json j) ∧ unambiguous (job_ref_json j) ∧ (json_depth (job_ref_json j) ≤ 1)%nat
                            ∧ compact_size (job_ref_json j) ≤ 900) (default [] (rfJobs r))).
  { eapply Forall_impl; [exact Hj|]. intros j [[V1 E1]%validID_valid [V2 E2]%validID_valid]. destruct (job_ref_facts j V1 V2) as (? & ? & ?).
    split_and!; try done. unfold job_ref_json, struct_json, struct_members, job_ref_fields. cbn [flat_map app fdOmit fdName fdGet kept compact_size foldr fst snd].
    rewrite E1, E2. apply Z.leb_le. vm_compute. reflexivity. }
  assert (Hu : number_ok (strconv.Itoa (rfGeneration r))) by (by apply number_ok_Itoa).
  refine (conj _ (conj _ (conj _ _))).
  - apply struct_json_ok. each_field; (split; [done|intros _]); cbn [json_ok]; try done.
    + by rewrite Hi.
    + rewrite Hv. by apply number_ok_Itoa.
    + apply json_ok_slice. eapply Forall_impl; [exact Hf|]. by intros j [? _].
    + by rewrite Hl.
  - apply struct_unambiguous; [by vm_compute|]. each_field; intros _; try done; try by rewrite Hl.
    apply unambiguous_slice. eapply Forall_impl; [exact Hf|]. by intros j (_ & ? & _).
  - apply struct_depth. each_field; intros _; try lia; try (cbn; lia); try (rewrite Hl; lia).
    apply depth_slice. eapply Forall_impl; [exact Hf|]. by intros j (_ & _ & ? & _).
  - unfold struct_json at 1, struct_members, reference_fields. cbn [flat_map app fdOmit fdName fdGet kept compact_size foldr fst snd].
    assert (Hjobs : compact_size (from_slice job_ref_json (rfJobs r)) ≤ 2 + 64 * 901).
    { unfold jobs in Hn. destruct (rfJobs r) as [js|]; [|by vm_compute]. cbn [from_slice]. change (len js ≤ 64) in Hn.
      pose proof (array_size job_ref_json js 900) as Ha. specialize (Ha ltac:(eapply Forall_impl; [exact Hf|]; by intros j (_ & _ & _ & ?))). lia. }
    assert (Hnum : len (strconv.Itoa (rfGeneration r)) ≤ 20).
    { destruct (decide (rfGeneration r = 0)) as [->|]; [by vm_compute|]. unfold u64 in Hg.
      destruct (strconv.len_Itoa (rfGeneration r)) as (H1 & H2); [done|lia|].
      destruct (Z.le_gt_cases (len (strconv.Itoa (rfGeneration r))) 20) as [|Hgt]; [done|exfalso].
      assert (10 ^ 20 ≤ 10 ^ (len (strconv.Itoa (rfGeneration r)) - 1)) by (apply Z.pow_le_mono_r; lia). lia. }
    unfold asset_ref_json, struct_json, struct_members, asset_ref_fields. cbn [flat_map app fdOmit fdName fdGet kept compact_size foldr fst snd from_uint64].
    rewrite Hi, Hs, Hr2, Hv, Hl. fold (struct_json limit_fields Baseline).
    repeat match goal with |- context [len (bs ?x)] => let n := eval vm_compute in (len (bs x)) in change (len (bs x)) with n end.
    change (len Image) with 93. change (len TCCSHA256) with 64. change (compact_size (from_int 1)) with 1.
    unfold struct_json, struct_members in L4. cbn [compact_size] in L4. unfold MaxManifest. lia.
Qed.

Lemma references_roundtrip r : references_ok r → readReferencesFile json_error (Some (line (references_text r))) = Ok (Some r).
Proof.
  intros Hr. destruct (references_facts r Hr) as (F1 & F2 & F3 & F4). pose proof (Marshal_size _ F1) as Hsize.
  assert (Hl : len (line (references_text r)) ≤ MaxManifest) by (unfold line, references_text; rewrite len_app; change (len [x0a]) with 1; lia).
  unfold readReferencesFile, ReadFile. rewrite (proj2 (Z.ltb_ge _ _)) by done. cbn [mbind result_bind].
  unfold line, references_text in *. rewrite (strict_Marshal json_error (to_table reference_fields) _ [x0a] noReferences r); try done; [|lia|by apply references_read].
  cbn [mbind result_bind]. destruct Hr as (Hv & Hi & Ht & Hs & Hrun & Hlim & Hn & _ & Hj & Hnd & Hsafe).
  rewrite Hv, Hi, Hs, Hrun, Hlim, Hsafe, !bool_decide_eq_true_2 by done. rewrite (proj2 (Z.ltb_ge _ _)) by lia. cbn [Z.eqb Pos.eqb negb orb].
  rewrite checkJobs_complete; [done|done|done|]. intros x _. apply not_elem_of_nil.
Qed.
End Texts.

(** ** Results and manifests *)

(** The texts and numbers of a result a JSON decoder can have produced. *)
Record result_ok (r : Result) : Prop := {
  rk_names : utf8.Valid (rsJobID r) = true ∧ utf8.Valid (rsWorkerSHA256 r) = true;
  rk_controls : map_Forall (λ k v, utf8.Valid k = true ∧ utf8.Valid v = true) (rsControls r);
  rk_events : map_Forall (λ k v, utf8.Valid k = true ∧ u64 v) (rsResourceEvents r);
  rk_status : u32 (rsStatus r);
  rk_texts : utf8.Valid (rsReason r) = true ∧ utf8.Valid (rsDiagnostics r) = true;
  rk_exit : - 2 ^ 63 < rsExitCode r < 2 ^ 63;
  rk_artifacts : Forall (λ a, utf8.Valid (afID a) = true ∧ utf8.Valid (afName a) = true ∧ 0 ≤ afSize a < 2 ^ 63) (default [] (rsArtifacts r))
}.

Lemma artifact_reads a : 0 ≤ afSize a < 2 ^ 63 → to_artifact (artifact_json a) noArtifact = Some a.
Proof.
  destruct a as [i n s]. cbn [afSize]. intros Hs. unfold to_artifact, artifact_json, artifact_fields. copy_table.
  cbn [afID afName afSize noArtifact to_string fmap option_fmap option_map mbind option_bind]. by rewrite to_from_int by lia.
Qed.

Lemma number_ok_int n : - 2 ^ 63 < n < 2 ^ 63 → json_ok (from_int n).
Proof.
  intros Hn. unfold from_int. destruct (n <? 0) eqn:E; zbool; [|apply number_ok_Itoa; unfold u64; lia].
  assert (Hu : u64 (- n)) by (unfold u64; lia). destruct (strconv.Itoa_spec _ Hu) as (Hd & _ & Hne).
  destruct (number_ok_Itoa _ Hu) as (_ & Hv & Hb & Hs). cbn [json_ok]. split_and!.
  - eexists _, _. split; [done|by left].
  - by apply (Valid_app_both [x2d]).
  - by apply not_elem_of_cons.
  - intros rest Hr. rewrite <- (Hs rest Hr). destruct (strconv.Itoa (- n)) as [|b r] eqn:Ei; [done|].
    cbn in Hd. apply andb_true_iff in Hd as [Hbd _]. destruct (digit_facts b Hbd) as [Hm _].
    unfold json.scan_number. cbn [app]. by rewrite (decide_True (P := x2d = x2d)), (decide_False (P := b = x2d)) by done.
Qed.

Lemma artifact_facts a : utf8.Valid (afID a) = true ∧ utf8.Valid (afName a) = true ∧ 0 ≤ afSize a < 2 ^ 63 →
  json_ok (artifact_json a) ∧ unambiguous (artifact_json a) ∧ (json_depth (artifact_json a) ≤ 1)%nat.
Proof.
  intros (Hi & Hn & Hs). unfold artifact_json. refine (conj _ (conj _ _)).
  - apply struct_json_ok. each_field; (split; [done|intros _]); try done. apply number_ok_int. lia.
  - apply struct_unambiguous; [by vm_compute|]. by each_field.
  - apply struct_depth. each_field; cbn; lia.
Qed.

(** Reduction between the fields of a table. *)
Ltac next_field := cbn [fmap option_fmap option_map mbind option_bind to_string to_bool].

Lemma result_reads r : result_ok r → to_result (result_json r) noResult = Some r.
Proof.
  destruct r as [job worker controls events status reason diagnostics exit oom cleaned arts]. intros [_ Hc He Hs _ Hx Ha].
  cbn [rsControls rsResourceEvents rsStatus rsExitCode rsArtifacts] in *. unfold to_result, result_json, result_fields. copy_table.
  cbn [rsJobID rsWorkerSHA256 rsControls rsResourceEvents rsStatus rsReason rsDiagnostics rsExitCode rsOOM rsCleaned rsArtifacts]. unfold noResult.
  assert (Hcm : to_map to_string [] (from_map JString controls) ∅ = Some controls) by (apply to_from_map; by intros k v _).
  assert (Hem : to_map to_uint64 0 (from_map from_uint64 events) ∅ = Some events).
  { apply to_from_map. intros k v Hk. apply to_from_uint64. by destruct (He k v Hk). }
  assert (Har : to_slice to_artifact noArtifact (from_slice artifact_json arts) None = Some arts).
  { apply to_from_slice. eapply Forall_impl; [exact Ha|]. intros a (_ & _ & ?). by apply artifact_reads. }
  destruct (bool_decide (job = [])) eqn:E1; zbool; try subst job; next_field;
    (destruct (bool_decide (worker = [])) eqn:E2; zbool; try subst worker; next_field;
     (destruct (bool_decide (controls = ∅)) eqn:E3; zbool; try subst controls; try rewrite Hcm; next_field;
      (destruct (bool_decide (events = ∅)) eqn:E4; zbool; try subst events; try rewrite Hem; next_field;
       rewrite to_from_uint32 by done; next_field; rewrite to_from_int by done; next_field; by rewrite Har))).
Qed.

Lemma result_facts r : result_ok r →
  json_ok (result_json r) ∧ unambiguous (result_json r) ∧ (json_depth (result_json r) ≤ 3)%nat.
Proof.
  intros [[H1 H2] Hc He Hs [H3 H4] Hx Ha].
  assert (Hf : Forall (λ a, json_ok (artifact_json a) ∧ unambiguous (artifact_json a) ∧ (json_depth (artifact_json a) ≤ 1)%nat) (default [] (rsArtifacts r))).
  { eapply Forall_impl; [exact Ha|]. apply artifact_facts. }
  unfold result_json. refine (conj _ (conj _ _)).
  - apply struct_json_ok. each_field; (split; [done|intros _]); try done.
    + apply json_ok_map. by intros k v ?%Hc.
    + apply json_ok_map. intros k v [? ?]%He. split; [done|by apply json_ok_uint64].
    + apply json_ok_uint64. unfold u32, u64 in *. lia.
    + by apply number_ok_int.
    + apply json_ok_slice. eapply Forall_impl; [exact Hf|]. by intros a [? _].
  - apply struct_unambiguous; [by vm_compute|]. each_field; intros _; try done.
    + apply unambiguous_map. by intros k v _.
    + apply unambiguous_map. by intros k v _.
    + apply unambiguous_slice. eapply Forall_impl; [exact Hf|]. by intros a (_ & ? & _).
  - apply struct_depth. each_field; intros _; try (cbn; lia).
    + etrans; [apply (depth_map JString _ 0)|lia]. intros k v _. cbn. lia.
    + etrans; [apply (depth_map from_uint64 _ 0)|lia]. intros k v _. cbn. lia.
    + apply depth_slice. eapply Forall_impl; [exact Hf|]. by intros a (_ & _ & ?).
Qed.

Section Manifests.
Context `{TimeFormat} (json_error : bytes → error).

(** A manifest a job of the service can have: what [HandleRequest] fills in, and a result
    a decoder produced. *)
Record manifest_ok (m : Manifest) : Prop := {
  mk_run : validID (mfRunID m) = true;
  mk_version : mfVersion m = 1;
  mk_id : validID (mfID m) = true;
  mk_generation : u64 (mfGeneration m);
  mk_image : mfImage m = Image ∧ mfImageID m = ImageID ∧ mfTCCCommit m = TCCCommit;
  mk_request : Request_Validate (mfRequest m) = Ok ();
  mk_snapshot : validID (mfSnapshotSHA256 m) = true;
  mk_source : Budget_Validate (mfSourceContentBytes m) = Ok ();
  mk_inputs : Forall (λ a, utf8.Valid (arID a) = true ∧ utf8.Valid (arSHA256 a) = true) (default [] (mfInputs m));
  mk_limits : mfLimits m = Baseline;
  mk_times : time_range (mfStarted m) ∧ time_range (mfFinished m) ∧ mfStarted m ≤ mfFinished m;
  mk_result : result_ok (mfResult m);
  mk_success : rsStatus (mfResult m) = 0 ∧ rsCleaned (mfResult m) = true
}.

Lemma source_bytes_int n : Budget_Validate n = Ok () → - 2 ^ 63 < n < 2 ^ 63.
Proof.
  intros Hn%Budget_Validate_Ok. unfold budget_ok, Bytes in Hn. destruct (n =? 0) eqn:E; zbool; [lia|].
  unfold Default, Expanded in Hn. lia.
Qed.

Lemma to_time_text t old : time_range t → to_time (JString (time_text t)) old = Some t.
Proof. apply time_parse_text. Qed.

Lemma job_manifest_reads m : manifest_ok m → to_table manifest_fields (struct_json manifest_fields m) noManifest = Some m.
Proof.
  destruct m as [run version id generation image imageid commit request snapshot source inputs limits started finished result].
  intros [_ Hv _ Hg _ Hr _ Hs _ Hl [Ht1 [Ht2 _]] Hres _].
  cbn [mfVersion mfGeneration mfRequest mfSourceContentBytes mfLimits mfStarted mfFinished mfResult] in *. subst version limits.
  unfold manifest_fields. copy_table.
  cbn [mfRunID mfVersion mfID mfGeneration mfImage mfImageID mfTCCCommit mfRequest mfSnapshotSHA256 mfSourceContentBytes mfInputs mfLimits mfStarted mfFinished mfResult].
  unfold noManifest. next_field. rewrite to_from_int by lia. next_field. rewrite to_from_uint64 by done. next_field.
  pose proof (ro_version _ (Request_Validate_ok _ Hr)) as Hrv. rewrite job_request_reads by lia. next_field.
  rewrite to_from_int by (by apply source_bytes_int). next_field.
  rewrite to_from_slice by (apply Forall_forall; intros; apply asset_ref_reads). next_field.
  rewrite limits_read. next_field. rewrite to_time_text by done. next_field. rewrite to_time_text by done. next_field. by rewrite result_reads.
Qed.

Lemma manifest_facts m : manifest_ok m →
  json_ok (struct_json manifest_fields m) ∧ unambiguous (struct_json manifest_fields m) ∧ (json_depth (struct_json manifest_fields m) ≤ 4)%nat.
Proof.
  intros [Hr Hv Hid Hg [Hi [Hii Hc]] Hreq Hsn Hs Hin Hl [Ht1 [Ht2 _]] Hres _].
  destruct limits_facts as (L1 & L2 & L3 & _). destruct (result_facts _ Hres) as (R1 & R2 & R3).
  destruct (request_facts _ (Request_Validate_ok _ Hreq)) as (Q1 & Q2 & Q3).
  destruct (validID_valid _ Hr) as [Vr _]. destruct (validID_valid _ Hid) as [Vid _]. destruct (validID_valid _ Hsn) as [Vs _].
  assert (Hf : Forall (λ a, json_ok (asset_ref_json a) ∧ unambiguous (asset_ref_json a) ∧ (json_depth (asset_ref_json a) ≤ 1)%nat) (default [] (mfInputs m))).
  { eapply Forall_impl; [exact Hin|]. intros a [? ?]. by apply asset_ref_facts. }
  refine (conj _ (conj _ _)).
  - apply struct_json_ok. each_field; (split; [done|intros _]); cbn [json_ok]; try done; try (apply time_text_valid).
    + rewrite Hv. by apply number_ok_Itoa.
    + by apply json_ok_uint64.
    + by rewrite Hi.
    + by rewrite Hii.
    + by rewrite Hc.
    + by apply number_ok_int, source_bytes_int.
    + apply json_ok_slice. eapply Forall_impl; [exact Hf|]. by intros a [? _].
    + by rewrite Hl.
  - apply struct_unambiguous; [by vm_compute|]. each_field; intros _; try done; try (by rewrite Hl).
    apply unambiguous_slice. eapply Forall_impl; [exact Hf|]. by intros a (_ & ? & _).
  - apply struct_depth. each_field; intros _; try lia; try (cbn; lia); try (rewrite Hl; lia).
    etrans; [apply depth_slice; eapply Forall_impl; [exact Hf|]; by intros a (_ & _ & ?)|lia].
Qed.

(** The artifacts named in the order of the outputs, with their sizes. *)
Lemma checkArtifactList_complete l names seen total :
  afName <$> l = names → NoDup names → (∀ n, n ∈ names → n ∉ seen) →
  Forall (λ a, validID (afID a) = true ∧ 0 ≤ afSize a ≤ MaxOutput) l →
  checkArtifactList l names seen total = Ok (total + sum (afSize <$> l)).
Proof.
  revert names seen total. induction l as [|a l IH]; intros names seen total Hn Hnd Hs Hf; [cbn in *; subst names; cbn; f_equal; lia|].
  cbn in Hn. subst names. cbn [checkArtifactList]. apply Forall_cons in Hf as [[-> Ha] Hf]. apply NoDup_cons in Hnd as [Hna Hnd].
  rewrite bool_decide_eq_true_2 by done. rewrite bool_decide_eq_false_2 by (apply Hs; by left).
  rewrite !(proj2 (Z.ltb_ge _ _)) by lia. cbn [negb orb]. rewrite IH; try done; [cbn; f_equal; fold (sum (afSize <$> l)); lia|].
  intros n Hin. apply not_elem_of_cons. split; [by intros ->|]. apply Hs. by right.
Qed.

(** A manifest in its job directory is accepted. *)
Lemma manifest_accepted st m : manifest_ok m → len (line (manifest_text m)) ≤ MaxManifest →
  job_file st (mfID m) manifestName = Some (line (manifest_text m)) →
  afName <$> results m = outputs (mfRequest m) → Forall (λ a, validID (afID a) = true ∧ 0 ≤ afSize a ≤ MaxOutput) (results m) →
  sum (afSize <$> results m) ≤ MaxOutputs → validID (Digest (line (manifest_text m))) = true →
  manifest json_error st (mkJobRef (mfID m) (Digest (line (manifest_text m)))) = Ok m.
Proof.
  intros Hm Hl Hfile Hnames Hsizes Htotal Hdig. unfold manifest. cbn [jrID jrSHA256].
  rewrite (mk_id m Hm), Hdig. cbn [negb orb]. rewrite Hfile. unfold ReadFile. rewrite (proj2 (Z.ltb_ge _ _)) by done. cbn [mbind result_bind].
  rewrite bool_decide_eq_true_2 by done. cbn [negb]. destruct (manifest_facts m Hm) as (F1 & F2 & F3).
  unfold line, manifest_text in *. rewrite (strict_Marshal json_error (to_table manifest_fields) _ [x0a] noManifest m); try done; [|lia|by apply job_manifest_reads].
  cbn [mbind result_bind]. destruct (mk_image m Hm) as (-> & -> & ->). destruct (mk_success m Hm) as [-> ->]. destruct (mk_times m Hm) as (_ & _ & Ht).
  rewrite (mk_version m Hm), (mk_run m Hm), (mk_limits m Hm), (mk_snapshot m Hm), !bool_decide_eq_true_2 by done.
  rewrite (proj2 (Z.ltb_ge _ _)) by done. cbn [Z.eqb Pos.eqb negb orb].
  rewrite (mk_request m Hm), (mk_source m Hm). cbn [mbind result_bind].
  assert (len (results m) = len (outputs (mfRequest m))) as -> by (rewrite <- Hnames; unfold len; by rewrite length_fmap). rewrite Z.eqb_refl. cbn [negb].
  destruct (ro_outputs _ (Request_Validate_ok _ (mk_request m Hm))) as [_ Hnd].
  rewrite checkArtifactList_complete by (done || (intros n _; apply not_elem_of_nil)). cbn [mbind result_bind].
  by rewrite (proj2 (Z.ltb_ge _ _)) by lia.
Qed.
End Manifests.

(** ** Digests are identifiers *)

Lemma round_length st kw : length st = 8%nat → length (round st kw) = 8%nat.
Proof. intros Hst. by destruct st as [|a0 [|a1 [|a2 [|a3 [|a4 [|a5 [|a6 [|a7 [|? ?]]]]]]]]]; try discriminate Hst. Qed.

Lemma blocks_length n m st : length st = 8%nat → length (blocks n m st) = 8%nat.
Proof.
  revert m st. induction n as [|n IH]; intros m st Hst; [done|]. cbn [blocks]. apply IH. unfold compress.
  rewrite length_zip_with. assert (∀ l st, length st = 8%nat → length (fold_left round l st) = 8%nat) as ->; [|lia|done].
  clear. induction l as [|kw l IH]; intros st Hst; [done|]. cbn. by apply IH, round_length.
Qed.

Lemma be_bytes_length n z acc : length (be_bytes n z acc) = (n + length acc)%nat.
Proof. revert z acc. induction n as [|n IH]; intros z acc; [done|]. cbn [be_bytes]. rewrite IH. cbn. lia. Qed.

Lemma Sum256_length m : length (Sum256 m) = 32%nat.
Proof.
  unfold Sum256. cbn zeta. set (st := blocks _ _ _). assert (Hst : length st = 8%nat) by (by apply blocks_length). clearbody st.
  destruct st as [|a0 [|a1 [|a2 [|a3 [|a4 [|a5 [|a6 [|a7 [|? ?]]]]]]]]]; try discriminate Hst.
  cbn [mbind list_bind]. rewrite !length_app, !be_bytes_length. done.
Qed.

Lemma hexbytes_digits s : length (strconv.hexbytes s) = (2 * length s)%nat
  ∧ forallb (λ b, match json.hex_value b with Some _ => true | None => false end) (strconv.hexbytes s) = true
  ∧ forallb (λ b, negb ((0x41 <=? b2z b) && (b2z b <=? 0x5a))) (strconv.hexbytes s) = true.
Proof.
  induction s as [|b s (IH1 & IH2 & IH3)]; [done|].
  assert (∃ c d, strconv.hexbytes (b :: s) = c :: d :: strconv.hexbytes s
    ∧ forallb (λ b, match json.hex_value b with Some _ => true | None => false end) [c; d] = true
    ∧ forallb (λ b, negb ((0x41 <=? b2z b) && (b2z b <=? 0x5a))) [c; d] = true) as (c & d & -> & E2 & E3).
  { by destruct b; eexists _, _. }
  cbn [forallb length] in *. rewrite !andb_true_iff in *. refine (conj _ (conj _ _)); [lia|tauto|tauto].
Qed.

Lemma Digest_valid b : validID (Digest b) = true.
Proof.
  unfold validID, Digest, sha256_hex. destruct (hexbytes_digits (Sum256 b)) as (E1 & -> & ->).
  unfold len. rewrite E1, Sum256_length. done.
Qed.
