(* ===== verification/BootstrapStoreProofs.v ===== *)
(** * Bootstrap jobs: what the store guarantees

    Authorized reads are exact, publication is atomic and within the quotas, and the jobs
    an archive refers to survive everything that happens to the store afterwards. *)

From S2P Require Import Prelude GoStd Sha256 SourceCapacity Snapshot Json FeatureStore FeatureProofs ArchiveRecord JsonTree JsonCompact JsonStruct.
From S2P Require Import BootstrapRequest BootstrapRequestProofs BootstrapStore BootstrapText.
Open Scope Z_scope.

Section Proofs.
Context `{TimeFormat} (json_error : bytes → error).
Implicit Types (st : Store) (r : Root) (c : Config).

(** ** Jobs *)

(** A job is there with its manifest and every artifact of it. *)
Definition intact st (ref : JobRef) : Prop :=
  ∃ m, manifest json_error st ref = Ok m ∧ checkContents st (jrID ref) (results m) = Ok ().

(** Two stores with the same directory of a job. *)
Definition same_job st st' (id : bytes) : Prop := stJobs st !! id = stJobs st' !! id.

Lemma job_file_same st st' id name : same_job st st' id → job_file st id name = job_file st' id name.
Proof. unfold same_job, job_file. by intros ->. Qed.

Lemma manifest_same st st' ref : same_job st st' (jrID ref) → manifest json_error st ref = manifest json_error st' ref.
Proof. intros Hs. unfold manifest. by rewrite (job_file_same st st') by done. Qed.

Lemma checkContents_same st st' id l : same_job st st' id → checkContents st id l = checkContents st' id l.
Proof.
  intros Hs. induction l as [|a l IH]; [done|]. cbn [checkContents]. rewrite (job_file_same st st') by done.
  destruct (ReadFile _ _); [|done]. cbn [mbind result_bind]. by rewrite IH.
Qed.

Lemma intact_same st st' ref : same_job st st' (jrID ref) → intact st ref → intact st' ref.
Proof.
  intros Hs (m & Hm & Hc). exists m. rewrite <- (manifest_same st st') by done. split; [done|].
  by rewrite <- (checkContents_same st st').
Qed.

Lemma validateJobs_iff st l n k : validateJobs json_error st l n = Ok k → Forall (intact st) l.
Proof.
  revert n. induction l as [|ref l IH]; intros n Hv; [done|]. cbn [validateJobs] in Hv. apply bind_Ok in Hv as (m & Hm & Hv).
  apply bind_Ok in Hv as ([] & Hc & Hv). constructor; [by exists m|by eapply IH].
Qed.

Lemma intact_valid st ref : intact st ref → validID (jrID ref) = true ∧ validID (jrSHA256 ref) = true ∧ is_Some (stJobs st !! jrID ref).
Proof.
  intros (m & Hm & _). unfold manifest in Hm. destruct (_ || _) eqn:E in Hm; [done|]. zbool. split_and!; [done|done|].
  apply bind_Ok in Hm as (b & Hb & _). unfold job_file in Hb. destruct (stJobs st !! jrID ref); [by eexists|done].
Qed.

Lemma not_stage id : validID id = true → strings.HasPrefix id stagePrefix = false.
Proof.
  intros Hv. destruct (strings.HasPrefix id stagePrefix) eqn:E; [|done]. apply strings.HasPrefix_spec in E as [s ->].
  unfold validID in Hv. zbool. done.
Qed.

(** ** Reading *)

Lemma findArtifact_ok st l id ref a : findArtifact json_error st l id = Ok (ref, a) →
  ref ∈ l ∧ afID a = id ∧ ∃ m, manifest json_error st ref = Ok m ∧ a ∈ results m.
Proof.
  induction l as [|j l IH]; intros Hf; [done|]. cbn [findArtifact] in Hf. apply bind_Ok in Hf as (m & Hm & Hf).
  destruct (find _ (results m)) as [b|] eqn:E.
  - injection Hf as -> ->. apply find_some in E as [Hin%list_elem_of_In Hid]. zbool. split_and!; [by left|done|by exists m].
  - destruct (IH Hf) as (? & ? & ?). split_and!; [by right|done|done].
Qed.

Lemma findArtifact_complete st l id : Forall (intact st) l →
  (∃ ref m a, ref ∈ l ∧ manifest json_error st ref = Ok m ∧ a ∈ results m ∧ afID a = id) →
  ∃ ref a, findArtifact json_error st l id = Ok (ref, a).
Proof.
  induction l as [|j l IH]; intros Hi (ref & m & a & Hr & Hm & Ha & Hid); [by apply not_elem_of_nil in Hr|].
  apply Forall_cons in Hi as [(mj & Hmj & _) Hi]. cbn [findArtifact]. rewrite Hmj. cbn [mbind result_bind].
  destruct (find _ (results mj)) as [b|] eqn:E; [by eexists _, _|]. apply IH; [done|].
  apply elem_of_cons in Hr as [->|Hr]; [|by exists ref, m, a]. assert (m = mj) as -> by congruence.
  pose proof (find_none _ _ E a) as Hno. apply list_elem_of_In in Ha. specialize (Hno Ha). cbn in Hno. zbool. done.
Qed.

Lemma checkContents_elem st id l a : checkContents st id l = Ok () → a ∈ l →
  ∃ b, job_file st id (afID a) = Some b ∧ len b = afSize a ∧ Digest b = afID a ∧ len b ≤ MaxOutput.
Proof.
  induction l as [|x l IH]; intros Hc Ha; [by apply not_elem_of_nil in Ha|]. cbn [checkContents] in Hc.
  apply bind_Ok in Hc as (b & Hb & Hc). destruct (_ || _) eqn:E in Hc; [done|]. zbool.
  apply elem_of_cons in Ha as [->|Ha]; [|by apply IH]. exists b. unfold ReadFile in Hb. destruct (job_file st id (afID x)); [|done].
  destruct (MaxOutput <? _) eqn:El in Hb; [done|]. injection Hb as ->. zbool. done.
Qed.

(** C25: Whatever a store holds, the bytes a generation reads of an artifact are the asked
    range of a content with that digest, and the artifact is listed, with its size, by the
    manifest of a job that the references of the generation name by digest. *)
Theorem artifact_read_exact c refs id offset length r b :
  0 ≤ offset < 2 ^ 64 → 0 ≤ length < 2 ^ 64 → Storage_Read json_error c refs id offset length r = Ok b →
  ∃ ref m a content, ref ∈ jobs refs ∧ manifest json_error (here c r) ref = Ok m ∧ a ∈ results m ∧ afID a = id
    ∧ job_file (here c r) (jrID ref) id = Some content ∧ Digest content = id ∧ len content = afSize a
    ∧ offset + length ≤ len content ∧ len b = length ∧ b = slice offset (offset + length) content ∧ length ≤ MaxRead
    ∧ rfRunID refs = cfRunID c.
Proof.
  intros Ho Hl Hr. unfold Storage_Read in Hr. destruct (_ || _) eqn:E in Hr; [done|].
  apply bind_Ok in Hr as ([ref a] & Hf & Hr). destruct (_ || _) eqn:E2 in Hr; [done|]. apply bind_Ok in Hr as (content & Hc & Hr). injection Hr as <-.
  destruct (findArtifact_ok _ _ _ _ _ Hf) as (Hin & Hid & m & Hm & Ha). unfold readArtifact in Hc. apply bind_Ok in Hc as (x & Hx & Hc).
  destruct (_ || _) eqn:E3 in Hc; [done|]. injection Hc as ->. zbool.
  unfold ReadFile in Hx. destruct (job_file (here c r) (jrID ref) id) as [y|] eqn:Ej; [|done]. destruct (MaxOutput <? len y); [done|]. injection Hx as ->.
  exists ref, m, a, content. pose proof (len_nonneg content). split_and!; try done; [lia|].
  unfold slice. rewrite len_takeZ; [lia|]. rewrite len_dropZ by lia. lia.
Qed.

(** ** The root, store by store *)

Lemma here_on_store c f r st : rtStores r !! cfRunID c = Some st → here c (on_store (cfRunID c) f r) = f st.
Proof. intros Hs. unfold here, on_store. cbn [rtStores]. by rewrite lookup_alter_eq, Hs. Qed.

Lemma here_some c r st : rtStores r !! cfRunID c = Some st → here c r = st.
Proof. intros Hs. unfold here. by rewrite Hs. Qed.

Lemma on_store_some c f r st : rtStores r !! cfRunID c = Some st → rtStores (on_store (cfRunID c) f r) !! cfRunID c = Some (f st).
Proof. intros Hs. cbn [on_store rtStores]. by rewrite lookup_alter_eq, Hs. Qed.

(** Everything the jobs of a store need is kept from [r] to [r']. *)
Definition keeps_jobs c (P : bytes → Prop) r r' : Prop :=
  ∀ st, rtStores r !! cfRunID c = Some st → ∃ st', rtStores r' !! cfRunID c = Some st' ∧ stOwner st' = stOwner st
    ∧ ∀ id, validID id = true → P id → is_Some (stJobs st !! id) → same_job st st' id.

Lemma keeps_refl c P r : keeps_jobs c P r r.
Proof. intros st Hs. exists st. split_and!; [done|done|]. by intros. Qed.

Lemma keeps_trans c P r1 r2 r3 : keeps_jobs c P r1 r2 → keeps_jobs c P r2 r3 → keeps_jobs c P r1 r3.
Proof.
  intros H12 H23 st Hs. destruct (H12 st Hs) as (st2 & Hs2 & Ho2 & Hj2). destruct (H23 st2 Hs2) as (st3 & Hs3 & Ho3 & Hj3).
  exists st3. split_and!; [done|congruence|]. intros id Hv Hp Hi. pose proof (Hj2 id Hv Hp Hi) as E2. unfold same_job in *.
  rewrite E2. apply Hj3; [done|done|]. by rewrite <- E2.
Qed.

(** An update of the store that leaves the owner and these jobs. *)
Lemma keeps_on_store c P f r : (∀ st, stOwner (f st) = stOwner st) →
  (∀ st id, validID id = true → P id → is_Some (stJobs st !! id) → stJobs (f st) !! id = stJobs st !! id) →
  keeps_jobs c P r (on_store (cfRunID c) f r).
Proof.
  intros Ho Hj st Hs. exists (f st). split_and!; [by apply on_store_some|done|].
  intros id Hv Hp Hi. unfold same_job. by rewrite Hj.
Qed.

Lemma keeps_put c P name files r st : rtStores r !! cfRunID c = Some st → (validID name = true → stJobs st !! name = None) →
  keeps_jobs c P r (put_job c name files r).
Proof.
  intros Hs Hn st0 Hs0. assert (st0 = st) as -> by congruence. eexists. split_and!; [by apply on_store_some|done|].
  intros id Hv _ Hi. unfold same_job. cbn [set_store_jobs stJobs]. rewrite lookup_insert_ne; [done|]. intros ->. rewrite Hn in Hi by done. by destruct Hi.
Qed.

Lemma stage_not_id s : validID (stagePrefix ++ s) = true → False.
Proof. intros Hv. apply not_stage in Hv. by rewrite strings.HasPrefix_app in Hv. Qed.

(** ** Publication *)

Lemma publishable_ok c m outs refs r : publishable json_error c m outs refs r = Ok () →
  validID (mfID m) = true ∧ rfRunID refs = cfRunID c ∧ Request_Validate (mfRequest m) = Ok () ∧ len outs = len (outputs (mfRequest m))
  ∧ len outs = len (results m) ∧ len (jobs refs) < 64 ∧ (∃ st, rtStores r !! cfRunID c = Some st)
  ∧ (∃ total, checkDeclared outs (outputs (mfRequest m)) 0 = Ok total ∧ total ≤ MaxOutputs)
  ∧ (∃ count, countArtifacts json_error (here c r) (jobs refs) (len outs) = Ok count ∧ count ≤ 256).
Proof.
  unfold publishable. intros Hp. destruct (_ || _) eqn:E in Hp; [done|]. apply bind_Ok in Hp as ([] & Hv & Hp).
  destruct (_ || _) eqn:E2 in Hp; [done|]. apply bind_Ok in Hp as (total & Ht & Hp). destruct (MaxOutputs <? total) eqn:E3; [done|].
  destruct (MaxManifest <? _) in Hp; [done|]. apply bind_Ok in Hp as ([] & Ha & Hp). destruct (64 <=? _) eqn:E4 in Hp; [done|].
  apply bind_Ok in Hp as (count & Hc & Hp). destruct (256 <? count) eqn:E5; [done|]. zbool.
  split_and!; try done; [|by exists total|by exists count].
  unfold Admit in Ha. destruct (rtStores r !! cfRunID c) as [st|]; [by exists st|done].
Qed.

Lemma publishIndex_cases env c m refs r res r' st : rtStores r !! cfRunID c = Some st →
  publishIndex env c m refs r = (res, r') →
  (∃ e, res = Err e ∧ r' = r)
  ∨ ∃ b, ReadFile (job_file st (mfID m) manifestName) MaxManifest = Ok b ∧
    let next := set_jobs (Some (jobs refs ++ [mkJobRef (mfID m) (Digest b)])) refs in
    Reserve c (Z.max 0 (len (references_text next) + 1 - file_bytes (stIndex st)))
      (Z.max 0 (len (references_text next) + 1 - file_bytes (stIndex st))) r = Ok () ∧
    ∃ failed index, atomicJSON (pvIndex env) (references_text next) (stIndex st) = (failed, index) ∧
      r' = on_store (cfRunID c) (set_index index) r ∧ res = match failed with Some e => Err e | None => Ok next end.
Proof.
  intros Hs Hp. unfold publishIndex in Hp. rewrite (here_some _ _ _ Hs) in Hp.
  destruct (pvFails env AtJobsSync) as [e|]; [injection Hp as <- <-; left; by exists e|].
  destruct (ReadFile _ _) as [b|e] eqn:Eb; [|injection Hp as <- <-; left; by exists e].
  destruct (Reserve _ _ _ _) as [[]|e] eqn:Er; [|injection Hp as <- <-; left; by exists e].
  destruct (pvCancelled env 2%nat) as [e|]; [injection Hp as <- <-; left; by exists e|].
  destruct (atomicJSON _ _ _) as [failed index] eqn:Ea. right. exists b. split; [done|]. cbn zeta. split; [done|]. exists failed, index.
  split; [done|]. destruct failed; by injection Hp as <- <-.
Qed.

(** A publication either leaves the root but for the remains of its stage, or renames a
    complete job to a name that was free and goes on to the index. *)
Lemma Publish_cases env c m outs refs r res r' : Publish json_error env c m outs refs r = (res, r') →
  (∃ e, res = Err e ∧ (r' = r ∨ ∃ files, publishable json_error c m outs refs r = Ok () ∧ r' = put_job c (stagePrefix ++ pvStage env) files r))
  ∨ ∃ st files, rtStores r !! cfRunID c = Some st ∧ publishable json_error c m outs refs r = Ok () ∧ stagedJob env m outs = Ok files
      ∧ stJobs st !! mfID m = None ∧ Reserve c 0 0 (put_job c (stagePrefix ++ pvStage env) files r) = Ok ()
      ∧ publishIndex env c m refs (put_job c (mfID m) files r) = (res, r').
Proof.
  unfold Publish. intros Hp. destruct (pvCancelled env 0%nat) as [e|]; [injection Hp as <- <-; left; exists e; auto|].
  destruct (publishable _ _ _ _ _ _) as [[]|e] eqn:Epub; [|injection Hp as <- <-; left; exists e; auto].
  destruct (publishable_ok _ _ _ _ _ Epub) as (_ & _ & _ & _ & _ & _ & (st & Hs) & _).
  assert (Hleft : ∀ x : error, (Err x, match pvLeft env with Some files => put_job c (stagePrefix ++ pvStage env) files r | None => r end) = (res, r') →
    ∃ e, res = Err e ∧ (r' = r ∨ ∃ files, Ok () = Ok () (A := unit) ∧ r' = put_job c (stagePrefix ++ pvStage env) files r)).
  { intros x E. injection E as <- <-. exists x. split; [done|]. destruct (pvLeft env) as [files|]; [right; by exists files|by left]. }
  destruct (stagedJob env m outs) as [files|e] eqn:Est; [|left; by eapply Hleft].
  destruct (Reserve _ _ _ _) as [[]|e] eqn:Eres; [|left; by eapply Hleft].
  rewrite (here_some _ _ _ Hs) in Hp. destruct (stJobs st !! mfID m) eqn:Ej; [left; by eapply Hleft|].
  destruct (pvCancelled env 1%nat) as [e|]; [left; by eapply Hleft|]. destruct (pvFails env AtRename) as [e|]; [left; by eapply Hleft|].
  right. exists st, files. done.
Qed.

Lemma Publish_keeps env c m outs refs r res r' P : Publish json_error env c m outs refs r = (res, r') → keeps_jobs c P r r'.
Proof.
  intros Hp. destruct (Publish_cases _ _ _ _ _ _ _ _ Hp) as [(e & _ & [->|(files & Hpub & ->)])|(st & files & Hs & Hpub & _ & Hn & _ & Hi)].
  - apply keeps_refl.
  - destruct (publishable_ok _ _ _ _ _ Hpub) as (_ & _ & _ & _ & _ & _ & (st & Hs) & _).
    eapply keeps_put; [exact Hs|]. intros Hv. by apply stage_not_id in Hv.
  - eapply keeps_trans; [by eapply (keeps_put c P (mfID m) files)|].
    destruct (publishIndex_cases _ _ _ _ _ _ _ _ (on_store_some _ _ _ _ Hs) Hi) as [(e & _ & ->)|(b & _ & _ & failed & index & _ & -> & _)]; [apply keeps_refl|].
    by apply keeps_on_store.
Qed.

(** *** What is staged *)

(** No two outputs of one digest differ. *)
Definition collision_free (outs : list Input) : Prop := ∀ o o', o ∈ outs → o' ∈ outs → Digest (inData o) = Digest (inData o') → inData o = inData o'.

Lemma stageOutputs_ok fails i l : ∀ expected files out, stageOutputs fails i l expected files = Ok out →
  (∀ d x, files !! d = Some x → out !! d = Some x)
  ∧ (∀ d x, out !! d = Some x → files !! d = Some x ∨ ∃ o, o ∈ l ∧ inData o = x ∧ Digest x = d)
  ∧ (∀ o, o ∈ l → is_Some (out !! Digest (inData o)))
  ∧ ∃ rest, Forall2 (λ o a, inPath o = afName a ∧ Digest (inData o) = afID a ∧ len (inData o) = afSize a) l (take (length l) expected)
      ∧ expected = take (length l) expected ++ rest.
Proof.
  revert i. induction l as [|o l IH]; intros i expected files out Ho.
  { injection Ho as ->. split_and!; [done|by left| |by exists expected; split; [constructor|]]. intros o Hin. by apply not_elem_of_nil in Hin. }
  cbn [stageOutputs] in Ho. destruct expected as [|a expected]; [done|]. destruct (_ || _) eqn:E in Ho; [done|]. zbool.
  assert (Hstep : ∀ files', files' = files ∨ files' = <[Digest (inData o) := inData o]> files ∧ files !! Digest (inData o) = None →
    is_Some (files' !! Digest (inData o)) → stageOutputs fails (S i) l expected files' = Ok out →
    (∀ d x, files !! d = Some x → out !! d = Some x)
    ∧ (∀ d x, out !! d = Some x → files !! d = Some x ∨ ∃ o', o' ∈ o :: l ∧ inData o' = x ∧ Digest x = d)
    ∧ (∀ o', o' ∈ o :: l → is_Some (out !! Digest (inData o')))
    ∧ ∃ rest, Forall2 (λ o a, inPath o = afName a ∧ Digest (inData o) = afID a ∧ len (inData o) = afSize a) (o :: l) (take (length (o :: l)) (a :: expected))
        ∧ a :: expected = take (length (o :: l)) (a :: expected) ++ rest).
  { intros files' Hf [x0 Hx0] Hs. destruct (IH _ _ _ _ Hs) as (I1 & I2 & I3 & rest & I4 & I5). split_and!.
    - intros d x Hd. apply I1. destruct Hf as [->|[-> Hnone]]; [done|]. rewrite lookup_insert_ne; [done|]. intros E. subst d. congruence.
    - intros d x Hd. destruct (I2 d x Hd) as [Hl|(o' & Hin & ? & ?)]; [|right; exists o'; split_and!; [by right|done|done]].
      destruct Hf as [->|[-> _]]; [by left|]. apply lookup_insert_Some in Hl as [[<- <-]|[_ Hl]]; [|by left].
      right. exists o. split_and!; [by left|done|done].
    - intros o' [->|Hin]%elem_of_cons; [|by apply I3]. exists x0. by apply I1.
    - exists rest. cbn [length take app]. split; [by constructor|]. by rewrite <- I5. }
  destruct (files !! Digest (inData o)) as [x|] eqn:Ed.
  - apply (Hstep files); [by left|by rewrite Ed|done].
  - destruct (fails i); [done|]. apply (Hstep (<[Digest (inData o) := inData o]> files)); [by right|by rewrite lookup_insert_eq|done].
Qed.

(** The files of a staged job: its manifest, and each output under its digest. *)
Lemma stagedJob_ok env m outs files : stagedJob env m outs = Ok files → len outs = len (results m) →
  files !! manifestName = Some (line (manifest_text m))
  ∧ (∀ o, o ∈ outs → ∃ o', o' ∈ outs ∧ Digest (inData o') = Digest (inData o) ∧ files !! Digest (inData o) = Some (inData o'))
  ∧ Forall2 (λ o a, inPath o = afName a ∧ Digest (inData o) = afID a ∧ len (inData o) = afSize a) outs (results m).
Proof.
  unfold stagedJob. intros Hs Hlen. destruct (pvFails env AtStage); [done|]. apply bind_Ok in Hs as (out & Ho & Hs).
  destruct (pvFails env AtManifest); [done|]. destruct (pvFails env AtStageSync); [done|]. injection Hs as <-.
  destruct (stageOutputs_ok _ _ _ _ _ _ Ho) as (_ & I2 & I3 & rest & I4 & I5). split_and!.
  - by rewrite lookup_insert_eq.
  - intros o Hin. destruct (I3 o Hin) as [x Hx]. destruct (I2 _ _ Hx) as [Hx'|(o' & Hin' & <- & Hd)]; [by rewrite lookup_empty in Hx'|].
    exists o'. split_and!; [done|done|]. rewrite lookup_insert_ne; [done|]. intros E.
    pose proof (Digest_valid (inData o)) as Hv. rewrite <- E in Hv. by vm_compute in Hv.
  - rewrite take_ge in I4; [done|]. unfold len in Hlen. lia.
Qed.

Lemma checkDeclared_ok l names n total : checkDeclared l names n = Ok total → len l = len names →
  inPath <$> l = names ∧ Forall (λ o, len (inData o) ≤ MaxOutput) l ∧ total = n + sum ((λ o, len (inData o)) <$> l).
Proof.
  revert names n. induction l as [|o l IH]; intros names n Hc Hl; cbn [checkDeclared] in Hc.
  - injection Hc as <-. destruct names; [|unfold len in Hl; discriminate Hl]. split_and!; [done|done|cbn; lia].
  - destruct names as [|name names]; [done|]. destruct (_ || _) eqn:E in Hc; [done|]. zbool. rewrite !len_cons in Hl.
    destruct (IH _ _ Hc) as (HA & HB & ->); [lia|]. split_and!; [cbn; congruence|by constructor|cbn; fold (sum ((λ o, len (inData o)) <$> l)); lia].
Qed.

Lemma checkContents_complete st id l : Forall (λ a, ∃ b, job_file st id (afID a) = Some b ∧ len b = afSize a ∧ Digest b = afID a ∧ len b ≤ MaxOutput) l →
  checkContents st id l = Ok ().
Proof.
  induction 1 as [|a l (b & Hb & Hl & Hd & Hm) _ IH]; [done|]. cbn [checkContents]. rewrite Hb. unfold ReadFile.
  rewrite (proj2 (Z.ltb_ge _ _)) by done. cbn [mbind result_bind]. by rewrite Hl, Z.eqb_refl, bool_decide_eq_true_2.
Qed.

(** A staged job, once it has its name, is intact. *)
Lemma published_intact env c m outs refs r files st : publishable json_error c m outs refs r = Ok () → manifest_ok m → collision_free outs →
  stagedJob env m outs = Ok files → stJobs st !! mfID m = Some files → len (line (manifest_text m)) ≤ MaxManifest →
  manifest json_error st (mkJobRef (mfID m) (Digest (line (manifest_text m)))) = Ok m
  ∧ intact st (mkJobRef (mfID m) (Digest (line (manifest_text m)))).
Proof.
  intros Hpub Hm Hcf Hst Hj Hlen. destruct (publishable_ok _ _ _ _ _ Hpub) as (_ & _ & _ & Hl1 & Hl2 & _ & _ & (total & Hd & Ht) & _).
  destruct (stagedJob_ok _ _ _ _ Hst Hl2) as (Hman & Hout & H2). destruct (checkDeclared_ok _ _ _ _ Hd Hl1) as (Hnames & Hsizes & ->).
  assert (Hjf : ∀ name, job_file st (mfID m) name = files !! name) by (intros; unfold job_file; by rewrite Hj).
  assert (Hn : afName <$> results m = outputs (mfRequest m)).
  { rewrite <- Hnames. clear -H2. induction H2 as [|o a l k (? & _) _ IH]; [done|]. cbn. congruence. }
  assert (Hs : afSize <$> results m = (λ o, len (inData o)) <$> outs).
  { clear -H2. induction H2 as [|o a l k (_ & _ & ?) _ IH]; [done|]. cbn. congruence. }
  assert (Hmani : manifest json_error st (mkJobRef (mfID m) (Digest (line (manifest_text m)))) = Ok m).
  { apply manifest_accepted; try done; [by rewrite Hjf| |by rewrite Hs; lia|apply Digest_valid].
    clear -H2 Hsizes. induction H2 as [|o a l k (_ & Ed & El) _ IH]; [done|]. apply Forall_cons in Hsizes as [? ?].
    constructor; [rewrite <- Ed, <- El; split; [apply Digest_valid|pose proof (len_nonneg (inData o)); lia]|by apply IH]. }
  split; [done|]. exists m. split; [done|]. apply checkContents_complete. cbn [jrID]. apply Forall_forall. intros a Ha.
  apply list_elem_of_lookup in Ha as [i Hi]. destruct (Forall2_lookup_r _ _ _ _ _ H2 Hi) as (o & Ho%list_elem_of_lookup_2 & _ & Hda & Hsa).
  rewrite Hjf, <- Hda.
  destruct (Hout o Ho) as (o' & Ho' & Hdo' & ->). rewrite (Hcf o' o) by done. exists (inData o). split_and!; try done.
  rewrite Forall_forall in Hsizes. by apply Hsizes.
Qed.

Lemma jobs_set l refs : jobs (set_jobs (Some l) refs) = l.
Proof. done. Qed.

Lemma Publish_Ok env c m outs refs r next r' : Publish json_error env c m outs refs r = (Ok next, r') →
  ∃ st files, rtStores r !! cfRunID c = Some st ∧ publishable json_error c m outs refs r = Ok () ∧ stagedJob env m outs = Ok files
    ∧ stJobs st !! mfID m = None ∧ len (line (manifest_text m)) ≤ MaxManifest
    ∧ next = set_jobs (Some (jobs refs ++ [mkJobRef (mfID m) (Digest (line (manifest_text m)))])) refs
    ∧ (let d := Z.max 0 (len (references_text next) + 1 - file_bytes (stIndex st)) in Reserve c d d (put_job c (mfID m) files r) = Ok ())
    ∧ rtStores r' !! cfRunID c = Some (set_index (Some (line (references_text next))) (set_store_jobs (<[mfID m := files]> (stJobs st)) st))
    ∧ r' = on_store (cfRunID c) (set_index (Some (line (references_text next)))) (put_job c (mfID m) files r).
Proof.
  intros Hp. destruct (Publish_cases _ _ _ _ _ _ _ _ Hp) as [(e & E & _)|(st & files & Hs & Hpub & Hst & Hn & _ & Hi)]; [done|].
  pose proof (on_store_some c (λ st, set_store_jobs (<[mfID m := files]> (stJobs st)) st) r st Hs) as Hs'. cbn beta in Hs'.
  fold (put_job c (mfID m) files r) in Hs'.
  destruct (publishIndex_cases _ _ _ _ _ _ _ _ Hs' Hi) as [(e & E & _)|(b & Hb & Hres & failed & index & Ha & -> & E)]; [done|].
  destruct (publishable_ok _ _ _ _ _ Hpub) as (_ & _ & _ & _ & Hl2 & _). destruct (stagedJob_ok _ _ _ _ Hst Hl2) as (Hman & _).
  unfold job_file in Hb. cbn [set_store_jobs stJobs] in Hb. rewrite lookup_insert_eq in Hb. cbn [mbind option_bind] in Hb. rewrite Hman in Hb.
  unfold ReadFile in Hb. destruct (MaxManifest <? _) eqn:El in Hb; [done|]. injection Hb as <-. zbool.
  destruct failed; [done|]. injection E as ->. cbn [stIndex set_store_jobs] in *.
  assert (index = Some (line (references_text (set_jobs (Some (jobs refs ++ [mkJobRef (mfID m) (Digest (line (manifest_text m)))])) refs)))) as ->.
  { unfold atomicJSON in Ha. destruct (pvIndex env); by injection Ha as ?. }
  exists st, files. split_and!; try done. apply (on_store_some c _ _ _ Hs').
Qed.

(** An artifact that an intact job of the references lists can be read in every range. *)
Lemma Storage_Read_complete c refs id r st : rtStores r !! cfRunID c = Some st → rfRunID refs = cfRunID c → Forall (intact st) (jobs refs) →
  validID id = true → (∃ ref m a, ref ∈ jobs refs ∧ manifest json_error st ref = Ok m ∧ a ∈ results m ∧ afID a = id) →
  ∃ content, Digest content = id ∧ ∀ offset length, 0 ≤ offset → 0 ≤ length ≤ MaxRead → offset + length ≤ len content →
    Storage_Read json_error c refs id offset length r = Ok (slice offset (offset + length) content).
Proof.
  intros Hs Hrun Hjobs Hv Hex. destruct (findArtifact_complete st (jobs refs) id Hjobs Hex) as (ref & a & Hf).
  destruct (findArtifact_ok _ _ _ _ _ Hf) as (Hin & Hid & m & Hm & Ha). rewrite Forall_forall in Hjobs.
  destruct (Hjobs ref Hin) as (m1 & Hm1 & Hc). assert (m1 = m) as -> by congruence.
  destruct (checkContents_elem _ _ _ _ Hc Ha) as (content & Hfile & Hsize & Hdig & Hmax). rewrite Hid in *.
  exists content. split; [done|]. intros offset length Hoff Hlength Hrange. unfold Storage_Read. rewrite bool_decide_eq_true_2, Hv by done.
  assert (Hmx : MaxOutput < 2 ^ 63) by (by vm_compute).
  assert (E64 : wrap64 (offset + length) = offset + length) by (apply Z.mod_small; unfold MaxRead in Hlength; lia).
  rewrite E64, (here_some _ _ _ Hs), !(proj2 (Z.ltb_ge _ _)) by lia. cbn [negb orb]. rewrite Hf. cbn [mbind result_bind].
  rewrite !(proj2 (Z.ltb_ge _ _)) by lia. cbn [orb]. unfold readArtifact. rewrite Hfile. unfold ReadFile. rewrite (proj2 (Z.ltb_ge _ _)) by lia.
  cbn [mbind result_bind]. rewrite bool_decide_eq_true_2 by done. by rewrite Hsize, Z.eqb_refl.
Qed.

Lemma references_extended refs ref st : references_ok refs → Forall (intact st) (jobs refs) → stJobs st !! jrID ref = None →
  validID (jrID ref) = true → validID (jrSHA256 ref) = true → len (jobs refs) < 64 →
  references_ok (set_jobs (Some (jobs refs ++ [ref])) refs).
Proof.
  intros Hro Hint Hn Hid Hd H64. destruct Hro as (? & ? & ? & ? & ? & ? & ? & ? & Hf & Hnd & ?). unfold references_ok.
  rewrite jobs_set. cbn [set_jobs rfVersion rfImage rfTCCAsset rfRunID rfLimits rfGeneration].
  refine (conj _ (conj _ (conj _ (conj _ (conj _ (conj _ (conj _ (conj _ (conj _ (conj _ _)))))))))); try done.
  - rewrite len_app. change (len [ref]) with 1. lia.
  - apply Forall_app. split; [done|]. by constructor.
  - rewrite fmap_app. apply NoDup_app. split_and!; [done| |apply NoDup_singleton].
    intros x (j & -> & Hj)%list_elem_of_fmap Hx%list_elem_of_singleton. rewrite Forall_forall in Hint.
    destruct (intact_valid _ _ (Hint j Hj)) as (_ & _ & [d E]). congruence.
Qed.

(** What a publication leaves reads back. *)
Lemma Publish_reads env c m outs refs r next r' :
  Publish json_error env c m outs refs r = (Ok next, r') → manifest_ok m → collision_free outs →
  references_ok refs → Forall (intact (here c r)) (jobs refs) →
  jobs next = jobs refs ++ [mkJobRef (mfID m) (Digest (line (manifest_text m)))]
  ∧ readReferencesFile json_error (stIndex (here c r')) = Ok (Some next) ∧ references_ok next
  ∧ Forall (intact (here c r')) (jobs next) ∧ manifest json_error (here c r') (mkJobRef (mfID m) (Digest (line (manifest_text m)))) = Ok m.
Proof.
  intros Hp Hm Hcf Hro Hint. pose proof (Publish_keeps _ _ _ _ _ _ _ _ (λ _, True) Hp) as Hkeep.
  destruct (Publish_Ok _ _ _ _ _ _ _ _ Hp) as (st & files & Hs & Hpub & Hst & Hn & Hlen & -> & _ & Hs' & _).
  destruct (publishable_ok _ _ _ _ _ Hpub) as (Hid & Hrun & _ & _ & Hl2 & H64 & _).
  rewrite (here_some _ _ _ Hs'), (here_some _ _ _ Hs) in *. set (st' := set_index _ _) in *.
  set (ref := mkJobRef (mfID m) (Digest (line (manifest_text m)))) in *.
  destruct (Hkeep st Hs) as (st0 & Hs0 & _ & Hsame). assert (st0 = st') as -> by congruence.
  assert (Hall : Forall (intact st') (jobs refs)).
  { eapply Forall_impl; [exact Hint|]. intros j Hj. destruct (intact_valid _ _ Hj) as (Hv & _ & Hi). eapply intact_same; [|exact Hj]. by apply Hsame. }
  assert (Hnew : stJobs st' !! mfID m = Some files) by (cbn [st' set_index set_store_jobs stJobs]; by rewrite lookup_insert_eq).
  destruct (published_intact env c m outs refs r files st' Hpub Hm Hcf Hst Hnew Hlen) as [Hmani Hinew]. fold ref in Hmani, Hinew.
  assert (Hok : references_ok (set_jobs (Some (jobs refs ++ [ref])) refs)) by (apply (references_extended refs ref st); (done || apply Digest_valid)).
  refine (conj eq_refl (conj _ (conj Hok (conj _ Hmani)))); [by apply references_roundtrip|].
  rewrite jobs_set. apply Forall_app. split; [done|by constructor].
Qed.

(** Every published output can be read back. *)
Lemma Publish_outputs env c m outs refs r next r' o offset length :
  Publish json_error env c m outs refs r = (Ok next, r') → manifest_ok m → collision_free outs →
  references_ok refs → Forall (intact (here c r)) (jobs refs) →
  o ∈ outs → 0 ≤ offset → 0 ≤ length ≤ MaxRead → offset + length ≤ len (inData o) →
  Storage_Read json_error c next (Digest (inData o)) offset length r' = Ok (slice offset (offset + length) (inData o))
  ∨ ∃ content, content ≠ inData o ∧ Digest content = Digest (inData o).
Proof.
  intros Hp Hm Hcf Hro Hint Ho Hoff Hlength Hrange. destruct (Publish_reads _ _ _ _ _ _ _ _ Hp Hm Hcf Hro Hint) as (Hj & _ & _ & Hi & Hmani).
  destruct (Publish_Ok _ _ _ _ _ _ _ _ Hp) as (st & files & _ & Hpub & Hst & _ & _ & Hn & _ & Hs' & _).
  destruct (publishable_ok _ _ _ _ _ Hpub) as (_ & Hrun & _ & _ & Hl2 & _). destruct (stagedJob_ok _ _ _ _ Hst Hl2) as (_ & _ & H2).
  apply list_elem_of_lookup in Ho as [i Hlo]. destruct (Forall2_lookup_l _ _ _ _ _ H2 Hlo) as (a & Ha%list_elem_of_lookup_2 & _ & Hda & _).
  destruct (Storage_Read_complete c next (Digest (inData o)) r' (here c r')) as (content & Hc & Hread); [|by rewrite Hn|done|apply Digest_valid| |].
  - rewrite Hs'. f_equal. symmetry. by apply here_some.
  - eexists _, m, a. rewrite Hj. split_and!; [apply elem_of_app; right; by apply list_elem_of_singleton|done|done|done].
  - destruct (decide (content = inData o)) as [->|Hne]; [left; by apply Hread|right; by exists content].
Qed.

(** C24: After a publication that succeeded, under whatever faults it met, the index on disk
    reads as the references the service goes on with: the earlier ones and the new job.
    All of them are intact, and every output of the job can be read back in any range of
    up to one megabyte, exactly as the worker delivered it, unless two contents have the
    same SHA-256. *)
Theorem published_outputs_readable env c m outs refs r next r' :
  Publish json_error env c m outs refs r = (Ok next, r') → manifest_ok m → collision_free outs →
  references_ok refs → Forall (intact (here c r)) (jobs refs) →
  jobs next = jobs refs ++ [mkJobRef (mfID m) (Digest (line (manifest_text m)))]
  ∧ readReferencesFile json_error (stIndex (here c r')) = Ok (Some next) ∧ references_ok next
  ∧ Forall (intact (here c r')) (jobs next)
  ∧ ∀ o offset length, o ∈ outs → 0 ≤ offset → 0 ≤ length ≤ MaxRead → offset + length ≤ len (inData o) →
      Storage_Read json_error c next (Digest (inData o)) offset length r' = Ok (slice offset (offset + length) (inData o))
      ∨ ∃ content, content ≠ inData o ∧ Digest content = Digest (inData o).
Proof.
  intros Hp Hm Hcf Hro Hint. destruct (Publish_reads _ _ _ _ _ _ _ _ Hp Hm Hcf Hro Hint) as (? & ? & ? & ? & _).
  split_and!; [done..|]. intros. by eapply Publish_outputs.
Qed.

(** The last sync of the index fails. *)
Definition unsynced (e : error) (env : publish_env) : publish_env := mkPublishEnv (pvCancelled env) (pvFails env) (AfterRename e) (pvStage env) (pvLeft env).

(** A publication whose last sync fails leaves the root of one that succeeded. *)
Lemma Publish_unsynced env c m outs refs r next r' e :
  Publish json_error env c m outs refs r = (Ok next, r') → Publish json_error (unsynced e env) c m outs refs r = (Err e, r').
Proof.
  unfold Publish, stagedJob, publishIndex, atomicJSON. cbn [unsynced pvCancelled pvFails pvIndex pvStage pvLeft].
  destruct (pvIndex env); repeat (case_match; try done); intros E; by simplify_eq.
Qed.

(** ** Quotas *)

Lemma sum_perm l k : l ≡ₚ k → sum l = sum k.
Proof. unfold sum. induction 1; cbn [foldr] in *; lia. Qed.

Lemma sum_alter {A} (g : A → Z) (m : gmap bytes A) id f x : m !! id = Some x →
  sum ((λ e, g e.2) <$> map_to_list (alter f id m)) = sum ((λ e, g e.2) <$> map_to_list m) + g (f x) - g x.
Proof.
  intros Hx. assert (alter f id m = <[id := f x]> (delete id m)) as ->.
  { apply map_eq. intros k. destruct (decide (k = id)) as [->|]; [by rewrite lookup_alter_eq, lookup_insert_eq, Hx|].
    by rewrite lookup_alter_ne, lookup_insert_ne, lookup_delete_ne. }
  rewrite (sum_perm _ ((λ e, g e.2) <$> (id, f x) :: map_to_list (delete id m))).
  2: { apply fmap_Permutation, map_to_list_insert, lookup_delete_eq. }
  rewrite (sum_perm ((λ e, g e.2) <$> map_to_list m) ((λ e, g e.2) <$> (id, x) :: map_to_list (delete id m))).
  2: { apply fmap_Permutation. symmetry. by apply map_to_list_delete. }
  cbn [fmap list_fmap snd sum foldr]. fold (sum ((λ e, g e.2) <$> map_to_list (delete id m))). lia.
Qed.

Lemma root_on_store c f r st : rtStores r !! cfRunID c = Some st →
  root_bytes (on_store (cfRunID c) f r) = root_bytes r + store_bytes (f st) - store_bytes st
  ∧ root_count (on_store (cfRunID c) f r) = root_count r + store_count (f st) - store_count st.
Proof.
  intros Hs. unfold root_bytes, root_count, on_store. cbn [rtStores rtInits].
  rewrite (sum_alter store_bytes _ _ f st Hs), (sum_alter store_count _ _ f st Hs). lia.
Qed.

Lemma Reserve_iff c a b r st : rtStores r !! cfRunID c = Some st →
  Reserve c a b r = Ok () ↔ store_count st ≤ 65536 ∧ store_bytes st + a ≤ MaxRunBytes ∧ root_count r ≤ 65536 ∧ root_bytes r + b ≤ MaxGlobalBytes.
Proof.
  intros Hs. unfold Reserve, directoryBytes. rewrite Hs.
  destruct (65536 <? store_count st) eqn:E1; zbool; cbn [mbind result_bind]; [split; [done|lia]|].
  destruct (MaxRunBytes <? _) eqn:E2; zbool; [split; [done|lia]|].
  destruct (65536 <? root_count r) eqn:E3; zbool; cbn [mbind result_bind]; [split; [done|lia]|].
  destruct (MaxGlobalBytes <? _) eqn:E4; zbool; (split; [done|lia]) || (split; intros; [lia|done]).
Qed.

Lemma validateJobs_complete st l n k : countArtifacts json_error st l n = Ok k → Forall (intact st) l → validateJobs json_error st l n = Ok k.
Proof.
  revert n. induction l as [|j l IH]; intros n Hc Hi; [done|]. cbn [countArtifacts validateJobs] in *. apply bind_Ok in Hc as (m & Hm & Hc).
  apply Forall_cons in Hi as [(m' & Hm' & Hcc) Hi]. assert (m' = m) as -> by congruence. rewrite Hm. cbn [mbind result_bind]. rewrite Hcc. by apply IH.
Qed.

Lemma countArtifacts_same st st' l n : Forall (λ j, same_job st st' (jrID j)) l → countArtifacts json_error st l n = countArtifacts json_error st' l n.
Proof.
  intros Hs. revert n. induction Hs as [|j l Hj _ IH]; intros n; [done|]. cbn [countArtifacts]. rewrite (manifest_same st st') by done.
  destruct (manifest json_error st' j); [|done]. apply IH.
Qed.

Lemma countArtifacts_app st l ref m n k : countArtifacts json_error st l n = Ok k → manifest json_error st ref = Ok m →
  ∀ d, countArtifacts json_error st (l ++ [ref]) (n - d) = Ok (k - d + len (results m)).
Proof.
  intros Hc Hm. revert n Hc. induction l as [|j l IH]; intros n Hc d; cbn [countArtifacts app] in *.
  - injection Hc as <-. by rewrite Hm.
  - apply bind_Ok in Hc as (x & -> & Hc). cbn [mbind result_bind]. replace (n - d + len (results x)) with (n + len (results x) - d) by lia. by apply IH.
Qed.

(** C26: The quotas hold after every publication: with an index in place before it, the store
    it leaves passes the validation that opening, archiving and collecting a run perform,
    with at most 64 jobs, 256 artifacts, 128 MiB in the store and 512 MiB in all stores. *)
Theorem publication_within_quota env c m outs refs r next r' :
  Publish json_error env c m outs refs r = (Ok next, r') → manifest_ok m → collision_free outs →
  references_ok refs → Forall (intact (here c r)) (jobs refs) → is_Some (stIndex (here c r)) →
  Storage_Validate json_error c (Some next) r' = Ok ()
  ∧ store_bytes (here c r') ≤ MaxRunBytes ∧ root_bytes r' ≤ MaxGlobalBytes ∧ len (jobs next) ≤ 64.
Proof.
  intros Hp Hm Hcf Hro Hint [old Hold]. pose proof (Publish_keeps _ _ _ _ _ _ _ _ (λ _, True) Hp) as Hkeep.
  destruct (Publish_Ok _ _ _ _ _ _ _ _ Hp) as (st & files & Hs & Hpub & Hst & Hn & Hlen & Hnext & Hres & Hs' & Hr').
  destruct (publishable_ok _ _ _ _ _ Hpub) as (Hid & Hrun & _ & _ & Hl2 & H64 & _ & _ & count & Hcount & H256).
  rewrite (here_some _ _ _ Hs') in *. rewrite (here_some _ _ _ Hs) in *. destruct (Hkeep st Hs) as (st' & Hs0 & _ & Hsame).
  rewrite Hs' in Hs0. injection Hs0 as Est. rewrite Est in Hs' |- *.
  set (ref := mkJobRef (mfID m) (Digest (line (manifest_text m)))) in *.
  assert (Hj : jobs next = jobs refs ++ [ref]) by (by rewrite Hnext).
  assert (Hsame' : Forall (λ j, same_job st st' (jrID j)) (jobs refs)).
  { eapply Forall_impl; [exact Hint|]. intros j Hi. destruct (intact_valid _ _ Hi) as (? & _ & ?). by apply Hsame. }
  destruct (published_intact env c m outs refs r files st' Hpub Hm Hcf Hst) as [Hmani Hinew]; [|done|].
  { rewrite <- Est. cbn [set_index set_store_jobs stJobs]. by rewrite lookup_insert_eq. }
  assert (Hjobs : Forall (intact st') (jobs next)).
  { rewrite Hj. apply Forall_app. split; [|by constructor]. apply Forall_forall. intros j Hin. rewrite !Forall_forall in *.
    by eapply intact_same; [apply Hsame'|apply Hint]. }
  assert (Hval : validateJobs json_error st' (jobs next) 0 = Ok count).
  { apply validateJobs_complete; [|done]. rewrite Hj. rewrite (countArtifacts_same st st') in Hcount by done.
    replace 0 with (len outs - len outs) by lia. rewrite (countArtifacts_app _ _ _ _ _ _ Hcount Hmani). f_equal. lia. }
  pose proof (on_store_some c (λ s, set_store_jobs (<[mfID m := files]> (stJobs s)) s) r st Hs) as Hs1. fold (put_job c (mfID m) files r) in Hs1.
  cbn zeta in Hres. apply (Reserve_iff _ _ _ _ _ Hs1) in Hres.
  destruct (root_on_store c (set_index (Some (line (references_text next)))) _ _ Hs1) as [Hrb Hrc]. rewrite <- Hr' in Hrb, Hrc.
  assert (Hsz : store_bytes st' = store_bytes (set_store_jobs (<[mfID m := files]> (stJobs st)) st) - len old + (len (references_text next) + 1)
    ∧ store_count st' = store_count (set_store_jobs (<[mfID m := files]> (stJobs st)) st)).
  { rewrite <- Est. unfold store_bytes, store_count. cbn [set_index set_store_jobs stOwner stIndex stBlocked stJobs stFailures stTemp file_bytes file_count].
    rewrite Hold. cbn [file_bytes file_count]. unfold line. rewrite len_app. change (len [x0a]) with 1. lia. }
  rewrite Est in Hrb, Hrc. rewrite Hold in Hres. cbn [file_bytes] in Hres.
  assert (Hlim : Reserve c 0 0 r' = Ok ()) by (apply (Reserve_iff _ _ _ _ _ Hs'); lia).
  assert (Hjl : len (jobs next) ≤ 64) by (rewrite Hj, len_app; change (len [ref]) with 1; lia).
  refine (conj _ (conj _ (conj _ Hjl))); [|lia|lia].
  assert (rfVersion next = 1 ∧ rfLimits next = Baseline ∧ rfRunID next = cfRunID c) as (Ev & El & Er).
  { destruct Hro as (? & _ & _ & _ & _ & ? & _). by rewrite Hnext. }
  unfold Storage_Validate. rewrite Ev, El, Er, !bool_decide_eq_true_2 by done. rewrite (proj2 (Z.ltb_ge _ _)) by lia. cbn [Z.eqb Pos.eqb negb orb].
  rewrite (here_some _ _ _ Hs'), Hval. cbn [mbind result_bind]. by rewrite (proj2 (Z.ltb_ge _ _)) by lia.
Qed.

(** ** Everything else that happens to a store *)

(** Nothing that is read back changes: the owner, the index, the blocking record and the
    jobs are the same. *)
Definition quiet c r r' : Prop :=
  ∀ st, rtStores r !! cfRunID c = Some st → ∃ st', rtStores r' !! cfRunID c = Some st' ∧ stOwner st' = stOwner st
    ∧ stIndex st' = stIndex st ∧ stBlocked st' = stBlocked st ∧ ∀ id, validID id = true → same_job st st' id.

Lemma quiet_refl c r : quiet c r r.
Proof. intros st Hs. exists st. done. Qed.

Lemma quiet_trans c r1 r2 r3 : quiet c r1 r2 → quiet c r2 r3 → quiet c r1 r3.
Proof.
  intros H12 H23 st Hs. destruct (H12 st Hs) as (st2 & Hs2 & Ho2 & Hi2 & Hb2 & Hj2). destruct (H23 st2 Hs2) as (st3 & Hs3 & Ho3 & Hi3 & Hb3 & Hj3).
  exists st3. split_and!; [done|congruence..|]. intros id Hv. unfold same_job in *. by rewrite Hj2, Hj3.
Qed.

Lemma quiet_keeps c P r r' : quiet c r r' → keeps_jobs c P r r'.
Proof. intros Hq st Hs. destruct (Hq st Hs) as (st' & ? & ? & _ & _ & Hj). exists st'. split_and!; [done|done|]. intros. by apply Hj. Qed.

Lemma quiet_failures c x r : quiet c r (on_store (cfRunID c) (set_failures x) r).
Proof. intros st Hs. exists (set_failures x st). split; [by apply on_store_some|done]. Qed.

Lemma Failure_quiet made removes write stamp c m r e r' : Failure made removes write stamp c m r = (e, r') → quiet c r r'.
Proof.
  unfold Failure. intros Hf. destruct made as [x|]; [injection Hf as _ <-; apply quiet_refl|]. set (r0 := on_store _ _ r) in Hf.
  assert (H0 : quiet c r r0) by (intros st Hs; eexists; split; [by apply on_store_some|done]).
  destruct (MaxDiagnostics <? _); [injection Hf as _ <-; done|].
  destruct (dropOldest _ _ _ _) as [failed records]. set (r1 := on_store _ _ r0) in Hf.
  assert (H1 : quiet c r r1) by (eapply quiet_trans; [exact H0|apply quiet_failures]).
  destruct failed as [x|]; [injection Hf as _ <-; done|]. destruct (Reserve _ _ _ _) as [?|x]; [|injection Hf as _ <-; done].
  destruct (atomicJSON _ _ _) as [failed content]. injection Hf as _ <-. eapply quiet_trans; [exact H1|apply quiet_failures].
Qed.

(** The owner record of the store of a run names its directory. *)
Definition owned (path : bytes) st : Prop :=
  ∃ o, len (stOwner st) ≤ 4096 ∧ strictJSON json_error (to_table owner_fields) (stOwner st) (mkOwner 0 []) 4096 = Ok o ∧ owVersion o = 1 ∧ owRun o = path.

Lemma recoverStores_quiet c configOf removes path ids : ∀ r res r',
  recoverStores json_error c configOf removes ids r = (res, r') → configOf path = Ok (Some c) →
  (∀ st, rtStores r !! cfRunID c = Some st → owned path st) → quiet c r r'.
Proof.
  induction ids as [|id ids IH]; intros r res r' Hr Hc Ho; cbn [recoverStores] in Hr; [injection Hr as _ <-; apply quiet_refl|].
  destruct (rtStores r !! id) as [st|] eqn:Es; [|by eapply IH]. destruct (recoverStore _ _ _ _ _) as [st'|e] eqn:Er; [|injection Hr as _ <-; apply quiet_refl].
  destruct (removes id); [injection Hr as _ <-; apply quiet_refl|]. set (r1 := mkRoot _ _) in Hr.
  assert (H1 : quiet c r r1 ∧ ∀ st, rtStores r1 !! cfRunID c = Some st → owned path st).
  { destruct (decide (id = cfRunID c)) as [->|Hne].
    - unfold recoverStore in Er. destruct (negb _) in Er; [done|]. destruct (Ho st Es) as (o & Hl & Hj & Hv & Hp).
      unfold ReadFile in Er. rewrite (proj2 (Z.ltb_ge _ _)) in Er by done. cbn [mbind result_bind] in Er. rewrite Hj in Er. cbn [mbind result_bind] in Er.
      rewrite Hp, Hc in Er. cbn [mbind result_bind] in Er. destruct (_ || _) in Er; [done|]. injection Er as <-.
      assert (E1 : rtStores r1 !! cfRunID c = Some (set_temp [] (set_store_jobs (filter (λ e, strings.HasPrefix e.1 stagePrefix = false) (stJobs st)) st)))
        by (cbn [r1 rtStores]; by rewrite lookup_partial_alter_eq).
      split.
      + intros st0 Hs0. assert (st0 = st) as -> by congruence. eexists. split_and!; [exact E1|done..|]. intros k Hk.
        unfold same_job. cbn [set_temp set_store_jobs stJobs]. rewrite map_lookup_filter. destruct (stJobs st !! k) as [d|]; [|done].
        cbn. rewrite option_guard_True; [done|]. by apply not_stage.
      + intros st0 Hs0. rewrite E1 in Hs0. injection Hs0 as <-. exists o. done.
    - assert (E1 : rtStores r1 !! cfRunID c = rtStores r !! cfRunID c) by (cbn [r1 rtStores]; by rewrite lookup_partial_alter_ne).
      split; [|by rewrite E1]. intros st0 Hs0. exists st0. by rewrite E1. }
  destruct H1 as [Hk Ho1]. eapply quiet_trans; [exact Hk|]. by eapply IH.
Qed.

(** Taking the lock sweeps the stages of a crash and nothing else. *)
Lemma LockStorage_quiet refused c configOf removes path r res r' :
  LockStorage json_error refused c configOf removes r = (res, r') → configOf path = Ok (Some c) →
  (∀ st, rtStores r !! cfRunID c = Some st → owned path st) → quiet c r r'.
Proof.
  unfold LockStorage, recover. intros Hl Hc Ho. destruct refused; [injection Hl as _ <-; apply quiet_refl|].
  assert (H0 : quiet c r (mkRoot (rtStores r) ∅)) by (intros st Hs; exists st; done).
  eapply quiet_trans; [exact H0|]. by eapply recoverStores_quiet.
Qed.

Lemma removeJobs_keeps c removes keep names n r count failed r' P : removeJobs c removes keep names n r = (count, failed, r') →
  (∀ id, P id → id ∈ keep) → keeps_jobs c P r r'.
Proof.
  revert n r. induction names as [|name names IH]; intros n r Hr Hp; cbn [removeJobs] in Hr; [injection Hr as _ _ <-; apply keeps_refl|].
  destruct (negb _); [injection Hr as _ _ <-; apply keeps_refl|]. destruct (bool_decide (name ∈ keep)) eqn:E; zbool; [by eapply IH|].
  destruct (removes name); [injection Hr as _ _ <-; apply keeps_refl|]. eapply keeps_trans; [|by eapply IH].
  apply keeps_on_store; [done|]. intros st id _ Hid _. cbn [set_store_jobs stJobs]. rewrite lookup_delete_ne; [done|]. intros ->. auto.
Qed.

Lemma keptJobs_ok c r l keep keep' : keptJobs json_error c r l keep = Ok keep' →
  keep ⊆ keep' ∧ ∀ g content refs, (g, content) ∈ l → ReadReferences json_error (Some content) = Ok (Some refs) →
    Forall (λ j, jrID j ∈ keep') (jobs refs).
Proof.
  revert keep. induction l as [|[g0 content0] l IH]; intros keep Hk; cbn [keptJobs] in Hk.
  { injection Hk as <-. split; [done|]. intros g content refs Hin. by apply not_elem_of_nil in Hin. }
  apply bind_Ok in Hk as (refs0 & Hr0 & Hk). apply bind_Ok in Hk as ([] & _ & Hk). destruct (IH _ Hk) as [Hsub Hall]. split; [set_solver|].
  intros g content refs [E|Hin]%elem_of_cons Hr; [|by eapply Hall]. injection E as -> ->. rewrite Hr in Hr0. injection Hr0 as <-.
  apply Forall_forall. intros j Hj. apply Hsub. apply elem_of_union_l, elem_of_list_to_set. by apply list_elem_of_fmap_2.
Qed.

(** A collection keeps the jobs every archive refers to. *)
Lemma GarbageCollect_keeps refused configOf recovers removes write synced run r res r' c path :
  GarbageCollect json_error refused configOf recovers removes write synced run r = (res, r') →
  LoadConfig json_error (rdConfig run) = Ok (Some c) → configOf path = Ok (Some c) →
  (∀ st, rtStores r !! cfRunID c = Some st → owned path st) →
  keeps_jobs c (λ id, ∃ g content refs j, rdArchives run !! g = Some content ∧ ReadReferences json_error (Some content) = Ok (Some refs)
                        ∧ j ∈ jobs refs ∧ jrID j = id) r r'.
Proof.
  intros Hg Hc Hpath Ho. unfold GarbageCollect in Hg. rewrite Hc in Hg.
  destruct (LockStorage _ _ _ _ _ _) as [locked r1] eqn:El. set (P := λ id : bytes, _).
  pose proof (quiet_keeps _ P _ _ (LockStorage_quiet _ _ _ _ _ _ _ _ El Hpath Ho)) as H1.
  destruct locked as [[]|e]; [|injection Hg as _ <-; done].
  destruct (keptJobs _ _ _ _ _) as [keep|e] eqn:Ek; cbn [mbind result_bind] in Hg; [|injection Hg as _ <-; done].
  match type of Hg with context [match mbind _ ?x with _ => _ end] => destruct x as [inherited|e] end; cbn [mbind result_bind] in Hg; [|injection Hg as _ <-; done].
  match type of Hg with context [match mbind _ ?x with _ => _ end] => destruct x as [current|e] end; cbn [mbind result_bind] in Hg; [|injection Hg as _ <-; done].
  destruct (keptJobs_ok _ _ _ _ _ Ek) as [_ Hkept].
  assert (Hsub : ∀ id, P id → id ∈ (list_to_set (jrID <$> inherited) ∪ keep : gset bytes)).
  { intros id (g & content & refs & j & Hin & Hr & Hj & <-). apply elem_of_union_r.
    pose proof (Hkept g content refs ltac:(by apply elem_of_map_to_list) Hr) as Hf. rewrite Forall_forall in Hf. by apply Hf. }
  match type of Hg with (let '(_, _) := ?x in _) = _ => destruct x as [failed r2] eqn:E2 end.
  assert (H2 : keeps_jobs c P r1 r2).
  { destruct current as [refs|]; [|injection E2 as _ <-; apply keeps_refl]. destruct (atomicJSON _ _ _). injection E2 as _ <-. by apply keeps_on_store. }
  pose proof (keeps_trans _ _ _ _ _ H1 H2) as H12. destruct failed; [injection Hg as _ <-; done|].
  destruct (removeJobs _ _ _ _ _ _) as [[count failed] r3] eqn:E3. pose proof (removeJobs_keeps _ _ _ _ _ _ _ _ _ P E3 Hsub) as H3.
  pose proof (keeps_trans _ _ _ _ _ H12 H3). destruct failed; [injection Hg as _ <-; done|]. destruct synced; injection Hg as _ <-; done.
Qed.
End Proofs.

(** ** A run with one job *)

(** Times written as decimals. *)
Definition decimal_time (t : Z) : bytes := if (0 <=? t) && (t <? 2 ^ 64) then strconv.Itoa t else [].
Lemma decimal_time_valid t : utf8.Valid (decimal_time t) = true.
Proof.
  unfold decimal_time. destruct (_ && _) eqn:E; [|done]. zbool. destruct (strconv.Itoa_spec t) as (Hd & _); [by split|].
  apply utf8.Valid_ascii, Forall_forall. intros b Hb. rewrite forallb_forall in Hd. apply list_elem_of_In in Hb. specialize (Hd b Hb).
  unfold strconv.is_digit in Hd. zbool. change 0x80 with 128. lia.
Qed.
Lemma decimal_time_parse t : u64 t → strconv.ParseUint (decimal_time t) = Some t.
Proof. intros Ht. unfold decimal_time. rewrite (proj2 (Z.leb_le 0 t)), (proj2 (Z.ltb_lt t _)) by apply Ht. by apply strconv.ParseUint_Itoa. Qed.
Definition decimal_times : TimeFormat := {|
  time_range := u64; time_text := decimal_time; time_parse := strconv.ParseUint; time_zero := 0;
  time_text_valid := decimal_time_valid; time_parse_text := decimal_time_parse
|}.

Lemma ok_pair {A B} (p : result A * B) : is_ok p.1 = true → ∃ x y, p = (Ok x, y).
Proof. destruct p as [[x|] y]; [by exists x, y|done]. Qed.

Module store_example.
#[local] Existing Instance decimal_times.
Import request_example.
Definition run_id : bytes := Eval vm_compute in Digest (bs "run").
Definition path : bytes := bs "/runs/a".
Definition config : Config := mkConfig 1 true (bs "/srv/bootstrap") run_id (bs "tcc").
Definition owner : bytes := Eval vm_compute in line (owner_text (mkOwner 1 path)).
(** An earlier job, whose artifact the request mounts. *)
Definition old_job : bytes := Eval vm_compute in Digest (bs "old job").
Definition old_result : Result := mkResult old_job [] ∅ ∅ 0 (bs "ok") [] 0 false true (Some [mkArtifact old_id (bs "old.o") (len old)]).
Definition manifest_of (id : bytes) (r : Request) (ins : list AssetRef) (res : Result) : Manifest :=
  mkManifest run_id 1 id 0 Image ImageID TCCCommit r digest 0 (Some ins) Baseline 5 6 res.
Definition old_manifest : Manifest := manifest_of old_job (mkRequest 1 (Some [bs "cc"]) None None (Some [bs "old.o"])) [] old_result.
Definition old_text : bytes := Eval vm_compute in line (manifest_text old_manifest).
Definition old_ref : JobRef := Eval vm_compute in mkJobRef old_job (Digest old_text).
Definition refs : References := set_jobs (Some [old_ref]) (NewReferences config 0).
Definition index : bytes := Eval vm_compute in line (references_text refs).
Definition store : Store := mkStore owner (Some index) None {[ old_job := {[ manifestName := old_text; old_id := old ]} ]} None [].
Definition root : Root := mkRoot {[ run_id := store ]} ∅.
(** The new job. *)
Definition job_id : bytes := Eval vm_compute in Digest (bs "job").
Definition object : bytes := bs "object code".
Definition result : Result :=
  mkResult job_id [] ∅ ∅ 0 (bs "ok") [] 0 false true (Some [mkArtifact (Digest object) (bs "out/a.o") (len object)]).
Definition job_manifest : Manifest := manifest_of job_id request [mkAssetRef (bs "assets/tool") digest; mkAssetRef (bs "artifacts/" ++ old_id) old_id] result.
Definition outs : list Input := [mkInput (bs "out/a.o") object].
Definition env : publish_env := mkPublishEnv (λ _, None) (λ _, None) NoFault (bs "x") None.
Lemma accepted : is_ok (Publish no_error env config job_manifest outs refs root).1 = true.
Proof. vm_cast_no_check (eq_refl true). Qed.
Lemma refs_read : readReferencesFile no_error (Some index) = Ok (Some refs).
Proof. vm_cast_no_check (eq_refl (Ok (Some refs) : GoStd.result (option References))). Qed.
Lemma old_intact : validateJobs no_error (here config root) (jobs refs) 0 = Ok 1.
Proof. vm_cast_no_check (eq_refl (Ok 1 : GoStd.result Z)). Qed.
Lemma manifest_fine : manifest_ok job_manifest.
Proof.
  constructor; try (vm_compute; reflexivity); cbn [mfGeneration mfImage mfImageID mfTCCCommit mfInputs mfStarted mfFinished mfResult job_manifest manifest_of].
  - done.
  - done.
  - repeat constructor; vm_compute; reflexivity.
  - done.
  - constructor; cbn [rsJobID rsWorkerSHA256 rsControls rsResourceEvents rsStatus rsReason rsDiagnostics rsExitCode rsArtifacts result default].
    + split; vm_compute; reflexivity.
    + apply map_Forall_empty.
    + apply map_Forall_empty.
    + done.
    + split; vm_compute; reflexivity.
    + done.
    + constructor; [|constructor]. split; [vm_compute; reflexivity|]. split; [vm_compute; reflexivity|]. cbn [afSize]. done.
  - done.
Qed.
End store_example.

Lemma artifact_read_exact_witness : ∃ b, slice 4 9 b = bs "artif" ∧ Digest b = request_example.old_id.
Proof.
  assert (Ho : 0 ≤ 4 < 2 ^ 64) by done.
  assert (Hr : Storage_Read (H := decimal_times) request_example.no_error store_example.config store_example.refs request_example.old_id 4 5 store_example.root = Ok (bs "artif"))
    by (vm_compute; reflexivity).
  destruct (artifact_read_exact (H := decimal_times) _ _ _ _ 4 5 _ _ Ho ltac:(done) Hr) as (_ & _ & _ & content & _ & _ & _ & _ & _ & Hd & _ & _ & _ & Hs & _).
  exists content. split; [exact (eq_sym Hs)|exact Hd].
Defined.

Lemma published_outputs_readable_witness :
  ∃ next r', Publish (H := decimal_times) request_example.no_error store_example.env store_example.config store_example.job_manifest store_example.outs store_example.refs store_example.root
             = (Ok next, r')
    ∧ len (jobs next) = 2 ∧ Forall (intact (H := decimal_times) request_example.no_error (here store_example.config r')) (jobs next).
Proof.
  destruct (ok_pair _ store_example.accepted) as (next & r' & E). exists next, r'. split; [exact E|].
  destruct (published_outputs_readable (H := decimal_times) _ _ _ _ _ _ _ _ _ E store_example.manifest_fine) as (Hj & _ & _ & Hi & _).
  - intros o o' Ho Ho' _. apply list_elem_of_singleton in Ho, Ho'. by subst.
  - exact (readReferencesFile_ok _ _ _ store_example.refs_read).
  - exact (validateJobs_iff (H := decimal_times) _ _ _ _ _ store_example.old_intact).
  - split; [|exact Hi]. rewrite Hj. reflexivity.
Defined.

Lemma publication_within_quota_witness :
  ∃ next r', Publish (H := decimal_times) request_example.no_error store_example.env store_example.config store_example.job_manifest store_example.outs store_example.refs store_example.root
             = (Ok next, r')
    ∧ Storage_Validate (H := decimal_times) request_example.no_error store_example.config (Some next) r' = Ok ().
Proof.
  destruct (ok_pair _ store_example.accepted) as (next & r' & E). exists next, r'. split; [exact E|].
  destruct (publication_within_quota (H := decimal_times) _ _ _ _ _ _ _ _ _ E store_example.manifest_fine) as (Hv & _); [| | | |exact Hv].
  - intros o o' Ho Ho' _. apply list_elem_of_singleton in Ho, Ho'. by subst.
  - exact (readReferencesFile_ok _ _ _ store_example.refs_read).
  - exact (validateJobs_iff (H := decimal_times) _ _ _ _ _ store_example.old_intact).
  - eexists. reflexivity.
Defined.
