(* ===== verification/BootstrapService.v ===== *)
(** * Bootstrap jobs: the service (src/internal/bootstrap/service.go)

    One service runs with each generation. Its fields are guarded by a mutex; a job holds
    the slot [active] from its admission to its answer, and everything else can happen in
    between. Each critical section and each stretch of work of a job is one definition;
    [service_step] interleaves them. The worker's answer, the assets and the file system
    are arguments. *)

From S2P Require Import Prelude GoStd Framing Protocol Sha256 SourceCapacity Snapshot Json FeatureStore ArchiveRecord JsonTree JsonCompact JsonStruct.
From S2P Require Import BootstrapRequest BootstrapStore.
Open Scope Z_scope.

Record Asset := mkAsset { asID : bytes; asSHA256 : bytes; asSize : Z }.

(** Where the request of a job is. *)
Inductive job_phase :=
| JobAdmitted (r : Request) (snap : SourceSnapshot)       (* holds the slot *)
| JobRunning (w : wireRequest) (m : Manifest)             (* at the worker *)
| JobAnswered (m : Manifest) (outs : list Input)          (* the result is judged *)
| JobDone (m : Manifest).                                 (* published or refused *)

(** A job and its context, a child of the invocation it was admitted under. *)
Record job := mkJob { jbID : Z; jbParent : nat; jbCancelled : bool; jbPhase : job_phase }.

Record Service := mkService {
  svConfig : Config;
  svGeneration : Z;
  svBudget : Budget;
  svRefs : References;
  svAssets : gmap bytes Asset;
  svInvocation : option nat;                              (* the context of the invocation *)
  svSuspended : bool;
  svActive : option job;
  svPoisoned : option error
}.
Definition set_refs (x : References) (s : Service) := mkService (svConfig s) (svGeneration s) (svBudget s) x (svAssets s) (svInvocation s) (svSuspended s) (svActive s) (svPoisoned s).
Definition set_invocation (x : option nat) (s : Service) := mkService (svConfig s) (svGeneration s) (svBudget s) (svRefs s) (svAssets s) x (svSuspended s) (svActive s) (svPoisoned s).
Definition set_suspended (x : bool) (s : Service) := mkService (svConfig s) (svGeneration s) (svBudget s) (svRefs s) (svAssets s) (svInvocation s) x (svActive s) (svPoisoned s).
Definition set_active (x : option job) (s : Service) := mkService (svConfig s) (svGeneration s) (svBudget s) (svRefs s) (svAssets s) (svInvocation s) (svSuspended s) x (svPoisoned s).
Definition set_poisoned (x : option error) (s : Service) := mkService (svConfig s) (svGeneration s) (svBudget s) (svRefs s) (svAssets s) (svInvocation s) (svSuspended s) (svActive s) x.

Definition set_phase (p : job_phase) (j : job) : job := mkJob (jbID j) (jbParent j) (jbCancelled j) p.

(** ** The short methods *)

Definition Activate (ctx : nat) (s : Service) : Service := if svSuspended s then s else set_invocation (Some ctx) s.
Definition Deactivate (s : Service) : Service := set_invocation None s.
Definition Suspend (s : Service) : Service :=
  let s := set_invocation None (set_suspended true s) in
  match svActive s with
  | Some j => set_active (Some (mkJob (jbID j) (jbParent j) true (jbPhase j))) s
  | None => s
  end.
Definition Resume (s : Service) : Service := set_suspended false s.
Definition Healthy (s : Service) : option error := svPoisoned s.

Section Service.
Context `{TimeFormat} (json_error : bytes → error) (quote : bytes → bytes).

(** ** The worker process *)

(** What one exchange with the worker process came to. *)
Record exchange := mkExchange {
  xcGot : wireResponse * option error;                    (* readWire of its output *)
  xcUnconfirmed : bool;                                   (* killed, twelve seconds after the cancellation *)
  xcSent : option error;                                  (* writeWire of the request *)
  xcWait : option error;                                  (* its exit *)
  xcUnretired : bool;                                     (* killed, five seconds after the answer *)
  xcDiagnostics : bytes                                   (* its stderr, bounded *)
}.

(** The lines of [errors.Join]. *)
Definition joined (l : list (option error)) : text :=
  match omap id l with
  | [] => []
  | e :: es => Error e ++ flat_map (λ e, Lit [x0a] :: Error e) es
  end.

(** [Client.call] once the process has started. *)
Definition call (x : exchange) : result wireResponse :=
  let '(v, e) := xcGot x in
  let e := if xcUnconfirmed x then Some (PlainError (txt "bootstrap worker did not confirm cleanup after cancellation")) else e in
  let e := if xcUnretired x then Some (PlainError (txt "bootstrap worker did not retire")) else e in
  let busy := match e, xcWait x with
              | None, None => rsCleaned (wpResult v) && (rsStatus (wpResult v) =? 2) && bool_decide (rsReason (wpResult v) = bs "busy")
              | _, _ => false
              end in
  let writeErr := if busy then None else xcSent x in
  match e, writeErr, xcWait x with
  | None, None, None =>
      if (MaxDiagnostics <? len (rsDiagnostics (wpResult v))) || (2 <? rsStatus (wpResult v)) || (32 <? len (wpOutputs v)) then
        Err (PlainError (txt "invalid worker response"))
      else Ok v
  | _, _, _ =>
      Err (PlainError (txt "bootstrap worker: " ++ joined [e; writeErr; xcWait x] ++ txt "; " ++ [Lit (xcDiagnostics x)]))
  end.

(** A call; [Err]: the process did not start. *)
Definition worker_answer (a : result exchange) : result wireResponse := x ← a; call x.

Definition Probe (answer : result wireResponse) : option error :=
  match answer with
  | Err e => Some e
  | Ok v =>
      if negb (rsStatus (wpResult v) =? 0) || negb (rsCleaned (wpResult v)) then
        Some (PlainError (txt "bootstrap unavailable: " ++ [Lit (rsReason (wpResult v))] ++ txt ": " ++ [Lit (rsDiagnostics (wpResult v))]))
      else None
  end.

(** ** Recovery *)

(** [removed]: the removal of blocked.json; a missing file is not an error. *)
Definition Recover (answer : result wireResponse) (removed : option error) (s : Service) (r : Root) : option error * Service * Root :=
  if negb (cfEnabled (svConfig s)) then (None, s, r)
  else match svActive s with
  | Some _ => (Some (PlainError (txt "bootstrap job still active")), s, r)
  | None =>
      match answer with
      | Err e => (Some e, s, r)
      | Ok v =>
          if negb (rsCleaned (wpResult v)) || negb (rsStatus (wpResult v) =? 0) then
            (Some (PlainError (txt "bootstrap recovery failed: " ++ [Lit (rsDiagnostics (wpResult v))])), s, r)
          else match removed with
          | Some e => (Some e, s, r)
          | None => (None, set_poisoned None s, on_store (cfRunID (svConfig s)) (set_blocked None) r)
          end
      end
  end.

(** Recovery of a run that has no service. *)
Definition RecoverRun (refused : option error) (configOf : bytes → result (option Config)) (removes : bytes → option error)
  (answer : result wireResponse) (removed : option error) (run : RunDir) (r : Root) : option error * Root :=
  match LoadConfig json_error (rdConfig run) with
  | Err e => (Some e, r)
  | Ok None => (None, r)
  | Ok (Some c) =>
      if negb (cfEnabled c) then (None, r)
      else
        let '(locked, r) := LockStorage json_error refused c configOf removes r in
        match locked with
        | Err e => (Some e, r)
        | Ok _ =>
            match Probe answer with
            | Some e => (Some e, r)
            | None =>
                match removed with
                | Some e => (Some e, r)
                | None => (None, on_store (cfRunID c) (set_blocked None) r)
                end
            end
        end
  end.

(** ** Answers *)

Definition response (requestID : Z) (v : Result) : result Frame :=
  let 'mkResult a b c d e f g h i j k := v in
  CreateHostServiceResponse requestID (rsStatus v) (Marshal (result_json (mkResult a b c d e f (diagnosticText g) h i j k))).

Definition error_text (e : error) : bytes := render quote (Error e).

Definition canonicalUint (b : bytes) : option Z :=
  v ← strconv.ParseUint b; if bool_decide (strconv.Itoa v = b) then Some v else None.

(** The service [read_bootstrap_artifact]. *)
Definition HandleRead (r : HostRequest) (s : Service) (root : Root) : result Frame :=
  match Arguments_ r with
  | [id; off; length] =>
      match canonicalUint off, canonicalUint length with
      | Some offset, Some length =>
          match Storage_Read json_error (svConfig s) (svRefs s) id offset length root with
          | Err e => response (hrRequestID r) (refused "artifact_read_rejected" (error_text e))
          | Ok data => CreateHostServiceResponse (hrRequestID r) 0 data
          end
      | _, _ => response (hrRequestID r) (refused "invalid_range" [])
      end
  | _ => response (hrRequestID r) (refused "invalid_arguments" [])
  end.

(** ** Admission *)

(** [cancelled]: the contexts that have ended. The answer, or the job that was admitted. *)
Definition HandleRequest_enter (r : HostRequest) (cancelled : gset nat) (s : Service) (root : Root) : result Frame + Service :=
  let refuse reason diagnostics := inl (response (hrRequestID r) (refused reason diagnostics)) in
  if negb (cfEnabled (svConfig s)) then refuse "not_provisioned" []
  else if bool_decide (ServiceName r = bs "read_bootstrap_artifact") then inl (HandleRead r s root)
  else match Arguments_ r with
  | [data; snapshot] =>
      if negb (bool_decide (ServiceName r = bs "bootstrap_job")) then refuse "invalid_arguments" []
      else match ParseRequest json_error data snapshot (svBudget s) with
      | Err e => refuse "invalid_request" (error_text e)
      | Ok (request, snap) =>
          match svPoisoned s, svSuspended s, svActive s, svInvocation s with
          | None, false, None, Some ctx =>
              if bool_decide (ctx ∈ cancelled) then refuse "not_in_development_or_busy" []
              else inr (set_active (Some (mkJob (hrRequestID r) ctx false (JobAdmitted request snap))) s)
          | _, _, _, _ => refuse "not_in_development_or_busy" []
          end
      end
  | _ => refuse "invalid_arguments" []
  end.

(** ** Inputs *)

(** [read offset n]: one range of an asset. Pieces of at most one megabyte. *)
Fixpoint readChunks (read : Z → Z → result bytes) (fuel : nat) (size offset : Z) (data : bytes) : result bytes :=
  if size <=? offset then Ok data
  else match fuel with
  | O => Err (PlainError (txt "unreachable"))
  | S fuel =>
      let n := Z.min MaxRead (size - offset) in
      b ← read offset n;
      if negb (len b =? n) then Err (SystemError (txt "unexpected EOF"))
      else readChunks read fuel size (offset + n) (data ++ b)
  end.
(** Enough pieces for an asset within the bound on inputs. *)
Definition chunk_fuel : nat := 64.

Fixpoint captureAssets (known : gmap bytes Asset) (readAsset : option (bytes → Z → Z → result bytes)) (l : list AssetRef) (inputBytes : Z)
  : result (list Input * Z) :=
  match l with
  | [] => Ok ([], inputBytes)
  | a :: l =>
      match known !! arID a, readAsset with
      | Some meta, Some read =>
          if negb (bool_decide (asSHA256 meta = arSHA256 a)) || (MaxInputs - inputBytes <? asSize meta) then
            Err (PlainError (txt "asset identity/size is unavailable"))
          else
            data ← readChunks (read (arID a)) chunk_fuel (asSize meta) 0 [];
            if negb (bool_decide (Digest data = arSHA256 a)) then Err (PlainError (txt "captured asset digest mismatch"))
            else
              '(rest, total) ← captureAssets known readAsset l (inputBytes + asSize meta);
              Ok (mkInput (bs "assets/" ++ arID a) data :: rest, total)
      | _, _ => Err (PlainError (txt "asset identity/size is unavailable"))
      end
  end.
Fixpoint captureArtifacts (c : Config) (refs : References) (root : Root) (l : list bytes) (inputBytes : Z) : result (list Input) :=
  match l with
  | [] => Ok []
  | id :: l =>
      data ← Storage_artifact json_error c refs id root;
      let inputBytes := inputBytes + len data in
      if MaxInputs <? inputBytes then Err (PlainError (txt "mounted input quota exceeded"))
      else rest ← captureArtifacts c refs root l inputBytes; Ok (mkInput (bs "artifacts/" ++ id) data :: rest)
  end.

(** What the file system, the assets and the clock do before a job runs. *)
Record prepare_env := mkPrepareEnv {
  ppRefused : option error;
  ppConfigs : bytes → result (option Config);
  ppRemoves : bytes → option error;
  ppRead : option (bytes → Z → Z → result bytes);
  ppID : bytes;                                            (* randomID *)
  ppStarted : Z
}.

Definition others_only (f : (bytes → result (option Config)) → bytes → result (option Config)) (env : prepare_env) : prepare_env :=
  mkPrepareEnv (ppRefused env) (f (ppConfigs env)) (ppRemoves env) (ppRead env) (ppID env) (ppStarted env).

(** From the admission to the call of the worker: a refusal, or what is sent and the
    manifest begun. The reservation is held from here to the answer. *)
Definition HandleRequest_prepare (env : prepare_env) (request : Request) (snap : SourceSnapshot) (s : Service) (root : Root)
  : (Result + wireRequest * Manifest) * Root :=
  let c := svConfig s in
  let '(locked, root) := LockStorage json_error (ppRefused env) c (ppConfigs env) (ppRemoves env) root in
  match locked with
  | Err e => (inl (refused "busy_or_storage_failure" (error_text e)), root)
  | Ok _ =>
      match Admit json_error c (len (outputs request)) root with
      | Err e => (inl (refused "quota" (error_text e)), root)
      | Ok _ =>
          match Reserve c (MaxOutputs + MaxManifest) (MaxInputs + 1024 * 1024 + 16 * 1024 * 1024 + 2 * MaxOutputs + MaxManifest) root with
          | Err e => (inl (refused "quota" (error_text e)), root)
          | Ok _ =>
              let captured :=
                '(ins, total) ← captureAssets (svAssets s) (ppRead env) (assets request) 0;
                more ← captureArtifacts c (svRefs s) root (artifacts request) total;
                Ok (ins ++ more) in
              match captured with
              | Err e => (inl (refused "invalid_inputs" (error_text e)), root)
              | Ok ins =>
                  let inputs := match ins with [] => None | _ => Some ((λ i, mkAssetRef (inPath i) (Digest (inData i))) <$> ins) end in
                  (inr (mkWire (bs "job") request (Snapshot_Bytes snap) (svBudget s) ins (cfTCCAsset c),
                        mkManifest (cfRunID c) 1 (ppID env) (svGeneration s) Image ImageID TCCCommit request (Snapshot.sha256 snap)
                          (Bytes (svBudget s)) inputs Baseline (ppStarted env) time_zero noResult), root)
              end
          end
      end
  end.

(** ** The worker's answer *)

Definition set_result (finished : Z) (res : Result) (m : Manifest) : Manifest :=
  let 'mkManifest a b c d e f g h i j k l o _ _ := m in mkManifest a b c d e f g h i j k l o finished res.
Definition with_job (id : bytes) (res : Result) : Result :=
  let 'mkResult _ b c d e f g h i j k := res in mkResult id b c d e f g h i j k.
Definition with_status (status : Z) (reason : string) (res : Result) : Result :=
  let 'mkResult a b c d _ _ g h i j k := res in mkResult a b c d status (bs reason) g h i j k.
Definition with_artifacts (l : option (list Artifact)) (res : Result) : Result :=
  let 'mkResult a b c d e f g h i j _ := res in mkResult a b c d e f g h i j l.
Definition with_diagnostics (t : bytes) (res : Result) : Result :=
  let 'mkResult a b c d e f _ h i j k := res in mkResult a b c d e f t h i j k.
Definition transportFailure (e : error) : Result := mkResult [] [] ∅ ∅ 2 (bs "worker_transport_failure") (error_text e) 0 false false None.

Definition cleanup_error : error := PlainError (txt "bootstrap cleanup was not confirmed").
(** The line written to blocked.json. *)
Definition blocked_text : bytes := Marshal (JObject [(bs "reason", JString (bs "cleanup_unconfirmed"))]).

(** [ended]: the context of the job has ended; [blocked]: writing blocked.json, whose
    outcome is ignored. *)
Definition HandleRequest_answer (answer : result wireResponse) (finished : Z) (ended : bool) (blocked : fault) (m : Manifest) (s : Service) (root : Root)
  : Manifest * list Input * Service * Root :=
  let '(res, outs) := match answer with Ok v => (wpResult v, wpOutputs v) | Err e => (transportFailure e, []) end in
  let res := with_job (mfID m) res in
  let '(res, s, root) :=
    if rsCleaned res then (res, s, root)
    else (with_status 2 "cleanup_unconfirmed" res, set_poisoned (Some cleanup_error) s,
          on_store (cfRunID (svConfig s)) (λ st, set_blocked (snd (atomicJSON blocked blocked_text (stBlocked st))) st) root) in
  let res := if (rsStatus res =? 0) && ended then with_artifacts None (with_status 1 "cancelled" res) else res in
  (set_result finished res m, outs, s, root).

(** ** Publication, under the mutex *)

Definition HandleRequest_publish (env : publish_env) (m : Manifest) (outs : list Input) (s : Service) (root : Root) : Manifest * Service * Root :=
  if negb (rsStatus (mfResult m) =? 0) then (m, s, root)
  else match Publish json_error env (svConfig s) m outs (svRefs s) root with
  | (Ok next, root) => (m, set_refs next s, root)
  | (Err e, root) =>
      (set_result (mfFinished m) (with_artifacts None (with_diagnostics (error_text e) (with_status 2 "publication_failed" (mfResult m)))) m, s, root)
  end.

(** ** Evidence of a failure, and the answer *)

Record finish_env := mkFinishEnv { fnMade : option error; fnRemoves : nat → option error; fnWrite : fault; fnStamp : Z }.

Definition HandleRequest_finish (env : finish_env) (j : job) (m : Manifest) (s : Service) (root : Root) : result Frame * Service * Root :=
  let s := set_active None s in
  if rsStatus (mfResult m) =? 0 then (response (jbID j) (mfResult m), s, root)
  else
    let res := with_artifacts None (mfResult m) in
    let '(failed, root) := Failure (fnMade env) (fnRemoves env) (fnWrite env) (fnStamp env) (svConfig s) (set_result (mfFinished m) res m) root in
    let res := match failed with
               | Some e => with_diagnostics (rsDiagnostics res ++ bs "; failure evidence: " ++ error_text e) res
               | None => res
               end in
    (response (jbID j) res, s, root).

(** ** A new service *)

(** [asset list] is what the run provides; [blocked] is read from the store. The index of
    the store becomes the references of the completed parent. *)
Definition NewService (refused : option error) (configs : bytes → result (option Config)) (removes : bytes → option error) (write : fault)
  (budget : result Budget) (run : RunDir) (generation : Z) (parent : option Z) (provided : list Asset) (root : Root)
  : result (option Service) * Root :=
  match LoadConfig json_error (rdConfig run) with
  | Err e => (Err e, root)
  | Ok None => (Ok None, root)
  | Ok (Some c) =>
      let selected :=
        b ← budget;
        inherited ←
          match parent with
          | Some p => ReadReferences json_error (rdArchives run !! p)
          | None =>
              if negb (generation =? 0) then Ok None
              else match rdInherited run with
                   | None => Ok None
                   | Some _ =>
                       data ← ReadFile (rdInherited run) MaxManifest;
                       refs ← strictJSON json_error (to_table reference_fields) data noReferences MaxManifest;
                       Ok (Some refs)
                   end
          end;
        let refs := NewReferences c generation in
        Ok (b, match inherited with
               | Some i => set_jobs (match jobs i with [] => None | l => Some l end) refs
               | None => refs
               end) in
      match selected with
      | Err e => (Err e, root)
      | Ok (b, refs) =>
          let '(locked, root) := LockStorage json_error refused c configs removes root in
          match locked with
          | Err e => (Err e, root)
          | Ok _ =>
              match Storage_Validate json_error c (Some refs) root with
              | Err e => (Err e, root)
              | Ok _ =>
                  let '(failed, index) := atomicJSON write (references_text refs) (stIndex (here c root)) in
                  let root := on_store (cfRunID c) (set_index index) root in
                  match failed with
                  | Some e => (Err e, root)
                  | None =>
                      let known : gmap bytes Asset := fold_left (λ m a, <[asID a := a]> m) provided ∅ in
                      let pinned := match known !! cfTCCAsset c with Some a => bool_decide (asSHA256 a = TCCSHA256) | None => false end in
                      if cfEnabled c && negb pinned then (Err (PlainError (txt "provisioned upstream TCC asset is missing or changed")), root)
                      else
                        let poisoned := match stBlocked (here c root) with
                                        | Some _ => Some (PlainError (txt "bootstrap cleanup requires recovery"))
                                        | None => None
                                        end in
                        (Ok (Some (mkService c generation b refs known None false None poisoned)), root)
                  end
              end
          end
      end
  end.
End Service.

(** ** The run as a whole *)

(** A run directory, the storage root, the service of the running generation, the contexts
    that have ended, and the answers given, latest first. *)
Record world := mkWorld {
  wPath : bytes;
  wRun : RunDir;
  wRoot : Root;
  wService : option Service;
  wCancelled : gset nat;
  wAnswers : list (result Frame)
}.
Definition set_service (x : option Service) (w : world) := mkWorld (wPath w) (wRun w) (wRoot w) x (wCancelled w) (wAnswers w).
Definition set_root (x : Root) (w : world) := mkWorld (wPath w) (wRun w) x (wService w) (wCancelled w) (wAnswers w).
Definition answer (x : result Frame) (w : world) := mkWorld (wPath w) (wRun w) (wRoot w) (wService w) (wCancelled w) (x :: wAnswers w).

Definition ended (cancelled : gset nat) (j : job) : bool := jbCancelled j || bool_decide (jbParent j ∈ cancelled).

Section World.
Context `{TimeFormat} (json_error : bytes → error) (quote : bytes → bytes).

(** What can happen next, with what the outside does. *)
Inductive action :=
| DoOpen (refused : option error) (configs : bytes → result (option Config)) (removes : bytes → option error) (write : fault)
    (budget : result Budget) (generation : Z) (parent : option Z) (provided : list Asset)
| DoClose
| DoActivate (ctx : nat)
| DoDeactivate
| DoSuspend
| DoResume
| DoCancel (ctx : nat)                                    (* a context ends *)
| DoCancelJob                                             (* the context of the request ends *)
| DoRecover (answer : result exchange) (removed : option error)
| DoRecoverRun (refused : option error) (configs : bytes → result (option Config)) (removes : bytes → option error)
    (answer : result exchange) (removed : option error)
| DoRequest (r : HostRequest)
| DoPrepare (env : prepare_env)
| DoAnswer (answer : result exchange) (finished : Z) (blocked : fault)
| DoPublish (env : publish_env)
| DoFinish (env : finish_env)
| DoFreeze (write : fault) (generation : Z)
| DoCollect (refused : option error) (configs : bytes → result (option Config)) (recovers removes : bytes → option error) (write : fault) (synced : option error)
| DoOther (stores : gmap bytes Store).                    (* other runs of the root *)

(** What [LoadConfig] finds: in this run, or in one of the others. *)
Definition configs_of (w : world) (others : bytes → result (option Config)) (path : bytes) : result (option Config) :=
  if bool_decide (path = wPath w) then LoadConfig json_error (rdConfig (wRun w)) else others path.

(** A publication sees the context of its job. *)
Definition sees_context (cancelled : gset nat) (j : job) (env : publish_env) : bool :=
  negb (ended cancelled j) || match pvCancelled env 0%nat with Some _ => true | None => false end.

(** One step; [None] when the action is not possible in this state. The collection and a
    new service need that none is running, as the gate guarantees; an archive is named
    once. *)
Definition service_step (act : action) (w : world) : option world :=
  match act, wService w with
  | DoOpen refused configs removes write budget generation parent provided, None =>
      let '(res, root) := NewService json_error refused (configs_of w configs) removes write budget (wRun w) generation parent provided (wRoot w) in
      Some (set_service (match res with Ok s => s | Err _ => None end) (set_root root w))
  | DoClose, Some s => match svActive s with None => Some (set_service None w) | Some _ => None end
  | DoActivate ctx, Some s => Some (set_service (Some (Activate ctx s)) w)
  | DoDeactivate, Some s => Some (set_service (Some (Deactivate s)) w)
  | DoSuspend, Some s => Some (set_service (Some (Suspend s)) w)
  | DoResume, Some s => Some (set_service (Some (Resume s)) w)
  | DoCancel ctx, _ => Some (mkWorld (wPath w) (wRun w) (wRoot w) (wService w) ({[ctx]} ∪ wCancelled w) (wAnswers w))
  | DoCancelJob, Some s =>
      match svActive s with
      | Some j => Some (set_service (Some (set_active (Some (mkJob (jbID j) (jbParent j) true (jbPhase j))) s)) w)
      | None => None
      end
  | DoRecover a removed, Some s =>
      let '(_, s, root) := Recover (worker_answer a) removed s (wRoot w) in Some (set_service (Some s) (set_root root w))
  | DoRecoverRun refused configs removes a removed, None =>
      let '(_, root) := RecoverRun json_error refused (configs_of w configs) removes (worker_answer a) removed (wRun w) (wRoot w) in Some (set_root root w)
  | DoRequest r, Some s =>
      match HandleRequest_enter json_error quote r (wCancelled w) s (wRoot w) with
      | inl f => Some (answer f w)
      | inr s => Some (set_service (Some s) w)
      end
  | DoPrepare env, Some s =>
      match svActive s with
      | Some j =>
          match jbPhase j with
          | JobAdmitted request snap =>
              let '(res, root) := HandleRequest_prepare json_error quote (others_only (configs_of w) env) request snap s (wRoot w) in
              match res with
              | inl v => Some (answer (response (jbID j) v) (set_service (Some (set_active None s)) (set_root root w)))
              | inr (wire, m) => Some (set_service (Some (set_active (Some (set_phase (JobRunning wire m) j)) s)) (set_root root w))
              end
          | _ => None
          end
      | None => None
      end
  | DoAnswer a finished blocked, Some s =>
      match svActive s with
      | Some j =>
          match jbPhase j with
          | JobRunning _ m =>
              let '(m, outs, s, root) := HandleRequest_answer quote (worker_answer a) finished (ended (wCancelled w) j) blocked m s (wRoot w) in
              Some (set_service (Some (set_active (Some (set_phase (JobAnswered m outs) j)) s)) (set_root root w))
          | _ => None
          end
      | None => None
      end
  | DoPublish env, Some s =>
      match svActive s with
      | Some j =>
          match jbPhase j with
          | JobAnswered m outs =>
              if sees_context (wCancelled w) j env then
                let '(m, s, root) := HandleRequest_publish json_error quote env m outs s (wRoot w) in
                Some (set_service (Some (set_active (Some (set_phase (JobDone m) j)) s)) (set_root root w))
              else None
          | _ => None
          end
      | None => None
      end
  | DoFinish env, Some s =>
      match svActive s with
      | Some j =>
          match jbPhase j with
          | JobDone m =>
              let '(f, s, root) := HandleRequest_finish quote env j m s (wRoot w) in
              Some (answer f (set_service (Some s) (set_root root w)))
          | _ => None
          end
      | None => None
      end
  | DoFreeze write generation, _ =>
      match rdArchives (wRun w) !! generation, Freeze json_error write (wRun w) generation (wRoot w) with
      | None, Ok (Some text) =>
          Some (mkWorld (wPath w) (mkRunDir (rdConfig (wRun w)) (rdInherited (wRun w)) (<[generation := text]> (rdArchives (wRun w))))
                  (wRoot w) (wService w) (wCancelled w) (wAnswers w))
      | _, _ => None
      end
  | DoCollect refused configs recovers removes write synced, None =>
      let '(_, root) := GarbageCollect json_error refused (configs_of w configs) recovers removes write synced (wRun w) (wRoot w) in Some (set_root root w)
  | DoOther stores, _ =>
      match LoadConfig json_error (rdConfig (wRun w)) with
      | Ok (Some c) =>
          Some (set_root (mkRoot (partial_alter (λ _, rtStores (wRoot w) !! cfRunID c) (cfRunID c) stores) (rtInits (wRoot w))) w)
      | _ => None
      end
  | _, _ => None
  end.

Fixpoint service_run (l : list action) (w : world) : option world :=
  match l with [] => Some w | a :: l => service_step a w ≫= service_run l end.
End World.
