(* ===== verification/BootstrapServiceProofs.v ===== *)
(** * Bootstrap jobs: what the service guarantees

    Over every interleaving of the service of a run with recovery, archives, garbage
    collection and the other runs of the same storage root: the jobs an archive refers to
    stay intact, a suspended service commits nothing, a job whose cleanup was not
    confirmed blocks every later one until a recovery, and a publication that could not
    be synced is answered as failed but archived. *)

From S2P Require Import Prelude GoStd Framing Protocol Sha256 SourceCapacity Snapshot Json FeatureStore FeatureProofs ArchiveRecord JsonTree JsonCompact JsonStruct.
From S2P Require Import BootstrapRequest BootstrapRequestProofs BootstrapStore BootstrapText BootstrapStoreProofs BootstrapService.
Open Scope Z_scope.

(** ** Assets *)

Lemma readChunks_whole read fuel content : (∀ o n, 0 ≤ o → 0 < n ≤ MaxRead → o + n ≤ len content → read o n = Ok (slice o (o + n) content)) →
  ∀ offset data, 0 ≤ offset ≤ len content → len content - offset ≤ Z.of_nat fuel * MaxRead →
  readChunks read fuel (len content) offset data = Ok (data ++ dropZ offset content).
Proof.
  intros Hread. assert (Hm : 0 < MaxRead) by done. induction fuel as [|fuel IH]; intros offset data Ho Hf; cbn [readChunks].
  - rewrite (proj2 (Z.leb_le _ _)) by lia. unfold dropZ. rewrite drop_ge by (unfold len in *; lia). by rewrite app_nil_r.
  - destruct (Z.leb_spec (len content) offset); [unfold dropZ; rewrite drop_ge by (unfold len in *; lia); by rewrite app_nil_r|].
    set (n := Z.min MaxRead (len content - offset)). assert (Hn : 0 < n ≤ MaxRead ∧ offset + n ≤ len content) by lia.
    rewrite Hread by lia. cbn [mbind result_bind]. assert (Hlen : len (slice offset (offset + n) content) = n).
    { unfold slice. rewrite len_takeZ; [lia|]. rewrite len_dropZ by lia. lia. }
    rewrite Hlen, Z.eqb_refl. cbn [negb]. rewrite IH by lia. rewrite <- app_assoc. do 2 f_equal. unfold slice.
    replace (offset + n - offset) with n by lia. rewrite <- (takeZ_dropZ n (dropZ offset content)) at 2. by rewrite dropZ_dropZ by lia.
Qed.

(** The loop that reads an asset ends within its fuel for every size the bound on inputs
    admits, and what it collects, megabyte by megabyte, is the content of the asset. *)
Theorem asset_read_whole read content : len content ≤ MaxInputs →
  (∀ o n, 0 ≤ o → 0 < n ≤ MaxRead → o + n ≤ len content → read o n = Ok (slice o (o + n) content)) →
  readChunks read chunk_fuel (len content) 0 [] = Ok content.
Proof.
  intros Hl Hread. pose proof (len_nonneg content). rewrite (readChunks_whole _ _ _ Hread); [by rewrite dropZ_0|lia|].
  change (Z.of_nat chunk_fuel * MaxRead) with MaxInputs. lia.
Qed.

Lemma asset_read_whole_witness : readChunks (λ o n, Ok (slice o (o + n) (bs "hello"))) chunk_fuel 5 0 [] = Ok (bs "hello").
Proof. apply (asset_read_whole _ (bs "hello")); [done|done]. Defined.

Section Proofs.
Context `{TimeFormat} (json_error : bytes → error) (quote : bytes → bytes).
Implicit Types (w : world) (s : Service) (c : Config) (st : Store) (r : Root).

(** ** The run *)

(** The run is configured as [c], its store names it, and its service has that
    configuration. *)
Definition provisioned c w : Prop :=
  LoadConfig json_error (rdConfig (wRun w)) = Ok (Some c)
  ∧ (∃ st, rtStores (wRoot w) !! cfRunID c = Some st ∧ owned json_error (wPath w) st)
  ∧ ∀ s, wService w = Some s → svConfig s = c.

(** Every archive reads, and all its jobs are there with their contents. *)
Definition archives_intact c w : Prop :=
  ∀ g content, rdArchives (wRun w) !! g = Some content →
    ∃ refs st, ReadReferences json_error (Some content) = Ok (Some refs) ∧ rtStores (wRoot w) !! cfRunID c = Some st ∧ Forall (intact json_error st) (jobs refs).

(** The jobs the archives refer to. *)
Definition archived (run : RunDir) (id : bytes) : Prop :=
  ∃ g content refs j, rdArchives run !! g = Some content ∧ ReadReferences json_error (Some content) = Ok (Some refs) ∧ j ∈ jobs refs ∧ jrID j = id.

Lemma configs_own c w others : LoadConfig json_error (rdConfig (wRun w)) = Ok (Some c) → configs_of json_error w others (wPath w) = Ok (Some c).
Proof. intros Hc. unfold configs_of. by rewrite bool_decide_eq_true_2. Qed.

Lemma provisioned_owned c w : provisioned c w → ∀ st, rtStores (wRoot w) !! cfRunID c = Some st → owned json_error (wPath w) st.
Proof. intros (_ & (st & Hs & Ho) & _) st' Hs'. congruence. Qed.

(** ** The blocking record *)

(** The index and the jobs are the same; the blocking record may change. *)
Definition settled c r r' : Prop :=
  ∀ st, rtStores r !! cfRunID c = Some st → ∃ st', rtStores r' !! cfRunID c = Some st' ∧ stOwner st' = stOwner st
    ∧ stIndex st' = stIndex st ∧ ∀ id, validID id = true → same_job st st' id.
(** A blocking record stays. *)
Definition stays_blocked c r r' : Prop :=
  ∀ st, rtStores r !! cfRunID c = Some st → ∃ st', rtStores r' !! cfRunID c = Some st' ∧ (is_Some (stBlocked st) → is_Some (stBlocked st')).

Lemma settled_refl c r : settled c r r.
Proof. intros st Hs. by exists st. Qed.

Lemma settled_trans c r1 r2 r3 : settled c r1 r2 → settled c r2 r3 → settled c r1 r3.
Proof.
  intros H12 H23 st Hs. destruct (H12 st Hs) as (st2 & Hs2 & Ho2 & Hi2 & Hj2). destruct (H23 st2 Hs2) as (st3 & Hs3 & Ho3 & Hi3 & Hj3).
  exists st3. split_and!; [done|congruence..|]. intros id Hv. unfold same_job in *. by rewrite Hj2, Hj3.
Qed.

Lemma stays_refl c r : stays_blocked c r r.
Proof. intros st Hs. by exists st. Qed.

Lemma stays_trans c r1 r2 r3 : stays_blocked c r1 r2 → stays_blocked c r2 r3 → stays_blocked c r1 r3.
Proof. intros H12 H23 st Hs. destruct (H12 st Hs) as (st2 & Hs2 & Hb2). destruct (H23 st2 Hs2) as (st3 & Hs3 & Hb3). exists st3. auto. Qed.

Lemma quiet_settled c r r' : quiet c r r' → settled c r r'.
Proof. intros Hq st Hs. destruct (Hq st Hs) as (st' & ? & ? & ? & _ & ?). by exists st'. Qed.

Lemma quiet_stays c r r' : quiet c r r' → stays_blocked c r r'.
Proof. intros Hq st Hs. destruct (Hq st Hs) as (st' & ? & _ & _ & E & _). exists st'. by rewrite E. Qed.

Lemma settled_keeps c P r r' : settled c r r' → keeps_jobs c P r r'.
Proof. intros Hq st Hs. destruct (Hq st Hs) as (st' & ? & ? & _ & Hj). exists st'. split_and!; [done|done|]. intros. by apply Hj. Qed.

Lemma keeps_weaken c (P Q : bytes → Prop) r r' : keeps_jobs c P r r' → (∀ id, Q id → P id) → keeps_jobs c Q r r'.
Proof. intros Hk Hpq st Hs. destruct (Hk st Hs) as (st' & ? & ? & Hj). exists st'. split_and!; auto. Qed.

Lemma settled_blocked c f r : settled c r (on_store (cfRunID c) (λ st, set_blocked (f st) st) r).
Proof. intros st Hs. eexists. split; [by apply on_store_some|done]. Qed.

Lemma stays_on_store c f r : (∀ st, is_Some (stBlocked st) → is_Some (stBlocked (f st))) → stays_blocked c r (on_store (cfRunID c) f r).
Proof. intros Hf st Hs. exists (f st). split; [by apply on_store_some|auto]. Qed.

(** ** What each handler does to the root *)

(** Case analysis of a handler that returns a root on every branch. *)
Ltac root_cases H :=
  repeat (cbn [negb] in H; match type of H with
    | (if ?b then _ else _) = _ => destruct b
    | (match ?x with _ => _ end) = _ => destruct x
    end).

Lemma prepare_quiet env request snap s r res r' path c : svConfig s = c → ppConfigs env path = Ok (Some c) →
  (∀ st, rtStores r !! cfRunID c = Some st → owned json_error path st) →
  HandleRequest_prepare json_error quote env request snap s r = (res, r') → quiet c r r'.
Proof.
  intros <- Hc Ho Hp. unfold HandleRequest_prepare in Hp. destruct (LockStorage _ _ _ _ _ _) as [locked r1] eqn:El.
  pose proof (LockStorage_quiet _ _ _ _ _ _ _ _ _ El Hc Ho) as Hq. root_cases Hp; by injection Hp as _ <-.
Qed.

Lemma answer_settled a finished dead blocked m s r m' outs s' r' : HandleRequest_answer quote a finished dead blocked m s r = (m', outs, s', r') →
  settled (svConfig s) r r' ∧ stays_blocked (svConfig s) r r' ∧ svConfig s' = svConfig s ∧ svRefs s' = svRefs s ∧ svInvocation s' = svInvocation s
  ∧ svSuspended s' = svSuspended s ∧ svActive s' = svActive s ∧ (is_Some (svPoisoned s) → is_Some (svPoisoned s')).
Proof.
  unfold HandleRequest_answer. intros Ha. destruct (match a with Ok v => _ | Err e => _ end) as [res o].
  destruct (rsCleaned (with_job (mfID m) res)); injection Ha as _ _ <- <-.
  - split; [apply settled_refl|]. split; [apply stays_refl|done].
  - split; [apply settled_blocked|]. split; [|done]. apply stays_on_store. intros st Hb. cbn [set_blocked stBlocked]. by destruct blocked; cbn [atomicJSON snd]; [eexists| |eexists].
Qed.

Lemma Publish_stays env c m outs refs r res r' : Publish json_error env c m outs refs r = (res, r') → stays_blocked c r r'.
Proof.
  intros Hp. destruct (Publish_cases _ _ _ _ _ _ _ _ _ Hp) as [(e & _ & [->|(files & _ & ->)])|(st & files & Hs & _ & _ & _ & _ & Hi)].
  - apply stays_refl.
  - by apply stays_on_store.
  - assert (H1 : stays_blocked c r (put_job c (mfID m) files r)) by (by apply stays_on_store). eapply stays_trans; [exact H1|].
    destruct (publishIndex_cases _ _ _ _ _ _ _ _ (on_store_some _ _ _ _ Hs) Hi) as [(e & _ & ->)|(b & _ & _ & failed & index & _ & -> & _)]; [apply stays_refl|].
    by apply stays_on_store.
Qed.

Lemma publish_settles env m outs s r m' s' r' : HandleRequest_publish json_error quote env m outs s r = (m', s', r') →
  keeps_jobs (svConfig s) (λ _, True) r r' ∧ stays_blocked (svConfig s) r r' ∧ svConfig s' = svConfig s ∧ svInvocation s' = svInvocation s
  ∧ svSuspended s' = svSuspended s ∧ svActive s' = svActive s ∧ svPoisoned s' = svPoisoned s
  ∧ (pvCancelled env 0%nat ≠ None ∨ rsStatus (mfResult m) ≠ 0 → r' = r ∧ svRefs s' = svRefs s ∧ rsStatus (mfResult m') ≠ 0).
Proof.
  unfold HandleRequest_publish. intros Hp. destruct (rsStatus (mfResult m) =? 0) eqn:E; cbn [negb] in Hp; zbool.
  2: { injection Hp as <- <- <-. split; [apply keeps_refl|]. split; [apply stays_refl|done]. }
  destruct (Publish _ _ _ _ _ _ _) as [res r1] eqn:Epub. pose proof (Publish_keeps _ _ _ _ _ _ _ _ _ (λ _, True) Epub) as Hk.
  assert (r1 = r' ∧ svConfig s' = svConfig s ∧ svInvocation s' = svInvocation s ∧ svSuspended s' = svSuspended s ∧ svActive s' = svActive s ∧ svPoisoned s' = svPoisoned s)
    as (-> & ? & ? & ? & ? & ?) by (destruct res; by injection Hp as <- <- <-).
  split; [done|]. split; [by eapply Publish_stays|]. split_and!; try done. intros [Hc|?]; [|done].
  unfold Publish in Epub. destruct (pvCancelled env 0%nat) as [e|]; [|done]. injection Epub as <- <-. injection Hp as <- <-.
  by destruct m as [?????????????? []].
Qed.

Lemma finish_quiet env j m s r f s' r' : HandleRequest_finish quote env j m s r = (f, s', r') → quiet (svConfig s) r r' ∧ s' = set_active None s.
Proof.
  unfold HandleRequest_finish. intros Hf. destruct (rsStatus (mfResult m) =? 0); [injection Hf as _ <- <-; split; [apply quiet_refl|done]|].
  destruct (Failure _ _ _ _ _ _ _) as [failed r1] eqn:E. injection Hf as _ <- <-. split; [|done]. by apply Failure_quiet in E.
Qed.

(** Opening a service writes the index it selected, and finds the blocking record. *)
Lemma NewService_moves refused configs removes write budget run generation parent provided r res r' c path :
  LoadConfig json_error (rdConfig run) = Ok (Some c) → configs path = Ok (Some c) →
  (∀ st, rtStores r !! cfRunID c = Some st → owned json_error path st) →
  NewService json_error refused configs removes write budget run generation parent provided r = (res, r') →
  (∀ P, keeps_jobs c P r r') ∧ stays_blocked c r r'
  ∧ ∀ s, res = Ok (Some s) → svConfig s = c ∧ svActive s = None ∧ (is_Some (stBlocked (here c r')) → is_Some (svPoisoned s)).
Proof.
  intros Hl Hc Ho Hn. unfold NewService in Hn. rewrite Hl in Hn.
  match type of Hn with (match ?x with _ => _ end) = _ => destruct x as [[b refs]|e] end;
    [|injection Hn as <- <-; split; [intros; apply keeps_refl|split; [apply stays_refl|done]]].
  destruct (LockStorage _ _ _ _ _ _) as [locked r1] eqn:El. pose proof (LockStorage_quiet _ _ _ _ _ _ _ _ _ El Hc Ho) as Hq.
  assert (Hq1 : (∀ P, keeps_jobs c P r r1) ∧ stays_blocked c r r1) by (split; [intros; by apply quiet_keeps|by apply quiet_stays]). destruct Hq1 as [K1 S1].
  destruct locked; [|by injection Hn as <- <-]. destruct (Storage_Validate _ _ _ _); [|by injection Hn as <- <-].
  destruct (atomicJSON _ _ _) as [failed index]. set (r2 := on_store _ _ r1) in Hn.
  assert (K2 : ∀ P, keeps_jobs c P r r2) by (intros P; eapply keeps_trans; [apply K1|by apply keeps_on_store]).
  assert (S2 : stays_blocked c r r2) by (eapply stays_trans; [exact S1|by apply stays_on_store]).
  destruct failed; [by injection Hn as <- <-|]. destruct (_ && _) in Hn; [by injection Hn as <- <-|]. injection Hn as <- <-.
  split; [done|]. split; [done|]. intros s [= <-]. cbn. split_and!; [done|done|]. intros [x ->]. by eexists.
Qed.

(** Whether an answer and a removal amount to a recovery. *)
Definition recovery (a : result exchange) (removed : option error) : bool :=
  match worker_answer a, removed with
  | Ok v, None => rsCleaned (wpResult v) && (rsStatus (wpResult v) =? 0)
  | _, _ => false
  end.

Lemma Recover_moves a removed s r e s' r' : Recover (worker_answer a) removed s r = (e, s', r') →
  settled (svConfig s) r r' ∧ svConfig s' = svConfig s ∧ svRefs s' = svRefs s ∧ svInvocation s' = svInvocation s ∧ svSuspended s' = svSuspended s
  ∧ svActive s' = svActive s ∧ (recovery a removed = false → s' = s ∧ r' = r).
Proof.
  unfold Recover, recovery. intros Hr. assert (Hsame : s' = s ∧ r' = r ∨ recovery a removed = true ∧ s' = set_poisoned None s
    ∧ r' = on_store (cfRunID (svConfig s)) (set_blocked None) r).
  { unfold recovery. destruct (negb (cfEnabled _)); [injection Hr as _ <- <-; by left|]. destruct (svActive s); [injection Hr as _ <- <-; by left|].
    destruct (worker_answer a) as [v|x]; [|injection Hr as _ <- <-; by left]. destruct (rsCleaned _), (_ =? 0); cbn [negb orb] in Hr; try (injection Hr as _ <- <-; by left).
    destruct removed; injection Hr as _ <- <-; [by left|by right]. }
  destruct Hsame as [[-> ->]|(Hy & -> & ->)]; [by split; [apply settled_refl|]|]. split; [by apply settled_blocked|].
  cbn. split_and!; try done. unfold recovery in Hy. by rewrite Hy.
Qed.

Lemma RecoverRun_moves refused configs removes a removed run r e r' c path :
  LoadConfig json_error (rdConfig run) = Ok (Some c) → configs path = Ok (Some c) →
  (∀ st, rtStores r !! cfRunID c = Some st → owned json_error path st) →
  RecoverRun json_error refused configs removes (worker_answer a) removed run r = (e, r') →
  settled c r r' ∧ (recovery a removed = false → stays_blocked c r r').
Proof.
  intros Hl Hc Ho Hr. unfold RecoverRun in Hr. rewrite Hl in Hr.
  destruct (negb (cfEnabled c)); [injection Hr as _ <-; split; [apply settled_refl|intros; apply stays_refl]|].
  destruct (LockStorage _ _ _ _ _ _) as [locked r1] eqn:El. pose proof (LockStorage_quiet _ _ _ _ _ _ _ _ _ El Hc Ho) as Hq.
  pose proof (quiet_settled _ _ _ Hq) as S1. pose proof (quiet_stays _ _ _ Hq) as B1.
  destruct locked; [|by injection Hr as _ <-]. destruct (Probe _) as [x|] eqn:Ep; [by injection Hr as _ <-|].
  destruct removed; [by injection Hr as _ <-|]. injection Hr as _ <-.
  split; [eapply settled_trans; [exact S1|by apply settled_blocked]|]. unfold recovery. unfold Probe in Ep.
  destruct (worker_answer a) as [v|]; [|done]. by destruct (rsStatus _ =? 0), (rsCleaned _).
Qed.

Lemma removeJobs_stays c removes keep names n r count failed r' : removeJobs c removes keep names n r = (count, failed, r') → stays_blocked c r r'.
Proof.
  revert n r. induction names as [|name names IH]; intros n r Hr; cbn [removeJobs] in Hr; [injection Hr as _ _ <-; apply stays_refl|].
  destruct (negb _); [injection Hr as _ _ <-; apply stays_refl|]. destruct (bool_decide (name ∈ keep)); [by eapply IH|].
  destruct (removes name); [injection Hr as _ _ <-; apply stays_refl|]. eapply stays_trans; [|by eapply IH]. by apply stays_on_store.
Qed.

Lemma GarbageCollect_stays refused configs recovers removes write synced run r res r' c path :
  GarbageCollect json_error refused configs recovers removes write synced run r = (res, r') →
  LoadConfig json_error (rdConfig run) = Ok (Some c) → configs path = Ok (Some c) →
  (∀ st, rtStores r !! cfRunID c = Some st → owned json_error path st) → stays_blocked c r r'.
Proof.
  intros Hg Hc Hpath Ho. unfold GarbageCollect in Hg. rewrite Hc in Hg. destruct (LockStorage _ _ _ _ _ _) as [locked r1] eqn:El.
  pose proof (quiet_stays _ _ _ (LockStorage_quiet _ _ _ _ _ _ _ _ _ El Hpath Ho)) as H1. destruct locked; [|by injection Hg as _ <-].
  match type of Hg with (match ?x with _ => _ end) = _ => destruct x as [[keep current]|e] end; [|by injection Hg as _ <-].
  match type of Hg with (let '(_, _) := ?x in _) = _ => destruct x as [failed r2] eqn:E2 end.
  assert (H2 : stays_blocked c r r2).
  { destruct current as [refs|]; [|injection E2 as _ <-; done]. destruct (atomicJSON _ _ _). injection E2 as _ <-.
    eapply stays_trans; [exact H1|by apply stays_on_store]. }
  destruct failed; [by injection Hg as _ <-|]. destruct (removeJobs _ _ _ _ _ _) as [[count failed] r3] eqn:E3.
  pose proof (stays_trans _ _ _ _ H2 (removeJobs_stays _ _ _ _ _ _ _ _ _ E3)). destruct failed; [by injection Hg as _ <-|]. destruct synced; by injection Hg as _ <-.
Qed.

Lemma owned_kept c w r' P : (∃ st, rtStores (wRoot w) !! cfRunID c = Some st ∧ owned json_error (wPath w) st) → keeps_jobs c P (wRoot w) r' →
  ∃ st, rtStores r' !! cfRunID c = Some st ∧ owned json_error (wPath w) st.
Proof.
  intros (st & Hs & o & Hlen & Ho) Hk. destruct (Hk st Hs) as (st' & Hs' & Ho' & _). exists st'. split; [done|]. exists o. by rewrite Ho'.
Qed.

(** Opens a step of an action that needs a service. *)
Ltac step_cases H :=
  repeat match type of H with
    | (match ?x with _ => _ end) = Some _ => destruct x eqn:?; try discriminate H
    | (if ?b then _ else _) = Some _ => destruct b eqn:?; try discriminate H
    end; try discriminate H; injection H as <-.

(** The short methods change only the fields they name. *)
Lemma Activate_fields ctx s : svConfig (Activate ctx s) = svConfig s ∧ svRefs (Activate ctx s) = svRefs s ∧ svActive (Activate ctx s) = svActive s
  ∧ svPoisoned (Activate ctx s) = svPoisoned s ∧ svSuspended (Activate ctx s) = svSuspended s.
Proof. unfold Activate. by destruct (svSuspended s) eqn:E. Qed.

Lemma Suspend_fields s : svConfig (Suspend s) = svConfig s ∧ svRefs (Suspend s) = svRefs s ∧ svPoisoned (Suspend s) = svPoisoned s
  ∧ svSuspended (Suspend s) = true ∧ svInvocation (Suspend s) = None
  ∧ svActive (Suspend s) = (λ j, mkJob (jbID j) (jbParent j) true (jbPhase j)) <$> svActive s.
Proof. unfold Suspend. cbn. destruct (svActive s) eqn:E; cbn; by rewrite ?E. Qed.

Lemma enter_cases hr cancelled s r s' : HandleRequest_enter json_error quote hr cancelled s r = inr s' →
  ∃ request snap ctx, s' = set_active (Some (mkJob (hrRequestID hr) ctx false (JobAdmitted request snap))) s
    ∧ svPoisoned s = None ∧ svSuspended s = false ∧ svActive s = None ∧ svInvocation s = Some ctx ∧ ctx ∉ cancelled
    ∧ cfEnabled (svConfig s) = true.
Proof.
  unfold HandleRequest_enter. intros He. destruct (cfEnabled _) eqn:Een; [|done]. cbn [negb] in He. destruct (bool_decide _) in He; [done|].
  destruct (Arguments_ hr) as [|data [|snapshot []]]; try done. destruct (negb _) in He; [done|]. destruct (ParseRequest _ _ _ _) as [[request snap]|]; [|done].
  destruct (svPoisoned s), (svSuspended s), (svActive s), (svInvocation s) as [ctx|]; try done.
  destruct (bool_decide (ctx ∈ cancelled)) eqn:E; [done|]. injection He as <-. zbool. by exists request, snap, ctx.
Qed.

(** The other runs leave the store of this one. *)
Lemma quiet_other c r stores inits : quiet c r (mkRoot (partial_alter (λ _, rtStores r !! cfRunID c) (cfRunID c) stores) inits).
Proof. intros st Hs. exists st. cbn [rtStores]. by rewrite lookup_partial_alter_eq. Qed.

(** ** Steps *)

(** Every step leaves the archived jobs and the ownership of the run. *)
Lemma service_step_keeps act w w' c : provisioned c w → service_step json_error quote act w = Some w' →
  keeps_jobs c (archived (wRun w)) (wRoot w) (wRoot w') ∧ wPath w' = wPath w ∧ rdConfig (wRun w') = rdConfig (wRun w)
  ∧ (∀ s, wService w' = Some s → svConfig s = c).
Proof.
  intros Hp Hs. pose proof (provisioned_owned c w Hp) as Ho. destruct Hp as (Hc & _ & Hsv).
  destruct (wService w) as [s|] eqn:Es; [pose proof (Hsv s eq_refl) as Hcs; subst c|]; unfold service_step in Hs; rewrite Es in Hs; destruct act; step_cases Hs;
    cbn [wRoot wPath wRun wService set_root set_service BootstrapService.answer rdConfig]; rewrite ?Es.
  all: try (split; [apply keeps_refl|split_and!; [done|done|intros ? [= <-]; try done]]).
  - apply Activate_fields.
  - apply Suspend_fields.
  - destruct (Recover_moves _ _ _ _ _ _ _ Heqp) as (Hm & Hcfg & _). split; [by apply settled_keeps|]. split_and!; [done|done|by intros ? [= <-]].
  - destruct (enter_cases _ _ _ _ _ Heqs0) as (? & ? & ? & -> & _). done.
  - split; [eapply quiet_keeps, prepare_quiet; [done| |exact Ho|exact Heqp]; by apply configs_own|]. split_and!; [done|done|by intros ? [= <-]].
  - split; [eapply quiet_keeps, prepare_quiet; [done| |exact Ho|exact Heqp]; by apply configs_own|]. split_and!; [done|done|by intros ? [= <-]].
  - destruct (answer_settled _ _ _ _ _ _ _ _ _ _ _ Heqp) as (Hm & _ & Hcfg & _). split; [by apply settled_keeps|]. split_and!; [done|done|by intros ? [= <-]].
  - destruct (publish_settles _ _ _ _ _ _ _ _ Heqp) as (Hm & _ & Hcfg & _). split; [by eapply keeps_weaken|]. split_and!; [done|done|by intros ? [= <-]].
  - destruct (finish_quiet _ _ _ _ _ _ _ _ Heqp) as [Hm ->]. split; [by apply quiet_keeps|]. split_and!; [done|done|by intros ? [= <-]].
  - rewrite Hc in Heqr. simplify_eq. split; [apply quiet_keeps, quiet_other|]. split_and!; [done|done|by intros ? [= <-]].
  - destruct (NewService_moves _ _ _ _ _ _ _ _ _ _ _ _ _ _ Hc (configs_own _ _ _ Hc) Ho Heqp) as (Hm & _ & Hcfg). split; [apply Hm|]. split_and!; [done|done|].
    destruct r; [|done]. intros s ->. by apply Hcfg.
  - destruct (RecoverRun_moves _ _ _ _ _ _ _ _ _ _ _ Hc (configs_own _ _ _ Hc) Ho Heqp) as [Hm _]. split; [by apply settled_keeps|done].
  - split; [|done]. eapply GarbageCollect_keeps; [exact Heqp|exact Hc|by apply configs_own|exact Ho].
  - rewrite Hc in Heqr. simplify_eq. split; [apply quiet_keeps, quiet_other|done].
Qed.

Lemma NewReferences_ok content c g : LoadConfig json_error content = Ok (Some c) → u64 g → references_ok (NewReferences c g).
Proof.
  intros Hl Hg. unfold LoadConfig in Hl. destruct content as [b|]; [|done]. apply bind_Ok in Hl as (data & _ & Hl).
  apply bind_Ok in Hl as (x & _ & Hl). destruct (_ || _) eqn:E in Hl; [done|]. injection Hl as ->. zbool.
  assert (Hsafe : path_safe (cfTCCAsset c)).
  { apply safePath_ok. match goal with Hs : safeAssetID _ = true |- _ => unfold safeAssetID in Hs; by apply andb_true_iff in Hs as [Hs _] end. }
  unfold references_ok, NewReferences, jobs. cbn. split_and!; try done. constructor.
Qed.

(** An archive reads as the references it was written from, all of whose jobs are intact. *)
Lemma Freeze_text write run g r text c : LoadConfig json_error (rdConfig run) = Ok (Some c) → u64 g →
  Freeze json_error write run g r = Ok (Some text) →
  ∃ refs, ReadReferences json_error (Some text) = Ok (Some refs) ∧ rfGeneration refs = g ∧ rfRunID refs = cfRunID c ∧ Forall (intact json_error (here c r)) (jobs refs).
Proof.
  intros Hl Hg Hf. unfold Freeze in Hf. rewrite Hl in Hf. cbn [mbind result_bind] in Hf. apply bind_Ok in Hf as (found & Hr & Hf).
  set (refs := default _ found) in Hf. destruct (negb _) eqn:Egen in Hf; [done|]. apply bind_Ok in Hf as ([] & Hv & Hf).
  assert (text = line (references_text refs)) as -> by (destruct write; congruence). exists refs.
  assert (Hok : references_ok refs).
  { destruct found as [x|]; [by eapply readReferencesFile_ok|by eapply NewReferences_ok]. }
  unfold Storage_Validate in Hv. destruct (_ || _) eqn:E in Hv; [done|]. apply bind_Ok in Hv as (count & Hcount & _). zbool.
  refine (conj _ (conj _ (conj _ _))); [by apply references_roundtrip|done|done|by eapply validateJobs_iff].
Qed.

(** The numbers of generations are unsigned machine words. *)
Definition action_ok (act : action) : Prop := match act with DoFreeze _ g => u64 g | _ => True end.

Lemma intact_kept c P r r' st l : rtStores r !! cfRunID c = Some st → keeps_jobs c P r r' → Forall (intact json_error st) l → Forall (λ j, P (jrID j)) l →
  ∃ st', rtStores r' !! cfRunID c = Some st' ∧ Forall (intact json_error st') l.
Proof.
  intros Hs Hk Hi Hp. destruct (Hk st Hs) as (st' & Hs' & _ & Hj). exists st'. split; [done|]. rewrite Forall_forall in *.
  intros j Hin. destruct (intact_valid _ _ _ (Hi j Hin)) as (Hv & _ & Hsome). apply (intact_same _ st); [|by apply Hi]. apply Hj; [done| |done]. by apply Hp.
Qed.

Lemma archives_step act w w' c : action_ok act → provisioned c w → archives_intact c w → service_step json_error quote act w = Some w' →
  provisioned c w' ∧ archives_intact c w' ∧ rdArchives (wRun w) ⊆ rdArchives (wRun w').
Proof.
  intros Ha Hp Hi Hs. destruct (service_step_keeps _ _ _ _ Hp Hs) as (Hk & Hpath & Hcfg & Hsv). pose proof Hp as (Hc & Hown & _).
  split; [split; [by rewrite Hcfg|split; [rewrite Hpath; by eapply owned_kept|done]]|].
  assert (Hold : ∀ g content, rdArchives (wRun w) !! g = Some content → ∃ refs st, ReadReferences json_error (Some content) = Ok (Some refs)
    ∧ rtStores (wRoot w') !! cfRunID c = Some st ∧ Forall (intact json_error st) (jobs refs)).
  { intros g content Hg. destruct (Hi g content Hg) as (refs & st & Hr & Hst & Hf). exists refs.
    destruct (intact_kept _ _ _ _ _ _ Hst Hk Hf) as (st' & ? & ?); [|by exists st'].
    apply Forall_forall. intros j Hj. by exists g, content, refs, j. }
  assert (wRun w' = wRun w ∨ ∃ write g text, act = DoFreeze write g ∧ rdArchives (wRun w) !! g = None ∧ Freeze json_error write (wRun w) g (wRoot w) = Ok (Some text)
    ∧ wRun w' = mkRunDir (rdConfig (wRun w)) (rdInherited (wRun w)) (<[g := text]> (rdArchives (wRun w))) ∧ wRoot w' = wRoot w)
    as [E|(write & g & text & -> & Hnone & Hf & Erun & Eroot)]; [|unfold archives_intact; by rewrite E|].
  { unfold service_step in Hs. destruct act, (wService w); step_cases Hs; try (by left); right; simplify_eq; by eexists _, _, _. }
  destruct (Freeze_text _ _ _ _ _ _ Hc Ha Hf) as (refs & Hr & _ & _ & Hfresh). rewrite Erun. cbn [rdArchives].
  split; [|by apply insert_subseteq]. intros g' content. rewrite Erun. cbn [rdArchives].
  intros [(<- & <-)|(Hg & Hlook)]%lookup_insert_Some; [|by eapply Hold].
  destruct Hown as (st & Hst & _). exists refs, st. rewrite Eroot. split_and!; [done|done|]. by rewrite (here_some _ _ _ Hst) in Hfresh.
Qed.

(** C9: Whatever happens to a run - services opened and closed, jobs admitted, cancelled,
    published or failed under any faults, recoveries, archives, collections, other runs of
    the storage root - every archive ever written is kept as it was, still reads, and all the
    jobs it refers to are intact: their manifests have the digests it names and every
    artifact is there with its size and digest. *)
Theorem archived_jobs_survive l w w' c :
  Forall action_ok l → provisioned c w → archives_intact c w → service_run json_error quote l w = Some w' →
  rdArchives (wRun w) ⊆ rdArchives (wRun w') ∧ archives_intact c w'.
Proof.
  intros Hl. revert w. induction Hl as [|act l Ha Hl IH]; intros w Hp Hi Hr; cbn [service_run] in Hr; [by injection Hr as <-|].
  apply bind_Some in Hr as (w1 & Hs & Hr). destruct (archives_step _ _ _ _ Ha Hp Hi Hs) as (Hp1 & Hi1 & Hsub).
  destruct (IH w1 Hp1 Hi1 Hr) as [Hsub' Hi']. split; [by etrans|done].
Qed.

(** ** Suspension *)

(** A suspended service: no invocation, and the job that may still be running is
    cancelled. *)
Definition suspended s : Prop :=
  svSuspended s = true ∧ svInvocation s = None ∧ ∀ j, svActive s = Some j → jbCancelled j = true.

Definition resumes (act : action) : bool := match act with DoResume | DoClose => true | _ => false end.

Lemma sees_cancelled cancelled j env : sees_context cancelled j env = true → jbCancelled j = true → pvCancelled env 0%nat ≠ None.
Proof. unfold sees_context, ended. intros Hs Hj. rewrite Hj in Hs. cbn in Hs. by destruct (pvCancelled env 0%nat). Qed.

Lemma suspended_step act w w' c s : provisioned c w → wService w = Some s → suspended s → resumes act = false →
  service_step json_error quote act w = Some w' →
  settled c (wRoot w) (wRoot w') ∧ ∃ s', wService w' = Some s' ∧ suspended s' ∧ svRefs s' = svRefs s.
Proof.
  intros Hp Es Hsusp Hres Hs. pose proof Hsusp as (Hsus & Hinv & Hact). pose proof (provisioned_owned c w Hp) as Ho. destruct Hp as (Hc & _ & Hsv). pose proof (Hsv s Es) as Hcs. subst c.
  unfold service_step in Hs. rewrite Es in Hs. destruct act; try discriminate Hres; step_cases Hs;
    cbn [wRoot wPath wRun wService set_root set_service BootstrapService.answer]; rewrite ?Es.
  all: try (split; [apply settled_refl|]; ((by exists s) || (eexists; split; [done|]))).
  - unfold Activate. by rewrite Hsus.
  - done.
  - destruct (Suspend_fields s) as (_ & HR & _ & HA & HB & HC). split; [|done]. split_and!; [done|done|]. rewrite HC. intros j Hj. by destruct (svActive s); simplify_eq/=.
  - split; [|done]. split_and!; [done|done|]. by intros ? [= <-].
  - destruct (Recover_moves _ _ _ _ _ _ _ Heqp) as (Hm & _ & HR & HI & HS & HA & _). split; [done|]. eexists. split; [done|]. split; [|done].
    split_and!; [congruence..|]. by rewrite HA.
  - destruct (enter_cases _ _ _ _ _ Heqs0) as (? & ? & ? & _ & _ & Hno & _). congruence.
  - split; [eapply quiet_settled, prepare_quiet; [done| |exact Ho|exact Heqp]; by apply configs_own|]. by eexists.
  - split; [eapply quiet_settled, prepare_quiet; [done| |exact Ho|exact Heqp]; by apply configs_own|]. eexists. split; [done|].
    split; [|done]. refine (conj Hsus (conj Hinv _)). intros ? [= <-]. exact (Hact _ eq_refl).
  - destruct (answer_settled _ _ _ _ _ _ _ _ _ _ _ Heqp) as (Hm & _ & _ & HR & HI & HS & _). split; [done|]. eexists. split; [done|].
    split; [|done]. refine (conj _ (conj _ _)); [cbn; congruence..|]. intros ? [= <-]. exact (Hact _ eq_refl).
  - destruct (publish_settles _ _ _ _ _ _ _ _ Heqp) as (_ & _ & _ & HI & HS & _ & _ & Hno).
    destruct Hno as (-> & HR & _); [left; eapply sees_cancelled; [exact Heqb|exact (Hact _ eq_refl)]|]. split; [apply settled_refl|]. eexists. split; [done|].
    split; [|done]. refine (conj _ (conj _ _)); [cbn; congruence..|]. intros ? [= <-]. exact (Hact _ eq_refl).
  - destruct (finish_quiet _ _ _ _ _ _ _ _ Heqp) as [Hm ->]. split; [by apply quiet_settled|]. by eexists.
  - rewrite Hc in Heqr. simplify_eq. split; [apply quiet_settled, quiet_other|]. by exists s.
Qed.

Lemma provisioned_step act w w' c : provisioned c w → service_step json_error quote act w = Some w' → provisioned c w'.
Proof.
  intros Hp Hs. destruct (service_step_keeps _ _ _ _ Hp Hs) as (Hk & Hpath & Hcfg & Hsv). destruct Hp as (Hc & Hown & _).
  split; [by rewrite Hcfg|]. split; [rewrite Hpath; by eapply owned_kept|done].
Qed.

Lemma suspended_run l : ∀ w w' c s, provisioned c w → wService w = Some s → suspended s → Forall (λ a, resumes a = false) l →
  service_run json_error quote l w = Some w' →
  settled c (wRoot w) (wRoot w') ∧ ∃ s', wService w' = Some s' ∧ suspended s' ∧ svRefs s' = svRefs s.
Proof.
  induction l as [|act l IH]; intros w w' c s Hp Es Hsus Hl Hr; cbn [service_run] in Hr.
  { injection Hr as <-. split; [apply settled_refl|by exists s]. }
  apply Forall_cons in Hl as [Ha Hl]. apply bind_Some in Hr as (w1 & Hs & Hr).
  destruct (suspended_step _ _ _ _ _ Hp Es Hsus Ha Hs) as (Hm & s1 & Es1 & Hsus1 & Href). pose proof (provisioned_step _ _ _ _ Hp Hs) as Hp1.
  destruct (IH _ _ _ _ Hp1 Es1 Hsus1 Hl Hr) as (Hm' & s2 & Es2 & Hsus2 & Href2).
  split; [by eapply settled_trans|]. exists s2. by rewrite Href2.
Qed.

(** C10: From a suspension to the next resumption, in whatever state the running job was and
    whatever the worker, the guest and the file system do, nothing is committed: the
    references and the index stay as they were, no job appears in the store or leaves it,
    and no job is admitted - what is still active is the cancelled one. *)
Theorem suspended_service_commits_nothing l w w' c s :
  provisioned c w → wService w = Some s → Forall (λ a, resumes a = false) l →
  service_run json_error quote (DoSuspend :: l) w = Some w' →
  ∃ s' st st', wService w' = Some s' ∧ svRefs s' = svRefs s
    ∧ (∀ j, svActive s' = Some j → jbCancelled j = true)
    ∧ rtStores (wRoot w) !! cfRunID c = Some st ∧ rtStores (wRoot w') !! cfRunID c = Some st' ∧ stIndex st' = stIndex st
    ∧ ∀ id, validID id = true → stJobs st !! id = stJobs st' !! id.
Proof.
  intros Hp Es Hl Hr. cbn [service_run] in Hr. apply bind_Some in Hr as (w1 & Hs & Hr). pose proof (provisioned_step _ _ _ _ Hp Hs) as Hp1.
  unfold service_step in Hs. rewrite Es in Hs. injection Hs as <-. destruct (Suspend_fields s) as (_ & HR & _ & HA & HB & HC).
  destruct (suspended_run l _ w' c (Suspend s) Hp1 eq_refl) as (Hm & s' & Es' & (_ & _ & Hact) & Href); [|done|done|].
  { split; [done|]. split; [done|]. rewrite HC. intros j Hj. by destruct (svActive s); simplify_eq/=. }
  destruct Hp as (_ & (st & Hst & _) & _). destruct (Hm st Hst) as (st' & Hst' & _ & Hi & Hj). exists s', st, st'. split_and!; try done. by rewrite Href.
Qed.

(** ** A job that was not cleaned up *)

Definition recovers (act : action) : bool :=
  match act with DoRecover a removed | DoRecoverRun _ _ _ a removed => recovery a removed | _ => false end.

(** Past the worker, with a failure. *)
Definition failed_phase (p : job_phase) : Prop :=
  match p with JobAnswered m _ | JobDone m => rsStatus (mfResult m) ≠ 0 | _ => False end.
(** A service that refuses jobs, and whose last one has failed. *)
Definition refuses s : Prop := is_Some (svPoisoned s) ∧ ∀ j, svActive s = Some j → failed_phase (jbPhase j).
Definition reopens (act : action) : bool := match act with DoOpen _ _ _ _ _ _ _ _ => true | _ => false end.
(** The store has a blocking record, at least where [recorded] says so, and a service there
    is refuses jobs. *)
Definition blocked_state (recorded : Prop) c w : Prop :=
  (recorded → ∃ st, rtStores (wRoot w) !! cfRunID c = Some st ∧ is_Some (stBlocked st)) ∧ ∀ s, wService w = Some s → refuses s.

Lemma blocked_kept (recorded : Prop) c r r' : (recorded → ∃ st, rtStores r !! cfRunID c = Some st ∧ is_Some (stBlocked st)) → stays_blocked c r r' →
  recorded → ∃ st, rtStores r' !! cfRunID c = Some st ∧ is_Some (stBlocked st).
Proof. intros Hrec Hk H0. destruct (Hrec H0) as (st & Hs & Hb). destruct (Hk st Hs) as (st' & ? & ?). exists st'. auto. Qed.

Lemma blocked_step recorded act w w' c : provisioned c w → blocked_state recorded c w → recovers act = false → recorded ∨ reopens act = false →
  service_step json_error quote act w = Some w' → blocked_state recorded c w'.
Proof.
  intros Hp [Hb Hsvc] Hrec Hopen Hs. pose proof (provisioned_owned c w Hp) as Ho. destruct Hp as (Hc & _ & Hsv).
  destruct (wService w) as [s|] eqn:Es; [pose proof (Hsv s eq_refl) as Hcs; subst c; destruct (Hsvc s eq_refl) as [Hpo Hact]|];
    unfold service_step in Hs; rewrite Es in Hs; destruct act; step_cases Hs;
    unfold blocked_state; cbn [wRoot wPath wRun wService set_root set_service BootstrapService.answer]; rewrite ?Es.
  all: try (split; [done|]; first [done|intros ? [= <-]; done|intros ? [= <-]]).
  all: try (exfalso; match goal with E : jbPhase _ = _ |- _ => pose proof (Hact _ eq_refl) as Hno; by rewrite E in Hno end).
  - destruct (Activate_fields ctx s) as (_ & _ & HA & HB & _). unfold refuses. by rewrite HA, HB.
  - destruct (Suspend_fields s) as (_ & _ & HA & _ & _ & HB). unfold refuses. rewrite HA, HB. split; [done|].
    intros j Hj. destruct (svActive s); simplify_eq/=. exact (Hact _ eq_refl).
  - split; [done|]. intros ? [= <-]. exact (Hact _ eq_refl).
  - destruct (Recover_moves _ _ _ _ _ _ _ Heqp) as (_ & _ & _ & _ & _ & _ & Hno). destruct (Hno Hrec) as [-> ->]. split; [done|by intros ? [= <-]].
  - destruct (enter_cases _ _ _ _ _ Heqs0) as (? & ? & ? & _ & Hno & _). rewrite Hno in Hpo. by destruct Hpo.
  - destruct (publish_settles _ _ _ _ _ _ _ _ Heqp) as (_ & Hst & _ & _ & _ & _ & HP & Hno). pose proof (Hact _ eq_refl) as Hf. rewrite Heqj0 in Hf.
    destruct Hno as (-> & _ & Hz); [by right|]. split; [done|]. intros ? [= <-]. split; [cbn; by rewrite HP|]. by intros ? [= <-].
  - destruct (finish_quiet _ _ _ _ _ _ _ _ Heqp) as [Hm ->]. split; [eapply blocked_kept; [exact Hb|by apply quiet_stays]|]. by intros ? [= <-].
  - rewrite Hc in Heqr. simplify_eq. split; [eapply blocked_kept; [exact Hb|apply quiet_stays, quiet_other]|]. by intros ? [= <-].
  - destruct (NewService_moves _ _ _ _ _ _ _ _ _ _ _ _ _ _ Hc (configs_own _ _ _ Hc) Ho Heqp) as (_ & Hm & Hnew). pose proof (blocked_kept _ _ _ _ Hb Hm) as Hb'.
    split; [done|]. destruct r; [|done]. intros s ->. destruct (Hnew s eq_refl) as (_ & HA & HP). destruct Hopen as [Hopen|]; [|done]. destruct (Hb' Hopen) as (st & Hst & Hbl).
    split; [apply HP; by rewrite (here_some _ _ _ Hst)|by rewrite HA].
  - destruct (RecoverRun_moves _ _ _ _ _ _ _ _ _ _ _ Hc (configs_own _ _ _ Hc) Ho Heqp) as [_ Hm]. split; [|done]. eapply blocked_kept; [exact Hb|by apply Hm].
  - split; [|done]. eapply blocked_kept; [exact Hb|]. eapply GarbageCollect_stays; [exact Heqp|exact Hc|by apply configs_own|exact Ho].
  - rewrite Hc in Heqr. simplify_eq. split; [|done]. eapply blocked_kept; [exact Hb|apply quiet_stays, quiet_other].
Qed.

Lemma blocked_run recorded l : ∀ w w' c, provisioned c w → blocked_state recorded c w → Forall (λ a, recovers a = false) l →
  recorded ∨ Forall (λ a, reopens a = false) l → service_run json_error quote l w = Some w' → blocked_state recorded c w'.
Proof.
  induction l as [|act l IH]; intros w w' c Hp Hb Hl Ho Hr; cbn [service_run] in Hr; [by injection Hr as <-|].
  apply Forall_cons in Hl as [Ha Hl]. apply bind_Some in Hr as (w1 & Hs & Hr). rewrite Forall_cons in Ho.
  eapply IH; [by eapply provisioned_step|eapply blocked_step; [..|exact Hs]|exact Hl| |exact Hr]; tauto.
Qed.

(** Whether the worker confirmed that nothing of the job is left. *)
Definition confirmed (a : result exchange) : bool := match worker_answer a with Ok v => rsCleaned (wpResult v) | Err _ => false end.

Lemma unconfirmed_answer a finished dead blocked m s r m' outs s' r' : confirmed a = false →
  HandleRequest_answer quote (worker_answer a) finished dead blocked m s r = (m', outs, s', r') →
  rsStatus (mfResult m') ≠ 0 ∧ is_Some (svPoisoned s')
  ∧ r' = on_store (cfRunID (svConfig s)) (λ st, set_blocked (snd (atomicJSON blocked blocked_text (stBlocked st))) st) r.
Proof.
  unfold confirmed, HandleRequest_answer. intros Hc Ha.
  match type of Ha with (let '(_, _) := ?x in _) = _ => destruct x as [res o] eqn:E end.
  assert (Hcl : rsCleaned (with_job (mfID m) res) = false).
  { destruct (worker_answer a) as [v|e]; injection E as <- <-; [by destruct (wpResult v)|done]. }
  rewrite Hcl in Ha. injection Ha as <- _ <- <-. split_and!; [|by eexists|done].
  destruct m as [?????????????? r0], res. cbn. done.
Qed.

(** The blocking record reached the disk: its write succeeded or failed after the rename. *)
Definition reaches_disk (blocked : fault) : Prop := ∀ e, blocked ≠ BeforeRename e.

Lemma on_store_id (id : bytes) (f : Store → Store) r : (∀ st, f st = st) → on_store id f r = r.
Proof. intros Hf. destruct r. unfold on_store. f_equal. apply map_eq. intros k. destruct (decide (k = id)) as [->|]; [|by rewrite lookup_alter_ne].
  rewrite lookup_alter_eq. destruct (_ !! id); cbn; [by rewrite Hf|done]. Qed.

(** C11: A job whose cleanup the worker did not confirm - it failed, or its answer says so -
    fails, and until a recovery succeeds no job is admitted any more by that service: not
    after the next activation, whatever happens in between. Where the blocking record
    reached the disk this holds of every service opened again on the same store too.
    Where writing it failed before the rename, an error the code ignores, the answer leaves
    the storage root as it was: a service opened again finds no trace of the job. *)
Theorem unclean_job_blocks_service l w w1 w' c s j wire m a finished blocked :
  provisioned c w → wService w = Some s → svActive s = Some j → jbPhase j = JobRunning wire m →
  confirmed a = false → Forall (λ act, recovers act = false) l →
  service_step json_error quote (DoAnswer a finished blocked) w = Some w1 → service_run json_error quote l w1 = Some w' →
  (reaches_disk blocked ∨ Forall (λ act, reopens act = false) l → ∀ s', wService w' = Some s' →
     svPoisoned s' ≠ None ∧ (∀ j', svActive s' = Some j' → failed_phase (jbPhase j'))
     ∧ ∀ hr s'', HandleRequest_enter json_error quote hr (wCancelled w') s' (wRoot w') ≠ inr s'')
  ∧ (reaches_disk blocked ∨ wRoot w1 = wRoot w).
Proof.
  intros Hp Es Ej Eph Hc Hl Hs Hr. pose proof (provisioned_step _ _ _ _ Hp Hs) as Hp1.
  assert (Hblocked : blocked_state (reaches_disk blocked) c w1 ∧ (reaches_disk blocked ∨ wRoot w1 = wRoot w)).
  { destruct Hp as (_ & (st & Hst & _) & Hsv). pose proof (Hsv s Es) as Hcs. unfold service_step in Hs. rewrite Es, Ej, Eph in Hs.
    destruct (HandleRequest_answer _ _ _ _ _ _ _ _) as [[[m' outs] s'] r'] eqn:Ea. injection Hs as <-.
    destruct (unconfirmed_answer _ _ _ _ _ _ _ _ _ _ _ Hc Ea) as (Hz & Hpo & ->). rewrite Hcs. split; [split|].
    - intros Hb. eexists. split; [cbn [wRoot set_service set_root]; by apply on_store_some|]. cbn [set_blocked stBlocked].
      destruct blocked as [|e|e]; [by eexists|by destruct (Hb e)|by eexists].
    - intros ? [= <-]. split; [done|]. intros ? [= <-]. exact Hz.
    - destruct blocked as [|e|e]; [by left|right|by left]. cbn [wRoot set_service set_root]. apply on_store_id. by intros []. }
  destruct Hblocked as [Hblocked Hdisk]. split; [|exact Hdisk]. intros Ho.
  destruct (blocked_run _ _ _ _ _ Hp1 Hblocked Hl Ho Hr) as [_ Hfin]. intros s' Es'. destruct (Hfin s' Es') as [[e He] Hact].
  split; [by rewrite He|]. split; [done|]. intros hr s'' Hin. destruct (enter_cases _ _ _ _ _ Hin) as (? & ? & ? & _ & Hno & _). congruence.
Qed.

(** ** A publication whose last sync fails *)

Lemma unsynced_answer env m outs s r next r' e : rsStatus (mfResult m) = 0 → Publish json_error env (svConfig s) m outs (svRefs s) r = (Ok next, r') →
  ∃ m', HandleRequest_publish json_error quote (unsynced e env) m outs s r = (m', s, r')
    ∧ rsStatus (mfResult m') = 2 ∧ rsReason (mfResult m') = bs "publication_failed" ∧ rsArtifacts (mfResult m') = None.
Proof.
  intros Hz Hp. unfold HandleRequest_publish. rewrite Hz, (Publish_unsynced _ _ _ _ _ _ _ _ _ e Hp). cbn [Z.eqb negb].
  eexists. split; [done|]. destruct m as [?????????????? []]. done.
Qed.

(** The answer to a failed job. *)
Lemma failed_answer env j m s r f s' r' : HandleRequest_finish quote env j m s r = (f, s', r') → rsStatus (mfResult m) ≠ 0 →
  ∃ res, f = response (jbID j) res ∧ rsStatus res = rsStatus (mfResult m) ∧ rsReason res = rsReason (mfResult m) ∧ rsArtifacts res = None.
Proof.
  unfold HandleRequest_finish. intros Hf Hz. rewrite (proj2 (Z.eqb_neq _ _) Hz) in Hf. destruct (Failure _ _ _ _ _ _ _) as [[e|] r1]; injection Hf as <- _ _;
    (eexists; split; [done|]); by destruct (mfResult m).
Qed.

(** C35: A job whose index is renamed into place but whose last sync fails is answered as
    failed, with status 2 and without artifacts, and the references the service serves do
    not list it. Yet the index on disk does: an archive of the generation written after the
    service has closed refers to the job, with its manifest and its artifacts intact - for
    the next generation it is a job like any other. *)
Theorem unsynced_publication_archived w w' c s j m outs env fenv write g next r' e :
  provisioned c w → wService w = Some s → svActive s = Some j → jbPhase j = JobAnswered m outs → rsStatus (mfResult m) = 0 →
  Publish json_error env c m outs (svRefs s) (wRoot w) = (Ok next, r') →
  manifest_ok m → collision_free outs → references_ok (svRefs s) → Forall (intact json_error (here c (wRoot w))) (jobs (svRefs s)) →
  service_run json_error quote [DoPublish (unsynced e env); DoFinish fenv; DoClose; DoFreeze write g] w = Some w' →
  (∃ res, wAnswers w' = response (jbID j) res :: wAnswers w ∧ rsStatus res = 2 ∧ rsReason res = bs "publication_failed" ∧ rsArtifacts res = None)
  ∧ rdArchives (wRun w') !! g = Some (line (references_text next)) ∧ ReadReferences json_error (Some (line (references_text next))) = Ok (Some next)
  ∧ jobs next = jobs (svRefs s) ++ [mkJobRef (mfID m) (Digest (line (manifest_text m)))]
  ∧ manifest json_error (here c (wRoot w')) (mkJobRef (mfID m) (Digest (line (manifest_text m)))) = Ok m
  ∧ Forall (intact json_error (here c (wRoot w'))) (jobs next).
Proof.
  intros Hp Es Ej Eph Hz Epub Hm Hcf Hro Hint Hr. pose proof Hp as (Hcfg & _ & Hsv). pose proof (Hsv s Es) as Hcs. subst c.
  destruct (Publish_reads _ _ _ _ _ _ _ _ _ Epub Hm Hcf Hro Hint) as (Hj & Hidx & Hok & Hin & Hmani).
  destruct (Publish_Ok _ _ _ _ _ _ _ _ _ Epub) as (st & files & _ & _ & _ & _ & _ & _ & _ & Hs' & _). set (st' := set_index _ _) in Hs'.
  destruct (unsynced_answer env m outs s (wRoot w) next r' e Hz Epub) as (m' & Hpub & Hz' & Hwhy & Hnone).
  cbn [service_run] in Hr. apply bind_Some in Hr as (w1 & H1 & Hr). unfold service_step in H1. rewrite Es, Ej, Eph in H1.
  destruct (sees_context _ _ _); [|done]. rewrite Hpub in H1. injection H1 as <-.
  apply bind_Some in Hr as (w2 & H2 & Hr). unfold service_step in H2. cbn in H2.
  destruct (HandleRequest_finish _ _ _ _ _ _) as [[f s2] r2] eqn:Ef in H2. injection H2 as <-.
  destruct (finish_quiet _ _ _ _ _ _ _ _ Ef) as [Hq ->]. destruct (failed_answer _ _ _ _ _ _ _ _ Ef) as (res & -> & Hst & Hre & Har); [by rewrite Hz'|].
  cbn in Hr. destruct (rdArchives (wRun w) !! g) eqn:Eg; [done|]. destruct (Freeze _ _ _ _ _) as [[text|]|] eqn:Efr; [|done..]. injection Hr as <-.
  cbn [wAnswers wRun wRoot rdArchives]. rewrite lookup_insert_eq.
  change (quiet (svConfig s) r' r2) in Hq. destruct (Hq st' Hs') as (st2 & Hs2 & _ & Hi2 & _ & Hsame). rewrite (here_some _ _ _ Hs') in Hidx, Hin, Hmani. rewrite (here_some _ _ _ Hs2).
  split; [exists res; rewrite Hst, Hre, Har; done|].
  unfold Freeze in Efr. rewrite Hcfg in Efr. cbn [mbind result_bind] in Efr. rewrite (here_some _ _ _ Hs2), Hi2 in Efr. unfold ReadReferences in Efr. rewrite Hidx in Efr.
  cbn [mbind result_bind default] in Efr. destruct (negb _) in Efr; [done|]. apply bind_Ok in Efr as ([] & _ & Efr).
  assert (text = line (references_text next)) as -> by (destruct write; [|done..]; by injection Efr).
  assert (Hint2 : Forall (intact json_error st2) (jobs next)).
  { eapply Forall_impl; [exact Hin|]. intros x Hx. destruct (intact_valid _ _ _ Hx) as (Hv & _). eapply intact_same; [|exact Hx]. by apply Hsame. }
  refine (conj eq_refl (conj _ (conj Hj (conj _ Hint2)))); [exact Hidx|].
  rewrite <- Hmani. symmetry. apply manifest_same. apply Hsame. cbn [jrID].
  assert (Hx : mkJobRef (mfID m) (Digest (line (manifest_text m))) ∈ jobs next) by (rewrite Hj; apply elem_of_app; right; by apply list_elem_of_singleton).
  rewrite Forall_forall in Hin. by destruct (intact_valid _ _ _ (Hin _ Hx)) as (Hv & _).
Qed.

(** ** Success *)

(** The job of an answer with status 0 is in the references and the index on disk. *)
Definition listed c s r (m : Manifest) : Prop :=
  ∃ digest st, mkJobRef (mfID m) digest ∈ jobs (svRefs s) ∧ rtStores r !! cfRunID c = Some st ∧ stIndex st = Some (line (references_text (svRefs s))).
Definition success_listed c w : Prop :=
  ∀ s j m, wService w = Some s → svActive s = Some j → jbPhase j = JobDone m → rsStatus (mfResult m) = 0 → listed c s (wRoot w) m.

Lemma listed_settled c s s' r r' m : listed c s r m → svRefs s' = svRefs s → settled c r r' → listed c s' r' m.
Proof.
  intros (d & st & Hin & Hst & Hi) Hr Hs. destruct (Hs st Hst) as (st' & Hst' & _ & Hi' & _). exists d, st'. rewrite Hr. split_and!; [done|done|congruence].
Qed.

Lemma publish_listed env m outs s r m' s' r' : HandleRequest_publish json_error quote env m outs s r = (m', s', r') →
  rsStatus (mfResult m') = 0 → listed (svConfig s) s' r' m'.
Proof.
  unfold HandleRequest_publish. intros Hp Hz. destruct (negb _) eqn:E; zbool; [injection Hp as <- <- <-; done|].
  destruct (Publish _ _ _ _ _ _ _) as [res r1] eqn:Epub. destruct res as [next|e]; injection Hp as <- <- <-.
  - destruct (Publish_Ok _ _ _ _ _ _ _ _ _ Epub) as (st & files & _ & _ & _ & _ & _ & Hn & _ & Hst & _). eexists _, _. split; [|split; [exact Hst|by rewrite Hn]].
    rewrite Hn. cbn [set_refs svRefs]. rewrite jobs_set. apply elem_of_app. right. by apply list_elem_of_singleton.
  - by destruct m as [?????????????? []].
Qed.

Lemma success_step act w w' c : provisioned c w → success_listed c w → service_step json_error quote act w = Some w' → success_listed c w'.
Proof.
  intros Hp Hi Hs. pose proof (provisioned_owned c w Hp) as Ho. destruct Hp as (Hc & _ & Hsv).
  destruct (wService w) as [s|] eqn:Es; [pose proof (Hsv s eq_refl) as Hcs; subst c|]; unfold service_step in Hs; rewrite Es in Hs; destruct act; step_cases Hs.
  all: intros s1 j1 m1; cbn [wRoot wPath wRun wService set_root set_service BootstrapService.answer]; rewrite ?Es; intros Hs1 Hj1 Hph Hz; simplify_eq.
  all: try (by eapply Hi; [done|done|exact Hph|done]).
  - destruct (Activate_fields ctx s) as (_ & HR & HA & _). rewrite HA in Hj1. eapply listed_settled; [by eapply Hi|done|apply settled_refl].
  - eapply listed_settled; [by eapply Hi|done|apply settled_refl].
  - destruct (Suspend_fields s) as (_ & HR & _ & _ & _ & HC). rewrite HC in Hj1. apply fmap_Some in Hj1 as (j & Hj & ->).
    eapply listed_settled; [by eapply Hi|done|apply settled_refl].
  - eapply listed_settled; [by eapply Hi|done|apply settled_refl].
  - injection Hj1 as <-. eapply listed_settled; [by eapply Hi|done|apply settled_refl].
  - destruct (Recover_moves _ _ _ _ _ _ _ Heqp) as (Hm & _ & HR & _ & _ & HA & _). rewrite HA in Hj1. eapply listed_settled; [by eapply Hi|done|done].
  - destruct (enter_cases _ _ _ _ _ Heqs0) as (? & ? & ? & -> & _). cbn in Hj1. injection Hj1 as <-. discriminate Hph.
  - injection Hj1 as <-. discriminate Hph.
  - injection Hj1 as <-. discriminate Hph.
  - injection Hj1 as <-. injection Hph as <-. destruct (publish_settles _ _ _ _ _ _ _ _ Heqp) as (_ & _ & Hcfg & _).
    by apply (publish_listed _ _ _ _ _ _ _ _ Heqp).
  - destruct (finish_quiet _ _ _ _ _ _ _ _ Heqp) as [_ ->]. discriminate Hj1.
  - eapply listed_settled; [by eapply Hi|done|apply quiet_settled, quiet_other].
  - destruct (NewService_moves _ _ _ _ _ _ _ _ _ _ _ _ _ _ Hc (configs_own _ _ _ Hc) Ho Heqp) as (_ & _ & Hnew). destruct r; [|done].
    subst. destruct (Hnew s1 eq_refl) as (_ & HA & _). congruence.
Qed.

(** C21: A guest is told that a job succeeded only when the references the service serves and
    the index on disk, from which the archive of the generation is written, list it: in
    every history that begins without a service, whatever fails in between. *)
Theorem reported_success_listed l w w' w'' c env :
  provisioned c w → wService w = None → service_run json_error quote l w = Some w' → service_step json_error quote (DoFinish env) w' = Some w'' →
  ∃ s' j m, wService w' = Some s' ∧ svActive s' = Some j ∧ jbPhase j = JobDone m
    ∧ (rsStatus (mfResult m) = 0 → wAnswers w'' = response (jbID j) (mfResult m) :: wAnswers w' ∧ wRoot w'' = wRoot w' ∧ listed c s' (wRoot w') m).
Proof.
  intros Hp Es Hr Hs. assert (Hl : provisioned c w' ∧ success_listed c w').
  { assert (H0 : success_listed c w) by (intros s j m Hs0; congruence). clear Es Hs. revert w Hp H0 Hr.
    induction l as [|act l IH]; intros w Hp H0 Hr; cbn [service_run] in Hr; [by injection Hr as <-|].
    apply bind_Some in Hr as (w1 & Hs & Hr). apply (IH w1); [by eapply provisioned_step|by eapply success_step|done]. }
  destruct Hl as [_ Hl]. unfold service_step in Hs. destruct (wService w') as [s|] eqn:Es'; [|done].
  destruct (svActive s) as [j|] eqn:Ej; [|done]. destruct (jbPhase j) as [| | |m] eqn:Eph; try done.
  exists s, j, m. split; [done|]. split; [done|]. split; [done|]. intros Hz. unfold HandleRequest_finish in Hs. rewrite Hz in Hs. cbn [Z.eqb] in Hs.
  injection Hs as <-. split; [done|]. split; [done|]. by apply (Hl s j m).
Qed.
End Proofs.

Module service_example.
#[local] Existing Instance decimal_times.
Import request_example store_example.
Definition quote : bytes → bytes := λ b, b.
Definition others : bytes → GoStd.result (option Config) := λ _, Ok None.
(** The archive of generation 0 refers to the earlier job. *)
Definition run : RunDir := mkRunDir (Some (config_text config)) None {[ 0 := index ]}.
Definition start : world := mkWorld path run root None ∅ [].
Definition provided : list Asset := [mkAsset (bs "tcc") TCCSHA256 9; mkAsset (bs "tool") digest 5].
Definition open_action : action := DoOpen None others (λ _, None) NoFault (Ok 0) 1 (Some 0) provided.
(** A successor is opened, archived and collected. *)
Definition history : list action :=
  [open_action; DoClose; DoFreeze NoFault 1; DoCollect None others (λ _, None) (λ _, None) NoFault None].

(** A service of generation 0 with a job at the worker. *)
Definition running : job := mkJob 9 7 false (JobRunning wire job_manifest).
Definition service : Service := mkService config 0 0 refs (fold_left (λ m a, <[asID a := a]> m) provided ∅) (Some 7%nat) false (Some running) None.
Definition busy_world : world := mkWorld path run root (Some service) ∅ [].
Definition answered (r : Result) : GoStd.result exchange := Ok (mkExchange (mkWireResponse r outs, None) false None None false []).
Definition cancelled_env : publish_env := mkPublishEnv (λ _, Some (SystemError (txt "context canceled"))) (λ _, None) NoFault (bs "x") None.
Definition no_faults : finish_env := mkFinishEnv None (λ _, None) NoFault 8.
Definition ignored : list action := [DoAnswer (answered store_example.result) 6 NoFault; DoPublish cancelled_env; DoFinish no_faults; DoActivate 7].
Definition unclean : Result := mkResult job_id [] ∅ ∅ 0 (bs "ok") [] 0 false false None.
Definition reopened : list action := [DoPublish env; DoFinish no_faults; DoClose; open_action; DoActivate 7].

Lemma config_read : LoadConfig no_error (rdConfig run) = Ok (Some config).
Proof. vm_compute. reflexivity. Qed.
Lemma owner_read : owned no_error path store.
Proof. exists (mkOwner 1 path). split; [by vm_compute|]. split; [vm_compute; reflexivity|done]. Qed.
Lemma run_provisioned svc : (∀ s, svc = Some s → svConfig s = config) → provisioned no_error config (mkWorld path run root svc ∅ []).
Proof. intros Hs. split; [exact config_read|]. split; [|exact Hs]. exists store. split; [reflexivity|exact owner_read]. Qed.
Lemma archive_intact : archives_intact no_error config start.
Proof.
  intros g content Hg. cbn [start wRun run rdArchives] in Hg. apply lookup_singleton_Some in Hg as [_ <-]. exists refs, store.
  split; [exact refs_read|]. split; [reflexivity|]. exact (validateJobs_iff _ _ _ _ _ old_intact).
Qed.
Definition ran {A} (x : option A) : bool := match x with Some _ => true | None => false end.
Lemma run_some {A} (x : option A) : ran x = true → ∃ y, x = Some y.
Proof. destruct x; [by eexists|done]. Qed.
Lemma history_runs : match service_run no_error quote history start with Some w => bool_decide (size (rdArchives (wRun w)) = 2%nat) | None => false end = true.
Proof. vm_cast_no_check (eq_refl true). Qed.
Lemma ignored_runs : ran (service_run no_error quote (DoSuspend :: ignored) busy_world) = true.
Proof. vm_cast_no_check (eq_refl true). Qed.
Lemma reopened_runs :
  match service_run no_error quote (DoAnswer (answered unclean) 6 NoFault :: reopened) busy_world with
  | Some w => match wService w with Some _ => true | None => false end
  | None => false
  end = true.
Proof. vm_cast_no_check (eq_refl true). Qed.
(** A job of the successor, from its admission to its answer. *)
Definition submitted : HostRequest := mkHostRequest 9 (bs "bootstrap_job") [data; snapshot].
Definition asset_range (id : bytes) (o n : Z) : GoStd.result bytes := Ok (slice o (o + n) hello).
Definition prepared : prepare_env := mkPrepareEnv None others (λ _, None) (Some asset_range) job_id 5.
Definition whole_job : list action :=
  [open_action; DoActivate 7; DoRequest submitted; DoPrepare prepared; DoAnswer (answered store_example.result) 6 NoFault; DoPublish env].
Definition succeeded (o : option world) : bool :=
  match o with
  | Some w => match wService w with
              | Some s => match svActive s with
                          | Some j => match jbPhase j with JobDone m => rsStatus (mfResult m) =? 0 | _ => false end
                          | None => false
                          end
              | None => false
              end
  | None => false
  end.
Lemma job_succeeds : succeeded (service_run no_error quote whole_job start) = true.
Proof. vm_cast_no_check (eq_refl true). Qed.
Lemma succeeded_world o : succeeded o = true → ∃ w s j m, o = Some w ∧ wService w = Some s ∧ svActive s = Some j ∧ jbPhase j = JobDone m ∧ rsStatus (mfResult m) = 0.
Proof.
  destruct o as [w|]; [|done]. cbn [succeeded]. destruct (wService w) as [s|] eqn:Es; [|done]. destruct (svActive s) as [j|] eqn:Ej; [|done].
  destruct (jbPhase j) as [| | |m] eqn:Eph; try done. intros Hz%Z.eqb_eq. by exists w, s, j, m.
Qed.
Lemma finish_step w s j m : wService w = Some s → svActive s = Some j → jbPhase j = JobDone m → ∃ w', service_step no_error quote (DoFinish no_faults) w = Some w'.
Proof. intros Es Ej Eph. unfold service_step. rewrite Es, Ej, Eph. destruct (HandleRequest_finish _ _ _ _ _ _) as [[f s'] r']. by eexists. Qed.
(** A finished job whose index cannot be synced, in a run without archives. *)
Definition finished : job := mkJob 9 7 false (JobAnswered job_manifest outs).
Definition fresh_run : RunDir := mkRunDir (Some (config_text config)) None ∅.
Definition finished_service : Service := mkService config 0 0 refs ∅ (Some 7%nat) false (Some finished) None.
Definition finished_world : world := mkWorld path fresh_run root (Some finished_service) ∅ [].
Definition unsynced_history : list action := [DoPublish (unsynced (SystemError (txt "sync")) env); DoFinish no_faults; DoClose; DoFreeze NoFault 0].
Lemma unsynced_runs : ran (service_run no_error quote unsynced_history finished_world) = true.
Proof. vm_cast_no_check (eq_refl true). Qed.
Lemma finished_provisioned : provisioned no_error config finished_world.
Proof. split; [exact config_read|]. split; [|by intros ? [= <-]]. exists store. split; [reflexivity|exact owner_read]. Qed.
End service_example.

Lemma archived_jobs_survive_witness :
  ∃ w', service_run (H := decimal_times) request_example.no_error service_example.quote service_example.history service_example.start = Some w'
    ∧ size (rdArchives (wRun w')) = 2%nat ∧ archives_intact (H := decimal_times) request_example.no_error store_example.config w'.
Proof.
  pose proof service_example.history_runs as Hr.
  destruct (service_run (H := decimal_times) request_example.no_error service_example.quote service_example.history service_example.start) as [w'|] eqn:E; [|discriminate Hr].
  exists w'. split; [reflexivity|]. apply bool_decide_eq_true in Hr. split; [exact Hr|].
  refine (proj2 (archived_jobs_survive (H := decimal_times) _ _ _ _ _ store_example.config _ (service_example.run_provisioned None _) service_example.archive_intact E)).
  - repeat constructor; vm_compute; done.
  - intros s Hs. discriminate Hs.
Defined.

Lemma suspended_service_commits_nothing_witness :
  ∃ w' s', service_run (H := decimal_times) request_example.no_error service_example.quote (DoSuspend :: service_example.ignored) service_example.busy_world = Some w'
    ∧ wService w' = Some s' ∧ svRefs s' = store_example.refs.
Proof.
  destruct (service_example.run_some _ service_example.ignored_runs) as [w' E].
  destruct (suspended_service_commits_nothing (H := decimal_times) _ _ service_example.ignored _ w' store_example.config service_example.service
    (service_example.run_provisioned (Some service_example.service) ltac:(by intros ? [= <-])) eq_refl ltac:(by repeat constructor) E) as (s' & _ & _ & Hs & Hrefs & _).
  exists w', s'. split; [exact E|]. split; [exact Hs|exact Hrefs].
Defined.

Lemma unclean_job_blocks_service_witness :
  ∃ w' s', service_run (H := decimal_times) request_example.no_error service_example.quote
             (DoAnswer (service_example.answered service_example.unclean) 6 NoFault :: service_example.reopened) service_example.busy_world = Some w'
    ∧ wService w' = Some s' ∧ svPoisoned s' ≠ None.
Proof.
  pose proof service_example.reopened_runs as Hr.
  destruct (service_run _ _ (DoAnswer _ _ _ :: _) _) as [w'|] eqn:E; [|discriminate Hr]. destruct (wService w') as [s'|] eqn:Es; [|discriminate Hr].
  exists w', s'. split; [reflexivity|]. split; [exact Es|]. pose proof E as E'. cbn [service_run] in E'. apply bind_Some in E' as (w1 & E1 & E2).
  refine (proj1 (proj1 (unclean_job_blocks_service (H := decimal_times) _ _ service_example.reopened _ w1 w' store_example.config service_example.service service_example.running
    _ _ (service_example.answered service_example.unclean) 6 NoFault (service_example.run_provisioned (Some service_example.service) _) eq_refl eq_refl eq_refl _ _ E1 E2) _ s' Es)).
  - by intros ? [= <-].
  - vm_compute. reflexivity.
  - repeat constructor.
  - left. intros e. discriminate.
Defined.

Lemma unsynced_publication_archived_witness :
  ∃ w' next res, service_run (H := decimal_times) request_example.no_error service_example.quote service_example.unsynced_history service_example.finished_world = Some w'
    ∧ wAnswers w' = [response 9 res] ∧ rsStatus res = 2 ∧ rdArchives (wRun w') !! 0 = Some (line (references_text next)) ∧ len (jobs next) = 2.
Proof.
  destruct (service_example.run_some _ service_example.unsynced_runs) as [w' E]. destruct (ok_pair _ store_example.accepted) as (next & r' & Hp).
  destruct (unsynced_publication_archived (H := decimal_times) _ service_example.quote service_example.finished_world w' store_example.config service_example.finished_service
    service_example.finished store_example.job_manifest store_example.outs store_example.env service_example.no_faults NoFault 0 next r' (SystemError (txt "sync"))
    service_example.finished_provisioned eq_refl eq_refl eq_refl eq_refl Hp store_example.manifest_fine) as ((res & Ha & Hz & _) & Harch & _ & Hj & _).
  - intros o o' Ho Ho' _. apply list_elem_of_singleton in Ho, Ho'. by subst.
  - exact (readReferencesFile_ok _ _ _ store_example.refs_read).
  - exact (validateJobs_iff (H := decimal_times) _ _ _ _ _ store_example.old_intact).
  - exact E.
  - exists w', next, res. split; [exact E|]. split; [exact Ha|]. split; [exact Hz|]. split; [exact Harch|]. rewrite Hj. reflexivity.
Defined.

Lemma reported_success_listed_witness :
  ∃ w' s' m, service_run (H := decimal_times) request_example.no_error service_example.quote service_example.whole_job service_example.start = Some w'
    ∧ wService w' = Some s' ∧ rsStatus (mfResult m) = 0 ∧ listed store_example.config s' (wRoot w') m.
Proof.
  destruct (service_example.succeeded_world _ service_example.job_succeeds) as (w' & s & j & m & E & Es & Ej & Eph & Hz).
  destruct (service_example.finish_step w' s j m Es Ej Eph) as [w'' Hf].
  destruct (reported_success_listed (H := decimal_times) _ _ _ _ _ _ store_example.config _ (service_example.run_provisioned None ltac:(intros ? [=])) eq_refl E Hf)
    as (s' & j' & m' & Es' & Ej' & Eph' & Hl).
  exists w', s', m'. assert (m' = m) as -> by congruence. split; [exact E|]. split; [exact Es'|]. split; [exact Hz|]. exact (proj2 (proj2 (Hl Hz))).
Defined.
