(* ===== verification/BootstrapProvision.v ===== *)
(** * Bootstrap jobs: provisioning and inheritance (src/internal/bootstrap/storage.go)

    A store directory is prepared under a name of its own and renamed when it is complete.
    A run that continues the archive of another one gets a store with copies of the jobs
    the archive refers to, and no permission to run new ones until it is provisioned. *)

From S2P Require Import Prelude GoStd Sha256 SourceCapacity Snapshot Json FeatureStore ArchiveRecord JsonTree JsonCompact JsonStruct.
From S2P Require Import BootstrapRequest BootstrapStore BootstrapService.
Open Scope Z_scope.

Definition set_init (x : option Store) (id : bytes) (r : Root) : Root := mkRoot (rtStores r) (partial_alter (λ _, x) id (rtInits r)).
Definition set_store (x : option Store) (id : bytes) (r : Root) : Root := mkRoot (partial_alter (λ _, x) id (rtStores r)) (rtInits r).

(** The files of the run directory that these operations write. *)
Definition set_run_config (x : option bytes) (run : RunDir) : RunDir := mkRunDir x (rdInherited run) (rdArchives run).

Section Provision.
Context `{TimeFormat} (json_error : bytes → error).

(** ** A new store *)

(** [left]: a stage that could not be removed after a failure. *)
Record init_env := mkInitEnv { ieMkdir : option error; ieOwner : option error; ieJobs : option error; ieSync : option error;
  ieRename : option error; ieSynced : option error; ieLeft : option Store }.

Definition newStore (path : bytes) : Store := mkStore (line (owner_text (mkOwner 1 path))) None None ∅ None [].

Definition initializeStorage (env : init_env) (id path : bytes) (r : Root) : option error * Root :=
  if 4096 <? len (owner_text (mkOwner 1 path)) + 1 then (Some (PlainError (txt "bootstrap owner path exceeds metadata bound")), r)
  else match rtInits r !! id with
  | Some _ => (Some (SystemError (txt "file exists")), r)
  | None =>
      match ieMkdir env with
      | Some e => (Some e, r)
      | None =>
          let left := set_init (ieLeft env) id r in
          match ieOwner env, ieJobs env, ieSync env with
          | Some e, _, _ | None, Some e, _ | None, None, Some e => (Some e, left)
          | None, None, None =>
              match rtStores r !! id with
              | Some _ => (Some (PlainError (txt "bootstrap store ID collision")), left)
              | None =>
                  match ieRename env with
                  | Some e => (Some e, left)
                  | None => (ieSynced env, set_store (Some (newStore path)) id r)
                  end
              end
          end
      end
  end.

(** [id]: the random name of a new store; [synced]: the last sync of the root. What became
    of the configuration of the run comes back with the root. *)
Definition Provision (refused : option error) (configOf : bytes → result (option Config)) (removes : bytes → option error) (env : init_env)
  (write : fault) (synced : option error) (path root asset id : bytes) (run : RunDir) (r : Root) : option error * RunDir * Root :=
  if negb (safeAssetID asset) then (Some (PlainError (txt "invalid pinned TCC asset ID")), run, r)
  else match LoadConfig json_error (rdConfig run) with
  | Err e => (Some e, run, r)
  | Ok (Some c) =>
      if negb (bool_decide (cfStorage c = root)) || negb (bool_decide (cfTCCAsset c = asset)) then
        (Some (PlainError (txt "bootstrap pin/store changes require separate migration")), run, r)
      else
        let '(failed, content) := atomicJSON write (config_text (mkConfig (cfVersion c) true (cfStorage c) (cfRunID c) (cfTCCAsset c))) (rdConfig run) in
        (failed, set_run_config content run, r)
  | Ok None =>
      let c := mkConfig 1 true root id asset in
      let '(locked, r) := LockStorage json_error refused c configOf removes r in
      match locked with
      | Err e => (Some e, run, r)
      | Ok _ =>
          match Reserve c 4096 4096 r with
          | Err e => (Some e, run, r)
          | Ok _ =>
              let '(failed, r) := initializeStorage env id path r in
              match failed with
              | Some e => (Some e, run, r)
              | None =>
                  let '(failed, content) := atomicJSON write (config_text c) (rdConfig run) in
                  (match failed with Some e => Some e | None => synced end, set_run_config content run, r)
              end
          end
      end
  end.

(** ** The archive of a generation *)

Definition ValidateArchive (run : RunDir) (generation : Z) (r : Root) : result unit :=
  refs ← ReadReferences json_error (rdArchives run !! generation);
  match refs with
  | None => Ok ()
  | Some refs =>
      c ← LoadConfig json_error (rdConfig run);
      if negb (rfGeneration refs =? generation) then Err (PlainError (txt "bootstrap archive generation mismatch"))
      else match c with
      | None => Err (PlainError (txt "archive has bootstrap references but run configuration is missing"))
      | Some c => Storage_Validate json_error c (Some refs) r
      end
  end.

(** ** Inheritance *)

(** [copies job i]: copying the i-th file of a job; [left]: what a removal left behind. *)
Record inherit_env := mkInheritEnv {
  neInit : init_env;
  neMkdir : bytes → option error;
  neCopies : bytes → nat → option error;
  neSync : bytes → option error;
  neIndex : fault;
  neConfig : fault;
  neInherited : fault;
  neJobsSync : option error;
  neRootSync : option error;
  neLeft : option Store
}.

(** The files of a job: its manifest, and one per content. *)
Fixpoint copyFiles (copies : nat → option error) (st : Store) (job : bytes) (i : nat) (names : list bytes) (files : gmap bytes bytes) : result (gmap bytes bytes) :=
  match names with
  | [] => Ok files
  | name :: names =>
      data ← ReadFile (job_file st job name) MaxOutput;
      match copies i with
      | Some e => Err e
      | None => copyFiles copies st job (S i) names (<[name := data]> files)
      end
  end.

Fixpoint copyJobs (env : inherit_env) (st : Store) (l : list JobRef) (copied : gmap bytes (gmap bytes bytes)) : result (gmap bytes (gmap bytes bytes)) :=
  match l with
  | [] => Ok copied
  | ref :: l =>
      m ← manifest json_error st ref;
      match neMkdir env (jrID ref) with
      | Some e => Err e
      | None =>
          files ← copyFiles (neCopies env (jrID ref)) st (jrID ref) 0 (manifestName :: remove_dups (afID <$> results m)) ∅;
          match neSync env (jrID ref) with
          | Some e => Err e
          | None => copyJobs env st l (<[jrID ref := files]> copied)
          end
      end
  end.

(** What a job takes of the disk. *)
Definition job_bytes (st : Store) (id : bytes) : Z := match stJobs st !! id with Some d => files_bytes d | None => 0 end.

(** What the candidate directory got. *)
Record Inheritance := mkInheritance { ihConfig : bytes; ihInherited : bytes; ihRunID : bytes }.

Definition inherited_config (c : Config) (id : bytes) : Config := mkConfig (cfVersion c) false (cfStorage c) id (cfTCCAsset c).
Definition inherited_references (refs : References) (id : bytes) : References :=
  let 'mkReferences _ tcc image version _ _ l limits := refs in mkReferences false tcc image version id 0 l limits.

(** The three documents, in the order they are written. *)
Definition inherit_texts (env : inherit_env) (c : Config) (refs : References) (id : bytes) (d : Store) : result (Inheritance * Store) :=
  let next := references_text (inherited_references refs id) in
  let config := config_text (inherited_config c id) in
  match atomicJSON (neIndex env) next None, atomicJSON (neConfig env) config None, atomicJSON (neInherited env) next None with
  | (Some e, _), _, _ | (None, _), (Some e, _), _ | (None, _), (None, _), (Some e, _) => Err e
  | (None, index), (None, _), (None, _) =>
      match neJobsSync env, neRootSync env with
      | Some e, _ | None, Some e => Err e
      | None, None => Ok (mkInheritance (line config) (line next) id, set_index index d)
      end
  end.

Definition Inherit (refused : option error) (configOf : bytes → result (option Config)) (removes : bytes → option error) (env : inherit_env)
  (source : RunDir) (archive : Z) (destination id : bytes) (r : Root) : result (option Inheritance) * Root :=
  match ReadReferences json_error (rdArchives source !! archive) with
  | Err e => (Err e, r)
  | Ok None => (Ok None, r)
  | Ok (Some refs) =>
      match LoadConfig json_error (rdConfig source) with
      | Err e => (Err e, r)
      | Ok None => (Err (PlainError (txt "missing source bootstrap store")), r)
      | Ok (Some c) =>
          let '(locked, r) := LockStorage json_error refused c configOf removes r in
          match locked with
          | Err e => (Err e, r)
          | Ok _ =>
              match Storage_Validate json_error c (Some refs) r with
              | Err e => (Err e, r)
              | Ok _ =>
                  let need := 4096 + len (references_text refs) + 1024 + sum ((λ j, job_bytes (here c r) (jrID j)) <$> jobs refs) in
                  match Reserve (inherited_config c id) need need r with
                  | Err e => (Err e, r)
                  | Ok _ =>
                      let '(failed, r) := initializeStorage (neInit env) id destination r in
                      match failed with
                      | Some e => (Err e, r)
                      | None =>
                          match
                            (copied ← copyJobs env (here c r) (jobs refs) ∅;
                             inherit_texts env c refs id (set_store_jobs copied (newStore destination)))
                          with
                          | Err e => (Err e, set_store (neLeft env) id r)
                          | Ok (inh, d) => (Ok (Some inh), set_store (Some d) id r)
                          end
                      end
                  end
              end
          end
      end
  end.

(** The function it returns: without a commit the new store is removed. *)
Definition inherit_done (committed : bool) (removed : option error) (id : bytes) (r : Root) : option error * Root :=
  if committed then (None, r)
  else match removed with Some e => (Some e, r) | None => (None, set_store None id r) end.

Definition ProvisionInherited (refused : option error) (configOf : bytes → result (option Config)) (removes : bytes → option error)
  (answer : result wireResponse) (write : fault) (asset : bytes) (run : RunDir) (r : Root) : option error * RunDir * Root :=
  match LoadConfig json_error (rdConfig run) with
  | Err e => (Some e, run, r)
  | Ok c =>
      let mismatch := PlainError (txt "initial bootstrap provisioning requires matching inherited artifacts") in
      match c with
      | None => (Some mismatch, run, r)
      | Some c =>
          if negb (bool_decide (cfTCCAsset c = asset)) then (Some mismatch, run, r)
          else
            let invalid := PlainError (txt "initial bootstrap inheritance references are missing or invalid") in
            match readReferencesFile json_error (rdInherited run) with
            | Err e => (Some e, run, r)
            | Ok None => (Some invalid, run, r)
            | Ok (Some refs) =>
                if negb (rfGeneration refs =? 0) || rfEnabled refs || negb (bool_decide (arID (rfTCCAsset refs) = asset)) then (Some invalid, run, r)
                else
                  let '(locked, r) := LockStorage json_error refused c configOf removes r in
                  match locked with
                  | Err e => (Some e, run, r)
                  | Ok _ =>
                      match Storage_Validate json_error c (Some refs) r with
                      | Err e => (Some e, run, r)
                      | Ok _ =>
                          match Probe answer with
                          | Some e => (Some e, run, r)
                          | None =>
                              let '(failed, content) := atomicJSON write (config_text (mkConfig (cfVersion c) true (cfStorage c) (cfRunID c) (cfTCCAsset c))) (rdConfig run) in
                              (failed, set_run_config content run, r)
                          end
                      end
                  end
            end
      end
  end.
End Provision.
