(* ===== verification/BootstrapProvisionProofs.v ===== *)
(** * Bootstrap jobs: what provisioning and inheritance guarantee

    A provisioned run opens with its configuration and an empty store of its own; a run
    that inherits an archive has every job of it, byte for byte, and no permission to run
    new ones. *)

From S2P Require Import Prelude GoStd Sha256 SourceCapacity Snapshot Json FeatureStore FeatureProofs ArchiveRecord JsonTree JsonCompact JsonStruct.
From S2P Require Import BootstrapRequest BootstrapRequestProofs BootstrapStore BootstrapText BootstrapStoreProofs BootstrapService BootstrapServiceProofs.
From S2P Require Import BootstrapProvision.
Open Scope Z_scope.

(** ** Configurations and owner records *)

Definition config_ok (c : Config) : Prop :=
  cfVersion c = 1 ∧ validID (cfRunID c) = true ∧ cleanAbsolute (cfStorage c) = true ∧ utf8.Valid (cfStorage c) = true
  ∧ safeAssetID (cfTCCAsset c) = true ∧ len (line (config_text c)) ≤ 4096.

Lemma asset_valid s : safeAssetID s = true → utf8.Valid s = true.
Proof. unfold safeAssetID. intros [Hs _]%andb_true_iff. by destruct (safePath_ok _ Hs) as (_ & _ & ? & _). Qed.

Section Proofs.
Context `{TimeFormat} (json_error : bytes → error).
Implicit Types (st : Store) (r : Root) (c : Config).

Lemma config_roundtrip c : config_ok c → LoadConfig json_error (Some (line (config_text c))) = Ok (Some c).
Proof.
  intros (Hv & Hid & Hs & Hsv & Ha & Hl). unfold LoadConfig, ReadFile. rewrite (proj2 (Z.ltb_ge _ _)) by done. cbn [mbind result_bind].
  unfold line, config_text in *. destruct (validID_valid _ Hid) as [Hidv _]. pose proof (asset_valid _ Ha) as Hav.
  rewrite (strict_Marshal json_error (to_table config_fields) _ [x0a] noConfig c); try done.
  - cbn [mbind result_bind]. by rewrite Hv, Hid, Hs, Ha.
  - apply struct_json_ok. each_field; (split; [done|intros _]); cbn [json_ok]; try done. rewrite Hv. by apply number_ok_Itoa.
  - apply struct_unambiguous; [by vm_compute|]. by each_field.
  - apply Nat.le_trans with 1%nat; [|lia]. apply struct_depth. each_field; cbn; lia.
  - destruct c as [v e s i t]. cbn [cfVersion] in Hv. subst v. unfold config_fields. copy_table.
    cbn [cfVersion cfEnabled cfStorage cfRunID cfTCCAsset noConfig]. rewrite to_from_int by lia. done.
Qed.

Lemma owner_roundtrip path : utf8.Valid path = true → len (line (owner_text (mkOwner 1 path))) ≤ 4096 →
  strictJSON json_error (to_table owner_fields) (line (owner_text (mkOwner 1 path))) (mkOwner 0 []) 4096 = Ok (mkOwner 1 path).
Proof.
  intros Hp Hl. unfold line, owner_text in *. apply (strict_Marshal json_error (to_table owner_fields)); try done.
  - apply struct_json_ok. each_field; (split; [done|intros _]); cbn [json_ok]; try done. by apply number_ok_Itoa.
  - apply struct_unambiguous; [by vm_compute|]. by each_field.
  - apply Nat.le_trans with 1%nat; [|lia]. apply struct_depth. each_field; cbn; lia.
Qed.

(** ** A new store *)

Lemma initializeStorage_ok env id path r r' : initializeStorage env id path r = (None, r') →
  rtStores r !! id = None ∧ len (line (owner_text (mkOwner 1 path))) ≤ 4096 ∧ r' = set_store (Some (newStore path)) id r.
Proof.
  unfold initializeStorage. intros Hi. destruct (4096 <? _) eqn:El; [done|]. destruct (rtInits r !! id); [done|].
  destruct (ieMkdir env); [done|]. destruct (ieOwner env), (ieJobs env), (ieSync env); try done. destruct (rtStores r !! id) eqn:Es; [done|].
  destruct (ieRename env); [done|]. injection Hi as _ <-. zbool. split; [done|]. split; [|done].
  unfold line. rewrite len_app. change (len [x0a]) with 1. lia.
Qed.

Lemma set_store_eq x id r : rtStores (set_store x id r) !! id = x.
Proof. cbn [set_store rtStores]. by rewrite lookup_partial_alter_eq. Qed.

Lemma set_store_ne x id id' r : id ≠ id' → rtStores (set_store x id r) !! id' = rtStores r !! id'.
Proof. intros Hne. cbn [set_store rtStores]. by rewrite lookup_partial_alter_ne. Qed.

Lemma newStore_owned st path : stOwner st = stOwner (newStore path) → utf8.Valid path = true → len (line (owner_text (mkOwner 1 path))) ≤ 4096 → owned json_error path st.
Proof. intros Ho Hp Hl. exists (mkOwner 1 path). rewrite Ho. split; [done|]. split; [by apply owner_roundtrip|done]. Qed.

(** A run that is provisioned for the first time has the configuration it was given, with
    a store of its own that is empty and names it: it is in the state the service starts
    from. Stores with an owner that still exists were not touched. *)
Theorem provisioned_from_nothing refused configOf removes env write synced path root asset id run r run' r' :
  Provision json_error refused configOf removes env write synced path root asset id run r = (None, run', r') →
  rdConfig run = None → utf8.Valid path = true → config_ok (mkConfig 1 true root id asset) →
  provisioned json_error (mkConfig 1 true root id asset) (mkWorld path run' r' None ∅ [])
  ∧ rtStores r' !! id = Some (newStore path) ∧ rdArchives run' = rdArchives run.
Proof.
  intros Hp Hn Hpath Hc. unfold Provision in Hp. destruct (negb (safeAssetID asset)); [done|]. rewrite Hn in Hp. unfold LoadConfig in Hp at 1.
  destruct (LockStorage _ _ _ _ _ _) as [locked r1]. destruct locked; [|done]. destruct (Reserve _ _ _ _); [|done].
  destruct (initializeStorage _ _ _ _) as [failed r2] eqn:Ei. destruct failed; [done|]. destruct (initializeStorage_ok _ _ _ _ _ Ei) as (_ & Hl & ->).
  destruct write as [|e|e]; cbn [atomicJSON] in Hp; [|done|done]. destruct synced; [done|]. injection Hp as <- <-. split; [|split; [apply set_store_eq|done]].
  split; [by apply config_roundtrip|]. split; [|done]. exists (newStore path). split; [apply set_store_eq|by apply newStore_owned].
Qed.

(** ** Inheritance *)

Lemma copyFiles_ok copies st job i names files out : copyFiles copies st job i names files = Ok out →
  ∀ name, out !! name = if bool_decide (name ∈ names) then job_file st job name else files !! name.
Proof.
  revert i files. induction names as [|x names IH]; intros i files Hc name; cbn [copyFiles] in Hc; [by injection Hc as <-|].
  apply bind_Ok in Hc as (data & Hd & Hc). destruct (copies i); [done|]. rewrite (IH _ _ Hc name).
  destruct (decide (name ∈ names)) as [Hin|Hnin].
  - rewrite !bool_decide_eq_true_2; [done|by right|done].
  - rewrite (bool_decide_eq_false_2 _ Hnin). destruct (decide (name = x)) as [->|Hne].
    + rewrite lookup_insert_eq, bool_decide_eq_true_2 by (by left). unfold ReadFile in Hd. destruct (job_file st job x) as [b|]; [|done].
      destruct (MaxOutput <? len b); [done|]. by injection Hd as ->.
    + rewrite lookup_insert_ne by done. rewrite bool_decide_eq_false_2; [done|]. by rewrite elem_of_cons; intros [?|?].
Qed.

(** What is copied of a job. *)
Definition copied_job st st' (ref : JobRef) : Prop :=
  ∃ m, manifest json_error st ref = Ok m
    ∧ ∀ name, name = manifestName ∨ name ∈ afID <$> results m → job_file st' (jrID ref) name = job_file st (jrID ref) name.

Lemma copyJobs_ok env st l copied out : NoDup (jrID <$> l) → copyJobs json_error env st l copied = Ok out →
  (∀ id, id ∉ jrID <$> l → out !! id = copied !! id)
  ∧ Forall (λ ref, ∃ m files, manifest json_error st ref = Ok m ∧ out !! jrID ref = Some files
      ∧ ∀ name, name = manifestName ∨ name ∈ afID <$> results m → files !! name = job_file st (jrID ref) name) l.
Proof.
  revert copied. induction l as [|ref l IH]; intros copied Hnd Hc; cbn [copyJobs] in Hc; [injection Hc as <-; done|].
  apply bind_Ok in Hc as (m & Hm & Hc). destruct (neMkdir _ _); [done|]. apply bind_Ok in Hc as (files & Hf & Hc). destruct (neSync _ _); [done|].
  cbn in Hnd. apply NoDup_cons in Hnd as [Hnew Hnd]. destruct (IH _ Hnd Hc) as [Hout Hall]. split.
  - intros id Hid. cbn in Hid. apply not_elem_of_cons in Hid as [Hne Hid]. rewrite Hout by done. by rewrite lookup_insert_ne.
  - constructor; [|done]. exists m, files. split; [done|]. split; [rewrite Hout by done; by rewrite lookup_insert_eq|].
    intros name Hname. rewrite (copyFiles_ok _ _ _ _ _ _ _ Hf name), bool_decide_eq_true_2; [done|].
    destruct Hname as [->|Hin]; [by left|right]. by apply elem_of_remove_dups.
Qed.

Lemma copied_intact st st' ref : copied_job st st' ref → intact json_error st ref → intact json_error st' ref.
Proof.
  intros (m & Hm & Hf) (m' & Hm' & Hc). assert (m' = m) as -> by congruence. exists m. split.
  - unfold manifest in *. by rewrite (Hf manifestName) by (by left).
  - assert (Hsub : ∀ l, l ⊆ results m → checkContents st (jrID ref) l = Ok () → checkContents st' (jrID ref) l = Ok ()); [|by apply Hsub].
    induction l as [|a l IH]; intros Hl Hcs; [done|]. cbn [checkContents] in *.
    rewrite (Hf (afID a)) by (right; apply list_elem_of_fmap_2, Hl; by left).
    apply bind_Ok in Hcs as (b & -> & Hcs). cbn [mbind result_bind]. destruct (_ || _) in *; [done|]. apply IH; [set_solver|done].
Qed.

Lemma inherit_texts_ok env c refs id d inh d' : inherit_texts env c refs id d = Ok (inh, d') →
  ihConfig inh = line (config_text (inherited_config c id)) ∧ ihInherited inh = line (references_text (inherited_references refs id))
  ∧ ihRunID inh = id ∧ d' = set_index (Some (line (references_text (inherited_references refs id)))) d.
Proof.
  unfold inherit_texts. destruct (neIndex env); cbn [atomicJSON]; [|done|done]. destruct (neConfig env); cbn [atomicJSON]; [|done|done].
  destruct (neInherited env); cbn [atomicJSON]; [|done|done]. destruct (neJobsSync env), (neRootSync env); try done. by intros [= <- <-].
Qed.

Lemma inherited_ok refs id : references_ok refs → validID id = true → references_ok (inherited_references refs id) ∧ jobs (inherited_references refs id) = jobs refs.
Proof.
  destruct refs as [en tcc im v rid g js lim]. intros (? & ? & ? & ? & _ & ? & ? & _ & ? & ? & ?) Hid. split; [|done].
  unfold references_ok, inherited_references. cbn. split_and!; done.
Qed.

(** C22: A run that inherits an archive of another run gets a configuration without the
    permission to run jobs, the references of the archive under its own name as
    generation zero, and a store of its own in which every job of the archive is intact
    and has the same manifest and contents, byte for byte. The store of the source stays
    as it was. *)
Theorem inherited_jobs_identical refused others removes env archive destination id w c content refs inh r' :
  Inherit json_error refused (configs_of json_error w others) removes env (wRun w) archive destination id (wRoot w) = (Ok (Some inh), r') →
  provisioned json_error c w → rdArchives (wRun w) !! archive = Some content → ReadReferences json_error (Some content) = Ok (Some refs) →
  utf8.Valid destination = true → config_ok (inherited_config c id) →
  LoadConfig json_error (Some (ihConfig inh)) = Ok (Some (inherited_config c id))
  ∧ readReferencesFile json_error (Some (ihInherited inh)) = Ok (Some (inherited_references refs id))
  ∧ jobs (inherited_references refs id) = jobs refs ∧ quiet c (wRoot w) r'
  ∧ ∃ st st', rtStores r' !! cfRunID c = Some st ∧ rtStores r' !! id = Some st' ∧ owned json_error destination st'
      ∧ stIndex st' = Some (ihInherited inh) ∧ Forall (λ ref, intact json_error st' ref ∧ copied_job st st' ref) (jobs refs).
Proof.
  intros Hi Hp Harch Href Hdest Hcok. pose proof (provisioned_owned _ c w Hp) as Ho. destruct Hp as (Hc & (st0 & Hst0 & _) & _).
  unfold Inherit in Hi. rewrite Harch, Href, Hc in Hi. destruct (LockStorage _ _ _ _ _ _) as [locked r1] eqn:El.
  pose proof (LockStorage_quiet _ _ _ _ _ _ _ _ _ El (configs_own _ _ _ _ Hc) Ho) as Hq. destruct locked; [|done].
  destruct (Storage_Validate _ _ _ _) as [[]|] eqn:Ev; [|done]. destruct (Reserve _ _ _ _); [|done].
  destruct (initializeStorage _ _ _ _) as [failed r2] eqn:Ei. destruct failed; [done|]. destruct (initializeStorage_ok _ _ _ _ _ Ei) as (Hnone & Hlen & ->).
  destruct (Hq st0 Hst0) as (st & Hst & _). assert (Hne : id ≠ cfRunID c) by (intros ->; congruence).
  assert (Hst2 : rtStores (set_store (Some (newStore destination)) id r1) !! cfRunID c = Some st) by (by rewrite set_store_ne).
  rewrite (here_some _ _ _ Hst2) in Hi.
  match type of Hi with (match ?x with _ => _ end) = _ => destruct x as [[inh' d]|e] eqn:Ec end; [|done]. injection Hi as -> <-.
  apply bind_Ok in Ec as (copied & Ecopy & Etext). destruct (inherit_texts_ok _ _ _ _ _ _ _ Etext) as (-> & -> & _ & ->).
  pose proof (readReferencesFile_ok _ _ _ Href) as Hrok. destruct (inherited_ok refs id Hrok ltac:(apply Hcok)) as [Hiok Hij].
  assert (Hnd : NoDup (jrID <$> jobs refs)) by apply Hrok. destruct (copyJobs_ok _ _ _ _ _ Hnd Ecopy) as [_ Hall].
  refine (conj (config_roundtrip _ Hcok) (conj (references_roundtrip _ _ Hiok) (conj Hij (conj _ _)))).
  { intros s Hs. destruct (Hq s Hs) as (s' & Hs' & Hrest). exists s'. split; [|exact Hrest]. by rewrite !set_store_ne. }
  eexists st, _. split; [by rewrite !set_store_ne|]. split; [apply set_store_eq|]. split; [by apply newStore_owned|]. split; [done|].
  unfold Storage_Validate in Ev. destruct (_ || _) in Ev; [done|]. apply bind_Ok in Ev as (count & Hv%validateJobs_iff & _). rewrite (here_some _ _ _ Hst) in Hv.
  apply Forall_forall. intros ref Hin. rewrite Forall_forall in Hall, Hv. destruct (Hall ref Hin) as (m & files & Hm & Hfiles & Hnames).
  match goal with |- intact _ ?s _ ∧ _ => assert (Hcp : copied_job st s ref) end.
  { exists m. split; [done|]. intros name Hname. unfold job_file at 1. cbn [set_index set_store_jobs stJobs]. rewrite Hfiles. by apply Hnames. }
  split; [|done]. eapply copied_intact; [exact Hcp|by apply Hv].
Qed.
End Proofs.

Module provision_example.
#[local] Existing Instance decimal_times.
Import request_example store_example service_example.
Definition fine : init_env := mkInitEnv None None None None None None None.
Definition copies : inherit_env := mkInheritEnv fine (λ _, None) (λ _ _, None) (λ _, None) NoFault NoFault NoFault None None None.
Definition destination : bytes := bs "/runs/b".
Definition new_id : bytes := Eval vm_compute in Digest (bs "destination").
Definition bare : RunDir := mkRunDir None None ∅.
Lemma config_fine id e : validID id = true → len (line (config_text (mkConfig 1 e (bs "/srv/bootstrap") id (bs "tcc")))) ≤ 4096 → config_ok (mkConfig 1 e (bs "/srv/bootstrap") id (bs "tcc")).
Proof. intros Hid Hl. split; [done|]. split; [done|]. split; [vm_compute; reflexivity|]. split; [vm_compute; reflexivity|]. split; [vm_compute; reflexivity|done]. Qed.
Lemma new_config e : config_ok (mkConfig 1 e (bs "/srv/bootstrap") new_id (bs "tcc")).
Proof. destruct e; (apply config_fine; [vm_compute; reflexivity|apply Z.leb_le; vm_compute; reflexivity]). Qed.
Definition provision : option error * RunDir * Root :=
  Provision no_error None others (λ _, None) fine NoFault None destination (bs "/srv/bootstrap") (bs "tcc") new_id bare (mkRoot ∅ ∅).
Lemma provision_done : provision.1.1 = None.
Proof. vm_compute. reflexivity. Qed.
Lemma none_triple {A B} (p : option error * A * B) : p.1.1 = None → ∃ x y, p = (None, x, y).
Proof. destruct p as [[[e|] x] y]; [done|by exists x, y]. Qed.
Definition is_some_ok {A} (x : GoStd.result (option A)) : bool := match x with Ok (Some _) => true | _ => false end.
Lemma some_pair {A B} (p : GoStd.result (option A) * B) : is_some_ok p.1 = true → ∃ x y, p = (Ok (Some x), y).
Proof. destruct p as [[[x|]|e] y]; [by exists x, y|done|done]. Qed.
Lemma inherits :
  is_some_ok (Inherit no_error None (configs_of no_error start others) (λ _, None) copies (wRun start) 0 destination new_id (wRoot start)).1 = true.
Proof. vm_cast_no_check (eq_refl true). Qed.
End provision_example.

Lemma provisioned_from_nothing_witness :
  ∃ run' r', provision_example.provision = (None, run', r') ∧ rtStores r' !! provision_example.new_id = Some (newStore provision_example.destination).
Proof.
  destruct (provision_example.none_triple _ provision_example.provision_done) as (run' & r' & E). exists run', r'. split; [exact E|].
  refine (proj1 (proj2 (provisioned_from_nothing _ _ _ _ _ _ _ _ _ _ _ _ _ _ _ E eq_refl _ (provision_example.new_config true)))).
  vm_compute. reflexivity.
Defined.

Lemma inherited_jobs_identical_witness :
  ∃ inh r' st', Inherit (H := decimal_times) request_example.no_error None (configs_of request_example.no_error service_example.start service_example.others) (λ _, None)
      provision_example.copies (wRun service_example.start) 0 provision_example.destination provision_example.new_id (wRoot service_example.start) = (Ok (Some inh), r')
    ∧ rtStores r' !! provision_example.new_id = Some st' ∧ intact (H := decimal_times) request_example.no_error st' store_example.old_ref.
Proof.
  destruct (provision_example.some_pair _ provision_example.inherits) as (inh & r' & E).
  destruct (inherited_jobs_identical (H := decimal_times) _ _ _ _ _ _ _ _ _ store_example.config store_example.index store_example.refs _ _ E) as (_ & _ & _ & _ & st & st' & _ & Hs & _ & _ & Hall).
  - apply (service_example.run_provisioned None). intros s Hs. discriminate Hs.
  - reflexivity.
  - exact store_example.refs_read.
  - vm_compute. reflexivity.
  - exact (provision_example.new_config false).
  - exists inh, r', st'. split; [exact E|]. split; [exact Hs|]. apply Forall_inv in Hall. exact (proj1 Hall).
Defined.
